(* ===== verification/_CoqProject ===== *)
-Q . S2P
Prelude.v
Codec.v
Hardfork.v
Packing.v
Layout.v
StorageVec.v
EnumerableSet.v
Keychain.v
KeychainSpend.v
KeychainScope.v
KeychainAdmin.v
AgentState.v
Dispatch.v
AaHook.v
Flz.v
L1Block.v
BaseHandler.v
AaTx.v
SciHandler.v
Buffer.v
Frames.v
Blobs.v
BlobCodec.v
Rollup.v
Channel.v
SystemConfig.v
Deposits.v
L1Info.v
Pipeline.v
SpanBits.v
SpanTxs.v
Batches.v
SpanBatches.v
BatchStages.v
BatchSafety.v
Attributes.v
BlobSource.v
DataSource.v
FrameQueue.v
Traversal.v
ChannelStages.v
Derivation.v
ChannelReader.v
Compress.v
ChannelOut.v
Encoder.v
EncoderChannels.v
EncodeDerive.v
EncoderSafety.v
Throttle.v
TxFees.v
TxNonce.v
TxSend.v
TxSafety.v
Driver.v
DriverSafety.v
DriverStall.v
DriverDelivery.v
