(* ===== verification/Prelude.v ===== *)
(** * Verification of the SCI chain: session keys, fees, derivation and batching

    SCI chain is a Rust execution and consensus stack for an L2 (the Base
    stack, [src/crates] and [src/bin]) extended with agent session keys
    ([src/sci]).  This library models two paths through it.  The first is the
    path of a transaction of type 0x76, a batch of calls signed by an account
    or by a session key of that account (its root), from its encoding down to
    the storage words of the precompiles that police it.  The second is the
    path of L2 blocks through L1: how the batcher encodes blocks into frames,
    and how a node derives them again from L1.

    ** The program and how its parts interact

    Execution:
    - The SCI handler ([crates/common/evm/src/sci_handler.rs]) wraps the Base
      handler ([handler.rs]).  It validates the transaction, charges the root
      for the gas of a sponsored transaction, runs the pre-execution hook,
      executes the batch atomically, refunds the sponsor and finally deducts
      what was spent from the limits of the session key.
    - The hook ([sci/crates/precompiles/src/handler]) checks that the key is
      active, not tripped, allowed to make every call of the batch and has
      quota for gas and for the tokens the batch moves.
    - The account keychain precompile ([account_keychain]) holds keys, periodic
      spending limits, call scopes and burned witnesses; the agent state
      precompile ([sci_agent_state]) holds the trip flags of the circuit
      breaker.  Both are reached from contract code through the boundary in
      [lib.rs] and [dispatch.rs].
    - The precompiles keep their data in contract storage through derived
      struct layouts ([sci/crates/precompiles-macros]), packed words
      ([storage/packing.rs]), vectors and enumerable sets ([storage/types]).
    - The Base handler charges the L1 data fee and the operator fee
      ([l1block.rs], [crates/common/flz]) and pays the fee vaults.

    Batching and derivation:
    - The encoder of the batcher ([crates/batcher/encoder]) composes L2 blocks
      to batches, adds them to compressed channels ([crates/batcher/comp]),
      cuts closed channels into frames, hands the frames out as submissions,
      and follows their confirmation on L1.  The driver of the batcher
      ([crates/batcher/core]) feeds it the blocks of a source, packs its
      submissions into blobs ([crates/batcher/blobs]) and transactions, sends
      as many as it has permits for, gives their outcomes back to the encoder,
      and throttles the block builder by the backlog.
    - The transaction manager ([crates/utilities/tx-manager]) sends the
      transactions: it reserves nonces, signs, publishes, raises the fees of
      what is not included, and polls for receipts, for many sends at once.
    - A node derives the chain in a stack of stages
      ([crates/consensus/derive]): the traversal steps through L1 blocks and
      follows the system configuration; retrieval reads batcher transactions
      and blobs; the frame queue parses frames; the channel stages assemble
      channels; the channel reader decompresses them to batches; the batch
      stages check the batches against the safe chain and cut span batches;
      the attributes queue builds the payload of the next L2 block, with the
      deposits and the L1 info transaction of its L1 origin.
    - The data types of both sides are in [crates/consensus/protocol], the
      configuration in [crates/common/genesis].

    ** Files

    - [Prelude] (this file): the [result] type, the state and error monad
      [stm] with its notations and inversion tactics, total maps, lenses,
      saturating and wrapping machine arithmetic, byte strings.
    - [Codec]: RLP codecs of single values, as a record with its law.
    - [Buffer]: byte buffers with Rust's indexing; [fault] separates errors,
      panics and loops out of fuel.

    Execution:
    - [Hardfork]: hardfork levels of the precompiles and the error type
      ([tempo-chainspec-shim], [error.rs]).
    - [Packing]: packed fields of a 256-bit word ([storage/packing.rs]).
    - [Layout]: the slots and offsets the derive macro assigns, the generated
      load and store, and the packed structs of the keychain
      ([precompiles-macros/src/packing.rs], [storable.rs]).
    - [StorageVec], [EnumerableSet]: vectors and sets in storage
      ([storage/types/vec.rs], [set.rs]); sets are written against the class
      of a vector and a position map.
    - [Keychain]: the data and every operation of [AccountKeychain]
      ([account_keychain/mod.rs]).  [KeychainSpend], [KeychainScope] and
      [KeychainAdmin] hold its theory: limits, call scopes, and invariants over
      all sequences of operations.
    - [AgentState]: the trip flags ([sci_agent_state/mod.rs]).
    - [Dispatch]: input gas, selector schedules, decoding, static and delegate
      call protection, and runs of calls to both precompiles.
    - [AaHook]: [run_aa_keychain_hook] and the deferred deductions.
    - [Flz], [L1Block]: the FastLZ length estimate, and every L1 and operator
      fee function ([l1block.rs], [spec.rs], [upgrade.rs]).
    - [BaseHandler], [AaTx], [SciHandler]: the handlers and the transaction.

    Derivation:
    - [Frames], [Blobs], [BlobCodec]: frames, the blob decoder of derivation,
      and the blob encoder and decoder of the batcher.
    - [Rollup], [SystemConfig]: the rollup configuration with its forks, and
      the system configuration with its updates from L1 logs.
    - [Deposits], [L1Info]: deposits from L1 receipts, the L1 info
      transaction, extra data of headers and conversion of blocks.
    - [Channel], [ChannelStages]: channels, and the channel bank, assembler
      and provider.
    - [Pipeline]: the errors of the pipeline and the classes by which the
      stages know each other.
    - [BlobSource], [DataSource]: the blob and calldata sources.
    - [FrameQueue], [Traversal]: the frame queue, L1 traversal and retrieval.
    - [SpanBits], [SpanTxs], [SpanBatches]: the bit lists, the transaction
      columns and the codec of span batches.
    - [Batches], [BatchStages], [BatchSafety]: validity of single and span
      batches, the batch stages, and the theorems about them.
    - [Attributes]: the attributes builder and queue, and the pipeline driver.
    - [Derivation]: the stack of stages from L1 blocks to channels.
    - [ChannelReader]: decompression, the batch reader and its stage.

    Batching:
    - [Compress]: the Brotli, Zlib, shadow and ratio compressors.
    - [ChannelOut]: building a channel and cutting it into frames.
    - [Encoder]: the state machine [BatchEncoder], its configuration and the
      batch composer.  [EncoderChannels] holds the lemmas on its channels,
      [EncodeDerive] the round trip through derivation, [EncoderSafety] the
      invariant over all sequences of calls and the defects found.
    - [Throttle]: the controller and the throttle of the block builder.
    - [Driver]: the submission queue and the loop of the batcher.  The arm of
      the select that fires and the answers of the clients are inputs of a
      step, so that a theorem over all inputs covers every interleaving.
      [DriverSafety] holds its invariant, [DriverStall] the defect found,
      [DriverDelivery] the delivery of blocks to derivation.
    - [TxFees], [TxNonce]: errors, configuration and fees of the transaction
      manager, and its nonce manager.
    - [TxSend]: a send as a task with its phases, and the system of all sends
      over one nonce manager, driven by a list of events.  [TxSafety] holds its
      theorems.

    State is a record per component, an operation is a function in [stm] that
    keeps the guards, early returns and order of effects of the source, and a
    Rust [Result] is [result].  Integers are [Z] with wrap-around (as release
    builds have it) or saturation written at the operations that have it;
    indices of the encoder are [nat].  Floats are IEEE 754 binary64 values.

    ** What the theorems show

    - Budgets ([KeychainSpend]): along any sequence of spends and refunds a
      key spends at most its limit per window; periods roll over by whole
      periods.
    - Scopes ([KeychainScope]): the call check accepts exactly what the
      published access list allows.
    - Administration ([KeychainAdmin]): well-formedness is invariant; only the
      root administers an account; revocation is final; authorization grants
      exactly what was asked for.
    - Precompile boundary ([Dispatch]): calls made under a session key change
      no key, limit or scope.
    - Transactions ([AaHook], [SciHandler]): the hook passes exactly the
      batches it should; after it passed, the deferred deductions cannot fail
      and charge exactly the spent amounts; batches are atomic; gas of a
      sponsored transaction is paid by and refunded to the root.  One theorem
      records a defect: a failed root-less batch that begins with a creation
      leaves the nonce of its signer unconsumed.
    - Fees ([BaseHandler]): fees are conserved.
    - Storage ([EnumerableSet]): sets refine mathematical sets.
    - Codecs ([Frames], [BlobCodec], [BlobSource], [SpanBatches]): parsing
      frames accepts exactly the encodings of frames; the blob codecs of
      batcher and node are inverse and agree; a span batch decodes to the
      blocks it was built from; arbitrary bytes never panic.
    - Channels ([Channel], [ChannelStages], [FrameQueue], [ChannelReader]):
      frames in any order reassemble; the bank stays within its size; pruning
      leaves frames in order; the reader is total and bounded.
    - L1 data ([SystemConfig], [Deposits], [L1Info]): configuration updates and
      deposits are exactly those of the logs; the configuration survives the
      trip through an L2 block.
    - Batches ([Batches], [BatchSafety], [Attributes]): verdicts are stable,
      validated batches extend the safe chain, a silent batcher does not
      stop it; an accepted span batch derives; the attributes are those of the
      batch and its L1 origin; a reset finds its starting point.  One theorem
      records a run in which the validator lets a batch skip an L1 origin.
    - End to end ([EncodeDerive]): the frames a fresh encoder makes of blocks,
      posted in blobs, are derived as exactly the batches of these blocks.
      [DriverDelivery] lifts this to the driver: with any flushes and timely
      confirmations between the blocks, and no failed transaction, the
      transactions it sends before it stops deliver all of them.
    - Driver ([DriverSafety], [DriverStall]): in every interleaving the
      submissions the encoder waits for are each carried by exactly one
      transaction in flight, every transaction in flight has a permit, and
      every step returns, in single mode.  One theorem records a
      defect: with more than one frame per submission, as a valid
      configuration may have it, the driver can stall for good.
    - Transaction manager ([TxSafety]): in every interleaving of calls of
      [send_async] and [send] no two calls of [send_async] publish under one
      nonce and [send] takes none of theirs, replacements raise the fees of
      what they replace, and a send that has seen its transaction mined does
      not fail.  One theorem records a defect: a nonce that a node finds too
      high is never used again, which stops the account.  Two lemmas record
      that [send] can reuse a nonce and that a tip of zero is not raised.
    - Encoder ([EncoderSafety], [Compress]): in single mode no sequence of
      calls panics or diverges, and the bookkeeping of queues, channels and
      submissions is invariant.  Three theorems record defects: a transaction
      of type 0x76 stops the batcher in span mode; blocks whose frames never
      landed can be lost; the shadow compressor does not keep to its target.

    ** Parameters

    Code outside the repository is a class whose methods are the functions and
    whose laws are their documented behaviour.  Execution: [Keccak256] (the
    theorems that need it assume that the data slots of a vector do not meet
    its length slot), [PrecompileAbi] and [Erc20Abi] (decoding),
    [RlpCodecs]/[RlpLaws] (alloy-rlp), [Revm], [RevmPrice], [RevmGas],
    [RevmCalldata] with [RevmLaws], [RevmGasLaws] (the EVM), and the function
    that runs one call frame.  Derivation: [DepositCodecs], [BlobFees],
    [SolWords], [UpgradeTxs], the providers of L1 and L2 data, [SpanTxCodecs]
    with [SpanTxLaws] and [UvarintLaws], [SingleCodec] with [SingleLaws],
    [Decompressors] with [DecompressorLaws].  Batching: [Compression] with
    [EncoderLaws], [BrotliRoundtrip] (the decoder undoes the encoder), and
    [ChannelRng] with [RngLaws].  Example modules instantiate every class
    concretely, so that no law is vacuous.

    ** Bounds and fuel

    Loops that are not structural carry fuel, and running out of it is a
    value that the theorems exclude: the scanning loops of [Flz] and
    [parse_loop] of [Frames] (length of the input plus one), [prune_loop] of
    [FrameQueue] (twice the number of frames plus one), the loop of the blob
    source (number of blobs plus one), [walk_back] of [Attributes] (number of
    blocks above genesis), [brotli_loop] (66: a buffer that doubles reaches
    any [usize]), [drain_frames] (twice the number of bytes plus two),
    [pack_submissions] (the frames of the ready channels plus one) and
    [submit_loop] (the permits plus one) of [Driver].  For
    [encode_and_drain] a sufficient fuel exists and more does not change the
    result.

    ** Not modelled

    Gas of storage operations and system errors of the database; ABI encoding
    of return data; byte strings, arrays and transient variants in storage;
    signatures and hashing; metrics and logs.  Around the driver of the batcher
    the block sources and the service are asynchronous code over channels and
    RPC; the transaction queue is a semaphore around the modelled sends.  The invariants of the encoder and the driver
    are proved for single mode: in span mode an accumulator with decreasing
    timestamps panics.  The
    engine, proofs, networking, RPC and the services are outside this library;
    the Solidity contracts and the SDK are in other languages.

    ** Plan

    In order: the block sources of the batcher, the sync state of the engine, the
    tries of the proof program, the byte-string storage type. *)

From stdpp Require Export base gmap list strings fin_maps sorting.
From Stdlib Require Export ZArith Lia.

#[global] Open Scope Z_scope.

(** * Fallible and stateful code *)

(** Rust's [Result<A, E>]. *)
Inductive result (E A : Type) : Type :=
| Ok (a : A)
| Err (e : E).
Arguments Ok {E A} _.
Arguments Err {E A} _.

#[global] Instance result_ret {E} : MRet (result E) := fun A a => Ok a.
#[global] Instance result_bind {E} : MBind (result E) :=
  fun A B f m => match m with Ok a => f a | Err e => Err e end.
#[global] Instance result_fmap {E} : FMap (result E) :=
  fun A B f m => match m with Ok a => Ok (f a) | Err e => Err e end.

Definition is_ok {E A} (r : result E A) : bool :=
  match r with Ok _ => true | Err _ => false end.

(** Code that threads a state and may fail. A failing computation keeps the
    writes made before the failure, as a Rust method taking [&mut self] does. *)
Definition stm (S E A : Type) : Type := S -> result E A * S.

#[global] Instance stm_ret {S E} : MRet (stm S E) := fun A a s => (Ok a, s).
#[global] Instance stm_bind {S E} : MBind (stm S E) :=
  fun A B f m s => match m s with
                   | (Ok a, s') => f a s'
                   | (Err e, s') => (Err e, s')
                   end.

Definition throw {S E A} (e : E) : stm S E A := fun s => (Err e, s).
Definition gets {S E A} (f : S -> A) : stm S E A := fun s => (Ok (f s), s).
Definition modify {S E} (f : S -> S) : stm S E unit := fun s => (Ok tt, f s).
Definition reads {S E A} (f : S -> result E A) : stm S E A := fun s => (f s, s).
Definition guard_err {S E} (b : bool) (e : E) : stm S E unit :=
  if b then throw e else mret tt.

(** [for x in l { body(x)? }] *)
Fixpoint for_each {S E X} (l : list X) (body : X -> stm S E unit) : stm S E unit :=
  match l with
  | [] => mret tt
  | x :: l => body x ;; for_each l body
  end.

(** Running an operation of a component on a field of a larger state. *)
Definition zoom {S T E A} (get : S -> T) (put : T -> S -> S) (m : stm T E A) : stm S E A :=
  fun s => let '(r, t) := m (get s) in (r, put t s).

Section stm_lemmas.
Context {S E : Type}.

Lemma bind_ok_inv {A B} (m : stm S E A) (f : A -> stm S E B) s b s' :
  (m ≫= f) s = (Ok b, s') ->
  exists a s1, m s = (Ok a, s1) /\ f a s1 = (Ok b, s').
Proof.
  unfold mbind, stm_bind. destruct (m s) as [[a|e] s1]; intros H; [eauto|discriminate].
Qed.

Lemma bind_err_inv {A B} (m : stm S E A) (f : A -> stm S E B) s e s' :
  (m ≫= f) s = (Err e, s') ->
  m s = (Err e, s') \/ exists a s1, m s = (Ok a, s1) /\ f a s1 = (Err e, s').
Proof.
  unfold mbind, stm_bind. destruct (m s) as [[a|e'] s1]; intros H; [right|left]; eauto.
  by inversion H.
Qed.

Lemma bind_run {A B} (m : stm S E A) (f : A -> stm S E B) s a s1 :
  m s = (Ok a, s1) -> (m ≫= f) s = f a s1.
Proof. unfold mbind, stm_bind. by intros ->. Qed.

Lemma bind_run_err {A B} (m : stm S E A) (f : A -> stm S E B) s e s1 :
  m s = (Err e, s1) -> (m ≫= f) s = (Err e, s1).
Proof. unfold mbind, stm_bind. by intros ->. Qed.

Lemma guard_ok_inv (b : bool) (e : E) (s s' : S) u :
  guard_err b e s = (Ok u, s') -> b = false /\ s' = s.
Proof. unfold guard_err. destruct b; intros H; inversion H; auto. Qed.

Lemma for_each_app {X} (l1 l2 : list X) (body : X -> stm S E unit) s :
  for_each (l1 ++ l2) body s = (for_each l1 body ;; for_each l2 body) s.
Proof.
  revert s; induction l1 as [|x l1 IH]; intros s; [done|].
  cbn. unfold mbind, stm_bind. destruct (body x s) as [[[]|e] s1]; [|done].
  specialize (IH s1). unfold mbind, stm_bind in IH. by rewrite IH.
Qed.

(** An invariant of every step of a loop is an invariant of the loop. *)
Lemma for_each_inv {X} (P : S -> Prop) (l : list X) (body : X -> stm S E unit) s :
  P s -> (forall x s, x ∈ l -> P s -> P (body x s).2) -> P (for_each l body s).2.
Proof.
  revert s; induction l as [|x l IH]; intros s HP Hstep; [done|].
  cbn. unfold mbind, stm_bind.
  pose proof (Hstep x s ltac:(set_solver) HP) as Hx.
  destruct (body x s) as [[[]|e] s1]; [|done].
  apply IH; [done|]. intros y s2 Hy. apply Hstep. set_solver.
Qed.
End stm_lemmas.

(** Invert a successful (or failing) run of a sequence of statements. *)
Ltac stm_inv H :=
  repeat first
    [ progress cbn [fst snd] in H
    | match type of H with
      | (mbind _ _) _ = (Ok _, _) =>
          let H1 := fresh "Hrun" in
          apply bind_ok_inv in H; destruct H as (? & ? & H1 & H); stm_inv_step H1
      | guard_err _ _ _ = (Ok _, _) => apply guard_ok_inv in H; destruct H as [H ->]
      | throw _ _ = (Ok _, _) => discriminate H
      | mret _ _ = (_, _) => injection H as H; subst
      | modify _ _ = (_, _) => injection H as H; subst
      | gets _ _ = (_, _) => injection H as H; subst
      end ]
with stm_inv_step H :=
  try match type of H with
      | guard_err _ _ _ = (Ok _, _) => apply guard_ok_inv in H; destruct H as [H ->]
      | throw _ _ = (Ok _, _) => discriminate H
      | mret _ _ = (Ok _, _) => unfold mret, stm_ret in H; injection H as <- <-
      | modify _ _ = (Ok _, _) => unfold modify in H; injection H as <- <-
      | gets _ _ = (Ok _, _) => unfold gets in H; injection H as <- <-
      | reads _ _ = (Ok _, _) => unfold reads in H; injection H as H <-
      end.

(** Split every [if]/[match] of a hypothesis or of the goal. *)
Ltac break_match_in H :=
  match type of H with
  | context [match ?x with _ => _ end] => destruct x eqn:?
  end.
Ltac break_goal :=
  match goal with
  | |- context [match ?x with _ => _ end] => destruct x eqn:?
  end.
Ltac zbool :=
  repeat match goal with
  | H : andb _ _ = true |- _ => apply andb_true_iff in H; destruct H
  | H : orb _ _ = false |- _ => apply orb_false_iff in H; destruct H
  | H : negb _ = true |- _ => apply negb_true_iff in H
  | H : negb _ = false |- _ => apply negb_false_iff in H
  | H : (_ =? _) = true |- _ => apply Z.eqb_eq in H
  | H : (_ =? _) = false |- _ => apply Z.eqb_neq in H
  | H : (_ <? _) = true |- _ => apply Z.ltb_lt in H
  | H : (_ <? _) = false |- _ => apply Z.ltb_ge in H
  | H : (_ <=? _) = true |- _ => apply Z.leb_le in H
  | H : (_ <=? _) = false |- _ => apply Z.leb_gt in H
  | H : (_ >? _) = true |- _ => rewrite Z.gtb_ltb in H; apply Z.ltb_lt in H
  | H : (_ >? _) = false |- _ => rewrite Z.gtb_ltb in H; apply Z.ltb_ge in H
  | H : (_ >=? _) = true |- _ => rewrite Z.geb_leb in H; apply Z.leb_le in H
  | H : (_ >=? _) = false |- _ => rewrite Z.geb_leb in H; apply Z.leb_gt in H
  | H : bool_decide _ = true |- _ => apply bool_decide_eq_true in H
  | H : bool_decide _ = false |- _ => apply bool_decide_eq_false in H
  end.

(** * Machine integers *)

Definition U8_MAX : Z := 2 ^ 8 - 1.
Definition U16_MAX : Z := 2 ^ 16 - 1.
Definition U32_MAX : Z := 2 ^ 32 - 1.
Definition U64_MAX : Z := 2 ^ 64 - 1.
Definition I64_MAX : Z := 2 ^ 63 - 1.
Definition I64_MIN : Z := - 2 ^ 63.
Definition U128_MAX : Z := 2 ^ 128 - 1.
Definition U256_MAX : Z := 2 ^ 256 - 1.

(** [x] is a value of the unsigned type whose largest value is [m]. *)
Definition fits (m x : Z) : Prop := 0 <= x <= m.

Definition sat_add (m a b : Z) : Z := Z.min (a + b) m.
Definition sat_sub (a b : Z) : Z := Z.max (a - b) 0.
Definition sat_mul (m a b : Z) : Z := Z.min (a * b) m.
Definition checked_add (m a b : Z) : option Z := if a + b <=? m then Some (a + b) else None.
Definition checked_sub (a b : Z) : option Z := if b <=? a then Some (a - b) else None.
Definition checked_mul (m a b : Z) : option Z := if a * b <=? m then Some (a * b) else None.
Definition wrap (m a : Z) : Z := a mod (m + 1).
(** [n.div_ceil(d)] *)
Definition div_ceil (n d : Z) : Z := (n + d - 1) / d.

Lemma fits_sat_add m a b : fits m a -> fits m b -> fits m (sat_add m a b).
Proof. unfold fits, sat_add. lia. Qed.
Lemma fits_sat_sub m a b : fits m a -> fits m b -> fits m (sat_sub a b).
Proof. unfold fits, sat_sub. lia. Qed.
Lemma fits_sat_mul m a b : 0 <= m -> fits m a -> fits m b -> fits m (sat_mul m a b).
Proof. unfold fits, sat_mul. nia. Qed.
Lemma fits_wrap m a : 0 <= m -> fits m (wrap m a).
Proof. unfold fits, wrap. intros. pose proof (Z.mod_pos_bound a (m + 1)). lia. Qed.
Lemma wrap_id m a : fits m a -> wrap m a = a.
Proof. unfold fits, wrap. intros. apply Z.mod_small. lia. Qed.

Create HintDb sci.
Create Rewrite HintDb sci.
#[export] Hint Resolve fits_sat_add fits_sat_sub fits_sat_mul fits_wrap : sci.

(** * Byte strings *)

(** A byte is a [Z] below 256. *)
Definition byte_ok (b : Z) : Prop := 0 <= b < 256.
Abbreviation bytes_ok := (Forall byte_ok).

(** Big-endian value of a byte string. *)
Definition be_val (l : list Z) : Z := foldl (fun acc b => acc * 256 + b) 0 l.

(** The [n] low-order bytes of [v], most significant first ([to_be_bytes]). *)
Fixpoint be_bytes (n : nat) (v : Z) : list Z :=
  match n with
  | O => []
  | S n => be_bytes n (v / 256) ++ [v mod 256]
  end.

Lemma be_val_snoc l b : be_val (l ++ [b]) = be_val l * 256 + b.
Proof. unfold be_val. by rewrite foldl_app. Qed.

Lemma length_be_bytes n v : length (be_bytes n v) = n.
Proof. revert v; induction n; intros v; [done|]. cbn. rewrite length_app, IHn. cbn. lia. Qed.

Lemma be_bytes_ok n v : bytes_ok (be_bytes n v).
Proof.
  revert v; induction n; intros v; [constructor|]. cbn.
  apply Forall_app; split; [apply IHn|]. constructor; [|constructor].
  unfold byte_ok. apply Z.mod_pos_bound. lia.
Qed.

Lemma be_val_be_bytes n v : 0 <= v < 256 ^ Z.of_nat n -> be_val (be_bytes n v) = v.
Proof.
  revert v; induction n as [|n IH]; intros v Hv.
  - cbn in *. lia.
  - cbn [be_bytes]. rewrite be_val_snoc, IH; [pose proof (Z.div_mod v 256); lia|].
    rewrite Nat2Z.inj_succ, Z.pow_succ_r in Hv by lia.
    split; [apply Z.div_pos; lia|]. apply Z.div_lt_upper_bound; lia.
Qed.

Lemma be_val_bound l : bytes_ok l -> 0 <= be_val l < 256 ^ Z.of_nat (length l).
Proof.
  induction l as [|b l IH] using rev_ind; intros Hl; [cbn; lia|].
  apply Forall_app in Hl as [Hl Hb]. apply Forall_cons in Hb as [Hb _].
  unfold byte_ok in Hb.
  rewrite be_val_snoc, length_app. cbn [length].
  rewrite Nat2Z.inj_add, Z.pow_add_r by lia. specialize (IH Hl). cbn. lia.
Qed.

Lemma be_bytes_be_val l n : bytes_ok l -> length l = n -> be_bytes n (be_val l) = l.
Proof.
  revert n; induction l as [|b l IH] using rev_ind; intros n Hl Hn; [by subst|].
  apply Forall_app in Hl as [Hl Hb]. apply Forall_cons in Hb as [Hb _]. unfold byte_ok in Hb.
  rewrite length_app in Hn. cbn in Hn. destruct n as [|n]; [lia|].
  cbn [be_bytes]. rewrite be_val_snoc.
  rewrite Z.div_add_l, Z.div_small, Z.add_0_r by lia.
  rewrite (IH n) by (try done; lia).
  rewrite Z.add_comm, Z.mod_add, Z.mod_small by lia. done.
Qed.

Lemma be_val_fits n m v : m + 1 = 256 ^ Z.of_nat n -> fits m v -> be_val (be_bytes n v) = v.
Proof. unfold fits. intros. apply be_val_be_bytes. lia. Qed.

(** The high and the low bytes of a number. *)
Lemma be_bytes_split m n v : be_bytes (m + n) v = be_bytes m (v / 256 ^ Z.of_nat n) ++ be_bytes n v.
Proof.
  revert v; induction n as [|n IH]; intros v.
  - rewrite Nat.add_0_r, Z.pow_0_r, Z.div_1_r. by rewrite app_nil_r.
  - rewrite <- plus_n_Sm. cbn [be_bytes]. rewrite IH, Nat2Z.inj_succ, Z.pow_succ_r by lia.
    by rewrite Z.div_div, app_assoc by lia.
Qed.
Lemma be_bytes_zero n : be_bytes n 0 = replicate n 0.
Proof. induction n as [|n IH]; [done|]. cbn [be_bytes]. rewrite Z.div_0_l, IH by lia. by rewrite <- replicate_cons_app. Qed.
Lemma drop_be_bytes k n v : drop k (be_bytes (k + n) v) = be_bytes n v.
Proof. rewrite be_bytes_split. by rewrite drop_app_length' by (by rewrite length_be_bytes). Qed.
Lemma take_be_bytes k n v : take k (be_bytes (k + n) v) = be_bytes k (v / 256 ^ Z.of_nat n).
Proof. rewrite be_bytes_split. by rewrite take_app_length' by (by rewrite length_be_bytes). Qed.
Lemma take_be_bytes_small k n v :
  0 <= v < 256 ^ Z.of_nat n -> take k (be_bytes (k + n) v) = replicate k 0.
Proof. intros. rewrite take_be_bytes, Z.div_small, be_bytes_zero by done. done. Qed.

(** * Zero-default maps *)

(** EVM storage and Solidity mappings: every key is present, absent entries
    read as zero, and writing zero removes the entry. *)
Section zmap.
Context {K : Type} `{Countable K}.

Definition zget (m : gmap K Z) (k : K) : Z := default 0 (m !! k).
Definition zset (k : K) (v : Z) (m : gmap K Z) : gmap K Z :=
  if v =? 0 then delete k m else <[k:=v]> m.

Lemma zget_zset m k v k' : zget (zset k v m) k' = if decide (k = k') then v else zget m k'.
Proof.
  unfold zget, zset. destruct (v =? 0) eqn:E; zbool.
  - rewrite lookup_delete. by case_decide; subst.
  - rewrite lookup_insert. by case_decide.
Qed.
Lemma zget_zset_eq m k v : zget (zset k v m) k = v.
Proof. by rewrite zget_zset, decide_True. Qed.
Lemma zget_zset_ne m k v k' : k <> k' -> zget (zset k v m) k' = zget m k'.
Proof. intros. by rewrite zget_zset, decide_False. Qed.
Lemma zget_empty k : zget ∅ k = 0.
Proof. unfold zget. by rewrite lookup_empty. Qed.

(** No entry stores an explicit zero, so maps with the same reads are equal. *)
Definition zcanon (m : gmap K Z) : Prop := forall k, m !! k <> Some 0.

Lemma zcanon_zset k v m : zcanon m -> zcanon (zset k v m).
Proof.
  intros Hm k'. unfold zset. destruct (v =? 0) eqn:E; zbool.
  - rewrite lookup_delete. case_decide; [done|apply Hm].
  - rewrite lookup_insert. case_decide; [congruence|apply Hm].
Qed.
Lemma zmap_eq m1 m2 : zcanon m1 -> zcanon m2 -> (forall k, zget m1 k = zget m2 k) -> m1 = m2.
Proof.
  intros H1 H2 Heq. apply map_eq. intros k. specialize (Heq k). unfold zget in Heq.
  specialize (H1 k). specialize (H2 k).
  destruct (m1 !! k), (m2 !! k); cbn in *; congruence.
Qed.
End zmap.
#[global] Arguments zset {K EqDecision0 H} k v m : simpl never.
#[global] Arguments zget {K EqDecision0 H} m k : simpl never.

#[export] Hint Rewrite @zget_zset_eq @zget_empty : sci.
#[export] Hint Resolve zcanon_zset : sci.

(** Mappings whose values are structs: absent entries read as the default. *)
Definition dget {K V} `{Countable K} (d : V) (m : gmap K V) (k : K) : V := default d (m !! k).

Lemma dget_insert {K V} `{Countable K} (d : V) (m : gmap K V) k v k' :
  dget d (<[k:=v]> m) k' = if decide (k = k') then v else dget d m k'.
Proof. unfold dget. rewrite lookup_insert. by case_decide. Qed.
Lemma dget_insert_eq {K V} `{Countable K} (d : V) (m : gmap K V) k v :
  dget d (<[k:=v]> m) k = v.
Proof. by rewrite dget_insert, decide_True. Qed.
Lemma dget_insert_ne {K V} `{Countable K} (d : V) (m : gmap K V) k v k' :
  k <> k' -> dget d (<[k:=v]> m) k' = dget d m k'.
Proof. intros. by rewrite dget_insert, decide_False. Qed.
#[export] Hint Rewrite @dget_insert_eq : sci.

(** The hash function is code outside the repository. *)
Class Keccak256 := { keccak256 : list Z -> Z }.
