(* ===== verification/Codec.v ===== *)
(** Codecs of single values, as the [Encodable] and [Decodable] traits of the
    [alloy-rlp] crate provide them. The codecs of that crate are parameters of the
    files that use them; their laws are instances of [codec_ok]. *)

From S2P Require Import Prelude.

(** [Encodable] and [Decodable] of a type: encoding, its length, and decoding
    with the rest of the buffer. *)
Record codec (A : Type) := mkCodec {
  enc : A -> list Z;
  enc_len : A -> Z;
  dec : list Z -> option (A * list Z);
}.
Arguments mkCodec {A} _ _ _.
Arguments enc {A} _ _.
Arguments enc_len {A} _ _.
Arguments dec {A} _ _.

Definition codec_ok {A} (P : A -> Prop) (c : codec A) : Prop :=
  forall a, P a -> enc_len c a = Z.of_nat (length (enc c a)) /\
    forall rest, dec c (enc c a ++ rest) = Some (a, rest).

Section codec_lemmas.
Context {A : Type} {P : A -> Prop} {c : codec A}.
Hypothesis Hc : codec_ok P c.

Lemma codec_dec a rest : P a -> dec c (enc c a ++ rest) = Some (a, rest).
Proof. intros Ha. apply (Hc a Ha). Qed.
Lemma codec_len a : P a -> enc_len c a = Z.of_nat (length (enc c a)).
Proof. intros Ha. apply (Hc a Ha). Qed.
End codec_lemmas.

(** One symbol per value. *)
Definition token_codec {A} `{Countable A} : codec A :=
  mkCodec (fun a => [Z.pos (encode a)]) (fun _ => 1)
    (fun buf => match buf with
                | z :: rest => a ← decode (Z.to_pos z); Some (a, rest)
                | [] => None
                end).
Lemma token_codec_ok {A} `{Countable A} (P : A -> Prop) : codec_ok P token_codec.
Proof. intros a _. split; [done|]. intros rest. cbn. by rewrite decode_encode. Qed.

