(* ===== verification/Hardfork.v ===== *)
(** The SCI hardfork ladder ([tempo-chainspec-shim]) and the error type of the
    precompiles ([sci/crates/precompiles/src/error.rs]): every feature gate of
    the keychain is a comparison on the ladder, and the pre-execution hook
    treats errors by the system/business classification of [is_system_error]. *)

From S2P Require Import Prelude.

Inductive TempoHardfork :=
| Genesis | T0 | T1 | T1A | T1B | T1C | T2 | T3 | T4 | T5 | T6.

#[global] Instance TempoHardfork_eq_dec : EqDecision TempoHardfork.
Proof. solve_decision. Defined.

(** [*self as u8]: the discriminant. *)
Definition hardfork_index (h : TempoHardfork) : Z :=
  match h with
  | Genesis => 0 | T0 => 1 | T1 => 2 | T1A => 3 | T1B => 4 | T1C => 5
  | T2 => 6 | T3 => 7 | T4 => 8 | T5 => 9 | T6 => 10
  end.

Definition is_t0 (h : TempoHardfork) : bool := hardfork_index T0 <=? hardfork_index h.
Definition is_t1 (h : TempoHardfork) : bool := hardfork_index T1 <=? hardfork_index h.
Definition is_t2 (h : TempoHardfork) : bool := hardfork_index T2 <=? hardfork_index h.
Definition is_t3 (h : TempoHardfork) : bool := hardfork_index T3 <=? hardfork_index h.
Definition is_t4 (h : TempoHardfork) : bool := hardfork_index T4 <=? hardfork_index h.
Definition is_t5 (h : TempoHardfork) : bool := hardfork_index T5 <=? hardfork_index h.

(** The level at which SCI installs its precompiles ([lib.rs]). *)
Definition SCI_LAUNCH_HARDFORK : TempoHardfork := T5.

(** Each feature level includes the previous ones. *)
Lemma is_t4_t3 h : is_t4 h = true -> is_t3 h = true.
Proof. by destruct h. Qed.
Lemma is_t3_t2 h : is_t3 h = true -> is_t2 h = true.
Proof. by destruct h. Qed.
Lemma is_t5_t4 h : is_t5 h = true -> is_t4 h = true.
Proof. by destruct h. Qed.
Lemma is_t2_t0 h : is_t2 h = true -> is_t0 h = true.
Proof. by destruct h. Qed.
#[export] Hint Resolve is_t4_t3 is_t3_t2 is_t5_t4 is_t2_t0 : sci.

(** * Errors *)

Inductive PanicKind := UnderOverflow | EnumConversionError | ArrayOutOfBounds.

Inductive AccountKeychainError :=
| UnauthorizedCaller
| KeyAlreadyExists
| KeyNotFound
| KeyExpired
| SpendingLimitExceeded
| InvalidSpendingLimit
| InvalidSignatureType
| ZeroPublicKey
| ExpiryInPast
| KeyAlreadyRevoked
| SignatureTypeMismatch (expected actual : Z)
| CallNotAllowed
| InvalidCallScope
| InvalidKeyAuthorizationWitness
| KeyAuthorizationWitnessAlreadyBurned
| LegacyAuthorizeKeySelectorChanged (newSelector : Z).

Inductive SciAgentStateError :=
| Unauthorized
| KeyTripped (sessionKey : Z).

Inductive TempoPrecompileError :=
| Panic (k : PanicKind)
| KeychainErr (e : AccountKeychainError)
| AgentStateErr (e : SciAgentStateError)
| OutOfGas
| UnknownFunctionSelector (selector : Z)
| Fatal (msg : string).

Definition is_system_error (e : TempoPrecompileError) : bool :=
  match e with
  | OutOfGas | Fatal _ | Panic _ => true
  | KeychainErr _ | AgentStateErr _ | UnknownFunctionSelector _ => false
  end.

Definition under_overflow : TempoPrecompileError := Panic UnderOverflow.
