(* ===== verification/Packing.v ===== *)
(** Packing of small values into 256-bit storage words
    ([sci/crates/precompiles/src/storage/packing.rs]): insertion, extraction
    and deletion of a byte lane of a word, and the location arithmetic of
    packed arrays. The packed layout of [AuthorizedKey] built from them is the
    one of [account_keychain/sci_ext.rs]. *)

From S2P Require Import Prelude Hardfork.

(** * U256 bit operations *)

Definition shl256 (x n : Z) : Z := wrap U256_MAX (Z.shiftl x n).
Definition not256 (x : Z) : Z := Z.lxor U256_MAX x.

(** [FromWord]: the canonical right-aligned word of a packable value. *)
Class FromWord (T : Type) := {
  to_word : T -> Z;
  from_word : Z -> result TempoPrecompileError T;
}.

(** * Location arithmetic *)

Record FieldLocation := mkFieldLocation {
  offset_slots : Z;
  offset_bytes : Z;
  fl_size : Z;
}.

Definition calc_element_slot (idx elem_bytes : Z) : Z :=
  let elems_per_slot := 32 / elem_bytes in idx / elems_per_slot.

Definition calc_element_offset (idx elem_bytes : Z) : Z :=
  let elems_per_slot := 32 / elem_bytes in (idx mod elems_per_slot) * elem_bytes.

Definition calc_element_loc (idx elem_bytes : Z) : FieldLocation :=
  mkFieldLocation (calc_element_slot idx elem_bytes) (calc_element_offset idx elem_bytes)
    elem_bytes.

Definition calc_packed_slot_count (n elem_bytes : Z) : Z :=
  let elems_per_slot := 32 / elem_bytes in div_ceil n elems_per_slot.

(** * Lanes of a word *)

Definition create_element_mask (byte_count : Z) : Z :=
  if byte_count >=? 32 then U256_MAX else Z.shiftl 1 (byte_count * 8) - 1.

Definition span_error : TempoPrecompileError := Fatal "value would span slot boundary".

Definition extract_from_word {T} `{FromWord T} (slot_value offset bytes : Z)
  : result TempoPrecompileError T :=
  if offset + bytes >? 32 then Err span_error
  else
    let shift_bits := offset * 8 in
    let mask := create_element_mask bytes in
    from_word (Z.land (Z.shiftr slot_value shift_bits) mask).

Definition insert_into_word {T} `{FromWord T} (current : Z) (value : T) (offset bytes : Z)
  : result TempoPrecompileError Z :=
  if offset + bytes >? 32 then Err span_error
  else
    let field_value := to_word value in
    let shift_bits := offset * 8 in
    let mask := create_element_mask bytes in
    let clear_mask := not256 (shl256 mask shift_bits) in
    let cleared := Z.land current clear_mask in
    let positioned := shl256 (Z.land field_value mask) shift_bits in
    Ok (Z.lor cleared positioned).

Definition delete_from_word (current offset bytes : Z) : result TempoPrecompileError Z :=
  if offset + bytes >? 32 then Err span_error
  else
    let mask := create_element_mask bytes in
    let shifted_mask := shl256 mask (offset * 8) in
    Ok (Z.land current (not256 shifted_mask)).

(** * Bits of the lane operations *)

Lemma testbit_u256_max i : Z.testbit U256_MAX i = bool_decide (0 <= i < 256).
Proof.
  unfold U256_MAX. rewrite Z.sub_1_r, <- Z.ones_equiv.
  destruct (decide (0 <= i < 256)) as [H|H].
  - rewrite bool_decide_eq_true_2 by done. apply Z.ones_spec_low. lia.
  - rewrite bool_decide_eq_false_2 by done.
    destruct (decide (i < 0)); [by apply Z.testbit_neg_r|]. apply Z.ones_spec_high. lia.
Qed.

Lemma testbit_mask bc i :
  0 <= bc -> Z.testbit (create_element_mask bc) i = bool_decide (0 <= i < Z.min 32 bc * 8).
Proof.
  intros Hbc. unfold create_element_mask. destruct (bc >=? 32) eqn:E; zbool.
  - rewrite testbit_u256_max. apply bool_decide_ext. lia.
  - rewrite Z.shiftl_1_l, Z.sub_1_r, <- Z.ones_equiv.
    destruct (decide (0 <= i < Z.min 32 bc * 8)) as [H|H].
    + rewrite bool_decide_eq_true_2 by done. apply Z.ones_spec_low. lia.
    + rewrite bool_decide_eq_false_2 by done.
      destruct (decide (i < 0)); [by apply Z.testbit_neg_r|]. apply Z.ones_spec_high. lia.
Qed.

Lemma testbit_wrap256 x i :
  0 <= i -> Z.testbit (wrap U256_MAX x) i = bool_decide (i < 256) && Z.testbit x i.
Proof.
  intros Hi. unfold wrap, U256_MAX. replace (2 ^ 256 - 1 + 1) with (2 ^ 256) by lia.
  destruct (decide (i < 256)).
  - rewrite Z.mod_pow2_bits_low, bool_decide_eq_true_2 by lia. done.
  - rewrite Z.mod_pow2_bits_high, bool_decide_eq_false_2 by lia. done.
Qed.

Lemma testbit_shl256 x n i :
  0 <= i -> 0 <= n ->
  Z.testbit (shl256 x n) i = bool_decide (i < 256) && Z.testbit x (i - n).
Proof. intros. unfold shl256. by rewrite testbit_wrap256, Z.shiftl_spec by lia. Qed.

Lemma testbit_not256 x i :
  0 <= i -> Z.testbit (not256 x) i = xorb (bool_decide (i < 256)) (Z.testbit x i).
Proof.
  intros. unfold not256. rewrite Z.lxor_spec, testbit_u256_max. f_equal.
  apply bool_decide_ext. lia.
Qed.

(** A value is a [256]-bit word iff its bits above 256 are clear. *)
Lemma fits_u256_bits x :
  0 <= x -> (forall i, 256 <= i -> Z.testbit x i = false) -> fits U256_MAX x.
Proof.
  intros Hx Hi. unfold fits, U256_MAX. split; [done|].
  destruct (decide (x = 0)) as [->|]; [lia|].
  assert (Z.log2 x < 256) as Hlog.
  { destruct (decide (Z.log2 x < 256)); [done|].
    specialize (Hi (Z.log2 x) ltac:(lia)). rewrite Z.bit_log2 in Hi; [done|lia]. }
  pose proof (Z.log2_spec x ltac:(lia)) as [_ Hub].
  pose proof (Z.pow_le_mono_r 2 (Z.succ (Z.log2 x)) 256). lia.
Qed.

Lemma testbit_fits_high m x i :
  fits (2 ^ m - 1) x -> 0 <= m <= i -> Z.testbit x i = false.
Proof.
  intros [H0 H1] Hi.
  rewrite <- (Z.mod_small x (2 ^ m)) by lia. apply Z.mod_pow2_bits_high. lia.
Qed.

(** Bits of a word after inserting [v] in the lane of [b] bytes at byte [off]. *)
Definition in_lane (off b i : Z) : Prop := off * 8 <= i < (off + b) * 8.
#[global] Instance in_lane_dec off b i : Decision (in_lane off b i).
Proof. unfold in_lane. apply _. Defined.

Ltac bool_split :=
  repeat match goal with
  | |- context [bool_decide ?P] =>
      let H := fresh in destruct (decide P) as [H|H];
      [rewrite (bool_decide_eq_true_2 P H) | rewrite (bool_decide_eq_false_2 P H)]
  end.

Section lanes.
Context {T : Type} `{FromWord T}.

Lemma insert_into_word_bits cur (v : T) off b w i :
  0 <= off -> 0 <= b -> fits U256_MAX cur -> 0 <= i ->
  insert_into_word cur v off b = Ok w ->
  Z.testbit w i =
    if decide (in_lane off b i) then Z.testbit (to_word v) (i - off * 8) else Z.testbit cur i.
Proof.
  intros Hoff Hb Hcur Hi. unfold insert_into_word.
  destruct (off + b >? 32) eqn:E; zbool; [done|]. intros [= <-].
  rewrite Z.lor_spec, Z.land_spec, testbit_not256, !testbit_shl256, Z.land_spec,
    !testbit_mask by lia.
  assert (256 <= i -> Z.testbit cur i = false) as Hhigh.
  { intros. apply (testbit_fits_high 256); [done|lia]. }
  unfold in_lane. case_decide as Hl; bool_split; try lia;
    rewrite ?andb_true_r, ?andb_false_r, ?orb_false_r; cbn; try done.
  rewrite Hhigh by lia. done.
Qed.

Lemma insert_into_word_fits cur (v : T) off b w :
  0 <= off -> 0 <= b -> fits U256_MAX cur -> 0 <= to_word v ->
  insert_into_word cur v off b = Ok w -> fits U256_MAX w.
Proof.
  intros Hoff Hb Hcur Hv Hins. apply fits_u256_bits.
  - unfold insert_into_word in Hins. destruct (off + b >? 32); [done|].
    injection Hins as <-. apply Z.lor_nonneg. split.
    + apply Z.land_nonneg. left. apply Hcur.
    + unfold shl256. apply fits_wrap. unfold U256_MAX. lia.
  - intros i Hi. rewrite (insert_into_word_bits cur v off b w i) by (done || lia).
    unfold insert_into_word in Hins. destruct (off + b >? 32) eqn:E; [done|]. zbool.
    rewrite decide_False by (unfold in_lane; lia).
    apply (testbit_fits_high 256); [done|lia].
Qed.

(** Reading back the lane just written gives the value written. *)
Lemma extract_insert_same cur (v : T) off b w :
  0 <= off -> 0 <= b -> fits U256_MAX cur -> fits (2 ^ (8 * b) - 1) (to_word v) ->
  insert_into_word cur v off b = Ok w ->
  extract_from_word w off b = from_word (to_word v).
Proof.
  intros Hoff Hb Hcur Hv Hins. unfold extract_from_word.
  pose proof Hins as Hins'. unfold insert_into_word in Hins'.
  destruct (off + b >? 32) eqn:E; [done|]. clear Hins'. zbool. f_equal.
  apply Z.bits_inj'. intros i Hi.
  rewrite Z.land_spec, Z.shiftr_spec, testbit_mask by lia.
  rewrite (insert_into_word_bits cur v off b w) by (done || lia).
  unfold in_lane. bool_split.
  - rewrite decide_True, andb_true_r by lia. f_equal. lia.
  - rewrite andb_false_r. symmetry. apply (testbit_fits_high (8 * b)); [done|lia].
Qed.

(** Writing a lane leaves every disjoint lane as it was. *)
Lemma extract_insert_disjoint {T2 : Type} {F2 : FromWord T2} cur (v : T) off b w off2 b2 :
  0 <= off -> 0 <= b -> 0 <= off2 -> 0 <= b2 -> fits U256_MAX cur ->
  off + b <= off2 \/ off2 + b2 <= off ->
  insert_into_word cur v off b = Ok w ->
  @extract_from_word T2 F2 w off2 b2 = @extract_from_word T2 F2 cur off2 b2.
Proof.
  intros Hoff Hb Hoff2 Hb2 Hcur Hdis Hins. unfold extract_from_word.
  destruct (off2 + b2 >? 32) eqn:E; [done|]. zbool. f_equal.
  apply Z.bits_inj'. intros i Hi.
  rewrite !Z.land_spec, !Z.shiftr_spec, testbit_mask by lia.
  rewrite (insert_into_word_bits cur v off b w) by (done || lia).
  bool_split; rewrite ?andb_false_r; [|done].
  rewrite decide_False by (unfold in_lane; lia). done.
Qed.
End lanes.

Lemma delete_from_word_bits cur off b w i :
  0 <= off -> 0 <= b -> fits U256_MAX cur -> 0 <= i -> delete_from_word cur off b = Ok w ->
  Z.testbit w i = if decide (in_lane off b i) then false else Z.testbit cur i.
Proof.
  intros Hoff Hb Hcur Hi. unfold delete_from_word.
  destruct (off + b >? 32) eqn:E; zbool; [done|]. intros [= <-].
  rewrite Z.land_spec, testbit_not256, testbit_shl256, testbit_mask by lia.
  assert (256 <= i -> Z.testbit cur i = false) as Hhigh.
  { intros. apply (testbit_fits_high 256); [done|lia]. }
  unfold in_lane. case_decide as Hl; bool_split; try lia; cbn;
    rewrite ?andb_true_r, ?andb_false_r; try done.
  by rewrite Hhigh by lia.
Qed.
