(* ===== verification/Layout.v ===== *)
(** Storage layout of structs: the packing decisions of the [Storable] derive
    macro ([sci/crates/precompiles-macros/src/packing.rs]), the [load] and
    [store] code it generates ([storable.rs]), and the two structs of the
    keychain that use it, [AuthorizedKey] and [SpendingLimitState]
    ([account_keychain/mod.rs], [account_keychain/sci_ext.rs]). *)

From S2P Require Import Prelude Hardfork Packing.

(** Raw storage of one account: slot -> word, zero when absent. *)
Abbreviation storage := (gmap Z Z).

Abbreviation res := (result TempoPrecompileError).

(** [FromWord] for a word kept as is (the values of this file are already the
    [to_word] image of their field). *)
#[global] Instance word_FromWord : FromWord Z := {| to_word w := w; from_word w := Ok w |}.

(** A field of a fixed-size value type: [LAYOUT = Bytes(n)] is packable iff
    [n < 32]; every such type occupies one slot. *)
Definition is_packable (bytes : Z) : bool := bytes <? 32.

(** Slot and offset of the field after [prev] ([gen_slot_packing_logic]). *)
Definition gen_slot_packing_logic (prev : FieldLocation) (curr_bytes : Z) : FieldLocation :=
  let can_pack := offset_bytes prev + fl_size prev + curr_bytes <=? 32 in
  mkFieldLocation
    (if can_pack then offset_slots prev else offset_slots prev + 1)
    (if can_pack then offset_bytes prev + fl_size prev else 0)
    curr_bytes.

Fixpoint gen_locations_from (prev : FieldLocation) (bytes : list Z) : list FieldLocation :=
  match bytes with
  | [] => []
  | b :: bytes =>
      let loc := gen_slot_packing_logic prev b in loc :: gen_locations_from loc bytes
  end.

(** Locations of the fields of a struct, from their sizes ([gen_constants_from_ir]
    with every slot auto-assigned from base slot 0). *)
Definition gen_locations (bytes : list Z) : list FieldLocation :=
  match bytes with
  | [] => []
  | b :: bytes => let loc := mkFieldLocation 0 0 b in loc :: gen_locations_from loc bytes
  end.

Definition slot_at (base off : Z) : Z := wrap U256_MAX (base + off).

(** [gen_load_impl]: [cached] is the word of the slot read last, [prev] the slot
    offset of the previous field. *)
Fixpoint struct_load_from (st : storage) (base cached : Z) (prev : option Z)
    (locs : list FieldLocation) : res (list Z) :=
  match locs with
  | [] => Ok []
  | loc :: locs =>
      let addr := slot_at base (offset_slots loc) in
      let same := match prev with Some p => offset_slots loc =? p | None => false end in
      if is_packable (fl_size loc) then
        let cached := if same then cached else zget st addr in
        w ← extract_from_word cached (offset_bytes loc) (fl_size loc);
        ws ← struct_load_from st base cached (Some (offset_slots loc)) locs;
        Ok (w :: ws)
      else
        ws ← struct_load_from st base cached (Some (offset_slots loc)) locs;
        Ok (zget st addr :: ws)
  end.
Definition struct_load (st : storage) (base : Z) (locs : list FieldLocation) : res (list Z) :=
  struct_load_from st base 0 None locs.

(** [gen_store_impl]: packable fields of one slot accumulate in [pending] and the
    slot is written once, after its last field. *)
Fixpoint struct_store_from (spec : TempoHardfork) (base : Z) (prev : option Z)
    (fields : list (FieldLocation * Z)) (pending_val : Z) (pending_offset : option Z)
    (st : storage) : res storage :=
  match fields with
  | [] => Ok st
  | (loc, w) :: rest =>
      let addr := slot_at base (offset_slots loc) in
      let same := match prev with Some p => offset_slots loc =? p | None => false end in
      let should_store :=
        match rest with
        | (next, _) :: _ =>
            negb (offset_slots loc =? offset_slots next) || negb (is_packable (fl_size next))
        | [] => true
        end in
      let flush st := match pending_offset with
                      | Some o => zset (slot_at base o) pending_val st
                      | None => st
                      end in
      '(st, pending_val, pending_offset) ←
        (if is_packable (fl_size loc) then
           if same then
             v ← insert_into_word pending_val w (offset_bytes loc) (fl_size loc);
             Ok (st, v, pending_offset)
           else
             let st := flush st in
             let init := if is_t4 spec then 0 else zget st addr in
             v ← insert_into_word init w (offset_bytes loc) (fl_size loc);
             Ok (st, v, Some (offset_slots loc))
         else Ok (zset addr w (flush st), pending_val, None));
      let '(st, pending_offset) :=
        match pending_offset with
        | Some o => if should_store then (zset (slot_at base o) pending_val st, None)
                    else (st, pending_offset)
        | None => (st, None)
        end in
      struct_store_from spec base (Some (offset_slots loc)) rest pending_val pending_offset st
  end.
Definition struct_store (spec : TempoHardfork) (base : Z) (fields : list (FieldLocation * Z))
    (st : storage) : res storage :=
  struct_store_from spec base None fields 0 None st.

(** * Layout: fields never overlap *)

Definition size_ok (b : Z) : Prop := 1 <= b <= 32.

(** The location that precedes the first field: a full slot before slot 0. *)
Definition start_loc : FieldLocation := mkFieldLocation (-1) 0 32.

Lemma gen_locations_start bytes :
  Forall size_ok bytes -> gen_locations bytes = gen_locations_from start_loc bytes.
Proof.
  destruct bytes as [|b bytes]; [done|]. intros [Hb _]%Forall_cons. unfold size_ok in Hb.
  cbn [gen_locations gen_locations_from].
  assert (gen_slot_packing_logic start_loc b = mkFieldLocation 0 0 b) as ->; [|done].
  unfold gen_slot_packing_logic; cbn. by destruct (0 + 32 + b <=? 32) eqn:E; zbool; [lia|].
Qed.

Definition can_pack (p : FieldLocation) (b : Z) : bool :=
  offset_bytes p + fl_size p + b <=? 32.

Definition loc_ok (l : FieldLocation) : Prop :=
  0 <= offset_bytes l /\ size_ok (fl_size l) /\ offset_bytes l + fl_size l <= 32.

Lemma gen_slot_packing_logic_ok p b :
  loc_ok p -> size_ok b -> loc_ok (gen_slot_packing_logic p b).
Proof.
  unfold loc_ok, size_ok, gen_slot_packing_logic. intros Hp Hb. cbn.
  destruct (_ <=? 32) eqn:E; zbool; lia.
Qed.

(** [l] lies after [p]: in a later slot, or in a later byte range of the same slot. *)
Definition loc_after (p l : FieldLocation) : Prop :=
  offset_slots p < offset_slots l \/
  (offset_slots p = offset_slots l /\ offset_bytes p + fl_size p <= offset_bytes l).

Lemma gen_slot_packing_logic_after p b :
  loc_ok p -> size_ok b -> loc_after p (gen_slot_packing_logic p b).
Proof.
  unfold loc_after, gen_slot_packing_logic. intros Hp Hb. cbn.
  destruct (_ <=? 32) eqn:E; zbool; lia.
Qed.

Lemma loc_after_trans p l m :
  loc_ok l -> loc_after p l -> loc_after l m -> loc_after p m.
Proof. unfold loc_after, loc_ok, size_ok. lia. Qed.

Lemma gen_locations_from_after p bytes :
  loc_ok p -> Forall size_ok bytes ->
  Forall (fun l => loc_ok l /\ loc_after p l /\
                   offset_slots l <= offset_slots p + Z.of_nat (length bytes))
    (gen_locations_from p bytes).
Proof.
  revert p; induction bytes as [|b bytes IH]; intros p Hp Hbs; [constructor|].
  apply Forall_cons in Hbs as [Hb Hbs]. cbn [gen_locations_from].
  pose proof (gen_slot_packing_logic_ok p b Hp Hb) as Hl.
  pose proof (gen_slot_packing_logic_after p b Hp Hb) as Ha.
  assert (offset_slots (gen_slot_packing_logic p b) <= offset_slots p + 1) as Hs.
  { unfold gen_slot_packing_logic; cbn. destruct (_ <=? 32); lia. }
  constructor; [cbn [length]; split; [done|]; split; [done|lia]|].
  eapply Forall_impl; [apply IH; done|]. cbn [length].
  intros l (Hlok & Hla & Hlt). split; [done|]. split; [|lia].
  eapply loc_after_trans; [exact Hl|exact Ha|exact Hla].
Qed.

(** * Lanes of a stored struct *)

Definition lane_word (w off size : Z) : Z :=
  Z.land (Z.shiftr w (off * 8)) (create_element_mask size).
Definition lane (st : storage) (base : Z) (l : FieldLocation) : Z :=
  lane_word (zget st (slot_at base (offset_slots l))) (offset_bytes l) (fl_size l).
Definition words_ok (st : storage) : Prop := forall k, fits U256_MAX (zget st k).

Lemma words_ok_zset st k v : words_ok st -> fits U256_MAX v -> words_ok (zset k v st).
Proof. intros Hst Hv k'. rewrite zget_zset. by case_decide. Qed.

Lemma lane_word_full w : fits U256_MAX w -> lane_word w 0 32 = w.
Proof.
  intros Hw. unfold lane_word. apply Z.bits_inj'. intros i Hi.
  rewrite Z.land_spec, Z.shiftr_spec, testbit_mask, Z.add_0_r by lia.
  destruct (decide (i < 256)).
  - rewrite bool_decide_eq_true_2, andb_true_r by lia. done.
  - rewrite bool_decide_eq_false_2, andb_false_r by lia. symmetry.
    apply (testbit_fits_high 256); [done|lia].
Qed.

(** A lane is determined by its bits. *)
Lemma lane_word_bits w off size v :
  0 <= off -> 0 <= size <= 32 -> fits (2 ^ (8 * size) - 1) v ->
  (forall i, 0 <= i < size * 8 -> Z.testbit w (off * 8 + i) = Z.testbit v i) ->
  lane_word w off size = v.
Proof.
  intros Hoff Hsize Hv Hbits. unfold lane_word. apply Z.bits_inj'. intros i Hi.
  rewrite Z.land_spec, Z.shiftr_spec, testbit_mask by lia.
  destruct (decide (i < size * 8)).
  - rewrite bool_decide_eq_true_2, andb_true_r by lia. rewrite <- Hbits by lia.
    f_equal. lia.
  - rewrite bool_decide_eq_false_2, andb_false_r by lia. symmetry.
    apply (testbit_fits_high (8 * size)); [done|lia].
Qed.

Lemma slot_at_inj base o1 o2 :
  0 <= o1 <= U256_MAX -> 0 <= o2 <= U256_MAX -> slot_at base o1 = slot_at base o2 -> o1 = o2.
Proof.
  unfold slot_at, wrap. intros H1 H2 Heq.
  assert ((o1 - o2) mod (U256_MAX + 1) = 0) as Hmod.
  { replace (o1 - o2) with ((base + o1) - (base + o2)) by lia.
    rewrite Zminus_mod, Heq, Z.sub_diag. done. }
  apply Z.mod_divide in Hmod; [|unfold U256_MAX; lia]. destruct Hmod as [q Hq].
  unfold U256_MAX in *. nia.
Qed.

(** * Storing a struct *)

(** The slot of the last field stays pending iff the next field packs with it. *)
Definition pends (p : FieldLocation) (bytes : list Z) : bool :=
  match bytes with b :: _ => can_pack p b | [] => false end.

Definition pending_of (p : FieldLocation) (bytes : list Z) : option Z :=
  if pends p bytes then Some (offset_slots p) else None.

Lemma should_store_pends loc bytes (ws : list Z) :
  loc_ok loc -> Forall size_ok bytes -> length ws = length bytes ->
  match zip (gen_locations_from loc bytes) ws with
  | (next, _) :: _ =>
      negb (offset_slots loc =? offset_slots next) || negb (is_packable (fl_size next))
  | [] => true
  end = negb (pends loc bytes).
Proof.
  destruct bytes as [|b bytes], ws as [|w ws]; try done.
  intros Hl [Hb _]%Forall_cons _. unfold loc_ok, size_ok in *.
  cbn. unfold can_pack, is_packable.
  destruct (offset_bytes loc + fl_size loc + b <=? 32) eqn:E; zbool.
  - rewrite Z.eqb_refl. destruct (b <? 32) eqn:E2; zbool; [done|lia].
  - destruct (offset_slots loc =? offset_slots loc + 1) eqn:E2; zbool; [lia|done].
Qed.

Definition word_ok (b w : Z) : Prop := fits (2 ^ (8 * b) - 1) w.

(** Inserting in the lane at [off] fixes that lane and keeps the lower ones. *)
Lemma insert_word_step cur w off b :
  0 <= off -> size_ok b -> off + b <= 32 -> fits U256_MAX cur -> word_ok b w ->
  exists v, insert_into_word cur w off b = Ok v /\ fits U256_MAX v /\
    (forall i, 0 <= i < off * 8 -> Z.testbit v i = Z.testbit cur i) /\
    (forall i, 0 <= i < b * 8 -> Z.testbit v (off * 8 + i) = Z.testbit w i).
Proof.
  unfold size_ok, word_ok. intros Hoff Hb Hfit Hcur Hw.
  destruct (insert_into_word cur w off b) as [v|e] eqn:E.
  2: { unfold insert_into_word in E. destruct (off + b >? 32) eqn:E2; [zbool; lia|done]. }
  exists v. split; [done|]. split; [|split].
  - apply (insert_into_word_fits cur w off b v); try done; [lia|apply Hw].
  - intros i Hi. rewrite (insert_into_word_bits cur w off b v) by (done || lia).
    rewrite decide_False; [done|]. unfold in_lane. lia.
  - intros i Hi. rewrite (insert_into_word_bits cur w off b v) by (done || lia).
    rewrite decide_True by (unfold in_lane; lia). cbn. f_equal. lia.
Qed.

(** Final value of a slot whose low lanes are already right. *)
Lemma lane_of_word st base l v w :
  loc_ok l -> word_ok (fl_size l) w ->
  (forall i, 0 <= i < fl_size l * 8 -> Z.testbit v (offset_bytes l * 8 + i) = Z.testbit w i) ->
  (forall i, 0 <= i < (offset_bytes l + fl_size l) * 8 ->
     Z.testbit (zget st (slot_at base (offset_slots l))) i = Z.testbit v i) ->
  lane st base l = w.
Proof.
  unfold loc_ok, size_ok, word_ok. intros Hl Hw Hv Hst. unfold lane.
  apply lane_word_bits; [lia|lia|done|]. intros i Hi. rewrite Hst by lia. by apply Hv.
Qed.

Section store.
Context (spec : TempoHardfork) (base : Z).

(** What a run of the generated store code over the fields after [p] achieves:
    every field reads back as the word stored, lanes of a slot already pending
    are kept, and no other slot changes. *)
Definition stored_from (p : FieldLocation) (bytes ws : list Z) (pv : Z) (st st' : storage) :=
  words_ok st' /\
  Forall2 (fun l w => lane st' base l = w) (gen_locations_from p bytes) ws /\
  (pends p bytes = true -> forall i, 0 <= i < (offset_bytes p + fl_size p) * 8 ->
     Z.testbit (zget st' (slot_at base (offset_slots p))) i = Z.testbit pv i) /\
  (forall k, (forall l, l ∈ gen_locations_from p bytes -> slot_at base (offset_slots l) <> k) ->
     zget st' k = zget st k).

Lemma slot_not_later p l (bytes : list Z) :
  loc_ok p -> Forall size_ok bytes -> -1 <= offset_slots p ->
  offset_slots p + Z.of_nat (length bytes) <= U256_MAX ->
  0 <= offset_slots p -> pends p bytes = false ->
  l ∈ gen_locations_from p bytes -> slot_at base (offset_slots l) <> slot_at base (offset_slots p).
Proof.
  intros Hp Hbs H1 Hlen H0 Hpend Hl Heq.
  destruct bytes as [|b bytes]; [by apply elem_of_nil in Hl|].
  pose proof (gen_locations_from_after p (b :: bytes) Hp Hbs) as Hall.
  rewrite Forall_forall in Hall. destruct (Hall l Hl) as (Hlok & Hla & Hlt).
  apply slot_at_inj in Heq; [|unfold loc_after in Hla; lia|unfold loc_after in Hla; lia].
  cbn in Hl, Hpend. apply Forall_cons in Hbs as [Hb Hbs].
  assert (offset_slots (gen_slot_packing_logic p b) = offset_slots p + 1) as Hs.
  { unfold gen_slot_packing_logic; cbn. unfold can_pack in Hpend. by rewrite Hpend. }
  apply elem_of_cons in Hl as [->|Hl]; [lia|].
  pose proof (gen_locations_from_after (gen_slot_packing_logic p b) bytes
    ltac:(by apply gen_slot_packing_logic_ok) Hbs) as Hall2.
  rewrite Forall_forall in Hall2. destruct (Hall2 l Hl) as (_ & Hla2 & _).
  unfold loc_after in Hla2. lia.
Qed.

(** One field of the store loop: the word [v] of its slot once the field is
    inserted. *)
Lemma store_field_word p b w pv st :
  let loc := gen_slot_packing_logic p b in
  loc_ok p -> size_ok b -> word_ok b w -> fits U256_MAX pv -> words_ok st ->
  let cur := if can_pack p b then pv
             else if is_t4 spec then 0 else zget st (slot_at base (offset_slots loc)) in
  exists v, insert_into_word cur w (offset_bytes loc) b = Ok v /\ fits U256_MAX v /\
    (forall i, 0 <= i < offset_bytes loc * 8 -> Z.testbit v i = Z.testbit cur i) /\
    (forall i, 0 <= i < b * 8 -> Z.testbit v (offset_bytes loc * 8 + i) = Z.testbit w i).
Proof.
  intros loc Hp Hb Hw Hpv Hst cur.
  assert (loc_ok loc) as Hl by (by apply gen_slot_packing_logic_ok).
  apply insert_word_step; try done; [apply Hl|apply Hl|].
  unfold cur. destruct (can_pack p b); [done|]. destruct (is_t4 spec); [|apply Hst].
  unfold fits, U256_MAX. lia.
Qed.

(** Storage after one field, with its slot written unless it stays pending. *)
Definition store_field (loc : FieldLocation) (bytes : list Z) (v w : Z) (st : storage) : storage :=
  if is_packable (fl_size loc) then
    if pends loc bytes then st else zset (slot_at base (offset_slots loc)) v st
  else zset (slot_at base (offset_slots loc)) w st.

Lemma pends_packable loc bytes :
  loc_ok loc -> Forall size_ok bytes -> pends loc bytes = true -> is_packable (fl_size loc) = true.
Proof.
  destruct bytes as [|b2 bytes]; [done|]. intros Hl [Hb2 _]%Forall_cons.
  cbn. unfold can_pack, is_packable. intros; zbool. apply Z.ltb_lt.
  unfold loc_ok, size_ok in *. lia.
Qed.

Lemma struct_store_from_step p b w bytes ws pv st v :
  let loc := gen_slot_packing_logic p b in
  loc_ok p -> size_ok b -> Forall size_ok bytes -> length ws = length bytes ->
  insert_into_word
    (if can_pack p b then pv
     else if is_t4 spec then 0 else zget st (slot_at base (offset_slots loc)))
    w (offset_bytes loc) b = Ok v ->
  struct_store_from spec base (Some (offset_slots p))
    (zip (gen_locations_from p (b :: bytes)) (w :: ws)) pv (pending_of p (b :: bytes)) st =
  struct_store_from spec base (Some (offset_slots loc)) (zip (gen_locations_from loc bytes) ws)
    (if is_packable b then v else pv) (pending_of loc bytes) (store_field loc bytes v w st).
Proof.
  intros loc Hp Hb Hbs Hlen Hins.
  assert (loc_ok loc) as Hl by (by apply gen_slot_packing_logic_ok).
  pose proof (pends_packable loc bytes Hl Hbs) as Hpp.
  assert (fl_size loc = b) as Hlsz by done. rewrite Hlsz in Hpp.
  cbn [gen_locations_from zip zip_with struct_store_from]. fold loc.
  rewrite (should_store_pends loc bytes ws) by done. rewrite Hlsz.
  unfold pending_of, store_field. rewrite Hlsz. cbn [pends].
  assert (offset_slots loc = if can_pack p b then offset_slots p else offset_slots p + 1)
    as Hslot by done.
  destruct (can_pack p b) eqn:Ecp.
  - assert (is_packable b = true) as ->.
    { unfold can_pack, is_packable, loc_ok, size_ok in *. zbool. apply Z.ltb_lt. lia. }
    rewrite Hslot, Z.eqb_refl, Hins. cbn. by destruct (pends loc bytes).
  - assert ((offset_slots loc =? offset_slots p) = false) as -> by (apply Z.eqb_neq; lia).
    destruct (is_packable b) eqn:Epk.
    + rewrite Hins. cbn. by destruct (pends loc bytes).
    + cbn. destruct (pends loc bytes) eqn:E; [by discriminate Hpp|done].
Qed.

Lemma struct_store_from_spec p bytes ws pv st :
  loc_ok p -> -1 <= offset_slots p ->
  offset_slots p + Z.of_nat (length bytes) <= U256_MAX ->
  (pends p bytes = true -> 0 <= offset_slots p) ->
  Forall2 word_ok bytes ws -> Forall size_ok bytes ->
  fits U256_MAX pv -> words_ok st ->
  exists st', struct_store_from spec base (Some (offset_slots p))
                (zip (gen_locations_from p bytes) ws) pv (pending_of p bytes) st = Ok st' /\
              stored_from p bytes ws pv st st'.
Proof.
  intros Hp Hslot Hlen Hpend Hws. revert p pv st Hp Hslot Hlen Hpend.
  induction Hws as [|b w bytes ws Hw Hws IH]; intros p pv st Hp Hslot Hlen Hpend Hsz Hpv Hst.
  { exists st. split; [done|]. split; [done|]. split; [constructor|]. done. }
  apply Forall_cons in Hsz as [Hb Hsz].
  destruct (store_field_word p b w pv st) as (v & Hins & Hv & Hlow & Hlane); try done.
  rewrite (struct_store_from_step p b w bytes ws pv st v); try done;
    [|symmetry; by eapply Forall2_length].
  set (loc := gen_slot_packing_logic p b) in *.
  assert (loc_ok loc) as Hl by (by apply gen_slot_packing_logic_ok).
  assert (0 <= offset_slots loc /\ offset_slots loc <= offset_slots p + 1) as Hl0.
  { unfold loc, gen_slot_packing_logic; cbn. cbn in Hpend. unfold can_pack in Hpend.
    destruct (_ <=? 32); [split; [by apply Hpend|lia]|lia]. }
  cbn [length] in Hlen. rewrite Nat2Z.inj_succ in Hlen.
  assert (b = 32 -> fits U256_MAX w) as Hw32 by (intros ->; exact Hw).
  assert (is_packable b = false -> b = 32) as Hb32.
  { unfold is_packable, size_ok in *. intros; zbool. lia. }
  destruct (IH loc (if is_packable b then v else pv) (store_field loc bytes v w st))
    as (st' & Hrun & Hok & Hlanes & Hkeep & Hframe); try done; [lia|lia|lia|..].
  { by destruct (is_packable b). }
  { unfold store_field. change (fl_size loc) with b. destruct (is_packable b) eqn:Epk;
      [destruct (pends loc bytes); [done|]|]; apply words_ok_zset; auto. }
  exists st'. split; [done|].
  (* the slot of [loc] in the final storage *)
  assert (pends loc bytes = false ->
          zget st' (slot_at base (offset_slots loc)) = if is_packable b then v else w) as Hfin.
  { intros Hnp. rewrite Hframe.
    - unfold store_field. change (fl_size loc) with b. rewrite Hnp.
      destruct (is_packable b); apply zget_zset_eq.
    - intros l Hin. apply (slot_not_later loc l bytes); try done; lia. }
  assert (is_packable b = true -> forall i, 0 <= i < (offset_bytes loc + b) * 8 ->
          Z.testbit (zget st' (slot_at base (offset_slots loc))) i = Z.testbit v i) as Hbits.
  { intros Hpk i Hi. rewrite Hpk in Hkeep, Hfin. destruct (pends loc bytes) eqn:Ep.
    - by apply Hkeep.
    - by rewrite Hfin. }
  split; [done|]. split; [|split].
  - cbn [gen_locations_from]. fold loc. constructor; [|done].
    destruct (is_packable b) eqn:Epk; [by apply (lane_of_word st' base loc v w); auto|].
    specialize (Hb32 eq_refl). unfold lane. rewrite Hfin.
    + change (fl_size loc) with b. assert (offset_bytes loc = 0) as ->.
      { unfold loc_ok in Hl. change (fl_size loc) with b in Hl. lia. }
      rewrite Hb32. apply lane_word_full. auto.
    + destruct (pends loc bytes) eqn:Ep; [|done].
      pose proof (pends_packable loc bytes Hl Hsz Ep) as Hpk.
      change (fl_size loc) with b in Hpk. congruence.
  - cbn [pends]. intros Hcp i Hi. rewrite Hcp in Hlow.
    assert (offset_slots loc = offset_slots p /\
            offset_bytes loc = offset_bytes p + fl_size p) as [Hs Ho].
    { unfold loc, gen_slot_packing_logic; cbn. unfold can_pack in Hcp. by rewrite Hcp. }
    rewrite <- Hs, Hbits, Hlow; try done; [lia| |unfold size_ok in Hb; lia].
    unfold is_packable, can_pack, loc_ok, size_ok in *. zbool. apply Z.ltb_lt. lia.
  - intros k Hk. rewrite Hframe.
    + unfold store_field. destruct (is_packable _); [destruct (pends loc bytes); [done|]|];
        apply zget_zset_ne; apply Hk; cbn; fold loc; left.
    + intros l Hin. apply Hk. cbn. fold loc. by right.
Qed.
End store.

(** * Loading a struct *)

Lemma lane_extract st base l :
  loc_ok l -> words_ok st ->
  extract_from_word (zget st (slot_at base (offset_slots l))) (offset_bytes l) (fl_size l)
  = Ok (lane st base l).
Proof.
  intros Hl Hst. unfold extract_from_word, lane, lane_word, loc_ok in *.
  destruct (_ >? 32) eqn:E; zbool; [lia|done].
Qed.

Lemma lane_full st base l :
  loc_ok l -> words_ok st -> is_packable (fl_size l) = false ->
  zget st (slot_at base (offset_slots l)) = lane st base l.
Proof.
  unfold loc_ok, size_ok, is_packable. intros Hl Hst Hp. zbool. unfold lane.
  replace (fl_size l) with 32 by lia. replace (offset_bytes l) with 0 by lia.
  symmetry. by apply lane_word_full.
Qed.

Lemma struct_load_from_spec st base p cached bytes :
  loc_ok p -> Forall size_ok bytes -> words_ok st ->
  (pends p bytes = true -> cached = zget st (slot_at base (offset_slots p))) ->
  struct_load_from st base cached (Some (offset_slots p)) (gen_locations_from p bytes)
  = Ok (lane st base <$> gen_locations_from p bytes).
Proof.
  revert p cached; induction bytes as [|b bytes IH]; intros p cached Hp Hsz Hst Hc; [done|].
  apply Forall_cons in Hsz as [Hb Hsz].
  cbn [gen_locations_from struct_load_from fmap list_fmap].
  set (loc := gen_slot_packing_logic p b) in *.
  assert (loc_ok loc) as Hl by (by apply gen_slot_packing_logic_ok).
  change (fl_size loc) with b. destruct (is_packable b) eqn:Epk.
  - assert ((if offset_slots loc =? offset_slots p then cached
             else zget st (slot_at base (offset_slots loc)))
            = zget st (slot_at base (offset_slots loc))) as ->.
    { destruct (offset_slots loc =? offset_slots p) eqn:E; [|done]. zbool. rewrite E. apply Hc.
      cbn. unfold loc, gen_slot_packing_logic in E. cbn in E. unfold can_pack.
      destruct (_ <=? 32); [done|lia]. }
    change b with (fl_size loc) at 1. rewrite lane_extract by done.
    cbn [mbind result_bind]. rewrite IH by done. done.
  - rewrite IH; [|done..|].
    + cbn [mbind result_bind]. rewrite (lane_full st base loc) by done. done.
    + intros Hpd. pose proof (pends_packable loc bytes Hl Hsz Hpd) as Hpk.
      change (fl_size loc) with b in Hpk. congruence.
Qed.

Lemma struct_load_spec st base bytes :
  Forall size_ok bytes -> words_ok st ->
  struct_load st base (gen_locations bytes) = Ok (lane st base <$> gen_locations bytes).
Proof.
  intros Hsz Hst. rewrite gen_locations_start by done.
  rewrite <- (struct_load_from_spec st base start_loc 0 bytes); try done.
  - unfold struct_load. destruct bytes as [|b bytes]; [done|].
    apply Forall_cons in Hsz as [Hb _]. unfold size_ok in Hb.
    assert (offset_slots (gen_slot_packing_logic start_loc b) = 0) as Hs.
    { unfold gen_slot_packing_logic; cbn. destruct (0 + 32 + b <=? 32) eqn:E; [zbool; lia|done]. }
    cbn [gen_locations_from struct_load_from]. rewrite Hs. done.
  - destruct bytes as [|b bytes]; [done|]. apply Forall_cons in Hsz as [Hb _].
    unfold size_ok in Hb. cbn. unfold can_pack. cbn. intros; zbool. lia.
Qed.

Lemma struct_store_spec spec base bytes ws st :
  Forall size_ok bytes -> Z.of_nat (length bytes) <= U256_MAX ->
  Forall2 word_ok bytes ws -> words_ok st ->
  exists st', struct_store spec base (zip (gen_locations bytes) ws) st = Ok st' /\
    words_ok st' /\ lane st' base <$> gen_locations bytes = ws /\
    (forall k, (forall l, l ∈ gen_locations bytes -> slot_at base (offset_slots l) <> k) ->
       zget st' k = zget st k).
Proof.
  intros Hsz Hlen Hws Hst. rewrite gen_locations_start by done.
  assert (pends start_loc bytes = false) as Hnp.
  { destruct bytes as [|b bytes]; [done|]. apply Forall_cons in Hsz as [Hb _].
    unfold size_ok in Hb. cbn. unfold can_pack. cbn. apply Z.leb_gt. lia. }
  destruct (struct_store_from_spec spec base start_loc bytes ws 0 st)
    as (st' & Hrun & Hok & Hlanes & _ & Hframe); try done.
  - unfold start_loc. cbn [offset_slots]. lia.
  - by rewrite Hnp.
  - exists st'. split; [|split; [done|split; [|done]]].
    + rewrite <- Hrun. unfold struct_store, pending_of. rewrite Hnp.
      destruct Hws as [|b w bytes ws]; [done|].
      apply Forall_cons in Hsz as [Hb _]. unfold size_ok in Hb.
      assert (offset_slots (gen_slot_packing_logic start_loc b) = 0) as Hs.
      { unfold gen_slot_packing_logic; cbn. destruct (0 + 32 + b <=? 32) eqn:E; [zbool; lia|done]. }
      cbn [gen_locations_from zip zip_with struct_store_from]. rewrite Hs. done.
    + clear -Hlanes. by induction Hlanes; cbn; [|f_equal].
Qed.

(** * The structs of the keychain *)

(** [account_keychain/mod.rs]: [AuthorizedKey]. *)
Record AuthorizedKey := mkAuthorizedKey {
  signature_type : Z;
  expiry : Z;
  enforce_limits : bool;
  is_revoked : bool;
}.
#[global] Instance AuthorizedKey_eq_dec : EqDecision AuthorizedKey.
Proof. solve_decision. Defined.
Definition default_key : AuthorizedKey := mkAuthorizedKey 0 0 false false.

Definition key_ok (k : AuthorizedKey) : Prop :=
  fits U8_MAX (signature_type k) /\ fits U64_MAX (expiry k).

(** Field sizes: [u8], [u64], [bool], [bool]. *)
Definition authorized_key_layout : list Z := [1; 8; 1; 1].

Definition bool_to_word (b : bool) : Z := if b then 1 else 0.
Definition bool_from_word (w : Z) : bool := negb (w =? 0).
(** [FromWord] of the unsigned integer with largest value [m]. *)
Definition uint_from_word (m w : Z) : res Z := if w <=? m then Ok w else Err under_overflow.

Definition authorized_key_words (k : AuthorizedKey) : list Z :=
  [signature_type k; expiry k; bool_to_word (enforce_limits k); bool_to_word (is_revoked k)].

(** [AuthorizedKey::store] on [PackedSlot(0)] in a scratch context at the default hardfork. *)
Definition encode_authorized_key (k : AuthorizedKey) : res Z :=
  st ← struct_store Genesis 0 (zip (gen_locations authorized_key_layout) (authorized_key_words k)) ∅;
  Ok (zget st 0).

Definition authorized_key_of_words (ws : list Z) : res AuthorizedKey :=
  match ws with
  | [sig; exp; enf; rev] =>
      sig ← uint_from_word U8_MAX sig;
      exp ← uint_from_word U64_MAX exp;
      Ok (mkAuthorizedKey sig exp (bool_from_word enf) (bool_from_word rev))
  | _ => Err (Fatal "layout")
  end.

(** [AuthorizedKey::load] from [PackedSlot(word)]. *)
Definition decode_authorized_key (word : Z) : res AuthorizedKey :=
  ws ← struct_load (zset 0 word ∅) 0 (gen_locations authorized_key_layout);
  authorized_key_of_words ws.

Definition authorized_key_word_is_active (word now : Z) : bool :=
  match decode_authorized_key word with
  | Ok key => negb (expiry key =? 0) && negb (is_revoked key) && (expiry key >? now)
  | Err _ => false
  end.

(** [account_keychain/mod.rs]: [SpendingLimitState]. *)
Record SpendingLimitState := mkSpendingLimitState {
  remaining : Z;
  max : Z;
  period : Z;
  period_end : Z;
}.
#[global] Instance SpendingLimitState_eq_dec : EqDecision SpendingLimitState.
Proof. solve_decision. Defined.
Definition default_limit : SpendingLimitState := mkSpendingLimitState 0 0 0 0.

Definition limit_ok (l : SpendingLimitState) : Prop :=
  fits U256_MAX (remaining l) /\ fits U128_MAX (max l) /\
  fits U64_MAX (period l) /\ fits U64_MAX (period_end l).

(** Field sizes: [U256], [u128], [u64], [u64]. *)
Definition spending_limit_layout : list Z := [32; 16; 8; 8].
Definition spending_limit_words (l : SpendingLimitState) : list Z :=
  [remaining l; max l; period l; period_end l].
Definition spending_limit_of_words (ws : list Z) : res SpendingLimitState :=
  match ws with
  | [r; m; p; e] =>
      m ← uint_from_word U128_MAX m;
      p ← uint_from_word U64_MAX p;
      e ← uint_from_word U64_MAX e;
      Ok (mkSpendingLimitState r m p e)
  | _ => Err (Fatal "layout")
  end.

Definition store_spending_limit (spec : TempoHardfork) (base : Z) (l : SpendingLimitState)
    (st : storage) : res storage :=
  struct_store spec base (zip (gen_locations spending_limit_layout) (spending_limit_words l)) st.
Definition load_spending_limit (st : storage) (base : Z) : res SpendingLimitState :=
  ws ← struct_load st base (gen_locations spending_limit_layout);
  spending_limit_of_words ws.

Lemma uint_from_word_ok m w : fits m w -> uint_from_word m w = Ok w.
Proof. unfold fits, uint_from_word. intros. destruct (w <=? m) eqn:E; [done|zbool; lia]. Qed.

Lemma bool_word_roundtrip b : bool_from_word (bool_to_word b) = b.
Proof. by destruct b. Qed.

Lemma words_ok_empty : words_ok ∅.
Proof. intros k. rewrite zget_empty. unfold fits, U256_MAX. lia. Qed.

Lemma authorized_key_words_ok k :
  key_ok k -> Forall2 word_ok authorized_key_layout (authorized_key_words k).
Proof.
  intros [Hs He]. unfold word_ok.
  repeat constructor; cbn; try apply Hs; try apply He;
    try (destruct (enforce_limits k); unfold bool_to_word; lia);
    destruct (is_revoked k); unfold bool_to_word; lia.
Qed.

Lemma spending_limit_words_ok l :
  limit_ok l -> Forall2 word_ok spending_limit_layout (spending_limit_words l).
Proof. intros (Hr & Hm & Hp & He). repeat constructor; cbn; apply Hr || apply Hm || apply Hp || apply He. Qed.

Lemma layout_sizes_ok : Forall size_ok authorized_key_layout /\ Forall size_ok spending_limit_layout.
Proof. split; repeat constructor; unfold size_ok; lia. Qed.

(** Any storage holding the lanes of an encoded key decodes to that key. *)
Lemma encode_decode_key k w :
  key_ok k -> encode_authorized_key k = Ok w -> decode_authorized_key w = Ok k.
Proof.
  intros Hk. unfold encode_authorized_key.
  destruct (struct_store_spec Genesis 0 authorized_key_layout (authorized_key_words k) ∅)
    as (st' & Hrun & Hok & Hlanes & _).
  - apply layout_sizes_ok.
  - unfold U256_MAX. cbn. lia.
  - by apply authorized_key_words_ok.
  - apply words_ok_empty.
  - rewrite Hrun. cbn [mbind result_bind]. intros [= <-].
    unfold decode_authorized_key. rewrite struct_load_spec.
    + assert (lane (zset 0 (zget st' 0) ∅) 0 <$> gen_locations authorized_key_layout
              = authorized_key_words k) as ->.
      { rewrite <- Hlanes. cbn. unfold lane. cbn. rewrite !zget_zset_eq. done. }
      cbn. destruct Hk. rewrite !uint_from_word_ok by done. cbn.
      rewrite !bool_word_roundtrip. by destruct k.
    + apply layout_sizes_ok.
    + apply words_ok_zset; [apply words_ok_empty|apply Hok].
Qed.

(** * Properties *)

(** The code generated by [derive(Storable)] for a struct of value-type
    fields is a faithful encoding at every hardfork level: storing any field
    values that fit their types succeeds, loading the struct back returns
    exactly those values (fields that share a slot do not disturb each other),
    and no storage slot outside the struct's own slots changes. *)
Theorem struct_store_load spec base bytes ws st :
  Forall size_ok bytes -> Z.of_nat (length bytes) <= U256_MAX ->
  Forall2 word_ok bytes ws -> words_ok st ->
  exists st', struct_store spec base (zip (gen_locations bytes) ws) st = Ok st' /\
    struct_load st' base (gen_locations bytes) = Ok ws /\
    (forall k, (forall l, l ∈ gen_locations bytes -> slot_at base (offset_slots l) <> k) ->
       zget st' k = zget st k).
Proof.
  intros Hsz Hlen Hws Hst.
  destruct (struct_store_spec spec base bytes ws st) as (st' & Hrun & Hok & Hlanes & Hframe);
    try done.
  exists st'. split; [done|]. split; [|done].
  rewrite struct_load_spec by done. by rewrite Hlanes.
Qed.

Lemma struct_store_load_witness :
  exists st', struct_store T5 7 (zip (gen_locations [32; 16; 8; 8]) [5; 6; 7; 8]) ∅ = Ok st' /\
    struct_load st' 7 (gen_locations [32; 16; 8; 8]) = Ok [5; 6; 7; 8] /\
    (forall k, (forall l, l ∈ gen_locations [32; 16; 8; 8] -> slot_at 7 (offset_slots l) <> k) ->
       zget st' k = zget ∅ k).
Proof.
  apply (struct_store_load T5 7 [32; 16; 8; 8] [5; 6; 7; 8] ∅).
  - repeat constructor; unfold size_ok; lia.
  - unfold U256_MAX. cbn. lia.
  - repeat constructor; unfold word_ok, fits; lia.
  - apply words_ok_empty.
Defined.

(** The layout computed by the macro never lets two fields of a struct
    overlap: each field stays within one 32-byte slot, and of two fields the
    later one lies in a later slot or in a later byte range of the same slot. *)
Theorem gen_locations_disjoint bytes i j li lj :
  Forall size_ok bytes -> (i < j)%nat ->
  gen_locations bytes !! i = Some li -> gen_locations bytes !! j = Some lj ->
  offset_bytes li + fl_size li <= 32 /\ offset_bytes lj + fl_size lj <= 32 /\ loc_after li lj.
Proof.
  intros Hsz. rewrite gen_locations_start by done.
  assert (loc_ok start_loc) as Hp by (unfold loc_ok, size_ok; cbn; lia).
  revert i j Hp Hsz; generalize start_loc as p.
  induction bytes as [|b bytes IH]; intros p i j Hp Hsz Hij Hi Hj; [done|].
  apply Forall_cons in Hsz as [Hb Hsz].
  assert (loc_ok (gen_slot_packing_logic p b)) as Hl by (by apply gen_slot_packing_logic_ok).
  cbn [gen_locations_from] in Hi, Hj. destruct j as [|j]; [lia|]. cbn in Hj.
  destruct i as [|i]; [|by apply (IH (gen_slot_packing_logic p b) i j); try done; lia].
  cbn in Hi. injection Hi as <-.
  pose proof (gen_locations_from_after (gen_slot_packing_logic p b) bytes Hl Hsz) as Hall.
  rewrite Forall_forall in Hall.
  destruct (Hall lj) as (Hlj & Haft & _); [by eapply list_elem_of_lookup_2|].
  split; [apply Hl|]. split; [apply Hlj|done].
Qed.

Lemma gen_locations_disjoint_witness :
  32 <= 32 /\ 16 + 8 <= 32 /\
  loc_after (mkFieldLocation 0 0 32) (mkFieldLocation 1 16 8).
Proof.
  apply (gen_locations_disjoint [32; 16; 8; 8] 0%nat 2%nat
           (mkFieldLocation 0 0 32) (mkFieldLocation 1 16 8)).
  - repeat constructor; unfold size_ok; lia.
  - lia.
  - reflexivity.
  - reflexivity.
Defined.

(** Encoding an [AuthorizedKey] into its storage word and decoding the word
    gives the key back, for every key whose fields fit their Rust types; and
    the word-level activity test of the transaction pool agrees with the
    fields: registered, not revoked and not yet expired. *)
Theorem authorized_key_roundtrip k :
  key_ok k ->
  exists w, encode_authorized_key k = Ok w /\ decode_authorized_key w = Ok k /\
    forall now, 0 <= now ->
      (authorized_key_word_is_active w now = true <-> is_revoked k = false /\ now < expiry k).
Proof.
  intros Hk.
  destruct (struct_store_spec Genesis 0 authorized_key_layout (authorized_key_words k) ∅)
    as (st' & Hrun & _); try apply layout_sizes_ok; try done.
  - by apply authorized_key_words_ok.
  - assert (encode_authorized_key k = Ok (zget st' 0)) as Henc.
    { unfold encode_authorized_key. by rewrite Hrun. }
    pose proof (encode_decode_key k _ Hk Henc) as Hdec.
    exists (zget st' 0). split; [done|]. split; [done|]. intros now Hnow.
    unfold authorized_key_word_is_active. rewrite Hdec. destruct Hk as [_ He].
    unfold fits in He. rewrite !andb_true_iff, !negb_true_iff, Z.gtb_ltb, Z.ltb_lt, Z.eqb_neq.
    intuition lia.
Qed.

Lemma authorized_key_roundtrip_witness :
  exists w, encode_authorized_key (mkAuthorizedKey 1 1234567 true false) = Ok w /\
    decode_authorized_key w = Ok (mkAuthorizedKey 1 1234567 true false) /\
    forall now, 0 <= now ->
      (authorized_key_word_is_active w now = true <-> false = false /\ now < 1234567).
Proof.
  apply (authorized_key_roundtrip (mkAuthorizedKey 1 1234567 true false)).
  unfold key_ok, fits, U8_MAX, U64_MAX. cbn. lia.
Defined.
