(* ===== verification/StorageVec.v ===== *)
(** Dynamic arrays in contract storage: [storage/types/vec.rs] over the value
    types of [storage/types/mod.rs] ([LayoutCtx], [Slot], the blanket
    [Storable] implementation, [mapping_slot]).

    An element is modelled by the word its type encodes to ([FromWord::to_word]);
    [BYTES] is the size of the element type and [SLOTS] is 1, as for every value
    type. Elements of at most 16 bytes share slots. Storage reads and writes do
    not fail (gas is not modelled). *)

From S2P Require Import Prelude Hardfork Packing Layout.

(** Storage code: it threads the slots of one account and may fail. *)
Abbreviation io := (stm storage TempoPrecompileError).

Definition sload (slot : Z) : io Z := gets (fun st => zget st slot).
Definition sstore (slot v : Z) : io unit := modify (zset slot v).

(** [storage/types/mod.rs]: [LayoutCtx]. *)
Inductive LayoutCtx := FULL | INIT | packed (offset : Z).

Definition packed_offset (ctx : LayoutCtx) : option Z :=
  match ctx with packed off => Some off | FULL | INIT => None end.
Definition skip_tail_cleanup (ctx : LayoutCtx) : bool :=
  match ctx with INIT => true | FULL | packed _ => false end.

Section value_types.
Context (BYTES : Z).

(** The blanket [Storable] implementation: [load], [store], and the default
    [delete] of the trait, at [SLOTS = 1]. *)
Definition value_load (slot : Z) (ctx : LayoutCtx) : io Z :=
  match packed_offset ctx with
  | None => w ← sload slot; reads (fun _ => from_word w)
  | Some offset => slot_value ← sload slot; reads (fun _ => extract_from_word slot_value offset BYTES)
  end.

Definition value_store (value slot : Z) (ctx : LayoutCtx) : io unit :=
  match packed_offset ctx with
  | None => sstore slot (to_word value)
  | Some offset =>
      current ← sload slot;
      updated ← reads (fun _ => insert_into_word current value offset BYTES);
      sstore slot updated
  end.

Definition value_delete (slot : Z) (ctx : LayoutCtx) : io unit :=
  match packed_offset ctx with
  | None => for_each (seqZ 0 1) (fun offset => sstore (slot_at slot offset) 0)
  | Some offset =>
      current ← sload slot;
      cleared ← reads (fun _ => delete_from_word current offset BYTES);
      sstore slot cleared
  end.
End value_types.

Section vec.
Context `{Keccak256} (spec : TempoHardfork) (BYTES : Z).

Definition SLOTS : Z := 1.

Definition load_checked_len (slot : Z) : io Z :=
  raw ← sload slot;
  guard_err (raw >? U32_MAX) under_overflow;;
  mret raw.

Definition calc_data_slot (len_slot : Z) : Z := keccak256 (be_bytes 32 len_slot).

Definition clear_elements (data_start from to : Z) : io unit :=
  if from >=? to then mret tt
  else if BYTES <=? 16 then
    let from_slots := calc_packed_slot_count from BYTES in
    let to_slots := calc_packed_slot_count to BYTES in
    for_each (seqZ from_slots (to_slots - from_slots)) (fun slot_idx =>
      sstore (slot_at data_start slot_idx) 0)
  else
    for_each (seqZ from (to - from)) (fun elem_idx =>
      value_delete BYTES (slot_at data_start (elem_idx * SLOTS)) FULL).

(** The elements of one slot, [n] of them from byte [offset] on. *)
Fixpoint load_slot_elements (slot_value offset : Z) (n : nat) : res (list Z) :=
  match n with
  | O => Ok []
  | S n =>
      elem ← extract_from_word slot_value offset BYTES;
      let offset := if offset + BYTES >=? 32 then 0 else offset + BYTES in
      rest ← load_slot_elements slot_value offset n;
      Ok (elem :: rest)
  end.

Fixpoint collect {S E X Y} (l : list X) (body : X -> stm S E Y) : stm S E (list Y) :=
  match l with
  | [] => mret []
  | x :: l => y ← body x; ys ← collect l body; mret (y :: ys)
  end.

Definition load_packed_elements (data_start length_ byte_count : Z) : io (list Z) :=
  let elements_per_slot := 32 / byte_count in
  let slot_count := calc_packed_slot_count length_ byte_count in
  slots ← collect (seqZ 0 slot_count) (fun slot_idx =>
    slot_value ← sload (slot_at data_start slot_idx);
    let elements_in_this_slot :=
      if slot_idx =? slot_count - 1 then length_ - slot_idx * elements_per_slot
      else elements_per_slot in
    reads (fun _ => load_slot_elements slot_value 0 (Z.to_nat elements_in_this_slot)));
  mret (concat slots).

Fixpoint build_packed_slot_from (slot_value offset : Z) (elements : list Z) : res Z :=
  match elements with
  | [] => Ok slot_value
  | elem :: elements =>
      slot_value ← insert_into_word slot_value elem offset BYTES;
      build_packed_slot_from slot_value (offset + BYTES) elements
  end.

Definition build_packed_slot (elements : list Z) : res Z := build_packed_slot_from 0 0 elements.

Definition store_packed_elements (elements : list Z) (data_start : Z) : io unit :=
  let elements_per_slot := 32 / BYTES in
  let slot_count := calc_packed_slot_count (Z.of_nat (length elements)) BYTES in
  for_each (seqZ 0 slot_count) (fun slot_idx =>
    let start_elem := slot_idx * elements_per_slot in
    let end_elem := Z.min (start_elem + elements_per_slot) (Z.of_nat (length elements)) in
    slot_value ← reads (fun _ =>
      build_packed_slot (take (Z.to_nat (end_elem - start_elem))
                              (drop (Z.to_nat start_elem) elements)));
    sstore (slot_at data_start slot_idx) slot_value).

Definition load_unpacked_elements (data_start length_ : Z) : io (list Z) :=
  collect (seqZ 0 length_) (fun index =>
    value_load BYTES (slot_at data_start (index * SLOTS)) FULL).

Definition store_unpacked_elements (elements : list Z) (data_start : Z) : io unit :=
  for_each (zip (seqZ 0 (Z.of_nat (length elements))) elements) (fun '(elem_idx, elem) =>
    value_store BYTES elem (slot_at data_start (elem_idx * SLOTS)) FULL).

(** [Storable for Vec<T>]. *)
Definition vec_load (len_slot : Z) : io (list Z) :=
  length_ ← load_checked_len len_slot;
  if length_ =? 0 then mret []
  else
    let data_start := calc_data_slot len_slot in
    if BYTES <=? 16 then load_packed_elements data_start length_ BYTES
    else load_unpacked_elements data_start length_.

Definition vec_store (elements : list Z) (len_slot : Z) (ctx : LayoutCtx) : io unit :=
  let data_start := calc_data_slot len_slot in
  (if negb (skip_tail_cleanup ctx) && is_t5 spec then
     prev_len ← load_checked_len len_slot;
     let new_len := Z.of_nat (length elements) in
     if prev_len >? new_len then clear_elements data_start new_len prev_len else mret tt
   else mret tt);;
  sstore len_slot (Z.of_nat (length elements));;
  match elements with
  | [] => mret tt
  | _ => if BYTES <=? 16 then store_packed_elements elements data_start
         else store_unpacked_elements elements data_start
  end.

Definition vec_delete (len_slot : Z) : io unit :=
  length_ ← load_checked_len len_slot;
  sstore len_slot 0;;
  if length_ =? 0 then mret tt else clear_elements (calc_data_slot len_slot) 0 length_.

(** [VecHandler]. *)
Definition max_index : Z := if BYTES <=? 16 then U32_MAX / BYTES else U32_MAX / SLOTS.

Definition compute_handler (data_start index : Z) : Z * LayoutCtx :=
  if BYTES <=? 16 then
    let location := calc_element_loc index BYTES in
    (slot_at data_start (offset_slots location), packed (offset_bytes location))
  else (slot_at data_start (index * SLOTS), FULL).

Definition handler_read (h : Z * LayoutCtx) : io Z := value_load BYTES h.1 h.2.
Definition handler_write (h : Z * LayoutCtx) (v : Z) : io unit := value_store BYTES v h.1 h.2.
Definition handler_delete (h : Z * LayoutCtx) : io unit := value_delete BYTES h.1 h.2.

Definition vec_at (len_slot index : Z) : io (option (Z * LayoutCtx)) :=
  len ← load_checked_len len_slot;
  if index >=? len then mret None
  else mret (Some (compute_handler (calc_data_slot len_slot) index)).

Definition vec_push (len_slot value : Z) : io unit :=
  length_ ← load_checked_len len_slot;
  guard_err (length_ >=? max_index) (Fatal "Vec is at max capacity");;
  (if BYTES <=? 16 then handler_write (compute_handler (calc_data_slot len_slot) length_) value
   else value_store BYTES value (slot_at (calc_data_slot len_slot) (length_ * SLOTS)) INIT);;
  sstore len_slot (length_ + 1).

Definition vec_pop (len_slot : Z) : io (option Z) :=
  length_ ← load_checked_len len_slot;
  if length_ =? 0 then mret None
  else
    let last_index := length_ - 1 in
    let elem_slot := compute_handler (calc_data_slot len_slot) last_index in
    element ← handler_read elem_slot;
    handler_delete elem_slot;;
    sstore len_slot last_index;;
    mret (Some element).
End vec.

(** * Loops over consecutive slots *)

Lemma collect_pure {S E X Y} (g : X -> Y) (l : list X) (body : X -> stm S E Y) s :
  (forall x, x ∈ l -> body x s = (Ok (g x), s)) -> collect l body s = (Ok (g <$> l), s).
Proof.
  induction l as [|x l IH]; intros Hb; [done|]. cbn [collect].
  rewrite (bind_run _ _ _ _ _ (Hb x ltac:(set_solver))).
  rewrite (bind_run _ _ _ (g <$> l) s); [done|]. apply IH. set_solver.
Qed.

Lemma for_each_ext {S E X} (l : list X) (f g : X -> stm S E unit) s :
  (forall x s, x ∈ l -> f x s = g x s) -> for_each l f s = for_each l g s.
Proof.
  revert s. induction l as [|x l IH]; intros s Hfg; [done|]. cbn.
  unfold mbind, stm_bind. rewrite Hfg by set_solver.
  destruct (g x s) as [[u|e] s1]; [|done]. apply IH. set_solver.
Qed.

Lemma for_each_map {S E X Y} (h : X -> Y) (l : list X) (f : Y -> stm S E unit) s :
  for_each (h <$> l) f s = for_each l (fun x => f (h x)) s.
Proof.
  revert s. induction l as [|x l IH]; intros s; [done|]. cbn.
  unfold mbind, stm_bind. destruct (f (h x) s) as [[u|e] s1]; [|done]. apply IH.
Qed.

(** Slots written by a loop. *)
Definition writes_slots (data a n : Z) (W : Z -> Z) (st st' : storage) : Prop :=
  (forall o, a <= o < a + n -> zget st' (slot_at data o) = W o) /\
  (forall k, (forall o, a <= o < a + n -> slot_at data o <> k) -> zget st' k = zget st k).

Lemma writes_slots_words_ok data a n W st st' :
  writes_slots data a n W st st' -> words_ok st ->
  (forall o, a <= o < a + n -> fits U256_MAX (W o)) -> words_ok st'.
Proof.
  intros [Hin Hout] Hst HW k.
  destruct (decide (Exists (fun o => slot_at data o = k) (seqZ a n))) as [Hex|Hnex].
  - apply Exists_exists in Hex as (o & Ho%elem_of_seqZ & <-). rewrite Hin; auto.
  - rewrite Hout; [done|]. intros o Ho Heq. apply Hnex, Exists_exists. exists o.
    split; [by apply elem_of_seqZ|done].
Qed.

Lemma sstore_loop W data a n st :
  0 <= a -> 0 <= n -> a + n <= U256_MAX ->
  exists st', for_each (seqZ a n) (fun o => sstore (slot_at data o) (W o)) st = (Ok tt, st') /\
    writes_slots data a n W st st'.
Proof.
  intros Ha Hn. revert a Ha st. pattern n. apply natlike_ind; [..|done]; clear n Hn.
  - intros a Ha st Hb. exists st. rewrite seqZ_nil by lia. repeat split. intros o Ho. lia.
  - intros n Hn IH a Ha st Hb. rewrite seqZ_cons by lia.
    replace (Z.pred (Z.succ n)) with n by lia.
    destruct (IH (Z.succ a) ltac:(lia) (zset (slot_at data a) (W a) st) ltac:(lia))
      as (st' & Hrun & Hin & Hout).
    exists st'. split; [done|]. split.
    + intros o Ho. destruct (decide (o = a)) as [->|]; [|apply Hin; lia].
      rewrite Hout; [apply zget_zset_eq|]. intros o Ho' Heq.
      apply slot_at_inj in Heq; lia.
    + intros k Hk. rewrite Hout by (intros; apply Hk; lia).
      apply zget_zset_ne, Hk. lia.
Qed.

(** * Lanes of the elements *)

Lemma lane_word_extract w off size :
  off + size <= 32 -> extract_from_word w off size = Ok (lane_word w off size).
Proof.
  intros. unfold extract_from_word, lane_word. destruct (off + size >? 32) eqn:E; [zbool; lia|done].
Qed.

Lemma lane_word_fits w off size :
  0 <= off -> 0 <= size <= 32 -> word_ok size (lane_word w off size).
Proof.
  intros Hoff Hs. unfold word_ok, fits, lane_word, create_element_mask.
  assert (2 ^ (8 * size) - 1 = Z.ones (8 * size)) as -> by (rewrite Z.ones_equiv; lia).
  assert ((if size >=? 32 then U256_MAX else Z.shiftl 1 (size * 8) - 1) = Z.ones (8 * size)) as ->.
  { destruct (size >=? 32) eqn:E; zbool.
    - replace size with 32 by lia. done.
    - rewrite Z.shiftl_1_l, Z.ones_equiv, (Z.mul_comm size 8). lia. }
  rewrite Z.land_ones, Z.ones_equiv by lia.
  pose proof (Z.mod_pos_bound (Z.shiftr w (off * 8)) (2 ^ (8 * size)) ltac:(lia)). lia.
Qed.

Lemma lane_insert cur v off b w off2 b2 :
  0 <= off -> size_ok b -> 0 <= off2 -> size_ok b2 -> off2 + b2 <= 32 ->
  fits U256_MAX cur -> word_ok b v ->
  insert_into_word cur v off b = Ok w ->
  (off = off2 -> b = b2 -> lane_word w off2 b2 = v) /\
  (off + b <= off2 \/ off2 + b2 <= off -> lane_word w off2 b2 = lane_word cur off2 b2).
Proof.
  unfold size_ok. intros Hoff Hb Hoff2 Hb2 Hfit Hcur Hv Hins. split.
  - intros <- <-. pose proof (extract_insert_same cur v off b w Hoff ltac:(lia) Hcur Hv Hins) as Hx.
    rewrite lane_word_extract in Hx by lia. by injection Hx.
  - intros Hd. pose proof (@extract_insert_disjoint Z _ Z word_FromWord cur v off b w off2 b2) as Hx.
    rewrite !lane_word_extract in Hx by lia. specialize (Hx Hoff ltac:(lia) Hoff2 ltac:(lia) Hcur Hd Hins).
    by injection Hx.
Qed.

Lemma lane_delete cur off b w off2 b2 :
  0 <= off -> size_ok b -> 0 <= off2 -> size_ok b2 ->
  fits U256_MAX cur -> delete_from_word cur off b = Ok w ->
  (off = off2 -> b = b2 -> lane_word w off2 b2 = 0) /\
  (off + b <= off2 \/ off2 + b2 <= off -> lane_word w off2 b2 = lane_word cur off2 b2).
Proof.
  unfold size_ok. intros Hoff Hb Hoff2 Hb2 Hcur Hdel. split.
  - intros <- <-. apply lane_word_bits; [lia..| |].
    + unfold fits. lia.
    + intros i Hi. rewrite (delete_from_word_bits cur off b w) by (done || lia).
      rewrite decide_True by (unfold in_lane; lia). by rewrite Z.bits_0.
  - intros Hd. apply Z.bits_inj'. intros i Hi. unfold lane_word.
    rewrite !Z.land_spec, !Z.shiftr_spec, !testbit_mask by lia.
    destruct (decide (i < Z.min 32 b2 * 8)).
    + rewrite (delete_from_word_bits cur off b w) by (done || lia).
      rewrite decide_False by (unfold in_lane; lia). done.
    + rewrite bool_decide_eq_false_2 by lia. by rewrite !andb_false_r.
Qed.

Lemma delete_from_word_ok cur off b :
  0 <= off -> size_ok b -> off + b <= 32 -> fits U256_MAX cur ->
  exists w, delete_from_word cur off b = Ok w /\ fits U256_MAX w.
Proof.
  unfold size_ok. intros Hoff Hb Hfit Hcur.
  destruct (delete_from_word cur off b) as [w|e] eqn:E.
  2: { unfold delete_from_word in E. destruct (off + b >? 32) eqn:E2; [zbool; lia|done]. }
  exists w. split; [done|]. apply fits_u256_bits.
  - unfold delete_from_word in E. destruct (off + b >? 32); [done|].
    injection E as <-. apply Z.land_nonneg. left. apply Hcur.
  - intros i Hi. rewrite (delete_from_word_bits cur off b w) by (done || lia).
    case_decide; [done|]. apply (testbit_fits_high 256); [done|lia].
Qed.

(** * Cells of a vector *)

Section vec_lemmas.
Context `{Keccak256} (spec : TempoHardfork) (BYTES : Z) (HB : size_ok BYTES).

(** Where element [i] lives. *)
Definition elem_loc (i : Z) : FieldLocation :=
  if BYTES <=? 16 then calc_element_loc i BYTES else mkFieldLocation i 0 32.
Definition vcell (data : Z) (st : storage) (i : Z) : Z := lane st data (elem_loc i).

Lemma per_slot_bounds : BYTES <= 16 -> 2 <= 32 / BYTES <= 32 /\ (32 / BYTES) * BYTES <= 32.
Proof.
  intros Hp. unfold size_ok in HB.
  pose proof (Z.div_mod 32 BYTES ltac:(lia)). pose proof (Z.mod_pos_bound 32 BYTES ltac:(lia)). nia.
Qed.

Lemma elem_loc_ok i :
  0 <= i ->
  0 <= offset_slots (elem_loc i) <= i /\ 0 <= offset_bytes (elem_loc i) /\
  size_ok (fl_size (elem_loc i)) /\ offset_bytes (elem_loc i) + fl_size (elem_loc i) <= 32.
Proof.
  intros Hi. unfold elem_loc. destruct (BYTES <=? 16) eqn:E; zbool.
  2: { unfold size_ok. cbn. lia. }
  pose proof (per_slot_bounds E) as [Hp Hp2]. cbn.
  unfold calc_element_slot, calc_element_offset, size_ok in *.
  pose proof (Z.div_mod i (32 / BYTES) ltac:(lia)).
  pose proof (Z.mod_pos_bound i (32 / BYTES) ltac:(lia)). nia.
Qed.

(** Two different elements lie in different slots or in disjoint lanes. *)
Lemma elem_loc_disjoint i j :
  0 <= i -> 0 <= j -> i <> j ->
  fl_size (elem_loc i) = fl_size (elem_loc j) /\
  (offset_slots (elem_loc i) <> offset_slots (elem_loc j) \/
   offset_bytes (elem_loc i) + fl_size (elem_loc i) <= offset_bytes (elem_loc j) \/
   offset_bytes (elem_loc j) + fl_size (elem_loc j) <= offset_bytes (elem_loc i)).
Proof.
  intros Hi Hj Hij. unfold elem_loc. destruct (BYTES <=? 16) eqn:E; zbool; cbn; [|lia].
  pose proof (per_slot_bounds E) as [Hp _].
  unfold calc_element_slot, calc_element_offset, size_ok in *.
  pose proof (Z.div_mod i (32 / BYTES) ltac:(lia)). pose proof (Z.div_mod j (32 / BYTES) ltac:(lia)).
  split; [done|].
  destruct (decide (i / (32 / BYTES) = j / (32 / BYTES))) as [Heq|]; [right|by left].
  assert (i mod (32 / BYTES) <> j mod (32 / BYTES)) by congruence.
  set (a := i mod (32 / BYTES)) in *. set (b := j mod (32 / BYTES)) in *.
  destruct (decide (a < b)); [left|right]; nia.
Qed.

(** What a write of one cell does. *)
Definition cell_written (data i v : Z) (st st' : storage) : Prop :=
  words_ok st' /\ vcell data st' i = v /\
  (forall j, 0 <= j <= U32_MAX -> j <> i -> vcell data st' j = vcell data st j) /\
  (forall k, k <> slot_at data (offset_slots (elem_loc i)) -> zget st' k = zget st k).

Lemma u32_slot o : o <= U32_MAX -> o <= U256_MAX.
Proof. unfold U32_MAX, U256_MAX. lia. Qed.

(** Replacing the word of one slot, lane by lane. *)
Lemma cell_written_intro data i v st w :
  0 <= i <= U32_MAX -> words_ok st -> fits U256_MAX w ->
  lane_word w (offset_bytes (elem_loc i)) (fl_size (elem_loc i)) = v ->
  (forall off, (0 <= off /\ off + fl_size (elem_loc i) <= 32) ->
     (offset_bytes (elem_loc i) + fl_size (elem_loc i) <= off \/
      off + fl_size (elem_loc i) <= offset_bytes (elem_loc i)) ->
     lane_word w off (fl_size (elem_loc i)) =
     lane_word (zget st (slot_at data (offset_slots (elem_loc i)))) off (fl_size (elem_loc i))) ->
  cell_written data i v st (zset (slot_at data (offset_slots (elem_loc i))) w st).
Proof.
  intros Hi Hst Hw Hv Hother. repeat split.
  - by apply words_ok_zset.
  - by apply words_ok_zset.
  - unfold vcell, lane. by rewrite zget_zset_eq.
  - intros j Hj Hne. unfold vcell, lane.
    destruct (elem_loc_disjoint i j) as [Hs Hd]; [lia..|done|].
    destruct (elem_loc_ok i) as (Hoi & _); [lia|].
    destruct (elem_loc_ok j) as (Hoj & Hbj & _ & Hfj); [lia|].
    rewrite zget_zset. case_decide as Heq; [|done].
    apply slot_at_inj in Heq; [|split; [lia|apply u32_slot; lia]..].
    rewrite <- Hs in *. rewrite Hother, Heq; [done|lia|lia].
  - intros k Hk. by apply zget_zset_ne, not_eq_sym.
Qed.

Lemma elem_word_ok i v : word_ok BYTES v -> word_ok (fl_size (elem_loc i)) v.
Proof.
  unfold word_ok, fits, elem_loc, size_ok in *. destruct (BYTES <=? 16); cbn; [done|].
  intros [H1 H2]. split; [done|].
  assert (2 ^ (8 * BYTES) <= 2 ^ (8 * 32)) by (apply Z.pow_le_mono_r; lia). lia.
Qed.

Lemma word_ok_fits_u256 v : word_ok BYTES v -> fits U256_MAX v.
Proof.
  unfold word_ok, fits, U256_MAX, size_ok in *.
  assert (2 ^ (8 * BYTES) <= 2 ^ (8 * 32)) by (apply Z.pow_le_mono_r; lia). lia.
Qed.

Lemma handler_read_run data i st :
  0 <= i -> words_ok st ->
  handler_read BYTES (compute_handler BYTES data i) st = (Ok (vcell data st i), st).
Proof.
  intros Hi Hst. unfold handler_read, compute_handler, vcell, lane.
  destruct (elem_loc_ok i Hi) as (_ & _ & _ & Hf). revert Hf.
  unfold elem_loc. destruct (BYTES <=? 16); cbn; intros Hf.
  - unfold mbind, stm_bind. cbn. unfold reads. by rewrite lane_word_extract.
  - unfold mbind, stm_bind, SLOTS. cbn. rewrite Z.mul_1_r. unfold reads.
    by rewrite lane_word_full.
Qed.

Lemma handler_write_run data i v st :
  0 <= i <= U32_MAX -> words_ok st -> word_ok BYTES v ->
  exists st', handler_write BYTES (compute_handler BYTES data i) v st = (Ok tt, st') /\
    cell_written data i v st st'.
Proof.
  intros Hi Hst Hv. destruct (elem_loc_ok i) as (_ & Hb & Hsz & Hf); [lia|].
  pose proof (elem_word_ok i v Hv) as Hv'.
  destruct (insert_word_step (zget st (slot_at data (offset_slots (elem_loc i)))) v
              (offset_bytes (elem_loc i)) (fl_size (elem_loc i)))
    as (w & Hins & Hw & _); try done.
  destruct (BYTES <=? 16) eqn:E.
  - eexists. split.
    { unfold handler_write, compute_handler, value_store. rewrite E. cbn.
      unfold elem_loc in Hins. rewrite E in Hins. cbn in Hins.
      unfold mbind, stm_bind, sload, gets. cbn. unfold reads. by rewrite Hins. }
    replace (slot_at data (calc_element_slot i BYTES))
      with (slot_at data (offset_slots (elem_loc i))) by (unfold elem_loc; by rewrite E).
    apply cell_written_intro; try done.
    + exact (proj1 (lane_insert _ _ _ _ _ _ _ Hb Hsz Hb Hsz Hf (Hst _) Hv' Hins) eq_refl eq_refl).
    + intros off [Ho1 Ho2].
      exact (proj2 (lane_insert _ _ _ _ _ _ _ Hb Hsz Ho1 Hsz Ho2 (Hst _) Hv' Hins)).
  - eexists. split.
    { unfold handler_write, compute_handler, value_store. rewrite E. cbn. unfold sstore, modify. done. }
    replace (slot_at data (i * SLOTS)) with (slot_at data (offset_slots (elem_loc i)))
      by (unfold elem_loc, SLOTS; rewrite E, Z.mul_1_r; done).
    apply cell_written_intro; try done.
    + by apply word_ok_fits_u256.
    + unfold elem_loc. rewrite E. cbn. by apply lane_word_full, word_ok_fits_u256.
    + unfold elem_loc. rewrite E. cbn. lia.
Qed.

Lemma value_delete_full data o st :
  value_delete BYTES (slot_at data o) FULL st = (Ok tt, zset (slot_at data o) 0 st).
Proof.
  assert (slot_at (slot_at data o) 0 = slot_at data o) as Heq.
  { unfold slot_at, wrap. by rewrite Z.add_0_r, Zmod_mod. }
  rewrite <- Heq at 2. done.
Qed.

Lemma handler_delete_run data i st :
  0 <= i <= U32_MAX -> words_ok st ->
  exists st', handler_delete BYTES (compute_handler BYTES data i) st = (Ok tt, st') /\
    cell_written data i 0 st st'.
Proof.
  intros Hi Hst. destruct (elem_loc_ok i) as (_ & Hb & Hsz & Hf); [lia|].
  destruct (delete_from_word_ok (zget st (slot_at data (offset_slots (elem_loc i))))
              (offset_bytes (elem_loc i)) (fl_size (elem_loc i)))
    as (w & Hdel & Hw); try done.
  destruct (BYTES <=? 16) eqn:E.
  - eexists. split.
    { unfold handler_delete, compute_handler, value_delete. rewrite E. cbn.
      unfold elem_loc in Hdel. rewrite E in Hdel. cbn in Hdel.
      unfold mbind, stm_bind, sload, gets. cbn. unfold reads. by rewrite Hdel. }
    replace (slot_at data (calc_element_slot i BYTES))
      with (slot_at data (offset_slots (elem_loc i))) by (unfold elem_loc; by rewrite E).
    apply cell_written_intro; try done.
    + exact (proj1 (lane_delete _ _ _ _ _ _ Hb Hsz Hb Hsz (Hst _) Hdel) eq_refl eq_refl).
    + intros off [Ho1 Ho2].
      exact (proj2 (lane_delete _ _ _ _ _ _ Hb Hsz Ho1 Hsz (Hst _) Hdel)).
  - exists (zset (slot_at data (offset_slots (elem_loc i))) 0 st). split.
    { unfold handler_delete, compute_handler, elem_loc, SLOTS. rewrite E, Z.mul_1_r.
      apply value_delete_full. }
    apply cell_written_intro; try done; unfold elem_loc; rewrite E; cbn; [|lia].
    by rewrite lane_word_full.
Qed.

(** * Whole-vector operations *)

(** Slots used by the first [n] elements, and the first index beyond them. *)
Definition slots_of (n : Z) : Z := if BYTES <=? 16 then calc_packed_slot_count n BYTES else n.
Definition boundary (n : Z) : Z :=
  if BYTES <=? 16 then calc_packed_slot_count n BYTES * (32 / BYTES) else n.

Lemma slots_of_bounds n : 0 <= n -> 0 <= slots_of n <= n /\ n <= boundary n.
Proof.
  intros Hn. unfold slots_of, boundary. destruct (BYTES <=? 16) eqn:E; [|lia]. zbool.
  pose proof (per_slot_bounds E) as [Hp _]. unfold calc_packed_slot_count, div_ceil.
  set (p := 32 / BYTES) in *.
  pose proof (Z.div_mod (n + p - 1) p ltac:(lia)).
  pose proof (Z.mod_pos_bound (n + p - 1) p ltac:(lia)). nia.
Qed.

Lemma elem_slot_lt i n : 0 <= i -> offset_slots (elem_loc i) < slots_of n <-> i < boundary n.
Proof.
  intros Hi. unfold elem_loc, slots_of, boundary. destruct (BYTES <=? 16) eqn:E; [|done]. zbool.
  pose proof (per_slot_bounds E) as [Hp _]. cbn. unfold calc_element_slot.
  set (p := 32 / BYTES) in *. pose proof (Z.div_mod i p ltac:(lia)).
  pose proof (Z.mod_pos_bound i p ltac:(lia)). nia.
Qed.

Lemma slots_of_mono a b : 0 <= a <= b -> slots_of a <= slots_of b.
Proof.
  intros Hab. unfold slots_of. destruct (BYTES <=? 16) eqn:E; [|lia]. zbool.
  pose proof (per_slot_bounds E) as [Hp _]. unfold calc_packed_slot_count, div_ceil.
  apply Z.div_le_mono; lia.
Qed.

(** The cells after the slots [a, a + n) of the data region were rewritten. *)
Lemma writes_slots_cells data a n W st st' i :
  0 <= a -> 0 <= n -> a + n <= U256_MAX -> 0 <= i <= U32_MAX -> writes_slots data a n W st st' ->
  vcell data st' i =
    if decide (a <= offset_slots (elem_loc i) < a + n)
    then lane_word (W (offset_slots (elem_loc i))) (offset_bytes (elem_loc i)) (fl_size (elem_loc i))
    else vcell data st i.
Proof.
  intros Ha Hn Hb Hi [Hin Hout]. unfold vcell, lane. case_decide as Hs; [by rewrite Hin|].
  rewrite Hout; [done|]. intros o Ho Heq.
  destruct (elem_loc_ok i) as (Hoi & _); [lia|].
  apply slot_at_inj in Heq; [subst o; done|lia|split; [lia|apply u32_slot; lia]].
Qed.

Lemma clear_elements_run data from to st :
  0 <= from <= to -> to <= U32_MAX -> words_ok st ->
  exists st', clear_elements BYTES data from to st = (Ok tt, st') /\
    writes_slots data (slots_of from) (slots_of to - slots_of from) (fun _ => 0) st st'.
Proof.
  intros Hft Hto Hst. pose proof (slots_of_mono from to ltac:(lia)).
  pose proof (slots_of_bounds from ltac:(lia)). pose proof (slots_of_bounds to ltac:(lia)).
  unfold clear_elements. destruct (from >=? to) eqn:E; zbool.
  { assert (from = to) as -> by lia. exists st. split; [done|]. split; [lia|done]. }
  destruct (sstore_loop (fun _ => 0) data (slots_of from) (slots_of to - slots_of from) st)
    as (st' & Hrun & Hw); [lia|lia|apply u32_slot in Hto; lia|].
  exists st'. split; [|done]. rewrite <- Hrun. unfold slots_of.
  destruct (BYTES <=? 16); [done|]. apply for_each_ext. intros o s _.
  unfold SLOTS. rewrite Z.mul_1_r. apply value_delete_full.
Qed.

(** Loading reads the cells in order. *)
Lemma load_slot_elements_run w off n :
  0 <= off -> off + Z.of_nat n * BYTES <= 32 ->
  load_slot_elements BYTES w off n =
    Ok ((fun k => lane_word w (off + k * BYTES) BYTES) <$> seqZ 0 (Z.of_nat n)).
Proof.
  revert off. induction n as [|n IH]; intros off Hoff Hfit; [done|].
  unfold size_ok in HB. cbn [load_slot_elements].
  rewrite lane_word_extract by lia. cbn [mbind result_bind].
  rewrite seqZ_cons by lia. replace (Z.pred (Z.of_nat (S n))) with (Z.of_nat n) by lia.
  rewrite fmap_cons, Z.mul_0_l, Z.add_0_r.
  assert (forall off', off' = off + BYTES \/ n = O ->
    load_slot_elements BYTES w off' n =
      Ok ((fun k => lane_word w (off + k * BYTES) BYTES) <$> seqZ (Z.succ 0) (Z.of_nat n))) as Hrest.
  { intros off' [->| ->]; [|done]. rewrite IH by lia. f_equal.
    rewrite <- (fmap_add_seqZ 1 0), <- list_fmap_compose.
    apply list_fmap_ext. intros _ k _. cbn. f_equal. lia. }
  destruct (off + BYTES >=? 32) eqn:E; zbool; rewrite Hrest; try done; [right; nia|by left].
Qed.

Lemma concat_slots (f : Z -> Z) p m :
  0 <= p -> 0 <= m ->
  concat ((fun s => (fun k => f (s * p + k)) <$> seqZ 0 p) <$> seqZ 0 m) = f <$> seqZ 0 (m * p).
Proof.
  intros Hp. revert m. apply natlike_ind; [done|]. intros m Hm IH.
  replace (Z.succ m) with (m + 1) by lia. rewrite (seqZ_app 0 m 1) by lia.
  rewrite fmap_app, concat_app, IH.
  change (seqZ (0 + m) 1) with [m]. cbn [concat fmap list_fmap]. rewrite app_nil_r.
  replace ((m + 1) * p) with (m * p + p) by lia. rewrite (seqZ_app 0 (m * p)), fmap_app by lia. f_equal.
  replace (0 + m * p) with (m * p + 0) by lia.
  rewrite <- (fmap_add_seqZ (m * p) 0), <- list_fmap_compose.
  apply list_fmap_ext. intros _ k _. done.
Qed.

Lemma packed_cell data st i :
  BYTES <= 16 ->
  vcell data st i =
    lane_word (zget st (slot_at data (i / (32 / BYTES)))) (i mod (32 / BYTES) * BYTES) BYTES.
Proof. intros Hp. unfold vcell, elem_loc. destruct (BYTES <=? 16) eqn:E; zbool; [done|lia]. Qed.

Lemma load_packed_elements_run data n st :
  BYTES <= 16 -> 0 < n ->
  load_packed_elements BYTES data n BYTES st = (Ok (vcell data st <$> seqZ 0 n), st).
Proof.
  intros Hp16 Hn. pose proof (per_slot_bounds Hp16) as [Hp Hpb]. unfold load_packed_elements.
  set (p := 32 / BYTES) in *. set (c := calc_packed_slot_count n BYTES).
  assert (0 < c /\ (c - 1) * p < n <= c * p) as [Hc Hcn].
  { subst c. unfold calc_packed_slot_count, div_ceil. fold p.
    pose proof (Z.div_mod (n + p - 1) p ltac:(lia)).
    pose proof (Z.mod_pos_bound (n + p - 1) p ltac:(lia)). nia. }
  set (cnt := fun s => if s =? c - 1 then n - s * p else p).
  rewrite (bind_run _ _ _ ((fun s => (fun k => vcell data st (s * p + k)) <$> seqZ 0 (cnt s)) <$> seqZ 0 c) st).
  - unfold mret, stm_ret. f_equal. f_equal. replace c with (c - 1 + 1) by lia.
    rewrite (seqZ_app 0 (c - 1) 1), fmap_app, concat_app by lia.
    change (seqZ (0 + (c - 1)) 1) with [c - 1]. cbn [concat fmap list_fmap]. rewrite app_nil_r.
    replace n with ((c - 1) * p + (n - (c - 1) * p)) at 1 by lia.
    rewrite (seqZ_app 0 ((c - 1) * p)), fmap_app by nia. f_equal.
    + rewrite <- concat_slots by lia. f_equal. apply list_fmap_ext. intros j s Hs.
      apply lookup_seqZ in Hs. unfold cnt. destruct (s =? c - 1) eqn:E; zbool; [lia|done].
    + unfold cnt. rewrite Z.eqb_refl. replace (0 + (c - 1) * p) with ((c - 1) * p + 0) by lia.
      by rewrite <- (fmap_add_seqZ ((c - 1) * p) 0), <- list_fmap_compose.
  - apply collect_pure. intros s Hs%elem_of_seqZ. unfold mbind, stm_bind, sload, gets, reads.
    fold (cnt s). f_equal.
    assert (0 <= cnt s <= p) by (unfold cnt; destruct (s =? c - 1) eqn:E; zbool; nia).
    rewrite load_slot_elements_run by nia. f_equal. rewrite Z2Nat.id by lia.
    apply list_fmap_ext. intros j k Hk. apply lookup_seqZ in Hk. rewrite packed_cell by done. fold p.
    assert (0 <= k < p) by lia. rewrite Z.div_add_l, Z.div_small, Z.add_0_r by lia.
    rewrite (Z.add_comm (s * p) k), Z.mod_add, Z.mod_small by lia. done.
Qed.

Lemma vec_load_run len_slot st n :
  words_ok st -> zget st len_slot = n -> 0 <= n <= U32_MAX ->
  vec_load BYTES len_slot st = (Ok (vcell (calc_data_slot len_slot) st <$> seqZ 0 n), st).
Proof.
  intros Hst Hlen Hn. unfold vec_load.
  rewrite (bind_run _ _ _ n st).
  2: { unfold load_checked_len, mbind, stm_bind, sload, gets, guard_err. rewrite Hlen.
       destruct (n >? U32_MAX) eqn:E; zbool; [lia|done]. }
  destruct (n =? 0) eqn:E0; zbool; [by rewrite E0|].
  destruct (BYTES <=? 16) eqn:E; zbool; [apply load_packed_elements_run; lia|].
  unfold load_unpacked_elements. apply collect_pure. intros i Hi%elem_of_seqZ.
  unfold vcell, elem_loc, lane, SLOTS. destruct (BYTES <=? 16) eqn:E2; zbool; [lia|].
  cbn. rewrite Z.mul_1_r, lane_word_full by done. done.
Qed.

(** Packing elements into a word: each gets its lane, the bits above stay. *)
Lemma build_packed_slot_from_run elements w off :
  0 <= off -> off + Z.of_nat (length elements) * BYTES <= 32 -> fits U256_MAX w ->
  Forall (word_ok BYTES) elements ->
  exists w', build_packed_slot_from BYTES w off elements = Ok w' /\ fits U256_MAX w' /\
    (forall i, 0 <= i < off * 8 -> Z.testbit w' i = Z.testbit w i) /\
    (forall k e i, elements !! k = Some e -> 0 <= i < BYTES * 8 ->
       Z.testbit w' ((off + Z.of_nat k * BYTES) * 8 + i) = Z.testbit e i) /\
    (forall i, (off + Z.of_nat (length elements) * BYTES) * 8 <= i ->
       Z.testbit w' i = Z.testbit w i).
Proof.
  unfold size_ok in HB. revert w off. induction elements as [|e els IH]; intros w off Hoff Hfit Hw Hels.
  { exists w. repeat split; try done; apply Hw. }
  apply Forall_cons in Hels as [He Hels]. cbn [length] in Hfit.
  destruct (insert_word_step w e off BYTES) as (w1 & Hins & Hw1 & Hlow & Hlane); try done; [lia|].
  destruct (IH w1 (off + BYTES)) as (w' & Hrun & Hw' & Hlow' & Hlanes & Hhigh); [lia..|done|done|].
  exists w'. cbn [build_packed_slot_from]. rewrite Hins. cbn [mbind result_bind].
  split; [done|]. split; [done|]. repeat split.
  - intros i Hi. rewrite Hlow', Hlow by lia. done.
  - intros [|k] e' i Hk Hi.
    + injection Hk as <-. rewrite Hlow' by lia. rewrite <- Hlane by done. f_equal. lia.
    + rewrite <- (Hlanes k e' i Hk Hi). f_equal. lia.
  - intros i Hi. cbn [length] in Hi. rewrite Hhigh by lia.
    rewrite (insert_into_word_bits w e off BYTES w1) by (done || lia).
    rewrite decide_False; [done|]. unfold in_lane. lia.
Qed.

Lemma build_packed_slot_run elements :
  Z.of_nat (length elements) * BYTES <= 32 -> Forall (word_ok BYTES) elements ->
  exists w, build_packed_slot BYTES elements = Ok w /\ fits U256_MAX w /\
    forall k : nat, lane_word w (Z.of_nat k * BYTES) BYTES = default 0 (elements !! k).
Proof.
  intros Hfit Hels. unfold size_ok in HB.
  destruct (build_packed_slot_from_run elements 0 0) as (w & Hrun & Hw & _ & Hlanes & Hhigh);
    [lia|lia|unfold fits, U256_MAX; lia|done|].
  exists w. split; [done|]. split; [done|]. intros k.
  destruct (elements !! k) as [e|] eqn:Hk; cbn.
  - apply lane_word_bits; [lia..| |].
    + rewrite Forall_lookup in Hels. by eapply Hels.
    + intros i Hi. by rewrite <- (Hlanes k e i Hk) by lia.
  - apply lookup_ge_None in Hk. apply lane_word_bits; [lia..|unfold fits; lia|].
    intros i Hi. rewrite Hhigh by nia. by rewrite !Z.bits_0.
Qed.

(** The word that [store_packed_elements] writes in slot [o]. *)
Definition packed_word (elements : list Z) (o : Z) : Z :=
  let p := 32 / BYTES in
  let e := Z.min (o * p + p) (Z.of_nat (length elements)) in
  match build_packed_slot BYTES (take (Z.to_nat (e - o * p)) (drop (Z.to_nat (o * p)) elements)) with
  | Ok w => w
  | Err _ => 0
  end.

Lemma packed_slice_lookup (l : list Z) (a p k : nat) :
  (k < p)%nat ->
  take (Z.to_nat (Z.min (Z.of_nat a + Z.of_nat p) (Z.of_nat (length l)) - Z.of_nat a)) (drop a l) !! k
  = l !! (a + k)%nat.
Proof.
  intros Hk. destruct (decide (a + k < length l)%nat).
  - rewrite lookup_take, lookup_drop by lia. rewrite decide_True by lia. done.
  - rewrite (lookup_ge_None_2 l) by lia. apply lookup_ge_None_2.
    rewrite length_take, length_drop. lia.
Qed.

Lemma packed_word_run l o :
  BYTES <= 16 -> 0 <= o -> Forall (word_ok BYTES) l ->
  exists w, build_packed_slot BYTES
      (take (Z.to_nat (Z.min (o * (32 / BYTES) + 32 / BYTES) (Z.of_nat (length l)) - o * (32 / BYTES)))
            (drop (Z.to_nat (o * (32 / BYTES))) l)) = Ok w /\
    packed_word l o = w /\ fits U256_MAX w /\
    forall k, 0 <= k < 32 / BYTES ->
      lane_word w (k * BYTES) BYTES = default 0 (l !! Z.to_nat (o * (32 / BYTES) + k)).
Proof.
  intros Hp Ho Hl. pose proof (per_slot_bounds Hp) as [Hps Hpb].
  unfold packed_word. set (p := 32 / BYTES) in *.
  destruct (build_packed_slot_run
    (take (Z.to_nat (Z.min (o * p + p) (Z.of_nat (length l)) - o * p)) (drop (Z.to_nat (o * p)) l)))
    as (w & Hrun & Hw & Hlanes).
  - rewrite length_take. unfold size_ok in HB. nia.
  - by apply Forall_take, Forall_drop.
  - exists w. rewrite Hrun. repeat split; try done; [apply Hw..|].
    intros k Hk. rewrite <- (Z2Nat.id k) at 1 by lia. rewrite Hlanes. f_equal.
    pose proof (packed_slice_lookup l (Z.to_nat (o * p)) (Z.to_nat p) (Z.to_nat k)) as Hs.
    rewrite !Z2Nat.id in Hs by nia. rewrite Hs by lia. f_equal. nia.
Qed.

Lemma zip_seqZ (l : list Z) :
  zip (seqZ 0 (Z.of_nat (length l))) l =
  (fun i => (i, default 0 (l !! Z.to_nat i))) <$> seqZ 0 (Z.of_nat (length l)).
Proof.
  apply list_eq. intros i. rewrite lookup_zip_with, list_lookup_fmap.
  destruct (decide (i < length l)%nat).
  - rewrite lookup_seqZ_lt by lia. cbn. rewrite Z.add_0_l, Nat2Z.id.
    destruct (lookup_lt_is_Some_2 l i) as [x ->]; done.
  - rewrite lookup_seqZ_ge by lia. done.
Qed.

Definition store_elements (l : list Z) (data : Z) : io unit :=
  if BYTES <=? 16 then store_packed_elements BYTES l data else store_unpacked_elements BYTES l data.

Lemma store_elements_nil data st : store_elements [] data st = (Ok tt, st).
Proof.
  unfold store_elements. destruct (BYTES <=? 16) eqn:E; [|done]. zbool.
  pose proof (per_slot_bounds E) as [Hp _]. unfold store_packed_elements.
  unfold calc_packed_slot_count, div_ceil. cbn. by rewrite Z.div_small by lia.
Qed.

(** Storing the elements fills their cells, zeroes the rest of the last shared
    slot and touches nothing else. *)
Lemma store_elements_run l data st :
  Z.of_nat (length l) <= U32_MAX -> Forall (word_ok BYTES) l -> words_ok st ->
  exists st', store_elements l data st = (Ok tt, st') /\ words_ok st' /\
    (forall i, 0 <= i <= U32_MAX ->
       vcell data st' i =
         if decide (i < boundary (Z.of_nat (length l))) then default 0 (l !! Z.to_nat i)
         else vcell data st i) /\
    (forall k, (forall o, 0 <= o < Z.of_nat (length l) -> slot_at data o <> k) ->
       zget st' k = zget st k).
Proof.
  intros Hlen Hl Hst. set (n := Z.of_nat (length l)) in *.
  destruct (slots_of_bounds n ltac:(lia)) as [Hso Hbn].
  set (W := fun o => if BYTES <=? 16 then packed_word l o else default 0 (l !! Z.to_nat o)).
  assert (HW : forall o, 0 <= o -> fits U256_MAX (W o)).
  { intros o Ho. unfold W. destruct (BYTES <=? 16) eqn:E; zbool.
    - destruct (packed_word_run l o) as (w & _ & -> & ? & _); done.
    - destruct (l !! Z.to_nat o) eqn:El; cbn; [|unfold fits, U256_MAX; lia].
      apply word_ok_fits_u256. rewrite Forall_lookup in Hl. by eapply Hl. }
  destruct (sstore_loop W data 0 (slots_of n) st) as (st' & Hrun & Hw);
    [lia|lia|pose proof (u32_slot n Hlen); lia|].
  exists st'. split; [|split; [|split]].
  - rewrite <- Hrun. unfold store_elements, slots_of, W. destruct (BYTES <=? 16) eqn:E; zbool.
    + apply for_each_ext. intros o s Ho%elem_of_seqZ. unfold mbind, stm_bind, reads. fold n.
      destruct (packed_word_run l o) as (w & Hb & Hpw & _); [done|lia|done|].
      unfold n. by rewrite Hb, Hpw.
    + unfold store_unpacked_elements. rewrite zip_seqZ, for_each_map. fold n.
      apply for_each_ext. intros o s _. unfold value_store, SLOTS. cbn. by rewrite Z.mul_1_r.
  - eapply writes_slots_words_ok; [done|done|]. intros o Ho. apply HW. lia.
  - intros i Hi. rewrite (writes_slots_cells data 0 (slots_of n) W st st' i);
      [|lia|lia|pose proof (u32_slot n Hlen); lia|done|done].
    destruct (elem_loc_ok i) as (Hoi & _); [lia|].
    pose proof (elem_slot_lt i n ltac:(lia)) as Hlt.
    destruct (decide (i < boundary n)); [rewrite decide_True by lia|rewrite decide_False by lia; done].
    unfold W, elem_loc. destruct (BYTES <=? 16) eqn:E; zbool; cbn.
    + unfold calc_element_slot, calc_element_offset. pose proof (per_slot_bounds E) as [Hp _].
      destruct (packed_word_run l (i / (32 / BYTES))) as (w & _ & -> & _ & Hlanes); [done| |done|].
      { apply Z.div_pos; lia. }
      rewrite Hlanes by (apply Z.mod_pos_bound; lia). f_equal. f_equal. f_equal.
      rewrite Z.mul_comm. symmetry. apply Z.div_mod. lia.
    + apply lane_word_full. destruct (l !! Z.to_nat i) eqn:El; cbn; [|unfold fits, U256_MAX; lia].
      apply word_ok_fits_u256. rewrite Forall_lookup in Hl. by eapply Hl.
  - intros k Hk. apply Hw. intros o Ho. apply Hk. lia.
Qed.

(** The data slots of the vector at [len_slot] do not include [len_slot]
    itself: the hash that places them does not collide with it. *)
Definition data_disjoint (len_slot : Z) : Prop :=
  forall o, 0 <= o <= U32_MAX -> slot_at (calc_data_slot len_slot) o <> len_slot.

(** No stale element beyond the length. *)
Definition vec_clean (len_slot : Z) (st : storage) : Prop :=
  forall i, zget st len_slot <= i <= U32_MAX -> vcell (calc_data_slot len_slot) st i = 0.

(** The storage at [len_slot] holds the vector [l]. *)
Record vec_repr (len_slot : Z) (l : list Z) (st : storage) : Prop := {
  vr_words : words_ok st;
  vr_len : zget st len_slot = Z.of_nat (length l);
  vr_max : Z.of_nat (length l) <= U32_MAX;
  vr_elems : Forall (word_ok BYTES) l;
  vr_cells : forall i x, l !! i = Some x -> vcell (calc_data_slot len_slot) st (Z.of_nat i) = x;
}.

Lemma load_checked_len_run len_slot st n :
  zget st len_slot = n -> n <= U32_MAX -> load_checked_len len_slot st = (Ok n, st).
Proof.
  intros Hlen Hn. unfold load_checked_len, mbind, stm_bind, sload, gets, guard_err. rewrite Hlen.
  destruct (n >? U32_MAX) eqn:E; zbool; [lia|done].
Qed.

Lemma vec_repr_load len_slot l st :
  vec_repr len_slot l st -> vec_load BYTES len_slot st = (Ok l, st).
Proof.
  intros [Hst Hlen Hmax Hl Hcells].
  rewrite (vec_load_run len_slot st (Z.of_nat (length l))) by (done || lia).
  f_equal. f_equal. apply list_eq. intros i. rewrite list_lookup_fmap.
  destruct (l !! i) as [x|] eqn:Hi.
  - pose proof (lookup_lt_Some _ _ _ Hi). rewrite lookup_seqZ_lt by lia. cbn.
    f_equal. by apply Hcells.
  - apply lookup_ge_None in Hi. by rewrite lookup_seqZ_ge by lia.
Qed.

Section placed.
Context (len_slot : Z) (Hdis : data_disjoint len_slot).
Let data := calc_data_slot len_slot.

Lemma vcell_set_len st v i :
  0 <= i <= U32_MAX -> vcell data (zset len_slot v st) i = vcell data st i.
Proof.
  intros Hi. unfold vcell, lane. rewrite zget_zset_ne; [done|].
  destruct (elem_loc_ok i) as (Ho & _); [lia|]. apply not_eq_sym, Hdis. lia.
Qed.

Lemma cell_written_len i v st st' :
  0 <= i <= U32_MAX -> cell_written data i v st st' -> zget st' len_slot = zget st len_slot.
Proof.
  intros Hi (_ & _ & _ & Hout). apply Hout, not_eq_sym, Hdis.
  destruct (elem_loc_ok i) as (Ho & _); lia.
Qed.

(** The optional clean-up of a longer previous vector. *)
Lemma vec_cleanup_run ctx (l : list Z) st :
  words_ok st -> 0 <= zget st len_slot <= U32_MAX -> Z.of_nat (length l) <= U32_MAX ->
  exists st',
    (if negb (skip_tail_cleanup ctx) && is_t5 spec then
       prev_len ← load_checked_len len_slot;
       let new_len := Z.of_nat (length l) in
       if prev_len >? new_len then clear_elements BYTES data new_len prev_len else mret tt
     else mret tt) st = (Ok tt, st') /\ words_ok st' /\
    (is_t5 spec = true -> ctx <> INIT -> vec_clean len_slot st ->
       forall i, boundary (Z.of_nat (length l)) <= i <= U32_MAX -> vcell data st' i = 0) /\
    (forall k, (forall o, 0 <= o <= U32_MAX -> slot_at data o <> k) -> zget st' k = zget st k).
Proof.
  intros Hst Hprev Hlen. pose proof (slots_of_bounds (Z.of_nat (length l)) ltac:(lia)) as [Hs Hb].
  destruct (negb (skip_tail_cleanup ctx) && is_t5 spec) eqn:Et.
  2: { exists st. repeat split; try done; try apply Hst.
       intros Ht Hctx. exfalso. rewrite Ht, andb_true_r in Et. by destruct ctx. }
  rewrite (bind_run _ _ _ (zget st len_slot) st) by (apply load_checked_len_run; lia || done).
  cbn zeta. destruct (zget st len_slot >? Z.of_nat (length l)) eqn:E; zbool.
  2: { exists st. repeat split; try done; try apply Hst.
       intros _ _ Hcl i Hi. apply Hcl. lia. }
  destruct (clear_elements_run data (Z.of_nat (length l)) (zget st len_slot) st)
    as (st' & Hrun & Hw); [lia|lia|done|].
  pose proof (slots_of_mono (Z.of_nat (length l)) (zget st len_slot) ltac:(lia)) as Hm.
  pose proof (slots_of_bounds (zget st len_slot) ltac:(lia)) as [Hs2 Hb2].
  exists st'. split; [done|]. split; [|split].
  - eapply writes_slots_words_ok; [done|done|]. intros. unfold fits, U256_MAX. lia.
  - intros _ _ Hcl i Hi. erewrite writes_slots_cells; [| | | | |done]; [|lia|lia| |lia].
    2: { pose proof (u32_slot (zget st len_slot)). lia. }
    case_decide as Hc; [unfold lane_word; by rewrite Z.shiftr_0_l, Z.land_0_l|].
    apply Hcl. pose proof (elem_slot_lt i (zget st len_slot) ltac:(lia)).
    pose proof (elem_slot_lt i (Z.of_nat (length l)) ltac:(lia)). lia.
  - intros k Hk. apply Hw. intros o Ho. apply Hk. lia.
Qed.

Lemma vec_store_run ctx (l : list Z) st :
  words_ok st -> 0 <= zget st len_slot <= U32_MAX ->
  Z.of_nat (length l) <= U32_MAX -> Forall (word_ok BYTES) l ->
  exists st', vec_store spec BYTES l len_slot ctx st = (Ok tt, st') /\ vec_repr len_slot l st' /\
    (is_t5 spec = true -> ctx <> INIT -> vec_clean len_slot st -> vec_clean len_slot st') /\
    (forall k, k <> len_slot -> (forall o, 0 <= o <= U32_MAX -> slot_at data o <> k) ->
       zget st' k = zget st k).
Proof.
  intros Hst Hprev Hlen Hl. unfold vec_store. fold data.
  destruct (vec_cleanup_run ctx l st) as (st1 & Hrun1 & Hst1 & Hcl1 & Hout1); try done.
  rewrite (bind_run _ _ _ _ _ Hrun1).
  set (st2 := zset len_slot (Z.of_nat (length l)) st1).
  assert (words_ok st2) as Hst2.
  { apply words_ok_zset; [done|]. split; [lia|]. apply u32_slot. lia. }
  destruct (store_elements_run l data st2) as (st3 & Hrun3 & Hst3 & Hcells & Hout3); try done.
  pose proof (slots_of_bounds (Z.of_nat (length l)) ltac:(lia)) as [_ Hb].
  assert (zget st3 len_slot = Z.of_nat (length l)) as Hlen3.
  { rewrite Hout3; [apply zget_zset_eq|]. intros. apply Hdis. lia. }
  exists st3. split; [|split; [|split]].
  - rewrite (bind_run _ _ _ tt st2) by done. destruct l as [|x l]; [|done].
    rewrite store_elements_nil in Hrun3. by injection Hrun3 as <-.
  - split; try done. intros i x Hi. pose proof (lookup_lt_Some _ _ _ Hi).
    unfold data in Hcells. rewrite Hcells by lia. rewrite decide_True by lia. by rewrite Nat2Z.id, Hi.
  - intros Ht Hctx Hcl i Hi. rewrite Hlen3 in Hi. fold data. rewrite Hcells by lia.
    case_decide; [rewrite lookup_ge_None_2 by lia; done|].
    unfold st2. rewrite vcell_set_len by lia. apply Hcl1; done || lia.
  - intros k Hk Hreg. rewrite Hout3 by (intros; apply Hreg; lia).
    unfold st2. rewrite zget_zset_ne by congruence. by apply Hout1.
Qed.

(** Setting the length after one cell was written. *)
Lemma vec_repr_set_len l l' i v st st1 :
  vec_repr len_slot l st -> cell_written data i v st st1 -> 0 <= i <= U32_MAX ->
  Z.of_nat (length l') <= U32_MAX -> Forall (word_ok BYTES) l' ->
  (forall j x, l' !! j = Some x -> if decide (Z.of_nat j = i) then x = v else l !! j = Some x) ->
  vec_repr len_slot l' (zset len_slot (Z.of_nat (length l')) st1).
Proof.
  intros [Hst Hlen Hmax Hl Hcells] (Hst1 & Hv & Hother & Hout) Hi Hmax' Hl' Hlook. split; try done.
  - apply words_ok_zset; [done|]. split; [lia|]. apply u32_slot. lia.
  - apply zget_zset_eq.
  - intros j x Hj. pose proof (lookup_lt_Some _ _ _ Hj). fold data.
    rewrite vcell_set_len by lia. specialize (Hlook j x Hj).
    case_decide as Heq; [by rewrite Heq, Hv, Hlook|].
    rewrite Hother by (done || lia). by apply Hcells.
Qed.

Lemma vec_push_run l x st :
  vec_repr len_slot l st -> word_ok BYTES x -> Z.of_nat (length l) < max_index BYTES ->
  max_index BYTES <= U32_MAX ->
  exists st', vec_push BYTES len_slot x st = (Ok tt, st') /\ vec_repr len_slot (l ++ [x]) st' /\
    (forall k, k <> len_slot -> (forall o, 0 <= o <= U32_MAX -> slot_at data o <> k) ->
       zget st' k = zget st k).
Proof.
  intros Hr Hx Hmax Hmi. pose proof Hr as [Hst Hlen Hle Hl _].
  destruct (handler_write_run data (Z.of_nat (length l)) x st) as (st1 & Hrun & Hw); [lia|done|done|].
  exists (zset len_slot (Z.of_nat (length (l ++ [x]))) st1). rewrite length_app. cbn [length].
  rewrite Nat2Z.inj_add. split; [|split].
  - unfold vec_push.
    rewrite (bind_run _ _ _ (Z.of_nat (length l)) st) by (by apply load_checked_len_run).
    unfold guard_err. destruct (Z.of_nat (length l) >=? max_index BYTES) eqn:E; zbool; [lia|].
    rewrite (bind_run _ _ _ tt st) by done. rewrite (bind_run _ _ _ tt st1); [done|].
    rewrite <- Hrun. unfold handler_write, compute_handler, data. by destruct (BYTES <=? 16).
  - replace (Z.of_nat (length l) + Z.of_nat 1) with (Z.of_nat (length (l ++ [x])))
      by (rewrite length_app; cbn; lia).
    eapply vec_repr_set_len; [done|done|lia|rewrite length_app; cbn; lia| |].
    + by apply Forall_app_2; [|constructor].
    + intros j y Hj. case_decide as Heq.
      * assert (j = length l) as -> by lia. rewrite lookup_app_r, Nat.sub_diag in Hj by done.
        by injection Hj.
      * apply lookup_snoc_Some in Hj as [[_ ?]|[? _]]; [done|lia].
  - intros k Hk Hreg. rewrite zget_zset_ne by congruence. apply Hw, not_eq_sym, Hreg.
    destruct (elem_loc_ok (Z.of_nat (length l))) as (Ho & _); lia.
Qed.

Lemma vec_pop_run l x st :
  vec_repr len_slot (l ++ [x]) st ->
  exists st', vec_pop BYTES len_slot st = (Ok (Some x), st') /\ vec_repr len_slot l st' /\
    vcell data st' (Z.of_nat (length l)) = 0.
Proof.
  intros Hr. pose proof Hr as [Hst Hlen Hle Hl Hcells].
  rewrite length_app in Hlen, Hle. cbn in Hlen, Hle.
  destruct (handler_delete_run data (Z.of_nat (length l)) st) as (st1 & Hrun & Hw); [lia|done|].
  exists (zset len_slot (Z.of_nat (length l)) st1). split; [|split].
  - unfold vec_pop.
    rewrite (bind_run _ _ _ (Z.of_nat (length l) + 1) st) by (apply load_checked_len_run; lia).
    destruct (Z.of_nat (length l) + 1 =? 0) eqn:E; zbool; [lia|]. cbn zeta.
    replace (Z.of_nat (length l) + 1 - 1) with (Z.of_nat (length l)) by lia. fold data.
    rewrite (bind_run _ _ _ x st).
    2: { rewrite handler_read_run by (done || lia). unfold data. rewrite (Hcells (length l) x); [done|].
         rewrite lookup_app_r, Nat.sub_diag by done. done. }
    by rewrite (bind_run _ _ _ _ _ Hrun).
  - eapply vec_repr_set_len; [done|done|lia|lia| |].
    + by apply Forall_app in Hl as [? _].
    + intros j y Hj. pose proof (lookup_lt_Some _ _ _ Hj).
      rewrite decide_False by lia. by rewrite lookup_app_l by lia.
  - rewrite vcell_set_len by lia. apply Hw.
Qed.

Lemma vec_delete_run l st :
  vec_repr len_slot l st -> vec_clean len_slot st ->
  exists st', vec_delete BYTES len_slot st = (Ok tt, st') /\ zget st' len_slot = 0 /\
    words_ok st' /\ (forall i, 0 <= i <= U32_MAX -> vcell data st' i = 0).
Proof.
  intros [Hst Hlen Hmax Hl Hcells] Hcl. unfold vec_delete.
  rewrite (bind_run _ _ _ (Z.of_nat (length l)) st) by (by apply load_checked_len_run).
  rewrite (bind_run _ _ _ tt (zset len_slot 0 st)) by done.
  assert (words_ok (zset len_slot 0 st)) as Hst1.
  { apply words_ok_zset; [done|]. unfold fits, U256_MAX. lia. }
  destruct (Z.of_nat (length l) =? 0) eqn:E0; zbool.
  - exists (zset len_slot 0 st). repeat split; try apply Hst1; [apply zget_zset_eq|].
    intros i Hi. rewrite vcell_set_len by lia. apply Hcl. lia.
  - destruct (clear_elements_run data 0 (Z.of_nat (length l)) (zset len_slot 0 st))
      as (st' & Hrun & Hw); [lia|lia|done|].
    pose proof (slots_of_bounds (Z.of_nat (length l)) ltac:(lia)) as [Hs Hb].
    assert (slots_of 0 = 0) as H0 by (pose proof (slots_of_bounds 0); lia).
    exists st'. split; [done|]. split; [|split].
    + rewrite (proj2 Hw); [apply zget_zset_eq|]. intros o Ho. apply Hdis. lia.
    + eapply writes_slots_words_ok; [done|done|]. intros. unfold fits, U256_MAX. lia.
    + intros i Hi. erewrite writes_slots_cells; [| | | | |done]; [|lia|lia| |lia].
      2: { pose proof (u32_slot (Z.of_nat (length l)) Hmax). lia. }
      case_decide; [unfold lane_word; by rewrite Z.shiftr_0_l, Z.land_0_l|].
      rewrite vcell_set_len by lia. apply Hcl.
      destruct (elem_loc_ok i) as (Ho & _); [lia|].
      pose proof (elem_slot_lt i (Z.of_nat (length l)) ltac:(lia)). lia.
Qed.
End placed.
End vec_lemmas.

Lemma max_index_bound BYTES : size_ok BYTES -> max_index BYTES <= U32_MAX.
Proof.
  unfold size_ok, max_index, SLOTS. intros HB. rewrite Z.div_1_r.
  destruct (BYTES <=? 16); [|lia]. apply Z.div_le_upper_bound; [lia|]. unfold U32_MAX. lia.
Qed.

(** * Properties *)

(** Storing a vector and loading it returns the same elements, for packed
    ([BYTES <= 16]) and unpacked element types, at every hardfork and over any
    previous contents; slots outside the vector keep their value; and from T5
    on the store also erases the tail of a longer previous vector, so a vector
    with no stale elements keeps none. *)
Theorem vec_store_load `{Keccak256} spec BYTES len_slot ctx (l : list Z) st :
  size_ok BYTES -> data_disjoint len_slot -> words_ok st -> 0 <= zget st len_slot <= U32_MAX ->
  Z.of_nat (length l) <= U32_MAX -> Forall (word_ok BYTES) l ->
  exists st', vec_store spec BYTES l len_slot ctx st = (Ok tt, st') /\
    vec_load BYTES len_slot st' = (Ok l, st') /\
    (is_t5 spec = true -> ctx <> INIT -> vec_clean BYTES len_slot st -> vec_clean BYTES len_slot st') /\
    (forall k, k <> len_slot ->
       (forall o, 0 <= o <= U32_MAX -> slot_at (calc_data_slot len_slot) o <> k) ->
       zget st' k = zget st k).
Proof.
  intros HB Hdis Hst Hprev Hlen Hl.
  destruct (vec_store_run spec BYTES HB len_slot Hdis ctx l st) as (st' & Hrun & Hr & Hcl & Hout);
    try done.
  exists st'. split; [done|]. split; [|done]. by apply vec_repr_load.
Qed.

(** [push] appends: it keeps every element and adds the new one at the end;
    a following [pop] returns that element, restores the previous contents and
    zeroes the freed cell. At capacity ([max_index]) [push] fails and writes
    nothing. *)
Theorem vec_push_pop `{Keccak256} BYTES len_slot l x st :
  size_ok BYTES -> data_disjoint len_slot -> vec_repr BYTES len_slot l st -> word_ok BYTES x ->
  (Z.of_nat (length l) < max_index BYTES ->
   exists st1 st2, vec_push BYTES len_slot x st = (Ok tt, st1) /\
     vec_load BYTES len_slot st1 = (Ok (l ++ [x]), st1) /\
     vec_pop BYTES len_slot st1 = (Ok (Some x), st2) /\
     vec_load BYTES len_slot st2 = (Ok l, st2) /\
     vcell BYTES (calc_data_slot len_slot) st2 (Z.of_nat (length l)) = 0) /\
  (max_index BYTES <= Z.of_nat (length l) ->
   vec_push BYTES len_slot x st = (Err (Fatal "Vec is at max capacity"), st)).
Proof.
  intros HB Hdis Hr Hx. split; intros Hlen.
  - destruct (vec_push_run BYTES HB len_slot Hdis l x st) as (st1 & Hpush & Hr1 & _);
      [done..|by apply max_index_bound|].
    destruct (vec_pop_run BYTES HB len_slot Hdis l x st1) as (st2 & Hpop & Hr2 & Hz); [done|].
    exists st1, st2. split; [done|]. split; [by apply vec_repr_load|]. split; [done|].
    split; [by apply vec_repr_load|done].
  - unfold vec_push.
    rewrite (bind_run _ _ _ (Z.of_nat (length l)) st) by (apply load_checked_len_run; apply Hr).
    unfold guard_err. destruct (Z.of_nat (length l) >=? max_index BYTES) eqn:E; zbool; [done|lia].
Qed.

(** [delete] clears the vector completely: the length and every element
    cell become zero, so that a later vector at the same slot starts clean. *)
Theorem vec_delete_clears `{Keccak256} BYTES len_slot l st :
  size_ok BYTES -> data_disjoint len_slot -> vec_repr BYTES len_slot l st ->
  vec_clean BYTES len_slot st ->
  exists st', vec_delete BYTES len_slot st = (Ok tt, st') /\
    vec_load BYTES len_slot st' = (Ok [], st') /\
    forall i, 0 <= i <= U32_MAX -> vcell BYTES (calc_data_slot len_slot) st' i = 0.
Proof.
  intros HB Hdis Hr Hcl.
  destruct (vec_delete_run BYTES HB len_slot Hdis l st) as (st' & Hrun & Hlen & Hst & Hz); [done..|].
  exists st'. split; [done|]. split; [|done].
  rewrite (vec_load_run BYTES HB len_slot st' 0) by (done || (unfold U32_MAX; lia)). done.
Qed.

Module VecExample.
(** A placement function with the property the theorems ask of the hash. *)
Definition hash : Keccak256 := {| keccak256 := fun _ => 2 ^ 200 |}.
#[local] Existing Instance hash.

Lemma data_disjoint_example : data_disjoint 7.
Proof.
  intros o Ho. unfold slot_at, wrap, calc_data_slot. cbn [keccak256 hash].
  unfold U32_MAX, U256_MAX in *. rewrite Z.mod_small; lia.
Qed.

Lemma vec_repr_empty : vec_repr 4 7 [] ∅ /\ vec_clean 4 7 ∅.
Proof.
  split.
  - by split.
  - intros i Hi. unfold vcell, lane, lane_word. by rewrite zget_empty, Z.shiftr_0_l.
Qed.

Lemma vec_store_load_witness :
  exists st', vec_store T5 4 [1; 2; 3] 7 FULL ∅ = (Ok tt, st') /\
    vec_load 4 7 st' = (Ok [1; 2; 3], st') /\
    (is_t5 T5 = true -> FULL <> INIT -> vec_clean 4 7 ∅ -> vec_clean 4 7 st') /\
    (forall k, k <> 7 -> (forall o, 0 <= o <= U32_MAX -> slot_at (calc_data_slot 7) o <> k) ->
       zget st' k = zget ∅ k).
Proof.
  apply (vec_store_load T5 4 7 FULL [1; 2; 3] ∅).
  - unfold size_ok. lia.
  - apply data_disjoint_example.
  - apply words_ok_empty.
  - rewrite zget_empty. unfold U32_MAX. lia.
  - unfold U32_MAX. cbn. lia.
  - repeat constructor; unfold word_ok, fits; lia.
Defined.

Lemma vec_push_pop_witness :
  exists st1 st2, vec_push 4 7 5 ∅ = (Ok tt, st1) /\
     vec_load 4 7 st1 = (Ok [5], st1) /\ vec_pop 4 7 st1 = (Ok (Some 5), st2) /\
     vec_load 4 7 st2 = (Ok [], st2) /\ vcell 4 (calc_data_slot 7) st2 0 = 0.
Proof.
  apply (vec_push_pop 4 7 [] 5 ∅).
  - unfold size_ok. lia.
  - apply data_disjoint_example.
  - apply vec_repr_empty.
  - unfold word_ok, fits. lia.
  - reflexivity.
Defined.

Lemma vec_delete_clears_witness :
  exists st', vec_delete 4 7 ∅ = (Ok tt, st') /\ vec_load 4 7 st' = (Ok [], st') /\
    forall i, 0 <= i <= U32_MAX -> vcell 4 (calc_data_slot 7) st' i = 0.
Proof.
  apply (vec_delete_clears 4 7 [] ∅).
  - unfold size_ok. lia.
  - apply data_disjoint_example.
  - apply vec_repr_empty.
  - apply vec_repr_empty.
Defined.
End VecExample.
