(* ===== verification/EnumerableSet.v ===== *)
(** The enumerable set of [storage/types/set.rs]: a vector of values and a
    mapping from value to 1-based position.

    The handler is written against an interface, [SetStore]: what the set needs
    of its [VecHandler] and of its [Mapping]. [SetStoreLaws] states what these
    promise. Two implementations discharge it: contract storage (the vector of
    [StorageVec] and hashed mapping slots) and a typed view with one map per
    component, which the keychain uses. *)

From S2P Require Import Prelude Hardfork Packing Layout StorageVec.

(** * Interface *)

Abbreviation sio S := (stm S TempoPrecompileError).

Class SetStore (S : Type) := {
  ss_len : sio S Z;                      (* [values.len()] *)
  ss_read : Z -> sio S Z;                (* [values[i].read()] *)
  ss_write : Z -> Z -> sio S unit;       (* [values[i].write(v)] *)
  ss_erase : Z -> sio S unit;            (* [values[i].delete()] *)
  ss_push : Z -> sio S unit;             (* [values.push(v)] *)
  ss_clear : sio S unit;                 (* [values.delete()] *)
  ss_set_len : Z -> sio S unit;          (* write of the length slot *)
  ss_pos : Z -> sio S Z;                 (* [positions.at(v).read()] *)
  ss_set_pos : Z -> Z -> sio S unit;     (* [positions.at_mut(v).write(p)] *)
  ss_del_pos : Z -> sio S unit;          (* [positions.at_mut(v).delete()] *)
}.

(** What one write may change: everything but [len], [values] or [positions]
    that it names stays. *)
Record SetView (S : Type) := mkSetView {
  v_ok : S -> Prop;
  v_elem : Z -> Prop;
  v_cap : Z;
  v_len : S -> Z;
  v_val : S -> Z -> Z;
  v_pos : S -> Z -> Z;
}.
Arguments v_ok {S}. Arguments v_elem {S}. Arguments v_cap {S}.
Arguments v_len {S}. Arguments v_val {S}. Arguments v_pos {S}.

Section frames.
Context {S : Type} (V : SetView S).
Definition same_len (s s' : S) : Prop := v_len V s' = v_len V s.
Definition same_pos (s s' : S) : Prop := forall k, v_elem V k -> v_pos V s' k = v_pos V s k.
Definition same_vals (s s' : S) : Prop :=
  forall i, 0 <= i <= U32_MAX -> v_val V s' i = v_val V s i.
Definition val_set (i x : Z) (s s' : S) : Prop :=
  v_val V s' i = x /\ forall j, 0 <= j <= U32_MAX -> j <> i -> v_val V s' j = v_val V s j.
Definition pos_set (k p : Z) (s s' : S) : Prop :=
  v_pos V s' k = p /\ forall k', v_elem V k' -> k' <> k -> v_pos V s' k' = v_pos V s k'.
End frames.

Class SetStoreLaws (S : Type) `{SetStore S} (V : SetView S) := {
  l_cap : v_cap V <= U32_MAX;
  l_len s : v_ok V s -> 0 <= v_len V s <= U32_MAX -> ss_len s = (Ok (v_len V s), s);
  l_read s i : v_ok V s -> 0 <= i <= U32_MAX -> ss_read i s = (Ok (v_val V s i), s);
  l_write s i x : v_ok V s -> 0 <= i <= U32_MAX -> v_elem V x ->
    exists s', ss_write i x s = (Ok tt, s') /\ v_ok V s' /\
      val_set V i x s s' /\ same_len V s s' /\ same_pos V s s';
  l_erase s i : v_ok V s -> 0 <= i <= U32_MAX ->
    exists s', ss_erase i s = (Ok tt, s') /\ v_ok V s' /\
      val_set V i 0 s s' /\ same_len V s s' /\ same_pos V s s';
  l_push s x : v_ok V s -> 0 <= v_len V s < v_cap V -> v_elem V x ->
    exists s', ss_push x s = (Ok tt, s') /\ v_ok V s' /\
      val_set V (v_len V s) x s s' /\ v_len V s' = v_len V s + 1 /\ same_pos V s s';
  l_push_full s x : v_ok V s -> v_cap V <= v_len V s <= U32_MAX ->
    ss_push x s = (Err (Fatal "Vec is at max capacity"), s);
  l_clear s : v_ok V s -> 0 <= v_len V s <= U32_MAX ->
    exists s', ss_clear s = (Ok tt, s') /\ v_ok V s' /\ v_len V s' = 0 /\ same_pos V s s';
  l_set_len s n : v_ok V s -> 0 <= n <= U32_MAX ->
    exists s', ss_set_len n s = (Ok tt, s') /\ v_ok V s' /\
      v_len V s' = n /\ same_vals V s s' /\ same_pos V s s';
  l_pos s k : v_ok V s -> v_elem V k -> 0 <= v_pos V s k <= U32_MAX ->
    ss_pos k s = (Ok (v_pos V s k), s);
  l_set_pos s k p : v_ok V s -> v_elem V k -> 0 <= p <= U32_MAX ->
    exists s', ss_set_pos k p s = (Ok tt, s') /\ v_ok V s' /\
      pos_set V k p s s' /\ same_len V s s' /\ same_vals V s s';
  l_del_pos s k : v_ok V s -> v_elem V k ->
    exists s', ss_del_pos k s = (Ok tt, s') /\ v_ok V s' /\
      pos_set V k 0 s s' /\ same_len V s s' /\ same_vals V s s';
}.

(** * The handler *)

(** [Set::from(Vec)]: keeps the first occurrence of each element. *)
Fixpoint set_from_vec_aux (seen : gset Z) (l : list Z) : list Z :=
  match l with
  | [] => []
  | item :: l =>
      if decide (item ∈ seen) then set_from_vec_aux seen l
      else item :: set_from_vec_aux ({[item]} ∪ seen) l
  end.
Definition set_from_vec (l : list Z) : list Z := set_from_vec_aux ∅ l.

Definition checked_position (index : Z) : res Z :=
  if index <=? U32_MAX then
    match checked_add U32_MAX index 1 with
    | Some p => Ok p
    | None => Err under_overflow
    end
  else Err under_overflow.

Section handler.
Context {S : Type} `{SetStore S}.

Definition set_len : sio S Z := ss_len.
Definition set_is_empty : sio S bool := n ← ss_len; mret (n =? 0).

Definition set_contains (value : Z) : sio S bool :=
  pos ← ss_pos value; mret (negb (pos =? 0)).

Definition set_insert (value : Z) : sio S bool :=
  present ← set_contains value;
  if (present : bool) then mret false
  else
    length_ ← ss_len;
    p ← reads (fun _ => checked_position length_);
    ss_set_pos value p;;
    ss_push value;;
    mret true.

Definition set_remove (value : Z) : sio S bool :=
  position ← ss_pos value;
  if position =? 0 then mret false
  else
    len ← ss_len;
    let last_index := wrap U64_MAX (len - 1) in
    let index := position - 1 in
    (if negb (index =? last_index) then
       last_value ← ss_read last_index;
       ss_set_pos last_value position;;
       ss_write index last_value
     else mret tt);;
    ss_erase last_index;;
    ss_set_len last_index;;
    ss_del_pos value;;
    mret true.

Definition set_at (index : Z) : sio S (option Z) :=
  len ← ss_len;
  if index >=? len then mret None
  else v ← ss_read index; mret (Some v).

Definition set_read_range (start end_ : Z) : sio S (list Z) :=
  len ← ss_len;
  let end_ := Z.min end_ len in
  let start := Z.min start end_ in
  collect (seqZ start (end_ - start)) ss_read.

Definition set_read : sio S (list Z) :=
  len ← ss_len;
  collect (seqZ 0 len) ss_read.

Definition set_write (value : list Z) : sio S unit :=
  old_len ← ss_len;
  let new_len := Z.of_nat (length value) in
  for_each (seqZ 0 old_len) (fun i => old_value ← ss_read i; ss_del_pos old_value);;
  for_each (zip (seqZ 0 new_len) value) (fun '(index, new_value) =>
    p ← reads (fun _ => checked_position index);
    ss_set_pos new_value p;;
    ss_write index new_value);;
  ss_set_len new_len;;
  for_each (seqZ new_len (old_len - new_len)) ss_erase.

Definition set_delete : sio S unit :=
  len ← ss_len;
  for_each (seqZ 0 len) (fun i => value ← ss_read i; ss_del_pos value);;
  ss_clear.
End handler.

(** * Swap-and-pop on lists *)

Definition swap_remove (i : nat) (l : list Z) : list Z :=
  match last l with
  | Some x => take (length l - 1) (<[i := x]> l)
  | None => l
  end.

Lemma swap_remove_lookup i (l : list Z) j :
  (i < length l)%nat ->
  swap_remove i l !! j =
    if decide (j < length l - 1)%nat then (if decide (j = i) then last l else l !! j) else None.
Proof.
  intros Hi. unfold swap_remove. destruct (last l) as [x|] eqn:Hl.
  - case_decide.
    + rewrite lookup_take, decide_True by lia. case_decide as Hji.
      * subst j. by rewrite list_lookup_insert_eq by lia.
      * by rewrite list_lookup_insert_ne by congruence.
    + apply lookup_ge_None_2. rewrite length_take, length_insert. lia.
  - apply last_None in Hl as ->. cbn in Hi. lia.
Qed.

Lemma swap_remove_length i (l : list Z) :
  (i < length l)%nat -> length (swap_remove i l) = (length l - 1)%nat.
Proof.
  intros Hi. unfold swap_remove. destruct (last l) as [x|] eqn:Hl.
  - rewrite length_take, length_insert. lia.
  - apply last_None in Hl as ->. done.
Qed.

(** Each element left has the place it had, or the freed place if it was last. *)
Lemma swap_remove_lookup_inv i (l : list Z) j y :
  (i < length l)%nat -> swap_remove i l !! j = Some y ->
  (j < length l - 1)%nat /\
  ((j = i /\ l !! (length l - 1)%nat = Some y) \/ (j <> i /\ l !! j = Some y)).
Proof.
  intros Hi Hj. rewrite swap_remove_lookup in Hj by done.
  case_decide; [|done]. case_decide; [|auto]. rewrite last_lookup in Hj.
  replace (pred (length l)) with (length l - 1)%nat in Hj by lia. auto.
Qed.

Lemma swap_remove_NoDup i (l : list Z) : (i < length l)%nat -> NoDup l -> NoDup (swap_remove i l).
Proof.
  intros Hi Hnd. rewrite NoDup_alt in Hnd. apply NoDup_alt. intros j k y Hj Hk.
  apply swap_remove_lookup_inv in Hj as (? & Hj); [|done].
  apply swap_remove_lookup_inv in Hk as (? & Hk); [|done].
  destruct Hj as [[-> Hj]|[? Hj]], Hk as [[-> Hk]|[? Hk]];
    pose proof (Hnd _ _ _ Hj Hk); lia.
Qed.

Lemma elem_of_swap_remove i v (l : list Z) k :
  NoDup l -> l !! i = Some v -> k ∈ swap_remove i l <-> k ∈ l /\ k <> v.
Proof.
  intros Hnd Hv. pose proof (lookup_lt_Some _ _ _ Hv) as Hi. rewrite NoDup_alt in Hnd.
  rewrite !list_elem_of_lookup. split.
  - intros [j Hj]. apply swap_remove_lookup_inv in Hj as (Hlt & [[-> Hj]|[Hne Hj]]); [| |done].
    + split; [eauto|]. intros ->. pose proof (Hnd _ _ _ Hj Hv). lia.
    + split; [eauto|]. intros ->. by pose proof (Hnd _ _ _ Hj Hv).
  - intros [[j Hj] Hne]. pose proof (lookup_lt_Some _ _ _ Hj).
    assert (j <> i) by congruence.
    destruct (decide (j < length l - 1)%nat).
    + exists j. rewrite swap_remove_lookup by done.
      by rewrite decide_True, decide_False by lia.
    + exists i. rewrite swap_remove_lookup by done. rewrite decide_True, decide_True by lia.
      rewrite last_lookup. by replace (pred (length l)) with j by lia.
Qed.

(** * Representation *)

Section refinement.
Context {S : Type} `{SetStore S} (V : SetView S) {L : SetStoreLaws S V}.

(** The stored set holds the elements [l], in this order. *)
Record set_repr (l : list Z) (s : S) : Prop := {
  sr_ok : v_ok V s;
  sr_nodup : NoDup l;
  sr_elems : Forall (v_elem V) l;
  sr_len : v_len V s = Z.of_nat (length l);
  sr_max : Z.of_nat (length l) <= U32_MAX;
  sr_vals : forall i x, l !! i = Some x -> v_val V s (Z.of_nat i) = x;
  sr_pos : forall i x, l !! i = Some x -> v_pos V s x = Z.of_nat i + 1;
  sr_absent : forall k, v_elem V k -> k ∉ l -> v_pos V s k = 0;
}.

Lemma sr_elem l s i x : set_repr l s -> l !! i = Some x -> v_elem V x.
Proof. intros Hr Hx. pose proof (sr_elems _ _ Hr) as He. rewrite Forall_lookup in He. eauto. Qed.

Lemma sr_elem_of l s x : set_repr l s -> x ∈ l -> v_elem V x.
Proof. intros Hr [i Hi]%list_elem_of_lookup. by eapply sr_elem. Qed.

Lemma sr_len_run l s : set_repr l s -> ss_len s = (Ok (Z.of_nat (length l)), s).
Proof.
  intros Hr. rewrite <- (sr_len l s Hr). apply (l_len (V := V)); [apply Hr|].
  rewrite (sr_len _ _ Hr). pose proof (sr_max _ _ Hr). lia.
Qed.

Lemma sr_read_run l s i x : set_repr l s -> l !! i = Some x -> ss_read (Z.of_nat i) s = (Ok x, s).
Proof.
  intros Hr Hx. pose proof (lookup_lt_Some _ _ _ Hx). pose proof (sr_max _ _ Hr).
  rewrite (l_read (V := V)); [|apply Hr|lia]. by rewrite (sr_vals _ _ Hr i x).
Qed.

Lemma sr_pos_run l s k :
  set_repr l s -> v_elem V k -> (ss_pos k s = (Ok (v_pos V s k), s)) /\
  (((k ∉ l) /\ v_pos V s k = 0) \/ exists i, l !! i = Some k /\ v_pos V s k = Z.of_nat i + 1).
Proof.
  intros Hr Hk. destruct (decide (k ∈ l)) as [Hin|Hin].
  - apply list_elem_of_lookup in Hin as [i Hi]. pose proof (sr_pos _ _ Hr i k Hi) as Hp.
    pose proof (lookup_lt_Some _ _ _ Hi). pose proof (sr_max _ _ Hr). split; [|eauto].
    apply (l_pos (V := V)); [apply Hr|done|lia].
  - pose proof (sr_absent _ _ Hr k Hk Hin) as Hp. split; [|auto].
    apply (l_pos (V := V)); [apply Hr|done|]. unfold U32_MAX. lia.
Qed.

Lemma set_contains_run l s k :
  set_repr l s -> v_elem V k -> set_contains k s = (Ok (bool_decide (k ∈ l)), s).
Proof.
  intros Hr Hk. destruct (sr_pos_run l s k Hr Hk) as [Hrun Hp]. unfold set_contains.
  rewrite (bind_run _ _ _ _ _ Hrun). unfold mret, stm_ret. f_equal. f_equal.
  destruct Hp as [[Hin ->]|(i & Hi & ->)].
  - by rewrite bool_decide_eq_false_2.
  - rewrite bool_decide_eq_true_2 by (by eapply list_elem_of_lookup_2).
    destruct (Z.of_nat i + 1 =? 0) eqn:E; zbool; [lia|done].
Qed.

Lemma set_insert_present l s k : set_repr l s -> k ∈ l -> set_insert k s = (Ok false, s).
Proof.
  intros Hr Hin. unfold set_insert.
  rewrite (bind_run _ _ _ _ _ (set_contains_run l s k Hr (sr_elem_of l s k Hr Hin))).
  by rewrite bool_decide_eq_true_2.
Qed.

Lemma checked_position_ok i : i < U32_MAX -> checked_position i = Ok (i + 1).
Proof.
  intros Hi. unfold checked_position, checked_add.
  destruct (i <=? U32_MAX) eqn:E; zbool; [|lia].
  destruct (i + 1 <=? U32_MAX) eqn:E2; zbool; [done|lia].
Qed.

Lemma set_insert_new l s k :
  set_repr l s -> v_elem V k -> k ∉ l -> Z.of_nat (length l) < v_cap V ->
  exists s', set_insert k s = (Ok true, s') /\ set_repr (l ++ [k]) s'.
Proof.
  intros Hr Hk Hin Hcap. pose proof (l_cap (V := V)) as Hc. pose proof (sr_len _ _ Hr) as Hlen.
  destruct (l_set_pos (V := V) s k (Z.of_nat (length l) + 1)) as (s1 & Hrun1 & Hok1 & [Hp1 Hp1'] & Hl1 & Hv1);
    [apply Hr|done|lia|].
  destruct (l_push (V := V) s1 k) as (s2 & Hrun2 & Hok2 & [Hv2 Hv2'] & Hl2 & Hp2);
    [done|rewrite Hl1, Hlen; lia|done|].
  rewrite Hl1, Hlen in *. exists s2. split.
  - unfold set_insert. rewrite (bind_run _ _ _ _ _ (set_contains_run l s k Hr Hk)).
    rewrite bool_decide_eq_false_2 by done. rewrite (bind_run _ _ _ _ _ (sr_len_run l s Hr)).
    rewrite (bind_run _ _ _ (Z.of_nat (length l) + 1) s).
    2: { unfold reads. by rewrite checked_position_ok by lia. }
    rewrite (bind_run _ _ _ _ _ Hrun1). by rewrite (bind_run _ _ _ _ _ Hrun2).
  - split; try done.
    + apply NoDup_app. repeat split; [apply Hr|set_solver|apply NoDup_singleton].
    + apply Forall_app_2; [apply Hr|by constructor].
    + rewrite length_app. cbn. lia.
    + rewrite length_app. cbn. lia.
    + intros i x [[Hlt Hi]|[-> ->]]%lookup_snoc_Some; [|done].
      rewrite Hv2' by lia. rewrite Hv1 by lia. by apply Hr.
    + intros i x [[Hlt Hi]|[-> ->]]%lookup_snoc_Some.
      * assert (x <> k) by (intros ->; apply Hin; by eapply list_elem_of_lookup_2).
        pose proof (sr_elem l s i x Hr Hi). rewrite Hp2, Hp1' by done. by apply Hr.
      * by rewrite Hp2, Hp1 by done.
    + intros x Hx Hnin. rewrite elem_of_app, list_elem_of_singleton in Hnin.
      rewrite Hp2, Hp1' by tauto. apply Hr; tauto.
Qed.

Lemma set_remove_absent l s k :
  set_repr l s -> v_elem V k -> k ∉ l -> set_remove k s = (Ok false, s).
Proof.
  intros Hr Hk Hin. destruct (sr_pos_run l s k Hr Hk) as [Hrun [[_ Hp]|(i & Hi & _)]].
  - unfold set_remove. rewrite (bind_run _ _ _ _ _ Hrun), Hp. done.
  - exfalso. apply Hin. by eapply list_elem_of_lookup_2.
Qed.

(** The swap step: the last element takes the freed place. *)
Lemma set_swap_run l s i v x :
  set_repr l s -> l !! i = Some v -> l !! (length l - 1)%nat = Some x ->
  exists s', (if negb (Z.of_nat i =? Z.of_nat (length l) - 1) then
     last_value ← ss_read (Z.of_nat (length l) - 1);
     ss_set_pos last_value (Z.of_nat i + 1);;
     ss_write (Z.of_nat i) last_value
   else mret tt) s = (Ok tt, s') /\ v_ok V s' /\ same_len V s s' /\
   pos_set V x (Z.of_nat i + 1) s s' /\ val_set V (Z.of_nat i) x s s'.
Proof.
  intros Hr Hv Hx. pose proof (lookup_lt_Some _ _ _ Hv). pose proof (sr_max _ _ Hr).
  destruct (negb (Z.of_nat i =? Z.of_nat (length l) - 1)) eqn:E; zbool.
  - destruct (l_set_pos (V := V) s x (Z.of_nat i + 1)) as (s1 & Hrun1 & Hok1 & [Hp1 Hp1'] & Hl1 & Hv1);
      [apply Hr|by eapply sr_elem|lia|].
    destruct (l_write (V := V) s1 (Z.of_nat i) x) as (s2 & Hrun2 & Hok2 & [Hv2 Hv2'] & Hl2 & Hp2);
      [done|lia|by eapply sr_elem|].
    exists s2. replace (Z.of_nat (length l) - 1) with (Z.of_nat (length l - 1)) by lia.
    rewrite (bind_run _ _ _ _ _ (sr_read_run l s _ x Hr Hx)), (bind_run _ _ _ _ _ Hrun1).
    assert (v_elem V x) by (by eapply sr_elem).
    split; [done|]. split; [done|]. split; [by unfold same_len in *; congruence|]. repeat split; try done.
    + by rewrite Hp2.
    + intros k Hk Hne. by rewrite Hp2, Hp1'.
    + intros j Hj Hne. by rewrite Hv2', Hv1.
  - assert (i = (length l - 1)%nat) as -> by lia. assert (v = x) as <- by congruence.
    exists s. split; [done|]. split; [apply Hr|]. repeat split.
    + by apply Hr.
    + by apply Hr.
Qed.

Lemma set_remove_present l s i v :
  set_repr l s -> l !! i = Some v ->
  exists s', set_remove v s = (Ok true, s') /\ set_repr (swap_remove i l) s'.
Proof.
  intros Hr Hv. pose proof (lookup_lt_Some _ _ _ Hv) as Hi. pose proof (sr_max _ _ Hr) as Hmax.
  destruct (lookup_lt_is_Some_2 l (length l - 1)) as [x Hx]; [lia|].
  destruct (set_swap_run l s i v x Hr Hv Hx) as (s1 & Hrun1 & Hok1 & Hl1 & [Hp1 Hp1'] & [Hv1 Hv1']).
  destruct (l_erase (V := V) s1 (Z.of_nat (length l) - 1)) as (s2 & Hrun2 & Hok2 & [_ Hv2] & Hl2 & Hp2);
    [done|lia|].
  destruct (l_set_len (V := V) s2 (Z.of_nat (length l) - 1)) as (s3 & Hrun3 & Hok3 & Hl3 & Hv3 & Hp3);
    [done|lia|].
  destruct (l_del_pos (V := V) s3 v) as (s4 & Hrun4 & Hok4 & [Hp4 Hp4'] & Hl4 & Hv4);
    [done|by eapply sr_elem|].
  exists s4. split.
  - destruct (sr_pos_run l s v Hr (sr_elem l s i v Hr Hv)) as [Hrun0 _].
    unfold set_remove. rewrite (bind_run _ _ _ _ _ Hrun0), (sr_pos _ _ Hr i v Hv).
    destruct (Z.of_nat i + 1 =? 0) eqn:E; zbool; [lia|].
    rewrite (bind_run _ _ _ _ _ (sr_len_run l s Hr)). cbn zeta.
    replace (wrap U64_MAX (Z.of_nat (length l) - 1)) with (Z.of_nat (length l) - 1).
    2: { unfold wrap, U64_MAX, U32_MAX in *. rewrite Z.mod_small; lia. }
    replace (Z.of_nat i + 1 - 1) with (Z.of_nat i) by lia.
    rewrite (bind_run _ _ _ _ _ Hrun1), (bind_run _ _ _ _ _ Hrun2), (bind_run _ _ _ _ _ Hrun3).
    by rewrite (bind_run _ _ _ _ _ Hrun4).
  - pose proof (swap_remove_length i l Hi) as Hlen'.
    pose proof (elem_of_swap_remove i v l) as Hmem. specialize (fun k => Hmem k (sr_nodup _ _ Hr) Hv).
    split; try done.
    + apply swap_remove_NoDup; [done|apply Hr].
    + apply Forall_forall. intros k Hk. apply Hmem in Hk as [Hk _]. by eapply sr_elem_of.
    + rewrite Hl4, Hl3, Hlen'. lia.
    + lia.
    + intros j y Hj. apply swap_remove_lookup_inv in Hj as (Hj & Hcase); [|done].
      rewrite Hv4, Hv3, Hv2 by lia. destruct Hcase as [[-> Hy]|[Hne Hy]].
      * rewrite Hv1. congruence.
      * rewrite Hv1' by lia. by apply Hr.
    + intros j y Hj. pose proof (list_elem_of_lookup_2 _ _ _ Hj) as Hin.
      apply Hmem in Hin as [Hin Hne]. pose proof (sr_elem_of l s y Hr Hin).
      apply swap_remove_lookup_inv in Hj as (Hj & Hcase); [|done].
      rewrite Hp4', Hp3, Hp2 by done. destruct Hcase as [[-> Hy]|[Hne' Hy]].
      * replace y with x by congruence. done.
      * rewrite Hp1'; [by apply Hr|done|]. intros ->.
        pose proof (proj1 (NoDup_alt l) (sr_nodup _ _ Hr) _ _ _ Hx Hy). lia.
    + intros k Hk Hnin. destruct (decide (k = v)) as [->|Hne]; [done|].
      rewrite Hp4', Hp3, Hp2 by done. rewrite Hmem in Hnin.
      rewrite Hp1'; [apply Hr; tauto|done|]. intros ->.
      apply Hnin. split; [by eapply list_elem_of_lookup_2|done].
Qed.

Lemma set_read_run l s : set_repr l s -> set_read s = (Ok l, s).
Proof.
  intros Hr. unfold set_read. rewrite (bind_run _ _ _ _ _ (sr_len_run l s Hr)).
  rewrite (collect_pure (fun i => default 0 (l !! Z.to_nat i))).
  - f_equal. f_equal. apply list_eq. intros i. rewrite list_lookup_fmap.
    destruct (l !! i) as [x|] eqn:Hi.
    + pose proof (lookup_lt_Some _ _ _ Hi). rewrite lookup_seqZ_lt by lia. cbn.
      by rewrite Z.add_0_l, Nat2Z.id, Hi.
    + apply lookup_ge_None in Hi. by rewrite lookup_seqZ_ge by lia.
  - intros i Hi%elem_of_seqZ. destruct (lookup_lt_is_Some_2 l (Z.to_nat i)) as [x Hx]; [lia|].
    rewrite Hx. rewrite <- (Z2Nat.id i) at 1 by lia. by apply (sr_read_run l).
Qed.

Lemma set_at_run l s i : set_repr l s -> 0 <= i -> set_at i s = (Ok (l !! Z.to_nat i), s).
Proof.
  intros Hr Hi. unfold set_at. rewrite (bind_run _ _ _ _ _ (sr_len_run l s Hr)).
  destruct (i >=? Z.of_nat (length l)) eqn:E; zbool.
  - by rewrite lookup_ge_None_2 by lia.
  - destruct (lookup_lt_is_Some_2 l (Z.to_nat i)) as [x Hx]; [lia|].
    rewrite (bind_run _ _ _ x s); [by rewrite Hx|].
    rewrite <- (Z2Nat.id i) by lia. by apply (sr_read_run l).
Qed.

Lemma set_read_range_run l s a b :
  set_repr l s -> 0 <= a -> 0 <= b ->
  set_read_range a b s =
    (Ok (take (Z.to_nat (Z.min b (Z.of_nat (length l)) - a)) (drop (Z.to_nat a) l)), s).
Proof.
  intros Hr Ha Hb. unfold set_read_range. rewrite (bind_run _ _ _ _ _ (sr_len_run l s Hr)).
  cbn zeta. set (e := Z.min b (Z.of_nat (length l))). set (st := Z.min a e).
  rewrite (collect_pure (fun i => default 0 (l !! Z.to_nat i))).
  - f_equal. f_equal. apply list_eq. intros i. rewrite list_lookup_fmap.
    destruct (decide (Z.of_nat i < e - st)) as [Hi|Hi].
    + rewrite lookup_seqZ_lt, lookup_take, lookup_drop by lia. rewrite decide_True by lia. cbn.
      destruct (lookup_lt_is_Some_2 l (Z.to_nat a + i)) as [x Hx]; [lia|].
      replace (Z.to_nat (st + Z.of_nat i)) with (Z.to_nat a + i)%nat by lia. by rewrite Hx.
    + rewrite lookup_seqZ_ge by lia. cbn. symmetry. apply lookup_ge_None_2.
      rewrite length_take, length_drop. lia.
  - intros i Hi%elem_of_seqZ. destruct (lookup_lt_is_Some_2 l (Z.to_nat i)) as [x Hx]; [lia|].
    rewrite Hx. rewrite <- (Z2Nat.id i) at 1 by lia. by apply (sr_read_run l).
Qed.

(** Clearing the positions of the stored values. *)
Lemma clear_positions_run (l2 : list Z) off s :
  v_ok V s -> 0 <= off -> off + Z.of_nat (length l2) <= U32_MAX -> Forall (v_elem V) l2 ->
  (forall i x, l2 !! i = Some x -> v_val V s (off + Z.of_nat i) = x) ->
  exists s', for_each (seqZ off (Z.of_nat (length l2))) (fun i => v ← ss_read i; ss_del_pos v) s
      = (Ok tt, s') /\ v_ok V s' /\ same_len V s s' /\ same_vals V s s' /\
    (forall k, v_elem V k -> v_pos V s' k = if decide (k ∈ l2) then 0 else v_pos V s k).
Proof.
  revert off s. induction l2 as [|x l2 IH]; intros off s Hok Hoff Hmax Hel Hvals.
  { exists s. repeat split; try done. }
  apply Forall_cons in Hel as [Hx Hel]. cbn [length] in Hmax.
  destruct (l_del_pos (V := V) s x) as (s1 & Hrun1 & Hok1 & [Hp1 Hp1'] & Hl1 & Hv1); [done..|].
  destruct (IH (Z.succ off) s1) as (s' & Hrun & Hok' & Hl' & Hv' & Hp'); [done|lia|lia|done| |].
  { intros i y Hy. pose proof (lookup_lt_Some _ _ _ Hy). rewrite Hv1 by lia.
    rewrite <- (Hvals (Datatypes.S i) y Hy). f_equal. lia. }
  exists s'. rewrite seqZ_cons by (cbn [length]; lia).
  replace (Z.pred (Z.of_nat (length (x :: l2)))) with (Z.of_nat (length l2)) by (cbn [length]; lia).
  cbn [for_each].
  assert ((v ← ss_read off; ss_del_pos v) s = (Ok tt, s1)) as Hstep.
  { rewrite (bind_run _ _ _ x s); [done|]. rewrite (l_read (V := V)) by (done || lia).
    by rewrite <- (Hvals 0%nat x eq_refl), Z.add_0_r. }
  rewrite (bind_run _ _ _ _ _ Hstep). unfold same_len, same_vals in *.
  repeat split; [done|done|congruence|intros; by rewrite Hv', Hv1|].
  intros k Hk. rewrite Hp' by done. repeat case_decide; try done; set_solver.
Qed.

(** Writing the values and positions of a new set. *)
Lemma write_values_run (l2 : list Z) off s :
  v_ok V s -> 0 <= off -> off + Z.of_nat (length l2) <= U32_MAX -> Forall (v_elem V) l2 ->
  NoDup l2 ->
  exists s', for_each (zip (seqZ off (Z.of_nat (length l2))) l2) (fun '(index, new_value) =>
      p ← reads (fun _ => checked_position index); ss_set_pos new_value p;; ss_write index new_value) s
      = (Ok tt, s') /\ v_ok V s' /\ same_len V s s' /\
    (forall i x, l2 !! i = Some x ->
       v_val V s' (off + Z.of_nat i) = x /\ v_pos V s' x = off + Z.of_nat i + 1) /\
    (forall j, 0 <= j < off -> v_val V s' j = v_val V s j) /\
    (forall k, v_elem V k -> k ∉ l2 -> v_pos V s' k = v_pos V s k).
Proof.
  revert off s. induction l2 as [|x l2 IH]; intros off s Hok Hoff Hmax Hel Hnd.
  { exists s. repeat split; done. }
  apply Forall_cons in Hel as [Hx Hel]. apply NoDup_cons in Hnd as [Hnin Hnd]. cbn [length] in Hmax.
  destruct (l_set_pos (V := V) s x (off + 1)) as (s1 & Hrun1 & Hok1 & [Hp1 Hp1'] & Hl1 & Hv1);
    [done|done|lia|].
  destruct (l_write (V := V) s1 off x) as (s2 & Hrun2 & Hok2 & [Hv2 Hv2'] & Hl2 & Hp2);
    [done|lia|done|].
  destruct (IH (Z.succ off) s2) as (s' & Hrun & Hok' & Hl' & Hnew & Hold & Hother);
    [done|lia|lia|done|done|].
  exists s'. cbn [length]. rewrite seqZ_cons by lia.
  replace (Z.pred (Z.of_nat (Datatypes.S (length l2)))) with (Z.of_nat (length l2)) by lia.
  cbn [zip_with for_each].
  assert ((p ← reads (fun _ => checked_position off); ss_set_pos x p;; ss_write off x) s = (Ok tt, s2))
    as Hstep.
  { rewrite (bind_run _ _ _ (off + 1) s).
    - by rewrite (bind_run _ _ _ _ _ Hrun1).
    - unfold reads. by rewrite checked_position_ok by lia. }
  rewrite (bind_run _ _ _ _ _ Hstep). unfold same_len in *.
  split; [done|]. split; [done|]. split; [congruence|]. split; [|split].
  - intros [|i] y Hy.
    + injection Hy as <-. rewrite Z.add_0_r, Hold, Hother, Hp2 by (done || lia). by rewrite Hv2, Hp1.
    + destruct (Hnew i y Hy) as [Hv Hp]. split; [rewrite <- Hv; f_equal; lia|lia].
  - intros j Hj. rewrite Hold, Hv2', Hv1 by lia. done.
  - intros k Hk Hkn. rewrite Hother, Hp2, Hp1' by (done || set_solver). done.
Qed.

(** Erasing the values beyond the new length. *)
Lemma erase_values_run (n : nat) a s :
  v_ok V s -> 0 <= a -> a + Z.of_nat n <= U32_MAX ->
  exists s', for_each (seqZ a (Z.of_nat n)) ss_erase s = (Ok tt, s') /\ v_ok V s' /\
    same_len V s s' /\ same_pos V s s' /\ (forall j, 0 <= j < a -> v_val V s' j = v_val V s j).
Proof.
  revert a s. induction n as [|n IH]; intros a s Hok Ha Hmax.
  { exists s. repeat split; done. }
  destruct (l_erase (V := V) s a) as (s1 & Hrun1 & Hok1 & [_ Hv1] & Hl1 & Hp1); [done|lia|].
  destruct (IH (Z.succ a) s1) as (s' & Hrun & Hok' & Hl' & Hp' & Hv'); [done|lia|lia|].
  exists s'. rewrite seqZ_cons by lia. cbn [for_each].
  replace (Z.pred (Z.of_nat (Datatypes.S n))) with (Z.of_nat n) by lia.
  rewrite (bind_run _ _ _ _ _ Hrun1). unfold same_len, same_pos in *.
  repeat split; [done|done|congruence|intros; by rewrite Hp', Hp1|].
  intros j Hj. rewrite Hv', Hv1 by lia. done.
Qed.

Lemma set_cleared_run l s :
  set_repr l s ->
  exists s1, for_each (seqZ 0 (Z.of_nat (length l))) (fun i => v ← ss_read i; ss_del_pos v) s
      = (Ok tt, s1) /\ v_ok V s1 /\ same_len V s s1 /\ same_vals V s s1 /\
    (forall k, v_elem V k -> v_pos V s1 k = 0).
Proof.
  intros Hr. pose proof (sr_max _ _ Hr).
  destruct (clear_positions_run l 0 s) as (s1 & Hrun & Hok & Hl & Hv & Hp);
    [apply Hr|done|lia|apply Hr|intros i x Hx; by apply Hr|].
  exists s1. repeat split; try done. intros k Hk. rewrite Hp by done.
  case_decide; [done|]. by apply (sr_absent _ _ Hr).
Qed.

Lemma set_write_run l l' s :
  set_repr l s -> NoDup l' -> Forall (v_elem V) l' -> Z.of_nat (length l') <= U32_MAX ->
  exists s', set_write l' s = (Ok tt, s') /\ set_repr l' s'.
Proof.
  intros Hr Hnd Hel Hmax. pose proof (sr_max _ _ Hr) as Hmax0.
  destruct (set_cleared_run l s Hr) as (s1 & Hrun1 & Hok1 & Hl1 & Hv1 & Hp1).
  destruct (write_values_run l' 0 s1) as (s2 & Hrun2 & Hok2 & Hl2 & Hnew2 & _ & Hp2);
    [done|done|lia|done|done|].
  destruct (l_set_len (V := V) s2 (Z.of_nat (length l'))) as (s3 & Hrun3 & Hok3 & Hl3 & Hv3 & Hp3);
    [done|lia|].
  destruct (erase_values_run (length l - length l') (Z.of_nat (length l')) s3)
    as (s4 & Hrun4 & Hok4 & Hl4 & Hp4 & Hv4); [done|lia|lia|].
  exists s4. split.
  - unfold set_write. rewrite (bind_run _ _ _ _ _ (sr_len_run l s Hr)). cbn zeta.
    rewrite (bind_run _ _ _ _ _ Hrun1), (bind_run _ _ _ _ _ Hrun2), (bind_run _ _ _ _ _ Hrun3).
    rewrite <- Hrun4. f_equal. destruct (decide (length l' <= length l)%nat).
    + f_equal. lia.
    + rewrite !seqZ_nil by lia. done.
  - unfold same_len, same_pos, same_vals in *. split; try done.
    + congruence.
    + intros i x Hx. pose proof (lookup_lt_Some _ _ _ Hx).
      rewrite Hv4, Hv3 by lia. by apply (Hnew2 i x).
    + intros i x Hx. assert (v_elem V x) by (rewrite Forall_lookup in Hel; eauto).
      rewrite Hp4, Hp3 by done. by apply (Hnew2 i x).
    + intros k Hk Hnin. rewrite Hp4, Hp3, Hp2 by done. by apply Hp1.
Qed.

Lemma set_delete_run l s :
  set_repr l s -> exists s', set_delete s = (Ok tt, s') /\ set_repr [] s'.
Proof.
  intros Hr. pose proof (sr_max _ _ Hr) as Hmax.
  destruct (set_cleared_run l s Hr) as (s1 & Hrun1 & Hok1 & Hl1 & Hv1 & Hp1).
  destruct (l_clear (V := V) s1) as (s2 & Hrun2 & Hok2 & Hl2 & Hp2); [done| |].
  { rewrite Hl1, (sr_len _ _ Hr). lia. }
  exists s2. split.
  - unfold set_delete. rewrite (bind_run _ _ _ _ _ (sr_len_run l s Hr)).
    by rewrite (bind_run _ _ _ _ _ Hrun1).
  - split; try done; [constructor|]. intros k Hk _. rewrite Hp2 by done. by apply Hp1.
Qed.

(** An insert into a full set fails. *)
Lemma set_insert_full l s k :
  set_repr l s -> v_elem V k -> k ∉ l -> v_cap V <= Z.of_nat (length l) ->
  is_ok (set_insert k s).1 = false.
Proof.
  intros Hr Hk Hin Hcap. pose proof (sr_max _ _ Hr) as Hmax. unfold set_insert.
  rewrite (bind_run _ _ _ _ _ (set_contains_run l s k Hr Hk)).
  rewrite bool_decide_eq_false_2 by done. rewrite (bind_run _ _ _ _ _ (sr_len_run l s Hr)).
  destruct (decide (Z.of_nat (length l) < U32_MAX)) as [Hlt|Hge].
  - rewrite (bind_run _ _ _ (Z.of_nat (length l) + 1) s).
    2: { unfold reads. by rewrite checked_position_ok. }
    destruct (l_set_pos (V := V) s k (Z.of_nat (length l) + 1)) as (s1 & Hrun1 & Hok1 & _ & Hl1 & _);
      [apply Hr|done|lia|].
    rewrite (bind_run _ _ _ _ _ Hrun1). erewrite bind_run_err; [done|].
    apply (l_push_full (V := V)); [done|]. rewrite Hl1, (sr_len _ _ Hr). lia.
  - erewrite bind_run_err; [done|]. unfold reads, checked_position, checked_add.
    destruct (Z.of_nat (length l) <=? U32_MAX) eqn:E; zbool; [|lia].
    destruct (Z.of_nat (length l) + 1 <=? U32_MAX) eqn:E2; zbool; [lia|done].
Qed.
End refinement.

(** * Deduplication *)

Lemma set_from_vec_aux_spec seen l :
  NoDup (set_from_vec_aux seen l) /\
  forall k, k ∈ set_from_vec_aux seen l <-> k ∈ l /\ (k ∉ seen).
Proof.
  revert seen. induction l as [|x l IH]; intros seen; cbn.
  { split; [constructor|]. set_solver. }
  case_decide as Hx.
  - destruct (IH seen) as [Hnd Hmem]. split; [done|]. intros k. rewrite Hmem. set_solver.
  - destruct (IH ({[x]} ∪ seen)) as [Hnd Hmem]. split.
    + constructor; [|done]. rewrite Hmem. set_solver.
    + intros k. rewrite elem_of_cons, Hmem. destruct (decide (k = x)); set_solver.
Qed.

Lemma set_from_vec_spec l : NoDup (set_from_vec l) /\ forall k, k ∈ set_from_vec l <-> k ∈ l.
Proof.
  destruct (set_from_vec_aux_spec ∅ l) as [Hnd Hmem]. split; [done|].
  intros k. unfold set_from_vec. rewrite Hmem. set_solver.
Qed.

(** * Contract storage *)

(** [mapping_slot] of [storage/types/mod.rs]: the key, left-padded to 32 bytes,
    and the slot of the mapping, hashed. *)
Definition mapping_slot `{Keccak256} (key slot : Z) : Z :=
  keccak256 (be_bytes 32 key ++ be_bytes 32 slot).

Section slots.
Context `{Keccak256} (BYTES base : Z).

(** [SetHandler::new]: the vector at [base], the mapping at [base + 1]. *)
Definition pos_slot (key : Z) : Z := mapping_slot key (slot_at base 1).

#[export] Instance slot_set : SetStore storage := {|
  ss_len := load_checked_len base;
  ss_read i := handler_read BYTES (compute_handler BYTES (calc_data_slot base) i);
  ss_write i v := handler_write BYTES (compute_handler BYTES (calc_data_slot base) i) v;
  ss_erase i := handler_delete BYTES (compute_handler BYTES (calc_data_slot base) i);
  ss_push v := vec_push BYTES base v;
  ss_clear := vec_delete BYTES base;
  ss_set_len n := sstore base n;
  ss_pos k := w ← sload (pos_slot k); reads (fun _ => uint_from_word U32_MAX w);
  ss_set_pos k p := value_store 4 p (pos_slot k) FULL;
  ss_del_pos k := value_delete 4 (pos_slot k) FULL;
|}.

(** The slots the hash function places do not collide. *)
Record placement : Prop := {
  pl_data : data_disjoint base;
  pl_fits : forall k, word_ok BYTES k -> fits U256_MAX (pos_slot k);
  pl_base : forall k, word_ok BYTES k -> pos_slot k <> base;
  pl_region : forall k o, word_ok BYTES k -> 0 <= o <= U32_MAX ->
    slot_at (calc_data_slot base) o <> pos_slot k;
  pl_inj : forall k k', word_ok BYTES k -> word_ok BYTES k' -> pos_slot k = pos_slot k' -> k = k';
}.

Definition slot_view : SetView storage := {|
  v_ok := words_ok;
  v_elem := word_ok BYTES;
  v_cap := max_index BYTES;
  v_len st := zget st base;
  v_val st i := vcell BYTES (calc_data_slot base) st i;
  v_pos st k := zget st (pos_slot k);
|}.

Context (HB : size_ok BYTES) (PL : placement).

Lemma pos_slot_cells k p st i :
  word_ok BYTES k -> 0 <= i <= U32_MAX ->
  vcell BYTES (calc_data_slot base) (zset (pos_slot k) p st) i = vcell BYTES (calc_data_slot base) st i.
Proof.
  intros Hk Hi. unfold vcell, lane. rewrite zget_zset_ne; [done|].
  apply not_eq_sym, (pl_region PL); [done|].
  destruct (elem_loc_ok BYTES HB i) as (Ho & _); lia.
Qed.

Lemma cell_written_frame i v st st' :
  0 <= i <= U32_MAX -> cell_written BYTES (calc_data_slot base) i v st st' ->
  v_ok slot_view st' /\ val_set slot_view i v st st' /\
  same_len slot_view st st' /\ same_pos slot_view st st'.
Proof.
  intros Hi Hw. pose proof (cell_written_len BYTES HB base (pl_data PL) i v st st' Hi Hw) as Hlen.
  destruct Hw as (Hok & Hv & Hv' & Hout).
  split; [done|]. split; [split; [done|done]|]. split; [done|].
  intros k Hk. apply Hout, not_eq_sym, (pl_region PL); [done|].
  destruct (elem_loc_ok BYTES HB i) as (Ho & _); lia.
Qed.

Lemma slot_push_run st x :
  words_ok st -> 0 <= zget st base < max_index BYTES -> word_ok BYTES x ->
  exists st', vec_push BYTES base x st = (Ok tt, st') /\ words_ok st' /\
    val_set slot_view (zget st base) x st st' /\ zget st' base = zget st base + 1 /\
    same_pos slot_view st st'.
Proof.
  intros Hst Hlen Hx. pose proof (max_index_bound BYTES HB) as Hmax. set (n := zget st base) in *.
  destruct (handler_write_run BYTES HB (calc_data_slot base) n x st) as (st1 & Hrun & Hw);
    [lia|done|done|].
  destruct (cell_written_frame n x st st1 ltac:(lia) Hw) as (Hok & [Hv Hv'] & Hl & Hp). cbn in *.
  exists (zset base (n + 1) st1). split; [|split; [|split; [|split]]].
  - unfold vec_push. rewrite (bind_run _ _ _ n st) by (apply load_checked_len_run; done || lia).
    unfold guard_err. destruct (n >=? max_index BYTES) eqn:E; zbool; [lia|].
    rewrite (bind_run _ _ _ tt st) by done. rewrite (bind_run _ _ _ tt st1); [done|].
    rewrite <- Hrun. unfold handler_write, compute_handler. by destruct (BYTES <=? 16).
  - apply words_ok_zset; [done|]. split; [lia|]. apply u32_slot. lia.
  - split; [|intros j Hj Hne]; cbn; rewrite (vcell_set_len BYTES HB base (pl_data PL)) by lia; auto.
  - apply zget_zset_eq.
  - intros k Hk. cbn. rewrite zget_zset_ne by (apply not_eq_sym, (pl_base PL); done). by apply Hp.
Qed.

Lemma slot_clear_run st :
  words_ok st -> 0 <= zget st base <= U32_MAX ->
  exists st', vec_delete BYTES base st = (Ok tt, st') /\ words_ok st' /\ zget st' base = 0 /\
    same_pos slot_view st st'.
Proof.
  intros Hst Hlen. set (n := zget st base) in *. unfold vec_delete.
  rewrite (bind_run _ _ _ n st) by (apply load_checked_len_run; done || lia).
  rewrite (bind_run _ _ _ tt (zset base 0 st)) by done.
  assert (words_ok (zset base 0 st)) as Hst1.
  { apply words_ok_zset; [done|]. unfold fits, U256_MAX. lia. }
  assert (Hpos : same_pos slot_view st (zset base 0 st)).
  { intros k Hk. cbn. by rewrite zget_zset_ne by (apply not_eq_sym, (pl_base PL); done). }
  destruct (n =? 0) eqn:E0; zbool.
  { exists (zset base 0 st). split; [done|]. split; [done|]. split; [apply zget_zset_eq|done]. }
  destruct (clear_elements_run BYTES HB (calc_data_slot base) 0 n (zset base 0 st))
    as (st' & Hrun & Hw); [lia|lia|done|].
  pose proof (slots_of_bounds BYTES HB n ltac:(lia)) as [Hs _].
  pose proof (slots_of_bounds BYTES HB 0 ltac:(lia)) as [Hs0 _].
  exists st'. split; [done|]. split; [|split].
  - eapply writes_slots_words_ok; [done|done|]. intros. unfold fits, U256_MAX. lia.
  - rewrite (proj2 Hw); [apply zget_zset_eq|]. intros o Ho. apply (pl_data PL). lia.
  - intros k Hk. rewrite <- (Hpos k Hk). apply Hw. intros o Ho. apply (pl_region PL); [done|lia].
Qed.

Lemma pos_slot_write st k p :
  words_ok st -> word_ok BYTES k -> 0 <= p <= U32_MAX ->
  words_ok (zset (pos_slot k) p st) /\ pos_set slot_view k p st (zset (pos_slot k) p st) /\
  same_len slot_view st (zset (pos_slot k) p st) /\ same_vals slot_view st (zset (pos_slot k) p st).
Proof.
  intros Hst Hk Hp. split; [|split; [split|split]].
  - apply words_ok_zset; [done|]. split; [lia|]. apply u32_slot. lia.
  - apply zget_zset_eq.
  - intros k' Hk' Hne. cbn. apply zget_zset_ne. intros Heq. by apply Hne, (pl_inj PL).
  - apply zget_zset_ne, (pl_base PL). done.
  - intros i Hi. by apply pos_slot_cells.
Qed.

(** Contract storage implements the interface. *)
#[export] Instance slot_set_laws : SetStoreLaws storage slot_view.
Proof.
  split; cbn.
  - by apply max_index_bound.
  - intros st Hok Hlen. apply load_checked_len_run; [done|lia].
  - intros st i Hok Hi. apply handler_read_run; [done|lia|done].
  - intros st i x Hok Hi Hx.
    destruct (handler_write_run BYTES HB (calc_data_slot base) i x st) as (st' & Hrun & Hw); [done..|].
    exists st'. split; [done|]. by apply cell_written_frame.
  - intros st i Hok Hi.
    destruct (handler_delete_run BYTES HB (calc_data_slot base) i st) as (st' & Hrun & Hw); [done..|].
    exists st'. split; [done|]. by apply cell_written_frame.
  - intros st x Hok Hlen Hx. by apply slot_push_run.
  - intros st x Hok Hlen. unfold vec_push.
    rewrite (bind_run _ _ _ (zget st base) st) by (apply load_checked_len_run; done || lia).
    unfold guard_err. destruct (zget st base >=? max_index BYTES) eqn:E; zbool; [done|lia].
  - intros st Hok Hlen. by apply slot_clear_run.
  - intros st n Hok Hn. exists (zset base n st). split; [done|]. repeat split.
    + apply words_ok_zset; [done|]. split; [lia|]. apply u32_slot. lia.
    + apply words_ok_zset; [done|]. split; [lia|]. apply u32_slot. lia.
    + apply zget_zset_eq.
    + intros i Hi. by apply (vcell_set_len BYTES HB base (pl_data PL)).
    + intros k Hk. by apply zget_zset_ne, not_eq_sym, (pl_base PL).
  - intros st k Hok Hk Hp. unfold mbind, stm_bind, sload, gets, reads.
    by rewrite uint_from_word_ok.
  - intros st k p Hok Hk Hp. exists (zset (pos_slot k) p st). split; [done|]. by apply pos_slot_write.
  - intros st k Hok Hk. exists (zset (pos_slot k) 0 st). split.
    + pose proof (value_delete_full 4 (pos_slot k) 0 st) as Hd.
      replace (slot_at (pos_slot k) 0) with (pos_slot k) in Hd; [done|].
      unfold slot_at, wrap. pose proof (pl_fits PL k Hk) as Hf. unfold fits, U256_MAX in *.
      rewrite Z.mod_small; lia.
    + apply pos_slot_write; [done|done|]. unfold U32_MAX. lia.
Qed.
End slots.

(** * Typed view *)

(** The same set with one map per component, as the keychain model stores it. *)
Record SetState := mkSetState {
  st_len : Z;
  st_values : gmap Z Z;
  st_positions : gmap Z Z;
}.
#[export] Instance SetState_eq_dec : EqDecision SetState.
Proof. solve_decision. Defined.

Definition empty_set_state : SetState := mkSetState 0 ∅ ∅.

Section typed.
Context (BYTES : Z).

Definition st_set_len (n : Z) (s : SetState) := mkSetState n (st_values s) (st_positions s).
Definition st_set_value (i v : Z) (s : SetState) :=
  mkSetState (st_len s) (zset i v (st_values s)) (st_positions s).
Definition st_set_pos (k p : Z) (s : SetState) :=
  mkSetState (st_len s) (st_values s) (zset k p (st_positions s)).

Definition st_get_len : sio SetState Z :=
  n ← gets st_len; guard_err (n >? U32_MAX) under_overflow;; mret n.

#[export] Instance typed_set : SetStore SetState := {|
  ss_len := st_get_len;
  ss_read i := gets (fun s => zget (st_values s) i);
  ss_write i v := modify (st_set_value i v);
  ss_erase i := modify (st_set_value i 0);
  ss_push v :=
    n ← st_get_len;
    guard_err (n >=? max_index BYTES) (Fatal "Vec is at max capacity");;
    modify (st_set_value n v);;
    modify (st_set_len (n + 1));
  ss_clear :=
    n ← st_get_len;
    modify (st_set_len 0);;
    for_each (seqZ 0 n) (fun i => modify (st_set_value i 0));
  ss_set_len n := modify (st_set_len n);
  ss_pos k := gets (fun s => zget (st_positions s) k);
  ss_set_pos k p := modify (st_set_pos k p);
  ss_del_pos k := modify (st_set_pos k 0);
|}.

Definition typed_view : SetView SetState := {|
  v_ok _ := True;
  v_elem _ := True;
  v_cap := max_index BYTES;
  v_len := st_len;
  v_val s i := zget (st_values s) i;
  v_pos s k := zget (st_positions s) k;
|}.

Lemma st_get_len_run s : st_len s <= U32_MAX -> st_get_len s = (Ok (st_len s), s).
Proof.
  intros Hn. unfold st_get_len, mbind, stm_bind, gets, guard_err.
  destruct (st_len s >? U32_MAX) eqn:E; zbool; [lia|done].
Qed.

Lemma typed_erase_loop l s :
  exists s', for_each l (fun i => modify (st_set_value i 0)) s
      = (@Ok TempoPrecompileError unit tt, s') /\
    st_len s' = st_len s /\ st_positions s' = st_positions s.
Proof.
  revert s. induction l as [|i l IH]; intros s; [by exists s|].
  destruct (IH (st_set_value i 0 s)) as (s' & Hrun & Hl & Hp). exists s'. split; [done|]. by cbn in *.
Qed.

#[export] Instance typed_set_laws : size_ok BYTES -> SetStoreLaws SetState typed_view.
Proof.
  intros HB. split; unfold val_set, pos_set, same_len, same_pos, same_vals; cbn.
  - by apply max_index_bound.
  - intros s _ Hlen. apply st_get_len_run. lia.
  - done.
  - intros s i x _ Hi _. eexists. split; [done|]. cbn. repeat split; [apply zget_zset_eq|].
    intros j _ Hne. by apply zget_zset_ne.
  - intros s i _ Hi. eexists. split; [done|]. cbn. repeat split; [apply zget_zset_eq|].
    intros j _ Hne. by apply zget_zset_ne.
  - intros s x _ Hlen _. pose proof (max_index_bound BYTES HB).
    exists (st_set_len (st_len s + 1) (st_set_value (st_len s) x s)). split.
    + rewrite (bind_run _ _ _ _ _ (st_get_len_run s ltac:(lia))). unfold guard_err.
      destruct (st_len s >=? max_index BYTES) eqn:E; zbool; [lia|done].
    + cbn. repeat split; [apply zget_zset_eq|]. intros j _ Hne. by apply zget_zset_ne.
  - intros s x _ Hlen. rewrite (bind_run _ _ _ _ _ (st_get_len_run s ltac:(lia))). unfold guard_err.
    destruct (st_len s >=? max_index BYTES) eqn:E; zbool; [done|lia].
  - intros s _ Hlen.
    destruct (typed_erase_loop (seqZ 0 (st_len s)) (st_set_len 0 s)) as (s' & Hrun & Hl & Hp).
    exists s'. rewrite (bind_run _ _ _ _ _ (st_get_len_run s ltac:(lia))). split; [done|].
    split; [done|]. split; [done|]. intros k _. by rewrite Hp.
  - intros s n _ Hn. eexists. split; [done|]. done.
  - done.
  - intros s k p _ _ Hp. eexists. split; [done|]. cbn. repeat split; [apply zget_zset_eq|].
    intros k' _ Hne. by apply zget_zset_ne.
  - intros s k _ _. eexists. split; [done|]. cbn. repeat split; [apply zget_zset_eq|].
    intros k' _ Hne. by apply zget_zset_ne.
Qed.

Lemma typed_set_empty : set_repr typed_view [] empty_set_state.
Proof. split; try done. constructor. Qed.
End typed.

(** * Properties *)

(** A client's sequence of operations, and its meaning on mathematical sets. *)
Inductive set_op := OpContains (k : Z) | OpInsert (k : Z) | OpRemove (k : Z).

Definition op_key (o : set_op) : Z :=
  match o with OpContains k | OpInsert k | OpRemove k => k end.

Definition exec_op {S} `{SetStore S} (o : set_op) : sio S bool :=
  match o with
  | OpContains k => set_contains k
  | OpInsert k => set_insert k
  | OpRemove k => set_remove k
  end.

Definition spec_op (o : set_op) (X : gset Z) : bool * gset Z :=
  match o with
  | OpContains k => (bool_decide (k ∈ X), X)
  | OpInsert k => (negb (bool_decide (k ∈ X)), {[k]} ∪ X)
  | OpRemove k => (bool_decide (k ∈ X), X ∖ {[k]})
  end.

Fixpoint spec_ops (os : list set_op) (X : gset Z) : list bool * gset Z :=
  match os with
  | [] => ([], X)
  | o :: os => let '(b, X1) := spec_op o X in let '(bs, X2) := spec_ops os X1 in (b :: bs, X2)
  end.

Lemma exec_op_run {S} `{SetStore S} (V : SetView S) {L : SetStoreLaws S V} o l s :
  set_repr V l s -> v_elem V (op_key o) -> Z.of_nat (length l) < v_cap V ->
  exists l' s', exec_op o s = (Ok (spec_op o (list_to_set l)).1, s') /\ set_repr V l' s' /\
    list_to_set l' = (spec_op o (list_to_set l)).2 /\ (length l' <= Datatypes.S (length l))%nat.
Proof.
  intros Hr Hk Hcap. destruct o as [k|k|k]; cbn in *.
  - exists l, s. rewrite (set_contains_run V l s k Hr Hk). split; [|auto].
    f_equal. f_equal. apply bool_decide_ext. by rewrite elem_of_list_to_set.
  - destruct (decide (k ∈ l)) as [Hin|Hin].
    + exists l, s. rewrite (set_insert_present V l s k Hr Hin).
      rewrite bool_decide_eq_true_2 by (by rewrite elem_of_list_to_set).
      split; [done|]. split; [done|]. split; [set_solver|lia].
    + destruct (set_insert_new V l s k Hr Hk Hin Hcap) as (s' & Hrun & Hr').
      exists (l ++ [k]), s'. rewrite bool_decide_eq_false_2 by (by rewrite elem_of_list_to_set).
      split; [done|]. split; [done|]. split; [set_solver|rewrite length_app; cbn; lia].
  - destruct (decide (k ∈ l)) as [Hin|Hin].
    + pose proof Hin as [i Hi]%list_elem_of_lookup.
      destruct (set_remove_present V l s i k Hr Hi) as (s' & Hrun & Hr').
      exists (swap_remove i l), s'. rewrite bool_decide_eq_true_2 by (by rewrite elem_of_list_to_set).
      split; [done|]. split; [done|].
      rewrite swap_remove_length by (by eapply lookup_lt_Some). split; [|lia].
      apply set_eq. intros y.
      rewrite elem_of_difference, !elem_of_list_to_set, elem_of_singleton.
      by apply elem_of_swap_remove; [apply Hr|].
    + exists l, s. rewrite (set_remove_absent V l s k Hr Hk Hin).
      rewrite bool_decide_eq_false_2 by (by rewrite elem_of_list_to_set).
      split; [done|]. split; [done|]. split; [|lia]. apply set_eq. intros y.
      rewrite elem_of_difference, !elem_of_list_to_set, elem_of_singleton. set_solver.
Qed.

(** C33: The enumerable set in contract storage behaves as a mathematical set:
    for every sequence of [contains], [insert] and [remove] calls that stays
    within the capacity, each call succeeds with the answer of the set
    semantics, and afterwards the stored values, read in order, are exactly the
    members, each once. (The hash function is assumed not to place two of the
    set's slots on top of each other.) *)
Theorem set_refines_gset `{Keccak256} BYTES base os l st :
  size_ok BYTES -> placement BYTES base -> set_repr (slot_view BYTES base) l st ->
  Forall (fun o => word_ok BYTES (op_key o)) os ->
  Z.of_nat (length l) + Z.of_nat (length os) <= max_index BYTES ->
  let '(answers, X) := spec_ops os (list_to_set l) in
  exists l' st',
    collect os (@exec_op _ (slot_set BYTES base)) st = (Ok answers, st') /\
    @set_read _ (slot_set BYTES base) st' = (Ok l', st') /\ NoDup l' /\ list_to_set l' = X.
Proof.
  intros HB PL Hr Hos Hcap. pose proof (slot_set_laws BYTES base HB PL) as L.
  revert l st Hr Hcap. induction Hos as [|o os Ho Hos IH]; intros l st Hr Hcap.
  { exists l, st. split; [done|]. split; [by apply (set_read_run _ l)|]. split; [apply Hr|done]. }
  cbn [length] in Hcap. cbn [spec_ops].
  destruct (exec_op_run (L := L) (slot_view BYTES base) o l st Hr Ho) as (l1 & st1 & Hrun & Hr1 & HX & Hlen).
  { cbn. lia. }
  specialize (IH l1 st1 Hr1 ltac:(lia)). rewrite HX in IH.
  destruct (spec_op o (list_to_set l)) as [b X1]. cbn in Hrun, HX, IH.
  destruct (spec_ops os X1) as [bs X2]. destruct IH as (l' & st' & Hrun' & Hrest).
  exists l', st'. split; [|done]. cbn [collect].
  rewrite (bind_run _ _ _ _ _ Hrun). by rewrite (bind_run _ _ _ _ _ Hrun').
Qed.

(** Bulk replacement: writing [Set::from(v)] over any stored set succeeds,
    reading it back returns the deduplicated vector, whose members are exactly
    those of [v], and membership tests agree with [v]; deleting the set leaves
    it empty. *)
Theorem set_write_read `{Keccak256} BYTES base l v st :
  size_ok BYTES -> placement BYTES base -> set_repr (slot_view BYTES base) l st ->
  Forall (word_ok BYTES) v -> Z.of_nat (length (set_from_vec v)) <= U32_MAX ->
  exists st' st'',
    @set_write _ (slot_set BYTES base) (set_from_vec v) st = (Ok tt, st') /\
    @set_read _ (slot_set BYTES base) st' = (Ok (set_from_vec v), st') /\
    (forall k, word_ok BYTES k ->
       @set_contains _ (slot_set BYTES base) k st' = (Ok (bool_decide (k ∈ v)), st')) /\
    @set_delete _ (slot_set BYTES base) st' = (Ok tt, st'') /\
    @set_read _ (slot_set BYTES base) st'' = (Ok [], st'').
Proof.
  intros HB PL Hr Hv Hmax. pose proof (slot_set_laws BYTES base HB PL) as L.
  destruct (set_from_vec_spec v) as [Hnd Hmem].
  destruct (set_write_run (L := L) (slot_view BYTES base) l (set_from_vec v) st Hr Hnd) as (st' & Hrun & Hr').
  { apply Forall_forall. intros k Hk%Hmem. by eapply Forall_forall in Hv. }
  { done. }
  destruct (set_delete_run (L := L) (slot_view BYTES base) _ st' Hr') as (st'' & Hdel & Hr'').
  exists st', st''. split; [done|]. split; [by apply (set_read_run (slot_view BYTES base))|].
  split; [|split; [done|by apply (set_read_run (slot_view BYTES base))]].
  intros k Hk. rewrite (set_contains_run (L := L) (slot_view BYTES base) _ st' k Hr' Hk).
  f_equal. f_equal. apply bool_decide_ext. apply Hmem.
Qed.

Module SetExample.
(** A placement function without collisions: vectors of slot 7 at [2^200], the
    position of key [k] at [2^201 + k]. *)
Definition hash : Keccak256 :=
  {| keccak256 := fun b => if (length b =? 32)%nat then 2 ^ 200 else 2 ^ 201 + be_val (take 32 b) |}.
#[local] Existing Instance hash.

Lemma pos_slot_example k : word_ok 4 k -> pos_slot 7 k = 2 ^ 201 + k.
Proof.
  intros Hk. unfold pos_slot, mapping_slot. cbn [keccak256 hash].
  rewrite length_app, !length_be_bytes. cbn [Nat.eqb Nat.add].
  rewrite take_app_length' by (by rewrite length_be_bytes).
  rewrite be_val_be_bytes; [done|]. unfold word_ok, fits in Hk. cbn in *. lia.
Qed.

Lemma placement_example : placement 4 7.
Proof.
  assert (Hd : calc_data_slot 7 = 2 ^ 200) by (vm_compute; done).
  split.
  - intros o Ho. rewrite Hd. unfold slot_at, wrap, U32_MAX, U256_MAX in *. rewrite Z.mod_small; lia.
  - intros k Hk. rewrite pos_slot_example by done. unfold word_ok, fits, U256_MAX in *. cbn in *. lia.
  - intros k Hk. rewrite pos_slot_example by done. unfold word_ok, fits in *. lia.
  - intros k o Hk Ho. rewrite pos_slot_example, Hd by done.
    unfold slot_at, wrap, word_ok, fits, U32_MAX, U256_MAX in *. rewrite Z.mod_small; lia.
  - intros k k' Hk Hk'. rewrite !pos_slot_example by done. lia.
Qed.

Lemma slot_repr_empty : set_repr (slot_view 4 7) [] ∅.
Proof. split; try done. constructor. Qed.

Lemma set_refines_gset_witness :
  exists l' st',
    collect [OpInsert 1; OpInsert 2; OpInsert 1; OpRemove 1; OpContains 1; OpContains 2]
      (@exec_op _ (slot_set 4 7)) ∅ = (Ok [true; true; false; true; false; true], st') /\
    @set_read _ (slot_set 4 7) st' = (Ok l', st') /\ NoDup l' /\ list_to_set l' = ({[2]} : gset Z).
Proof.
  apply (set_refines_gset 4 7
    [OpInsert 1; OpInsert 2; OpInsert 1; OpRemove 1; OpContains 1; OpContains 2] [] ∅).
  - unfold size_ok. lia.
  - apply placement_example.
  - apply slot_repr_empty.
  - repeat constructor; unfold word_ok, fits; cbn; lia.
  - vm_compute. discriminate.
Defined.

Lemma set_write_read_witness :
  exists st' st'',
    @set_write _ (slot_set 4 7) [3; 4] ∅ = (Ok tt, st') /\
    @set_read _ (slot_set 4 7) st' = (Ok [3; 4], st') /\
    (forall k, word_ok 4 k ->
       @set_contains _ (slot_set 4 7) k st' = (Ok (bool_decide (k ∈ [3; 4; 3])), st')) /\
    @set_delete _ (slot_set 4 7) st' = (Ok tt, st'') /\
    @set_read _ (slot_set 4 7) st'' = (Ok [], st'').
Proof.
  apply (set_write_read 4 7 [] [3; 4; 3] ∅).
  - unfold size_ok. lia.
  - apply placement_example.
  - apply slot_repr_empty.
  - repeat constructor; unfold word_ok, fits; cbn; lia.
  - vm_compute. discriminate.
Defined.
End SetExample.
