(* ===== verification/Keychain.v ===== *)
(** The account keychain precompile ([account_keychain/mod.rs]): session keys
    with expiry, per-token spending limits, call scopes and authorization
    witnesses.

    The state is the contract's storage at the granularity of its typed
    handlers: one map per [Mapping] field, sets as [EnumerableSet.SetState], the
    two transient fields, and the emitted events. Every operation that mutates
    state or may fail is a computation on that state; on failure the writes made
    so far remain, and the caller of the precompile discards them. Addresses,
    hashes and amounts are integers. *)

From S2P Require Import Prelude Hardfork Packing Layout StorageVec EnumerableSet.

(** * Interface types (precompile-abi) *)

Inductive SignatureType := Secp256k1 | P256 | WebAuthn | InvalidSignature.

Record TokenLimit := mkTokenLimit { tl_token : Z; tl_amount : Z; tl_period : Z }.
Record SelectorRule := mkSelectorRule { sr_selector : Z; sr_recipients : list Z }.
Record CallScope := mkCallScope { cs_target : Z; cs_rules : list SelectorRule }.
Record KeyRestrictions := mkKeyRestrictions {
  kr_expiry : Z;
  kr_enforceLimits : bool;
  kr_limits : list TokenLimit;
  kr_allowAnyCalls : bool;
  kr_allowedCalls : list CallScope;
}.
Record KeyInfo := mkKeyInfo {
  ki_signatureType : SignatureType;
  ki_keyId : Z;
  ki_expiry : Z;
  ki_enforceLimits : bool;
  ki_isRevoked : bool;
}.
Record getAllowedCallsReturn := mkAllowedCalls { ac_isScoped : bool; ac_scopes : list CallScope }.

#[export] Instance SelectorRule_eq_dec : EqDecision SelectorRule.
Proof. solve_decision. Defined.
#[export] Instance CallScope_eq_dec : EqDecision CallScope.
Proof. solve_decision. Defined.

Inductive KeychainEvent :=
| EvKeyAuthorized (account publicKey signatureType expiry : Z)
| EvKeyRevoked (account publicKey : Z)
| EvSpendingLimitUpdated (account publicKey token newLimit : Z)
| EvAccessKeySpend (account publicKey token amount remainingLimit : Z)
| EvKeyAuthorizationWitness (account witness : Z)
| EvKeyAuthorizationWitnessBurned (account witness : Z).

(** * State *)

Record SelectorScope := mkSelectorScope { recipients : SetState }.
Record TargetScope := mkTargetScope {
  selectors : SetState;
  selector_scopes : gmap Z SelectorScope;
}.
Record KeyScope := mkKeyScope {
  is_scoped : bool;
  targets : SetState;
  target_scopes : gmap Z TargetScope;
}.
Definition default_selector_scope : SelectorScope := mkSelectorScope empty_set_state.
Definition default_target_scope : TargetScope := mkTargetScope empty_set_state ∅.
Definition default_key_scope : KeyScope := mkKeyScope false empty_set_state ∅.

Record AccountKeychain := mkAccountKeychain {
  keys : gmap (Z * Z) AuthorizedKey;
  spending_limits : gmap (Z * Z) SpendingLimitState;
  key_scopes : gmap Z KeyScope;
  key_authorization_witnesses : gmap (Z * Z) bool;
  transaction_key : Z;
  tx_origin : Z;
  kc_events : list KeychainEvent;
}.

Definition empty_keychain : AccountKeychain := mkAccountKeychain ∅ ∅ ∅ ∅ 0 0 [].

(** The block context the storage provider exposes. *)
Record BlockEnv := mkBlockEnv { env_spec : TempoHardfork; env_timestamp : Z }.
Definition now (env : BlockEnv) : Z := Z.min (env_timestamp env) U64_MAX.

Abbreviation kio := (stm AccountKeychain TempoPrecompileError).
Definition kerr {A} (e : AccountKeychainError) : kio A := throw (KeychainErr e).
Definition kguard (b : bool) (e : AccountKeychainError) : kio unit := guard_err b (KeychainErr e).

Definition get_authorized_key (account key_id : Z) (s : AccountKeychain) : AuthorizedKey :=
  dget default_key (keys s) (account, key_id).
Definition get_limit (key_hash token : Z) (s : AccountKeychain) : SpendingLimitState :=
  dget default_limit (spending_limits s) (key_hash, token).
Definition get_scope (key_hash : Z) (s : AccountKeychain) : KeyScope :=
  dget default_key_scope (key_scopes s) key_hash.
Definition get_target_scope (target : Z) (k : KeyScope) : TargetScope :=
  dget default_target_scope (target_scopes k) target.
Definition get_selector_scope (selector : Z) (t : TargetScope) : SelectorScope :=
  dget default_selector_scope (selector_scopes t) selector.

Definition put_key (account key_id : Z) (k : AuthorizedKey) (s : AccountKeychain) :=
  mkAccountKeychain (<[(account, key_id) := k]> (keys s)) (spending_limits s) (key_scopes s)
    (key_authorization_witnesses s) (transaction_key s) (tx_origin s) (kc_events s).
Definition put_limit (key_hash token : Z) (l : SpendingLimitState) (s : AccountKeychain) :=
  mkAccountKeychain (keys s) (<[(key_hash, token) := l]> (spending_limits s)) (key_scopes s)
    (key_authorization_witnesses s) (transaction_key s) (tx_origin s) (kc_events s).
Definition put_scope (key_hash : Z) (k : KeyScope) (s : AccountKeychain) :=
  mkAccountKeychain (keys s) (spending_limits s) (<[key_hash := k]> (key_scopes s))
    (key_authorization_witnesses s) (transaction_key s) (tx_origin s) (kc_events s).
Definition put_witness (account witness : Z) (b : bool) (s : AccountKeychain) :=
  mkAccountKeychain (keys s) (spending_limits s) (key_scopes s)
    (<[(account, witness) := b]> (key_authorization_witnesses s))
    (transaction_key s) (tx_origin s) (kc_events s).
Definition put_transaction_key (k : Z) (s : AccountKeychain) :=
  mkAccountKeychain (keys s) (spending_limits s) (key_scopes s)
    (key_authorization_witnesses s) k (tx_origin s) (kc_events s).
Definition put_tx_origin (o : Z) (s : AccountKeychain) :=
  mkAccountKeychain (keys s) (spending_limits s) (key_scopes s)
    (key_authorization_witnesses s) (transaction_key s) o (kc_events s).
Definition emit_event (e : KeychainEvent) : kio unit :=
  modify (fun s => mkAccountKeychain (keys s) (spending_limits s) (key_scopes s)
    (key_authorization_witnesses s) (transaction_key s) (tx_origin s) (kc_events s ++ [e])).

(** Handlers into the scope tree. *)
Definition put_is_scoped (b : bool) (k : KeyScope) := mkKeyScope b (targets k) (target_scopes k).
Definition put_targets (t : SetState) (k : KeyScope) := mkKeyScope (is_scoped k) t (target_scopes k).
Definition put_target_scope (target : Z) (t : TargetScope) (k : KeyScope) :=
  mkKeyScope (is_scoped k) (targets k) (<[target := t]> (target_scopes k)).
Definition put_selectors (s : SetState) (t : TargetScope) := mkTargetScope s (selector_scopes t).
Definition put_selector_scope (selector : Z) (c : SelectorScope) (t : TargetScope) :=
  mkTargetScope (selectors t) (<[selector := c]> (selector_scopes t)).

(** Scope operations act on one key's tree; [at_scope] runs them on the state. *)
Abbreviation scio := (stm KeyScope TempoPrecompileError).
Definition at_scope {A} (key_hash : Z) (m : scio A) : kio A :=
  zoom (get_scope key_hash) (put_scope key_hash) m.
Definition at_targets {A} (m : sio SetState A) : scio A := zoom targets put_targets m.
Definition at_selectors {A} (target : Z) (m : sio SetState A) : scio A :=
  zoom (get_target_scope target) (put_target_scope target) (zoom selectors put_selectors m).
Definition at_recipients {A} (target selector : Z) (m : sio SetState A) : scio A :=
  zoom (get_target_scope target) (put_target_scope target)
    (zoom (get_selector_scope selector) (put_selector_scope selector)
      (zoom recipients (fun r _ => mkSelectorScope r) m)).

(** Sets of addresses (20 bytes) and of selectors (4 bytes). *)
Definition addr_set : SetStore SetState := typed_set 20.
Definition sel_set : SetStore SetState := typed_set 4.

(** Read-only handler calls. *)
Definition set_values (s : SetState) : res (list Z) := (@set_read _ addr_set s).1.
Definition set_has (v : Z) (s : SetState) : res bool := (@set_contains _ addr_set v s).1.
Definition set_none (s : SetState) : res bool := (@set_is_empty _ addr_set s).1.

(** * Spending limits *)

(** [SpendingLimitState::compute_next_period_end]. *)
Definition compute_next_period_end (l : SpendingLimitState) (current_timestamp : Z) : Z :=
  let elapsed := sat_sub current_timestamp (period_end l) in
  let periods_elapsed := sat_add U64_MAX (elapsed / period l) 1 in
  let advance := sat_mul U64_MAX (period l) periods_elapsed in
  sat_add U64_MAX (period_end l) advance.

Definition t3_spending_limit_cap (limit : Z) : res Z :=
  if limit >? U128_MAX then Err (KeychainErr InvalidSpendingLimit) else Ok limit.

Definition TIP20_TRANSFER_SELECTOR : Z := 0xa9059cbb.
Definition TIP20_APPROVE_SELECTOR : Z := 0x095ea7b3.
Definition TIP20_TRANSFER_WITH_MEMO_SELECTOR : Z := 0x95777d59.
Definition is_constrained_tip20_selector (selector : Z) : bool :=
  (selector =? TIP20_TRANSFER_SELECTOR) || (selector =? TIP20_APPROVE_SELECTOR)
  || (selector =? TIP20_TRANSFER_WITH_MEMO_SELECTOR).

Section keychain.
Context `{Keccak256}.

Definition spending_limit_key (account key_id : Z) : Z :=
  keccak256 (be_bytes 20 account ++ be_bytes 20 key_id).

Section ops.
Context (env : BlockEnv).
Let spec := env_spec env.

(** * Key lookup and caller checks *)

Definition load_active_key (account key_id current_timestamp : Z) (s : AccountKeychain)
  : res AuthorizedKey :=
  let key := get_authorized_key account key_id s in
  if is_revoked key then Err (KeychainErr KeyAlreadyRevoked)
  else if expiry key =? 0 then Err (KeychainErr KeyNotFound)
  else if current_timestamp >=? expiry key then Err (KeychainErr KeyExpired)
  else Ok key.

Definition validate_keychain_authorization (account key_id current_timestamp : Z)
    (expected_sig_type : option Z) (s : AccountKeychain) : res AuthorizedKey :=
  key ← load_active_key account key_id current_timestamp s;
  match expected_sig_type with
  | Some sig_type =>
      if negb (signature_type key =? sig_type)
      then Err (KeychainErr (SignatureTypeMismatch (signature_type key) sig_type))
      else Ok key
  | None => Ok key
  end.

Definition ensure_account_caller (msg_sender : Z) (allow_active_key : bool) (s : AccountKeychain)
  : res unit :=
  (if negb (transaction_key s =? 0) then
     if allow_active_key
     then _ ← load_active_key msg_sender (transaction_key s) (now env) s; Ok tt
     else Err (KeychainErr UnauthorizedCaller)
   else Ok tt) ≫= fun _ =>
  if is_t2 spec then
    if (tx_origin s =? 0) || negb (tx_origin s =? msg_sender)
    then Err (KeychainErr UnauthorizedCaller) else Ok tt
  else Ok tt.

Definition ensure_admin_caller (msg_sender : Z) (s : AccountKeychain) : res unit :=
  ensure_account_caller msg_sender false s.

(** * Call-scope validation *)

Fixpoint check_recipients (seen : gset Z) (l : list Z) : res unit :=
  match l with
  | [] => Ok tt
  | r :: l =>
      if (r =? 0) || bool_decide (r ∈ seen) then Err (KeychainErr InvalidCallScope)
      else check_recipients ({[r]} ∪ seen) l
  end.

Fixpoint check_selector_rules (seen : gset Z) (rules : list SelectorRule) : res unit :=
  match rules with
  | [] => Ok tt
  | rule :: rules =>
      if bool_decide (sr_selector rule ∈ seen) then Err (KeychainErr InvalidCallScope)
      else
        (match sr_recipients rule with
         | [] => Ok tt
         | _ =>
             if negb (is_constrained_tip20_selector (sr_selector rule))
             then Err (KeychainErr InvalidCallScope)
             else check_recipients ∅ (sr_recipients rule)
         end) ≫= fun _ =>
        check_selector_rules ({[sr_selector rule]} ∪ seen) rules
  end.
Definition validate_selector_rules (rules : list SelectorRule) : res unit :=
  check_selector_rules ∅ rules.

Definition validate_call_scope (scope : CallScope) : res unit :=
  if cs_target scope =? 0 then Err (KeychainErr InvalidCallScope)
  else match cs_rules scope with
       | [] => Ok tt
       | _ => validate_selector_rules (cs_rules scope)
       end.

Fixpoint check_call_scopes (seen : gset Z) (scopes : list CallScope) : res unit :=
  match scopes with
  | [] => Ok tt
  | scope :: scopes =>
      if bool_decide (cs_target scope ∈ seen) then Err (KeychainErr InvalidCallScope)
      else
        (if is_t4 spec then validate_call_scope scope else Ok tt) ≫= fun _ =>
        check_call_scopes ({[cs_target scope]} ∪ seen) scopes
  end.
Definition validate_call_scopes (scopes : list CallScope) : res unit :=
  check_call_scopes ∅ scopes.

(** * Call-scope tree *)

Definition clear_target_selectors (target : Z) : scio unit :=
  sels ← reads (fun k => set_values (selectors (get_target_scope target k)));
  for_each sels (fun selector => at_recipients target selector (@set_delete _ addr_set));;
  at_selectors target (@set_delete _ sel_set).

Definition clear_all_target_scopes : scio unit :=
  ts ← reads (fun k => set_values (targets k));
  for_each ts clear_target_selectors;;
  at_targets (@set_delete _ addr_set).

Definition remove_target_scope (target : Z) : scio unit :=
  removed ← at_targets (@set_remove _ addr_set target);
  if (removed : bool) then clear_target_selectors target else mret tt.

Definition upsert_rule (target : Z) (rule : SelectorRule) : scio unit :=
  let selector := sr_selector rule in
  at_selectors target (@set_insert _ sel_set selector);;
  match sr_recipients rule with
  | [] => if negb (is_t4 spec) then at_recipients target selector (@set_delete _ addr_set)
          else mret tt
  | _ => at_recipients target selector (@set_write _ addr_set (sr_recipients rule))
  end.

Definition upsert_target_scope (scope : CallScope) : scio unit :=
  let target := cs_target scope in
  (if negb (is_t4 spec) then reads (fun _ => validate_call_scope scope) else mret tt);;
  at_targets (@set_insert _ addr_set target);;
  clear_target_selectors target;;
  for_each (cs_rules scope) (upsert_rule target).

Definition replace_allowed_calls (allowed_calls : option (list CallScope)) : scio unit :=
  clear_all_target_scopes;;
  match allowed_calls with
  | None => modify (put_is_scoped false)
  | Some scopes =>
      modify (put_is_scoped true);;
      match scopes with
      | [] => mret tt
      | _ => reads (fun _ => validate_call_scopes scopes);; for_each scopes upsert_target_scope
      end
  end.

(** * Administration *)

(** Witnesses. *)
Definition is_key_authorization_witness_burned (account witness : Z) (s : AccountKeychain) : bool :=
  dget false (key_authorization_witnesses s) (account, witness).

Definition ensure_key_authorization_witness_not_burned (account witness : Z) (s : AccountKeychain)
  : res unit :=
  if is_key_authorization_witness_burned account witness s
  then Err (KeychainErr KeyAuthorizationWitnessAlreadyBurned) else Ok tt.

Definition burn_key_authorization_witness_value (account witness : Z) : kio unit :=
  reads (ensure_key_authorization_witness_not_burned account witness);;
  modify (put_witness account witness true);;
  emit_event (EvKeyAuthorizationWitnessBurned account witness).

Definition burn_key_authorization_witness (msg_sender witness : Z) : kio unit :=
  reads (ensure_account_caller msg_sender true);;
  burn_key_authorization_witness_value msg_sender witness.

(** Transient fields, written by the transaction handler. *)
Definition get_transaction_key : kio Z := gets transaction_key.
Definition set_transaction_key (key_id : Z) : kio unit := modify (put_transaction_key key_id).
Definition set_tx_origin (origin : Z) : kio unit := modify (put_tx_origin origin).

Definition set_limit_remaining (key_hash token v : Z) (s : AccountKeychain) : AccountKeychain :=
  let l := get_limit key_hash token s in
  put_limit key_hash token (mkSpendingLimitState v (max l) (period l) (period_end l)) s.

Definition store_initial_limit (limit_key : Z) (limit : TokenLimit) : kio unit :=
  if is_t3 spec then
    let period_end := if tl_period limit =? 0 then 0 else sat_add U64_MAX (now env) (tl_period limit) in
    cap ← reads (fun _ => t3_spending_limit_cap (tl_amount limit));
    modify (put_limit limit_key (tl_token limit)
      (mkSpendingLimitState (tl_amount limit) cap (tl_period limit) period_end))
  else modify (set_limit_remaining limit_key (tl_token limit) (tl_amount limit)).

Definition apply_key_authorization_restrictions (account key_id : Z) (limits : list TokenLimit)
    (allowed_calls : option (list CallScope)) : kio unit :=
  let limit_key := spending_limit_key account key_id in
  for_each limits (store_initial_limit limit_key);;
  if negb (is_t3 spec) then mret tt
  else at_scope limit_key (replace_allowed_calls allowed_calls).

Fixpoint check_unique_tokens (seen : gset Z) (limits : list TokenLimit) : res unit :=
  match limits with
  | [] => Ok tt
  | l :: limits =>
      if bool_decide (tl_token l ∈ seen) then Err (KeychainErr InvalidSpendingLimit)
      else check_unique_tokens ({[tl_token l]} ∪ seen) limits
  end.

Definition signature_type_code (t : SignatureType) : res Z :=
  match t with
  | Secp256k1 => Ok 0
  | P256 => Ok 1
  | WebAuthn => Ok 2
  | InvalidSignature => Err (KeychainErr InvalidSignatureType)
  end.

(** The hardfork-gated part of the arguments of [authorize_key]. *)
Definition allowed_call_configs (config : KeyRestrictions) : res (option (list CallScope)) :=
  if is_t3 spec then
    (if kr_enforceLimits config then check_unique_tokens ∅ (kr_limits config) else Ok tt) ≫= fun _ =>
    Ok (if kr_allowAnyCalls config then None else Some (kr_allowedCalls config))
  else if existsb (fun l => negb (tl_period l =? 0)) (kr_limits config)
  then Err (KeychainErr InvalidSpendingLimit)
  else if negb (kr_allowAnyCalls config) || negb (bool_decide (kr_allowedCalls config = []))
  then Err (KeychainErr InvalidCallScope)
  else Ok None.

Definition authorize_key (msg_sender key_id : Z) (sig_type : SignatureType)
    (config : KeyRestrictions) (witness : option Z) : kio unit :=
  reads (ensure_admin_caller msg_sender);;
  kguard (key_id =? 0) ZeroPublicKey;;
  kguard (is_t0 spec && (kr_expiry config <=? now env)) ExpiryInPast;;
  existing_key ← gets (get_authorized_key msg_sender key_id);
  kguard (expiry existing_key >? 0) KeyAlreadyExists;;
  kguard (is_revoked existing_key) KeyAlreadyRevoked;;
  sig_code ← reads (fun _ => signature_type_code sig_type);
  calls ← reads (fun _ => allowed_call_configs config);
  reads (fun s => match witness with
                  | Some w => ensure_key_authorization_witness_not_burned msg_sender w s
                  | None => Ok tt
                  end);;
  modify (put_key msg_sender key_id
    (mkAuthorizedKey sig_code (kr_expiry config) (kr_enforceLimits config) false));;
  apply_key_authorization_restrictions msg_sender key_id
    (if kr_enforceLimits config then kr_limits config else []) calls;;
  match witness with
  | Some w => emit_event (EvKeyAuthorizationWitness msg_sender w)
  | None => mret tt
  end;;
  emit_event (EvKeyAuthorized msg_sender key_id sig_code (kr_expiry config)).

Definition revoke_key (msg_sender key_id : Z) : kio unit :=
  reads (ensure_admin_caller msg_sender);;
  key ← gets (get_authorized_key msg_sender key_id);
  kguard (expiry key =? 0) KeyNotFound;;
  modify (put_key msg_sender key_id
    (mkAuthorizedKey (signature_type default_key) (expiry default_key)
       (enforce_limits default_key) true));;
  emit_event (EvKeyRevoked msg_sender key_id).

Definition update_spending_limit (msg_sender key_id token newLimit : Z) : kio unit :=
  reads (ensure_admin_caller msg_sender);;
  key ← reads (load_active_key msg_sender key_id (now env));
  (if negb (enforce_limits key) then
     modify (put_key msg_sender key_id
       (mkAuthorizedKey (signature_type key) (expiry key) true (is_revoked key)))
   else mret tt);;
  let limit_key := spending_limit_key msg_sender key_id in
  (if is_t3 spec then
     limit_state ← gets (get_limit limit_key token);
     cap ← reads (fun _ => t3_spending_limit_cap newLimit);
     modify (put_limit limit_key token
       (mkSpendingLimitState newLimit cap (period limit_state) (period_end limit_state)))
   else modify (set_limit_remaining limit_key token newLimit));;
  emit_event (EvSpendingLimitUpdated msg_sender key_id token newLimit).

Definition set_allowed_calls (msg_sender key_id : Z) (scopes : list CallScope) : kio unit :=
  kguard (negb (is_t3 spec)) InvalidCallScope;;
  reads (ensure_admin_caller msg_sender);;
  reads (load_active_key msg_sender key_id (now env));;
  let key_hash := spending_limit_key msg_sender key_id in
  kguard (bool_decide (scopes = [])) InvalidCallScope;;
  reads (fun _ => validate_call_scopes scopes);;
  at_scope key_hash (for_each scopes upsert_target_scope);;
  at_scope key_hash (modify (put_is_scoped true)).

Definition remove_allowed_calls (msg_sender key_id target : Z) : kio unit :=
  reads (ensure_admin_caller msg_sender);;
  reads (load_active_key msg_sender key_id (now env));;
  let key_hash := spending_limit_key msg_sender key_id in
  current_mode ← gets (fun s => is_scoped (get_scope key_hash s));
  if negb current_mode then mret tt
  else at_scope key_hash (remove_target_scope target).

(** * Getters *)

Definition get_key (account key_id : Z) (s : AccountKeychain) : KeyInfo :=
  let key := get_authorized_key account key_id s in
  if (expiry key =? 0) || is_revoked key then mkKeyInfo Secp256k1 0 0 false (is_revoked key)
  else
    let sig := if signature_type key =? 1 then P256
               else if signature_type key =? 2 then WebAuthn else Secp256k1 in
    mkKeyInfo sig key_id (expiry key) (enforce_limits key) (is_revoked key).

Definition effective_limit_state (account key_id token current_timestamp : Z) (s : AccountKeychain)
  : Z * Z :=
  if (key_id =? 0) && is_t3 spec then (0, 0)
  else
    let key := get_authorized_key account key_id s in
    if is_revoked key || (expiry key =? 0) then (0, 0)
    else if (current_timestamp >=? expiry key) && is_t3 spec then (0, 0)
    else
      let limit := get_limit (spending_limit_key account key_id) token s in
      if negb (is_t3 spec) then (remaining limit, 0)
      else if period limit =? 0 then (remaining limit, 0)
      else if current_timestamp <? period_end limit then (remaining limit, period_end limit)
      else
        let elapsed := sat_sub current_timestamp (period_end limit) in
        let periods_elapsed := sat_add U64_MAX (elapsed / period limit) 1 in
        let advance := sat_mul U64_MAX (period limit) periods_elapsed in
        let next_end := sat_add U64_MAX (period_end limit) advance in
        (max limit, next_end).

Definition effective_remaining_limit (account key_id token current_timestamp : Z)
    (s : AccountKeychain) : Z :=
  (effective_limit_state account key_id token current_timestamp s).1.

Definition get_remaining_limit_with_period (account key_id token : Z) (s : AccountKeychain) : Z * Z :=
  effective_limit_state account key_id token (now env) s.

Definition get_remaining_limit (account key_id token : Z) (s : AccountKeychain) : Z :=
  if negb (is_t2 spec) then remaining (get_limit (spending_limit_key account key_id) token s)
  else (get_remaining_limit_with_period account key_id token s).1.

Fixpoint read_rules (t : TargetScope) (sels : list Z) : res (list SelectorRule) :=
  match sels with
  | [] => Ok []
  | selector :: sels =>
      rs ← set_values (recipients (get_selector_scope selector t));
      rest ← read_rules t sels;
      Ok (mkSelectorRule selector rs :: rest)
  end.

Fixpoint read_scopes (k : KeyScope) (ts : list Z) : res (list CallScope) :=
  match ts with
  | [] => Ok []
  | target :: ts =>
      sels ← set_values (selectors (get_target_scope target k));
      scope ← (match sels with
               | [] => Ok (mkCallScope target [])
               | _ => rules ← read_rules (get_target_scope target k) sels;
                      Ok (mkCallScope target rules)
               end);
      rest ← read_scopes k ts;
      Ok (scope :: rest)
  end.

Definition get_allowed_calls (account key_id : Z) (s : AccountKeychain) : res getAllowedCallsReturn :=
  if key_id =? 0 then Ok (mkAllowedCalls false [])
  else
    let key := get_authorized_key account key_id s in
    if (expiry key =? 0) || is_revoked key || (now env >=? expiry key)
    then Ok (mkAllowedCalls true [])
    else
      let scope := get_scope (spending_limit_key account key_id) s in
      if negb (is_scoped scope) then Ok (mkAllowedCalls false [])
      else
        ts ← set_values (targets scope);
        scopes ← read_scopes scope ts;
        Ok (mkAllowedCalls true scopes).

(** * Transaction-time checks *)

Inductive TxKind := Create | Call (to : Z).

(** The call data is a list of bytes. *)
Definition validate_call_scope_for_transaction (account key_id : Z) (to : TxKind) (input : list Z)
    (s : AccountKeychain) : res unit :=
  if (key_id =? 0) || negb (is_t3 spec) then Ok tt
  else match to with
  | Create => Err (KeychainErr CallNotAllowed)
  | Call target =>
      let scope := get_scope (spending_limit_key account key_id) s in
      if negb (is_scoped scope) then Ok tt
      else
        target_ok ← set_has target (targets scope);
        if negb target_ok then Err (KeychainErr CallNotAllowed)
        else
          let tscope := get_target_scope target scope in
          target_is_unconstrained ← set_none (selectors tscope);
          if (target_is_unconstrained : bool) then Ok tt
          else if (length input <? 4)%nat then Err (KeychainErr CallNotAllowed)
          else
            let selector := be_val (take 4 input) in
            selector_ok ← set_has selector (selectors tscope);
            if negb selector_ok then Err (KeychainErr CallNotAllowed)
            else
              let rs := recipients (get_selector_scope selector tscope) in
              selector_is_unconstrained ← set_none rs;
              if (selector_is_unconstrained : bool) then Ok tt
              else if (length input <? 36)%nat then Err (KeychainErr CallNotAllowed)
              else
                let recipient_word := take 32 (drop 4 input) in
                if existsb (fun b => negb (b =? 0)) (take 12 recipient_word)
                then Err (KeychainErr CallNotAllowed)
                else
                  ok ← set_has (be_val (drop 12 recipient_word)) rs;
                  if (ok : bool) then Ok tt else Err (KeychainErr CallNotAllowed)
  end.

(** * Spending *)

Definition verify_and_update_spending (account key_id token amount : Z) : kio unit :=
  if key_id =? 0 then mret tt
  else
    key ← reads (load_active_key account key_id (now env));
    if negb (enforce_limits key) then mret tt
    else
      let limit_key := spending_limit_key account key_id in
      if negb (is_t3 spec) then
        rem ← gets (fun s => remaining (get_limit limit_key token s));
        kguard (amount >? rem) SpendingLimitExceeded;;
        modify (set_limit_remaining limit_key token (rem - amount))
      else
        limit_state ← gets (get_limit limit_key token);
        let is_periodic := negb (period limit_state =? 0) in
        let limit_state :=
          if is_periodic && (now env >=? period_end limit_state) then
            mkSpendingLimitState (max limit_state) (max limit_state) (period limit_state)
              (compute_next_period_end limit_state (now env))
          else limit_state in
        kguard (amount >? remaining limit_state) SpendingLimitExceeded;;
        let new_remaining := remaining limit_state - amount in
        (if is_periodic then
           modify (put_limit limit_key token
             (mkSpendingLimitState new_remaining (max limit_state) (period limit_state)
                (period_end limit_state)))
         else modify (set_limit_remaining limit_key token new_remaining));;
        emit_event (EvAccessKeySpend account key_id token amount new_remaining).

Definition refund_spending_limit (account token amount : Z) : kio unit :=
  tk ← gets transaction_key;
  if tk =? 0 then mret tt
  else
    origin ← gets tx_origin;
    if negb (account =? origin) then mret tt
    else
      loaded ← gets (load_active_key account tk (now env));
      match loaded with
      | Err e => if is_system_error e then throw e else mret tt
      | Ok key =>
          if negb (enforce_limits key) then mret tt
          else
            let limit_key := spending_limit_key account tk in
            if negb (is_t3 spec) then
              rem ← gets (fun s => remaining (get_limit limit_key token s));
              modify (set_limit_remaining limit_key token (sat_add U256_MAX rem amount))
            else
              limit_state ← gets (get_limit limit_key token);
              let refunded := sat_add U256_MAX (remaining limit_state) amount in
              let new_remaining :=
                if max limit_state =? 0 then refunded else Z.min refunded (max limit_state) in
              modify (put_limit limit_key token
                (mkSpendingLimitState new_remaining (max limit_state) (period limit_state)
                   (period_end limit_state)))
      end.

Definition authorize_transfer (account token amount : Z) : kio unit :=
  tk ← gets transaction_key;
  if tk =? 0 then mret tt
  else
    origin ← gets tx_origin;
    if negb (account =? origin) then mret tt
    else verify_and_update_spending account tk token amount.

Definition authorize_approve (account token old_approval new_approval : Z) : kio unit :=
  tk ← gets transaction_key;
  if tk =? 0 then mret tt
  else
    origin ← gets tx_origin;
    if negb (account =? origin) then mret tt
    else
      let approval_increase := sat_sub new_approval old_approval in
      if approval_increase =? 0 then mret tt
      else verify_and_update_spending account tk token approval_increase.
End ops.
End keychain.
