(* ===== verification/KeychainSpend.v ===== *)
(** Spending limits of session keys: periods, deductions, refunds
    ([compute_next_period_end], [effective_limit_state],
    [verify_and_update_spending], [refund_spending_limit] of
    [account_keychain/mod.rs]). *)

From S2P Require Import Prelude Hardfork Packing Layout StorageVec EnumerableSet Keychain.

(** * Rows and keys *)

Lemma get_limit_put_eq h t l s : get_limit h t (put_limit h t l s) = l.
Proof. unfold get_limit, put_limit, dget. cbn. by rewrite lookup_insert_eq. Qed.
Lemma get_limit_put_ne h t h' t' l s :
  (h, t) <> (h', t') -> get_limit h' t' (put_limit h t l s) = get_limit h' t' s.
Proof. intros. unfold get_limit, put_limit, dget. cbn. by rewrite lookup_insert_ne. Qed.
Lemma get_key_put_eq a k v s : get_authorized_key a k (put_key a k v s) = v.
Proof. unfold get_authorized_key, put_key, dget. cbn. by rewrite lookup_insert_eq. Qed.
Lemma get_key_put_ne a k a' k' v s :
  (a, k) <> (a', k') -> get_authorized_key a' k' (put_key a k v s) = get_authorized_key a' k' s.
Proof. intros. unfold get_authorized_key, put_key, dget. cbn. by rewrite lookup_insert_ne. Qed.
Lemma get_key_put_limit a k h t l s :
  get_authorized_key a k (put_limit h t l s) = get_authorized_key a k s.
Proof. done. Qed.
#[export] Hint Rewrite get_limit_put_eq get_key_put_eq get_key_put_limit : sci.

(** A key that may be used at time [t]. *)
Definition key_active (k : AuthorizedKey) (t : Z) : Prop :=
  is_revoked k = false /\ expiry k <> 0 /\ t < expiry k.

Lemma load_active_key_iff a k t s key :
  load_active_key a k t s = Ok key <-> key = get_authorized_key a k s /\ key_active key t.
Proof.
  unfold load_active_key, key_active. set (g := get_authorized_key a k s).
  destruct (is_revoked g) eqn:Er; [split; [done|intros [-> [? _]]; congruence]|].
  destruct (expiry g =? 0) eqn:Ee; zbool; [split; [done|intros [-> ?]; lia]|].
  destruct (t >=? expiry g) eqn:Et; zbool; [split; [done|intros [-> ?]; lia]|].
  split; [intros [= <-]; auto|by intros [-> _]].
Qed.

Lemma load_active_key_run a k t s :
  key_active (get_authorized_key a k s) t ->
  load_active_key a k t s = Ok (get_authorized_key a k s).
Proof. intros Ha. by apply load_active_key_iff. Qed.

(** * Periods *)

Definition row_ok (l : SpendingLimitState) : Prop :=
  limit_ok l /\ (max l <> 0 -> remaining l <= max l).

Lemma next_period_end_gt l t :
  limit_ok l -> period l <> 0 -> 0 <= t < U64_MAX -> t < compute_next_period_end l t <= U64_MAX.
Proof.
  unfold limit_ok, fits. intros (_ & _ & Hp & He) Hp0 Ht.
  unfold compute_next_period_end, sat_add, sat_sub, sat_mul.
  set (e := Z.max (t - period_end l) 0).
  assert (0 <= e / period l <= e) by (split; [apply Z.div_pos; lia|apply Z.div_le_upper_bound; nia]).
  pose proof (Z.div_mod e (period l) ltac:(lia)). pose proof (Z.mod_pos_bound e (period l) ltac:(lia)).
  rewrite (Z.min_l (e / period l + 1)) by lia.
  assert (e < period l * (e / period l + 1)) by nia. lia.
Qed.

(** Without saturation the new end is the old one plus whole periods, at most
    one period after now. *)
Lemma next_period_end_exact l t :
  limit_ok l -> period l <> 0 -> period_end l <= t -> t + period l <= U64_MAX ->
  exists k, 0 < k /\ compute_next_period_end l t = period_end l + period l * k /\
    compute_next_period_end l t <= t + period l.
Proof.
  unfold limit_ok, fits. intros (_ & _ & Hp & He) Hp0 Ht Hs.
  unfold compute_next_period_end, sat_add, sat_sub, sat_mul.
  set (e := Z.max (t - period_end l) 0). assert (e = t - period_end l) as Hee by lia.
  assert (0 <= e / period l <= e) by (split; [apply Z.div_pos; lia|apply Z.div_le_upper_bound; nia]).
  pose proof (Z.div_mod e (period l) ltac:(lia)). pose proof (Z.mod_pos_bound e (period l) ltac:(lia)).
  assert (e <= U64_MAX - 1) by lia.
  rewrite (Z.min_l (e / period l + 1)) by lia.
  exists (e / period l + 1). assert (period l * (e / period l + 1) <= e + period l) by nia. lia.
Qed.

(** Two times in the same window roll over to the same end. *)
Lemma next_period_end_window l t t' :
  limit_ok l -> period l <> 0 -> period_end l <= t -> t <= t' -> t' < compute_next_period_end l t ->
  compute_next_period_end l t' = compute_next_period_end l t.
Proof.
  unfold limit_ok, fits. intros (_ & _ & Hp & He) Hp0 Ht Htt Hlt.
  unfold compute_next_period_end, sat_add, sat_sub, sat_mul in *.
  set (e := Z.max (t - period_end l) 0) in *. set (e' := Z.max (t' - period_end l) 0).
  assert (e = t - period_end l /\ e' = t' - period_end l) as [He1 He2] by lia.
  pose proof (Z.div_mod e (period l) ltac:(lia)). pose proof (Z.mod_pos_bound e (period l) ltac:(lia)).
  pose proof (Z.div_mod e' (period l) ltac:(lia)). pose proof (Z.mod_pos_bound e' (period l) ltac:(lia)).
  assert (e / period l <= e' / period l) by (apply Z.div_le_mono; lia).
  assert (0 <= e / period l) by (apply Z.div_pos; lia).
  assert (e' / period l <= e') by (apply Z.div_le_upper_bound; nia).
  set (q := e / period l) in *. set (q' := e' / period l) in *.
  destruct (decide (q' = q)) as [->|Hne]; [done|].
  assert (period l * (q + 1) <= e') by nia. assert (t' < U64_MAX) by lia.
  rewrite (Z.min_l (q + 1)) in * by lia. rewrite (Z.min_l (q' + 1)) by lia.
  assert (period l * (q + 1) <= period l * (q' + 1)) by nia. lia.
Qed.

(** * Deductions *)

(** A row as seen at time [t]: rolled over if its period has ended. *)
Definition row_at (l : SpendingLimitState) (t : Z) : SpendingLimitState :=
  if negb (period l =? 0) && (t >=? period_end l)
  then mkSpendingLimitState (max l) (max l) (period l) (compute_next_period_end l t)
  else l.

Definition with_remaining (l : SpendingLimitState) (v : Z) : SpendingLimitState :=
  mkSpendingLimitState v (max l) (period l) (period_end l).

Lemma row_at_period l t : period (row_at l t) = period l /\ max (row_at l t) = max l.
Proof. unfold row_at. by destruct (_ && _). Qed.

Lemma row_at_ok l t : row_ok l -> 0 <= t < U64_MAX -> row_ok (row_at l t).
Proof.
  intros [Hl Hrm] Ht. unfold row_at. destruct (negb (period l =? 0) && (t >=? period_end l)) eqn:E; [|done].
  zbool. pose proof (next_period_end_gt l t Hl) as Hn. destruct Hl as (Hr & Hm & Hp & He).
  unfold row_ok, limit_ok, fits, U128_MAX, U256_MAX in *. cbn. lia.
Qed.

(** A row rolled over at [t] looks the same at every later time of its window. *)
Lemma row_at_later l t t' :
  row_ok l -> 0 <= t <= t' -> t' < U64_MAX ->
  (period l <> 0 -> t' < period_end (row_at l t)) -> row_at l t' = row_at l t /\
  row_at (row_at l t) t' = row_at l t.
Proof.
  intros [Hl _] Htt Ht' Hw. unfold row_at in *.
  destruct (period l =? 0) eqn:Ep; zbool; cbn [negb andb] in *; [by rewrite ?Ep|].
  specialize (Hw Ep). destruct (t >=? period_end l) eqn:E; zbool; cbn in *.
  - destruct (t' >=? period_end l) eqn:E'; zbool; [|lia].
    rewrite (next_period_end_window l t t') by (done || lia). split; [done|].
    destruct (t' >=? compute_next_period_end l t) eqn:E2; zbool; [lia|].
    by rewrite andb_false_r.
  - destruct (t' >=? period_end l) eqn:E'; zbool; [lia|]. split; [done|].
    destruct (t' >=? period_end l) eqn:E2; zbool; [lia|]. by rewrite andb_false_r.
Qed.

Lemma row_at_id l t : (period l <> 0 -> t < period_end l) -> row_at l t = l.
Proof.
  intros Hw. unfold row_at. destruct (_ && _) eqn:E; [|done]. zbool. lia.
Qed.

Lemma row_at_window l t :
  row_ok l -> 0 <= t < U64_MAX -> period l <> 0 -> t < period_end (row_at l t).
Proof.
  intros [Hl _] Ht Hp. unfold row_at. destruct (negb (period l =? 0) && (t >=? period_end l)) eqn:E.
  - cbn. by apply next_period_end_gt.
  - apply andb_false_iff in E as [E|E]; zbool; [done|lia].
Qed.

Section spending.
Context `{Keccak256}.

Lemma effective_active env a k tok s :
  is_t3 (env_spec env) = true -> k <> 0 -> key_active (get_authorized_key a k s) (now env) ->
  effective_limit_state env a k tok (now env) s =
    let l := row_at (get_limit (spending_limit_key a k) tok s) (now env) in
    (remaining l, if period l =? 0 then 0 else period_end l).
Proof.
  intros Ht3 Hk (Hrev & Hexp & Hnow). unfold effective_limit_state, row_at. rewrite Ht3, Hrev.
  destruct (k =? 0) eqn:E1; zbool; [lia|]. destruct (expiry _ =? 0) eqn:E2; zbool; [lia|].
  destruct (now env >=? expiry _) eqn:E3; zbool; [lia|]. cbn [andb orb negb].
  destruct (period _ =? 0) eqn:E4; cbn [negb andb]; [by rewrite E4|].
  rewrite Z.geb_leb. destruct (now env <? period_end _) eqn:E5.
  - rewrite (proj2 (Z.leb_gt _ _)) by (by apply Z.ltb_lt). by rewrite E4.
  - rewrite (proj2 (Z.leb_le _ _)) by (by apply Z.ltb_ge). cbn. by rewrite E4.
Qed.

(** The state after a successful deduction. *)
Definition spent_state (env : BlockEnv) (a k tok amt : Z) (s : AccountKeychain) : AccountKeychain :=
  let h := spending_limit_key a k in
  let l := row_at (get_limit h tok s) (now env) in
  let v := remaining l - amt in
  (emit_event (EvAccessKeySpend a k tok amt v) (put_limit h tok (with_remaining l v) s)).2.

Lemma verify_run env a k tok amt s :
  is_t3 (env_spec env) = true -> k <> 0 -> key_active (get_authorized_key a k s) (now env) ->
  enforce_limits (get_authorized_key a k s) = true ->
  verify_and_update_spending env a k tok amt s =
    if amt <=? remaining (row_at (get_limit (spending_limit_key a k) tok s) (now env))
    then (Ok tt, spent_state env a k tok amt s)
    else (Err (KeychainErr SpendingLimitExceeded), s).
Proof.
  intros Ht3 Hk Ha Hen. unfold verify_and_update_spending.
  destruct (k =? 0) eqn:E1; zbool; [lia|].
  rewrite (bind_run _ _ _ (get_authorized_key a k s) s)
    by (unfold reads; by rewrite load_active_key_run).
  rewrite Hen, Ht3. cbn [negb]. rewrite (bind_run _ _ _ _ s) by done.
  set (l := get_limit (spending_limit_key a k) tok s). fold (row_at l (now env)).
  unfold kguard, guard_err. rewrite Z.gtb_ltb.
  destruct (amt <=? remaining (row_at l (now env))) eqn:E2; zbool.
  - destruct (remaining (row_at l (now env)) <? amt) eqn:E3; zbool; [lia|].
    rewrite (bind_run _ _ _ tt s) by done. unfold spent_state. fold l.
    destruct (period l =? 0) eqn:E4; cbn [negb].
    + unfold set_limit_remaining. fold l. unfold row_at. rewrite E4. done.
    + rewrite (bind_run _ _ _ tt (put_limit (spending_limit_key a k) tok
        (with_remaining (row_at l (now env)) (remaining (row_at l (now env)) - amt)) s)) by done. done.
  - destruct (remaining (row_at l (now env)) <? amt) eqn:E3; zbool; [done|lia].
Qed.

Lemma spent_key env a k tok amt s a' k' :
  get_authorized_key a' k' (spent_state env a k tok amt s) = get_authorized_key a' k' s.
Proof. done. Qed.

Lemma spent_limit env a k tok amt s :
  get_limit (spending_limit_key a k) tok (spent_state env a k tok amt s) =
  let l := row_at (get_limit (spending_limit_key a k) tok s) (now env) in
  with_remaining l (remaining l - amt).
Proof. apply get_limit_put_eq. Qed.

Lemma spent_limit_ne env a k tok amt s h t :
  (spending_limit_key a k, tok) <> (h, t) ->
  get_limit h t (spent_state env a k tok amt s) = get_limit h t s.
Proof. apply get_limit_put_ne. Qed.

(** * Budgets *)

(** Deductions made one after the other, each in its own block. *)
Definition spend_all (a k tok : Z) (l : list (BlockEnv * Z)) : kio unit :=
  for_each l (fun '(e, amt) => verify_and_update_spending e a k tok amt).

Definition total (l : list (BlockEnv * Z)) : Z := foldr (fun x acc => x.2 + acc) 0 l.

(** Blocks from [t0] on, before the window ending at [pend] closes ([pend = 0]
    for a one-time limit) and before the key expires. *)
Definition in_window (t0 pend exp : Z) (e : BlockEnv) : Prop :=
  is_t3 (env_spec e) = true /\ t0 <= now e < exp /\ (pend <> 0 -> now e < pend).

Lemma total_nonneg l : Forall (fun x => 0 <= x.2) l -> 0 <= total l.
Proof. induction 1; unfold total in *; cbn in *; lia. Qed.

Section window.
Context (a k tok : Z) (L : SpendingLimitState) (t0 exp : Z).
Context (Hk : k <> 0).
Let h := spending_limit_key a k.
Let inside (e : BlockEnv) : Prop :=
  is_t3 (env_spec e) = true /\ t0 <= now e < exp /\ (period L <> 0 -> now e < period_end L).

(** Within the window the row reads as [L] with [r] left. *)
Definition window_row (r : Z) (s : AccountKeychain) : Prop :=
  (is_revoked (get_authorized_key a k s) = false /\ expiry (get_authorized_key a k s) = exp /\
   exp <> 0 /\ enforce_limits (get_authorized_key a k s) = true) /\
  forall e, inside e -> row_at (get_limit h tok s) (now e) = with_remaining L r.

Lemma window_row_spend r e amt s :
  window_row r s -> inside e -> 
  verify_and_update_spending e a k tok amt s =
    if amt <=? r then (Ok tt, spent_state e a k tok amt s)
    else (Err (KeychainErr SpendingLimitExceeded), s).
Proof.
  intros [(Hrev & Hexp & Hne & Hen) Hrow] He. pose proof (Hrow e He) as Hr.
  destruct He as (Ht3 & Ht & Hw). rewrite verify_run; try done.
  - fold h. by rewrite Hr.
  - unfold key_active. rewrite Hrev, Hexp. repeat split; done || lia.
Qed.

Lemma window_row_spent r e amt s :
  window_row r s -> inside e -> window_row (r - amt) (spent_state e a k tok amt s).
Proof.
  intros [Hkey Hrow] He. split; [done|]. intros e' He'. unfold h. rewrite spent_limit. fold h.
  cbn zeta. rewrite (Hrow e He). apply row_at_id. cbn. apply He'.
Qed.

Lemma window_spend_all l r s :
  window_row r s -> Forall (fun x => inside x.1 /\ 0 <= x.2) l ->
  (total l <= r -> exists s', spend_all a k tok l s = (Ok tt, s') /\ window_row (r - total l) s') /\
  (0 <= r < total l -> is_ok (spend_all a k tok l s).1 = false).
Proof.
  revert r s. induction l as [|[e amt] l IH]; intros r s Hr Hl.
  { cbn. split; [|lia]. intros _. exists s. by rewrite Z.sub_0_r. }
  apply Forall_cons in Hl as [[He Ha] Hl]. cbn in He, Ha.
  assert (0 <= total l) as Hpos.
  { apply total_nonneg. eapply Forall_impl; [exact Hl|]. by intros x [_ ?]. }
  pose proof (window_row_spend r e amt s Hr He) as Hv.
  destruct (IH (r - amt) (spent_state e a k tok amt s)) as [IH1 IH2];
    [by apply window_row_spent|done|].
  unfold spend_all in *. cbn [for_each total foldr snd]. fold (total l).
  destruct (amt <=? r) eqn:E; zbool.
  - rewrite (bind_run _ _ _ _ _ Hv). split; [intros Hle|intros Hlt; apply IH2; lia].
    destruct IH1 as (s' & Hrun & Hr'); [lia|]. exists s'. split; [done|].
    by replace (r - (amt + total l)) with (r - amt - total l) by lia.
  - rewrite (bind_run_err _ _ _ _ _ Hv). split; [lia|done].
Qed.
End window.

(** * Refunds *)

Lemma refund_run env a tok amt s :
  let tk := transaction_key s in
  let l := get_limit (spending_limit_key a tk) tok s in
  is_t3 (env_spec env) = true -> tk <> 0 -> tx_origin s = a ->
  key_active (get_authorized_key a tk s) (now env) ->
  enforce_limits (get_authorized_key a tk s) = true ->
  refund_spending_limit env a tok amt s =
    (Ok tt, put_limit (spending_limit_key a tk) tok
       (with_remaining l
          (let r := sat_add U256_MAX (remaining l) amt in
           if max l =? 0 then r else Z.min r (max l))) s).
Proof.
  cbn zeta. intros Ht3 Hk Ho Ha Hen.
  unfold refund_spending_limit. rewrite (bind_run _ _ _ (transaction_key s) s) by done.
  destruct (transaction_key s =? 0) eqn:E; zbool; [lia|].
  rewrite (bind_run _ _ _ (tx_origin s) s) by done. rewrite Ho, Z.eqb_refl. cbn [negb].
  rewrite (bind_run _ _ _ (Ok (get_authorized_key a (transaction_key s) s)) s)
    by (unfold gets; by rewrite load_active_key_run).
  rewrite Hen, Ht3. cbn [negb]. rewrite (bind_run _ _ _ _ s) by done. done.
Qed.
End spending.

(** * Properties *)

(** C1: A session key can never spend more than its limit. Starting from any
    block, consider deductions in later blocks of the same limit window (for a
    periodic limit, before the period end the getter reports; for a one-time
    limit, at any time) while the key is not expired. They all succeed exactly
    when their sum is at most the remaining amount that the getter reported at
    the start; the getter then reports the difference, with the same period
    end; and if the sum is larger, one of them is rejected. *)
Theorem spend_budget `{Keccak256} env0 a k tok l s rem pend :
  let key := get_authorized_key a k s in
  effective_limit_state env0 a k tok (now env0) s = (rem, pend) ->
  k <> 0 -> is_t3 (env_spec env0) = true -> 0 <= now env0 ->
  key_active key (now env0) -> enforce_limits key = true -> expiry key <= U64_MAX ->
  row_ok (get_limit (spending_limit_key a k) tok s) ->
  Forall (fun x => in_window (now env0) pend (expiry key) x.1 /\ 0 <= x.2) l ->
  (total l <= rem -> exists s', spend_all a k tok l s = (Ok tt, s') /\
     forall e, in_window (now env0) pend (expiry key) e ->
       effective_limit_state e a k tok (now e) s' = (rem - total l, pend)) /\
  (rem < total l -> is_ok (spend_all a k tok l s).1 = false).
Proof.
  cbn zeta. intros Heff Hk Ht3 Hnow Hact Hen Hexp Hrow Hl. set (key := get_authorized_key a k s) in *.
  rewrite effective_active in Heff by done. cbn zeta in Heff.
  set (L := row_at (get_limit (spending_limit_key a k) tok s) (now env0)) in *.
  assert (now env0 < U64_MAX) as Hmax by (destruct Hact as (_ & _ & ?); lia).
  pose proof (row_at_ok _ (now env0) Hrow ltac:(lia)) as HL. fold L in HL.
  assert (rem = remaining L /\ pend = if period L =? 0 then 0 else period_end L) as [-> ->]
    by (by injection Heff).
  assert (Hin : forall e, in_window (now env0) (if period L =? 0 then 0 else period_end L) (expiry key) e ->
    is_t3 (env_spec e) = true /\ now env0 <= now e < expiry key /\ (period L <> 0 -> now e < period_end L)).
  { intros e (H3 & Ht & Hw). split; [done|]. split; [done|]. intros Hp.
    destruct (period L =? 0) eqn:E; zbool; [done|]. apply Hw.
    pose proof (row_at_window _ (now env0) Hrow ltac:(lia)) as Hwin. fold L in Hwin.
    destruct (row_at_period (get_limit (spending_limit_key a k) tok s) (now env0)) as [Hpp _].
    fold L in Hpp. rewrite Hpp in Hp. specialize (Hwin Hp). lia. }
  assert (Hw0 : window_row a k tok L (now env0) (expiry key) (remaining L) s).
  { split; [destruct Hact as (? & ? & ?); done|]. intros e (H3 & Ht & Hw).
    destruct (row_at_later (get_limit (spending_limit_key a k) tok s) (now env0) (now e)) as [Heq _];
      [done|lia|lia| |].
    - destruct (row_at_period (get_limit (spending_limit_key a k) tok s) (now env0)) as [Hpp _].
      fold L in Hpp |- *. rewrite <- Hpp. done.
    - rewrite Heq. fold L. by destruct L. }
  destruct (window_spend_all a k tok L (now env0) (expiry key) Hk l (remaining L) s Hw0) as [H1 H2].
  { eapply Forall_impl; [exact Hl|]. intros x [Hx Hx2]. split; [by apply Hin|done]. }
  split.
  - intros Hle. destruct (H1 Hle) as (s' & Hrun & [(Hrev & Hex & Hne & _) Hrow']).
    exists s'. split; [done|]. intros e He. pose proof (Hin e He) as Hie.
    rewrite effective_active; [|apply Hie|done|].
    + rewrite (Hrow' e Hie). done.
    + unfold key_active. rewrite Hrev, Hex. repeat split; [done|apply Hie].
  - intros Hlt. apply H2. split; [apply HL|done].
Qed.

(** A deduction agrees with the getter and touches only its own row: if the
    amount is at most the effective remaining amount, it succeeds, the getter
    then reports the difference and the same period end, and every key and every
    other row is unchanged; otherwise it fails with [SpendingLimitExceeded] and
    changes nothing. An inactive key is always rejected. *)
Theorem spend_matches_getter `{Keccak256} env a k tok amt s rem pend :
  let key := get_authorized_key a k s in
  effective_limit_state env a k tok (now env) s = (rem, pend) ->
  k <> 0 -> is_t3 (env_spec env) = true -> 0 <= now env -> 0 <= amt ->
  enforce_limits key = true -> expiry key <= U64_MAX ->
  row_ok (get_limit (spending_limit_key a k) tok s) ->
  (key_active key (now env) -> amt <= rem ->
     exists s', verify_and_update_spending env a k tok amt s = (Ok tt, s') /\
       effective_limit_state env a k tok (now env) s' = (rem - amt, pend) /\
       keys s' = keys s /\
       (forall h t, (h, t) <> (spending_limit_key a k, tok) -> get_limit h t s' = get_limit h t s)) /\
  (key_active key (now env) -> rem < amt ->
     verify_and_update_spending env a k tok amt s = (Err (KeychainErr SpendingLimitExceeded), s)) /\
  (~ key_active key (now env) -> is_ok (verify_and_update_spending env a k tok amt s).1 = false).
Proof.
  cbn zeta. intros Heff Hk Ht3 Hnow Hamt Hen Hexp Hrow. set (l := get_limit (spending_limit_key a k) tok s) in *.
  split; [|split]; intros Hact.
  - intros Hle. assert (now env < U64_MAX) as Hmax by (destruct Hact as (_ & _ & ?); lia).
    rewrite effective_active in Heff by done. cbn zeta in Heff. fold l in Heff. injection Heff as <- <-.
    exists (spent_state env a k tok amt s). rewrite verify_run by done. fold l.
    split; [|split; [|split]].
    + destruct (amt <=? remaining (row_at l (now env))) eqn:E; zbool; [done|lia].
    + rewrite effective_active by done. cbn zeta. rewrite spent_limit. fold l. cbn zeta.
      rewrite row_at_id; [done|]. cbn. destruct (row_at_period l (now env)) as [-> _].
      apply row_at_window; [done|lia].
    + done.
    + intros h t Hne. apply spent_limit_ne. congruence.
  - intros Hlt. rewrite effective_active in Heff by done. cbn zeta in Heff. fold l in Heff.
    injection Heff as <- <-. rewrite verify_run by done. fold l.
    destruct (amt <=? remaining (row_at l (now env))) eqn:E; zbool; [lia|done].
  - unfold verify_and_update_spending. destruct (k =? 0) eqn:E; zbool; [lia|].
    destruct (load_active_key a k (now env) s) as [key|e] eqn:Hload.
    + apply load_active_key_iff in Hload as [-> ?]. done.
    + erewrite bind_run_err; [done|]. unfold reads. by rewrite Hload.
Qed.

(** Rolling a periodic limit over restores its cap and moves its end strictly past the current
    time (saturating at the largest timestamp), by whole periods and to at most
    one period ahead unless it saturates; and it gives the same end at every time of
    the new window, so a window is never granted twice. *)
Theorem period_rollover l t :
  limit_ok l -> period l <> 0 -> period_end l <= t -> 0 <= t < U64_MAX ->
  row_at l t = mkSpendingLimitState (max l) (max l) (period l) (compute_next_period_end l t) /\
  t < compute_next_period_end l t <= U64_MAX /\
  (t + period l <= U64_MAX ->
   exists n, 0 < n /\ compute_next_period_end l t = period_end l + period l * n /\
     compute_next_period_end l t <= t + period l) /\
  (forall t', t <= t' < compute_next_period_end l t ->
     compute_next_period_end l t' = compute_next_period_end l t).
Proof.
  intros Hl Hp He Ht. split; [|split; [by apply next_period_end_gt|]; split].
  - unfold row_at. destruct (period l =? 0) eqn:E; zbool; [done|].
    destruct (t >=? period_end l) eqn:E2; zbool; [done|lia].
  - intros Hs. by apply next_period_end_exact.
  - intros t' Ht'. apply next_period_end_window; done || lia.
Qed.

(** A refund never lifts a configured limit above its cap: after
    [refund_spending_limit] the row keeps its period and cap, and if the cap is
    not zero the remaining amount is at most the cap; a refund of at most what
    was left unused of the cap is credited in full. *)
Theorem refund_clamped `{Keccak256} env a tok amt s :
  let tk := transaction_key s in
  let l := get_limit (spending_limit_key a tk) tok s in
  is_t3 (env_spec env) = true -> tk <> 0 -> tx_origin s = a ->
  key_active (get_authorized_key a tk s) (now env) ->
  enforce_limits (get_authorized_key a tk s) = true -> limit_ok l -> 0 <= amt ->
  exists s', refund_spending_limit env a tok amt s = (Ok tt, s') /\
    let l' := get_limit (spending_limit_key a tk) tok s' in
    max l' = max l /\ period l' = period l /\ period_end l' = period_end l /\
    (max l <> 0 -> remaining l' <= max l) /\
    (max l <> 0 -> remaining l + amt <= max l -> remaining l' = remaining l + amt).
Proof.
  cbn zeta. intros Ht3 Hk Ho Ha Hen (Hr & Hm & _) Hamt. set (l := get_limit _ _ s) in *.
  eexists. split; [by apply refund_run|]. fold l.
  rewrite get_limit_put_eq. cbn. repeat split.
  - intros Hm0. destruct (max l =? 0) eqn:E; zbool; lia.
  - intros Hm0 Hle. destruct (max l =? 0) eqn:E; zbool; [lia|].
    unfold sat_add, fits, U128_MAX, U256_MAX in *. lia.
Qed.

(** The clamp of a refund does not apply to a limit configured with cap zero:
    the row reads as unconfigured, and the refund lifts it above the cap. *)
Definition zero_cap_refund_state `{Keccak256} : AccountKeychain :=
  mkAccountKeychain {[(1, 2) := mkAuthorizedKey 0 1000 true false]}
    {[(spending_limit_key 1 2, 7) := mkSpendingLimitState 0 0 50 550]} ∅ ∅ 2 1 [].

Lemma refund_zero_cap `{Keccak256} :
  exists s', refund_spending_limit (mkBlockEnv T5 500) 1 7 5 zero_cap_refund_state = (Ok tt, s') /\
    let l := get_limit (spending_limit_key 1 2) 7 s' in period l <> 0 /\ max l < remaining l.
Proof.
  assert (Hl : get_limit (spending_limit_key 1 2) 7 zero_cap_refund_state = mkSpendingLimitState 0 0 50 550).
  { unfold get_limit, dget. cbn. by rewrite lookup_singleton_eq. }
  eexists. split.
  - apply refund_run; try done; unfold key_active; vm_compute; repeat split; discriminate.
  - cbn zeta. change (transaction_key zero_cap_refund_state) with 2.
    rewrite get_limit_put_eq, Hl. cbn. unfold sat_add, U256_MAX. lia.
Qed.

Module SpendExample.
Definition hash : Keccak256 := {| keccak256 := fun _ => 9 |}.
#[local] Existing Instance hash.
Definition st : AccountKeychain :=
  mkAccountKeychain {[(1, 2) := mkAuthorizedKey 0 1000 true false]}
    {[(9, 7) := mkSpendingLimitState 40 100 50 450]} ∅ ∅ 2 1 [].
Definition at_time (t : Z) : BlockEnv := mkBlockEnv T5 t.
Definition spends : list (BlockEnv * Z) := [(at_time 470, 30); (at_time 499, 70)].

Lemma st_row : row_ok (get_limit (spending_limit_key 1 2) 7 st).
Proof. vm_compute. repeat split; discriminate. Qed.

Lemma spend_budget_witness :
  (total spends <= 100 -> exists s', spend_all 1 2 7 spends st = (Ok tt, s') /\
     forall e, in_window 460 500 1000 e ->
       effective_limit_state e 1 2 7 (now e) s' = (100 - total spends, 500)) /\
  (100 < total spends -> is_ok (spend_all 1 2 7 spends st).1 = false).
Proof.
  apply (spend_budget (at_time 460) 1 2 7 spends st 100 500).
  - reflexivity.
  - lia.
  - reflexivity.
  - vm_compute. discriminate.
  - vm_compute. repeat split; discriminate.
  - reflexivity.
  - vm_compute. discriminate.
  - apply st_row.
  - repeat constructor; try discriminate; vm_compute; try discriminate; reflexivity.
Defined.

Lemma spend_matches_getter_witness :
  exists s', verify_and_update_spending (at_time 460) 1 2 7 60 st = (Ok tt, s') /\
    effective_limit_state (at_time 460) 1 2 7 460 s' = (100 - 60, 500) /\
    keys s' = keys st /\
    (forall h t, (h, t) <> (9, 7) -> get_limit h t s' = get_limit h t st).
Proof.
  destruct (spend_matches_getter (at_time 460) 1 2 7 60 st 100 500) as [Hspend _].
  - reflexivity.
  - lia.
  - reflexivity.
  - vm_compute. discriminate.
  - lia.
  - reflexivity.
  - vm_compute. discriminate.
  - apply st_row.
  - apply Hspend; [vm_compute; repeat split; discriminate|lia].
Defined.

Lemma period_rollover_witness :
  row_at (mkSpendingLimitState 40 100 50 450) 460 =
    mkSpendingLimitState 100 100 50 (compute_next_period_end (mkSpendingLimitState 40 100 50 450) 460) /\
  460 < compute_next_period_end (mkSpendingLimitState 40 100 50 450) 460 <= U64_MAX /\
  (460 + 50 <= U64_MAX ->
   exists n, 0 < n /\ compute_next_period_end (mkSpendingLimitState 40 100 50 450) 460 = 450 + 50 * n /\
     compute_next_period_end (mkSpendingLimitState 40 100 50 450) 460 <= 460 + 50) /\
  (forall t', 460 <= t' < compute_next_period_end (mkSpendingLimitState 40 100 50 450) 460 ->
     compute_next_period_end (mkSpendingLimitState 40 100 50 450) t' =
     compute_next_period_end (mkSpendingLimitState 40 100 50 450) 460).
Proof.
  apply (period_rollover (mkSpendingLimitState 40 100 50 450) 460).
  - vm_compute. repeat split; discriminate.
  - cbn. lia.
  - cbn. lia.
  - unfold U64_MAX. lia.
Defined.

Lemma refund_clamped_witness :
  let l := get_limit (spending_limit_key 1 (transaction_key st)) 7 st in
  exists s', refund_spending_limit (at_time 440) 1 7 80 st = (Ok tt, s') /\
    let l' := get_limit (spending_limit_key 1 (transaction_key st)) 7 s' in
    max l' = max l /\ period l' = period l /\ period_end l' = period_end l /\
    (max l <> 0 -> remaining l' <= max l) /\
    (max l <> 0 -> remaining l + 80 <= max l -> remaining l' = remaining l + 80).
Proof.
  apply (refund_clamped (at_time 440) 1 7 80 st).
  - reflexivity.
  - vm_compute. discriminate.
  - reflexivity.
  - vm_compute. repeat split; discriminate.
  - reflexivity.
  - vm_compute. repeat split; discriminate.
  - lia.
Defined.
End SpendExample.
