(* ===== verification/KeychainScope.v ===== *)
(** Call scopes of session keys: the tree of targets, selectors and recipients
    stored per key ([upsert_target_scope], [clear_target_selectors],
    [replace_allowed_calls], [get_allowed_calls],
    [validate_call_scope_for_transaction] of [account_keychain/mod.rs]), its
    invariant, and the list of [CallScope]s it stands for. *)

From S2P Require Import Prelude Hardfork Packing Layout StorageVec EnumerableSet Keychain KeychainSpend.

(** * Sets of the tree *)

Definition set_elems (s : SetState) : list Z :=
  (fun i => zget (st_values s) i) <$> seqZ 0 (st_len s).

(** The set holds exactly the list [l]. *)
Definition holds (l : list Z) (s : SetState) : Prop := set_repr (typed_view 20) l s.

Lemma holds_view B l s : holds l s <-> set_repr (typed_view B) l s.
Proof. split; intros [??????? Hz]; split; try done; intros k Hk; by apply Hz. Qed.

Lemma holds_elems l s : holds l s -> set_elems s = l.
Proof.
  intros Hr. unfold set_elems. pose proof (sr_len _ _ _ Hr) as Hlen. cbn in Hlen. rewrite Hlen.
  apply list_eq. intros i. rewrite list_lookup_fmap. destruct (l !! i) as [x|] eqn:Hi.
  - pose proof (lookup_lt_Some _ _ _ Hi). rewrite lookup_seqZ_lt by lia. cbn. f_equal.
    by apply (sr_vals _ _ _ Hr).
  - apply lookup_ge_None in Hi. by rewrite lookup_seqZ_ge by lia.
Qed.

Lemma holds_empty : holds [] empty_set_state.
Proof. apply typed_set_empty. Qed.

Lemma size_20 : size_ok 20. Proof. unfold size_ok. lia. Qed.
Lemma size_4 : size_ok 4. Proof. unfold size_ok. lia. Qed.

#[local] Instance addr_laws : @SetStoreLaws SetState addr_set (typed_view 20).
Proof. apply typed_set_laws, size_20. Qed.
#[local] Instance sel_laws : @SetStoreLaws SetState sel_set (typed_view 4).
Proof. apply typed_set_laws, size_4. Qed.

Lemma set_values_run l s : holds l s -> set_values s = Ok l.
Proof. intros Hr. unfold set_values. by rewrite (set_read_run (L := addr_laws) _ l s Hr). Qed.

Lemma set_has_run l s v : holds l s -> set_has v s = Ok (bool_decide (v ∈ l)).
Proof. intros Hr. unfold set_has. by rewrite (set_contains_run (L := addr_laws) _ l s v Hr). Qed.

Lemma set_none_run l s : holds l s -> set_none s = Ok (bool_decide (l = [])).
Proof.
  intros Hr. unfold set_none, set_is_empty.
  rewrite (bind_run _ _ _ _ _ (sr_len_run (L := addr_laws) _ l s Hr)). cbn. f_equal.
  by destruct l.
Qed.

Lemma addr_delete_run l s :
  holds l s -> exists s', @set_delete _ addr_set s = (Ok tt, s') /\ holds [] s'.
Proof. apply (set_delete_run (L := addr_laws) _). Qed.

Lemma sel_delete_run l s :
  holds l s -> exists s', @set_delete _ sel_set s = (Ok tt, s') /\ holds [] s'.
Proof.
  intros Hr%(holds_view 4). destruct (set_delete_run (L := sel_laws) _ l s Hr) as (s' & Hrun & Hr').
  exists s'. split; [done|]. by apply (holds_view 4).
Qed.

(** Capacity of a set of selectors and of addresses. *)
Definition room_for (B : Z) (l : list Z) : Prop := Z.of_nat (length l) < max_index B.

Definition set_add (v : Z) (l : list Z) : list Z := if decide (v ∈ l) then l else l ++ [v].

Lemma addr_insert_run l s v :
  holds l s -> v ∈ l \/ room_for 20 l ->
  exists s', @set_insert _ addr_set v s = (Ok (negb (bool_decide (v ∈ l))), s') /\ holds (set_add v l) s'.
Proof.
  intros Hr Hcap. unfold set_add. case_decide as Hv.
  - exists s. rewrite bool_decide_eq_true_2 by done. split; [|done].
    by apply (set_insert_present (L := addr_laws) _ l).
  - rewrite bool_decide_eq_false_2 by done. destruct Hcap; [done|].
    by apply (set_insert_new (L := addr_laws) _ l).
Qed.

Lemma sel_insert_run l s v :
  holds l s -> room_for 4 l ->
  exists s', @set_insert _ sel_set v s = (Ok (negb (bool_decide (v ∈ l))), s') /\ holds (set_add v l) s'.
Proof.
  intros Hr%(holds_view 4) Hcap. unfold set_add. case_decide as Hv.
  - exists s. rewrite bool_decide_eq_true_2 by done. split; [|by apply (holds_view 4)].
    by apply (set_insert_present (L := sel_laws) _ l).
  - rewrite bool_decide_eq_false_2 by done.
    destruct (set_insert_new (L := sel_laws) _ l s v Hr) as (s' & Hrun & Hr'); [done..|].
    exists s'. split; [done|]. by apply (holds_view 4).
Qed.

Lemma addr_write_run l l' s :
  holds l s -> NoDup l' -> Z.of_nat (length l') <= U32_MAX ->
  exists s', @set_write _ addr_set l' s = (Ok tt, s') /\ holds l' s'.
Proof.
  intros Hr Hnd Hmax. apply (set_write_run (L := addr_laws) _ l l' s Hr Hnd); [|done].
  by apply Forall_forall.
Qed.

(** * The tree *)

Definition sels (t : Z) (k : KeyScope) : SetState := selectors (get_target_scope t k).
Definition recs (t s : Z) (k : KeyScope) : SetState :=
  recipients (get_selector_scope s (get_target_scope t k)).

(** Every set of the tree is well formed, and nothing is stored below a target
    or a selector that is not a member of its parent set. *)
Record tree_ok (k : KeyScope) : Prop := {
  to_targets : holds (set_elems (targets k)) (targets k);
  to_sels : forall t, holds (set_elems (sels t k)) (sels t k);
  to_recs : forall t s, holds (set_elems (recs t s k)) (recs t s k);
  to_no_target : forall t, t ∉ set_elems (targets k) -> set_elems (sels t k) = [];
  to_no_sel : forall t s, s ∉ set_elems (sels t k) -> set_elems (recs t s k) = [];
}.

Lemma tree_ok_default : tree_ok default_key_scope.
Proof.
  split; unfold sels, recs, get_target_scope, get_selector_scope, dget; cbn; try done;
    intros; rewrite ?lookup_empty; cbn; rewrite ?lookup_empty; apply holds_empty.
Qed.

(** The access list the tree stands for. *)
Definition rules_of (t : Z) (k : KeyScope) : list SelectorRule :=
  (fun s => mkSelectorRule s (set_elems (recs t s k))) <$> set_elems (sels t k).
Definition scopes_of (k : KeyScope) : list CallScope :=
  (fun t => mkCallScope t (rules_of t k)) <$> set_elems (targets k).

(** Nothing but the subtree of [t] differs. *)
Definition only_target (t : Z) (k k' : KeyScope) : Prop :=
  is_scoped k' = is_scoped k /\ targets k' = targets k /\
  forall t', t' <> t -> get_target_scope t' k' = get_target_scope t' k.

Lemma only_target_refl t k : only_target t k k.
Proof. done. Qed.
Lemma only_target_trans t k1 k2 k3 :
  only_target t k1 k2 -> only_target t k2 k3 -> only_target t k1 k3.
Proof.
  intros (Ha & Hb & Hc) (Ha' & Hb' & Hc'). split; [congruence|]. split; [congruence|].
  intros t' Ht. by rewrite Hc', Hc.
Qed.

Lemma get_target_put_eq t T k : get_target_scope t (put_target_scope t T k) = T.
Proof. unfold get_target_scope, dget. cbn. by rewrite lookup_insert_eq. Qed.
Lemma get_target_put_ne t t' T k :
  t <> t' -> get_target_scope t' (put_target_scope t T k) = get_target_scope t' k.
Proof. intros. unfold get_target_scope, dget. cbn. by rewrite lookup_insert_ne. Qed.
Lemma get_selector_put_eq s c T : get_selector_scope s (put_selector_scope s c T) = c.
Proof. unfold get_selector_scope, dget. cbn. by rewrite lookup_insert_eq. Qed.
Lemma get_selector_put_ne s s' c T :
  s <> s' -> get_selector_scope s' (put_selector_scope s c T) = get_selector_scope s' T.
Proof. intros. unfold get_selector_scope, dget. cbn. by rewrite lookup_insert_ne. Qed.

Lemma at_recipients_run {A} t s (m : sio SetState A) k r x :
  m (recs t s k) = (r, x) ->
  exists k', at_recipients t s m k = (r, k') /\ only_target t k k' /\
    sels t k' = sels t k /\ recs t s k' = x /\ (forall s', s' <> s -> recs t s' k' = recs t s' k).
Proof.
  intros Hm. unfold recs in Hm. eexists. split; [unfold at_recipients, zoom; by rewrite Hm|].
  split; [|split; [|split]].
  - split; [done|]. split; [done|]. intros t' Ht. by apply get_target_put_ne.
  - unfold sels. by rewrite get_target_put_eq.
  - unfold recs. by rewrite get_target_put_eq, get_selector_put_eq.
  - intros s' Hs. unfold recs. by rewrite get_target_put_eq, get_selector_put_ne by congruence.
Qed.

Lemma at_selectors_run {A} t (m : sio SetState A) k r x :
  m (sels t k) = (r, x) ->
  exists k', at_selectors t m k = (r, k') /\ only_target t k k' /\
    sels t k' = x /\ (forall s, recs t s k' = recs t s k).
Proof.
  intros Hm. unfold sels in Hm. eexists. split; [unfold at_selectors, zoom; by rewrite Hm|].
  split; [|split].
  - split; [done|]. split; [done|]. intros t' Ht. by apply get_target_put_ne.
  - unfold sels. by rewrite get_target_put_eq.
  - intros s'. unfold recs. by rewrite get_target_put_eq.
Qed.

Lemma only_target_sels t k k' t' : only_target t k k' -> t' <> t -> sels t' k' = sels t' k.
Proof. intros (_ & _ & Hc) Ht. unfold sels. by rewrite Hc. Qed.
Lemma only_target_recs t k k' t' s : only_target t k k' -> t' <> t -> recs t' s k' = recs t' s k.
Proof. intros (_ & _ & Hc) Ht. unfold recs. by rewrite Hc. Qed.

(** * Clearing *)

Lemma clear_recipients_run t (l : list Z) k :
  (forall s, exists r, holds r (recs t s k)) ->
  exists k', for_each l (fun s => at_recipients t s (@set_delete _ addr_set)) k = (Ok tt, k') /\
    only_target t k k' /\ sels t k' = sels t k /\
    (forall s, if decide (s ∈ l) then holds [] (recs t s k') else recs t s k' = recs t s k).
Proof.
  revert k. induction l as [|s l IH]; intros k Hk.
  { exists k. split; [done|]. split; [done|]. split; [done|]. intros s. by rewrite decide_False by set_solver. }
  destruct (Hk s) as [r Hr]. destruct (addr_delete_run r _ Hr) as (x & Hdel & Hx).
  destruct (at_recipients_run t s _ k _ _ Hdel) as (k1 & Hrun1 & Ho1 & Hs1 & Hr1 & Hr1').
  destruct (IH k1) as (k' & Hrun & Ho & Hs & Hrs).
  { intros s'. destruct (decide (s' = s)) as [->|Hne]; [exists []; by rewrite Hr1|].
    rewrite Hr1' by done. apply Hk. }
  exists k'. cbn [for_each]. rewrite (bind_run _ _ _ _ _ Hrun1).
  split; [done|]. split; [by eapply only_target_trans|]. split; [congruence|].
  intros s'. specialize (Hrs s'). destruct (decide (s' ∈ l)) as [Hl|Hl].
  - by rewrite decide_True by set_solver.
  - rewrite Hrs. case_decide as Hin.
    + assert (s' = s) as -> by set_solver. by rewrite Hr1.
    + apply Hr1'. set_solver.
Qed.

Lemma clear_target_selectors_run t k l :
  holds l (sels t k) -> (forall s, exists r, holds r (recs t s k)) ->
  exists k', clear_target_selectors t k = (Ok tt, k') /\ only_target t k k' /\
    holds [] (sels t k') /\
    (forall s, if decide (s ∈ l) then holds [] (recs t s k') else recs t s k' = recs t s k).
Proof.
  intros Hl Hk. destruct (clear_recipients_run t l k Hk) as (k1 & Hrun1 & Ho1 & Hs1 & Hr1).
  destruct (sel_delete_run l (sels t k1)) as (x & Hdel & Hx); [by rewrite Hs1|].
  destruct (at_selectors_run t _ k1 _ _ Hdel) as (k' & Hrun & Ho & Hs & Hr).
  exists k'. unfold clear_target_selectors.
  rewrite (bind_run _ _ _ l k) by (unfold reads; unfold sels in Hl; by rewrite (set_values_run l _ Hl)).
  rewrite (bind_run _ _ _ _ _ Hrun1). split; [done|].
  split; [by eapply only_target_trans|]. split; [by rewrite Hs|].
  intros s. rewrite Hr. apply Hr1.
Qed.

(** A cleared target has no recipients left either. *)
Lemma tree_clear_target t k :
  tree_ok k ->
  exists k', clear_target_selectors t k = (Ok tt, k') /\ only_target t k k' /\
    holds [] (sels t k') /\ (forall s, holds [] (recs t s k')).
Proof.
  intros Hk. destruct (clear_target_selectors_run t k (set_elems (sels t k)))
    as (k' & Hrun & Ho & Hs & Hr); [apply Hk|intros s; eexists; apply Hk|].
  exists k'. split; [done|]. split; [done|]. split; [done|]. intros s.
  specialize (Hr s). case_decide as Hin; [done|]. rewrite Hr.
  pose proof (to_recs k Hk t s) as Hrec. by rewrite (to_no_sel k Hk t s Hin) in Hrec.
Qed.

(** Subtree facts that give the invariant. *)
Lemma tree_ok_only_target t k k' :
  tree_ok k -> only_target t k k' -> t ∈ set_elems (targets k) \/ holds [] (sels t k') ->
  (exists l, holds l (sels t k')) ->
  (forall s, exists r, holds r (recs t s k') /\ (s ∉ set_elems (sels t k') -> r = [])) ->
  tree_ok k'.
Proof.
  intros Hk Ho Ht [l Hl] Hr. pose proof Ho as (_ & Htg & _). split.
  - rewrite Htg. apply Hk.
  - intros t'. destruct (decide (t' = t)) as [->|Hne]; [by rewrite (holds_elems l _ Hl)|].
    rewrite (only_target_sels t k k') by done. apply Hk.
  - intros t' s. destruct (decide (t' = t)) as [->|Hne].
    + destruct (Hr s) as (r & Hrs & _). by rewrite (holds_elems r _ Hrs).
    + rewrite (only_target_recs t k k') by done. apply Hk.
  - intros t' Hnin. rewrite Htg in Hnin. destruct (decide (t' = t)) as [->|Hne].
    + destruct Ht as [Hin|He]; [done|]. by apply holds_elems.
    + rewrite (only_target_sels t k k') by done. by apply Hk.
  - intros t' s Hnin. destruct (decide (t' = t)) as [->|Hne].
    + destruct (Hr s) as (r & Hrs & Hnil). rewrite (holds_elems r _ Hrs). by apply Hnil.
    + rewrite (only_target_recs t k k') by done. apply Hk.
      by rewrite <- (only_target_sels t k k') by done.
Qed.

Lemma tree_clear_ok t k k' :
  tree_ok k -> only_target t k k' -> holds [] (sels t k') -> (forall s, holds [] (recs t s k')) ->
  tree_ok k'.
Proof.
  intros Hk Ho Hs Hr. eapply tree_ok_only_target; [done|done|by right|by exists []|].
  intros s. exists []. auto.
Qed.

Lemma rules_of_only_target t k k' t' :
  only_target t k k' -> t' <> t -> rules_of t' k' = rules_of t' k.
Proof.
  intros Ho Ht. unfold rules_of. rewrite (only_target_sels t k k') by done.
  apply list_fmap_ext. intros _ s _. by rewrite (only_target_recs t k k') by done.
Qed.

(** * Rules of one target *)

(** Distinct, nonzero: what the validation guarantees of recipients. *)
Definition rule_ok (rule : SelectorRule) : Prop :=
  NoDup (sr_recipients rule) /\ Z.of_nat (length (sr_recipients rule)) <= U32_MAX.

Lemma upsert_rule_run env t rule l k :
  holds l (sels t k) -> room_for 4 l -> sr_selector rule ∉ l -> rule_ok rule ->
  holds [] (recs t (sr_selector rule) k) ->
  exists k', upsert_rule env t rule k = (Ok tt, k') /\ only_target t k k' /\
    holds (l ++ [sr_selector rule]) (sels t k') /\
    holds (sr_recipients rule) (recs t (sr_selector rule) k') /\
    (forall s, s <> sr_selector rule -> recs t s k' = recs t s k).
Proof.
  intros Hl Hcap Hnin [Hnd Hmax] Hrec. set (sel := sr_selector rule) in *.
  destruct (sel_insert_run l _ sel Hl Hcap) as (x & Hins & Hx).
  unfold set_add in Hx. rewrite decide_False in Hx by done.
  destruct (at_selectors_run t _ k _ _ Hins) as (k1 & Hrun1 & Ho1 & Hs1 & Hr1).
  unfold upsert_rule. fold sel. rewrite (bind_run _ _ _ _ _ Hrun1).
  assert (forall m : sio SetState unit,
    (exists x', m (recs t sel k1) = (Ok tt, x') /\ holds (sr_recipients rule) x') ->
    exists k', at_recipients t sel m k1 = (Ok tt, k') /\ only_target t k k' /\
      holds (l ++ [sel]) (sels t k') /\ holds (sr_recipients rule) (recs t sel k') /\
      (forall s, s <> sel -> recs t s k' = recs t s k)) as Hfin.
  { intros m (x' & Hm & Hx'). destruct (at_recipients_run t sel m k1 _ _ Hm) as (k' & Hrun & Ho & Hs & Hr & Hr').
    exists k'. split; [done|]. split; [by eapply only_target_trans|]. split; [by rewrite Hs, Hs1|].
    split; [by rewrite Hr|]. intros s Hne. by rewrite Hr', Hr1. }
  destruct (sr_recipients rule) as [|r rs] eqn:Er.
  - destruct (negb (is_t4 (env_spec env))).
    + apply Hfin. rewrite Hr1. by apply (addr_delete_run []).
    + exists k1. split; [done|]. split; [done|]. split; [by rewrite Hs1|]. split; [by rewrite Hr1|].
      intros s _. apply Hr1.
  - apply Hfin. rewrite Hr1. by apply (addr_write_run []).
Qed.

Lemma upsert_rules_run env t rules l k :
  holds l (sels t k) -> Z.of_nat (length l) + Z.of_nat (length rules) <= max_index 4 ->
  NoDup (sr_selector <$> rules) -> (forall s, s ∈ l -> s ∉ sr_selector <$> rules) ->
  Forall rule_ok rules -> (forall s, s ∈ sr_selector <$> rules -> holds [] (recs t s k)) ->
  exists k', for_each rules (upsert_rule env t) k = (Ok tt, k') /\ only_target t k k' /\
    holds (l ++ (sr_selector <$> rules)) (sels t k') /\
    Forall (fun r => holds (sr_recipients r) (recs t (sr_selector r) k')) rules /\
    (forall s, s ∉ sr_selector <$> rules -> recs t s k' = recs t s k).
Proof.
  revert l k. induction rules as [|rule rules IH]; intros l k Hl Hcap Hnd Hdis Hok Hrec.
  { exists k. rewrite app_nil_r. split; [done|]. split; [done|]. split; [done|]. split; [constructor|done]. }
  apply Forall_cons in Hok as [Hr0 Hok]. rewrite fmap_cons in Hnd, Hdis, Hrec |- *.
  apply NoDup_cons in Hnd as [Hnin Hnd]. cbn [length] in Hcap.
  destruct (upsert_rule_run env t rule l k Hl) as (k1 & Hrun1 & Ho1 & Hl1 & Hr1 & Hr1').
  { unfold room_for. lia. } { intros Hin. apply (Hdis _ Hin). set_solver. } { done. }
  { apply Hrec. set_solver. }
  destruct (IH (l ++ [sr_selector rule]) k1) as (k' & Hrun & Ho & Hl' & Hf & Hout); try done.
  { rewrite length_app. cbn [length]. lia. }
  { intros s Hs. set_solver. }
  { intros s Hs. rewrite Hr1' by set_solver. apply Hrec. set_solver. }
  exists k'. cbn [for_each]. rewrite (bind_run _ _ _ _ _ Hrun1). split; [done|].
  split; [by eapply only_target_trans|]. split; [by rewrite <- app_assoc in Hl'|].
  split; [constructor; [by rewrite Hout|done]|].
  intros s Hs. rewrite Hout, Hr1' by set_solver. done.
Qed.

(** * Validation *)

Lemma check_recipients_ok seen l :
  check_recipients seen l = Ok tt -> NoDup l /\ (forall r, r ∈ l -> r <> 0 /\ (r ∉ seen)).
Proof.
  revert seen. induction l as [|r l IH]; intros seen; cbn; [split; [constructor|set_solver]|].
  destruct ((r =? 0) || bool_decide (r ∈ seen)) eqn:E; [done|]. zbool. intros Hc.
  destruct (IH _ Hc) as [Hnd Hall]. split.
  - constructor; [|done]. intros Hin. destruct (Hall r Hin). set_solver.
  - intros x [->|Hx]%elem_of_cons; [done|]. destruct (Hall x Hx). set_solver.
Qed.

Lemma check_selector_rules_ok seen rules :
  check_selector_rules seen rules = Ok tt ->
  NoDup (sr_selector <$> rules) /\ Forall (fun r => NoDup (sr_recipients r)) rules /\
  (forall s, s ∈ sr_selector <$> rules -> s ∉ seen).
Proof.
  revert seen. induction rules as [|rule rules IH]; intros seen.
  { cbn. repeat split; [constructor|constructor|set_solver]. }
  cbn [check_selector_rules]. destruct (bool_decide (sr_selector rule ∈ seen)) eqn:E; [done|]. zbool.
  unfold mbind, result_bind. intros Hc. rewrite fmap_cons.
  assert (NoDup (sr_recipients rule) /\
    check_selector_rules ({[sr_selector rule]} ∪ seen) rules = Ok tt) as [Hr Hc'].
  { destruct (sr_recipients rule) as [|r rs] eqn:Er; [split; [constructor|done]|].
    destruct (negb _); [done|]. destruct (check_recipients ∅ (r :: rs)) as [[]|] eqn:Ec; [|done].
    split; [|done]. by apply check_recipients_ok in Ec as [? _]. }
  destruct (IH _ Hc') as (Hnd & Hall & Hseen). split; [|split].
  - constructor; [|done]. intros Hin. apply (Hseen _ Hin). set_solver.
  - by constructor.
  - intros s [->|Hs]%elem_of_cons; [done|]. pose proof (Hseen s Hs). set_solver.
Qed.

Lemma validate_call_scope_ok scope :
  validate_call_scope scope = Ok tt ->
  cs_target scope <> 0 /\ NoDup (sr_selector <$> cs_rules scope) /\
  Forall (fun r => NoDup (sr_recipients r)) (cs_rules scope).
Proof.
  unfold validate_call_scope. destruct (cs_target scope =? 0) eqn:E; [done|]. zbool.
  destruct (cs_rules scope) as [|r rs] eqn:Er; [intros _; repeat split; [done|constructor..]|].
  intros Hv. apply check_selector_rules_ok in Hv as (? & ? & _). auto.
Qed.

(** The lists of a scope are within the capacity of the stored sets. *)
Definition scope_fits (scope : CallScope) : Prop :=
  Z.of_nat (length (cs_rules scope)) <= max_index 4 /\
  Forall (fun r => Z.of_nat (length (sr_recipients r)) <= U32_MAX) (cs_rules scope).

(** * Upserting a target *)

(** Create or replace the scope of one target in an access list. *)
Definition list_upsert (scope : CallScope) (l : list CallScope) : list CallScope :=
  if decide (cs_target scope ∈ cs_target <$> l)
  then (fun c => if cs_target c =? cs_target scope then scope else c) <$> l
  else l ++ [scope].

Lemma scopes_of_targets k : cs_target <$> scopes_of k = set_elems (targets k).
Proof. unfold scopes_of. rewrite <- list_fmap_compose. apply list_fmap_id. Qed.

Lemma rules_of_stored t rules k :
  holds (sr_selector <$> rules) (sels t k) ->
  Forall (fun r => holds (sr_recipients r) (recs t (sr_selector r) k)) rules ->
  rules_of t k = rules.
Proof.
  intros Hs Hr. unfold rules_of. rewrite (holds_elems _ _ Hs), <- list_fmap_compose.
  rewrite <- (list_fmap_id rules) at 2. apply list_fmap_ext. intros i r Hi. cbn.
  rewrite Forall_lookup in Hr. rewrite (holds_elems _ _ (Hr i r Hi)). by destruct r.
Qed.

(** Inserting the target only adds it to the parent set. *)
Lemma insert_target_run t k :
  tree_ok k -> t ∈ set_elems (targets k) \/ room_for 20 (set_elems (targets k)) ->
  exists k', at_targets (@set_insert _ addr_set t) k
      = (Ok (negb (bool_decide (t ∈ set_elems (targets k)))), k') /\
    tree_ok k' /\ is_scoped k' = is_scoped k /\
    set_elems (targets k') = set_add t (set_elems (targets k)) /\
    target_scopes k' = target_scopes k.
Proof.
  intros Hk Hcap. destruct (addr_insert_run _ _ t (to_targets k Hk) Hcap) as (x & Hins & Hx).
  exists (put_targets x k). split; [unfold at_targets, zoom; by rewrite Hins|].
  pose proof (holds_elems _ _ Hx) as Hel. split; [|done]. split; try apply Hk.
  - cbn. by rewrite Hel.
  - intros t' Hnin. apply Hk. cbn in Hnin. rewrite Hel in Hnin. unfold set_add in Hnin.
    case_decide; set_solver.
Qed.

Lemma rules_of_target_scopes t k k' :
  target_scopes k' = target_scopes k -> rules_of t k' = rules_of t k.
Proof. intros Heq. unfold rules_of, sels, recs, get_target_scope. by rewrite Heq. Qed.

Lemma upsert_target_scope_run env scope k :
  tree_ok k -> validate_call_scope scope = Ok tt -> scope_fits scope ->
  cs_target scope ∈ set_elems (targets k) \/ room_for 20 (set_elems (targets k)) ->
  exists k', upsert_target_scope env scope k = (Ok tt, k') /\ tree_ok k' /\
    is_scoped k' = is_scoped k /\ scopes_of k' = list_upsert scope (scopes_of k) /\
    set_elems (targets k') = set_add (cs_target scope) (set_elems (targets k)).
Proof.
  intros Hk Hval [Hfit1 Hfit2] Hcap. set (t := cs_target scope).
  destruct (validate_call_scope_ok scope Hval) as (_ & Hnd & Hrn).
  destruct (insert_target_run t k Hk Hcap) as (k1 & Hrun1 & Hk1 & Hsc1 & Ht1 & Hts1).
  destruct (tree_clear_target t k1 Hk1) as (k2 & Hrun2 & Ho2 & Hs2 & Hr2).
  destruct (upsert_rules_run env t (cs_rules scope) [] k2) as (k3 & Hrun3 & Ho3 & Hs3 & Hr3 & Hout3);
    [done|cbn [length]; lia|done|set_solver| |by intros; apply Hr2|].
  { apply Forall_lookup. intros i r Hi. rewrite Forall_lookup in Hrn, Hfit2. split; eauto. }
  cbn [app] in Hs3. pose proof (only_target_trans _ _ _ _ Ho2 Ho3) as Ho.
  exists k3. split; [|split; [|split; [|split]]].
  - unfold upsert_target_scope. fold t. rewrite (bind_run _ _ _ tt k).
    2: { destruct (negb (is_t4 (env_spec env))); [unfold reads; by rewrite Hval|done]. }
    rewrite (bind_run _ _ _ _ _ Hrun1). by rewrite (bind_run _ _ _ _ _ Hrun2).
  - eapply (tree_ok_only_target t k1); [done|done| |by eexists|].
    + left. rewrite Ht1. unfold set_add. case_decide; set_solver.
    + intros s. destruct (decide (s ∈ sr_selector <$> cs_rules scope)) as [Hin|Hnin].
      * apply list_elem_of_fmap in Hin as (r & -> & Hr). rewrite Forall_forall in Hr3.
        exists (sr_recipients r). split; [by apply Hr3|]. intros Hn. exfalso. apply Hn.
        rewrite (holds_elems _ _ Hs3). by apply list_elem_of_fmap_2.
      * exists []. split; [|done]. rewrite Hout3 by done. apply Hr2.
  - destruct Ho as (-> & _). done.
  - pose proof (rules_of_stored t (cs_rules scope) k3 Hs3 Hr3) as Hrt.
    assert (forall t', t' <> t -> rules_of t' k3 = rules_of t' k) as Hother.
    { intros t' Hne. rewrite (rules_of_only_target t k1 k3) by done. by apply rules_of_target_scopes. }
    unfold list_upsert, scopes_of at 1. rewrite scopes_of_targets. fold t.
    destruct Ho as (_ & -> & _). rewrite Ht1. unfold set_add, scopes_of.
    destruct (decide (t ∈ set_elems (targets k))) as [Hin|Hin].
    + rewrite <- list_fmap_compose. apply list_fmap_ext. intros _ t' _. cbn.
      destruct (t' =? t) eqn:E; zbool; [subst t'; rewrite Hrt; by destruct scope|by rewrite Hother].
    + rewrite fmap_app. f_equal; [|cbn; rewrite Hrt; by destruct scope].
      apply list_fmap_ext. intros i t' Hi. rewrite Hother; [done|]. intros ->.
      apply Hin. by eapply list_elem_of_lookup_2.
  - destruct Ho as (_ & -> & _). done.
Qed.

(** A successful upsert has valid arguments and keeps the invariant. *)
Lemma upsert_target_scope_ok env scope k u k' :
  tree_ok k -> scope_fits scope -> (is_t4 (env_spec env) = true -> validate_call_scope scope = Ok tt) ->
  upsert_target_scope env scope k = (Ok u, k') -> tree_ok k'.
Proof.
  intros Hk Hfit Hval Hrun.
  assert (validate_call_scope scope = Ok tt) as Hv.
  { destruct (is_t4 (env_spec env)) eqn:E; [by apply Hval|]. unfold upsert_target_scope in Hrun.
    rewrite E in Hrun. cbn [negb] in Hrun. apply bind_ok_inv in Hrun as (x & s1 & Hr & _).
    unfold reads in Hr. destruct x. by injection Hr. }
  destruct (decide (cs_target scope ∈ set_elems (targets k))) as [Hin|Hnin].
  { destruct (upsert_target_scope_run env scope k) as (k2 & Hrun2 & Hk2 & _); auto. congruence. }
  destruct (decide (Z.of_nat (length (set_elems (targets k))) < max_index 20)) as [Hlt|Hge].
  { destruct (upsert_target_scope_run env scope k) as (k2 & Hrun2 & Hk2 & _); auto. congruence. }
  exfalso. unfold upsert_target_scope in Hrun. apply bind_ok_inv in Hrun as (x & s1 & Hr & Hrun).
  assert (s1 = k) as -> by (destruct (negb (is_t4 (env_spec env))); by injection Hr).
  apply bind_ok_inv in Hrun as (b & s2 & Hins & _). unfold at_targets, zoom in Hins.
  pose proof (set_insert_full (L := addr_laws) _ _ (targets k) (cs_target scope) (to_targets k Hk)) as Hfull.
  destruct (@set_insert _ addr_set (cs_target scope) (targets k)) as [[b'|e] s'] eqn:E.
  - cbn [fst is_ok] in Hfull. specialize (Hfull I Hnin). cbn in Hge. 
    assert (true = false); [apply Hfull; cbn; lia|done].
  - by injection Hins.
Qed.

Lemma upsert_all_ok env scopes k u k' :
  tree_ok k -> Forall scope_fits scopes ->
  (is_t4 (env_spec env) = true -> Forall (fun c => validate_call_scope c = Ok tt) scopes) ->
  for_each scopes (upsert_target_scope env) k = (Ok u, k') -> tree_ok k'.
Proof.
  intros Hk Hfit. revert k Hk. induction Hfit as [|c scopes Hc Hfit IH]; intros k Hk Hval Hrun;
    cbn [for_each] in Hrun.
  { by injection Hrun as <- <-. }
  apply bind_ok_inv in Hrun as (x & k1 & Hrun1 & Hrun).
  apply (IH k1); [|intros Ht4; by apply Hval, Forall_cons in Ht4 as [_ ?]|done].
  eapply upsert_target_scope_ok; [done|done| |done]. intros Ht4. by apply Hval, Forall_cons in Ht4 as [? _].
Qed.

(** * Whole access lists *)

Lemma set_add_length v l : (length (set_add v l) <= S (length l))%nat.
Proof. unfold set_add. case_decide; [lia|]. rewrite length_app. cbn. lia. Qed.

Lemma upsert_all_run env scopes k :
  tree_ok k -> Forall (fun c => validate_call_scope c = Ok tt /\ scope_fits c) scopes ->
  Z.of_nat (length (set_elems (targets k))) + Z.of_nat (length scopes) <= max_index 20 ->
  exists k', for_each scopes (upsert_target_scope env) k = (Ok tt, k') /\ tree_ok k' /\
    is_scoped k' = is_scoped k /\ scopes_of k' = foldl (fun l c => list_upsert c l) (scopes_of k) scopes.
Proof.
  intros Hk Hall. revert k Hk. induction Hall as [|c scopes [Hv Hf] Hall IH]; intros k Hk Hcap.
  { by exists k. }
  cbn [length] in Hcap.
  destruct (upsert_target_scope_run env c k) as (k1 & Hrun1 & Hk1 & Hsc1 & Hs1 & Ht1); try done.
  { right. unfold room_for. lia. }
  pose proof (set_add_length (cs_target c) (set_elems (targets k))).
  destruct (IH k1) as (k' & Hrun & Hk' & Hsc & Hs); [done|rewrite Ht1; lia|].
  exists k'. cbn [for_each foldl]. rewrite (bind_run _ _ _ _ _ Hrun1), <- Hs1.
  split; [done|]. split; [done|]. split; [congruence|done].
Qed.

Lemma check_call_scopes_ok env seen scopes :
  check_call_scopes env seen scopes = Ok tt ->
  NoDup (cs_target <$> scopes) /\ (forall t, t ∈ cs_target <$> scopes -> t ∉ seen) /\
  (is_t4 (env_spec env) = true -> Forall (fun c => validate_call_scope c = Ok tt) scopes).
Proof.
  revert seen. induction scopes as [|c scopes IH]; intros seen.
  { cbn. repeat split; [constructor|set_solver|constructor]. }
  cbn [check_call_scopes]. destruct (bool_decide (cs_target c ∈ seen)) eqn:E; [done|]. zbool.
  rewrite fmap_cons. destruct (is_t4 (env_spec env)) eqn:Et4; unfold mbind, result_bind.
  - destruct (validate_call_scope c) as [[]|] eqn:Ev; [|done]. intros Hc.
    destruct (IH _ Hc) as (Hnd & Hseen & Hall). split; [|split].
    + constructor; [|done]. intros Hin. apply (Hseen _ Hin). set_solver.
    + intros t [->|Ht]%elem_of_cons; [done|]. pose proof (Hseen t Ht). set_solver.
    + intros _. constructor; auto.
  - intros Hc. destruct (IH _ Hc) as (Hnd & Hseen & Hall). split; [|split; [|done]].
    + constructor; [|done]. intros Hin. apply (Hseen _ Hin). set_solver.
    + intros t [->|Ht]%elem_of_cons; [done|]. pose proof (Hseen t Ht). set_solver.
Qed.

(** Scopes with distinct targets are stored as given. *)
Lemma foldl_upsert_fresh scopes l :
  NoDup ((cs_target <$> l) ++ (cs_target <$> scopes)) ->
  foldl (fun l c => list_upsert c l) l scopes = l ++ scopes.
Proof.
  revert l. induction scopes as [|c scopes IH]; intros l Hnd; cbn [foldl]; [by rewrite app_nil_r|].
  rewrite fmap_cons in Hnd. assert (cs_target c ∉ cs_target <$> l) as Hnin.
  { apply NoDup_app in Hnd as (_ & Hd & _). intros Hin. apply (Hd _ Hin). set_solver. }
  assert (list_upsert c l = l ++ [c]) as -> by (unfold list_upsert; by rewrite decide_False).
  rewrite IH; [by rewrite <- app_assoc|]. rewrite fmap_app, <- app_assoc. done.
Qed.

(** Removing everything. *)
Lemma clear_targets_run (ts : list Z) k :
  tree_ok k ->
  exists k', for_each ts clear_target_selectors k = (Ok tt, k') /\ tree_ok k' /\
    is_scoped k' = is_scoped k /\ targets k' = targets k /\
    (forall t, t ∈ ts \/ holds [] (sels t k) -> holds [] (sels t k')).
Proof.
  revert k. induction ts as [|t ts IH]; intros k Hk.
  { exists k. split; [done|]. split; [done|]. split; [done|]. split; [done|].
    intros t [Hin|]; [set_solver|done]. }
  destruct (tree_clear_target t k Hk) as (k1 & Hrun1 & Ho1 & Hs1 & Hr1).
  destruct (IH k1) as (k' & Hrun & Hk' & Hsc & Ht & Hs); [by eapply tree_clear_ok|].
  destruct Ho1 as (Hsc1 & Ht1 & Hg1). exists k'. cbn [for_each]. rewrite (bind_run _ _ _ _ _ Hrun1).
  split; [done|]. split; [done|]. split; [congruence|]. split; [congruence|].
  intros t' Hcase. apply Hs. destruct (decide (t' = t)) as [->|Hne]; [by right|].
  destruct Hcase as [Hin|Hh]; [left; set_solver|right]. unfold sels. by rewrite Hg1.
Qed.

Lemma clear_all_run k :
  tree_ok k ->
  exists k', clear_all_target_scopes k = (Ok tt, k') /\ tree_ok k' /\
    is_scoped k' = is_scoped k /\ set_elems (targets k') = [].
Proof.
  intros Hk. destruct (clear_targets_run (set_elems (targets k)) k Hk) as (k1 & Hrun1 & Hk1 & Hsc1 & Ht1 & Hs1).
  destruct (addr_delete_run (set_elems (targets k)) (targets k1)) as (x & Hdel & Hx);
    [rewrite Ht1; apply Hk|].
  exists (put_targets x k1). split; [|split; [|split; [done|by apply holds_elems]]].
  - unfold clear_all_target_scopes. rewrite (bind_run _ _ _ (set_elems (targets k)) k).
    2: { unfold reads. by rewrite (set_values_run _ _ (to_targets k Hk)). }
    rewrite (bind_run _ _ _ _ _ Hrun1). unfold at_targets, zoom. by rewrite Hdel.
  - split; try apply Hk1.
    + cbn. by rewrite (holds_elems _ _ Hx).
    + intros t _. apply holds_elems. apply (Hs1 t).
      destruct (decide (t ∈ set_elems (targets k))) as [Hin|Hnin]; [by left|right].
      pose proof (to_sels k Hk t) as Hh. by rewrite (to_no_target k Hk t Hnin) in Hh.
Qed.

(** What a scope tree must satisfy to be stored by [replace_allowed_calls]. *)
Definition scopes_storable (env : BlockEnv) (scopes : list CallScope) : Prop :=
  validate_call_scopes env scopes = Ok tt /\
  Forall (fun c => validate_call_scope c = Ok tt /\ scope_fits c) scopes /\
  Z.of_nat (length scopes) <= max_index 20.

Lemma put_is_scoped_tree b k : tree_ok k -> tree_ok (put_is_scoped b k).
Proof. intros Hk. split; apply Hk. Qed.

Lemma replace_allowed_calls_run env k calls :
  tree_ok k -> (forall l, calls = Some l -> scopes_storable env l) ->
  exists k', replace_allowed_calls env calls k = (Ok tt, k') /\ tree_ok k' /\
    is_scoped k' = bool_decide (is_Some calls) /\ scopes_of k' = default [] calls.
Proof.
  intros Hk Hc. destruct (clear_all_run k Hk) as (k1 & Hrun1 & Hk1 & _ & Ht1).
  unfold replace_allowed_calls. rewrite (bind_run _ _ _ _ _ Hrun1).
  assert (forall b, scopes_of (put_is_scoped b k1) = []) as Hnil.
  { intros b. unfold scopes_of. cbn. by rewrite Ht1. }
  destruct calls as [scopes|].
  2: { exists (put_is_scoped false k1). split; [done|]. split; [by apply put_is_scoped_tree|done]. }
  destruct (Hc scopes eq_refl) as (Hval & Hall & Hlen).
  rewrite (bind_run _ _ _ tt (put_is_scoped true k1)) by done.
  destruct (upsert_all_run env scopes (put_is_scoped true k1)) as (k' & Hrun & Hk' & Hsc & Hs);
    [by apply put_is_scoped_tree|done|cbn [targets put_is_scoped]; rewrite Ht1; cbn [length]; lia|].
  apply check_call_scopes_ok in Hval as Hnd. destruct Hnd as (Hnd & _).
  rewrite Hnil, foldl_upsert_fresh in Hs by done.
  exists k'. split; [|split; [done|split; [done|done]]].
  destruct scopes as [|c scopes]; [done|].
  rewrite (bind_run _ _ _ tt (put_is_scoped true k1)); [done|]. unfold reads. by rewrite Hval.
Qed.

Lemma replace_allowed_calls_ok env k calls u k' :
  tree_ok k -> (forall l, calls = Some l -> Forall scope_fits l) ->
  replace_allowed_calls env calls k = (Ok u, k') -> tree_ok k'.
Proof.
  intros Hk Hfit Hrun. destruct (clear_all_run k Hk) as (k1 & Hrun1 & Hk1 & _).
  unfold replace_allowed_calls in Hrun. rewrite (bind_run _ _ _ _ _ Hrun1) in Hrun.
  destruct calls as [scopes|]; [|injection Hrun as <- <-; by apply put_is_scoped_tree].
  rewrite (bind_run _ _ _ tt (put_is_scoped true k1)) in Hrun by done.
  pose proof (put_is_scoped_tree true k1 Hk1) as Hk2. specialize (Hfit scopes eq_refl).
  destruct scopes as [|c scopes]; [by injection Hrun as <- <-|].
  apply bind_ok_inv in Hrun as (x & k3 & Hval & Hrun). unfold reads in Hval. injection Hval as Hval <-.
  destruct x. apply check_call_scopes_ok in Hval as (_ & _ & Hval).
  eapply upsert_all_ok; [exact Hk2|exact Hfit|exact Hval|exact Hrun].
Qed.

(** * Removing a target *)

Lemma remove_target_scope_run t k :
  tree_ok k ->
  exists k', remove_target_scope t k = (Ok tt, k') /\ tree_ok k' /\ is_scoped k' = is_scoped k /\
    forall c, c ∈ scopes_of k' <-> c ∈ scopes_of k /\ cs_target c <> t.
Proof.
  intros Hk. unfold remove_target_scope.
  destruct (decide (t ∈ set_elems (targets k))) as [Hin|Hnin].
  - pose proof Hin as [i Hi]%list_elem_of_lookup.
    destruct (set_remove_present (L := addr_laws) _ _ _ i t (to_targets k Hk) Hi) as (x & Hrem & Hx).
    pose proof (holds_elems _ _ Hx) as Hel.
    pose proof (elem_of_swap_remove i t (set_elems (targets k))) as Hmem.
    specialize (fun y => Hmem y (sr_nodup _ _ _ (to_targets k Hk)) Hi).
    set (k1 := put_targets x k).
    destruct (clear_target_selectors_run t k1 (set_elems (sels t k)))
      as (k' & Hrun & Ho & Hs & Hr); [apply Hk|intros s; eexists; apply (to_recs k Hk)|].
    assert (Hr0 : forall s, holds [] (recs t s k')).
    { intros s. specialize (Hr s). case_decide as Hins; [done|]. rewrite Hr.
      pose proof (to_recs k Hk t s) as Hrec. by rewrite (to_no_sel k Hk t s Hins) in Hrec. }
    pose proof Ho as (Hsc & Ht & _). exists k'. split; [|split; [|split; [done|]]].
    + assert (at_targets (@set_remove _ addr_set t) k = (Ok true, k1)) as Hrun0
        by (unfold at_targets, zoom; by rewrite Hrem).
      by rewrite (bind_run _ _ _ _ _ Hrun0).
    + split.
      * rewrite Ht. cbn. by rewrite Hel.
      * intros t'. destruct (decide (t' = t)) as [->|Hne]; [by rewrite (holds_elems _ _ Hs)|].
        rewrite (only_target_sels t k1 k') by done. apply (to_sels k Hk).
      * intros t' s. destruct (decide (t' = t)) as [->|Hne]; [by rewrite (holds_elems _ _ (Hr0 s))|].
        rewrite (only_target_recs t k1 k') by done. apply (to_recs k Hk).
      * intros t' Hn. destruct (decide (t' = t)) as [->|Hne]; [by apply holds_elems|].
        rewrite (only_target_sels t k1 k') by done. apply (to_no_target k Hk).
        intros Hin'. apply Hn. rewrite Ht. cbn. rewrite Hel. by apply Hmem.
      * intros t' s Hn. destruct (decide (t' = t)) as [->|Hne]; [by apply holds_elems|].
        rewrite (only_target_recs t k1 k') by done. apply (to_no_sel k Hk).
        rewrite (only_target_sels t k1 k') in Hn by done. done.
    + assert (Hrules : forall t', t' <> t -> rules_of t' k' = rules_of t' k)
        by (intros t' Hne; by rewrite (rules_of_only_target t k1 k')).
      intros c. unfold scopes_of. rewrite Ht. cbn [targets put_targets k1]. rewrite Hel.
      rewrite !list_elem_of_fmap. split.
      * intros (t' & -> & [Hin' Hne]%Hmem). cbn. split; [|done]. exists t'. by rewrite Hrules.
      * intros [(t' & -> & Hin') Hne]. cbn in Hne. exists t'. rewrite Hrules by done.
        split; [done|]. by apply Hmem.
  - exists k. assert (at_targets (@set_remove _ addr_set t) k = (Ok false, k)) as Hrun.
    { unfold at_targets, zoom. rewrite (set_remove_absent (L := addr_laws) _ _ _ t (to_targets k Hk)) by done.
      by destruct k. }
    rewrite (bind_run _ _ _ _ _ Hrun). split; [done|]. split; [done|]. split; [done|].
    intros c. split; [|by intros [? _]]. intros Hc. split; [done|]. intros <-. apply Hnin.
    rewrite <- scopes_of_targets. by apply list_elem_of_fmap_2.
Qed.

(** * Reading *)

Lemma read_rules_run t k (l : list Z) :
  tree_ok k -> read_rules (get_target_scope t k) l =
    Ok ((fun s => mkSelectorRule s (set_elems (recs t s k))) <$> l).
Proof.
  intros Hk. induction l as [|s l IH]; [done|]. cbn [read_rules]. fold (recs t s k).
  rewrite (set_values_run _ _ (to_recs k Hk t s)). cbn [mbind result_bind]. rewrite IH. done.
Qed.

Lemma read_scopes_run k (l : list Z) :
  tree_ok k -> read_scopes k l = Ok ((fun t => mkCallScope t (rules_of t k)) <$> l).
Proof.
  intros Hk. induction l as [|t l IH]; [done|]. cbn [read_scopes]. fold (sels t k).
  rewrite (set_values_run _ _ (to_sels k Hk t)). cbn [mbind result_bind].
  rewrite (read_rules_run t k _ Hk), IH. rewrite fmap_cons.
  assert ((match set_elems (sels t k) with
    | [] => Ok (mkCallScope t [])
    | _ => Ok (mkCallScope t (rules_of t k)) end) = @Ok TempoPrecompileError _ (mkCallScope t (rules_of t k))) as Hm.
  { unfold rules_of. by destruct (set_elems (sels t k)). }
  unfold rules_of in Hm at 1. cbn [mbind result_bind]. rewrite Hm. done.
Qed.

(** * The access-control policy of an access list *)

Definition recipient_word (input : list Z) : list Z := take 32 (drop 4 input).

Definition rule_allows (input : list Z) (r : SelectorRule) : bool :=
  (sr_selector r =? be_val (take 4 input)) &&
  (bool_decide (sr_recipients r = []) ||
   ((36 <=? length input)%nat && forallb (fun b => b =? 0) (take 12 (recipient_word input)) &&
    bool_decide (be_val (drop 12 (recipient_word input)) ∈ sr_recipients r))).

Definition scope_allows (target : Z) (input : list Z) (c : CallScope) : bool :=
  (cs_target c =? target) &&
  (bool_decide (cs_rules c = []) ||
   ((4 <=? length input)%nat && existsb (rule_allows input) (cs_rules c))).

Definition policy_allows (p : getAllowedCallsReturn) (target : Z) (input : list Z) : bool :=
  negb (ac_isScoped p) || existsb (scope_allows target input) (ac_scopes p).

Lemma existsb_fmap_key {A} (f : Z -> A) (key : A -> Z) (g : A -> bool) (l : list Z) x :
  (forall y, key (f y) = y) -> (forall a, g a = (key a =? x) && g a) ->
  existsb g (f <$> l) = bool_decide (x ∈ l) && g (f x).
Proof.
  intros Hkey Hg. induction l as [|y l IH]; [done|]. cbn [existsb fmap list_fmap]. rewrite IH.
  destruct (decide (y = x)) as [->|Hne].
  - rewrite (bool_decide_eq_true_2 (x ∈ x :: l)) by set_solver.
    destruct (g (f x)); [done|]. by rewrite andb_false_r.
  - rewrite (Hg (f y)), Hkey. destruct (y =? x) eqn:E; zbool; [done|].
    rewrite (bool_decide_ext (x ∈ y :: l) (x ∈ l)) by set_solver. done.
Qed.

Lemma policy_scopes_of k target input :
  existsb (scope_allows target input) (scopes_of k) =
  bool_decide (target ∈ set_elems (targets k)) &&
  (bool_decide (set_elems (sels target k) = []) ||
   ((4 <=? length input)%nat &&
    (bool_decide (be_val (take 4 input) ∈ set_elems (sels target k)) &&
     rule_allows input (mkSelectorRule (be_val (take 4 input))
       (set_elems (recs target (be_val (take 4 input)) k)))))).
Proof.
  unfold scopes_of.
  rewrite (existsb_fmap_key _ cs_target (scope_allows target input) _ target); [|done|].
  2: { intros c. unfold scope_allows. destruct (cs_target c =? target); [done|]. done. }
  f_equal. unfold scope_allows. cbn [cs_target cs_rules]. rewrite Z.eqb_refl, andb_true_l.
  f_equal.
  - apply bool_decide_ext. unfold rules_of. by destruct (set_elems (sels target k)).
  - f_equal. unfold rules_of.
    apply (existsb_fmap_key (fun s => mkSelectorRule s (set_elems (recs target s k))) sr_selector (rule_allows input) _ (be_val (take 4 input))); [done|].
    intros r. unfold rule_allows. by destruct (sr_selector r =? _).
Qed.

(** * Entry points *)

Section entry.
Context `{Keccak256}.

Lemma at_scope_run {A} h (m : scio A) s r k' :
  m (get_scope h s) = (r, k') -> at_scope h m s = (r, put_scope h k' s).
Proof. intros Hm. unfold at_scope, zoom. by rewrite Hm. Qed.

Lemma get_scope_put_eq h k s : get_scope h (put_scope h k s) = k.
Proof. unfold get_scope, dget. cbn. by rewrite lookup_insert_eq. Qed.
Lemma get_scope_put_ne h h' k s : h <> h' -> get_scope h' (put_scope h k s) = get_scope h' s.
Proof. intros. unfold get_scope, dget. cbn. by rewrite lookup_insert_ne. Qed.

(** The access list reported for a live key. *)
Definition live_policy (k : KeyScope) : getAllowedCallsReturn :=
  if is_scoped k then mkAllowedCalls true (scopes_of k) else mkAllowedCalls false [].

Lemma get_allowed_calls_run env a k s :
  k <> 0 -> key_active (get_authorized_key a k s) (now env) ->
  tree_ok (get_scope (spending_limit_key a k) s) ->
  get_allowed_calls env a k s = Ok (live_policy (get_scope (spending_limit_key a k) s)).
Proof.
  intros Hk (Hrev & Hexp & Hnow) Ht. unfold get_allowed_calls, live_policy.
  destruct (k =? 0) eqn:E1; zbool; [done|]. rewrite Hrev.
  destruct (expiry _ =? 0) eqn:E2; zbool; [done|]. cbn [orb].
  destruct (now env >=? expiry _) eqn:E3; zbool; [lia|].
  destruct (is_scoped _); [|done]. cbn [negb].
  rewrite (set_values_run _ _ (to_targets _ Ht)). cbn [mbind result_bind].
  by rewrite (read_scopes_run _ _ Ht).
Qed.

(** The check of a transaction decides the policy of the stored tree. *)
Lemma validate_call_scope_run env a k target input s :
  is_t3 (env_spec env) = true -> k <> 0 -> tree_ok (get_scope (spending_limit_key a k) s) ->
  validate_call_scope_for_transaction env a k (Call target) input s =
    if policy_allows (live_policy (get_scope (spending_limit_key a k) s)) target input
    then Ok tt else Err (KeychainErr CallNotAllowed).
Proof.
  intros Ht3 Hk Ht. unfold validate_call_scope_for_transaction. rewrite Ht3.
  destruct (k =? 0) eqn:E1; zbool; [done|]. cbn [orb negb].
  set (K := get_scope (spending_limit_key a k) s) in *. unfold policy_allows, live_policy.
  destruct (is_scoped K); [|done]. cbn [negb ac_isScoped ac_scopes orb].
  rewrite policy_scopes_of, (set_has_run _ _ target (to_targets K Ht)). cbn [mbind result_bind].
  destruct (bool_decide (target ∈ set_elems (targets K))); [|done]. cbn [negb andb].
  fold (sels target K). rewrite (set_none_run _ _ (to_sels K Ht target)).
  destruct (bool_decide (set_elems (sels target K) = [])); [done|]. cbn [orb].
  rewrite Nat.ltb_antisym. destruct (4 <=? length input)%nat eqn:E4; [|done]. cbn [negb andb].
  set (sel := be_val (take 4 input)). rewrite (set_has_run _ _ sel (to_sels K Ht target)).
  destruct (bool_decide (sel ∈ set_elems (sels target K))); [|done]. cbn [negb andb].
  fold (recs target sel K). rewrite (set_none_run _ _ (to_recs K Ht target sel)).
  unfold rule_allows. cbn [sr_selector sr_recipients]. fold sel. rewrite Z.eqb_refl. cbn [andb].
  destruct (bool_decide (set_elems (recs target sel K) = [])); [done|]. cbn [orb].
  rewrite Nat.ltb_antisym. destruct (36 <=? length input)%nat; [|done]. cbn [negb andb].
  fold (recipient_word input).
  assert (existsb (fun b => negb (b =? 0)) (take 12 (recipient_word input)) =
          negb (forallb (fun b => b =? 0) (take 12 (recipient_word input)))) as ->.
  { induction (take 12 (recipient_word input)) as [|b l IH]; [done|]. cbn. rewrite IH.
    by destruct (b =? 0). }
  destruct (forallb _ _); [|done]. cbn [negb andb].
  rewrite (set_has_run _ _ _ (to_recs K Ht target sel)). cbn [mbind result_bind].
  by destruct (bool_decide _).
Qed.

(** Who may administer keys. *)
Definition admin_ok (env : BlockEnv) (msg_sender : Z) (s : AccountKeychain) : Prop :=
  transaction_key s = 0 /\
  (is_t2 (env_spec env) = true -> tx_origin s <> 0 /\ tx_origin s = msg_sender).

Lemma ensure_admin_caller_iff env m s :
  ensure_admin_caller env m s = Ok tt <-> admin_ok env m s.
Proof.
  unfold ensure_admin_caller, ensure_account_caller, admin_ok.
  destruct (transaction_key s =? 0) eqn:E; zbool; cbn [negb mbind result_bind];
    [|split; [done|intros [? _]; done]].
  destruct (is_t2 (env_spec env)); [|split; [done|done]].
  destruct ((tx_origin s =? 0) || negb (tx_origin s =? m)) eqn:E2.
  - split; [done|]. intros [_ Ho]. destruct (Ho eq_refl). apply orb_true_iff in E2 as [E2|E2]; zbool; done.
  - zbool. split; [done|done].
Qed.

Lemma ensure_admin_caller_err env m s :
  ~ admin_ok env m s -> ensure_admin_caller env m s = Err (KeychainErr UnauthorizedCaller).
Proof.
  intros Hn. destruct (ensure_admin_caller env m s) as [[]|e] eqn:E.
  - by apply ensure_admin_caller_iff in E.
  - unfold ensure_admin_caller, ensure_account_caller in E.
    repeat (break_match_in E; cbn [mbind result_bind] in E; try done); by injection E as <-.
Qed.

Lemma set_allowed_calls_run env m k scopes s :
  is_t3 (env_spec env) = true -> admin_ok env m s ->
  key_active (get_authorized_key m k s) (now env) -> scopes <> [] ->
  tree_ok (get_scope (spending_limit_key m k) s) ->
  validate_call_scopes env scopes = Ok tt ->
  Forall (fun c => validate_call_scope c = Ok tt /\ scope_fits c) scopes ->
  Z.of_nat (length (set_elems (targets (get_scope (spending_limit_key m k) s))))
    + Z.of_nat (length scopes) <= max_index 20 ->
  exists K, set_allowed_calls env m k scopes s = (Ok tt, put_scope (spending_limit_key m k) K s) /\
    tree_ok K /\ is_scoped K = true /\
    scopes_of K = foldl (fun l c => list_upsert c l)
      (scopes_of (get_scope (spending_limit_key m k) s)) scopes.
Proof.
  intros Ht3 Ha Hact Hne Ht Hval Hall Hcap. set (h := spending_limit_key m k) in *.
  destruct (upsert_all_run env scopes (get_scope h s) Ht Hall Hcap) as (K & Hrun & HK & _ & Hs).
  exists (put_is_scoped true K). split; [|split; [by apply put_is_scoped_tree|done]].
  unfold set_allowed_calls. rewrite Ht3. fold h.
  rewrite (bind_run _ _ _ tt s) by done.
  rewrite (bind_run _ _ _ tt s) by (unfold reads; by rewrite (proj2 (ensure_admin_caller_iff _ _ _) Ha)).
  rewrite (bind_run _ _ _ _ s) by (unfold reads; by rewrite load_active_key_run).
  rewrite (bind_run _ _ _ tt s) by (unfold kguard; by rewrite bool_decide_eq_false_2).
  rewrite (bind_run _ _ _ tt s) by (unfold reads; by rewrite Hval).
  rewrite (bind_run _ _ _ tt (put_scope h K s)) by (by apply at_scope_run).
  rewrite (at_scope_run h _ _ (Ok tt) (put_is_scoped true K)) by (by rewrite get_scope_put_eq).
  unfold put_scope. cbn. by rewrite insert_insert_eq.
Qed.
End entry.

(** * Properties *)

(** C5: The call check enforces exactly the published access list: for a live
    session key, [validate_call_scope_for_transaction] accepts a call to
    [target] with data [input] if and only if the list that [get_allowed_calls]
    reports allows it (an unscoped key allows everything; a listed target
    without rules allows every selector; a rule without recipients allows every
    recipient; otherwise the first ABI argument must be a listed address), it
    rejects every other call with [CallNotAllowed], and it always rejects
    contract creation. *)
Theorem call_scope_enforced `{Keccak256} env a k target input s :
  is_t3 (env_spec env) = true -> k <> 0 -> key_active (get_authorized_key a k s) (now env) ->
  tree_ok (get_scope (spending_limit_key a k) s) ->
  exists p, get_allowed_calls env a k s = Ok p /\
    validate_call_scope_for_transaction env a k (Call target) input s =
      (if policy_allows p target input then Ok tt else Err (KeychainErr CallNotAllowed)) /\
    validate_call_scope_for_transaction env a k Create input s = Err (KeychainErr CallNotAllowed).
Proof.
  intros Ht3 Hk Hact Ht. eexists. split; [by apply get_allowed_calls_run|].
  split; [by apply validate_call_scope_run|].
  unfold validate_call_scope_for_transaction. rewrite Ht3.
  destruct (k =? 0) eqn:E; zbool; done.
Qed.

(** [set_allowed_calls] updates the access list target by target: when the
    caller may administer a live key, the scopes are valid and within capacity,
    it succeeds and the list reported afterwards is the previous one with each
    given target's scope replaced, or appended when new; the tree stays well
    formed and no other key's tree, no key and no limit changes. *)
Theorem set_allowed_calls_updates `{Keccak256} env m k scopes s :
  is_t3 (env_spec env) = true -> k <> 0 -> admin_ok env m s ->
  key_active (get_authorized_key m k s) (now env) -> scopes <> [] ->
  tree_ok (get_scope (spending_limit_key m k) s) ->
  validate_call_scopes env scopes = Ok tt ->
  Forall (fun c => validate_call_scope c = Ok tt /\ scope_fits c) scopes ->
  Z.of_nat (length (set_elems (targets (get_scope (spending_limit_key m k) s))))
    + Z.of_nat (length scopes) <= max_index 20 ->
  exists s', set_allowed_calls env m k scopes s = (Ok tt, s') /\
    get_allowed_calls env m k s' =
      Ok (mkAllowedCalls true (foldl (fun l c => list_upsert c l)
            (scopes_of (get_scope (spending_limit_key m k) s)) scopes)) /\
    tree_ok (get_scope (spending_limit_key m k) s') /\
    keys s' = keys s /\ spending_limits s' = spending_limits s /\
    (forall h, h <> spending_limit_key m k -> get_scope h s' = get_scope h s).
Proof.
  intros Ht3 Hk Ha Hact Hne Ht Hval Hall Hcap.
  destruct (set_allowed_calls_run env m k scopes s) as (K & Hrun & HK & Hsc & Hs); try done.
  eexists. split; [done|]. split; [|split; [by rewrite get_scope_put_eq|]].
  - rewrite get_allowed_calls_run; [|done|done|by rewrite get_scope_put_eq].
    rewrite get_scope_put_eq. unfold live_policy. by rewrite Hsc, Hs.
  - split; [done|]. split; [done|]. intros h' Hne'. by apply get_scope_put_ne.
Qed.

(** [remove_allowed_calls] removes exactly one target of a scoped key: it
    succeeds, and afterwards the reported list has the same scopes except that
    of the removed target, which the call check then rejects. *)
Theorem remove_allowed_calls_removes `{Keccak256} env m k target s :
  is_t3 (env_spec env) = true -> k <> 0 -> admin_ok env m s ->
  key_active (get_authorized_key m k s) (now env) ->
  tree_ok (get_scope (spending_limit_key m k) s) ->
  is_scoped (get_scope (spending_limit_key m k) s) = true ->
  exists s' l, remove_allowed_calls env m k target s = (Ok tt, s') /\
    get_allowed_calls env m k s' = Ok (mkAllowedCalls true l) /\
    (forall c, c ∈ l <-> c ∈ scopes_of (get_scope (spending_limit_key m k) s) /\ cs_target c <> target) /\
    (forall input, validate_call_scope_for_transaction env m k (Call target) input s' =
                   Err (KeychainErr CallNotAllowed)).
Proof.
  intros Ht3 Hk Ha Hact Ht Hsc. set (h := spending_limit_key m k) in *.
  destruct (remove_target_scope_run target (get_scope h s) Ht) as (K & Hrun & HK & HscK & Hmem).
  exists (put_scope h K s), (scopes_of K). split; [|split; [|split; [done|]]].
  - unfold remove_allowed_calls. fold h.
    rewrite (bind_run _ _ _ tt s) by (unfold reads; by rewrite (proj2 (ensure_admin_caller_iff _ _ _) Ha)).
    rewrite (bind_run _ _ _ _ s) by (unfold reads; by rewrite load_active_key_run).
    rewrite (bind_run _ _ _ true s) by (unfold gets; by rewrite Hsc).
    cbn [negb]. by apply at_scope_run.
  - rewrite get_allowed_calls_run; [|done|done|by fold h; rewrite get_scope_put_eq].
    fold h. rewrite get_scope_put_eq. unfold live_policy. by rewrite HscK, Hsc.
  - intros input. rewrite validate_call_scope_run; [|done|done|by fold h; rewrite get_scope_put_eq].
    fold h. rewrite get_scope_put_eq. unfold policy_allows, live_policy. rewrite HscK, Hsc.
    cbn [ac_isScoped ac_scopes negb orb]. rewrite policy_scopes_of.
    rewrite bool_decide_eq_false_2; [done|]. rewrite <- scopes_of_targets.
    intros (c & -> & Hc)%list_elem_of_fmap. by apply Hmem in Hc as [_ ?].
Qed.

Module ScopeExample.
Definition hash : Keccak256 := {| keccak256 := be_val |}.
#[local] Existing Instance hash.
Definition env : BlockEnv := mkBlockEnv T5 500.
Definition st0 : AccountKeychain :=
  mkAccountKeychain {[(1, 2) := mkAuthorizedKey 0 1000 true false]} ∅ ∅ ∅ 0 1 [].
Definition scope : CallScope :=
  mkCallScope 7 [mkSelectorRule TIP20_TRANSFER_SELECTOR [8]; mkSelectorRule 5 []].
Definition st : AccountKeychain := (set_allowed_calls env 1 2 [scope] st0).2.

Lemma scope_valid : Forall (fun c => validate_call_scope c = Ok tt /\ scope_fits c) [scope].
Proof.
  apply Forall_cons. split; [|apply Forall_nil; done]. split; [vm_compute; reflexivity|].
  split; [vm_compute; discriminate|].
  apply Forall_cons. split; [vm_compute; discriminate|].
  apply Forall_cons. split; [vm_compute; discriminate|apply Forall_nil; done].
Qed.

Lemma set_allowed_calls_updates_witness :
  exists s', set_allowed_calls env 1 2 [scope] st0 = (Ok tt, s') /\
    get_allowed_calls env 1 2 s' =
      Ok (mkAllowedCalls true (foldl (fun l c => list_upsert c l)
            (scopes_of (get_scope (spending_limit_key 1 2) st0)) [scope])) /\
    tree_ok (get_scope (spending_limit_key 1 2) s') /\
    keys s' = keys st0 /\ spending_limits s' = spending_limits st0 /\
    (forall h, h <> spending_limit_key 1 2 -> get_scope h s' = get_scope h st0).
Proof.
  apply (set_allowed_calls_updates env 1 2 [scope] st0).
  - reflexivity.
  - lia.
  - split; [reflexivity|]. intros _. split; [discriminate|reflexivity].
  - vm_compute. repeat split; discriminate.
  - discriminate.
  - apply tree_ok_default.
  - vm_compute. reflexivity.
  - apply scope_valid.
  - vm_compute. discriminate.
Defined.

Lemma st_tree : tree_ok (get_scope (spending_limit_key 1 2) st) /\
  is_scoped (get_scope (spending_limit_key 1 2) st) = true /\
  keys st = keys st0 /\ transaction_key st = 0 /\ tx_origin st = 1.
Proof.
  destruct (set_allowed_calls_run env 1 2 [scope] st0) as (K & Hrun & HK & Hsc & _).
  - reflexivity.
  - split; [reflexivity|]. intros _. split; [discriminate|reflexivity].
  - vm_compute. repeat split; discriminate.
  - discriminate.
  - apply tree_ok_default.
  - vm_compute. reflexivity.
  - apply scope_valid.
  - vm_compute. discriminate.
  - unfold st. rewrite Hrun. cbn [snd]. rewrite get_scope_put_eq.
    split; [exact HK|]. split; [exact Hsc|]. split; [reflexivity|]. split; reflexivity.
Qed.

Lemma call_scope_enforced_witness :
  exists p, get_allowed_calls env 1 2 st = Ok p /\
    validate_call_scope_for_transaction env 1 2 (Call 7) [0; 0; 0; 5] st =
      (if policy_allows p 7 [0; 0; 0; 5] then Ok tt else Err (KeychainErr CallNotAllowed)) /\
    validate_call_scope_for_transaction env 1 2 Create [0; 0; 0; 5] st = Err (KeychainErr CallNotAllowed).
Proof.
  apply (call_scope_enforced env 1 2 7 [0; 0; 0; 5] st).
  - reflexivity.
  - lia.
  - destruct st_tree as (_ & _ & Hkeys & _). unfold get_authorized_key. rewrite Hkeys.
    vm_compute. repeat split; discriminate.
  - apply st_tree.
Defined.

Lemma remove_allowed_calls_removes_witness :
  exists s' l, remove_allowed_calls env 1 2 7 st = (Ok tt, s') /\
    get_allowed_calls env 1 2 s' = Ok (mkAllowedCalls true l) /\
    (forall c, c ∈ l <-> c ∈ scopes_of (get_scope (spending_limit_key 1 2) st) /\ cs_target c <> 7) /\
    (forall input, validate_call_scope_for_transaction env 1 2 (Call 7) input s' =
                   Err (KeychainErr CallNotAllowed)).
Proof.
  apply (remove_allowed_calls_removes env 1 2 7 st).
  - reflexivity.
  - lia.
  - destruct st_tree as (_ & _ & _ & Htk & Ho). split; [exact Htk|]. intros _. rewrite Ho.
    split; [discriminate|reflexivity].
  - destruct st_tree as (_ & _ & Hkeys & _). unfold get_authorized_key. rewrite Hkeys.
    vm_compute. repeat split; discriminate.
  - apply st_tree.
  - apply st_tree.
Defined.
End ScopeExample.
