(* ===== verification/KeychainAdmin.v ===== *)
(** Administration of session keys ([authorize_key], [revoke_key],
    [update_spending_limit], witnesses) and the keychain as a state machine: its
    operations, the invariant they preserve, and what holds along every
    sequence of them ([account_keychain/mod.rs]). *)

From S2P Require Import Prelude Hardfork Packing Layout StorageVec EnumerableSet Keychain KeychainSpend KeychainScope.

(** * Operations *)

(** The state-changing entry points of the precompile and of the handler, with
    the authenticated caller where the call has one. *)
Inductive kc_op :=
| OpAuthorizeKey (msg_sender key_id : Z) (sig : SignatureType) (config : KeyRestrictions)
    (witness : option Z)
| OpBurnWitness (msg_sender witness : Z)
| OpRevokeKey (msg_sender key_id : Z)
| OpUpdateSpendingLimit (msg_sender key_id token newLimit : Z)
| OpSetAllowedCalls (msg_sender key_id : Z) (scopes : list CallScope)
| OpRemoveAllowedCalls (msg_sender key_id target : Z)
| OpSpend (account key_id token amount : Z)
| OpRefund (account token amount : Z)
| OpAuthorizeTransfer (account token amount : Z)
| OpAuthorizeApprove (account token old_approval new_approval : Z)
| OpSetTransactionKey (key_id : Z)
| OpSetTxOrigin (origin : Z).

(** Unit results carry nothing. *)
Ltac units := repeat match goal with x : unit |- _ => destruct x end.

Section machine.
Context `{Keccak256}.

Definition exec (env : BlockEnv) (op : kc_op) : kio unit :=
  match op with
  | OpAuthorizeKey m k sig config w => authorize_key env m k sig config w
  | OpBurnWitness m w => burn_key_authorization_witness env m w
  | OpRevokeKey m k => revoke_key env m k
  | OpUpdateSpendingLimit m k tok v => update_spending_limit env m k tok v
  | OpSetAllowedCalls m k scopes => set_allowed_calls env m k scopes
  | OpRemoveAllowedCalls m k target => remove_allowed_calls env m k target
  | OpSpend a k tok amt => verify_and_update_spending env a k tok amt
  | OpRefund a tok amt => refund_spending_limit env a tok amt
  | OpAuthorizeTransfer a tok amt => authorize_transfer env a tok amt
  | OpAuthorizeApprove a tok old new => authorize_approve env a tok old new
  | OpSetTransactionKey k => set_transaction_key k
  | OpSetTxOrigin o => set_tx_origin o
  end.

(** A failing call reverts: the journal of the EVM drops its writes. *)
Definition step (env : BlockEnv) (op : kc_op) (s : AccountKeychain) : AccountKeychain :=
  match exec env op s with
  | (Ok _, s') => s'
  | (Err _, _) => s
  end.

Definition run_trace (l : list (BlockEnv * kc_op)) (s : AccountKeychain) : AccountKeychain :=
  foldl (fun s '(env, op) => step env op s) s l.

(** An invariant of successful calls is an invariant of every sequence. *)
Lemma step_invariant (P : AccountKeychain -> Prop) env op s :
  P s -> (forall s', exec env op s = (Ok tt, s') -> P s') -> P (step env op s).
Proof.
  intros Hs Hok. unfold step. destruct (exec env op s) as [[[]|e] s'] eqn:E; [|done]. by apply Hok.
Qed.

Lemma trace_invariant (P : AccountKeychain -> Prop) l s :
  P s -> (forall env op s, (env, op) ∈ l -> P s -> P (step env op s)) -> P (run_trace l s).
Proof.
  revert s. induction l as [|[env op] l IH]; intros s Hs Hstep; [done|]. cbn.
  apply IH; [apply Hstep; set_solver|]. intros. apply Hstep; set_solver.
Qed.

(** * Inverting successful runs *)

Lemma reads_ok_inv {A} (f : AccountKeychain -> res A) s a s' :
  reads f s = (Ok a, s') -> f s = Ok a /\ s' = s.
Proof. unfold reads. intros Heq. by inversion Heq. Qed.

Lemma admin_inv env m s u s' :
  reads (ensure_admin_caller env m) s = (Ok u, s') -> admin_ok env m s /\ s' = s.
Proof.
  intros [Ha ->]%reads_ok_inv. split; [|done]. destruct u. by apply ensure_admin_caller_iff.
Qed.

Lemma active_inv env a k s key s' :
  reads (load_active_key a k (now env)) s = (Ok key, s') ->
  key = get_authorized_key a k s /\ key_active key (now env) /\ s' = s.
Proof. intros [Ha ->]%reads_ok_inv. apply load_active_key_iff in Ha as [??]. auto. Qed.

(** What a run of the scope operations leaves alone: everything but the tree. *)
Definition same_but_scope (h : Z) (s s' : AccountKeychain) : Prop :=
  keys s' = keys s /\ spending_limits s' = spending_limits s /\
  key_authorization_witnesses s' = key_authorization_witnesses s /\
  transaction_key s' = transaction_key s /\ tx_origin s' = tx_origin s /\
  kc_events s' = kc_events s /\
  forall h', h' <> h -> get_scope h' s' = get_scope h' s.

Lemma at_scope_frame {A} h (m : scio A) s r s' :
  at_scope h m s = (r, s') -> same_but_scope h s s' /\ (r, get_scope h s') = m (get_scope h s).
Proof.
  unfold at_scope, zoom. destruct (m (get_scope h s)) as [r0 k0] eqn:E. intros [= <- <-].
  split; [|by rewrite get_scope_put_eq].
  repeat split. intros h' Hne. by apply get_scope_put_ne.
Qed.

(** Storing the initial limits changes only rows of [h]. *)
Definition same_but_limits (h : Z) (s s' : AccountKeychain) : Prop :=
  keys s' = keys s /\ key_scopes s' = key_scopes s /\
  key_authorization_witnesses s' = key_authorization_witnesses s /\
  transaction_key s' = transaction_key s /\ tx_origin s' = tx_origin s /\
  kc_events s' = kc_events s /\
  forall h' t, h' <> h -> get_limit h' t s' = get_limit h' t s.

Lemma same_but_limits_trans h s1 s2 s3 :
  same_but_limits h s1 s2 -> same_but_limits h s2 s3 -> same_but_limits h s1 s3.
Proof.
  intros (A1&A2&A3&A4&A5&A6&A7) (B1&B2&B3&B4&B5&B6&B7).
  repeat split; try congruence. intros h' t Hne. by rewrite B7, A7.
Qed.

Lemma put_limit_frame h t l s : same_but_limits h s (put_limit h t l s).
Proof. repeat split. intros h' t' Hne. apply get_limit_put_ne. congruence. Qed.

Lemma store_initial_limit_inv env h l s u s' :
  store_initial_limit env h l s = (Ok u, s') ->
  same_but_limits h s s' /\ exists row, s' = put_limit h (tl_token l) row s /\
    (is_t3 (env_spec env) = true -> tl_amount l <= U128_MAX /\
       row = mkSpendingLimitState (tl_amount l) (tl_amount l) (tl_period l)
               (if tl_period l =? 0 then 0 else sat_add U64_MAX (now env) (tl_period l))).
Proof.
  unfold store_initial_limit. destruct (is_t3 (env_spec env)) eqn:Et; intros Hrun; stm_inv Hrun.
  - unfold t3_spending_limit_cap in Hrun0. destruct (_ >? _) eqn:E; [done|]. injection Hrun0 as <-.
    zbool. split; [apply put_limit_frame|]. eexists. split; [done|]. auto.
  - split; [apply put_limit_frame|]. eexists. split; [done|]. done.
Qed.

Lemma store_limits_inv env h (ls : list TokenLimit) s u s' :
  for_each ls (store_initial_limit env h) s = (Ok u, s') -> same_but_limits h s s'.
Proof.
  revert s. induction ls as [|l ls IH]; intros s Hrun; cbn [for_each] in Hrun; stm_inv Hrun.
  - by repeat split.
  - apply store_initial_limit_inv in Hrun0 as [H0 _]. eapply same_but_limits_trans; [done|]. by apply IH.
Qed.

(** * Footprints *)

(** Only data of the pair (account [a], key [k]) differs, and no transient or
    witness changes. *)
Record pair_frame (a k : Z) (s s' : AccountKeychain) : Prop := {
  pf_keys : forall a' k', (a', k') <> (a, k) -> get_authorized_key a' k' s' = get_authorized_key a' k' s;
  pf_limits : forall h t, h <> spending_limit_key a k -> get_limit h t s' = get_limit h t s;
  pf_scopes : forall h, h <> spending_limit_key a k -> get_scope h s' = get_scope h s;
  pf_witnesses : key_authorization_witnesses s' = key_authorization_witnesses s;
  pf_tk : transaction_key s' = transaction_key s;
  pf_origin : tx_origin s' = tx_origin s;
}.

Lemma pair_frame_refl a k s : pair_frame a k s s.
Proof. by split. Qed.
Lemma pair_frame_trans a k s1 s2 s3 :
  pair_frame a k s1 s2 -> pair_frame a k s2 s3 -> pair_frame a k s1 s3.
Proof.
  intros [A1 A2 A3 A4 A5 A6] [B1 B2 B3 B4 B5 B6].
  split; intros; rewrite ?B1, ?A1, ?B2, ?A2, ?B3, ?A3 by done; congruence.
Qed.
Lemma pair_frame_put_key a k v s : pair_frame a k s (put_key a k v s).
Proof. split; try done. intros. apply get_key_put_ne. congruence. Qed.
Lemma pair_frame_put_limit a k t l s : pair_frame a k s (put_limit (spending_limit_key a k) t l s).
Proof. split; try done. intros. apply get_limit_put_ne. congruence. Qed.
Lemma pair_frame_event a k e s : pair_frame a k s (emit_event e s).2.
Proof. by split. Qed.
Lemma pair_frame_scope a k s s' : same_but_scope (spending_limit_key a k) s s' -> pair_frame a k s s'.
Proof.
  intros (A1&A2&A3&A4&A5&A6&A7). split; try done.
  - intros. unfold get_authorized_key. by rewrite A1.
  - intros. unfold get_limit. by rewrite A2.
Qed.
Lemma pair_frame_limits a k s s' : same_but_limits (spending_limit_key a k) s s' -> pair_frame a k s s'.
Proof.
  intros (A1&A2&A3&A4&A5&A6&A7). split; try done.
  - intros. unfold get_authorized_key. by rewrite A1.
  - intros. unfold get_scope. by rewrite A2.
Qed.
#[local] Hint Resolve pair_frame_refl pair_frame_put_key pair_frame_put_limit pair_frame_event
  pair_frame_scope pair_frame_limits : sci.

Lemma emit_event_inv e s u s' : emit_event e s = (Ok u, s') -> s' = (emit_event e s).2.
Proof. unfold emit_event, modify. by intros [= _ <-]. Qed.

Lemma apply_restrictions_inv env m k limits calls s u s' :
  apply_key_authorization_restrictions env m k limits calls s = (Ok u, s') ->
  pair_frame m k s s' /\ keys s' = keys s.
Proof.
  unfold apply_key_authorization_restrictions. intros Hrun. stm_inv Hrun.
  apply store_limits_inv in Hrun0 as Hf. pose proof Hf as (Hk & _).
  apply pair_frame_limits in Hf. destruct (negb (is_t3 (env_spec env))); [stm_inv Hrun; done|].
  apply at_scope_frame in Hrun as [Hs _]. pose proof Hs as (Hk' & _). split; [|congruence].
  eapply pair_frame_trans; [done|]. by apply pair_frame_scope.
Qed.

(** What a successful authorization requires and does. *)
Lemma authorize_key_inv env m k sig config w s s' :
  authorize_key env m k sig config w s = (Ok tt, s') ->
  admin_ok env m s /\ k <> 0 /\ (is_t0 (env_spec env) = true -> now env < kr_expiry config) /\
  expiry (get_authorized_key m k s) <= 0 /\ is_revoked (get_authorized_key m k s) = false /\
  (forall x, w = Some x -> is_key_authorization_witness_burned m x s = false) /\
  pair_frame m k s s' /\
  exists code, signature_type_code sig = Ok code /\
    get_authorized_key m k s' = mkAuthorizedKey code (kr_expiry config) (kr_enforceLimits config) false.
Proof.
  unfold authorize_key, kguard. intros Hrun. stm_inv Hrun. units.
  apply ensure_admin_caller_iff in Hrun0.
  apply apply_restrictions_inv in Hrun8 as [Hf Hk8].
  apply emit_event_inv in Hrun as ->.
  assert (pair_frame m k x8 x10 /\ keys x10 = keys x8) as [Hf9 Hk9].
  { destruct w; [apply emit_event_inv in Hrun9 as ->|stm_inv Hrun9]; by split. }
  zbool. split; [done|]. split; [done|]. split; [|split; [done|split; [done|split]]].
  - intros Ht0. rewrite Ht0 in *. cbn [andb] in *. zbool. lia.
  - intros y ->. unfold ensure_key_authorization_witness_not_burned in Hrun7.
    by destruct (is_key_authorization_witness_burned m y s).
  - split.
    + eapply pair_frame_trans; [|apply pair_frame_event].
      eapply pair_frame_trans; [|done]. eapply pair_frame_trans; [|done]. apply pair_frame_put_key.
    + eexists. split; [done|]. unfold get_authorized_key. cbn. rewrite Hk9, Hk8. apply get_key_put_eq.
Qed.

Lemma revoke_key_inv env m k s s' :
  revoke_key env m k s = (Ok tt, s') ->
  admin_ok env m s /\ expiry (get_authorized_key m k s) <> 0 /\ pair_frame m k s s' /\
  get_authorized_key m k s' = mkAuthorizedKey 0 0 false true /\
  spending_limits s' = spending_limits s /\ key_scopes s' = key_scopes s.
Proof.
  unfold revoke_key, kguard. intros Hrun. stm_inv Hrun. units.
  apply ensure_admin_caller_iff in Hrun0. zbool. apply emit_event_inv in Hrun as ->.
  split; [done|]. split; [done|]. split; [|split; [apply get_key_put_eq|done]].
  eapply pair_frame_trans; [apply pair_frame_put_key|apply pair_frame_event].
Qed.

Lemma update_spending_limit_inv env m k tok v s s' :
  update_spending_limit env m k tok v s = (Ok tt, s') ->
  let key := get_authorized_key m k s in
  admin_ok env m s /\ key_active key (now env) /\ pair_frame m k s s' /\
  get_authorized_key m k s' = mkAuthorizedKey (signature_type key) (expiry key) true (is_revoked key) /\
  key_scopes s' = key_scopes s /\
  exists row, (forall t, get_limit (spending_limit_key m k) t s' =
      if decide (t = tok) then row else get_limit (spending_limit_key m k) t s) /\
    (is_t3 (env_spec env) = true -> v <= U128_MAX /\
       row = let l := get_limit (spending_limit_key m k) tok s in
             mkSpendingLimitState v v (period l) (period_end l)).
Proof.
  cbn zeta. unfold update_spending_limit. intros Hrun. stm_inv Hrun. units.
  apply ensure_admin_caller_iff in Hrun0.
  apply load_active_key_iff in Hrun1 as [-> Hact]. set (key := get_authorized_key m k s) in *.
  apply emit_event_inv in Hrun as ->.
  assert (pair_frame m k s x2 /\ key_scopes x2 = key_scopes s /\ spending_limits x2 = spending_limits s /\
    get_authorized_key m k x2 = mkAuthorizedKey (signature_type key) (expiry key) true (is_revoked key))
    as (Hf3 & Hs3 & Hl3 & Hk3).
  { destruct (enforce_limits key) eqn:E; cbn [negb] in Hrun2; stm_inv Hrun2.
    - repeat split. fold key. rewrite <- E. by destruct key.
    - split; [apply pair_frame_put_key|]. repeat split. apply get_key_put_eq. }
  assert (exists row, x4 = put_limit (spending_limit_key m k) tok row x2 /\
    (is_t3 (env_spec env) = true -> v <= U128_MAX /\
       row = let l := get_limit (spending_limit_key m k) tok s in
             mkSpendingLimitState v v (period l) (period_end l))) as (row & -> & Hrow).
  { destruct (is_t3 (env_spec env)) eqn:Et.
    - stm_inv Hrun3. 
      match goal with Hc : t3_spending_limit_cap v = Ok _ |- _ =>
        unfold t3_spending_limit_cap in Hc;
        destruct (v >? U128_MAX) eqn:E; [discriminate Hc|injection Hc as <-] end.
      zbool. eexists. split; [done|]. intros _. split; [done|].
      unfold get_limit. by rewrite Hl3.
    - stm_inv Hrun3. eexists. split; [done|done]. }
  split; [done|]. split; [done|]. split; [|split; [|split; [done|]]].
  - eapply pair_frame_trans; [|apply pair_frame_event].
    eapply pair_frame_trans; [done|apply pair_frame_put_limit].
  - done.
  - exists row. split; [|done]. intros t. case_decide as Ht.
    + subst t. apply get_limit_put_eq.
    + transitivity (get_limit (spending_limit_key m k) t x2).
      * apply get_limit_put_ne. congruence.
      * unfold get_limit. by rewrite Hl3.
Qed.

Lemma set_allowed_calls_inv env m k scopes s s' :
  set_allowed_calls env m k scopes s = (Ok tt, s') ->
  admin_ok env m s /\ key_active (get_authorized_key m k s) (now env) /\ pair_frame m k s s' /\
  keys s' = keys s /\ spending_limits s' = spending_limits s /\
  validate_call_scopes env scopes = Ok tt /\
  exists K, for_each scopes (upsert_target_scope env) (get_scope (spending_limit_key m k) s) = (Ok tt, K) /\
    get_scope (spending_limit_key m k) s' = put_is_scoped true K.
Proof.
  unfold set_allowed_calls, kguard. intros Hrun. stm_inv Hrun. units.
  apply ensure_admin_caller_iff in Hrun1. apply load_active_key_iff in Hrun2 as [-> Hact].
  apply at_scope_frame in Hrun5 as [Hf5 HK]. apply at_scope_frame in Hrun as [Hf HK'].
  split; [done|]. split; [done|]. split; [|split; [|split; [|split; [done|]]]].
  - eapply pair_frame_trans; by apply pair_frame_scope.
  - destruct Hf as [-> _], Hf5 as [-> _]. done.
  - destruct Hf as (_ & -> & _), Hf5 as (_ & -> & _). done.
  - eexists. split; [by rewrite <- HK|]. by injection HK' as ->.
Qed.

Lemma remove_allowed_calls_inv env m k t s s' :
  remove_allowed_calls env m k t s = (Ok tt, s') ->
  admin_ok env m s /\ key_active (get_authorized_key m k s) (now env) /\ pair_frame m k s s' /\
  keys s' = keys s /\ spending_limits s' = spending_limits s /\
  (s' = s \/ remove_target_scope t (get_scope (spending_limit_key m k) s)
             = (Ok tt, get_scope (spending_limit_key m k) s')).
Proof.
  unfold remove_allowed_calls. intros Hrun. stm_inv Hrun. units.
  apply ensure_admin_caller_iff in Hrun0. apply load_active_key_iff in Hrun1 as [-> Hact].
  split; [done|]. split; [done|].
  destruct (negb _); [stm_inv Hrun; repeat split; auto|].
  apply at_scope_frame in Hrun as [Hf HK]. split; [by apply pair_frame_scope|].
  destruct Hf as (-> & -> & _). auto.
Qed.

Lemma burn_witness_inv env m w s s' :
  burn_key_authorization_witness env m w s = (Ok tt, s') ->
  is_key_authorization_witness_burned m w s = false /\
  s' = (emit_event (EvKeyAuthorizationWitnessBurned m w) (put_witness m w true s)).2 /\
  (is_t2 (env_spec env) = true -> tx_origin s = m).
Proof.
  unfold burn_key_authorization_witness, burn_key_authorization_witness_value.
  intros Hrun. stm_inv Hrun. units. apply emit_event_inv in Hrun as ->.
  unfold ensure_key_authorization_witness_not_burned in Hrun1.
  destruct (is_key_authorization_witness_burned m w s); [done|]. split; [done|]. split; [done|].
  intros Ht2. unfold ensure_account_caller in Hrun0. rewrite Ht2 in Hrun0.
  destruct (tx_origin s =? m) eqn:E; zbool; [done|]. rewrite orb_true_r in Hrun0.
  unfold mbind, result_bind in Hrun0. by repeat case_match.
Qed.

(** Operations on limits: keys, trees and witnesses stay. *)
Definition limits_only (a k : Z) (s s' : AccountKeychain) : Prop :=
  pair_frame a k s s' /\ keys s' = keys s /\ key_scopes s' = key_scopes s.

Lemma limits_only_refl a k s : limits_only a k s s.
Proof. by repeat split. Qed.
Lemma limits_only_put a k t l s : limits_only a k s (put_limit (spending_limit_key a k) t l s).
Proof. split; [apply pair_frame_put_limit|done]. Qed.
Lemma limits_only_event a k e s s' : limits_only a k s s' -> limits_only a k s (emit_event e s').2.
Proof.
  intros (Hf & Hk & Hs). split; [|done]. eapply pair_frame_trans; [done|apply pair_frame_event].
Qed.
#[local] Hint Resolve limits_only_refl limits_only_put limits_only_event : sci.

Lemma spend_frame env a k tok amt s s' :
  verify_and_update_spending env a k tok amt s = (Ok tt, s') -> limits_only a k s s'.
Proof.
  unfold verify_and_update_spending, kguard. intros Hrun.
  destruct (k =? 0); [stm_inv Hrun; auto with sci|]. stm_inv Hrun.
  destruct (negb (enforce_limits x)); [stm_inv Hrun; auto with sci|].
  destruct (negb (is_t3 (env_spec env))); stm_inv Hrun.
  - unfold set_limit_remaining. auto with sci.
  - apply emit_event_inv in Hrun as ->. apply limits_only_event.
    destruct (period (get_limit (spending_limit_key a k) tok s) =? 0); cbn [negb] in *;
      match goal with Hm : modify _ _ = _ |- _ => stm_inv Hm end; unfold set_limit_remaining; auto with sci.
Qed.

Lemma refund_frame env a tok amt s s' :
  refund_spending_limit env a tok amt s = (Ok tt, s') -> limits_only a (transaction_key s) s s'.
Proof.
  unfold refund_spending_limit. intros Hrun. stm_inv Hrun.
  destruct (transaction_key s =? 0); [stm_inv Hrun; auto with sci|]. stm_inv Hrun.
  destruct (negb (a =? tx_origin s)); [stm_inv Hrun; auto with sci|]. stm_inv Hrun.
  destruct (load_active_key a (transaction_key s) (now env) s) as [key|e].
  2: { destruct (is_system_error e); stm_inv Hrun; auto with sci. }
  destruct (negb (enforce_limits key)); [stm_inv Hrun; auto with sci|].
  destruct (negb (is_t3 (env_spec env))); stm_inv Hrun; unfold set_limit_remaining; auto with sci.
Qed.

Lemma transfer_frame env a tok amt s s' :
  authorize_transfer env a tok amt s = (Ok tt, s') -> limits_only a (transaction_key s) s s'.
Proof.
  unfold authorize_transfer. intros Hrun. stm_inv Hrun.
  destruct (transaction_key s =? 0); [stm_inv Hrun; auto with sci|]. stm_inv Hrun.
  destruct (negb (a =? tx_origin s)); [stm_inv Hrun; auto with sci|]. by eapply spend_frame.
Qed.

Lemma approve_frame env a tok old new s s' :
  authorize_approve env a tok old new s = (Ok tt, s') -> limits_only a (transaction_key s) s s'.
Proof.
  unfold authorize_approve. intros Hrun. stm_inv Hrun.
  destruct (transaction_key s =? 0); [stm_inv Hrun; auto with sci|]. stm_inv Hrun.
  destruct (negb (a =? tx_origin s)); [stm_inv Hrun; auto with sci|].
  destruct (sat_sub new old =? 0); [stm_inv Hrun; auto with sci|]. by eapply spend_frame.
Qed.

(** * Who may change what *)

(** The account on whose behalf an administrative operation acts. *)
Definition op_admin (op : kc_op) : option Z :=
  match op with
  | OpAuthorizeKey m _ _ _ _ | OpRevokeKey m _ | OpUpdateSpendingLimit m _ _ _
  | OpSetAllowedCalls m _ _ | OpRemoveAllowedCalls m _ _ => Some m
  | _ => None
  end.

(** The account whose limits an operation may consume or restore. *)
Definition op_spender (op : kc_op) : option Z :=
  match op with
  | OpSpend a _ _ _ | OpRefund a _ _ | OpAuthorizeTransfer a _ _ | OpAuthorizeApprove a _ _ _ => Some a
  | _ => None
  end.

(** The (account, key) pair whose rows an operation works on. *)
Definition op_pair (op : kc_op) (s : AccountKeychain) : option (Z * Z) :=
  match op with
  | OpAuthorizeKey m k _ _ _ | OpRevokeKey m k | OpUpdateSpendingLimit m k _ _
  | OpSetAllowedCalls m k _ | OpRemoveAllowedCalls m k _ | OpSpend m k _ _ => Some (m, k)
  | OpRefund a _ _ | OpAuthorizeTransfer a _ _ | OpAuthorizeApprove a _ _ _ => Some (a, transaction_key s)
  | OpBurnWitness _ _ | OpSetTransactionKey _ | OpSetTxOrigin _ => None
  end.

(** Every successful operation is an administrative one by the root key of its
    account, a limit update of one pair, or touches neither keys, limits nor
    scopes. *)
Lemma exec_class env op s s' :
  exec env op s = (Ok tt, s') ->
  (exists m k, op_pair op s = Some (m, k) /\ op_admin op = Some m /\ admin_ok env m s /\
     pair_frame m k s s') \/
  (exists a k, op_pair op s = Some (a, k) /\ op_spender op = Some a /\ limits_only a k s s') \/
  (keys s' = keys s /\ spending_limits s' = spending_limits s /\ key_scopes s' = key_scopes s).
Proof.
  destruct op; cbn [exec op_admin op_spender op_pair]; intros Hrun.
  - left. apply authorize_key_inv in Hrun as (? & ? & ? & ? & ? & ? & ? & ?). eauto 8.
  - right. right. by apply burn_witness_inv in Hrun as (_ & -> & _).
  - left. apply revoke_key_inv in Hrun as (? & ? & ? & ?). eauto 8.
  - left. apply update_spending_limit_inv in Hrun as (? & ? & ? & ?). eauto 8.
  - left. apply set_allowed_calls_inv in Hrun as (? & ? & ? & ?). eauto 8.
  - left. apply remove_allowed_calls_inv in Hrun as (? & ? & ? & ?). eauto 8.
  - right. left. apply spend_frame in Hrun. eauto 8.
  - right. left. apply refund_frame in Hrun. eauto 8.
  - right. left. apply transfer_frame in Hrun. eauto 8.
  - right. left. apply approve_frame in Hrun. eauto 8.
  - right. right. unfold set_transaction_key in Hrun. by stm_inv Hrun.
  - right. right. unfold set_tx_origin in Hrun. by stm_inv Hrun.
Qed.

(** How the record of one key may change. *)
Lemma exec_key env op s s' a k :
  exec env op s = (Ok tt, s') ->
  let v := get_authorized_key a k s in let v' := get_authorized_key a k s' in
  v' = v \/
  (op_admin op = Some a /\ admin_ok env a s /\
   ((is_revoked v = false /\ expiry v <= 0 /\ is_revoked v' = false) \/
    (is_revoked v' = true /\ expiry v' = 0) \/
    v' = mkAuthorizedKey (signature_type v) (expiry v) true (is_revoked v))).
Proof.
  intros Hrun. cbn zeta. destruct op; cbn [exec op_admin] in *.
  - apply authorize_key_inv in Hrun as (Ha & _ & _ & He & Hr & _ & Hf & code & _ & Hk).
    destruct (decide ((a, k) = (msg_sender, key_id))) as [[= -> ->]|Hne]; [|left; by apply Hf].
    right. split; [done|]. split; [done|]. left. by rewrite Hk.
  - left. by apply burn_witness_inv in Hrun as (_ & -> & _).
  - apply revoke_key_inv in Hrun as (Ha & _ & Hf & Hk & _).
    destruct (decide ((a, k) = (msg_sender, key_id))) as [[= -> ->]|Hne]; [|left; by apply Hf].
    right. split; [done|]. split; [done|]. right. left. by rewrite Hk.
  - apply update_spending_limit_inv in Hrun as (Ha & _ & Hf & Hk & _).
    destruct (decide ((a, k) = (msg_sender, key_id))) as [[= -> ->]|Hne]; [|left; by apply Hf].
    right. split; [done|]. split; [done|]. right. by right.
  - left. apply set_allowed_calls_inv in Hrun as (_ & _ & _ & Hk & _). unfold get_authorized_key. by rewrite Hk.
  - left. apply remove_allowed_calls_inv in Hrun as (_ & _ & _ & Hk & _). unfold get_authorized_key. by rewrite Hk.
  - left. apply spend_frame in Hrun as (_ & Hk & _). unfold get_authorized_key. by rewrite Hk.
  - left. apply refund_frame in Hrun as (_ & Hk & _). unfold get_authorized_key. by rewrite Hk.
  - left. apply transfer_frame in Hrun as (_ & Hk & _). unfold get_authorized_key. by rewrite Hk.
  - left. apply approve_frame in Hrun as (_ & Hk & _). unfold get_authorized_key. by rewrite Hk.
  - left. unfold set_transaction_key in Hrun. by stm_inv Hrun.
  - left. unfold set_tx_origin in Hrun. by stm_inv Hrun.
Qed.

Lemma exec_witness env op s s' m w :
  exec env op s = (Ok tt, s') ->
  is_key_authorization_witness_burned m w s = true -> is_key_authorization_witness_burned m w s' = true.
Proof.
  intros Hrun Hb. unfold is_key_authorization_witness_burned in *.
  assert (key_authorization_witnesses s' = key_authorization_witnesses s -> 
    dget false (key_authorization_witnesses s') (m, w) = true) as Hsame by (by intros ->).
  destruct op; cbn [exec] in Hrun.
  - apply authorize_key_inv in Hrun as (_ & _ & _ & _ & _ & _ & Hf & _). apply Hsame, Hf.
  - apply burn_witness_inv in Hrun as (_ & -> & _). unfold dget. cbn.
    rewrite lookup_insert. by case_decide.
  - apply revoke_key_inv in Hrun as (_ & _ & Hf & _). apply Hsame, Hf.
  - apply update_spending_limit_inv in Hrun as (_ & _ & Hf & _). apply Hsame, Hf.
  - apply set_allowed_calls_inv in Hrun as (_ & _ & Hf & _). apply Hsame, Hf.
  - apply remove_allowed_calls_inv in Hrun as (_ & _ & Hf & _). apply Hsame, Hf.
  - apply spend_frame in Hrun as (Hf & _). apply Hsame, Hf.
  - apply refund_frame in Hrun as (Hf & _). apply Hsame, Hf.
  - apply transfer_frame in Hrun as (Hf & _). apply Hsame, Hf.
  - apply approve_frame in Hrun as (Hf & _). apply Hsame, Hf.
  - unfold set_transaction_key in Hrun. stm_inv Hrun. by apply Hsame.
  - unfold set_tx_origin in Hrun. stm_inv Hrun. by apply Hsame.
Qed.

(** * The invariant *)

Record kc_ok (s : AccountKeychain) : Prop := {
  ko_keys : forall a k, key_ok (get_authorized_key a k s);
  ko_rows : forall h t, row_ok (get_limit h t s);
  ko_trees : forall h, tree_ok (get_scope h s);
}.

(** Arguments within the ranges of their Rust types. *)
Definition op_fits (op : kc_op) : Prop :=
  match op with
  | OpAuthorizeKey _ _ _ config _ =>
      fits U64_MAX (kr_expiry config) /\
      Forall (fun l => fits U256_MAX (tl_amount l) /\ fits U64_MAX (tl_period l)) (kr_limits config) /\
      Forall scope_fits (kr_allowedCalls config)
  | OpUpdateSpendingLimit _ _ _ v => fits U256_MAX v
  | OpSetAllowedCalls _ _ scopes => Forall scope_fits scopes
  | OpSpend _ _ _ amt | OpRefund _ _ amt | OpAuthorizeTransfer _ _ amt => fits U256_MAX amt
  | _ => True
  end.

Definition env_ok (env : BlockEnv) : Prop := is_t3 (env_spec env) = true /\ 0 <= env_timestamp env.

Lemma now_fits env : env_ok env -> fits U64_MAX (now env).
Proof. intros [_ Ht]. unfold now, fits, U64_MAX. lia. Qed.

Lemma kc_ok_put_limit h t l s : kc_ok s -> row_ok l -> kc_ok (put_limit h t l s).
Proof.
  intros [Hk Hr Ht] Hl. split; try done. intros h' t'.
  destruct (decide ((h, t) = (h', t'))) as [[= <- <-]|Hne];
    [by rewrite get_limit_put_eq|by rewrite get_limit_put_ne].
Qed.
Lemma kc_ok_put_key a k v s : kc_ok s -> key_ok v -> kc_ok (put_key a k v s).
Proof.
  intros [Hk Hr Ht] Hv. split; try done. intros a' k'.
  destruct (decide ((a, k) = (a', k'))) as [[= <- <-]|Hne];
    [by rewrite get_key_put_eq|by rewrite get_key_put_ne].
Qed.
Lemma kc_ok_event e s : kc_ok s -> kc_ok (emit_event e s).2.
Proof. intros [Hk Hr Ht]. by split. Qed.
Lemma kc_ok_scope h s s' :
  kc_ok s -> same_but_scope h s s' -> tree_ok (get_scope h s') -> kc_ok s'.
Proof.
  intros [Hk Hr Ht] (A1&A2&_&_&_&_&A7) Htree. split.
  - intros a k. unfold get_authorized_key. rewrite A1. apply Hk.
  - intros h' t. unfold get_limit. rewrite A2. apply Hr.
  - intros h'. destruct (decide (h' = h)) as [->|Hne]; [done|]. rewrite A7 by done. apply Ht.
Qed.

Lemma initial_limits_ok env h (ls : list TokenLimit) s u s' :
  env_ok env -> Forall (fun l => fits U256_MAX (tl_amount l) /\ fits U64_MAX (tl_period l)) ls ->
  kc_ok s -> for_each ls (store_initial_limit env h) s = (Ok u, s') -> kc_ok s'.
Proof.
  intros Henv Hls. revert s. induction Hls as [|l ls [Ha Hp] Hls IH]; intros s Hs Hrun;
    cbn [for_each] in Hrun; stm_inv Hrun; [done|].
  apply store_initial_limit_inv in Hrun0 as [_ (row & -> & Hrow)].
  destruct (Hrow (proj1 Henv)) as [Hmax ->]. eapply IH; [|done]. apply kc_ok_put_limit; [done|].
  pose proof (now_fits env Henv). unfold row_ok, limit_ok, fits, sat_add in *. cbn.
  destruct (tl_period l =? 0); unfold U128_MAX, U64_MAX, U256_MAX in *; lia.
Qed.

Lemma signature_type_code_fits sig code : signature_type_code sig = Ok code -> fits U8_MAX code.
Proof. unfold fits, U8_MAX. destruct sig; intros [= <-]; lia. Qed.

Lemma authorize_kc_ok env m k sig config w s s' :
  env_ok env -> op_fits (OpAuthorizeKey m k sig config w) -> kc_ok s ->
  authorize_key env m k sig config w s = (Ok tt, s') -> kc_ok s'.
Proof.
  intros Henv (He & Hl & Hc) Hs. unfold authorize_key, kguard. intros Hrun. stm_inv Hrun. units.
  apply emit_event_inv in Hrun as ->. apply kc_ok_event.
  assert (x10 = x8 \/ exists y, x10 = (emit_event (EvKeyAuthorizationWitness m y) x8).2) as Hx.
  { destruct w as [y|]; [right; exists y; by apply emit_event_inv in Hrun9|].
    left. by stm_inv Hrun9. }
  assert (kc_ok x8) as H8; [|destruct Hx as [->|[y ->]]; [done|by apply kc_ok_event]].
  unfold apply_key_authorization_restrictions in Hrun8. stm_inv Hrun8.
  rewrite (proj1 Henv) in Hrun8. cbn [negb] in Hrun8.
  apply signature_type_code_fits in Hrun5 as Hcode.
  match goal with Hf : for_each _ _ _ = _ |- _ => eapply initial_limits_ok in Hf as Hx9; [|done| |] end.
  - apply at_scope_frame in Hrun8 as [Hframe Hrep].
    eapply kc_ok_scope; [exact Hx9|exact Hframe|].
    eapply replace_allowed_calls_ok; [apply Hx9| |symmetry; exact Hrep].
    intros l ->. unfold allowed_call_configs in Hrun6. rewrite (proj1 Henv) in Hrun6.
    unfold mbind, result_bind in Hrun6. destruct (if kr_enforceLimits config then _ else _); [|done].
    injection Hrun6 as Heq. destruct (kr_allowAnyCalls config); [done|]. by injection Heq as <-.
  - destruct (kr_enforceLimits config); [done|constructor].
  - apply kc_ok_put_key; [done|]. split; [done|]. done.
Qed.

Lemma with_remaining_ok l v : row_ok l -> 0 <= v <= remaining l -> row_ok (with_remaining l v).
Proof.
  intros [(Hr & Hm & Hp & He) Hle] Hv. unfold row_ok, limit_ok, fits, with_remaining in *. cbn. lia.
Qed.

Lemma spend_kc_ok env a k tok amt s s' :
  env_ok env -> 0 <= amt -> kc_ok s ->
  verify_and_update_spending env a k tok amt s = (Ok tt, s') -> kc_ok s'.
Proof.
  intros Henv Hamt Hs Hrun. destruct (decide (k = 0)) as [->|Hk].
  { unfold verify_and_update_spending in Hrun. cbn in Hrun. by injection Hrun as <-. }
  destruct (load_active_key a k (now env) s) as [key|e] eqn:Hload.
  2: { unfold verify_and_update_spending in Hrun. destruct (k =? 0) eqn:E; zbool; [done|].
       erewrite bind_run_err in Hrun; [done|]. unfold reads. by rewrite Hload. }
  apply load_active_key_iff in Hload as [-> Hact].
  destruct (enforce_limits (get_authorized_key a k s)) eqn:Hen.
  - rewrite verify_run in Hrun by (done || apply Henv).
    destruct (amt <=? _) eqn:E; [|done]. injection Hrun as <-. zbool. apply kc_ok_event.
    apply kc_ok_put_limit; [done|].
    set (l := get_limit (spending_limit_key a k) tok s) in *.
    assert (row_ok (row_at l (now env))) as Hrow.
    { apply row_at_ok; [apply Hs|]. pose proof (now_fits env Henv). destruct Hact as (_ & _ & Hlt).
      destruct (ko_keys s Hs a k) as [_ Hexp]. unfold fits in *. lia. }
    apply with_remaining_ok; [done|]. destruct Hrow as [(Hr & _) _]. unfold fits in Hr. lia.
  - unfold verify_and_update_spending in Hrun. destruct (k =? 0) eqn:E; zbool; [done|].
    rewrite (bind_run _ _ _ (get_authorized_key a k s) s) in Hrun
      by (unfold reads; by rewrite load_active_key_run).
    rewrite Hen in Hrun. cbn [negb] in Hrun. by stm_inv Hrun.
Qed.

Lemma refund_kc_ok env a tok amt s s' :
  env_ok env -> 0 <= amt -> kc_ok s ->
  refund_spending_limit env a tok amt s = (Ok tt, s') -> kc_ok s'.
Proof.
  intros Henv Hamt Hs Hrun. unfold refund_spending_limit in Hrun. stm_inv Hrun.
  destruct (transaction_key s =? 0); [by stm_inv Hrun|]. stm_inv Hrun.
  destruct (negb (a =? tx_origin s)); [by stm_inv Hrun|]. stm_inv Hrun.
  destruct (load_active_key a (transaction_key s) (now env) s) as [key|e].
  2: { by destruct (is_system_error e); stm_inv Hrun. }
  destruct (negb (enforce_limits key)); [by stm_inv Hrun|].
  rewrite (proj1 Henv) in Hrun. cbn [negb] in Hrun. stm_inv Hrun. apply kc_ok_put_limit; [done|].
  destruct (ko_rows s Hs (spending_limit_key a (transaction_key s)) tok) as [(Hr & Hm & Hp & He) Hle].
  unfold row_ok, limit_ok, fits, sat_add, U128_MAX, U256_MAX in *. cbn.
  destruct (max _ =? 0) eqn:E; zbool; lia.
Qed.

Lemma exec_kc_ok env op s s' :
  env_ok env -> op_fits op -> kc_ok s -> exec env op s = (Ok tt, s') -> kc_ok s'.
Proof.
  intros Henv Hfit Hs Hrun. destruct op; cbn [exec op_fits] in *.
  - by eapply authorize_kc_ok.
  - apply burn_witness_inv in Hrun as (_ & -> & _). apply kc_ok_event. destruct Hs. by split.
  - unfold revoke_key, kguard in Hrun. stm_inv Hrun. apply emit_event_inv in Hrun as ->.
    apply kc_ok_event, kc_ok_put_key; [done|]. unfold key_ok, fits, U8_MAX, U64_MAX. cbn. lia.
  - pose proof Hrun as Hinv. apply update_spending_limit_inv in Hinv as (_ & _ & Hf & Hk & Hsc & row & Hl & Hrow).
    destruct (Hrow (proj1 Henv)) as [Hv Hrw]. split.
    + intros a k. destruct (decide ((a, k) = (msg_sender, key_id))) as [[= -> ->]|Hne].
      * rewrite Hk. apply (ko_keys s Hs).
      * rewrite (pf_keys _ _ _ _ Hf) by done. apply Hs.
    + intros h t. destruct (decide (h = spending_limit_key msg_sender key_id)) as [->|Hne].
      * rewrite Hl. case_decide; [|apply Hs]. subst row. unfold row_ok, limit_ok, fits in *.
        destruct (ko_rows s Hs (spending_limit_key msg_sender key_id) token) as [(_ & _ & Hp & He) _].
        unfold fits in *. cbn. unfold U128_MAX, U256_MAX in *. lia.
      * rewrite (pf_limits _ _ _ _ Hf) by done. apply Hs.
    + intros h. unfold get_scope. rewrite Hsc. apply Hs.
  - apply set_allowed_calls_inv in Hrun as (_ & _ & Hf & Hk & Hl & Hval & K & HK & Hsc).
    split.
    + intros a k. unfold get_authorized_key. rewrite Hk. apply Hs.
    + intros h t. unfold get_limit. rewrite Hl. apply Hs.
    + intros h. destruct (decide (h = spending_limit_key msg_sender key_id)) as [->|Hne].
      * rewrite Hsc. apply put_is_scoped_tree. eapply upsert_all_ok; [apply Hs|exact Hfit| |exact HK].
        by apply check_call_scopes_ok in Hval as (_ & _ & ?).
      * rewrite (pf_scopes _ _ _ _ Hf) by done. apply Hs.
  - apply remove_allowed_calls_inv in Hrun as (_ & _ & Hf & Hk & Hl & [->|HK]); [done|].
    split.
    + intros a k. unfold get_authorized_key. rewrite Hk. apply Hs.
    + intros h t. unfold get_limit. rewrite Hl. apply Hs.
    + intros h. destruct (decide (h = spending_limit_key msg_sender key_id)) as [->|Hne].
      * destruct (remove_target_scope_run target _ (ko_trees s Hs (spending_limit_key msg_sender key_id)))
          as (K & Hrun & HKok & _). rewrite Hrun in HK. by injection HK as <-.
      * rewrite (pf_scopes _ _ _ _ Hf) by done. apply Hs.
  - eapply spend_kc_ok; [done|apply Hfit|done|done].
  - eapply refund_kc_ok; [done|apply Hfit|done|done].
  - unfold authorize_transfer in Hrun. stm_inv Hrun.
    destruct (transaction_key s =? 0); [by stm_inv Hrun|]. stm_inv Hrun.
    destruct (negb (account =? tx_origin s)); [by stm_inv Hrun|].
    eapply spend_kc_ok; [done|apply Hfit|done|done].
  - unfold authorize_approve in Hrun. stm_inv Hrun.
    destruct (transaction_key s =? 0); [by stm_inv Hrun|]. stm_inv Hrun.
    destruct (negb (account =? tx_origin s)); [by stm_inv Hrun|].
    destruct (sat_sub new_approval old_approval =? 0); [by stm_inv Hrun|].
    eapply spend_kc_ok; [done| |done|done]. unfold sat_sub. lia.
  - unfold set_transaction_key in Hrun. stm_inv Hrun. destruct Hs. by split.
  - unfold set_tx_origin in Hrun. stm_inv Hrun. destruct Hs. by split.
Qed.

Lemma kc_ok_empty : kc_ok empty_keychain.
Proof.
  split; intros; unfold get_authorized_key, get_limit, get_scope, dget; cbn; rewrite lookup_empty; cbn.
  - unfold key_ok, fits, U8_MAX, U64_MAX. cbn. lia.
  - unfold row_ok, limit_ok, fits, U64_MAX, U128_MAX, U256_MAX. cbn. lia.
  - apply tree_ok_default.
Qed.

(** * Successful authorization *)

Lemma check_unique_tokens_iff seen ls :
  (NoDup (tl_token <$> ls) /\ forall t, t ∈ tl_token <$> ls -> t ∉ seen) ->
  check_unique_tokens seen ls = Ok tt.
Proof.
  revert seen. induction ls as [|l ls IH]; intros seen [Hnd Hseen]; [done|].
  rewrite fmap_cons in Hnd, Hseen. apply NoDup_cons in Hnd as [Hnin Hnd]. cbn [check_unique_tokens].
  rewrite bool_decide_eq_false_2 by (apply Hseen; set_solver).
  apply IH. split; [done|]. intros t Ht. assert (t ∉ seen) by (apply Hseen; set_solver). set_solver.
Qed.

(** The row a fresh limit is stored as. *)
Definition initial_row (env : BlockEnv) (l : TokenLimit) : SpendingLimitState :=
  mkSpendingLimitState (tl_amount l) (tl_amount l) (tl_period l)
    (if tl_period l =? 0 then 0 else sat_add U64_MAX (now env) (tl_period l)).

Lemma store_limits_run env h (ls : list TokenLimit) s :
  is_t3 (env_spec env) = true -> NoDup (tl_token <$> ls) ->
  Forall (fun l => tl_amount l <= U128_MAX) ls ->
  exists s', for_each ls (store_initial_limit env h) s = (Ok tt, s') /\ same_but_limits h s s' /\
    (forall l, l ∈ ls -> get_limit h (tl_token l) s' = initial_row env l) /\
    (forall t, t ∉ tl_token <$> ls -> get_limit h t s' = get_limit h t s).
Proof.
  intros Ht3 Hnd Hls. revert s Hnd. induction Hls as [|l ls Hl Hls IH]; intros s Hnd.
  { exists s. split; [done|]. split; [by repeat split|]. split; [set_solver|done]. }
  rewrite fmap_cons in Hnd. apply NoDup_cons in Hnd as [Hnin Hnd].
  destruct (IH (put_limit h (tl_token l) (initial_row env l) s) Hnd) as (s' & Hrun & Hf & Hin & Hout).
  exists s'. split; [|split; [|split]].
  - cbn [for_each]. rewrite (bind_run _ _ _ tt (put_limit h (tl_token l) (initial_row env l) s)); [done|].
    unfold store_initial_limit. rewrite Ht3. unfold t3_spending_limit_cap.
    destruct (tl_amount l >? U128_MAX) eqn:E; zbool; [lia|done].
  - eapply same_but_limits_trans; [apply put_limit_frame|done].
  - intros l' [->|Hl']%elem_of_cons; [|by apply Hin].
    rewrite Hout by done. apply get_limit_put_eq.
  - intros t Ht. rewrite Hout by set_solver. apply get_limit_put_ne. set_solver.
Qed.

(** The arguments of [authorize_key] are acceptable in state [s]. *)
Record authorizable (env : BlockEnv) (m k : Z) (config : KeyRestrictions) (w : option Z)
    (s : AccountKeychain) : Prop := {
  au_t3 : is_t3 (env_spec env) = true;
  au_admin : admin_ok env m s;
  au_key : k <> 0;
  au_expiry : now env < kr_expiry config;
  au_fresh : expiry (get_authorized_key m k s) = 0 /\ is_revoked (get_authorized_key m k s) = false;
  au_tokens : kr_enforceLimits config = true -> NoDup (tl_token <$> kr_limits config);
  au_amounts : Forall (fun l => tl_amount l <= U128_MAX) (kr_limits config);
  au_witness : forall x, w = Some x -> is_key_authorization_witness_burned m x s = false;
  au_tree : tree_ok (get_scope (spending_limit_key m k) s);
  au_calls : kr_allowAnyCalls config = false -> scopes_storable env (kr_allowedCalls config);
}.

Lemma authorize_key_run env m k sig code config w s :
  authorizable env m k config w s -> signature_type_code sig = Ok code ->
  exists s', authorize_key env m k sig config w s = (Ok tt, s') /\
    get_authorized_key m k s' = mkAuthorizedKey code (kr_expiry config) (kr_enforceLimits config) false /\
    (kr_enforceLimits config = true -> forall l, l ∈ kr_limits config ->
       get_limit (spending_limit_key m k) (tl_token l) s' = initial_row env l) /\
    (forall t, (kr_enforceLimits config = true -> t ∉ tl_token <$> kr_limits config) ->
       get_limit (spending_limit_key m k) t s' = get_limit (spending_limit_key m k) t s) /\
    tree_ok (get_scope (spending_limit_key m k) s') /\
    live_policy (get_scope (spending_limit_key m k) s') =
      (if kr_allowAnyCalls config then mkAllowedCalls false []
       else mkAllowedCalls true (kr_allowedCalls config)).
Proof.
  intros [Ht3 Hadm Hk Hexp [Hfe Hfr] Htok Hamt Hw Htree Hcalls] Hcode.
  set (h := spending_limit_key m k) in *.
  set (calls := if kr_allowAnyCalls config then None else Some (kr_allowedCalls config)).
  set (limits := if kr_enforceLimits config then kr_limits config else []).
  set (s1 := put_key m k (mkAuthorizedKey code (kr_expiry config) (kr_enforceLimits config) false) s).
  destruct (store_limits_run env h limits s1 Ht3) as (s2 & Hrun2 & Hf2 & Hin2 & Hout2).
  { unfold limits. destruct (kr_enforceLimits config); [by apply Htok|constructor]. }
  { unfold limits. destruct (kr_enforceLimits config); [done|constructor]. }
  pose proof Hf2 as (Hk2 & Hs2 & _).
  assert (get_scope h s2 = get_scope h s) as Hgs by (unfold get_scope; by rewrite Hs2).
  destruct (replace_allowed_calls_run env (get_scope h s2) calls) as (K & HrunK & HK & Hsc & HsK).
  { by rewrite Hgs. }
  { intros l Hl. unfold calls in Hl. destruct (kr_allowAnyCalls config); [done|].
    injection Hl as <-. by apply Hcalls. }
  set (s3 := put_scope h K s2).
  set (s4 := (match w with
              | Some x => emit_event (EvKeyAuthorizationWitness m x)
              | None => mret tt
              end s3).2).
  assert (keys s4 = keys s3 /\ spending_limits s4 = spending_limits s3 /\ key_scopes s4 = key_scopes s3)
    as (Hk4 & Hl4 & Hs4) by (unfold s4; by destruct w).
  exists (emit_event (EvKeyAuthorized m k code (kr_expiry config)) s4).2. split; [|split; [|split; [|split; [|split]]]].
  - unfold authorize_key, kguard.
    rewrite (bind_run _ _ _ tt s) by (unfold reads; by rewrite (proj2 (ensure_admin_caller_iff _ _ _) Hadm)).
    rewrite (bind_run _ _ _ tt s) by (unfold guard_err; by destruct (k =? 0) eqn:E; zbool).
    rewrite (bind_run _ _ _ tt s).
    2: { unfold guard_err. destruct (kr_expiry config <=? now env) eqn:E; zbool; [lia|]. by rewrite andb_false_r. }
    rewrite (bind_run _ _ _ _ s) by done. rewrite (bind_run _ _ _ tt s) by (by rewrite Hfe).
    rewrite (bind_run _ _ _ tt s) by (by rewrite Hfr).
    rewrite (bind_run _ _ _ code s) by (unfold reads; by rewrite Hcode).
    rewrite (bind_run _ _ _ calls s).
    2: { unfold reads, allowed_call_configs. rewrite Ht3.
         destruct (kr_enforceLimits config) eqn:E; [|done].
         rewrite check_unique_tokens_iff; [done|]. split; [by apply Htok|set_solver]. }
    rewrite (bind_run _ _ _ tt s).
    2: { unfold reads. destruct w as [x|]; [|done].
         unfold ensure_key_authorization_witness_not_burned. by rewrite (Hw x). }
    rewrite (bind_run _ _ _ tt s1) by done. rewrite (bind_run _ _ _ tt s3).
    2: { unfold apply_key_authorization_restrictions. fold h limits. rewrite Ht3.
         rewrite (bind_run _ _ _ _ _ Hrun2). cbn [negb]. by apply at_scope_run. }
    rewrite (bind_run _ _ _ tt s4); [done|]. unfold s4. by destruct w.
  - unfold get_authorized_key. cbn. rewrite Hk4. cbn. rewrite Hk2. apply get_key_put_eq.
  - intros Hen l Hl. unfold get_limit. cbn. rewrite Hl4. apply Hin2. unfold limits. by rewrite Hen.
  - intros t Ht. unfold get_limit at 1. cbn. rewrite Hl4. apply (Hout2 t). unfold limits.
    destruct (kr_enforceLimits config); [by apply Ht|apply not_elem_of_nil].
  - unfold get_scope. cbn. rewrite Hs4. fold (get_scope h s3). unfold s3. by rewrite get_scope_put_eq.
  - unfold get_scope. cbn. rewrite Hs4. fold (get_scope h s3). unfold s3. rewrite get_scope_put_eq.
    unfold live_policy. rewrite Hsc, HsK. unfold calls. by destruct (kr_allowAnyCalls config).
Qed.
End machine.

(** * Properties *)

(** C6: Well-formedness is an invariant of the keychain: from an empty contract,
    after any sequence of operations (successful or reverted) with arguments in
    the ranges of their types and at hardfork T3 or later, every key and limit
    row fits its storage type, no row with a cap holds more than its cap, and
    every call-scope tree is consistent (its sets are well formed, and nothing is
    stored below an absent target or selector). *)
Theorem keychain_invariant `{Keccak256} l :
  Forall (fun '(env, op) => env_ok env /\ op_fits op) l ->
  kc_ok (run_trace l empty_keychain).
Proof.
  intros Hl. apply trace_invariant; [apply kc_ok_empty|].
  intros env op s Hin Hs. rewrite Forall_forall in Hl. destruct (Hl _ Hin) as [Henv Hop].
  apply step_invariant; [done|]. intros s' Hrun. by eapply exec_kc_ok.
Qed.

(** C8: Revocation is permanent: once a key of an account is revoked, after any
    further sequence of operations in any blocks it is still revoked, it is
    rejected by every check that loads an active key, and every attempt to
    authorize it again fails. *)
Theorem revoked_forever `{Keccak256} l a k s :
  is_revoked (get_authorized_key a k s) = true ->
  is_revoked (get_authorized_key a k (run_trace l s)) = true /\
  (forall t, load_active_key a k t (run_trace l s) = Err (KeychainErr KeyAlreadyRevoked)) /\
  (forall env sig config w, is_ok (authorize_key env a k sig config w (run_trace l s)).1 = false).
Proof.
  intros Hrev. assert (is_revoked (get_authorized_key a k (run_trace l s)) = true) as Hr.
  { apply (trace_invariant (fun s => is_revoked (get_authorized_key a k s) = true)); [done|].
    intros env op s0 _ Hs0. apply step_invariant; [done|]. intros s' Hrun.
    destruct (exec_key env op s0 s' a k Hrun) as [->|(_ & _ & [(Hf & _)|[[? _]| ->]])]; try done.
    congruence. }
  split; [done|]. split.
  - intros t. unfold load_active_key. by rewrite Hr.
  - intros env sig config w.
    destruct (authorize_key env a k sig config w (run_trace l s)) as [[[]|e] s'] eqn:E; [|done].
    apply authorize_key_inv in E as (_ & _ & _ & _ & Hf & _). congruence.
Qed.

(** C7: Only the root key administers an account: if a successful operation
    changes the record of a key of account [a], its call-scope tree, or one of
    its limits, then either it is an administrative call made by [a] itself in a
    transaction signed by the root key (and, from T2 on, with [a] as the
    transaction origin), or only limits changed and the operation is a spending
    or refund for [a]. The hash that names the rows of a pair is assumed not to
    collide for the pair the operation works on and the pair in question. *)
Theorem only_root_administers `{Keccak256} env op s s' a k :
  (forall a' k', op_pair op s = Some (a', k') ->
     spending_limit_key a' k' = spending_limit_key a k -> a' = a /\ k' = k) ->
  exec env op s = (Ok tt, s') ->
  (get_authorized_key a k s' <> get_authorized_key a k s \/
   get_scope (spending_limit_key a k) s' <> get_scope (spending_limit_key a k) s ->
   op_admin op = Some a /\ admin_ok env a s) /\
  (forall t, get_limit (spending_limit_key a k) t s' <> get_limit (spending_limit_key a k) t s ->
   (op_admin op = Some a /\ admin_ok env a s) \/ op_spender op = Some a).
Proof.
  intros Hinj Hrun. destruct (exec_class env op s s' Hrun) as [(m & k' & Hpair & Hop & Hadm & Hf)|
    [(m & k' & Hpair & Hop & Hf & Hkeys & Hscopes)|(Hkeys & Hlim & Hscopes)]].
  - destruct (decide (m = a)) as [->|Hne]; [by split; [|left]|].
    assert (spending_limit_key a k <> spending_limit_key m k') as Hh.
    { intros Heq. symmetry in Heq. by apply (Hinj _ _ Hpair) in Heq as [? _]. }
    split.
    + intros [Hc|Hc]; exfalso; apply Hc; [apply Hf; congruence|by apply Hf].
    + intros t Hc. exfalso. apply Hc. by apply Hf.
  - split.
    + intros [Hc|Hc]; exfalso; apply Hc; [unfold get_authorized_key; by rewrite Hkeys|
        unfold get_scope; by rewrite Hscopes].
    + intros t Hc. destruct (decide (m = a)) as [->|Hne]; [by right|].
      exfalso. apply Hc, Hf. intros Heq. symmetry in Heq. by apply (Hinj _ _ Hpair) in Heq as [? _].
  - split.
    + intros [Hc|Hc]; exfalso; apply Hc; [unfold get_authorized_key; by rewrite Hkeys|
        unfold get_scope; by rewrite Hscopes].
    + intros t Hc. exfalso. apply Hc. unfold get_limit. by rewrite Hlim.
Qed.

(** C9: Authorization grants exactly what was asked: for acceptable arguments
    [authorize_key] succeeds, and afterwards the key is reported with the given
    type, expiry and limit flag, every requested limit reports its amount and
    its first period end, the limits of other tokens are as before, and the
    reported access list is the given one (unrestricted if any call is allowed). *)
Theorem authorize_key_grants `{Keccak256} env m k sig code config w s :
  authorizable env m k config w s -> signature_type_code sig = Ok code ->
  0 <= now env -> kr_expiry config <= U64_MAX ->
  Forall (fun l => 0 <= tl_period l) (kr_limits config) ->
  exists s', authorize_key env m k sig config w s = (Ok tt, s') /\
    get_key m k s' = mkKeyInfo sig k (kr_expiry config) (kr_enforceLimits config) false /\
    (kr_enforceLimits config = true -> forall l, l ∈ kr_limits config ->
       get_remaining_limit_with_period env m k (tl_token l) s' =
         (tl_amount l, if tl_period l =? 0 then 0 else sat_add U64_MAX (now env) (tl_period l))) /\
    (forall t, (kr_enforceLimits config = true -> t ∉ tl_token <$> kr_limits config) ->
       get_limit (spending_limit_key m k) t s' = get_limit (spending_limit_key m k) t s) /\
    get_allowed_calls env m k s' =
      Ok (if kr_allowAnyCalls config then mkAllowedCalls false []
          else mkAllowedCalls true (kr_allowedCalls config)).
Proof.
  intros Hau Hcode Hnow Hexp Hper.
  destruct (authorize_key_run env m k sig code config w s Hau Hcode) as (s' & Hrun & Hk & Hl & Hout & Ht & Hp).
  destruct Hau as [Ht3 _ Hk0 Hlt _ _ _ _ _ _].
  assert (key_active (get_authorized_key m k s') (now env)) as Hact.
  { unfold key_active. rewrite Hk. cbn. repeat split; lia. }
  exists s'. split; [done|]. split; [|split; [|split; [exact Hout|]]].
  - unfold get_key. rewrite Hk. cbn. destruct (kr_expiry config =? 0) eqn:E; zbool; [lia|]. cbn.
    destruct sig; [..|discriminate]; injection Hcode as <-; done.
  - intros Hen l Hin. unfold get_remaining_limit_with_period.
    rewrite effective_active by done. rewrite (Hl Hen l Hin). cbn zeta.
    rewrite row_at_id; [cbn; by destruct (tl_period l =? 0)|]. cbn. intros Hp0. rewrite Forall_forall in Hper. pose proof (Hper l Hin).
    destruct (tl_period l =? 0) eqn:E; zbool; [done|]. unfold sat_add. lia.
  - rewrite get_allowed_calls_run by done. by rewrite Hp.
Qed.

(** A burned witness can never authorize a key: after a witness has been
    burned for an account, whatever happens later it stays burned, burning it
    again fails, and so does every authorization of that account that carries it. *)
Theorem burned_witness_rejected `{Keccak256} l m w s :
  is_key_authorization_witness_burned m w s = true ->
  is_key_authorization_witness_burned m w (run_trace l s) = true /\
  (forall env, is_ok (burn_key_authorization_witness env m w (run_trace l s)).1 = false) /\
  (forall env k sig config, is_ok (authorize_key env m k sig config (Some w) (run_trace l s)).1 = false).
Proof.
  intros Hb. assert (is_key_authorization_witness_burned m w (run_trace l s) = true) as Hb'.
  { apply (trace_invariant (fun s => is_key_authorization_witness_burned m w s = true)); [done|].
    intros env op s0 _ Hs0. apply step_invariant; [done|]. intros s' Hrun. by eapply exec_witness. }
  split; [done|]. split.
  - intros env. destruct (burn_key_authorization_witness env m w (run_trace l s)) as [[[]|e] s'] eqn:E; [|done].
    apply burn_witness_inv in E as (Hf & _). congruence.
  - intros env k sig config.
    destruct (authorize_key env m k sig config (Some w) (run_trace l s)) as [[[]|e] s'] eqn:E; [|done].
    apply authorize_key_inv in E as (_ & _ & _ & _ & _ & Hf & _). rewrite Hf in Hb' by done. done.
Qed.

Module AdminExample.
(** Byte strings are hashed to the numbers they spell: no collisions. *)
Definition hash : Keccak256 := {| keccak256 := be_val |}.
#[local] Existing Instance hash.
Definition env : BlockEnv := mkBlockEnv T5 500.
Definition st0 : AccountKeychain := put_tx_origin 1 empty_keychain.
Definition config : KeyRestrictions :=
  mkKeyRestrictions 1000 true [mkTokenLimit 7 100 50; mkTokenLimit 8 30 0] false
    [mkCallScope 7 [mkSelectorRule TIP20_TRANSFER_SELECTOR [9]]].
Definition trace : list (BlockEnv * kc_op) :=
  [(env, OpSetTxOrigin 1); (env, OpAuthorizeKey 1 2 P256 config None); (env, OpSpend 1 2 7 60);
   (env, OpRevokeKey 1 2)].

Lemma scopes_fit : Forall scope_fits (kr_allowedCalls config).
Proof.
  apply Forall_singleton. split; [vm_compute; discriminate|].
  apply Forall_singleton. vm_compute. discriminate.
Qed.

Lemma keychain_invariant_witness : kc_ok (run_trace trace empty_keychain).
Proof.
  apply (keychain_invariant trace).
  assert (env_ok env) as Henv by (split; [reflexivity|cbn; lia]).
  apply Forall_cons. split; [done|]. apply Forall_cons. split; [split; [done|]|].
  { split; [unfold fits, U64_MAX; cbn; lia|]. split; [|apply scopes_fit].
    apply Forall_cons. split; [|apply Forall_singleton];
      (split; [unfold fits, U256_MAX; cbn; lia|unfold fits, U64_MAX; cbn; lia]). }
  apply Forall_cons. split; [split; [done|unfold op_fits, fits, U256_MAX; lia]|].
  apply Forall_singleton. done.
Defined.

Definition revoked : AccountKeychain := put_key 1 2 (mkAuthorizedKey 0 0 false true) st0.

Lemma revoked_forever_witness :
  is_revoked (get_authorized_key 1 2 (run_trace trace revoked)) = true /\
  (forall t, load_active_key 1 2 t (run_trace trace revoked) = Err (KeychainErr KeyAlreadyRevoked)) /\
  (forall env sig config w, is_ok (authorize_key env 1 2 sig config w (run_trace trace revoked)).1 = false).
Proof. apply (revoked_forever trace 1 2 revoked). reflexivity. Defined.

Lemma config_authorizable : authorizable env 1 2 config None st0.
Proof.
  split.
  - reflexivity.
  - split; [reflexivity|]. intros _. split; [discriminate|reflexivity].
  - lia.
  - vm_compute. reflexivity.
  - split; reflexivity.
  - intros _. cbn. apply NoDup_cons. split; [|apply NoDup_singleton].
    rewrite list_elem_of_singleton. lia.
  - apply Forall_cons. split; [|apply Forall_singleton]; vm_compute; discriminate.
  - done.
  - apply tree_ok_default.
  - intros _. split; [vm_compute; reflexivity|]. split; [|vm_compute; discriminate].
    apply Forall_singleton. split; [vm_compute; reflexivity|].
    pose proof scopes_fit as Hf. by inversion Hf.
Qed.

Lemma authorize_key_grants_witness :
  exists s', authorize_key env 1 2 P256 config None st0 = (Ok tt, s') /\
    get_key 1 2 s' = mkKeyInfo P256 2 1000 true false /\
    (true = true -> forall l, l ∈ kr_limits config ->
       get_remaining_limit_with_period env 1 2 (tl_token l) s' =
         (tl_amount l, if tl_period l =? 0 then 0 else sat_add U64_MAX (now env) (tl_period l))) /\
    (forall t, (true = true -> t ∉ tl_token <$> kr_limits config) ->
       get_limit (spending_limit_key 1 2) t s' = get_limit (spending_limit_key 1 2) t st0) /\
    get_allowed_calls env 1 2 s' = Ok (mkAllowedCalls true (kr_allowedCalls config)).
Proof.
  apply (authorize_key_grants env 1 2 P256 1 config None st0).
  - apply config_authorizable.
  - reflexivity.
  - vm_compute. discriminate.
  - vm_compute. discriminate.
  - apply Forall_cons. split; [|apply Forall_singleton]; cbn; lia.
Defined.

Definition burned : AccountKeychain := put_witness 1 77 true st0.

Lemma burned_witness_rejected_witness :
  is_key_authorization_witness_burned 1 77 (run_trace trace burned) = true /\
  (forall env, is_ok (burn_key_authorization_witness env 1 77 (run_trace trace burned)).1 = false) /\
  (forall env k sig config,
     is_ok (authorize_key env 1 k sig config (Some 77) (run_trace trace burned)).1 = false).
Proof. apply (burned_witness_rejected trace 1 77 burned). reflexivity. Defined.

Lemma only_root_administers_witness :
  let s' := (exec env (OpAuthorizeKey 1 2 P256 config None) st0).2 in
  (get_authorized_key 3 4 s' <> get_authorized_key 3 4 st0 \/
   get_scope (spending_limit_key 3 4) s' <> get_scope (spending_limit_key 3 4) st0 ->
   op_admin (OpAuthorizeKey 1 2 P256 config None) = Some 3 /\ admin_ok env 3 st0) /\
  (forall t, get_limit (spending_limit_key 3 4) t s' <> get_limit (spending_limit_key 3 4) t st0 ->
   (op_admin (OpAuthorizeKey 1 2 P256 config None) = Some 3 /\ admin_ok env 3 st0) \/
   op_spender (OpAuthorizeKey 1 2 P256 config None) = Some 3).
Proof.
  apply (only_root_administers env (OpAuthorizeKey 1 2 P256 config None) st0 _ 3 4).
  - intros a' k' [= <- <-] Heq. vm_compute in Heq. discriminate Heq.
  - destruct (authorize_key_run env 1 2 P256 1 config None st0) as (s' & Hrun & _).
    + apply config_authorizable.
    + reflexivity.
    + cbn [exec]. rewrite Hrun. reflexivity.
Defined.
End AdminExample.
