(* ===== verification/AgentState.v ===== *)
(** The SCI agent state precompile ([sci_agent_state/mod.rs]): the circuit
    breaker's trip flags, one per session key. *)

From S2P Require Import Prelude Hardfork Packing Layout StorageVec.

(** * Addresses (precompile-abi) *)

Definition ACCOUNT_KEYCHAIN_ADDRESS : Z := 0xAAAAAAAA00000000000000000000000000000000.
Definition SCI_AGENT_STATE_ADDRESS : Z := 0xAAAAAAAA00000000000000000000000000000001.
Definition AGENT_CIRCUIT_BREAKER_ADDRESS : Z := 0xBBBBBBBB00000000000000000000000000000003.

(** * State and operations *)

Record SciAgentState := mkSciAgentState {
  tripped : gmap Z bool;
  as_events : list (Z * bool);   (* [TripStateUpdate(sessionKey, isTripped)] *)
}.

Abbreviation asio := (stm SciAgentState TempoPrecompileError).

Definition get_tripped (session_key : Z) (s : SciAgentState) : bool :=
  dget false (tripped s) session_key.

Definition write_tripped (session_key : Z) (b : bool) : asio unit :=
  modify (fun s => mkSciAgentState (<[session_key := b]> (tripped s)) (as_events s)).

Definition emit_trip_update (session_key : Z) (b : bool) : asio unit :=
  modify (fun s => mkSciAgentState (tripped s) (as_events s ++ [(session_key, b)])).

Definition trip_key (msg_sender session_key : Z) : asio unit :=
  guard_err (negb (msg_sender =? AGENT_CIRCUIT_BREAKER_ADDRESS)) (AgentStateErr Unauthorized);;
  write_tripped session_key true;;
  emit_trip_update session_key true.

Definition untrip_key (msg_sender session_key : Z) : asio unit :=
  guard_err (negb (msg_sender =? AGENT_CIRCUIT_BREAKER_ADDRESS)) (AgentStateErr Unauthorized);;
  write_tripped session_key false;;
  emit_trip_update session_key false.

Definition is_tripped (session_key : Z) (s : SciAgentState) : res bool :=
  Ok (get_tripped session_key s).

(** * Runs *)


Lemma trip_key_run m k s :
  trip_key m k s =
    if m =? AGENT_CIRCUIT_BREAKER_ADDRESS
    then (Ok tt, mkSciAgentState (<[k := true]> (tripped s)) (as_events s ++ [(k, true)]))
    else (Err (AgentStateErr Unauthorized), s).
Proof. unfold trip_key, guard_err. by destruct (m =? _). Qed.

Lemma untrip_key_run m k s :
  untrip_key m k s =
    if m =? AGENT_CIRCUIT_BREAKER_ADDRESS
    then (Ok tt, mkSciAgentState (<[k := false]> (tripped s)) (as_events s ++ [(k, false)]))
    else (Err (AgentStateErr Unauthorized), s).
Proof. unfold untrip_key, guard_err. by destruct (m =? _). Qed.
