(* ===== verification/Dispatch.v ===== *)
(** The precompile boundary: input gas, hardfork selector schedules, ABI
    dispatch of both precompiles, delegate- and static-call protection, and the
    address lookup ([lib.rs], [account_keychain/dispatch.rs],
    [sci_agent_state/dispatch.rs], [error.rs] and the [revm-shim] crate).

    ABI decoding is code of the [alloy] crates and is a parameter, the class
    [PrecompileAbi]; calldata is a byte string and selectors are the first four
    bytes of the Keccak hash of the signatures the ABI crate declares. Return
    and revert data stay symbolic: a return value or an error before its ABI
    encoding. *)

From S2P Require Import Prelude Hardfork Packing Layout StorageVec EnumerableSet Keychain KeychainSpend KeychainScope KeychainAdmin AgentState.

(** * Results (revm-shim) *)

Inductive PrecompileHalt := HaltOutOfGas | HaltOther (msg : string).
Inductive PrecompileError := PcOutOfGas | PcOther (msg : string) | PcFatal (msg : string).

Inductive ReturnData :=
| RetVoid
| RetKeyInfo (i : KeyInfo)
| RetUint (v : Z)
| RetLimit (remaining periodEnd : Z)
| RetAllowedCalls (r : getAllowedCallsReturn)
| RetBool (b : bool)
| RetAddress (a : Z).

Inductive RevertData :=
| RevEmpty
| RevDelegateCallNotAllowed
| RevStaticCallNotAllowed
| RevError (e : TempoPrecompileError).

(** [PrecompileOutput] with its [ExecutionStatus]. *)
Inductive PrecompileOutput :=
| OutSuccess (ret : ReturnData)
| OutRevert (data : RevertData)
| OutHalt (h : PrecompileHalt).

Abbreviation PrecompileResult := (result PrecompileError PrecompileOutput).

(** revm 34's output: return or revert data with the [reverted] flag. *)
Inductive Revm34Output := Revm34Success (ret : ReturnData) | Revm34Reverted (data : RevertData).

Definition to_revm34 (out : PrecompileResult) : result PrecompileError Revm34Output :=
  match out with
  | Err e => Err e
  | Ok (OutHalt HaltOutOfGas) => Err PcOutOfGas
  | Ok (OutHalt (HaltOther msg)) => Err (PcOther msg)
  | Ok (OutRevert d) => Ok (Revm34Reverted d)
  | Ok (OutSuccess r) => Ok (Revm34Success r)
  end.

(** [TempoPrecompileError::into_precompile_result] *)
Definition error_result (e : TempoPrecompileError) : PrecompileResult :=
  match e with
  | OutOfGas => Ok (OutHalt HaltOutOfGas)
  | Fatal msg => Err (PcFatal msg)
  | KeychainErr _ | AgentStateErr _ | Panic _ | UnknownFunctionSelector _ => Ok (OutRevert (RevError e))
  end.

Definition into_precompile_result (r : res ReturnData) : PrecompileResult :=
  match r with Ok ret => Ok (OutSuccess ret) | Err e => error_result e end.

(** * Dispatch helpers (lib.rs) *)

Definition INPUT_PER_WORD_COST : Z := 6.

Definition input_cost (calldata_len : Z) : Z :=
  sat_mul U64_MAX (div_ceil calldata_len 32) INPUT_PER_WORD_COST.

(** [None] when the gas covers the input. *)
Definition charge_input_cost (gas : Z) (calldata : list Z) : option PrecompileResult :=
  if gas <? input_cost (Z.of_nat (length calldata)) then Some (Ok (OutHalt HaltOutOfGas)) else None.

Definition view {S} (f : S -> res ReturnData) (s : S) : PrecompileResult * S :=
  (into_precompile_result (f s), s).

Definition mutate_void {S} (is_static : bool) (f : stm S TempoPrecompileError unit) (s : S)
  : PrecompileResult * S :=
  if is_static then (Ok (OutRevert RevStaticCallNotAllowed), s)
  else let '(r, s') := f s in (into_precompile_result ((fun _ => RetVoid) <$> r), s').

Record SelectorSchedule := mkSchedule {
  hardfork : TempoHardfork;
  added : list Z;
  dropped : list Z;
}.

Definition rejects (sched : SelectorSchedule) (selector : Z) (active : TempoHardfork) : bool :=
  bool_decide (selector ∈
    (if hardfork_index (hardfork sched) <=? hardfork_index active then dropped sched else added sched)).

(** Errors of [SolInterface::abi_decode]: the selector is unknown, or the
    arguments do not decode. *)
Inductive AbiError := UnknownSelector (selector : Z) | InvalidArguments.

Definition dispatch_call {S T} (spec : TempoHardfork) (calldata : list Z)
    (hardforks : list SelectorSchedule) (decode : list Z -> result AbiError T)
    (f : T -> S -> PrecompileResult * S) (s : S) : PrecompileResult * S :=
  if (length calldata <? 4)%nat then
    if is_t1 spec then (Ok (OutRevert RevEmpty), s)
    else (Ok (OutHalt (HaltOther "Invalid input: missing function selector")), s)
  else
    let selector := be_val (take 4 calldata) in
    if existsb (fun sched => rejects sched selector spec) hardforks
    then (error_result (UnknownFunctionSelector selector), s)
    else match decode calldata with
    | Ok call => f call s
    | Err (UnknownSelector selector) => (error_result (UnknownFunctionSelector selector), s)
    | Err InvalidArguments => (Ok (OutRevert RevEmpty), s)
    end.

(** * The keychain's calls (account_keychain/dispatch.rs) *)

Record LegacyTokenLimit := mkLegacyTokenLimit { ltl_token : Z; ltl_amount : Z }.

Inductive IAccountKeychainCalls :=
| authorizeKey_0 (keyId : Z) (sig : SignatureType) (expiry : Z) (enforceLimits : bool)
    (limits : list LegacyTokenLimit)
| authorizeKey_1 (keyId : Z) (sig : SignatureType) (config : KeyRestrictions)
| authorizeKey_2 (keyId : Z) (sig : SignatureType) (config : KeyRestrictions) (witness : Z)
| burnKeyAuthorizationWitness (witness : Z)
| revokeKey (keyId : Z)
| updateSpendingLimit (keyId token newLimit : Z)
| setAllowedCalls (keyId : Z) (scopes : list CallScope)
| removeAllowedCalls (keyId target : Z)
| getKey (account keyId : Z)
| getRemainingLimit (account keyId token : Z)
| getRemainingLimitWithPeriod (account keyId token : Z)
| getAllowedCalls (account keyId : Z)
| isKeyAuthorizationWitnessBurned (account witness : Z)
| getTransactionKey.

(** The selectors of the interface. *)
Definition selector_of (call : IAccountKeychainCalls) : Z :=
  match call with
  | authorizeKey_0 _ _ _ _ _ => 0x54063a55
  | authorizeKey_1 _ _ _ => 0x980a6025
  | authorizeKey_2 _ _ _ _ => 0xe3c154d2
  | burnKeyAuthorizationWitness _ => 0xcff31c46
  | revokeKey _ => 0x5ae7ab32
  | updateSpendingLimit _ _ _ => 0xcbbb4480
  | setAllowedCalls _ _ => 0xf5456703
  | removeAllowedCalls _ _ => 0xf3941811
  | getKey _ _ => 0xbc298553
  | getRemainingLimit _ _ _ => 0x63b4290d
  | getRemainingLimitWithPeriod _ _ _ => 0xa7f72cab
  | getAllowedCalls _ _ => 0x0163e7ec
  | isKeyAuthorizationWitnessBurned _ _ => 0x8e6c7e11
  | getTransactionKey => 0xb07fbc1a
  end.

Definition AUTHORIZE_KEY_SELECTOR : Z := 0x980a6025.
Definition T3_ADDED : list Z := [AUTHORIZE_KEY_SELECTOR; 0xf5456703; 0xf3941811; 0xa7f72cab; 0x0163e7ec].
Definition T3_DROPPED : list Z := [0x63b4290d].
Definition T5_ADDED : list Z := [0xe3c154d2; 0xcff31c46; 0x8e6c7e11].

Inductive ISciAgentStateCalls := tripKey (sessionKey : Z) | untripKey (sessionKey : Z) | isTripped (sessionKey : Z).

(** The [alloy] decoders. *)
Class PrecompileAbi := {
  decode_keychain_call : list Z -> result AbiError IAccountKeychainCalls;
  decode_agent_call : list Z -> result AbiError ISciAgentStateCalls;
}.

Section dispatch.
Context `{Keccak256} `{PrecompileAbi}.
Context (env : BlockEnv) (is_static : bool) (msg_sender : Z).

(** The legacy arguments in the T3 shape. *)
Definition legacy_config (expiry : Z) (enforceLimits : bool) (limits : list LegacyTokenLimit)
  : KeyRestrictions :=
  mkKeyRestrictions expiry enforceLimits
    ((fun l => mkTokenLimit (ltl_token l) (ltl_amount l) 0) <$> limits) true [].

Definition keychain_dispatch (call : IAccountKeychainCalls) : AccountKeychain -> PrecompileResult * AccountKeychain :=
  match call with
  | authorizeKey_0 k sig expiry enforce limits =>
      if is_t3 (env_spec env)
      then fun s => (error_result (KeychainErr (LegacyAuthorizeKeySelectorChanged AUTHORIZE_KEY_SELECTOR)), s)
      else mutate_void is_static
             (authorize_key env msg_sender k sig (legacy_config expiry enforce limits) None)
  | authorizeKey_1 k sig config => mutate_void is_static (authorize_key env msg_sender k sig config None)
  | authorizeKey_2 k sig config w =>
      mutate_void is_static (authorize_key env msg_sender k sig config (Some w))
  | burnKeyAuthorizationWitness w =>
      mutate_void is_static (burn_key_authorization_witness env msg_sender w)
  | revokeKey k => mutate_void is_static (revoke_key env msg_sender k)
  | updateSpendingLimit k tok v => mutate_void is_static (update_spending_limit env msg_sender k tok v)
  | setAllowedCalls k scopes => mutate_void is_static (set_allowed_calls env msg_sender k scopes)
  | removeAllowedCalls k t => mutate_void is_static (remove_allowed_calls env msg_sender k t)
  | getKey a k => view (fun s => Ok (RetKeyInfo (get_key a k s)))
  | getRemainingLimit a k tok => view (fun s => Ok (RetUint (get_remaining_limit env a k tok s)))
  | getRemainingLimitWithPeriod a k tok =>
      view (fun s => let '(r, e) := get_remaining_limit_with_period env a k tok s in Ok (RetLimit r e))
  | getAllowedCalls a k => view (fun s => RetAllowedCalls <$> get_allowed_calls env a k s)
  | isKeyAuthorizationWitnessBurned a w =>
      view (fun s => Ok (RetBool (is_key_authorization_witness_burned a w s)))
  | getTransactionKey => view (fun s => Ok (RetAddress (transaction_key s)))
  end.

Definition keychain_schedules : list SelectorSchedule :=
  [mkSchedule T3 T3_ADDED T3_DROPPED; mkSchedule T5 T5_ADDED []].

(** [Precompile::call] of [AccountKeychain] *)
Definition keychain_call (gas : Z) (calldata : list Z) (s : AccountKeychain)
  : PrecompileResult * AccountKeychain :=
  match charge_input_cost gas calldata with
  | Some err => (err, s)
  | None => dispatch_call (env_spec env) calldata keychain_schedules decode_keychain_call keychain_dispatch s
  end.

Definition agent_dispatch (call : ISciAgentStateCalls) : SciAgentState -> PrecompileResult * SciAgentState :=
  match call with
  | tripKey k => mutate_void is_static (trip_key msg_sender k)
  | untripKey k => mutate_void is_static (untrip_key msg_sender k)
  | isTripped k => view (fun s => RetBool <$> is_tripped k s)
  end.

(** [Precompile::call] of [SciAgentState] *)
Definition agent_call (gas : Z) (calldata : list Z) (s : SciAgentState) : PrecompileResult * SciAgentState :=
  match charge_input_cost gas calldata with
  | Some err => (err, s)
  | None => dispatch_call (env_spec env) calldata [mkSchedule T3 [] []] decode_agent_call agent_dispatch s
  end.
End dispatch.

(** * Installed precompiles (lib.rs) *)

Record PrecompileState := mkPrecompileState {
  ps_keychain : AccountKeychain;
  ps_agent : SciAgentState;
}.

Record PrecompileInput := mkPrecompileInput {
  pi_data : list Z;
  pi_gas : Z;
  pi_caller : Z;
  pi_is_direct_call : bool;
  pi_is_static : bool;
}.

Section install.
Context `{Keccak256} `{PrecompileAbi}.

(** [sci_precompile!]: delegate calls are refused before the body runs. *)
Definition sci_precompile {S} (input : PrecompileInput) (impl : S -> PrecompileResult * S) (s : S)
  : result PrecompileError Revm34Output * S :=
  let '(r, s') :=
    if negb (pi_is_direct_call input) then (Ok (OutRevert RevDelegateCallNotAllowed), s) else impl s in
  (to_revm34 r, s').

Definition keychain_precompile (spec : TempoHardfork) (ts : Z) (input : PrecompileInput)
  : AccountKeychain -> result PrecompileError Revm34Output * AccountKeychain :=
  sci_precompile input
    (keychain_call (mkBlockEnv spec ts) (pi_is_static input) (pi_caller input) (pi_gas input) (pi_data input)).

Definition agent_precompile (spec : TempoHardfork) (ts : Z) (input : PrecompileInput)
  : SciAgentState -> result PrecompileError Revm34Output * SciAgentState :=
  sci_precompile input
    (agent_call (mkBlockEnv spec ts) (pi_is_static input) (pi_caller input) (pi_gas input) (pi_data input)).

Definition is_sci_precompile_address (address : Z) : bool :=
  (address =? ACCOUNT_KEYCHAIN_ADDRESS) || (address =? SCI_AGENT_STATE_ADDRESS).

Definition lookup_precompile (address ts : Z)
  : option (PrecompileInput -> PrecompileState -> result PrecompileError Revm34Output * PrecompileState) :=
  if address =? ACCOUNT_KEYCHAIN_ADDRESS then
    Some (fun input w => let '(r, k) := keychain_precompile SCI_LAUNCH_HARDFORK ts input (ps_keychain w) in
                         (r, mkPrecompileState k (ps_agent w)))
  else if address =? SCI_AGENT_STATE_ADDRESS then
    Some (fun input w => let '(r, a) := agent_precompile SCI_LAUNCH_HARDFORK ts input (ps_agent w) in
                         (r, mkPrecompileState (ps_keychain w) a))
  else None.

(** The EVM's side of a call to an SCI precompile: the frame's writes are kept
    only when the precompile succeeds. Other addresses do not touch the state of
    the precompiles. *)
Definition precompile_step (ts : Z) (w : PrecompileState) (c : Z * PrecompileInput) : PrecompileState :=
  match lookup_precompile c.1 ts with
  | Some p => match p c.2 w with
              | (Ok (Revm34Success _), w') => w'
              | _ => w
              end
  | None => w
  end.

(** Calls made one after the other by the code of a transaction. *)
Definition precompile_calls (ts : Z) (l : list (Z * PrecompileInput)) (w : PrecompileState) : PrecompileState :=
  foldl (precompile_step ts) w l.

(** * Properties of dispatch *)

(** The calls the keychain serves at each hardfork. *)
Definition available (spec : TempoHardfork) (call : IAccountKeychainCalls) : bool :=
  match call with
  | authorizeKey_1 _ _ _ | setAllowedCalls _ _ | removeAllowedCalls _ _
  | getRemainingLimitWithPeriod _ _ _ | getAllowedCalls _ _ => is_t3 spec
  | authorizeKey_2 _ _ _ _ | burnKeyAuthorizationWitness _ | isKeyAuthorizationWitnessBurned _ _ => is_t5 spec
  | getRemainingLimit _ _ _ => negb (is_t3 spec)
  | _ => true
  end.

Lemma schedules_available spec call :
  existsb (fun sched => rejects sched (selector_of call) spec) keychain_schedules = negb (available spec call).
Proof. destruct spec, call; vm_compute; reflexivity. Qed.

(** The state-changing operation a decoded call asks for. *)
Definition call_op (spec : TempoHardfork) (m : Z) (call : IAccountKeychainCalls) : option kc_op :=
  match call with
  | authorizeKey_0 k sig e b l =>
      if is_t3 spec then None else Some (OpAuthorizeKey m k sig (legacy_config e b l) None)
  | authorizeKey_1 k sig c => Some (OpAuthorizeKey m k sig c None)
  | authorizeKey_2 k sig c w => Some (OpAuthorizeKey m k sig c (Some w))
  | burnKeyAuthorizationWitness w => Some (OpBurnWitness m w)
  | revokeKey k => Some (OpRevokeKey m k)
  | updateSpendingLimit k tok v => Some (OpUpdateSpendingLimit m k tok v)
  | setAllowedCalls k scopes => Some (OpSetAllowedCalls m k scopes)
  | removeAllowedCalls k t => Some (OpRemoveAllowedCalls m k t)
  | _ => None
  end.

Lemma mutate_void_run {S} st (f : stm S TempoPrecompileError unit) s :
  mutate_void st f s =
    if st then (Ok (OutRevert RevStaticCallNotAllowed), s)
    else (into_precompile_result ((fun _ => RetVoid) <$> (f s).1), (f s).2).
Proof. unfold mutate_void. destruct st; [done|]. by destruct (f s). Qed.

(** A dispatched call either leaves the state alone or runs its operation. *)
Lemma keychain_dispatch_run env st m call s :
  match call_op (env_spec env) m call with
  | Some op =>
      keychain_dispatch env st m call s =
        if st then (Ok (OutRevert RevStaticCallNotAllowed), s)
        else (into_precompile_result ((fun _ => RetVoid) <$> (exec env op s).1), (exec env op s).2)
  | None => (keychain_dispatch env st m call s).2 = s
  end.
Proof.
  destruct call; cbn [call_op keychain_dispatch exec]; try reflexivity;
    try (destruct (is_t3 (env_spec env)); [reflexivity|]); by rewrite mutate_void_run.
Qed.

Lemma dispatch_call_cases {S T} spec calldata scheds decode (f : T -> S -> PrecompileResult * S) s :
  (exists call, decode calldata = Ok call /\
     dispatch_call spec calldata scheds decode f s = f call s) \/
  (exists r, dispatch_call spec calldata scheds decode f s = (r, s) /\ forall v, r <> Ok (OutSuccess v)).
Proof.
  unfold dispatch_call. destruct (_ <? 4)%nat; [right; destruct (is_t1 spec); eexists; split; done|].
  destruct (existsb _ _); [right; eexists; split; done|].
  destruct (decode calldata) as [call|[sel|]]; [left; eauto|right; eexists; split; done..].
Qed.

Lemma dispatch_call_pure {S T} spec calldata scheds decode (f : T -> S -> PrecompileResult * S) s :
  (forall call, (f call s).2 = s) -> (dispatch_call spec calldata scheds decode f s).2 = s.
Proof.
  intros Hf. by destruct (dispatch_call_cases spec calldata scheds decode f s) as [(? & _ & ->)|(? & -> & _)].
Qed.

Lemma keychain_call_static env m gas calldata s : (keychain_call env true m gas calldata s).2 = s.
Proof.
  unfold keychain_call. destruct (charge_input_cost _ _); [done|]. apply dispatch_call_pure. intros call.
  pose proof (keychain_dispatch_run env true m call s) as Hd.
  destruct (call_op _ m call); [by rewrite Hd|done].
Qed.

Lemma agent_call_static env m gas calldata s : (agent_call env true m gas calldata s).2 = s.
Proof.
  unfold agent_call. destruct (charge_input_cost _ _); [done|]. apply dispatch_call_pure. by intros [].
Qed.

(** ** Sequences of calls *)

Lemma into_success r v : into_precompile_result r = Ok (OutSuccess v) -> r = Ok v.
Proof. destruct r as [x|[]]; cbn; congruence. Qed.

Lemma to_revm34_success r v : to_revm34 r = Ok (Revm34Success v) -> r = Ok (OutSuccess v).
Proof. destruct r as [[?|?|[]]|]; cbn; congruence. Qed.

(** A successful keychain call is a view or the successful run of one of the
    public operations. *)
Lemma keychain_success spec ts input s v s' :
  keychain_precompile spec ts input s = (Ok (Revm34Success v), s') ->
  pi_is_direct_call input = true /\
  (s' = s \/ pi_is_static input = false /\
     exists call op, call_op spec (pi_caller input) call = Some op /\
       exec (mkBlockEnv spec ts) op s = (Ok tt, s')).
Proof.
  unfold keychain_precompile, sci_precompile, keychain_call.
  destruct (pi_is_direct_call input); cbn [negb]; [|discriminate]. intros Hrun. split; [done|].
  destruct (charge_input_cost _ _) as [err|]; [left; by destruct (to_revm34 err); inversion Hrun|].
  destruct (dispatch_call_cases (env_spec (mkBlockEnv spec ts)) (pi_data input) keychain_schedules
    decode_keychain_call (keychain_dispatch (mkBlockEnv spec ts) (pi_is_static input) (pi_caller input)) s)
    as [(call & Hdec & Heq)|(r & Heq & Hno)]; rewrite Heq in Hrun.
  - pose proof (keychain_dispatch_run (mkBlockEnv spec ts) (pi_is_static input) (pi_caller input) call s) as Hd.
    destruct (keychain_dispatch _ _ _ call s) as [r k] eqn:E. injection Hrun as Hr Hk.
    apply to_revm34_success in Hr as ->. subst k. cbn [env_spec] in Hd.
    destruct (call_op spec (pi_caller input) call) as [op|] eqn:Eop; [|by left].
    right. destruct (pi_is_static input); [discriminate|]. split; [done|]. exists call, op. split; [done|].
    destruct (exec _ op s) as [[[]|e] s1] eqn:Ex; cbn [fst snd] in Hd; injection Hd as Hd ->; [done|].
    symmetry in Hd. by apply (into_success (Err e)) in Hd.
  - injection Hrun as Hr <-. apply to_revm34_success in Hr. by apply Hno in Hr.
Qed.

Lemma agent_success spec ts input s v s' :
  agent_precompile spec ts input s = (Ok (Revm34Success v), s') ->
  pi_is_direct_call input = true /\
  (s' = s \/ pi_is_static input = false /\ pi_caller input = AGENT_CIRCUIT_BREAKER_ADDRESS /\
     exists k b, tripped s' = <[k := b]> (tripped s)).
Proof.
  unfold agent_precompile, sci_precompile, agent_call.
  destruct (pi_is_direct_call input); cbn [negb]; [|discriminate]. intros Hrun. split; [done|].
  destruct (charge_input_cost _ _) as [err|]; [left; by destruct (to_revm34 err); inversion Hrun|].
  destruct (dispatch_call_cases (env_spec (mkBlockEnv spec ts)) (pi_data input) [mkSchedule T3 [] []]
    decode_agent_call (agent_dispatch (pi_is_static input) (pi_caller input)) s)
    as [(call & Hdec & Heq)|(r & Heq & Hno)]; rewrite Heq in Hrun;
    [|injection Hrun as Hr <-; apply to_revm34_success in Hr; by apply Hno in Hr].
  destruct call as [k|k|k]; cbn [agent_dispatch] in Hrun; [..|by left; inversion Hrun];
    rewrite mutate_void_run, ?trip_key_run, ?untrip_key_run in Hrun;
    (destruct (pi_is_static input); [discriminate|]);
    (destruct (pi_caller input =? _) eqn:E; zbool; [|discriminate]);
    injection Hrun as _ <-; right; eauto.
Qed.

(** What a transaction signed by a session key cannot change. *)
Definition frozen (s s' : AccountKeychain) : Prop :=
  keys s' = keys s /\ spending_limits s' = spending_limits s /\ key_scopes s' = key_scopes s /\
  transaction_key s' = transaction_key s /\ tx_origin s' = tx_origin s.

Lemma session_op_frozen env m call op s s' :
  call_op (env_spec env) m call = Some op -> transaction_key s <> 0 ->
  exec env op s = (Ok tt, s') -> frozen s s'.
Proof.
  intros Hop Htk Hrun.
  destruct (exec_class env op s s' Hrun) as [(m' & k & _ & _ & [Hz _] & _)|[(a & k & _ & Hsp & _)|_]];
    [done| |].
  - destruct call; cbn in Hop; try (destruct (is_t3 _)); simplify_eq; discriminate.
  - destruct call; cbn in Hop; try (destruct (is_t3 _)); simplify_eq; cbn [exec] in Hrun;
      try (apply authorize_key_inv in Hrun as ([? _] & _); done);
      try (apply revoke_key_inv in Hrun as ([? _] & _); done);
      try (apply update_spending_limit_inv in Hrun as ([? _] & _); done);
      try (apply set_allowed_calls_inv in Hrun as ([? _] & _); done);
      try (apply remove_allowed_calls_inv in Hrun as ([? _] & _); done).
    apply burn_witness_inv in Hrun as (_ & -> & _). done.
Qed.

Lemma step_frozen ts w c :
  transaction_key (ps_keychain w) <> 0 -> frozen (ps_keychain w) (ps_keychain (precompile_step ts w c)).
Proof.
  intros Htk. destruct c as [addr input]. unfold precompile_step, lookup_precompile. cbn [fst snd].
  destruct (addr =? _); [|destruct (addr =? _); [|done]].
  - destruct (keychain_precompile _ ts input (ps_keychain w)) as [[[v|d]|e] k'] eqn:E; try done.
    apply keychain_success in E as [_ [->|(_ & call & op & Hop & Hrun)]]; [done|].
    exact (session_op_frozen (mkBlockEnv _ ts) _ _ _ _ _ Hop Htk Hrun).
  - by destruct (agent_precompile _ ts input (ps_agent w)) as [[[v|d]|e] k'].
Qed.

Lemma calls_frozen ts l w :
  transaction_key (ps_keychain w) <> 0 ->
  frozen (ps_keychain w) (ps_keychain (precompile_calls ts l w)).
Proof.
  revert w. induction l as [|c l IH]; intros w Htk; [done|].
  destruct (step_frozen ts w c Htk) as (H1 & H2 & H3 & H4 & H5).
  change (precompile_calls ts (c :: l) w) with (precompile_calls ts l (precompile_step ts w c)).
  destruct (IH (precompile_step ts w c)) as (I1 & I2 & I3 & I4 & I5); [congruence|].
  unfold frozen. by rewrite I1, I2, I3, I4, I5.
Qed.

Lemma step_tripped ts w c k :
  get_tripped k (ps_agent (precompile_step ts w c)) = get_tripped k (ps_agent w) \/
  (c.1 = SCI_AGENT_STATE_ADDRESS /\ pi_caller c.2 = AGENT_CIRCUIT_BREAKER_ADDRESS /\
   pi_is_direct_call c.2 = true /\ pi_is_static c.2 = false).
Proof.
  destruct c as [addr input]. unfold precompile_step, lookup_precompile. cbn [fst snd].
  destruct (addr =? _); [|destruct (addr =? _) eqn:Ea; [|by left]].
  - left. by destruct (keychain_precompile _ ts input (ps_keychain w)) as [[[v|d]|e] k'].
  - zbool. destruct (agent_precompile _ ts input (ps_agent w)) as [[[v|d]|e] k'] eqn:E; try by left.
    apply agent_success in E as [Hd [->|(Hs & Hm & _)]]; [by left|by right].
Qed.
End install.

Section claims.
Context `{Keccak256} `{PrecompileAbi}.

(** ABI dispatch of the keychain at every hardfork. Calldata that decodes to
    a call with the selector it carries is answered by halting when the gas does
    not cover the input; by the handler of that call when the call is available
    at the active hardfork (T3 adds the restriction-aware calls and drops the
    legacy limit getter, T5 adds the witness calls); and otherwise by an
    unknown-selector revert that changes nothing. *)
Theorem keychain_call_gated env st m gas calldata call s :
  (4 <= length calldata)%nat -> decode_keychain_call calldata = Ok call ->
  be_val (take 4 calldata) = selector_of call ->
  keychain_call env st m gas calldata s =
    if gas <? input_cost (Z.of_nat (length calldata)) then (Ok (OutHalt HaltOutOfGas), s)
    else if available (env_spec env) call then keychain_dispatch env st m call s
    else (Ok (OutRevert (RevError (UnknownFunctionSelector (selector_of call)))), s).
Proof.
  intros Hlen Hdec Hsel. unfold keychain_call, charge_input_cost. destruct (gas <? _); [done|].
  unfold dispatch_call. destruct (_ <? 4)%nat eqn:E; [apply Nat.ltb_lt in E; lia|].
  rewrite Hsel, schedules_available, Hdec. by destruct (available _ call).
Qed.

(** Delegate calls and static calls to either installed precompile never
    write: whatever the calldata, the state afterwards is the state before, and
    a delegate call is always refused. *)
Theorem protected_calls_pure address ts p input w :
  lookup_precompile address ts = Some p ->
  pi_is_static input = true \/ pi_is_direct_call input = false ->
  (pi_is_direct_call input = false -> (p input w).1 = Ok (Revm34Reverted RevDelegateCallNotAllowed)) /\
  (p input w).2 = w.
Proof.
  unfold lookup_precompile, keychain_precompile, agent_precompile, sci_precompile. intros Hp Hprot.
  destruct w as [k a]. destruct (address =? ACCOUNT_KEYCHAIN_ADDRESS); [|destruct (address =? _)];
    simplify_eq; cbn [ps_keychain ps_agent]; destruct (pi_is_direct_call input) eqn:Ed; cbn [negb];
    try (split; reflexivity); (destruct Hprot as [->|]; [|discriminate]);
    (split; [discriminate|]).
  - pose proof (keychain_call_static (mkBlockEnv SCI_LAUNCH_HARDFORK ts) (pi_caller input) (pi_gas input)
      (pi_data input) k) as Hs. by destruct (keychain_call _ _ _ _ _ k); cbn in *; subst.
  - pose proof (agent_call_static (mkBlockEnv SCI_LAUNCH_HARDFORK ts) (pi_caller input) (pi_gas input)
      (pi_data input) a) as Hs. by destruct (agent_call _ _ _ _ _ a); cbn in *; subst.
Qed.

(** C19: While a transaction is signed by a session key, no sequence of calls to
    the precompiles, by any contract and with any calldata, changes a key, a
    spending limit, a call scope, the transaction key or the transaction origin;
    and a circuit-breaker flag changes only by a direct, non-static call of the
    circuit breaker contract itself. *)
Theorem session_calls_frozen ts l w :
  transaction_key (ps_keychain w) <> 0 ->
  let w' := precompile_calls ts l w in
  frozen (ps_keychain w) (ps_keychain w') /\
  forall k, get_tripped k (ps_agent w') <> get_tripped k (ps_agent w) ->
    exists input, (SCI_AGENT_STATE_ADDRESS, input) ∈ l /\
      pi_caller input = AGENT_CIRCUIT_BREAKER_ADDRESS /\
      pi_is_direct_call input = true /\ pi_is_static input = false.
Proof.
  intros Htk. split; [by apply calls_frozen|]. intros k. clear Htk. revert w.
  induction l as [|[addr input] l IH]; intros w Hne; [done|]. cbn in Hne.
  destruct (step_tripped ts w (addr, input) k) as [Heq|(Ha & Hr)]; cbn [fst snd] in *.
  - rewrite <- Heq in Hne. apply IH in Hne as (i & Hi & ?). exists i. set_solver.
  - exists input. subst addr. split; [set_solver|done].
Qed.
End claims.

(** * A concrete instance *)

Module DispatchExample.
Definition hash : Keccak256 := {| keccak256 := fun _ => 9 |}.

(** A decoder for [revokeKey], [getRemainingLimit] and [tripKey] calldata. *)
Definition abi : PrecompileAbi := {|
  decode_keychain_call := fun data =>
    if be_val (take 4 data) =? 0x5ae7ab32 then Ok (revokeKey (be_val (drop 4 data)))
    else if be_val (take 4 data) =? 0x63b4290d then Ok (getRemainingLimit 1 2 7)
    else Err (UnknownSelector (be_val (take 4 data)));
  decode_agent_call := fun data =>
    if be_val (take 4 data) =? 0x67f12341 then Ok (tripKey (be_val (drop 4 data)))
    else Err InvalidArguments;
|}.
#[local] Existing Instances hash abi.

Definition kc : AccountKeychain :=
  mkAccountKeychain {[ (1, 2) := mkAuthorizedKey 0 1000 true false ]} ∅ ∅ ∅ 2 2 [].
Definition w : PrecompileState := mkPrecompileState kc (mkSciAgentState ∅ []).
Definition revoke_data : list Z := be_bytes 4 0x5ae7ab32 ++ be_bytes 32 2.
Definition trip_data : list Z := be_bytes 4 0x67f12341 ++ be_bytes 32 2.
Definition env : BlockEnv := mkBlockEnv T5 50.

Lemma keychain_call_gated_witness :
  keychain_call env false 1 1000 (be_bytes 4 0x63b4290d) kc
  = (Ok (OutRevert (RevError (UnknownFunctionSelector 0x63b4290d))), kc).
Proof.
  rewrite (keychain_call_gated env false 1 1000 (be_bytes 4 0x63b4290d) (getRemainingLimit 1 2 7) kc);
    [vm_compute; reflexivity| |vm_compute; reflexivity|vm_compute; reflexivity].
  cbn. lia.
Defined.

Lemma protected_calls_pure_witness :
  exists p, lookup_precompile ACCOUNT_KEYCHAIN_ADDRESS 50 = Some p /\
    (p (mkPrecompileInput revoke_data 1000 1 true true) w).2 = w.
Proof.
  eexists. split; [reflexivity|].
  refine (proj2 (protected_calls_pure ACCOUNT_KEYCHAIN_ADDRESS 50 _
    (mkPrecompileInput revoke_data 1000 1 true true) w eq_refl _)).
  left. reflexivity.
Defined.

(** The root account itself calls [revokeKey] inside a session-key transaction,
    and the circuit breaker trips the key. *)
Definition calls : list (Z * PrecompileInput) :=
  [(ACCOUNT_KEYCHAIN_ADDRESS, mkPrecompileInput revoke_data 1000 1 true false);
   (SCI_AGENT_STATE_ADDRESS, mkPrecompileInput trip_data 1000 AGENT_CIRCUIT_BREAKER_ADDRESS true false)].

Lemma session_calls_frozen_witness :
  frozen kc (ps_keychain (precompile_calls 50 calls w)) /\
  get_tripped 2 (ps_agent (precompile_calls 50 calls w)) = true.
Proof.
  split; [|vm_compute; reflexivity].
  refine (proj1 (session_calls_frozen 50 calls w _)). vm_compute. discriminate.
Defined.
End DispatchExample.
