(* ===== verification/AaHook.v ===== *)
(** The pre-execution hook of account-abstraction transactions
    ([handler/hook.rs], [handler/decode.rs]): authorization of the session key,
    circuit breaker, call scopes and the spending pre-flight before the batch
    runs, and the deferred deductions after it.

    The hook works on the state of the two precompiles at the launch hardfork.
    Decoding ERC-20 arguments is code of the [alloy] crates and is the class
    [Erc20Abi]. *)

From S2P Require Import Prelude Hardfork Packing Layout StorageVec EnumerableSet Keychain KeychainSpend KeychainScope KeychainAdmin AgentState Dispatch.

(** * Classifying token calls (handler/decode.rs) *)

(** [abi_decode(data).ok()] of the recognised calls; amounts are 256-bit. *)
Class Erc20Abi := {
  decode_transfer : list Z -> option (Z * Z);               (* to, amount *)
  decode_approve : list Z -> option (Z * Z);                (* spender, amount *)
  decode_transferFrom : list Z -> option (Z * Z * Z);       (* from, to, amount *)
  decode_transferWithMemo : list Z -> option (Z * Z * Z);   (* to, amount, memo *)
}.

Definition TRANSFER_SELECTOR : Z := 0xa9059cbb.
Definition APPROVE_SELECTOR : Z := 0x095ea7b3.
Definition TRANSFER_FROM_SELECTOR : Z := 0x23b872dd.
Definition TRANSFER_WITH_MEMO_SELECTOR : Z := 0x95777d59.

Section hook.
Context `{Keccak256} `{Erc20Abi}.

Definition classify_token_call (root target : Z) (data : list Z) : option (Z * Z) :=
  if (length data <? 4)%nat then None
  else
    let selector := be_val (take 4 data) in
    if selector =? TRANSFER_SELECTOR then
      '(_, amount) ← decode_transfer data; Some (target, amount)
    else if selector =? APPROVE_SELECTOR then
      '(_, amount) ← decode_approve data; Some (target, amount)
    else if selector =? TRANSFER_FROM_SELECTOR then
      '(from, _, amount) ← decode_transferFrom data;
      if from =? root then Some (target, amount) else None
    else if selector =? TRANSFER_WITH_MEMO_SELECTOR then
      '(_, amount, _) ← decode_transferWithMemo data; Some (target, amount)
    else None.

(** * The hook (handler/hook.rs) *)

Record AaCall := mkAaCall { ac_to : TxKind; ac_value : Z; ac_input : list Z }.

(** The message of a rejection; the hook turns each into an invalid transaction. *)
Inductive RejectReason :=
| UnauthorizedSessionKey (session_key root : Z)
| HookRejected (e : TempoPrecompileError).

Inductive HookOutcome := Pass | Reject (r : RejectReason).

(** A hard error: the error is propagated to the block builder. *)
Inductive HookError := HookSystemError (e : TempoPrecompileError).

(** [enter_keychain_storage]: the block's timestamp and the launch hardfork. *)
Definition hook_env (ts : Z) : BlockEnv := mkBlockEnv SCI_LAUNCH_HARDFORK ts.

Abbreviation wio := (stm PrecompileState TempoPrecompileError).
Definition on_keychain {A} (m : kio A) : wio A :=
  zoom ps_keychain (fun k w => mkPrecompileState k (ps_agent w)) m.
Definition on_agent {A} (m : asio A) : wio A :=
  zoom ps_agent (fun a w => mkPrecompileState (ps_keychain w) a) m.

Definition set_keychain_tx_origin (caller : Z) : kio unit :=
  set_tx_origin caller;;
  set_transaction_key 0.

Definition keychain_tx_origin (s : AccountKeychain) : res Z := Ok (tx_origin s).

(** [AccountKeychain::key_is_active] *)
Definition key_is_active (env : BlockEnv) (account key_id : Z) (s : AccountKeychain) : res bool :=
  match load_active_key account key_id (now env) s with
  | Ok _ => Ok true
  | Err e => if is_system_error e then Err e else Ok false
  end.

(** [*totals.entry(token).or_insert(0)] incremented by [amount]. *)
Definition add_total (token amount : Z) (totals : gmap Z Z) : gmap Z Z :=
  <[token := sat_add U256_MAX (default 0 (totals !! token)) amount]> totals.

Definition call_target (c : AaCall) : option Z :=
  match ac_to c with Create => None | Call target => Some target end.

Definition classified (root : Z) (c : AaCall) : option (Z * Z) :=
  target ← call_target c; classify_token_call root target (ac_input c).

(** The body of the loop over the batch, after the scope check. *)
Definition add_call (root : Z) (c : AaCall) (totals : gmap Z Z) : gmap Z Z :=
  let totals := if ac_value c =? 0 then totals else add_total 0 (ac_value c) totals in
  match classified root c with
  | Some (token, amount) => add_total token amount totals
  | None => totals
  end.

Fixpoint scan_calls (env : BlockEnv) (root session_key : Z) (calls : list AaCall) (totals : gmap Z Z)
  : kio (gmap Z Z) :=
  match calls with
  | [] => mret totals
  | c :: calls =>
      reads (validate_call_scope_for_transaction env root session_key (ac_to c) (ac_input c));;
      scan_calls env root session_key calls (add_call root c totals)
  end.

Definition check_total (env : BlockEnv) (root session_key : Z) (entry : Z * Z) : kio unit :=
  rem ← gets (effective_remaining_limit env root session_key entry.1 (now env));
  kguard (entry.2 >? rem) SpendingLimitExceeded.

(** The part of the hook under the journal checkpoint. *)
Definition hook_checks (env : BlockEnv) (root session_key : Z) (calls : list AaCall) (gas_reservation : Z)
  : wio unit :=
  is_trip ← on_agent (reads (is_tripped session_key));
  guard_err is_trip (AgentStateErr (KeyTripped session_key));;
  on_keychain (
    set_transaction_key session_key;;
    set_tx_origin session_key;;
    totals ← scan_calls env root session_key calls ∅;
    let totals := if gas_reservation =? 0 then totals else add_total 0 gas_reservation totals in
    key ← gets (get_authorized_key root session_key);
    if enforce_limits key then for_each (map_to_list totals) (check_total env root session_key)
    else mret tt).

Definition run_aa_keychain_hook (ts root session_key : Z) (calls : list AaCall) (gas_reservation : Z)
    (w : PrecompileState) : result HookError HookOutcome * PrecompileState :=
  let env := hook_env ts in
  match on_keychain (set_keychain_tx_origin session_key) w with
  | (Err e, w) => (Err (HookSystemError e), w)
  | (Ok _, w) =>
      match key_is_active env root session_key (ps_keychain w) with
      | Err e => (Err (HookSystemError e), w)
      | Ok false => (Ok (Reject (UnauthorizedSessionKey session_key root)), w)
      | Ok true =>
          match hook_checks env root session_key calls gas_reservation w with
          | (Ok _, w') => (Ok Pass, w')
          | (Err e, _) =>   (* the checkpoint is reverted *)
              if is_system_error e then (Err (HookSystemError e), w)
              else (Ok (Reject (HookRejected e)), w)
          end
      end
  end.

Definition deduct_call (env : BlockEnv) (root session_key : Z) (c : AaCall) : kio unit :=
  match classified root c with
  | Some (token, amount) => verify_and_update_spending env root session_key token amount
  | None => mret tt
  end.

Definition apply_aa_post_execution_deductions (ts root session_key : Z) (calls : list AaCall)
    (gas_deduction : Z) : kio unit :=
  let env := hook_env ts in
  let sentinel_total := foldl (fun acc c => sat_add U256_MAX acc (ac_value c)) gas_deduction calls in
  (if sentinel_total =? 0 then mret tt
   else verify_and_update_spending env root session_key 0 sentinel_total);;
  for_each calls (deduct_call env root session_key).

(** * Specification *)

(** Arguments within the ranges of their Rust types. *)
Definition aa_ok (root : Z) (c : AaCall) : Prop :=
  fits U256_MAX (ac_value c) /\
  forall token amount, classified root c = Some (token, amount) -> fits U256_MAX amount.

(** What one call spends of a token; [address(0)] stands for the native coin. *)
Definition call_spend (root token : Z) (c : AaCall) : Z :=
  (if token =? 0 then ac_value c else 0) +
  match classified root c with
  | Some (t, amount) => if t =? token then amount else 0
  | None => 0
  end.

(** What a batch spends of a token, gas included. *)
Definition batch_spend (root gas : Z) (calls : list AaCall) (token : Z) : Z :=
  (if token =? 0 then gas else 0) + foldr (fun c acc => call_spend root token c + acc) 0 calls.

(** The quota left for a token at the time of a block. *)
Definition quota (env : BlockEnv) (root session_key token : Z) (s : AccountKeychain) : Z :=
  remaining (row_at (get_limit (spending_limit_key root session_key) token s) (now env)).

Definition call_allowed (root session_key : Z) (s : AccountKeychain) (c : AaCall) : Prop :=
  match ac_to c with
  | Create => False
  | Call target =>
      policy_allows (live_policy (get_scope (spending_limit_key root session_key) s)) target (ac_input c) = true
  end.

(** What the hook demands of a batch. *)
Definition granted (env : BlockEnv) (root session_key : Z) (calls : list AaCall) (gas : Z)
    (w : PrecompileState) : Prop :=
  let s := ps_keychain w in
  let key := get_authorized_key root session_key s in
  key_active key (now env) /\ get_tripped session_key (ps_agent w) = false /\
  Forall (call_allowed root session_key s) calls /\
  (enforce_limits key = true -> forall token,
     Z.min (batch_spend root gas calls token) U256_MAX <= quota env root session_key token s).

(** The states the hook leaves: after a rejection and after a pass. *)
Definition seeded (session_key : Z) (w : PrecompileState) : PrecompileState :=
  mkPrecompileState (put_transaction_key 0 (put_tx_origin session_key (ps_keychain w))) (ps_agent w).
Definition session (session_key : Z) (w : PrecompileState) : PrecompileState :=
  mkPrecompileState (put_tx_origin session_key (put_transaction_key session_key
    (put_transaction_key 0 (put_tx_origin session_key (ps_keychain w))))) (ps_agent w).

(** * Totals *)

Definition entry (totals : gmap Z Z) (token : Z) : Z := default 0 (totals !! token).

Lemma entry_add_total t amt totals token :
  entry (add_total t amt totals) token =
  if t =? token then sat_add U256_MAX (entry totals t) amt else entry totals token.
Proof.
  unfold entry, add_total. destruct (t =? token) eqn:E; zbool.
  - subst. by rewrite lookup_insert_eq.
  - by rewrite lookup_insert_ne.
Qed.

Lemma entry_add_call root c totals token :
  aa_ok root c -> fits U256_MAX (entry totals token) ->
  entry (add_call root c totals) token = Z.min (entry totals token + call_spend root token c) U256_MAX.
Proof.
  intros [Hv Ha] He. unfold add_call, call_spend.
  assert (entry (if ac_value c =? 0 then totals else add_total 0 (ac_value c) totals) token =
    Z.min (entry totals token + if token =? 0 then ac_value c else 0) U256_MAX) as Hval.
  { unfold fits in *. destruct (ac_value c =? 0) eqn:E; zbool.
    - rewrite E. destruct (token =? 0); lia.
    - rewrite entry_add_total, (Z.eqb_sym 0 token). unfold sat_add.
      destruct (token =? 0) eqn:E2; zbool; subst; lia. }
  destruct (classified root c) as [[t amount]|] eqn:Ec; [|by rewrite Hval, Z.add_0_r].
  specialize (Ha t amount eq_refl). unfold fits in *.
  rewrite entry_add_total. destruct (t =? token) eqn:Et; zbool.
  - subst t. rewrite Hval. unfold sat_add. destruct (token =? 0); lia.
  - rewrite Hval. f_equal. lia.
Qed.

Lemma call_spend_nonneg root token c : aa_ok root c -> 0 <= call_spend root token c.
Proof.
  intros [Hv Ha]. unfold call_spend, fits in *. destruct (token =? 0), (classified root c) as [[t amt]|];
    try (specialize (Ha t amt eq_refl)); try destruct (t =? token); lia.
Qed.

Lemma entry_fold root calls totals token :
  Forall (aa_ok root) calls -> fits U256_MAX (entry totals token) ->
  entry (foldl (fun t c => add_call root c t) totals calls) token =
  Z.min (entry totals token + foldr (fun c acc => call_spend root token c + acc) 0 calls) U256_MAX.
Proof.
  revert totals. induction calls as [|c calls IH]; intros totals Hok He; cbn [foldl foldr].
  - unfold fits in He. lia.
  - apply Forall_cons in Hok as [Hc Hcs]. pose proof (call_spend_nonneg root token c Hc).
    pose proof (entry_add_call root c totals token Hc He) as Hadd.
    assert (0 <= foldr (fun c acc => call_spend root token c + acc) 0 calls).
    { clear -Hcs. induction Hcs; cbn; [lia|]. pose proof (call_spend_nonneg root token x H). lia. }
    rewrite IH; [rewrite Hadd|done|rewrite Hadd]; unfold fits in *; lia.
Qed.

Definition batch_totals (root gas : Z) (calls : list AaCall) : gmap Z Z :=
  let totals := foldl (fun t c => add_call root c t) ∅ calls in
  if gas =? 0 then totals else add_total 0 gas totals.

Lemma entry_batch root gas calls token :
  Forall (aa_ok root) calls -> 0 <= gas ->
  entry (batch_totals root gas calls) token = Z.min (batch_spend root gas calls token) U256_MAX.
Proof.
  intros Hok Hg. unfold batch_totals, batch_spend.
  assert (fits U256_MAX (entry ∅ token)) as He by (unfold fits, entry, U256_MAX; rewrite lookup_empty; cbn; lia).
  pose proof (entry_fold root calls ∅ token Hok He) as Hf. unfold entry in Hf at 2.
  rewrite lookup_empty in Hf. cbn [default] in Hf.
  destruct (gas =? 0) eqn:E; zbool.
  - subst. rewrite Hf. destruct (token =? 0); f_equal; lia.
  - rewrite entry_add_total, (Z.eqb_sym 0 token). destruct (token =? 0) eqn:Et; zbool; [|rewrite Hf; f_equal; lia].
    subst. rewrite Hf. unfold sat_add. lia.
Qed.

(** * Runs of the hook *)

Lemma zoom_run {S T E A} get put (m : stm T E A) (s : S) r t :
  m (get s) = (r, t) -> zoom get put m s = (r, put t s).
Proof. unfold zoom. by intros ->. Qed.

Lemma validate_allowed env root k c s :
  is_t3 (env_spec env) = true -> k <> 0 -> kc_ok s ->
  (call_allowed root k s c /\
     validate_call_scope_for_transaction env root k (ac_to c) (ac_input c) s = Ok tt) \/
  (~ call_allowed root k s c /\
     validate_call_scope_for_transaction env root k (ac_to c) (ac_input c) s = Err (KeychainErr CallNotAllowed)).
Proof.
  intros Ht3 Hk Hok. unfold call_allowed. destruct (ac_to c) as [|target].
  - right. split; [by intros []|]. unfold validate_call_scope_for_transaction. rewrite Ht3.
    by destruct (k =? 0) eqn:E; zbool.
  - rewrite validate_call_scope_run by (done || apply Hok). destruct (policy_allows _ _ _); eauto.
Qed.

Lemma scan_calls_run env root k calls totals s :
  is_t3 (env_spec env) = true -> k <> 0 -> kc_ok s ->
  (Forall (call_allowed root k s) calls /\
     scan_calls env root k calls totals s = (Ok (foldl (fun t c => add_call root c t) totals calls), s)) \/
  (~ Forall (call_allowed root k s) calls /\
     scan_calls env root k calls totals s = (Err (KeychainErr CallNotAllowed), s)).
Proof.
  intros Ht3 Hk Hok. revert totals. induction calls as [|c calls IH]; intros totals; [by left|].
  cbn [scan_calls]. destruct (validate_allowed env root k c s Ht3 Hk Hok) as [[Ha Hv]|[Ha Hv]].
  - rewrite (bind_run _ _ _ tt s) by (unfold reads; by rewrite Hv).
    destruct (IH (add_call root c totals)) as [[Hf ->]|[Hf ->]].
    + left. split; [by constructor|done].
    + right. split; [|done]. by intros [_ ?]%Forall_cons.
  - right. split; [by intros [? _]%Forall_cons|]. apply bind_run_err. unfold reads. by rewrite Hv.
Qed.

Lemma check_totals_run env root k (l : list (Z * Z)) s :
  let good e := e.2 <= effective_remaining_limit env root k e.1 (now env) s in
  (Forall good l /\ for_each l (check_total env root k) s = (Ok tt, s)) \/
  (~ Forall good l /\
     for_each l (check_total env root k) s = (Err (KeychainErr SpendingLimitExceeded), s)).
Proof.
  cbn zeta. induction l as [|e l IH]; [by left|]. cbn [for_each].
  destruct (e.2 >? effective_remaining_limit env root k e.1 (now env) s) eqn:E.
  - right. zbool. split; [intros [? _]%Forall_cons; lia|]. apply bind_run_err. unfold check_total.
    rewrite (bind_run _ _ _ _ s) by done. unfold kguard, guard_err.
    rewrite Z.gtb_ltb, (proj2 (Z.ltb_lt _ _)) by lia. done.
  - rewrite (bind_run _ _ _ tt s).
    2:{ unfold check_total. rewrite (bind_run _ _ _ _ s) by done. unfold kguard, guard_err. by rewrite E. }
    zbool. destruct IH as [[Hf ->]|[Hf ->]].
    + left. split; [by constructor|done].
    + right. split; [|done]. by intros [_ ?]%Forall_cons.
Qed.

(** Checking the entries of the map is checking every token. *)
Lemma totals_within (totals : gmap Z Z) (bound : Z -> Z) :
  (forall token, 0 <= bound token) ->
  Forall (fun e => e.2 <= bound e.1) (map_to_list totals) <->
  forall token, entry totals token <= bound token.
Proof.
  intros Hb. rewrite Forall_forall. split.
  - intros Hf token. unfold entry. destruct (totals !! token) as [v|] eqn:E; [|apply Hb].
    apply (Hf (token, v)). by apply elem_of_map_to_list.
  - intros Hf [t v] Hin%elem_of_map_to_list. specialize (Hf t). unfold entry in Hf. by rewrite Hin in Hf.
Qed.

Lemma quota_effective env root k token s :
  is_t3 (env_spec env) = true -> k <> 0 -> key_active (get_authorized_key root k s) (now env) ->
  effective_remaining_limit env root k token (now env) s = quota env root k token s.
Proof. intros. unfold effective_remaining_limit. by rewrite effective_active. Qed.

Lemma quota_nonneg env root k token s :
  kc_ok s -> 0 <= now env < U64_MAX -> 0 <= quota env root k token s.
Proof.
  intros Hok Ht. destruct (row_at_ok _ _ (ko_rows _ Hok (spending_limit_key root k) token) Ht) as [(Hr & _) _].
  apply Hr.
Qed.

Lemma kc_ok_transient k o s : kc_ok s -> kc_ok (put_tx_origin o (put_transaction_key k s)).
Proof. intros [Hk Hr Ht]. by split. Qed.

Lemma kc_ok_seeded k w : kc_ok (ps_keychain w) -> kc_ok (ps_keychain (seeded k w)).
Proof. intros [Hk Hr Ht]. by split. Qed.

Lemma hook_env_t3 ts : is_t3 (env_spec (hook_env ts)) = true.
Proof. done. Qed.

(** The limit part of the checks, on the keychain of the session. *)
Lemma limits_run ts root k gas calls s :
  let env := hook_env ts in
  let key := get_authorized_key root k s in
  k <> 0 -> 0 <= gas -> 0 <= now env < U64_MAX -> kc_ok s -> Forall (aa_ok root) calls ->
  key_active key (now env) ->
  let within := enforce_limits key = true -> forall token,
    Z.min (batch_spend root gas calls token) U256_MAX <= quota env root k token s in
  let m := if enforce_limits key
           then for_each (map_to_list (batch_totals root gas calls)) (check_total env root k)
           else mret tt in
  (within /\ m s = (Ok tt, s)) \/ (~ within /\ m s = (Err (KeychainErr SpendingLimitExceeded), s)).
Proof.
  cbn zeta. intros Hk Hg Ht Hok Hcalls Hact.
  destruct (enforce_limits _); [|left; split; [discriminate|done]].
  assert (Forall (fun e => e.2 <= effective_remaining_limit (hook_env ts) root k e.1 (now (hook_env ts)) s)
      (map_to_list (batch_totals root gas calls)) <->
    forall token, Z.min (batch_spend root gas calls token) U256_MAX <= quota (hook_env ts) root k token s) as Hiff.
  { rewrite (totals_within _ (fun t => effective_remaining_limit (hook_env ts) root k t (now (hook_env ts)) s)).
    - split; intros Hf token; specialize (Hf token);
        rewrite entry_batch, (quota_effective (hook_env ts)) in * by done; done.
    - intros t. rewrite quota_effective by done. by apply quota_nonneg. }
  destruct (check_totals_run (hook_env ts) root k (map_to_list (batch_totals root gas calls)) s)
    as [[Hf Hr]|[Hf Hr]].
  - left. split; [|done]. intros _. by apply Hiff.
  - right. split; [|done]. intros Hw. by apply Hf, Hiff, Hw.
Qed.

Lemma hook_checks_run ts root k gas calls w :
  let env := hook_env ts in
  k <> 0 -> 0 <= gas -> 0 <= now env < U64_MAX -> kc_ok (ps_keychain w) -> Forall (aa_ok root) calls ->
  key_active (get_authorized_key root k (ps_keychain w)) (now env) ->
  (granted env root k calls gas w /\
     hook_checks env root k calls gas w =
     (Ok tt, mkPrecompileState (put_tx_origin k (put_transaction_key k (ps_keychain w))) (ps_agent w))) \/
  (~ granted env root k calls gas w /\
     exists e w', hook_checks env root k calls gas w = (Err e, w') /\ is_system_error e = false).
Proof.
  cbn zeta. intros Hk Hg Ht Hok Hcalls Hact. unfold hook_checks.
  set (s' := put_tx_origin k (put_transaction_key k (ps_keychain w))).
  assert (kc_ok s') as Hok' by by apply kc_ok_transient.
  rewrite (bind_run _ _ _ (get_tripped k (ps_agent w)) w) by (by destruct w).
  unfold guard_err. destruct (get_tripped k (ps_agent w)) eqn:Etr.
  - right. split; [intros (_ & Htr & _); congruence|]. eexists _, _. by split.
  - rewrite (bind_run _ _ _ tt w) by done. unfold on_keychain, granted. cbn zeta. rewrite Etr.
    unfold zoom. rewrite (bind_run _ _ _ tt (put_transaction_key k (ps_keychain w))) by done.
    rewrite (bind_run _ _ _ tt s') by done.
    destruct (scan_calls_run (hook_env ts) root k calls ∅ s' (hook_env_t3 ts) Hk Hok') as [[Hall Hs]|[Hall Hs]].
    2:{ right. rewrite (bind_run_err _ _ _ _ _ Hs). split; [by intros (_ & _ & ? & _)|]. eexists _, _. by split. }
    rewrite (bind_run _ _ _ _ _ Hs), (bind_run _ _ _ (get_authorized_key root k s') s') by done.
    fold (batch_totals root gas calls).
    destruct (limits_run ts root k gas calls s' Hk Hg Ht Hok' Hcalls Hact) as [[Hw ->]|[Hw ->]].
    + left. split; [|done]. split; [exact Hact|]. split; [done|]. split; [exact Hall|exact Hw].
    + right. split; [by intros (_ & _ & _ & ?)|]. eexists _, _. by split.
Qed.

Lemma key_is_active_run env root k s :
  (key_active (get_authorized_key root k s) (now env) /\ key_is_active env root k s = Ok true) \/
  (~ key_active (get_authorized_key root k s) (now env) /\ key_is_active env root k s = Ok false).
Proof.
  unfold key_is_active. destruct (load_active_key root k (now env) s) as [key|e] eqn:E.
  - left. apply load_active_key_iff in E as [-> ?]. done.
  - right. split.
    + intros Ha. rewrite load_active_key_run in E by done. discriminate.
    + unfold load_active_key in E. repeat break_match_in E; simplify_eq; done.
Qed.

(** * Runs of the deductions *)

(** What a list of deductions takes from a token. *)
Definition pairs_spend (pairs : list (Z * Z)) (token : Z) : Z :=
  foldr (fun p acc => (if p.1 =? token then p.2 else 0) + acc) 0 pairs.

Lemma pairs_spend_nonneg pairs token :
  Forall (fun p => 0 <= p.2) pairs -> 0 <= pairs_spend pairs token.
Proof. unfold pairs_spend. induction 1; cbn; [lia|]. destruct (_ =? _); lia. Qed.

Section deductions.
Context (ts root k : Z).
Let env := hook_env ts.
Context (Hk : k <> 0) (Hts : 0 <= ts) (Hnow : 0 <= now env < U64_MAX).

Let deduct (p : Z * Z) : kio unit := verify_and_update_spending env root k p.1 p.2.

Lemma quota_spent token amt s t :
  kc_ok s ->
  quota env root k t (spent_state env root k token amt s) =
  quota env root k t s - (if token =? t then amt else 0).
Proof.
  intros Hok. unfold quota. destruct (token =? t) eqn:E; zbool.
  - subst t. rewrite spent_limit. cbn zeta.
    set (l := get_limit (spending_limit_key root k) token s).
    rewrite row_at_id; [done|]. cbn. pose proof (row_at_period l (now env)) as [-> _].
    intros Hp. apply row_at_window; [apply Hok|done|done].
  - rewrite spent_limit_ne by congruence. lia.
Qed.

Lemma deduct_run token amt s :
  kc_ok s -> key_active (get_authorized_key root k s) (now env) ->
  enforce_limits (get_authorized_key root k s) = true -> 0 <= amt <= quota env root k token s ->
  deduct (token, amt) s = (Ok tt, spent_state env root k token amt s) /\
  kc_ok (spent_state env root k token amt s).
Proof.
  intros Hok Hact Hen Hamt. unfold deduct. cbn [fst snd].
  assert (verify_and_update_spending env root k token amt s = (Ok tt, spent_state env root k token amt s)) as Hrun.
  { rewrite verify_run by done. fold (quota env root k token s).
    by rewrite (proj2 (Z.leb_le _ _)) by lia. }
  split; [done|]. eapply spend_kc_ok; [|exact (proj1 Hamt)|exact Hok|exact Hrun]. split; [done|exact Hts].
Qed.

Lemma deduct_all pairs s :
  kc_ok s -> key_active (get_authorized_key root k s) (now env) ->
  enforce_limits (get_authorized_key root k s) = true -> Forall (fun p => 0 <= p.2) pairs ->
  (forall t, pairs_spend pairs t <= quota env root k t s) ->
  exists s', for_each pairs deduct s = (Ok tt, s') /\
    (forall t, quota env root k t s' = quota env root k t s - pairs_spend pairs t) /\
    forall a k', get_authorized_key a k' s' = get_authorized_key a k' s.
Proof.
  revert s. induction pairs as [|[token amt] pairs IH]; intros s Hok Hact Hen Hpos Hfit.
  - exists s. split; [done|]. split; [|done]. intros t. cbn. lia.
  - apply Forall_cons in Hpos as [Hamt Hpos]. cbn [snd] in Hamt.
    pose proof (Hfit token) as Hft. cbn in Hft. rewrite Z.eqb_refl in Hft.
    pose proof (pairs_spend_nonneg pairs token Hpos).
    destruct (deduct_run token amt s Hok Hact Hen) as [Hrun Hok']; [unfold pairs_spend in *; lia|].
    destruct (IH (spent_state env root k token amt s)) as (s' & Hs' & Hq & Hkey); try done.
    + intros t. rewrite quota_spent by done. specialize (Hfit t). cbn in Hfit. fold (pairs_spend pairs t) in Hfit. lia.
    + exists s'. cbn [for_each]. rewrite (bind_run _ _ _ _ _ Hrun). split; [done|]. split.
      * intros t. rewrite Hq, quota_spent by done. cbn. fold (pairs_spend pairs t). lia.
      * intros a k'. by rewrite Hkey.
Qed.

(** The deductions of a batch, as a list. *)
Definition batch_pairs (calls : list AaCall) (gas : Z) : list (Z * Z) :=
  let total := foldl (fun acc c => sat_add U256_MAX acc (ac_value c)) gas calls in
  (if total =? 0 then [] else [(0, total)]) ++ omap (classified root) calls.

Lemma for_each_deduct calls s :
  for_each calls (deduct_call env root k) s = for_each (omap (classified root) calls) deduct s.
Proof.
  revert s. induction calls as [|c calls IH]; intros s; [done|]. cbn [for_each omap list_omap].
  assert (deduct_call env root k c s =
    match classified root c with Some p => deduct p s | None => (Ok tt, s) end) as Hc.
  { unfold deduct_call. by destruct (classified root c) as [[]|]. }
  unfold mbind, stm_bind. rewrite Hc. destruct (classified root c) as [p|]; cbn [for_each]; [|apply IH].
  unfold mbind, stm_bind. destruct (deduct p s) as [[[]|e] s1]; [apply IH|done].
Qed.

Lemma apply_pairs calls gas s :
  apply_aa_post_execution_deductions ts root k calls gas s = for_each (batch_pairs calls gas) deduct s.
Proof.
  unfold apply_aa_post_execution_deductions, batch_pairs. fold env. cbn zeta.
  destruct (_ =? 0); cbn [app for_each].
  - rewrite (bind_run _ _ _ tt s) by done. apply for_each_deduct.
  - unfold mbind, stm_bind, deduct at 1. cbn [fst snd].
    destruct (verify_and_update_spending env root k 0 _ s) as [[[]|e] s1]; [apply for_each_deduct|done].
Qed.

Lemma deduct_unlimited pairs s :
  key_active (get_authorized_key root k s) (now env) ->
  enforce_limits (get_authorized_key root k s) = false ->
  for_each pairs deduct s = (Ok tt, s).
Proof.
  intros Hact Hen. induction pairs as [|p pairs IH]; [done|]. cbn [for_each].
  rewrite (bind_run _ _ _ tt s); [done|]. unfold deduct, verify_and_update_spending.
  destruct (k =? 0) eqn:E; zbool; [done|].
  rewrite (bind_run _ _ _ (get_authorized_key root k s) s) by (unfold reads; by rewrite load_active_key_run).
  by rewrite Hen.
Qed.

Lemma sentinel_total calls gas :
  Forall (aa_ok root) calls -> fits U256_MAX gas ->
  foldl (fun acc c => sat_add U256_MAX acc (ac_value c)) gas calls =
  Z.min (gas + foldr (fun c acc => ac_value c + acc) 0 calls) U256_MAX.
Proof.
  intros Hok. revert gas. induction Hok as [|c calls [Hv _] Hok IH]; intros gas Hg; cbn [foldl foldr].
  - unfold fits in *. lia.
  - assert (0 <= foldr (fun c acc => ac_value c + acc) 0 calls).
    { clear -Hok. induction Hok as [|x l [Hx _]]; cbn; unfold fits in *; lia. }
    rewrite IH by (by apply fits_sat_add). unfold sat_add, fits in *. lia.
Qed.

Lemma batch_spend_split gas calls t :
  batch_spend root gas calls t =
  (if t =? 0 then gas + foldr (fun c acc => ac_value c + acc) 0 calls else 0) +
  pairs_spend (omap (classified root) calls) t.
Proof.
  unfold batch_spend. induction calls as [|c calls IH]; cbn [foldr omap list_omap].
  - cbn. destruct (t =? 0); lia.
  - unfold call_spend at 1. destruct (classified root c) as [[t' a]|]; cbn;
      destruct (t =? 0); try destruct (t' =? t); unfold pairs_spend in *; lia.
Qed.

Lemma pairs_classified_nonneg calls :
  Forall (aa_ok root) calls -> Forall (fun p : Z * Z => 0 <= p.2) (omap (classified root) calls).
Proof.
  induction 1 as [|c calls [_ Hc] _ IH]; [constructor|]. cbn.
  destruct (classified root c) as [[t a]|]; [|done]. constructor; [|done]. apply (Hc t a eq_refl).
Qed.

Lemma batch_pairs_spend calls gas t :
  Forall (aa_ok root) calls -> fits U256_MAX gas -> batch_spend root gas calls 0 <= U256_MAX ->
  Forall (fun p => 0 <= p.2) (batch_pairs calls gas) /\
  pairs_spend (batch_pairs calls gas) t = batch_spend root gas calls t.
Proof.
  intros Hok Hg Hmax. pose proof (pairs_classified_nonneg calls Hok) as Hcl.
  pose proof (pairs_spend_nonneg _ 0 Hcl) as Hcl0.
  rewrite batch_spend_split in Hmax. cbn [Z.eqb] in Hmax.
  unfold batch_pairs. rewrite sentinel_total by done.
  set (v := gas + foldr (fun c acc => ac_value c + acc) 0 calls) in *.
  rewrite Z.min_l by lia. rewrite batch_spend_split. fold v.
  assert (0 <= v).
  { subst v. assert (0 <= foldr (fun c acc => ac_value c + acc) 0 calls); [|unfold fits in Hg; lia].
    clear -Hok. induction Hok as [|x l [Hx _]]; cbn; unfold fits in *; lia. }
  destruct (v =? 0) eqn:E; zbool; cbn [app].
  - split; [done|]. destruct (t =? 0); lia.
  - split; [by constructor|]. cbn [pairs_spend foldr fst snd]. fold (pairs_spend (omap (classified root) calls) t).
    rewrite (Z.eqb_sym 0 t). destruct (t =? 0); lia.
Qed.

Lemma batch_spend_le gas gas' calls calls' t :
  Forall (aa_ok root) calls -> 0 <= gas' <= gas -> calls' = calls \/ calls' = [] ->
  0 <= batch_spend root gas' calls' t <= batch_spend root gas calls t.
Proof.
  intros Hok Hg Hc. unfold batch_spend.
  assert (0 <= foldr (fun c acc => call_spend root t c + acc) 0 calls).
  { clear -Hok. induction Hok; cbn; [lia|]. pose proof (call_spend_nonneg root t x H). lia. }
  destruct Hc as [->| ->]; cbn; destruct (t =? 0); lia.
Qed.
End deductions.


Lemma hook_pass_inv ts root k gas calls w w1 :
  k <> 0 -> fits U256_MAX gas -> 0 <= now (hook_env ts) < U64_MAX -> kc_ok (ps_keychain w) ->
  Forall (aa_ok root) calls -> run_aa_keychain_hook ts root k calls gas w = (Ok Pass, w1) ->
  granted (hook_env ts) root k calls gas w /\ w1 = session k w.
Proof.
  intros Hk Hg Hnow Hok Hcalls Hrun.
  pose proof (hook_checks_run ts root k gas calls (seeded k w) Hk (proj1 Hg) Hnow (kc_ok_seeded k w Hok) Hcalls) as Hc.
  unfold run_aa_keychain_hook in Hrun.
  change (on_keychain (set_keychain_tx_origin k) w) with (@Ok TempoPrecompileError _ tt, seeded k w) in Hrun.
  cbn beta iota in Hrun.
  destruct (key_is_active_run (hook_env ts) root k (ps_keychain (seeded k w))) as [[Hact Ha]|[Hact Ha]];
    rewrite Ha in Hrun; [|discriminate].
  destruct (Hc Hact) as [[Hgr Hc']|(_ & e & w' & Hc' & He)]; rewrite Hc' in Hrun;
    [by injection Hrun as <-|by rewrite He in Hrun].
Qed.

(** What the deductions read is unchanged on a frozen keychain. *)
Lemma frozen_view env root k s s' :
  kc_ok s -> frozen (put_tx_origin k (put_transaction_key k (put_transaction_key 0 (put_tx_origin k s)))) s' ->
  (forall a k', get_authorized_key a k' s' = get_authorized_key a k' s) /\
  (forall t, quota env root k t s' = quota env root k t s) /\ kc_ok s'.
Proof.
  intros [Ok1 Ok2 Ok3] (F1 & F2 & F3 & _ & _). split; [|split; [|split]]; intros;
    unfold quota, get_authorized_key, get_limit, get_scope; rewrite ?F1, ?F2, ?F3; try done;
    [apply Ok1|apply Ok2|apply Ok3].
Qed.
End hook.

Section claims.
Context `{Keccak256} `{PrecompileAbi} `{Erc20Abi}.

Lemma hook_pass_covers ts root k calls gas w w1 l calls' gas' :
  let env := hook_env ts in
  let s := ps_keychain w in
  k <> 0 -> 0 <= ts < U64_MAX -> fits U256_MAX gas -> kc_ok s -> Forall (aa_ok root) calls ->
  (forall token, quota env root k token s < U256_MAX) ->
  run_aa_keychain_hook ts root k calls gas w = (Ok Pass, w1) ->
  0 <= gas' <= gas -> calls' = calls \/ calls' = [] ->
  let s2 := ps_keychain (precompile_calls ts l w1) in
  exists s3, apply_aa_post_execution_deductions ts root k calls' gas' s2 = (Ok tt, s3) /\
    if enforce_limits (get_authorized_key root k s) then
      forall token, quota env root k token s3 = quota env root k token s - batch_spend root gas' calls' token
    else s3 = s2.
Proof.
  cbn zeta. intros Hk Hts Hg Hok Hcalls Hmax Hrun Hg' Hc'.
  assert (0 <= now (hook_env ts) < U64_MAX) as Hnow by (unfold now, hook_env; cbn; lia).
  destruct (hook_pass_inv ts root k gas calls w w1) as [(Hact & _ & _ & Hlim) ->]; try done.
  destruct (frozen_view (hook_env ts) root k (ps_keychain w) (ps_keychain (precompile_calls ts l (session k w))))
    as (Hkey & Hq & Hok2); [done|by apply (calls_frozen ts l (session k w))|].
  set (s2 := ps_keychain (precompile_calls ts l (session k w))) in *.
  rewrite apply_pairs. destruct (enforce_limits _) eqn:Hen.
  2:{ eexists. split; [|done]. apply deduct_unlimited; rewrite ?Hkey; done. }
  assert (Forall (aa_ok root) calls') as Hcalls' by (destruct Hc' as [->| ->]; [done|constructor]).
  assert (forall t, batch_spend root gas' calls' t <= quota (hook_env ts) root k t (ps_keychain w)) as Hfit.
  { intros t. pose proof (batch_spend_le root gas gas' calls calls' t Hcalls Hg' Hc').
    specialize (Hlim eq_refl t). specialize (Hmax t). lia. }
  destruct (batch_pairs_spend root calls' gas' 0) as [Hpos _];
    [done|unfold fits in *; lia|specialize (Hfit 0); specialize (Hmax 0); lia|].
  assert (forall t, pairs_spend (batch_pairs root calls' gas') t = batch_spend root gas' calls' t) as Hsum.
  { intros t. apply batch_pairs_spend; [done|unfold fits in *; lia|specialize (Hfit 0); specialize (Hmax 0); lia]. }
  destruct (deduct_all ts root k Hk (proj1 Hts) Hnow (batch_pairs root calls' gas') s2) as (s3 & H3 & Hq3 & _);
    rewrite ?Hkey; try done.
  - intros t. by rewrite Hsum, Hq.
  - exists s3. split; [done|]. intros t. by rewrite Hq3, Hq, Hsum.
Qed.

(** What the batch cannot change in between. *)
Lemma hook_pass_frozen ts root k calls gas w w1 l :
  k <> 0 -> 0 <= ts < U64_MAX -> fits U256_MAX gas -> kc_ok (ps_keychain w) -> Forall (aa_ok root) calls ->
  run_aa_keychain_hook ts root k calls gas w = (Ok Pass, w1) ->
  let s2 := ps_keychain (precompile_calls ts l w1) in
  (forall t, quota (hook_env ts) root k t s2 = quota (hook_env ts) root k t (ps_keychain w)) /\ kc_ok s2.
Proof.
  cbn zeta. intros Hk Hts Hg Hok Hcalls Hrun.
  destruct (hook_pass_inv ts root k gas calls w w1) as [_ ->]; try done; [unfold now, hook_env; cbn; lia|].
  by apply (frozen_view (hook_env ts) root k), (calls_frozen ts l (session k w)).
Qed.

(** C3: The hook passes exactly the batches it should, and a rejected batch
    leaves no trace. On a well-formed keychain it lets a batch through if and
    only if the signer holds an active key of the root account, the key is not
    tripped, the published access list allows every call (contract creation
    never is), and, when the key enforces limits, what the whole batch spends of
    each token (native value and reserved gas count against the sentinel token)
    fits the remaining quota. It then has made the session key the transaction
    key and origin. Otherwise the batch is rejected, never failed hard, and the
    precompile state is the one before but for the seeded transient origin. *)
Theorem hook_gates_batch ts root k calls gas w :
  let env := hook_env ts in
  k <> 0 -> 0 <= now env < U64_MAX -> fits U256_MAX gas -> kc_ok (ps_keychain w) ->
  Forall (aa_ok root) calls ->
  (granted env root k calls gas w -> run_aa_keychain_hook ts root k calls gas w = (Ok Pass, session k w)) /\
  (~ granted env root k calls gas w ->
   exists r, run_aa_keychain_hook ts root k calls gas w = (Ok (Reject r), seeded k w)).
Proof.
  cbn zeta. intros Hk Ht [Hg _] Hok Hcalls. unfold run_aa_keychain_hook.
  change (on_keychain (set_keychain_tx_origin k) w) with (@Ok TempoPrecompileError _ tt, seeded k w).
  cbn beta iota.
  change (granted (hook_env ts) root k calls gas w) with (granted (hook_env ts) root k calls gas (seeded k w)).
  destruct (key_is_active_run (hook_env ts) root k (ps_keychain (seeded k w))) as [[Hact ->]|[Hact ->]].
  - destruct (hook_checks_run ts root k gas calls (seeded k w) Hk Hg Ht (kc_ok_seeded k w Hok) Hcalls Hact)
      as [[Hgr ->]|(Hgr & e & w' & -> & ->)]; [split; [done|by intros []]|split; [done|eauto]].
  - split; [by intros (? & _)|eauto].
Qed.

(** C2: The pre-flight covers the deductions. If the hook lets a batch through,
    then whatever the batch's code calls on the precompiles in between, the
    deferred deductions succeed, for the calls of the batch (or for none of
    them, when the body failed) and any gas within the reservation; each token's
    quota goes down by exactly what was spent when the key enforces limits, and
    nothing is written when it does not. *)
Theorem hook_covers_deductions ts root k calls gas w w1 l calls' gas' :
  let env := hook_env ts in
  let s := ps_keychain w in
  k <> 0 -> 0 <= ts < U64_MAX -> fits U256_MAX gas -> kc_ok s -> Forall (aa_ok root) calls ->
  (forall token, quota env root k token s < U256_MAX) ->
  run_aa_keychain_hook ts root k calls gas w = (Ok Pass, w1) ->
  0 <= gas' <= gas -> calls' = calls \/ calls' = [] ->
  let s2 := ps_keychain (precompile_calls ts l w1) in
  exists s3, apply_aa_post_execution_deductions ts root k calls' gas' s2 = (Ok tt, s3) /\
    if enforce_limits (get_authorized_key root k s) then
      forall token, quota env root k token s3 = quota env root k token s - batch_spend root gas' calls' token
    else s3 = s2.
Proof. exact (hook_pass_covers ts root k calls gas w w1 l calls' gas'). Qed.
End claims.

(** * A concrete instance *)

Module HookExample.
#[local] Existing Instances DispatchExample.hash DispatchExample.abi.

(** The standard argument layout of the four calls. *)
Definition word (i : nat) (data : list Z) : Z := be_val (take 32 (drop (4 + 32 * i) data)).
Definition erc20 : Erc20Abi := {|
  decode_transfer := fun d => Some (word 0 d, word 1 d);
  decode_approve := fun d => Some (word 0 d, word 1 d);
  decode_transferFrom := fun d => Some (word 0 d, word 1 d, word 2 d);
  decode_transferWithMemo := fun d => Some (word 0 d, word 1 d, word 2 d);
|}.
#[local] Existing Instance erc20.

(** Session key 2 of root 1 may spend 100 of token 7 and 1000 of the native
    coin, gas included. *)
Definition h : Z := spending_limit_key 1 2.
Definition kc : AccountKeychain :=
  put_limit h 7 (mkSpendingLimitState 100 100 0 0)
    (put_limit h 0 (mkSpendingLimitState 1000 1000 0 0)
      (put_key 1 2 (mkAuthorizedKey 0 9000 true false) empty_keychain)).
Definition w : PrecompileState := mkPrecompileState kc (mkSciAgentState ∅ []).

Definition transfer (to amount : Z) : list Z :=
  be_bytes 4 TRANSFER_SELECTOR ++ be_bytes 32 to ++ be_bytes 32 amount.
Definition calls : list AaCall :=
  [mkAaCall (Call 7) 0 (transfer 5 60); mkAaCall (Call 7) 5 (transfer 5 30); mkAaCall (Call 8) 20 []].

Lemma kc_wf : kc_ok kc.
Proof.
  apply kc_ok_put_limit; [apply kc_ok_put_limit; [apply kc_ok_put_key; [apply kc_ok_empty|]|]|];
    unfold key_ok, row_ok, limit_ok, fits; vm_compute; repeat split; discriminate || auto.
Qed.

Lemma calls_wf : Forall (aa_ok 1) calls.
Proof.
  assert (forall c, c ∈ calls -> fits U256_MAX (ac_value c) /\
    (forall t a, classified 1 c = Some (t, a) -> fits U256_MAX a)) as Hc; [|by apply Forall_forall].
  intros c Hc. unfold calls in Hc. rewrite !elem_of_cons, elem_of_nil in Hc.
  destruct Hc as [->|[->|[->|[]]]]; (split; [unfold fits; vm_compute; split; discriminate|]);
    intros t a Ha; vm_compute in Ha; simplify_eq; unfold fits; vm_compute; split; discriminate.
Qed.

Lemma quota_small token : quota (hook_env 50) 1 2 token kc < U256_MAX.
Proof.
  unfold quota, kc. fold h. destruct (decide (token = 7)) as [->|H7].
  { rewrite get_limit_put_eq. vm_compute. reflexivity. }
  rewrite get_limit_put_ne by congruence. destruct (decide (token = 0)) as [->|H0].
  { rewrite get_limit_put_eq. vm_compute. reflexivity. }
  rewrite get_limit_put_ne by congruence. vm_compute. reflexivity.
Qed.

Lemma passes : run_aa_keychain_hook 50 1 2 calls 500 w = (Ok Pass, session 2 w).
Proof. vm_compute. reflexivity. Qed.

(** The batch passes; with a reservation of 976 it would not. *)
Lemma hook_gates_batch_witness :
  (granted (hook_env 50) 1 2 calls 500 w -> run_aa_keychain_hook 50 1 2 calls 500 w = (Ok Pass, session 2 w)) /\
  granted (hook_env 50) 1 2 calls 500 w /\
  run_aa_keychain_hook 50 1 2 calls 976 w = (Ok (Reject (HookRejected (KeychainErr SpendingLimitExceeded))), seeded 2 w).
Proof.
  split; [|split].
  - refine (proj1 (hook_gates_batch 50 1 2 calls 500 w _ _ _ kc_wf calls_wf));
      unfold fits; vm_compute; try split; discriminate || reflexivity.
  - apply (hook_pass_inv 50 1 2 500 calls w (session 2 w));
      [lia|unfold fits; vm_compute; split; discriminate|vm_compute; split; discriminate || reflexivity|
       apply kc_wf|apply calls_wf|apply passes].
  - vm_compute. reflexivity.
Defined.

(** The batch's code tries to revoke the key in between. *)
Lemma hook_covers_deductions_witness :
  exists s3, apply_aa_post_execution_deductions 50 1 2 calls 300
      (ps_keychain (precompile_calls 50 DispatchExample.calls (session 2 w))) = (Ok tt, s3) /\
    forall token, quota (hook_env 50) 1 2 token s3 =
      quota (hook_env 50) 1 2 token kc - batch_spend 1 300 calls token.
Proof.
  refine (hook_covers_deductions 50 1 2 calls 500 w (session 2 w) DispatchExample.calls calls 300
    _ _ _ kc_wf calls_wf quota_small passes _ _).
  - lia.
  - vm_compute. split; discriminate || reflexivity.
  - unfold fits. vm_compute. split; discriminate.
  - lia.
  - by left.
Defined.
End HookExample.
