(* ===== verification/Flz.v ===== *)
(** FastLZ compressed-length estimation ([crates/common/flz/src/flz.rs]), the
    size measure of the Fjord L1 fee.

    Reads outside the input and 32-bit subtractions below zero are panics of the
    code and are [None] here; the two loops carry fuel, and running out of it is
    [None] as well. [flz_total] shows that neither happens. *)

From S2P Require Import Prelude.

Definition ZERO_BYTE_COST : Z := 4.
Definition NON_ZERO_BYTE_COST : Z := 16.
Definition L1_COST_FASTLZ_COEF : Z := 836500.
Definition L1_COST_INTERCEPT : Z := 42585600.
Definition MIN_TX_SIZE_SCALED : Z := 100 * 1000000.

(** * The compressor *)

(** [input[idx as usize]] *)
Definition byte_at (input : list Z) (idx : Z) : option Z :=
  if idx <? 0 then None else input !! Z.to_nat idx.

Definition u24 (input : list Z) (idx : Z) : option Z :=
  a ← byte_at input idx;
  b ← byte_at input (idx + 1);
  c ← byte_at input (idx + 2);
  Some (a + Z.shiftl b 8 + Z.shiftl c 16).

Definition hash (v : Z) : Z := Z.land (wrap U16_MAX (Z.shiftr (v * 2654435769) 19)) 0x1fff.

Definition literals (r size : Z) : Z :=
  let size := size + 0x21 * (r / 0x20) in
  let r := r mod 0x20 in
  if r =? 0 then size else size + r + 1.

Definition flz_match (l size : Z) : option Z :=
  l ← checked_sub l 1;
  let size := size + 3 * (l / 262) in
  Some (if l mod 262 >=? 6 then size + 3 else size + 2).

(** The loop of [cmp] with [n] iterations left: it stops after the first
    difference, which still counts. *)
Fixpoint cmp_loop (input : list Z) (p q : Z) (n : nat) (l : Z) : option Z :=
  match n with
  | O => Some l
  | S n =>
      a ← byte_at input (p + l);
      b ← byte_at input (q + l);
      if a =? b then cmp_loop input p q n (l + 1) else Some (l + 1)
  end.

Definition cmp (input : list Z) (p q r : Z) : option Z :=
  n ← checked_sub r q;
  cmp_loop input p q (Z.to_nat n) 0.

Abbreviation Htab := (gmap Z Z).

Definition set_next_hash (htab : Htab) (input : list Z) (idx : Z) : option (Htab * Z) :=
  seq ← u24 input idx;
  Some (zset (hash seq) idx htab, idx + 1).

(** The inner [loop]: scans forward for a match; returns the position after it,
    the candidate and the table. *)
Fixpoint scan (fuel : nat) (input : list Z) (idx_limit idx : Z) (htab : Htab) : option (Z * Z * Htab) :=
  match fuel with
  | O => None
  | S fuel =>
      seq ← u24 input idx;
      let r := zget htab (hash seq) in
      let htab := zset (hash seq) idx htab in
      distance ← checked_sub idx r;
      if idx >=? idx_limit then Some (idx, r, htab)
      else
        let idx := idx + 1 in
        if distance <? 8192 then
          seq_r ← u24 input r;
          if seq =? seq_r then Some (idx, r, htab) else scan fuel input idx_limit idx htab
        else scan fuel input idx_limit idx htab
  end.

(** The outer [while]: returns the anchor and the size. *)
Fixpoint compress (fuel : nat) (input : list Z) (idx_limit idx anchor size : Z) (htab : Htab)
  : option (Z * Z) :=
  match fuel with
  | O => None
  | S fuel =>
      if idx <? idx_limit then
        '(idx, r, htab) ← scan (S (length input)) input idx_limit idx htab;
        if idx >=? idx_limit then Some (anchor, size)
        else
          let idx := idx - 1 in
          let size := if idx >? anchor then literals (idx - anchor) size else size in
          len ← cmp input (r + 3) (idx + 3) (idx_limit + 9);
          size ← flz_match len size;
          '(htab, idx) ← set_next_hash htab input (idx + len);
          '(htab, idx) ← set_next_hash htab input idx;
          compress fuel input idx_limit idx idx size htab
      else Some (anchor, size)
  end.

Definition flz_compress_len (input : list Z) : option Z :=
  let n := Z.of_nat (length input) in
  let idx_limit := if n <? 13 then 0 else n - 13 in
  '(anchor, size) ← compress (S (length input)) input idx_limit 2 0 0 ∅;
  r ← checked_sub n anchor;
  Some (literals r size).

Definition tx_estimated_size_fjord (input : list Z) : option Z :=
  fastlz_size ← flz_compress_len input;
  Some (Z.max (sat_sub (sat_mul U64_MAX fastlz_size L1_COST_FASTLZ_COEF) L1_COST_INTERCEPT)
          MIN_TX_SIZE_SCALED).

Definition tx_estimated_size_fjord_bytes (input : list Z) : option Z :=
  estimated_size ← tx_estimated_size_fjord input;
  Some (estimated_size / 1000000).

Definition data_gas_fjord (input : list Z) : option Z :=
  estimated_size ← tx_estimated_size_fjord input;
  Some (sat_mul U64_MAX estimated_size NON_ZERO_BYTE_COST / 1000000).

(** * In-range accesses *)

Lemma byte_at_some input idx :
  0 <= idx < Z.of_nat (length input) -> exists b, byte_at input idx = Some b.
Proof.
  intros Hi. unfold byte_at. destruct (idx <? 0) eqn:E; zbool; [lia|].
  apply lookup_lt_is_Some_2. lia.
Qed.

Lemma u24_some input idx :
  0 <= idx -> idx + 2 < Z.of_nat (length input) -> exists v, u24 input idx = Some v.
Proof.
  intros H0 H2. unfold u24.
  destruct (byte_at_some input idx) as [a ->]; [lia|].
  destruct (byte_at_some input (idx + 1)) as [b ->]; [lia|].
  destruct (byte_at_some input (idx + 2)) as [c ->]; [lia|]. cbn. eauto.
Qed.

Lemma cmp_loop_some input p q n l :
  0 <= l -> 0 <= p <= q -> q + l + Z.of_nat n <= Z.of_nat (length input) ->
  exists v, cmp_loop input p q n l = Some v /\ l <= v <= l + Z.of_nat n /\ (n <> O -> l < v).
Proof.
  revert l. induction n as [|n IH]; intros l Hl Hp Hq.
  - exists l. split; [done|]. split; [lia|done].
  - cbn [cmp_loop]. destruct (byte_at_some input (p + l)) as [a ->]; [lia|].
    destruct (byte_at_some input (q + l)) as [b ->]; [lia|]. cbn [mbind option_bind].
    destruct (a =? b).
    + destruct (IH (l + 1)) as (v & -> & Hv & _); [lia..|]. exists v. split; [done|]. lia.
    + exists (l + 1). split; [done|]. lia.
Qed.

(** * Termination and size *)

(** Table entries are positions already passed. *)
Definition below (idx : Z) (htab : Htab) : Prop := forall h, 0 <= zget htab h < idx.

Lemma below_step idx htab h : 0 <= idx -> below idx htab -> below (idx + 1) (zset h idx htab).
Proof. intros H0 Hb h'. rewrite zget_zset. specialize (Hb h'). case_decide; lia. Qed.

(** One byte of header per 32 literals, and matches never cost more than they
    save. *)
Lemma literals_bound r size : 0 <= r -> size + r <= literals r size <= size + r + r / 32 + 1.
Proof.
  intros Hr. unfold literals. pose proof (Z.div_mod r 32). pose proof (Z.mod_pos_bound r 32).
  destruct (r mod 32 =? 0) eqn:E; zbool; lia.
Qed.

Lemma flz_match_bound l size :
  1 <= l -> exists size', flz_match l size = Some size' /\ size + 2 <= size' <= size + l + 1.
Proof.
  intros Hl. unfold flz_match, checked_sub. destruct (1 <=? l) eqn:E; zbool; [|lia]. cbn [mbind option_bind].
  eexists. split; [done|]. pose proof (Z.div_mod (l - 1) 262). pose proof (Z.mod_pos_bound (l - 1) 262).
  assert (0 <= (l - 1) / 262) by (apply Z.div_pos; lia).
  destruct (_ >=? 6) eqn:E6; zbool; lia.
Qed.

Lemma budget_step anchor r l :
  0 <= anchor -> 0 <= r -> 1 <= l ->
  anchor + anchor / 32 + (r + r / 32 + 1) + (l + 1) <= (anchor + r + l + 2) + (anchor + r + l + 2) / 32.
Proof.
  intros. assert (anchor / 32 + r / 32 <= (anchor + r + l + 2) / 32); [|lia].
  apply Z.div_le_lower_bound; [lia|]. pose proof (Z.mul_div_le anchor 32). pose proof (Z.mul_div_le r 32). lia.
Qed.

Section run.
Context (input : list Z).
Let n := Z.of_nat (length input).
Context (limit : Z) (Hlimit : 0 <= limit <= n - 13).

Lemma scan_some fuel idx htab :
  0 <= idx <= limit -> below idx htab -> limit - idx < Z.of_nat fuel ->
  exists idx' r htab', scan fuel input limit idx htab = Some (idx', r, htab') /\
    (limit <= idx' \/ idx < idx' < limit /\ 0 <= r < idx' - 1 /\ below idx' htab').
Proof.
  revert idx htab. induction fuel as [|fuel IH]; intros idx htab Hidx Hb Hfuel; [lia|]. cbn [scan].
  destruct (u24_some input idx) as [seq ->]; [lia..|]. cbn [mbind option_bind].
  pose proof (Hb (hash seq)) as Hr. unfold checked_sub.
  destruct (zget htab (hash seq) <=? idx) eqn:E; zbool; [|lia]. cbn [mbind option_bind].
  destruct (idx >=? limit) eqn:E1; zbool; [eexists _, _, _; split; [done|]; lia|].
  pose proof (below_step idx htab (hash seq) (proj1 Hidx) Hb) as Hb'.
  assert (exists idx' r htab',
    scan fuel input limit (idx + 1) (zset (hash seq) idx htab) = Some (idx', r, htab') /\
    (limit <= idx' \/ idx < idx' < limit /\ 0 <= r < idx' - 1 /\ below idx' htab')) as Hrec.
  { destruct (IH (idx + 1) (zset (hash seq) idx htab)) as (i & r & t & Hs & Hc); [lia|done|lia|].
    exists i, r, t. split; [done|]. destruct Hc as [?|(? & ? & ?)]; [by left|right; split; [lia|done]]. }
  destruct (_ <? 8192); [|exact Hrec].
  destruct (u24_some input (zget htab (hash seq))) as [seq_r ->]; [lia..|]. cbn [mbind option_bind].
  destruct (seq =? seq_r); [|exact Hrec].
  eexists _, _, _. split; [done|].
  destruct (decide (limit <= idx + 1)); [by left|right; split; [lia|split; [lia|done]]].
Qed.

(** A step past a match: the bounds of everything the loop body computes. *)
Lemma compress_some fuel idx anchor size htab :
  0 <= anchor <= idx -> idx <= n -> 0 < idx -> (limit = 0 \/ anchor <= n - 5) ->
  below idx htab -> 0 <= size <= anchor + anchor / 32 -> n - idx < Z.of_nat fuel ->
  exists a s, compress fuel input limit idx anchor size htab = Some (a, s) /\
    0 <= a <= n /\ (a = anchor \/ a <= n - 5) /\ 0 <= s <= a + a / 32.
Proof.
  revert idx anchor size htab. induction fuel as [|fuel IH]; intros idx anchor size htab Ha Hi Hpos Hlim Hb Hs Hfuel;
    [lia|]. cbn [compress].
  destruct (idx <? limit) eqn:E; zbool; [|eexists _, _; split; [done|lia]].
  destruct (scan_some (S (length input)) idx htab) as (i & r & t & -> & Hc); [lia|done|lia|].
  cbn [mbind option_bind]. destruct (i >=? limit) eqn:E1; zbool; [eexists _, _; split; [done|lia]|].
  destruct Hc as [?|(Hir & Hr & Hb')]; [lia|].
  unfold cmp, checked_sub. destruct (_ <=? limit + 9) eqn:E2; zbool; [|lia]. cbn [mbind option_bind].
  destruct (cmp_loop_some input (r + 3) (i - 1 + 3) (Z.to_nat (limit + 9 - (i - 1 + 3))) 0)
    as (l & -> & Hl & Hl0); [lia..|]. cbn [mbind option_bind].
  specialize (Hl0 ltac:(lia)).
  set (size1 := if i - 1 >? anchor then literals (i - 1 - anchor) size else size).
  assert (size <= size1 <= size + (i - 1 - anchor) + (i - 1 - anchor) / 32 + 1) as Hs1.
  { subst size1. assert (0 <= (i - 1 - anchor) / 32) by (apply Z.div_pos; lia).
    destruct (i - 1 >? anchor) eqn:E3; zbool; [|lia].
    pose proof (literals_bound (i - 1 - anchor) size). lia. }
  destruct (flz_match_bound l size1) as (size2 & -> & Hs2); [lia|]. cbn [mbind option_bind].
  unfold set_next_hash.
  destruct (u24_some input (i - 1 + l)) as [q1 ->]; [lia..|]. cbn [mbind option_bind].
  destruct (u24_some input (i - 1 + l + 1)) as [q2 ->]; [lia..|]. cbn [mbind option_bind].
  pose proof (budget_step anchor (i - 1 - anchor) l) as Hbud.
  replace (anchor + (i - 1 - anchor) + l + 2) with (i - 1 + l + 1 + 1) in Hbud by lia.
  edestruct IH as (a & s & Hrun & Hao & Hac & Hso); [| | | | | | |exists a, s; split; [exact Hrun|]]; try lia.
  apply below_step; [lia|]. apply below_step; [lia|]. intros h. specialize (Hb' h). lia.
Qed.
End run.

Lemma flz_len_some input :
  let n := Z.of_nat (length input) in
  exists m, flz_compress_len input = Some m /\ (m = 0 <-> input = []) /\ 0 <= m <= n + n / 32 + 1.
Proof.
  cbn zeta. unfold flz_compress_len. set (n := Z.of_nat (length input)).
  set (limit := if n <? 13 then 0 else n - 13).
  destruct (decide (n < 13)) as [Hs|Hs].
  - assert (limit = 0) as -> by (subst limit; destruct (n <? 13) eqn:E; zbool; lia).
    cbn [compress Z.ltb Z.compare mbind option_bind]. unfold checked_sub.
    destruct (0 <=? n) eqn:E; zbool; [|lia]. cbn [mbind option_bind]. eexists. split; [done|].
    pose proof (literals_bound (n - 0) 0 ltac:(lia)) as Hl. rewrite Z.sub_0_r in *. split; [|lia].
    split; [intros Hz; apply length_zero_iff_nil; lia|intros ->; done].
  - assert (limit = n - 13) as Hlim by (subst limit; destruct (n <? 13) eqn:E; zbool; lia).
    destruct (compress_some input limit ltac:(lia) (S (length input)) 2 0 0 ∅)
      as (a & s & -> & Ha & Ha5 & Hsz); [lia..| |rewrite Z.div_0_l; lia|lia|].
    { intros h. rewrite zget_empty. lia. }
    cbn [mbind option_bind]. unfold checked_sub. destruct (a <=? n) eqn:E; zbool; [|lia].
    cbn [mbind option_bind]. eexists. split; [done|].
    pose proof (literals_bound (n - a) s ltac:(lia)) as Hl.
    assert (a / 32 + (n - a) / 32 <= n / 32).
    { apply Z.div_le_lower_bound; [lia|]. pose proof (Z.mul_div_le a 32). pose proof (Z.mul_div_le (n - a) 32). lia. }
    split; [|lia]. split; [lia|]. intros ->. subst n. cbn in *. lia.
Qed.

(** FastLZ length estimation is total: on every input of less than 2^31
    bytes it terminates without an out-of-range access or an underflow, its
    result is zero only for the empty input and exceeds the input by at most one
    byte in 32 plus one (so it fits 32 bits), and the Fjord size estimate built
    on it is at least the 100-byte minimum, hence at least 1600 data gas. *)
Theorem flz_total input :
  let n := Z.of_nat (length input) in
  n < 2 ^ 31 ->
  exists m e g,
    flz_compress_len input = Some m /\ tx_estimated_size_fjord input = Some e /\
    data_gas_fjord input = Some g /\
    (m = 0 <-> input = []) /\ 0 <= m <= n + n / 32 + 1 /\ m <= U32_MAX /\
    MIN_TX_SIZE_SCALED <= e <= U64_MAX /\ 1600 <= g.
Proof.
  cbn zeta. intros Hn. destruct (flz_len_some input) as (m & Hm & Hm0 & Hmb).
  set (n := Z.of_nat (length input)) in *.
  unfold tx_estimated_size_fjord, data_gas_fjord, tx_estimated_size_fjord. rewrite Hm. cbn [mbind option_bind].
  do 3 eexists. do 3 (split; [done|]). split; [done|]. split; [done|].
  assert (n / 32 <= n) by (apply Z.div_le_upper_bound; lia).
  unfold sat_sub, sat_mul, U32_MAX, U64_MAX, MIN_TX_SIZE_SCALED, L1_COST_FASTLZ_COEF, L1_COST_INTERCEPT,
    NON_ZERO_BYTE_COST. split; [lia|]. split; [lia|]. apply Z.div_le_lower_bound; lia.
Qed.

(** The unit tests' thousand zeros and short string. *)
Lemma flz_total_witness :
  flz_compress_len (repeat 0 1000) = Some 21 /\ flz_compress_len [0xFA; 0xCA; 0xDE] = Some 4 /\
  exists m e g,
    flz_compress_len (repeat 0 1000) = Some m /\ tx_estimated_size_fjord (repeat 0 1000) = Some e /\
    data_gas_fjord (repeat 0 1000) = Some g /\
    (m = 0 <-> repeat 0 1000 = []) /\ 0 <= m <= 1000 + 1000 / 32 + 1 /\ m <= U32_MAX /\
    MIN_TX_SIZE_SCALED <= e <= U64_MAX /\ 1600 <= g.
Proof.
  split; [vm_compute; reflexivity|]. split; [vm_compute; reflexivity|].
  refine (flz_total (repeat 0 1000) _). vm_compute. reflexivity.
Defined.
