(* ===== verification/L1Block.v ===== *)
(** L1 data fees and operator fees ([crates/common/evm/src/l1block.rs]) and the
    upgrade ladder they depend on ([crates/common/chains/src/upgrade.rs],
    [crates/common/evm/src/spec.rs]).

    The database read is a function from storage slots of the L1 block info
    predeploy to words. Functions and constants of revm are parameters: calldata
    token counting is the class [RevmCalldata], gas accounting [RevmGas]. *)

From S2P Require Import Prelude Flz.

(** * Upgrades *)

Inductive BaseUpgrade :=
| Bedrock | Regolith | Canyon | Ecotone | Fjord | Granite | Holocene | Isthmus | Jovian | Azul | Beryl.

(** The discriminant, [self as u8]. *)
Definition upgrade_index (u : BaseUpgrade) : Z :=
  match u with
  | Bedrock => 0 | Regolith => 1 | Canyon => 2 | Ecotone => 3 | Fjord => 4 | Granite => 5
  | Holocene => 6 | Isthmus => 7 | Jovian => 8 | Azul => 9 | Beryl => 10
  end.

(** [BaseSpecId::is_enabled_in] *)
Definition is_enabled_in (spec other : BaseUpgrade) : bool := upgrade_index other <=? upgrade_index spec.

(** Activation times of a chain ([ForkCondition]); [None] is never. *)
Record Upgrades := mkUpgrades { activation : BaseUpgrade -> option Z }.

Definition active_at_timestamp (u : Upgrades) (fork : BaseUpgrade) (ts : Z) : bool :=
  match activation u fork with Some t => t <=? ts | None => false end.

Definition from_timestamp (u : Upgrades) (ts : Z) : BaseUpgrade :=
  if active_at_timestamp u Beryl ts then Beryl
  else if active_at_timestamp u Azul ts then Azul
  else if active_at_timestamp u Jovian ts then Jovian
  else if active_at_timestamp u Isthmus ts then Isthmus
  else if active_at_timestamp u Holocene ts then Holocene
  else if active_at_timestamp u Granite ts then Granite
  else if active_at_timestamp u Fjord ts then Fjord
  else if active_at_timestamp u Ecotone ts then Ecotone
  else if active_at_timestamp u Canyon ts then Canyon
  else if active_at_timestamp u Regolith ts then Regolith
  else Bedrock.

(** * revm's parts *)

Class RevmCalldata := {
  get_tokens_in_calldata_istanbul : list Z -> Z;
  NON_ZERO_BYTE_MULTIPLIER_ISTANBUL : Z;
  STANDARD_TOKEN_COST : Z;
}.

(** revm's [Gas] counter. *)
Class RevmGas := {
  Gas : Type;
  g_limit : Gas -> Z;
  g_remaining : Gas -> Z;
  g_refunded : Gas -> Z;
  g_used : Gas -> Z;
  new_spent : Z -> Gas;
  erase_cost : Z -> Gas -> Gas;
  record_refund : Z -> Gas -> Gas;
  set_final_refund : bool -> Gas -> Gas;
}.

(** * L1 block info *)

Record L1BlockInfo := mkL1BlockInfo {
  l2_block : option Z;
  l1_base_fee : Z;
  l1_fee_overhead : option Z;
  l1_base_fee_scalar : Z;
  l1_blob_base_fee : option Z;
  l1_blob_base_fee_scalar : option Z;
  operator_fee_scalar : option Z;
  operator_fee_constant : option Z;
  da_footprint_gas_scalar : option Z;
  empty_ecotone_scalars : bool;
  tx_l1_cost : option Z;
}.

Definition BASE_FEE_SCALAR_OFFSET : nat := 16.
Definition BLOB_BASE_FEE_SCALAR_OFFSET : nat := 20.
Definition OPERATOR_FEE_SCALAR_OFFSET : nat := 20.
Definition OPERATOR_FEE_CONSTANT_OFFSET : nat := 24.
Definition DA_FOOTPRINT_GAS_SCALAR_OFFSET : nat := 18.
Definition OPERATOR_FEE_SCALAR_DECIMAL : Z := 1000000.
Definition OPERATOR_FEE_JOVIAN_MULTIPLIER : Z := 100.
Definition L1_BASE_FEE_SLOT : Z := 1.
Definition L1_OVERHEAD_SLOT : Z := 5.
Definition L1_SCALAR_SLOT : Z := 6.
Definition ECOTONE_L1_BLOB_BASE_FEE_SLOT : Z := 7.
Definition ECOTONE_L1_FEE_SCALARS_SLOT : Z := 3.
Definition OPERATOR_FEE_SCALARS_SLOT : Z := 8.
Definition DA_FOOTPRINT_GAS_SCALAR_SLOT : Z := 8.
Definition EMPTY_SCALARS : list Z := repeat 0 8.

(** [word.to_be_bytes::<32>()[off..off + len]] *)
Definition be_slice (word : Z) (off len : nat) : list Z := take len (drop off (be_bytes 32 word)).

Definition fetch_da_footprint_gas_scalar (db : Z -> Z) : Z :=
  be_val (be_slice (db DA_FOOTPRINT_GAS_SCALAR_SLOT) DA_FOOTPRINT_GAS_SCALAR_OFFSET 2).

Definition try_fetch_jovian (db : Z -> Z) (i : L1BlockInfo) : L1BlockInfo :=
  mkL1BlockInfo (l2_block i) (l1_base_fee i) (l1_fee_overhead i) (l1_base_fee_scalar i)
    (l1_blob_base_fee i) (l1_blob_base_fee_scalar i) (operator_fee_scalar i) (operator_fee_constant i)
    (Some (fetch_da_footprint_gas_scalar db)) (empty_ecotone_scalars i) (tx_l1_cost i).

Definition try_fetch_isthmus (db : Z -> Z) (i : L1BlockInfo) : L1BlockInfo :=
  let operator_fee_scalars := db OPERATOR_FEE_SCALARS_SLOT in
  mkL1BlockInfo (l2_block i) (l1_base_fee i) (l1_fee_overhead i) (l1_base_fee_scalar i)
    (l1_blob_base_fee i) (l1_blob_base_fee_scalar i)
    (Some (be_val (be_slice operator_fee_scalars OPERATOR_FEE_SCALAR_OFFSET 4)))
    (Some (be_val (be_slice operator_fee_scalars OPERATOR_FEE_CONSTANT_OFFSET 8)))
    (da_footprint_gas_scalar i) (empty_ecotone_scalars i) (tx_l1_cost i).

Definition try_fetch_ecotone (db : Z -> Z) (i : L1BlockInfo) : L1BlockInfo :=
  let l1_fee_scalars := db ECOTONE_L1_FEE_SCALARS_SLOT in
  let blob_scalar := be_val (be_slice l1_fee_scalars BLOB_BASE_FEE_SCALAR_OFFSET 4) in
  let empty := (blob_scalar =? 0) &&
    bool_decide (be_slice l1_fee_scalars BASE_FEE_SCALAR_OFFSET 8 = EMPTY_SCALARS) in
  mkL1BlockInfo (l2_block i) (l1_base_fee i)
    (if empty then Some (db L1_OVERHEAD_SLOT) else None)
    (be_val (be_slice l1_fee_scalars BASE_FEE_SCALAR_OFFSET 4))
    (Some (db ECOTONE_L1_BLOB_BASE_FEE_SLOT)) (Some blob_scalar)
    (operator_fee_scalar i) (operator_fee_constant i) (da_footprint_gas_scalar i) empty (tx_l1_cost i).

Definition try_fetch (db : Z -> Z) (block : Z) (spec : BaseUpgrade) : L1BlockInfo :=
  let out := mkL1BlockInfo (Some block) (db L1_BASE_FEE_SLOT) None 0 None None None None None false None in
  if negb (is_enabled_in spec Ecotone) then
    mkL1BlockInfo (Some block) (db L1_BASE_FEE_SLOT) (Some (db L1_OVERHEAD_SLOT)) (db L1_SCALAR_SLOT)
      None None None None None false None
  else
    let out := try_fetch_ecotone db out in
    let out := if is_enabled_in spec Isthmus then try_fetch_isthmus db out else out in
    if is_enabled_in spec Jovian then try_fetch_jovian db out else out.

(** * Operator fee *)

Definition umul (a b : Z) : Z := sat_mul U256_MAX a b.
Definition uadd (a b : Z) : Z := sat_add U256_MAX a b.

Definition operator_fee_charge_inner (i : L1BlockInfo) (gas : Z) (spec : BaseUpgrade) : Z :=
  let scalar := default 0 (operator_fee_scalar i) in
  let constant := default 0 (operator_fee_constant i) in
  let product :=
    if is_enabled_in spec Jovian then umul (umul gas scalar) OPERATOR_FEE_JOVIAN_MULTIPLIER
    else umul gas scalar / OPERATOR_FEE_SCALAR_DECIMAL in
  uadd product constant.

(** The input is empty or a deposit transaction. *)
Definition is_free_input (input : list Z) : bool :=
  match input with [] => true | b :: _ => b =? 0x7E end.

Definition operator_fee_charge (i : L1BlockInfo) (input : list Z) (gas_limit : Z) (spec : BaseUpgrade) : Z :=
  if is_free_input input then 0 else operator_fee_charge_inner i gas_limit spec.

Definition operator_fee_refund `{RevmGas} (i : L1BlockInfo) (gas : Gas) (spec : BaseUpgrade) : Z :=
  if negb (is_enabled_in spec Isthmus) then 0
  else
    let at_limit := operator_fee_charge_inner i (g_limit gas) spec in
    let at_used := operator_fee_charge_inner i
      (wrap U64_MAX (g_limit gas - wrap U64_MAX (g_remaining gas + wrap U64_MAX (g_refunded gas)))) spec in
    sat_sub at_limit at_used.

(** * L1 cost *)

Section cost.
Context `{RevmCalldata}.

(** FastLZ never fails ([Flz.flz_len_some]). *)
Definition estimated_size_fjord (input : list Z) : Z := default 0 (tx_estimated_size_fjord input).

Definition data_gas (input : list Z) (spec : BaseUpgrade) : Z :=
  if is_enabled_in spec Fjord then
    umul (estimated_size_fjord input) NON_ZERO_BYTE_COST / 1000000
  else
    let tokens := get_tokens_in_calldata_istanbul input in
    let tokens := if negb (is_enabled_in spec Regolith) then tokens + 68 * NON_ZERO_BYTE_MULTIPLIER_ISTANBUL
                  else tokens in
    sat_mul U64_MAX tokens STANDARD_TOKEN_COST.

Definition calculate_tx_l1_cost_bedrock (i : L1BlockInfo) (input : list Z) (spec : BaseUpgrade) : Z :=
  umul (umul (uadd (data_gas input spec) (default 0 (l1_fee_overhead i))) (l1_base_fee i))
    (l1_base_fee_scalar i) / 1000000.

Definition calculate_l1_fee_scaled_ecotone (i : L1BlockInfo) : Z :=
  let calldata_cost_per_byte := umul (umul (l1_base_fee i) NON_ZERO_BYTE_COST) (l1_base_fee_scalar i) in
  let blob_cost_per_byte := umul (default 0 (l1_blob_base_fee i)) (default 0 (l1_blob_base_fee_scalar i)) in
  uadd calldata_cost_per_byte blob_cost_per_byte.

Definition calculate_tx_l1_cost_ecotone (i : L1BlockInfo) (input : list Z) (spec : BaseUpgrade) : Z :=
  if empty_ecotone_scalars i then calculate_tx_l1_cost_bedrock i input spec
  else umul (calculate_l1_fee_scaled_ecotone i) (data_gas input spec) / (1000000 * NON_ZERO_BYTE_COST).

Definition calculate_tx_l1_cost_fjord (i : L1BlockInfo) (input : list Z) : Z :=
  let l1_fee_scaled := calculate_l1_fee_scaled_ecotone i in
  if l1_fee_scaled =? 0 then 0
  else umul (estimated_size_fjord input) l1_fee_scaled / 1000000000000.

Definition put_tx_l1_cost (c : option Z) (i : L1BlockInfo) : L1BlockInfo :=
  mkL1BlockInfo (l2_block i) (l1_base_fee i) (l1_fee_overhead i) (l1_base_fee_scalar i)
    (l1_blob_base_fee i) (l1_blob_base_fee_scalar i) (operator_fee_scalar i) (operator_fee_constant i)
    (da_footprint_gas_scalar i) (empty_ecotone_scalars i) c.

(** The cost and the info with its cache filled. *)
Definition calculate_tx_l1_cost (i : L1BlockInfo) (input : list Z) (spec : BaseUpgrade) : Z * L1BlockInfo :=
  match tx_l1_cost i with
  | Some c => (c, i)
  | None =>
      if is_free_input input then (0, i)
      else
        let c := if is_enabled_in spec Fjord then calculate_tx_l1_cost_fjord i input
                 else if is_enabled_in spec Ecotone then calculate_tx_l1_cost_ecotone i input spec
                 else calculate_tx_l1_cost_bedrock i input spec in
        (c, put_tx_l1_cost (Some c) i)
  end.

Definition clear_tx_l1_cost (i : L1BlockInfo) : L1BlockInfo := put_tx_l1_cost None i.

Definition tx_cost (i : L1BlockInfo) (enveloped_tx : list Z) (gas_limit : Z) (spec : BaseUpgrade)
  : Z * L1BlockInfo :=
  let '(additional_cost, i) := calculate_tx_l1_cost i enveloped_tx spec in
  if is_enabled_in spec Isthmus
  then (uadd additional_cost (operator_fee_charge i enveloped_tx gas_limit spec), i)
  else (additional_cost, i).
End cost.

(** * Bounds *)

(** Values the predeploy stores: 32-bit scalars, a 64-bit constant, base fees
    below 2^128. *)
Record info_ok (i : L1BlockInfo) : Prop := {
  io_base_fee : fits U128_MAX (l1_base_fee i);
  io_base_scalar : fits U32_MAX (l1_base_fee_scalar i);
  io_blob_fee : fits U128_MAX (default 0 (l1_blob_base_fee i));
  io_blob_scalar : fits U32_MAX (default 0 (l1_blob_base_fee_scalar i));
  io_op_scalar : fits U32_MAX (default 0 (operator_fee_scalar i));
  io_op_constant : fits U64_MAX (default 0 (operator_fee_constant i));
}.

Ltac unfold_widths := unfold fits, U128_MAX, U256_MAX, U64_MAX, U32_MAX in *.

Lemma umul_exact a b : 0 <= a * b <= U256_MAX -> umul a b = a * b.
Proof. unfold umul, sat_mul. lia. Qed.
Lemma uadd_exact a b : 0 <= a + b <= U256_MAX -> uadd a b = a + b.
Proof. unfold uadd, sat_add. lia. Qed.

(** [a * b] is below the product of the bounds. *)
Lemma mul_le_bound a b A B : 0 <= a <= A -> 0 <= b <= B -> 0 <= a * b <= A * B.
Proof. intros. split; [lia|]. apply Z.mul_le_mono_nonneg; lia. Qed.

Lemma scaled_exact i :
  info_ok i ->
  calculate_l1_fee_scaled_ecotone i =
    l1_base_fee i * 16 * l1_base_fee_scalar i +
    default 0 (l1_blob_base_fee i) * default 0 (l1_blob_base_fee_scalar i) /\
  0 <= calculate_l1_fee_scaled_ecotone i <= 2 ^ 166.
Proof.
  intros [Hf Hs Hbf Hbs _ _]. unfold calculate_l1_fee_scaled_ecotone, NON_ZERO_BYTE_COST. unfold_widths.
  pose proof (mul_le_bound _ 16 _ 16 Hf) as H1. specialize (H1 ltac:(lia)).
  pose proof (mul_le_bound _ _ _ _ H1 Hs) as H2. pose proof (mul_le_bound _ _ _ _ Hbf Hbs) as H3.
  rewrite (umul_exact (l1_base_fee i) 16) by (unfold U256_MAX; lia).
  rewrite !umul_exact by (unfold U256_MAX; lia). rewrite uadd_exact by (unfold U256_MAX; lia). lia.
Qed.

(** * Operator fees *)

(** The operator fee as a formula, for values that do not saturate. *)
Definition operator_fee (i : L1BlockInfo) (gas : Z) (spec : BaseUpgrade) : Z :=
  (if is_enabled_in spec Jovian then gas * default 0 (operator_fee_scalar i) * 100
   else gas * default 0 (operator_fee_scalar i) / 1000000) + default 0 (operator_fee_constant i).

Lemma operator_fee_exact i gas spec :
  info_ok i -> fits U64_MAX gas ->
  operator_fee_charge_inner i gas spec = operator_fee i gas spec /\
  0 <= operator_fee i gas spec <= 2 ^ 104.
Proof.
  intros [_ _ _ _ Hs Hc] Hg. unfold operator_fee_charge_inner, operator_fee, OPERATOR_FEE_JOVIAN_MULTIPLIER,
    OPERATOR_FEE_SCALAR_DECIMAL. unfold_widths.
  pose proof (mul_le_bound _ _ _ _ Hg Hs) as H1. set (p := gas * default 0 (operator_fee_scalar i)) in *.
  rewrite (umul_exact gas) by (fold p; unfold U256_MAX; lia). fold p.
  assert (0 <= p / 1000000 <= p) by (split; [apply Z.div_pos; lia|apply Z.div_le_upper_bound; lia]).
  destruct (is_enabled_in spec Jovian).
  - rewrite umul_exact by (unfold U256_MAX; lia). rewrite uadd_exact by (unfold U256_MAX; lia). lia.
  - rewrite uadd_exact by (unfold U256_MAX; lia). lia.
Qed.

Lemma operator_fee_mono i g g' spec :
  info_ok i -> 0 <= g <= g' -> operator_fee i g spec <= operator_fee i g' spec.
Proof.
  intros [_ _ _ _ Hs Hc] Hg. unfold operator_fee. unfold_widths.
  assert (g * default 0 (operator_fee_scalar i) <= g' * default 0 (operator_fee_scalar i)) by nia.
  destruct (is_enabled_in spec Jovian); [lia|]. pose proof (Z.div_le_mono _ _ 1000000 ltac:(lia) H). lia.
Qed.

(** Gas counters whose refund fits the gas spent, as they are at the end of a
    transaction. *)
Definition gas_final `{RevmGas} (g : Gas) : Prop :=
  fits U64_MAX (g_limit g) /\ 0 <= g_remaining g /\ 0 <= g_refunded g /\
  g_remaining g + g_refunded g <= g_limit g.

Lemma operator_fee_refund_run `{RevmGas} i g spec :
  info_ok i -> gas_final g -> is_enabled_in spec Isthmus = true ->
  operator_fee_refund i g spec =
  operator_fee i (g_limit g) spec - operator_fee i (g_limit g - g_remaining g - g_refunded g) spec.
Proof.
  intros Hi (Hl & Hr & Hf & Hle) Hs. unfold operator_fee_refund. rewrite Hs. cbn [negb]. unfold fits in Hl.
  rewrite (wrap_id _ (g_refunded g)) by (unfold fits; lia).
  rewrite (wrap_id _ (g_remaining g + g_refunded g)) by (unfold fits; lia).
  rewrite wrap_id by (unfold fits; lia).
  set (used := g_limit g - (g_remaining g + g_refunded g)).
  replace (g_limit g - g_remaining g - g_refunded g) with used by lia.
  destruct (operator_fee_exact i (g_limit g) spec Hi Hl) as [-> _].
  destruct (operator_fee_exact i used spec Hi ltac:(unfold fits; lia)) as [-> _].
  pose proof (operator_fee_mono i used (g_limit g) spec Hi ltac:(lia)). unfold sat_sub. lia.
Qed.

(** * Storage words *)

Lemma be_bytes_app n m v : be_bytes (n + m) v = be_bytes n (v / 256 ^ Z.of_nat m) ++ be_bytes m v.
Proof.
  revert v. induction m as [|m IH]; intros v; [by rewrite Nat.add_0_r, Z.div_1_r, app_nil_r|].
  rewrite Nat.add_succ_r. cbn [be_bytes]. rewrite IH, app_assoc. do 3 f_equal.
  rewrite Z.div_div by lia. f_equal. rewrite Nat2Z.inj_succ, Z.pow_succ_r by lia. lia.
Qed.

Lemma be_bytes_mod n v : be_bytes n (v mod 256 ^ Z.of_nat n) = be_bytes n v.
Proof.
  revert v. induction n as [|n IH]; intros v; [done|]. cbn [be_bytes].
  rewrite Nat2Z.inj_succ, Z.pow_succ_r by lia.
  rewrite <- IH, <- (IH (v / 256)). f_equal; [f_equal|f_equal].
  - rewrite Z.rem_mul_r by lia. rewrite Z.add_comm, Z.mul_comm, Z.div_add_l by lia.
    rewrite (Z.div_small (v mod 256)) by (apply Z.mod_pos_bound; lia). rewrite Z.add_0_r.
    by rewrite Zmod_mod.
  - rewrite Z.rem_mul_r by lia. rewrite Z.add_comm, Z.mul_comm, Z.add_comm, Z.mod_add by lia. by rewrite Zmod_mod.
Qed.

(** A slice of the big-endian bytes of a word is a digit of the word. *)
Lemma be_slice_val w off len :
  (off + len <= 32)%nat ->
  be_val (be_slice w off len) = (w / 256 ^ Z.of_nat (32 - off - len)) mod 256 ^ Z.of_nat len.
Proof.
  intros Hl. unfold be_slice.
  replace (be_bytes 32 w) with (be_bytes (off + (len + (32 - off - len))) w) by (f_equal; lia).
  rewrite be_bytes_app, drop_app_length' by (by rewrite length_be_bytes).
  rewrite be_bytes_app, take_app_length' by (by rewrite length_be_bytes).
  rewrite <- be_bytes_mod. apply be_val_be_bytes, Z.mod_pos_bound. lia.
Qed.

Ltac nat_lits :=
  cbn [Nat.sub]; change (Z.of_nat 12) with 12; change (Z.of_nat 8) with 8; change (Z.of_nat 4) with 4;
  change (Z.of_nat 2) with 2; change (Z.of_nat 0) with 0.

(** The digits of the two packed words. *)
Lemma fee_word_digits w base blob :
  fits U32_MAX base -> fits U32_MAX blob -> (w / 256 ^ 8) mod 256 ^ 8 = base * 256 ^ 4 + blob ->
  be_val (be_slice w 16 4) = base /\ be_val (be_slice w 20 4) = blob /\
  be_slice w 16 8 = be_bytes 8 (base * 256 ^ 4 + blob).
Proof.
  intros Hb Hl Hw. unfold fits, U32_MAX in *. rewrite !be_slice_val by lia. nat_lits.
  assert (w / 256 ^ 8 = (w / 256 ^ 16) * 256 ^ 8 + (base * 256 ^ 4 + blob)) as E.
  { pose proof (Z.div_mod (w / 256 ^ 8) (256 ^ 8) ltac:(lia)). rewrite Z.div_div in H by lia.
    change (256 ^ 8 * 256 ^ 8) with (256 ^ 16) in H. lia. }
  replace (w / 256 ^ 12) with (w / 256 ^ 8 / 256 ^ 4) by (rewrite Z.div_div by lia; done).
  rewrite E. set (hi := w / 256 ^ 16). split; [|split].
  - replace (hi * 256 ^ 8 + (base * 256 ^ 4 + blob)) with ((hi * 256 ^ 4 + base) * 256 ^ 4 + blob) by lia.
    rewrite Z.div_add_l, (Z.div_small blob), Z.add_0_r, Z.add_comm, Z.mod_add, Z.mod_small by lia. done.
  - replace (hi * 256 ^ 8 + (base * 256 ^ 4 + blob)) with (blob + (hi * 256 ^ 4 + base) * 256 ^ 4) by lia.
    rewrite Z.mod_add, Z.mod_small by lia. done.
  - pose proof (be_bytes_mod 8 (w / 256 ^ 8)) as Hm. change (Z.of_nat 8) with 8 in Hm. rewrite <- Hw, Hm. unfold be_slice.
    rewrite (be_bytes_app 16 16), drop_app_length' by (by rewrite length_be_bytes).
    rewrite (be_bytes_app 8 8), take_app_length' by (by rewrite length_be_bytes). done.
Qed.

Lemma operator_word_digits w da op const :
  fits U16_MAX da -> fits U32_MAX op -> fits U64_MAX const ->
  w mod 256 ^ 14 = (da * 256 ^ 4 + op) * 256 ^ 8 + const ->
  be_val (be_slice w 18 2) = da /\ be_val (be_slice w 20 4) = op /\ be_val (be_slice w 24 8) = const.
Proof.
  intros Hd Ho Hc Hw. unfold fits, U16_MAX, U32_MAX, U64_MAX in *. rewrite !be_slice_val by lia.
  nat_lits.
  pose proof (Z.div_mod w (256 ^ 14) ltac:(lia)) as E. rewrite Hw in E. set (hi := w / 256 ^ 14) in *.
  assert (w / 256 ^ 8 = hi * 256 ^ 6 + (da * 256 ^ 4 + op)) as E8.
  { rewrite E. replace (256 ^ 14 * hi + ((da * 256 ^ 4 + op) * 256 ^ 8 + const))
      with ((hi * 256 ^ 6 + (da * 256 ^ 4 + op)) * 256 ^ 8 + const) by lia.
    rewrite Z.div_add_l, (Z.div_small const) by lia. lia. }
  replace (w / 256 ^ 12) with (w / 256 ^ 8 / 256 ^ 4) by (rewrite Z.div_div by lia; done).
  rewrite E8. split; [|split].
  - replace (hi * 256 ^ 6 + (da * 256 ^ 4 + op)) with ((hi * 256 ^ 2 + da) * 256 ^ 4 + op) by lia.
    rewrite Z.div_add_l, (Z.div_small op), Z.add_0_r, Z.add_comm, Z.mod_add, Z.mod_small by lia. done.
  - replace (hi * 256 ^ 6 + (da * 256 ^ 4 + op)) with (op + (hi * 256 ^ 2 + da) * 256 ^ 4) by lia.
    rewrite Z.mod_add, Z.mod_small by lia. done.
  - rewrite Z.div_1_r, E. replace (256 ^ 14 * hi + ((da * 256 ^ 4 + op) * 256 ^ 8 + const))
      with (const + (hi * 256 ^ 6 + (da * 256 ^ 4 + op)) * 256 ^ 8) by lia.
    rewrite Z.mod_add, Z.mod_small by lia. done.
Qed.

Section claims.
Context `{RevmCalldata} `{RevmGas}.

(** The active upgrade of a timestamp is the right one: on a chain whose
    upgrades activate in order, a feature gated on an upgrade is on exactly when
    that upgrade has activated. *)
Theorem upgrade_gate u ts f :
  (forall a b, upgrade_index a <= upgrade_index b ->
     active_at_timestamp u b ts = true -> active_at_timestamp u a ts = true) ->
  f <> Bedrock ->
  is_enabled_in (from_timestamp u ts) f = active_at_timestamp u f ts.
Proof.
  intros Hmono Hf. unfold from_timestamp.
  repeat match goal with
  | |- context [if active_at_timestamp u ?g ts then _ else _] =>
      let E := fresh "E" in destruct (active_at_timestamp u g ts) eqn:E
  end;
  destruct f; try done; cbn; symmetry; try assumption;
  match goal with
  | E : active_at_timestamp u ?g ts = true |- active_at_timestamp u ?h ts = true =>
      apply (Hmono h g); [cbn; lia|exact E]
  end.
Qed.

(** The Fjord L1 fee is the specified formula, computed without saturation
    for every fee parameter the predeploy can hold: the estimated size (at least
    the minimum) times [16 * baseFeeScalar * l1BaseFee + blobScalar * blobFee],
    over 10^12. The first computation of a transaction caches the fee and later
    ones return the same. *)
Theorem fjord_l1_cost_exact i input spec m :
  info_ok i -> is_enabled_in spec Fjord = true -> tx_l1_cost i = None ->
  is_free_input input = false -> flz_compress_len input = Some m -> 0 <= m <= U32_MAX ->
  let cost := Z.max (m * 836500 - 42585600) 100000000 *
    (l1_base_fee i * 16 * l1_base_fee_scalar i +
     default 0 (l1_blob_base_fee i) * default 0 (l1_blob_base_fee_scalar i)) / 1000000000000 in
  let i' := (calculate_tx_l1_cost i input spec).2 in
  (calculate_tx_l1_cost i input spec).1 = cost /\ calculate_tx_l1_cost i' input spec = (cost, i').
Proof.
  intros Hi Hs Hc Hfree Hm Hmb. cbn zeta.
  assert (estimated_size_fjord input = Z.max (m * 836500 - 42585600) 100000000) as He.
  { unfold estimated_size_fjord, tx_estimated_size_fjord. rewrite Hm. cbn [mbind option_bind from_option id].
    unfold sat_sub, sat_mul, L1_COST_FASTLZ_COEF, L1_COST_INTERCEPT, MIN_TX_SIZE_SCALED. unfold_widths. lia. }
  destruct (scaled_exact i Hi) as [Hsc Hb]. rewrite <- Hsc, <- He.
  assert (calculate_tx_l1_cost_fjord i input =
    estimated_size_fjord input * calculate_l1_fee_scaled_ecotone i / 1000000000000) as Hf.
  { unfold calculate_tx_l1_cost_fjord. destruct (_ =? 0) eqn:E; zbool; [by rewrite E, Z.mul_0_r|].
    rewrite umul_exact; [done|]. rewrite He.
    pose proof (mul_le_bound (Z.max (m * 836500 - 42585600) 100000000) _ (2 ^ 64) _ ltac:(unfold_widths; lia) Hb).
    unfold U256_MAX. lia. }
  unfold calculate_tx_l1_cost. rewrite Hc, Hfree, Hs. cbn [fst snd]. rewrite Hf. done.
Qed.

(** The operator fee is settled exactly: what is charged up front for the
    gas limit, minus what is refunded at the end, is the fee for the gas used;
    nothing saturates for the parameters the predeploy can hold, and the refund
    never exceeds the charge. *)
Theorem operator_fee_settles i g spec input :
  info_ok i -> gas_final g -> is_enabled_in spec Isthmus = true -> is_free_input input = false ->
  operator_fee_charge i input (g_limit g) spec - operator_fee_refund i g spec =
  operator_fee_charge i input (g_limit g - g_remaining g - g_refunded g) spec /\
  0 <= operator_fee_refund i g spec <= operator_fee_charge i input (g_limit g) spec.
Proof.
  intros Hi Hg Hs Hfree. rewrite operator_fee_refund_run by done.
  destruct Hg as (Hl & Hr & Hf & Hle). set (used := g_limit g - g_remaining g - g_refunded g).
  unfold operator_fee_charge. rewrite Hfree.
  destruct (operator_fee_exact i (g_limit g) spec Hi Hl) as [-> Hb1].
  destruct (operator_fee_exact i used spec Hi) as [-> Hb2]; [unfold fits in *; lia|].
  pose proof (operator_fee_mono i used (g_limit g) spec Hi ltac:(lia)). lia.
Qed.

(** The fee parameters are read from the packed words the predeploy writes:
    from Ecotone on, the two 32-bit scalars of the fee word; from Isthmus on,
    the 32-bit operator scalar and the 64-bit constant; from Jovian on, the
    16-bit footprint scalar. The fields read are in range, and the old fee
    function is selected exactly when both scalars are zero. *)
Theorem try_fetch_unpacks db block spec base blob op const da :
  is_enabled_in spec Jovian = true ->
  fits U32_MAX base -> fits U32_MAX blob -> fits U32_MAX op -> fits U64_MAX const -> fits U16_MAX da ->
  (db ECOTONE_L1_FEE_SCALARS_SLOT / 256 ^ 8) mod 256 ^ 8 = base * 256 ^ 4 + blob ->
  db OPERATOR_FEE_SCALARS_SLOT mod 256 ^ 14 = (da * 256 ^ 4 + op) * 256 ^ 8 + const ->
  let i := try_fetch db block spec in
  l1_base_fee_scalar i = base /\ l1_blob_base_fee_scalar i = Some blob /\
  operator_fee_scalar i = Some op /\ operator_fee_constant i = Some const /\
  da_footprint_gas_scalar i = Some da /\
  l1_base_fee i = db L1_BASE_FEE_SLOT /\ l1_blob_base_fee i = Some (db ECOTONE_L1_BLOB_BASE_FEE_SLOT) /\
  (empty_ecotone_scalars i = true <-> base = 0 /\ blob = 0).
Proof.
  intros Hj Hbase Hblob Hop Hconst Hda Hfee Hopw. cbn zeta.
  assert (is_enabled_in spec Ecotone = true /\ is_enabled_in spec Isthmus = true) as [He Hi]
    by (by destruct spec).
  unfold try_fetch. rewrite He, Hi, Hj. cbn [negb].
  unfold try_fetch_jovian, try_fetch_isthmus, try_fetch_ecotone, fetch_da_footprint_gas_scalar,
    DA_FOOTPRINT_GAS_SCALAR_SLOT, OPERATOR_FEE_SCALARS_SLOT, BASE_FEE_SCALAR_OFFSET, BLOB_BASE_FEE_SCALAR_OFFSET,
    OPERATOR_FEE_SCALAR_OFFSET, OPERATOR_FEE_CONSTANT_OFFSET, DA_FOOTPRINT_GAS_SCALAR_OFFSET in *.
  cbn [l1_base_fee_scalar l1_blob_base_fee_scalar operator_fee_scalar operator_fee_constant
    da_footprint_gas_scalar l1_base_fee l1_blob_base_fee empty_ecotone_scalars].
  set (fee := db ECOTONE_L1_FEE_SCALARS_SLOT) in *. set (w := db 8) in *. unfold fits in *.
  destruct (fee_word_digits fee base blob) as (D1 & D2 & D3); [done..|].
  destruct (operator_word_digits w da op const) as (D4 & D5 & D6); [done..|].
  rewrite D1, D2, D4, D5, D6. do 7 (split; [done|]). rewrite andb_true_iff, Z.eqb_eq, bool_decide_eq_true, D3.
  split; [|intros [-> ->]; done]. intros [-> Hz]. split; [|done].
  apply (f_equal be_val) in Hz. rewrite be_val_be_bytes in Hz by (unfold U32_MAX in *; cbn; lia).
  change (be_val EMPTY_SCALARS) with 0 in Hz. lia.
Qed.
End claims.

(** * A concrete instance *)

Module L1Example.
Definition calldata : RevmCalldata := {|
  get_tokens_in_calldata_istanbul := fun l => foldr (fun b acc => (if b =? 0 then 1 else 4) + acc) 0 l;
  NON_ZERO_BYTE_MULTIPLIER_ISTANBUL := 4;
  STANDARD_TOKEN_COST := 4;
|}.

(** A gas counter: limit, remaining, refunded. *)
Record gas_counter := mkGas { gc_limit : Z; gc_remaining : Z; gc_refunded : Z }.
Definition gas : RevmGas := {|
  Gas := gas_counter;
  g_limit := gc_limit;
  g_remaining := gc_remaining;
  g_refunded := gc_refunded;
  g_used := fun g => gc_limit g - gc_remaining g - gc_refunded g;
  new_spent := fun l => mkGas l 0 0;
  erase_cost := fun c g => mkGas (gc_limit g) (gc_remaining g + c) (gc_refunded g);
  record_refund := fun r g => mkGas (gc_limit g) (gc_remaining g) (gc_refunded g + r);
  set_final_refund := fun london g =>
    mkGas (gc_limit g) (gc_remaining g)
      (Z.min (gc_refunded g) ((gc_limit g - gc_remaining g) / (if london then 5 else 2)));
|}.
#[local] Existing Instances calldata gas.

Definition info : L1BlockInfo :=
  mkL1BlockInfo (Some 5) 30000000000 None 1368 (Some 7) (Some 810949) (Some 20000) (Some 77) (Some 400) false None.

Lemma info_wf : info_ok info.
Proof. split; unfold fits; vm_compute; split; discriminate. Qed.

Definition upgrades : Upgrades := mkUpgrades (fun f => Some (100 * upgrade_index f)).

Lemma upgrade_gate_witness :
  is_enabled_in (from_timestamp upgrades 450) Fjord = true /\
  is_enabled_in (from_timestamp upgrades 450) Isthmus = false.
Proof.
  split.
  - rewrite (upgrade_gate upgrades 450 Fjord); [reflexivity| |discriminate].
    intros a b Hab Hb. unfold active_at_timestamp in *. cbn in *. zbool. apply Z.leb_le. lia.
  - rewrite (upgrade_gate upgrades 450 Isthmus); [reflexivity| |discriminate].
    intros a b Hab Hb. unfold active_at_timestamp in *. cbn in *. zbool. apply Z.leb_le. lia.
Defined.

Definition tx : list Z := 0x02 :: repeat 0 200.

Lemma fjord_l1_cost_exact_witness :
  (calculate_tx_l1_cost info tx Azul).1 = 65664000567 /\ exists m, flz_compress_len tx = Some m.
Proof.
  split; [|eexists; vm_compute; reflexivity].
  rewrite (proj1 (fjord_l1_cost_exact info tx Azul 13 info_wf eq_refl eq_refl eq_refl
    ltac:(vm_compute; reflexivity) ltac:(vm_compute; split; discriminate))).
  vm_compute. reflexivity.
Defined.

Lemma operator_fee_settles_witness :
  operator_fee_charge info tx 100000 Jovian - operator_fee_refund info (mkGas 100000 40000 12000) Jovian =
  operator_fee_charge info tx 48000 Jovian.
Proof.
  refine (proj1 (operator_fee_settles info (mkGas 100000 40000 12000) Jovian tx info_wf _ eq_refl eq_refl)).
  unfold gas_final, fits. vm_compute. repeat split; discriminate.
Defined.

Definition words (slot : Z) : Z :=
  if slot =? 3 then (1368 * 256 ^ 4 + 810949) * 256 ^ 8 + 5
  else if slot =? 8 then (400 * 256 ^ 4 + 20000) * 256 ^ 8 + 77 else slot.

Lemma try_fetch_unpacks_witness :
  l1_base_fee_scalar (try_fetch words 5 Jovian) = 1368 /\
  operator_fee_scalar (try_fetch words 5 Jovian) = Some 20000.
Proof.
  destruct (try_fetch_unpacks words 5 Jovian 1368 810949 20000 77 400) as (H1 & _ & H3 & _);
    try (unfold fits; vm_compute; split; discriminate); try (vm_compute; reflexivity).
  split; [exact H1|exact H3].
Defined.
End L1Example.
