(* ===== verification/BaseHandler.v ===== *)
(** Base's transaction handler ([crates/common/evm/src/handler.rs]): deposits,
    the up-front charge of L1, operator and gas fees, gas normalisation of the
    first frame, reimbursement, fee distribution and failed deposits.

    revm is a parameter. The class [Revm] names the functions the handler calls,
    on the part of the state they touch, and [RevmLaws] states their documented
    behaviour; gas counters are [L1Block.RevmGas]. Balances and nonces are maps
    from addresses, reading zero where absent. Database errors do not occur. *)

From S2P Require Import Prelude Hardfork Keychain AgentState Dispatch AaHook Flz L1Block.

(** * Transactions ([transaction/core.rs], [transaction/deposit.rs]) *)

Definition DEPOSIT_TRANSACTION_TYPE : Z := 0x7E.

Record DepositTransactionParts := mkDepositParts {
  source_hash : Z;
  mint : option Z;
  is_system_transaction : bool;
}.

Record AaTransactionParts := mkAaParts {
  aa_calls : list AaCall;
  aa_root : option Z;
  aa_fee_payer : option Z;
}.

(** [BaseTransaction<TxEnv>] *)
Record BaseTransaction := mkTx {
  tx_base_type : Z;
  tx_caller : Z;
  tx_gas_limit : Z;
  tx_kind : TxKind;
  tx_value : Z;
  tx_input : list Z;
  tx_nonce : Z;
  tx_max_fee_per_gas : Z;
  tx_gas_priority_fee : option Z;
  enveloped_tx : option (list Z);
  tx_deposit : DepositTransactionParts;
  tx_aa : option AaTransactionParts;
}.

Definition tx_type (tx : BaseTransaction) : Z :=
  if negb (source_hash (tx_deposit tx) =? 0) then DEPOSIT_TRANSACTION_TYPE else tx_base_type tx.
Definition is_deposit (tx : BaseTransaction) : bool := tx_type tx =? DEPOSIT_TRANSACTION_TYPE.
Definition is_call (k : TxKind) : bool := match k with Call _ => true | Create => false end.

Definition tx_cost_with_tx `{RevmCalldata} (i : L1BlockInfo) (tx : BaseTransaction) (spec : BaseUpgrade)
  : option (Z * L1BlockInfo) :=
  env ← enveloped_tx tx; Some (tx_cost i env (tx_gas_limit tx) spec).

Record Block := mkBlock {
  blk_number : Z;
  blk_timestamp : Z;
  blk_basefee : Z;
  blk_beneficiary : Z;
  blk_blob_gasprice : option Z;
}.

Record CfgEnv := mkCfg {
  cfg_spec : BaseUpgrade;
  cfg_fee_charge_disabled : bool;
  cfg_balance_check_disabled : bool;
}.

(** * State and errors *)

Inductive Bytecode := Legacy (code : list Z) | Eip7702 (delegated_address : Z).

Record EvmState := mkEvmState {
  es_balance : gmap Z Z;
  es_nonce : gmap Z Z;
  es_code : gmap Z Bytecode;
  es_storage : gmap (Z * Z) Z;
  es_precompiles : PrecompileState;
  es_chain : L1BlockInfo;
}.

Definition put_balances (b : gmap Z Z) (s : EvmState) : EvmState :=
  mkEvmState b (es_nonce s) (es_code s) (es_storage s) (es_precompiles s) (es_chain s).
Definition put_nonces (n : gmap Z Z) (s : EvmState) : EvmState :=
  mkEvmState (es_balance s) n (es_code s) (es_storage s) (es_precompiles s) (es_chain s).
Definition put_precompiles (p : PrecompileState) (s : EvmState) : EvmState :=
  mkEvmState (es_balance s) (es_nonce s) (es_code s) (es_storage s) p (es_chain s).
Definition put_chain (c : L1BlockInfo) (s : EvmState) : EvmState :=
  mkEvmState (es_balance s) (es_nonce s) (es_code s) (es_storage s) (es_precompiles s) c.

Definition balance_of (s : EvmState) (a : Z) : Z := zget (es_balance s) a.
Definition nonce_of (s : EvmState) (a : Z) : Z := zget (es_nonce s) a.

(** [journal.checkpoint_revert(cp)]: the journaled state is the one at the
    checkpoint; the L1 block info is not journaled. *)
Definition checkpoint_revert (cp s : EvmState) : EvmState := put_chain (es_chain s) cp.

Inductive InvalidTransaction :=
| LackOfFundForMaxFee (fee balance : Z)
| InvalidStr (msg : string)
| InvalidHook (r : RejectReason)
| InvalidRevm (code : Z).

Inductive BaseTransactionError :=
| DepositSystemTxPostRegolith | HaltedDepositPostRegolith | MissingEnvelopedTx.

Inductive HandlerError :=
| ErrTransaction (e : InvalidTransaction)
| ErrBase (e : BaseTransactionError)
| ErrCustom (msg : string).

(** [IsTxError::is_tx_error] *)
Definition is_tx_error (e : HandlerError) : bool :=
  match e with ErrTransaction _ | ErrBase _ => true | ErrCustom _ => false end.

Abbreviation hres := (result HandlerError).
Abbreviation hio := (stm EvmState HandlerError).

(** * revm *)

Inductive TransferError := OutOfFunds | OverflowPayment.
Inductive InstructionResult := IrOk | IrRevert | IrHalt.

(** One message frame at depth zero; [fi_code] is the bytecode it runs. *)
Record FrameInit := mkFrameInit {
  fi_caller : Z;
  fi_to : TxKind;
  fi_value : Z;
  fi_input : list Z;
  fi_gas_limit : Z;
  fi_code : option Bytecode;
}.

Class Revm `{RevmGas} := {
  (* [Transaction::max_balance_spending], [effective_balance_spending] *)
  max_balance_spending : BaseTransaction -> hres Z;
  effective_balance_spending : BaseTransaction -> Z -> Z -> option Z;
  (* [validate_account_nonce_and_code_with_components] on the caller's nonce *)
  validate_nonce_and_code : Z -> option Bytecode -> BaseTransaction -> hres unit;
  (* [calculate_caller_fee]: the balance after the gas charge *)
  calculate_caller_fee : Z -> BaseTransaction -> Block -> CfgEnv -> hres Z;
  (* [post_execution::reimburse_caller] and the mainnet [reward_beneficiary] *)
  revm_reimburse_caller : BaseTransaction -> Block -> Gas -> Z -> gmap Z Z -> gmap Z Z;
  revm_reward_beneficiary : BaseTransaction -> Block -> Gas -> gmap Z Z -> gmap Z Z;
  (* [journal.balance_incr] *)
  balance_incr : Z -> Z -> gmap Z Z -> gmap Z Z;
  (* [journal.transfer] *)
  transfer : Z -> Z -> Z -> gmap Z Z -> option TransferError * gmap Z Z;
  (* the mainnet [validate_env] *)
  mainnet_validate_env : BaseTransaction -> Block -> CfgEnv -> hres unit;
}.

(** * The handler *)

Record FrameResult `{RevmGas} := mkFrameResult { fr_result : InstructionResult; fr_gas : Gas }.

Section handler.
Context `{RevmCalldata} `{RG : RevmGas} `{!Revm}.
Context (blk : Block) (cfg : CfgEnv) (tx : BaseTransaction).
Let spec := cfg_spec cfg.

Definition base_validate_env : hres unit :=
  if is_deposit tx then
    if is_system_transaction (tx_deposit tx) && is_enabled_in spec Regolith
    then Err (ErrBase DepositSystemTxPostRegolith) else Ok tt
  else match enveloped_tx tx with
  | None => Err (ErrBase MissingEnvelopedTx)
  | Some _ => mainnet_validate_env tx blk cfg
  end.

Definition bump_nonce (a : Z) (s : EvmState) : EvmState := put_nonces (zset a (nonce_of s a + 1) (es_nonce s)) s.
Definition set_balance (a v : Z) (s : EvmState) : EvmState := put_balances (zset a v (es_balance s)) s.

(** The caller's balance after a deposit's mint and charge; [None] is the
    overflow panic. *)
Definition deposit_balance (balance : Z) : option Z :=
  spending ← effective_balance_spending tx (blk_basefee blk) (default 0 (blk_blob_gasprice blk));
  spending ← checked_sub spending (tx_value tx);
  let v := sat_sub (sat_add U256_MAX balance (default 0 (mint (tx_deposit tx)))) spending in
  Some (if cfg_balance_check_disabled cfg then Z.max v (tx_value tx) else v).

Definition charge_caller (balance : Z) (s : EvmState) : EvmState :=
  let s := set_balance (tx_caller tx) balance s in
  if is_call (tx_kind tx) then bump_nonce (tx_caller tx) s else s.

(** The L1 block info is reloaded when it is not of this block. *)
Definition refresh_chain (db : Z -> Z) (s : EvmState) : EvmState :=
  if bool_decide (l2_block (es_chain s) = Some (blk_number blk)) then s
  else put_chain (try_fetch db (blk_number blk) spec) s.

Definition base_validate_and_deduct (db : Z -> Z) : hio unit := fun s =>
  if is_deposit tx then
    match deposit_balance (balance_of s (tx_caller tx)) with
    | Some v => (Ok tt, charge_caller v s)
    | None => (Err (ErrCustom "Deposit transaction effective balance spending overflow"), s)
    end
  else
    let s := refresh_chain db s in
    match validate_nonce_and_code (nonce_of s (tx_caller tx)) (es_code s !! tx_caller tx) tx with
    | Err e => (Err e, s)
    | Ok _ =>
        let balance := balance_of s (tx_caller tx) in
        let charged : hres Z * EvmState :=
          if cfg_fee_charge_disabled cfg then (Ok balance, s)
          else match tx_cost_with_tx (es_chain s) tx spec with
          | None => (Err (ErrCustom "[OPTIMISM] Failed to load enveloped transaction."), s)
          | Some (additional_cost, chain) =>
              match checked_sub balance additional_cost with
              | None => (Err (ErrTransaction (LackOfFundForMaxFee additional_cost balance)), put_chain chain s)
              | Some b => (Ok b, put_chain chain s)
              end
          end in
        match charged with
        | (Err e, s) => (Err e, s)
        | (Ok balance, s) =>
            match calculate_caller_fee balance tx blk cfg with
            | Err e => (Err e, s)
            | Ok balance => (Ok tt, charge_caller balance s)
            end
        end
    end.

Definition base_last_frame_result (fr : FrameResult) : FrameResult :=
  let is_regolith := is_enabled_in spec Regolith in
  let remaining := g_remaining (fr_gas fr) in
  let refunded := g_refunded (fr_gas fr) in
  let gas := new_spent (tx_gas_limit tx) in
  let gas := match fr_result fr with
    | IrOk =>
        if negb (is_deposit tx) || is_regolith then record_refund refunded (erase_cost remaining gas)
        else if is_deposit tx && is_system_transaction (tx_deposit tx) then erase_cost (tx_gas_limit tx) gas
        else gas
    | IrRevert => if negb (is_deposit tx) || is_regolith then erase_cost remaining gas else gas
    | IrHalt => gas
    end in
  mkFrameResult _ (fr_result fr) gas.

Definition base_reimburse_caller (fr : FrameResult) : hio unit := fun s =>
  let additional_refund :=
    if negb (is_deposit tx) && negb (cfg_fee_charge_disabled cfg)
    then operator_fee_refund (es_chain s) (fr_gas fr) spec else 0 in
  (Ok tt, put_balances (revm_reimburse_caller tx blk (fr_gas fr) additional_refund (es_balance s)) s).

(** Every Base upgrade maps to an Ethereum spec after London. *)
Definition base_refund (fr : FrameResult) (eip7702_refund : Z) : FrameResult :=
  let gas := record_refund eip7702_refund (fr_gas fr) in
  let is_gas_refund_disabled := is_deposit tx && negb (is_enabled_in spec Regolith) in
  mkFrameResult _ (fr_result fr) (if is_gas_refund_disabled then gas else set_final_refund true gas).

Definition L1_FEE_VAULT : Z := 0x420000000000000000000000000000000000001A.
Definition BASE_FEE_VAULT : Z := 0x4200000000000000000000000000000000000019.
Definition OPERATOR_FEE_VAULT : Z := 0x420000000000000000000000000000000000001B.

Definition base_reward_beneficiary (fr : FrameResult) : hio unit := fun s =>
  if is_deposit tx then (Ok tt, s)
  else
    let s := put_balances (revm_reward_beneficiary tx blk (fr_gas fr) (es_balance s)) s in
    match enveloped_tx tx with
    | None => (Err (ErrCustom "[OPTIMISM] Failed to load enveloped transaction."), s)
    | Some env =>
        let '(l1_cost, chain) := calculate_tx_l1_cost (es_chain s) env spec in
        let operator_fee_cost :=
          if is_enabled_in spec Isthmus then operator_fee_charge chain env (g_used (fr_gas fr)) spec else 0 in
        let base_fee_amount := sat_mul U128_MAX (blk_basefee blk) (g_used (fr_gas fr)) in
        let b := foldl (fun b '(recipient, amount) => balance_incr recipient amount b) (es_balance s)
          [(L1_FEE_VAULT, l1_cost); (BASE_FEE_VAULT, base_fee_amount); (OPERATOR_FEE_VAULT, operator_fee_cost)] in
        (Ok tt, put_balances b (put_chain chain s))
    end.

Inductive ExecutionResult := ExecSuccess (gas_used : Z) | ExecRevert (gas_used : Z)
| ExecHalt (failed_deposit : bool) (gas_used : Z).

Definition base_execution_result (fr : FrameResult) : hio ExecutionResult := fun s =>
  let used := g_used (fr_gas fr) in
  match fr_result fr with
  | IrHalt =>
      if is_deposit tx && is_enabled_in spec Regolith then (Err (ErrBase HaltedDepositPostRegolith), s)
      else (Ok (ExecHalt false used), put_chain (clear_tx_l1_cost (es_chain s)) s)
  | IrOk => (Ok (ExecSuccess used), put_chain (clear_tx_l1_cost (es_chain s)) s)
  | IrRevert => (Ok (ExecRevert used), put_chain (clear_tx_l1_cost (es_chain s)) s)
  end.

(** [first] is the state at the beginning of the transaction, which the default
    checkpoint restores. *)
Definition base_catch_error (first : EvmState) (e : HandlerError) : hio ExecutionResult := fun s =>
  let '(out, s) :=
    if is_tx_error e && is_deposit tx then
      let s := bump_nonce (tx_caller tx) (checkpoint_revert first s) in
      let s := put_balances (balance_incr (tx_caller tx) (default 0 (mint (tx_deposit tx))) (es_balance s)) s in
      let gas_used :=
        if is_enabled_in spec Regolith || negb (is_system_transaction (tx_deposit tx)) then tx_gas_limit tx else 0 in
      (Ok (ExecHalt true gas_used), s)
    else (Err e, s) in
  (out, put_chain (clear_tx_l1_cost (es_chain s)) s).
End handler.

(** * revm's documented behaviour *)

Section laws.
Context `{RG : RevmGas} `{RV : !Revm}.

(** The gas price a transaction pays in a block. *)
Class RevmPrice := { effective_gas_price : BaseTransaction -> Block -> Z }.

Class RevmGasLaws := {
  law_new_spent : forall l, g_limit (new_spent l) = l /\ g_remaining (new_spent l) = 0 /\ g_refunded (new_spent l) = 0;
  law_erase_cost : forall c g, g_limit (erase_cost c g) = g_limit g /\
    g_remaining (erase_cost c g) = g_remaining g + c /\ g_refunded (erase_cost c g) = g_refunded g;
  law_record_refund : forall r g, g_limit (record_refund r g) = g_limit g /\
    g_remaining (record_refund r g) = g_remaining g /\ g_refunded (record_refund r g) = g_refunded g + r;
  law_used : forall g, gas_final g -> g_used g = g_limit g - g_remaining g - g_refunded g;
}.

Class RevmLaws `{RevmPrice} := {
  (* the caller is charged the gas limit at the effective price, and needs the
     balance for the maximal price *)
  law_max_spending : forall tx m blk, max_balance_spending tx = Ok m ->
    0 <= tx_gas_limit tx * effective_gas_price tx blk + tx_value tx <= m;
  law_caller_fee : forall balance tx blk cfg m v,
    cfg_balance_check_disabled cfg = false -> max_balance_spending tx = Ok m ->
    (calculate_caller_fee balance tx blk cfg = Ok v <->
     m <= balance /\ v = balance - tx_gas_limit tx * effective_gas_price tx blk);
  (* the caller gets the unused gas and the additional refund back *)
  law_reimburse : forall tx blk g extra b a,
    zget b a + effective_gas_price tx blk * (g_remaining g + g_refunded g) + extra <= U256_MAX ->
    zget (revm_reimburse_caller tx blk g extra b) a =
    zget b a + (if a =? tx_caller tx then effective_gas_price tx blk * (g_remaining g + g_refunded g) + extra else 0);
  (* the beneficiary gets the priority fee of the gas used, at a price that covers the base fee *)
  law_reward : forall tx blk g b a, blk_basefee blk <= effective_gas_price tx blk ->
    zget b a + (effective_gas_price tx blk - blk_basefee blk) * g_used g <= U256_MAX ->
    zget (revm_reward_beneficiary tx blk g b) a =
    zget b a + (if a =? blk_beneficiary blk then (effective_gas_price tx blk - blk_basefee blk) * g_used g else 0);
  law_incr : forall a amount b c, zget b a + amount <= U256_MAX ->
    zget (balance_incr a amount b) c = zget b c + (if c =? a then amount else 0);
  law_transfer : forall from to amount b, from <> to -> 0 <= amount -> zget b to + amount <= U256_MAX ->
    if amount <=? zget b from then
      exists b', transfer from to amount b = (None, b') /\ forall a,
        zget b' a = zget b a - (if a =? from then amount else 0) + (if a =? to then amount else 0)
    else exists e, transfer from to amount b = (Some e, b);
}.
End laws.

(** * Charging the caller *)

Section charge.
Context `{RC : RevmCalldata} `{RG : RevmGas} `{RV : !Revm} `{RP : !RevmPrice} `{!RevmLaws}.
Context (blk : Block) (cfg : CfgEnv) (tx : BaseTransaction) (env : list Z) (m : Z).
Context (Hdep : is_deposit tx = false) (Henv : enveloped_tx tx = Some env).
Context (Hfee : cfg_fee_charge_disabled cfg = false) (Hbal : cfg_balance_check_disabled cfg = false).
Context (Hmax : max_balance_spending tx = Ok m).
Let spec := cfg_spec cfg.

Definition gas_charge : Z := tx_gas_limit tx * effective_gas_price tx blk.

(** The charge on the state with the L1 block info of the block: it succeeds
    exactly when the nonce is valid and the balance covers the additional cost
    and the maximal gas fee. *)
Lemma deduct_iff db s s1 cost chain :
  let s0 := refresh_chain blk cfg db s in
  let balance := balance_of s (tx_caller tx) in
  tx_cost (es_chain s0) env (tx_gas_limit tx) spec = (cost, chain) ->
  base_validate_and_deduct blk cfg tx db s = (Ok tt, s1) <->
  validate_nonce_and_code (nonce_of s (tx_caller tx)) (es_code s !! tx_caller tx) tx = Ok tt /\
  cost + m <= balance /\ s1 = charge_caller tx (balance - cost - gas_charge) (put_chain chain s0).
Proof.
  cbn zeta. intros Ec. unfold base_validate_and_deduct. rewrite Hdep.
  set (s0 := refresh_chain blk cfg db s) in *.
  assert (es_balance s0 = es_balance s /\ es_nonce s0 = es_nonce s /\ es_code s0 = es_code s) as (E1 & E2 & E3)
    by (subst s0; unfold refresh_chain; by case_bool_decide).
  unfold balance_of, nonce_of in *. rewrite E1, E2, E3, Hfee. unfold tx_cost_with_tx. rewrite Henv.
  cbn [mbind option_bind]. fold spec. rewrite Ec. unfold checked_sub.
  set (b := zget (es_balance s) (tx_caller tx)).
  pose proof (law_max_spending tx m blk Hmax) as Hm.
  destruct (validate_nonce_and_code _ _ tx) as [[]|e]; [|split; [discriminate|by intros [? _]]].
  destruct (cost <=? b) eqn:E; zbool; [|split; [discriminate|lia]].
  pose proof (fun v => law_caller_fee (b - cost) tx blk cfg m v Hbal Hmax) as Hcf.
  destruct (calculate_caller_fee (b - cost) tx blk cfg) as [v|e].
  - destruct (proj1 (Hcf v) eq_refl) as [Hle ->]. split; [intros [= <-]; split; [done|split; [lia|done]]|].
    by intros (_ & _ & ->).
  - split; [discriminate|]. intros (_ & Hle & _).
    assert (m <= b - cost) as Hle' by lia. pose proof (proj2 (Hcf _) (conj Hle' eq_refl)). discriminate.
Qed.
End charge.

(** * Fee conservation *)

(** What a list of payments gives an account. *)
Definition credited (credits : list (Z * Z)) (a : Z) : Z :=
  foldr (fun p acc => (if a =? p.1 then p.2 else 0) + acc) 0 credits.
Definition credit_total (credits : list (Z * Z)) : Z := foldr (fun p acc => p.2 + acc) 0 credits.

Lemma credited_le credits a : Forall (fun p => 0 <= p.2) credits -> 0 <= credited credits a <= credit_total credits.
Proof. unfold credited, credit_total. induction 1; cbn; [lia|]. destruct (a =? _); lia. Qed.

Section additional.
Context `{RC : RevmCalldata} (spec : BaseUpgrade) (tx : BaseTransaction) (env : list Z).

Lemma info_ok_cache c i : info_ok i -> info_ok (put_tx_l1_cost c i).
Proof. intros []. by split. Qed.

Lemma fjord_cost_bound i : info_ok i -> 0 <= calculate_tx_l1_cost_fjord i env <= 2 ^ 230.
Proof.
  intros Hi. unfold calculate_tx_l1_cost_fjord. destruct (scaled_exact i Hi) as [_ Hb].
  set (x := calculate_l1_fee_scaled_ecotone i) in *.
  assert (0 <= estimated_size_fjord env <= 2 ^ 64) as He.
  { unfold estimated_size_fjord. destruct (tx_estimated_size_fjord env) as [e|] eqn:E; cbn; [|lia].
    unfold tx_estimated_size_fjord in E. destruct (flz_compress_len env) as [n|]; [|discriminate]. cbn in E.
    injection E as <-. unfold sat_sub, sat_mul, L1_COST_INTERCEPT, L1_COST_FASTLZ_COEF, MIN_TX_SIZE_SCALED, U64_MAX. lia. }
  destruct (x =? 0); [lia|]. pose proof (mul_le_bound _ _ _ _ He Hb).
  rewrite umul_exact by (unfold U256_MAX; lia).
  split; [apply Z.div_pos; lia|]. apply Z.div_le_upper_bound; lia.
Qed.

(** The additional cost of a transaction and the info it leaves. *)
Lemma tx_cost_run i :
  info_ok i -> tx_l1_cost i = None -> is_free_input env = false -> is_enabled_in spec Fjord = true ->
  fits U64_MAX (tx_gas_limit tx) ->
  let c := calculate_tx_l1_cost_fjord i env in
  tx_cost i env (tx_gas_limit tx) spec =
    (c + (if is_enabled_in spec Isthmus then operator_fee i (tx_gas_limit tx) spec else 0),
     put_tx_l1_cost (Some c) i).
Proof.
  intros Hi Hc Hf Hs Hl. cbn zeta. unfold tx_cost, calculate_tx_l1_cost. rewrite Hc, Hf, Hs.
  pose proof (fjord_cost_bound i Hi) as Hb. destruct (is_enabled_in spec Isthmus); [|by rewrite Z.add_0_r].
  unfold operator_fee_charge. rewrite Hf. destruct (operator_fee_exact _ _ spec (info_ok_cache (Some (calculate_tx_l1_cost_fjord i env)) i Hi) Hl) as [-> Ho].
  rewrite uadd_exact by (unfold U256_MAX; lia). done.
Qed.
End additional.

Section conservation.
Context `{RC : RevmCalldata} `{RG : RevmGas} `{RV : !Revm} `{RP : !RevmPrice} `{!RevmGasLaws} `{!RevmLaws}.
Context (blk : Block) (cfg : CfgEnv) (tx : BaseTransaction) (env : list Z).
Let spec := cfg_spec cfg.
Let price := effective_gas_price tx blk.

(** The payments at the end of a transaction. *)
Definition payments (chain : L1BlockInfo) (l1_cost : Z) (g : Gas) : list (Z * Z) :=
  let used := g_limit g - g_remaining g - g_refunded g in
  let op gas := if is_enabled_in spec Isthmus then operator_fee chain gas spec else 0 in
  [(tx_caller tx, price * (g_remaining g + g_refunded g) + (op (g_limit g) - op used));
   (blk_beneficiary blk, (price - blk_basefee blk) * used);
   (L1_FEE_VAULT, l1_cost);
   (BASE_FEE_VAULT, blk_basefee blk * used);
   (OPERATOR_FEE_VAULT, op used)].

Lemma payments_total chain l1_cost g :
  credit_total (payments chain l1_cost g) =
  g_limit g * price + l1_cost + (if is_enabled_in spec Isthmus then operator_fee chain (g_limit g) spec else 0).
Proof. unfold payments. cbn. destruct (is_enabled_in spec Isthmus); lia. Qed.

Lemma payments_nonneg chain l1_cost g :
  info_ok chain -> gas_final g -> 0 <= l1_cost -> 0 <= blk_basefee blk <= price ->
  Forall (fun p : Z * Z => 0 <= p.2) (payments chain l1_cost g).
Proof.
  intros Hi (Hl & Hr & Hf & Hle) Hc Hp. unfold payments, fits in *.
  set (used := g_limit g - g_remaining g - g_refunded g).
  assert (0 <= used <= g_limit g) as Hu by lia.
  destruct (operator_fee_exact chain used spec Hi ltac:(unfold fits; lia)) as [_ Hb].
  pose proof (operator_fee_mono chain used (g_limit g) spec Hi Hu).
  repeat constructor; cbn; destruct (is_enabled_in spec Isthmus); nia.
Qed.

(** Charge and refund of the operator fee. *)
Lemma settle_run chain input g :
  info_ok chain -> gas_final g -> is_free_input input = false ->
  let used := g_limit g - g_remaining g - g_refunded g in
  let op gas := if is_enabled_in spec Isthmus then operator_fee chain gas spec else 0 in
  (if is_enabled_in spec Isthmus then operator_fee_charge chain input used spec else 0) = op used /\
  operator_fee_refund chain g spec = op (g_limit g) - op used.
Proof.
  cbn zeta. intros Hi Hg Hf. destruct (is_enabled_in spec Isthmus) eqn:E.
  - split; [|by apply operator_fee_refund_run]. unfold operator_fee_charge. rewrite Hf.
    apply operator_fee_exact; [done|]. destruct Hg as (Hl & Hr & Hrf & Hle). unfold fits in *. lia.
  - split; [done|]. unfold operator_fee_refund. by rewrite E.
Qed.

(** Applying the payments one after the other. *)
Lemma pay_all chain l1_cost g (s : EvmState) (b1 b2 b3 b4 b5 : gmap Z Z) :
  let ps := payments chain l1_cost g in
  info_ok chain -> gas_final g -> 0 <= l1_cost -> 0 <= blk_basefee blk <= price ->
  (forall a, balance_of s a + credit_total ps <= U256_MAX) ->
  let used := g_limit g - g_remaining g - g_refunded g in
  let op gas := if is_enabled_in spec Isthmus then operator_fee chain gas spec else 0 in
  b1 = revm_reimburse_caller tx blk g (op (g_limit g) - op used) (es_balance s) ->
  b2 = revm_reward_beneficiary tx blk g b1 ->
  b3 = balance_incr L1_FEE_VAULT l1_cost b2 ->
  b4 = balance_incr BASE_FEE_VAULT (blk_basefee blk * used) b3 ->
  b5 = balance_incr OPERATOR_FEE_VAULT (op used) b4 ->
  forall a, zget b5 a = balance_of s a + credited ps a.
Proof.
  cbn zeta. intros Hi Hg Hc Hp Hmax E1 E2 E3 E4 E5.
  pose proof (payments_nonneg chain l1_cost g Hi Hg Hc Hp) as Hpos.
  pose proof (law_used g Hg) as Hused.
  unfold payments in *. fold price in E1. set (used := g_limit g - g_remaining g - g_refunded g) in *.
  set (op := fun gas => if is_enabled_in spec Isthmus then operator_fee chain gas spec else 0) in *.
  change (if is_enabled_in spec Isthmus then operator_fee chain (g_limit g) spec else 0) with (op (g_limit g)) in *.
  change (if is_enabled_in spec Isthmus then operator_fee chain used spec else 0) with (op used) in *.
  repeat (apply Forall_cons in Hpos as [? Hpos]). cbn [fst snd credit_total credited foldr] in *. clear Hpos.
  assert (forall a, zget b1 a = balance_of s a + (if a =? tx_caller tx then price * (g_remaining g + g_refunded g) + (op (g_limit g) - op used) else 0)) as B1.
  { intros a. subst b1. unfold price. rewrite law_reimburse; [done|]. fold price. specialize (Hmax a). unfold balance_of in *. lia. }
  assert (forall a, zget b2 a = zget b1 a + (if a =? blk_beneficiary blk then (price - blk_basefee blk) * used else 0)) as B2.
  { intros a. subst b2. rewrite law_reward; rewrite ?Hused; [done|by apply Hp|]. fold price. rewrite B1. specialize (Hmax a). destruct (a =? _); lia. }
  assert (forall a, zget b3 a = zget b2 a + (if a =? L1_FEE_VAULT then l1_cost else 0)) as B3.
  { intros a. subst b3. rewrite law_incr; [done|]. rewrite B2, B1. specialize (Hmax L1_FEE_VAULT). repeat destruct (_ =? _); lia. }
  assert (forall a, zget b4 a = zget b3 a + (if a =? BASE_FEE_VAULT then blk_basefee blk * used else 0)) as B4.
  { intros a. subst b4. rewrite law_incr; [done|]. rewrite B3, B2, B1. specialize (Hmax BASE_FEE_VAULT). repeat destruct (_ =? _); lia. }
  intros a. subst b5. rewrite law_incr; rewrite B4, B3, B2, B1.
  - lia.
  - specialize (Hmax OPERATOR_FEE_VAULT). repeat destruct (_ =? _); lia.
Qed.

(** Reimbursement and fee distribution make exactly these payments. *)
Lemma payout_run fr s2 c :
  is_deposit tx = false -> enveloped_tx tx = Some env -> is_free_input env = false ->
  cfg_fee_charge_disabled cfg = false -> info_ok (es_chain s2) -> tx_l1_cost (es_chain s2) = Some c -> 0 <= c ->
  0 <= blk_basefee blk <= U64_MAX -> blk_basefee blk <= price -> gas_final (fr_gas fr) ->
  let ps := payments (es_chain s2) c (fr_gas fr) in
  (forall a, balance_of s2 a + credit_total ps <= U256_MAX) ->
  exists s3 s4, base_reimburse_caller blk cfg tx fr s2 = (Ok tt, s3) /\
    base_reward_beneficiary blk cfg tx fr s3 = (Ok tt, s4) /\
    forall a, balance_of s4 a = balance_of s2 a + credited ps a.
Proof.
  cbn zeta. intros Hdep Henv Hfree Hfee Hi Hc Hc0 Hbf Hbp Hg Hsup. set (g := fr_gas fr) in *.
  set (used := g_limit g - g_remaining g - g_refunded g).
  pose proof (law_used g Hg) as Hused. fold used in Hused.
  destruct (settle_run (es_chain s2) env g Hi Hg Hfree) as [Hop Hopr]. fold used in Hop, Hopr.
  assert (sat_mul U128_MAX (blk_basefee blk) used = blk_basefee blk * used) as Hbase.
  { destruct Hg as (Hg1 & Hg2 & Hg3 & Hg4). pose proof (mul_le_bound (blk_basefee blk) used U64_MAX U64_MAX Hbf).
    unfold sat_mul, fits, U64_MAX, U128_MAX in *. lia. }
  eexists _, _. split; [reflexivity|]. unfold base_reward_beneficiary. rewrite Hdep, Henv, Hfee.
  cbn [put_balances es_chain es_balance negb andb]. unfold calculate_tx_l1_cost. rewrite Hc.
  split; [reflexivity|]. cbn [es_balance put_balances put_chain foldl]. intros a.
  unfold balance_of at 1. cbn [es_balance put_balances put_chain]. fold spec g. rewrite Hused, Hop, Hopr, Hbase.
  exact (pay_all (es_chain s2) c g s2 _ _ _ _ _ Hi Hg Hc0 (conj (proj1 Hbf) Hbp) Hsup eq_refl eq_refl eq_refl eq_refl eq_refl a).
Qed.
End conservation.

Section claims.
Context `{RC : RevmCalldata} `{RG : RevmGas} `{RV : !Revm} `{RP : !RevmPrice} `{!RevmGasLaws} `{!RevmLaws}.

(** C20: Fees are conserved. Take a transaction that is not a deposit, charged up
    front for its L1 fee, the operator fee of its gas limit and its gas limit at
    the effective price. After it ran, reimbursement and fee distribution pay
    out, to the caller, the beneficiary and the three fee vaults, exactly what
    was charged: every account gains the non-negative amounts paid to it and
    nothing else moves. *)
Theorem fees_conserved blk cfg tx env m db s s1 s2 fr :
  is_deposit tx = false -> enveloped_tx tx = Some env -> is_free_input env = false ->
  cfg_fee_charge_disabled cfg = false -> cfg_balance_check_disabled cfg = false ->
  is_enabled_in (cfg_spec cfg) Fjord = true -> max_balance_spending tx = Ok m ->
  info_ok (es_chain (refresh_chain blk cfg db s)) -> tx_l1_cost (es_chain (refresh_chain blk cfg db s)) = None ->
  0 <= blk_basefee blk <= U64_MAX -> blk_basefee blk <= effective_gas_price tx blk ->
  base_validate_and_deduct blk cfg tx db s = (Ok tt, s1) ->
  es_chain s2 = es_chain s1 -> gas_final (fr_gas fr) -> g_limit (fr_gas fr) = tx_gas_limit tx ->
  let charge := balance_of s (tx_caller tx) - balance_of s1 (tx_caller tx) in
  (forall a, balance_of s2 a + charge <= U256_MAX) ->
  exists s3 s4 credits,
    base_reimburse_caller blk cfg tx fr s2 = (Ok tt, s3) /\
    base_reward_beneficiary blk cfg tx fr s3 = (Ok tt, s4) /\
    (forall a, balance_of s4 a = balance_of s2 a + credited credits a) /\
    credit_total credits = charge /\ Forall (fun p => 0 <= p.2) credits /\
    credits.*1 = [tx_caller tx; blk_beneficiary blk; L1_FEE_VAULT; BASE_FEE_VAULT; OPERATOR_FEE_VAULT].
Proof.
  intros Hdep Henv Hfree Hfee Hbal Hfj Hmax Hi Hc Hbf Hbp Hded Hch Hg Hlim charge Hsup.
  set (i := es_chain (refresh_chain blk cfg db s)) in *.
  assert (fits U64_MAX (tx_gas_limit tx)) as Hl by (rewrite <- Hlim; apply Hg).
  pose proof (tx_cost_run (cfg_spec cfg) tx env i Hi Hc Hfree Hfj Hl) as Hcost. cbn zeta in Hcost.
  set (c := calculate_tx_l1_cost_fjord i env) in *.
  pose proof (fjord_cost_bound env i Hi) as Hcb. fold c in Hcb.
  apply (deduct_iff blk cfg tx env m Hdep Henv Hfee Hbal Hmax db s s1 _ _ Hcost) in Hded as (_ & _ & Hs1).
  assert (es_chain s2 = put_tx_l1_cost (Some c) i) as Hch2.
  { rewrite Hch, Hs1. unfold charge_caller. by destruct (is_call (tx_kind tx)). }
  assert (charge = credit_total (payments blk cfg tx (put_tx_l1_cost (Some c) i) c (fr_gas fr))) as Hcharge.
  { rewrite payments_total, Hlim. subst charge. rewrite Hs1. unfold charge_caller, gas_charge.
    assert (balance_of (put_chain (put_tx_l1_cost (Some c) i) (refresh_chain blk cfg db s)) (tx_caller tx) =
      balance_of s (tx_caller tx)) as Hb0 by (unfold refresh_chain; by case_bool_decide).
    destruct (is_call (tx_kind tx)); unfold balance_of at 2; cbn [set_balance bump_nonce put_balances put_nonces es_balance];
      rewrite zget_zset_eq; unfold operator_fee; cbn [put_tx_l1_cost operator_fee_scalar operator_fee_constant]; lia. }
  rewrite <- Hch2 in Hcharge.
  destruct (payout_run blk cfg tx env fr s2 c) as (s3 & s4 & H3 & H4 & Hpay); try done; rewrite ?Hch2; try done; try lia.
  - by apply info_ok_cache.
  - rewrite <- Hch2, <- Hcharge. exact Hsup.
  - exists s3, s4, (payments blk cfg tx (es_chain s2) c (fr_gas fr)). do 3 (split; [done|]). split; [by symmetry|].
    split; [|done]. rewrite Hch2. apply payments_nonneg; [by apply info_ok_cache|done|lia|lia].
Qed.
End claims.

(** * A concrete instance *)

(** Bounds of a concrete map, by evaluation. *)
Lemma zget_range (b : gmap Z Z) lo hi a :
  lo <= 0 <= hi -> forallb (fun p => (lo <=? p.2) && (p.2 <=? hi)) (map_to_list b) = true ->
  lo <= zget b a <= hi.
Proof.
  intros H0 Hall. unfold zget. destruct (b !! a) as [v|] eqn:E; cbn; [|done].
  rewrite forallb_forall in Hall. specialize (Hall (a, v)). cbn in Hall.
  assert (In (a, v) (map_to_list b)) as Hin by (by apply list_elem_of_In, elem_of_map_to_list).
  specialize (Hall Hin). zbool. lia.
Qed.

Module RevmExample.
#[local] Existing Instances L1Example.calldata L1Example.gas.

Definition price_of (tx : BaseTransaction) (blk : Block) : Z :=
  Z.max 0 (Z.min (tx_max_fee_per_gas tx) (blk_basefee blk + default 0 (tx_gas_priority_fee tx))).
Definition price : RevmPrice := {| effective_gas_price := price_of |}.

Definition max_spending (tx : BaseTransaction) : hres Z :=
  if (0 <=? tx_gas_limit tx) && (0 <=? tx_max_fee_per_gas tx) && (0 <=? tx_value tx)
  then Ok (tx_gas_limit tx * tx_max_fee_per_gas tx + tx_value tx) else Err (ErrTransaction (InvalidRevm 0)).
Definition pay (a amount : Z) (b : gmap Z Z) : gmap Z Z := zset a (zget b a + amount) b.

Definition revm : Revm := {|
  max_balance_spending := max_spending;
  effective_balance_spending := fun tx _ _ => Some (tx_value tx);
  validate_nonce_and_code := fun n _ tx => if n =? tx_nonce tx then Ok tt else Err (ErrTransaction (InvalidRevm 1));
  calculate_caller_fee := fun balance tx blk _ =>
    match max_spending tx with
    | Ok m => if m <=? balance then Ok (balance - tx_gas_limit tx * price_of tx blk)
              else Err (ErrTransaction (LackOfFundForMaxFee m balance))
    | Err e => Err e
    end;
  revm_reimburse_caller := fun tx blk g extra b =>
    pay (tx_caller tx) (price_of tx blk * (g_remaining g + g_refunded g) + extra) b;
  revm_reward_beneficiary := fun tx blk g b => pay (blk_beneficiary blk) ((price_of tx blk - blk_basefee blk) * g_used g) b;
  balance_incr := pay;
  transfer := fun from to amount b =>
    if amount <=? zget b from then (None, pay to amount (pay from (- amount) b)) else (Some OutOfFunds, b);
  mainnet_validate_env := fun _ _ _ => Ok tt;
|}.
#[local] Existing Instances price revm.

Lemma zget_pay a amount b c : zget (pay a amount b) c = zget b c + (if c =? a then amount else 0).
Proof.
  unfold pay. rewrite zget_zset. destruct (c =? a) eqn:E; zbool; case_decide; subst; try congruence; lia.
Qed.

Lemma gas_laws : RevmGasLaws.
Proof. by split. Qed.

Lemma laws : RevmLaws.
Proof.
  split; cbn [max_balance_spending calculate_caller_fee effective_gas_price revm price].
  - intros tx m blk Hm. unfold max_spending in Hm. destruct (_ && _) eqn:E; [|discriminate]. injection Hm as <-. zbool.
    assert (0 <= price_of tx blk <= tx_max_fee_per_gas tx) by (unfold price_of; lia). nia.
  - intros balance tx blk cfg m v _ Hm. rewrite Hm. destruct (m <=? balance) eqn:E; zbool.
    + split; [intros [= <-]; auto|by intros [_ ->]].
    + split; [discriminate|lia].
  - intros. apply zget_pay.
  - intros. apply zget_pay.
  - intros. apply zget_pay.
  - intros from to amount b Hne Ha Hm. cbn [transfer revm]. destruct (amount <=? zget b from); [|eauto].
    eexists. split; [done|]. intros a. rewrite !zget_pay. destruct (a =? from), (a =? to); lia.
Qed.

Definition blk : Block := mkBlock 5 50 7 900 None.
Definition cfg : CfgEnv := mkCfg Jovian false false.
Definition tx : BaseTransaction :=
  mkTx 2 1 30000 (Call 8) 0 [] 0 9 (Some 1) (Some L1Example.tx) (mkDepositParts 0 None false) None.
Definition rich (chain : L1BlockInfo) : EvmState :=
  mkEvmState {[ 1 := 10 ^ 15; 3 := 10 ^ 15 ]} ∅ ∅ ∅ (mkPrecompileState empty_keychain (mkSciAgentState ∅ []))
    chain.
Definition s : EvmState := rich L1Example.info.
Definition s1 : EvmState := (base_validate_and_deduct blk cfg tx (fun _ => 0) s).2.
Definition fr : FrameResult := mkFrameResult _ IrOk (L1Example.mkGas 30000 10000 2000).

Lemma fees_conserved_witness :
  exists s3 s4 credits,
    base_reimburse_caller blk cfg tx fr s1 = (Ok tt, s3) /\
    base_reward_beneficiary blk cfg tx fr s3 = (Ok tt, s4) /\
    (forall a, balance_of s4 a = balance_of s1 a + credited credits a) /\
    credit_total credits = balance_of s 1 - balance_of s1 1 /\ Forall (fun p => 0 <= p.2) credits /\
    credits.*1 = [1; 900; L1_FEE_VAULT; BASE_FEE_VAULT; OPERATOR_FEE_VAULT].
Proof.
  refine (fees_conserved (H := gas_laws) (H0 := laws) blk cfg tx L1Example.tx 270000 (fun _ => 0) s s1 s1 fr
    eq_refl eq_refl eq_refl eq_refl eq_refl eq_refl eq_refl _ eq_refl _ _ _ eq_refl _ eq_refl _).
  - exact L1Example.info_wf.
  - vm_compute. split; discriminate.
  - vm_compute. discriminate.
  - vm_compute. reflexivity.
  - unfold gas_final, fits. vm_compute. repeat split; discriminate.
  - intros a. assert (balance_of s 1 - balance_of s1 1 <= 10 ^ 15) by (vm_compute; discriminate).
    assert (0 <= balance_of s1 a <= 10 ^ 15) by (apply zget_range; [lia|vm_compute; reflexivity]).
    change (tx_caller tx) with 1. unfold U256_MAX. lia.
Defined.
End RevmExample.
