(* ===== verification/AaTx.v ===== *)
(** The account-abstraction transaction, type 0x76
    ([crates/common/consensus/src/transaction/aa.rs]): its fields, their RLP
    encoding, and the transaction environment the EVM sees
    ([crates/common/evm/src/transaction/core.rs]).

    RLP encoding of the individual field types is code of the [alloy-rlp] crate
    and is the class [RlpCodecs]; [RlpLaws] states that a decoder undoes its
    encoder and leaves the rest of the input. *)

From S2P Require Import Prelude Codec Hardfork Keychain AgentState Dispatch AaHook Flz L1Block BaseHandler.

Definition SCI_AA_TX_TYPE_ID : Z := 0x76.
Definition EMPTY_STRING_CODE : Z := 0x80.

Definition AccessList : Type := list (Z * list Z).

Record BaseAaTransaction := mkAaTx {
  atx_chain_id : Z;
  atx_nonce : Z;
  atx_max_priority_fee_per_gas : Z;
  atx_max_fee_per_gas : Z;
  atx_gas_limit : Z;
  atx_calls : list AaCall;
  atx_access_list : AccessList;
  atx_fee_payer : option Z;
  atx_root : option Z;
}.

(** * Views of the transaction *)

(** [TxEip1559] of the first call. *)
Record TxEip1559 := mkTx1559 {
  e_chain_id : Z; e_nonce : Z; e_gas_limit : Z; e_max_fee : Z; e_max_priority : Z;
  e_to : TxKind; e_value : Z; e_access_list : AccessList; e_input : list Z;
}.

Definition to_eip1559_first_call (tx : BaseAaTransaction) : TxEip1559 :=
  let '(to, value, input) :=
    match atx_calls tx with
    | c :: _ => (ac_to c, ac_value c, ac_input c)
    | [] => (Create, 0, [])
    end in
  mkTx1559 (atx_chain_id tx) (atx_nonce tx) (atx_gas_limit tx) (atx_max_fee_per_gas tx)
    (atx_max_priority_fee_per_gas tx) to value (atx_access_list tx) input.

Definition aa_kind (tx : BaseAaTransaction) : TxKind :=
  match atx_calls tx with c :: _ => ac_to c | [] => Create end.
Definition aa_value (tx : BaseAaTransaction) : Z :=
  foldl (fun acc c => sat_add U256_MAX acc (ac_value c)) 0 (atx_calls tx).
Definition aa_input (tx : BaseAaTransaction) : list Z :=
  match atx_calls tx with c :: _ => ac_input c | [] => [] end.

(** The environment of [BaseTxEnvelope::Aa]: the first call's view with value
    zero, and the whole batch. *)
Definition aa_tx_env (tx : BaseAaTransaction) (caller : Z) (encoded : list Z) : BaseTransaction :=
  let e := to_eip1559_first_call tx in
  mkTx 2 caller (e_gas_limit e) (e_to e) 0 (e_input e) (e_nonce e) (e_max_fee e) (Some (e_max_priority e))
    (Some encoded) (mkDepositParts 0 None false)
    (Some (mkAaParts (atx_calls tx) (atx_root tx) (atx_fee_payer tx))).

(** * RLP *)

Class RlpCodecs := {
  rlp_u64 : codec Z;
  rlp_u128 : codec Z;
  rlp_calls : codec (list AaCall);
  rlp_access_list : codec AccessList;
  rlp_address : codec Z;
  rlp_list_header : Z -> list Z;   (* [Header { list: true, payload_length }] *)
}.

Definition ADDRESS_MAX : Z := 2 ^ 160 - 1.

Class RlpLaws `{RlpCodecs} := {
  law_u64 : codec_ok (fits U64_MAX) rlp_u64;
  law_u128 : codec_ok (fits U128_MAX) rlp_u128;
  law_calls : codec_ok (fun _ => True) rlp_calls;
  law_access_list : codec_ok (fun _ => True) rlp_access_list;
  law_address : codec_ok (fits ADDRESS_MAX) rlp_address;
  (* an address is a 20-byte string: its encoding starts with 0x94 *)
  law_address_head : forall a, fits ADDRESS_MAX a -> head (enc rlp_address a) = Some 0x94;
}.

Section rlp.
Context `{RlpCodecs}.

Definition opt_address_rlp_len (addr : option Z) : Z :=
  match addr with Some a => enc_len rlp_address a | None => 1 end.

Definition encode_opt_address (addr : option Z) : list Z :=
  match addr with Some a => enc rlp_address a | None => [EMPTY_STRING_CODE] end.

Definition decode_opt_address (buf : list Z) : option (option Z * list Z) :=
  match buf with
  | b :: rest =>
      if b =? EMPTY_STRING_CODE then Some (None, rest)
      else '(a, rest) ← dec rlp_address buf; Some (Some a, rest)
  | [] => '(a, rest) ← dec rlp_address buf; Some (Some a, rest)
  end.

Definition rlp_encoded_fields_length (tx : BaseAaTransaction) : Z :=
  enc_len rlp_u64 (atx_chain_id tx) + enc_len rlp_u64 (atx_nonce tx) +
  enc_len rlp_u128 (atx_max_priority_fee_per_gas tx) + enc_len rlp_u128 (atx_max_fee_per_gas tx) +
  enc_len rlp_u64 (atx_gas_limit tx) + enc_len rlp_calls (atx_calls tx) +
  enc_len rlp_access_list (atx_access_list tx) +
  opt_address_rlp_len (atx_fee_payer tx) + opt_address_rlp_len (atx_root tx).

Definition rlp_encode_fields (tx : BaseAaTransaction) : list Z :=
  enc rlp_u64 (atx_chain_id tx) ++ enc rlp_u64 (atx_nonce tx) ++
  enc rlp_u128 (atx_max_priority_fee_per_gas tx) ++ enc rlp_u128 (atx_max_fee_per_gas tx) ++
  enc rlp_u64 (atx_gas_limit tx) ++ enc rlp_calls (atx_calls tx) ++
  enc rlp_access_list (atx_access_list tx) ++
  encode_opt_address (atx_fee_payer tx) ++ encode_opt_address (atx_root tx).

Definition rlp_decode_fields (buf : list Z) : option (BaseAaTransaction * list Z) :=
  '(chain_id, buf) ← dec rlp_u64 buf;
  '(nonce, buf) ← dec rlp_u64 buf;
  '(max_priority_fee_per_gas, buf) ← dec rlp_u128 buf;
  '(max_fee_per_gas, buf) ← dec rlp_u128 buf;
  '(gas_limit, buf) ← dec rlp_u64 buf;
  '(calls, buf) ← dec rlp_calls buf;
  '(access_list, buf) ← dec rlp_access_list buf;
  '(fee_payer, buf) ← decode_opt_address buf;
  '(root, buf) ← decode_opt_address buf;
  Some (mkAaTx chain_id nonce max_priority_fee_per_gas max_fee_per_gas gas_limit calls access_list
          fee_payer root, buf).

Definition encode_for_signing (tx : BaseAaTransaction) : list Z :=
  SCI_AA_TX_TYPE_ID :: rlp_list_header (rlp_encoded_fields_length tx) ++ rlp_encode_fields tx.

(** * Round trip *)

Definition opt_address_ok (addr : option Z) : Prop :=
  match addr with Some a => fits ADDRESS_MAX a | None => True end.

(** Fields within the ranges of their Rust types. *)
Definition aa_tx_ok (tx : BaseAaTransaction) : Prop :=
  fits U64_MAX (atx_chain_id tx) /\ fits U64_MAX (atx_nonce tx) /\
  fits U128_MAX (atx_max_priority_fee_per_gas tx) /\ fits U128_MAX (atx_max_fee_per_gas tx) /\
  fits U64_MAX (atx_gas_limit tx) /\ opt_address_ok (atx_fee_payer tx) /\ opt_address_ok (atx_root tx).

Context `{!RlpLaws}.

Lemma opt_address_codec :
  codec_ok opt_address_ok (mkCodec encode_opt_address opt_address_rlp_len decode_opt_address).
Proof.
  intros [a|] Ha; cbn in *; [|split; [done|intros rest; reflexivity]].
  destruct (law_address a Ha) as [Hl Hd]. split; [done|]. intros rest. specialize (Hd rest).
  pose proof (law_address_head a Ha) as Hh. unfold decode_opt_address.
  destruct (enc rlp_address a) as [|b bs]; [discriminate|]. cbn in Hh. injection Hh as ->.
  cbn [app] in *. cbn [Z.eqb EMPTY_STRING_CODE Pos.eqb]. by rewrite Hd.
Qed.

(** The fields of an account-abstraction transaction round trip through RLP:
    decoding the encoding gives the transaction back, with or without fee payer
    and root, and consumes exactly the encoding; and the announced length is the
    length of the encoding. *)
Theorem aa_rlp_roundtrip tx rest :
  aa_tx_ok tx ->
  rlp_decode_fields (rlp_encode_fields tx ++ rest) = Some (tx, rest) /\
  rlp_encoded_fields_length tx = Z.of_nat (length (rlp_encode_fields tx)).
Proof.
  intros (H1 & H2 & H3 & H4 & H5 & H6 & H7). destruct tx as [ci no mp mf gl cs al fp rt]. cbn in *.
  destruct (law_u64 ci H1) as [L1 D1], (law_u64 no H2) as [L2 D2], (law_u128 mp H3) as [L3 D3],
    (law_u128 mf H4) as [L4 D4], (law_u64 gl H5) as [L5 D5], (law_calls cs I) as [L6 D6],
    (law_access_list al I) as [L7 D7], (opt_address_codec fp H6) as [L8 D8], (opt_address_codec rt H7) as [L9 D9].
  cbn [enc dec enc_len] in L8, D8, L9, D9. unfold rlp_decode_fields, rlp_encode_fields, rlp_encoded_fields_length.
  cbn [atx_chain_id atx_nonce atx_max_priority_fee_per_gas atx_max_fee_per_gas atx_gas_limit atx_calls
    atx_access_list atx_fee_payer atx_root].
  split.
  - rewrite <- !app_assoc. rewrite D1. cbn [mbind option_bind]. rewrite D2. cbn [mbind option_bind].
    rewrite D3. cbn [mbind option_bind]. rewrite D4. cbn [mbind option_bind]. rewrite D5. cbn [mbind option_bind].
    rewrite D6. cbn [mbind option_bind]. rewrite D7. cbn [mbind option_bind]. rewrite D8. cbn [mbind option_bind].
    rewrite D9. done.
  - rewrite !length_app, !Nat2Z.inj_add, L1, L2, L3, L4, L5, L6, L7, L8, L9. lia.
Qed.
End rlp.

(** * A concrete instance *)

Module AaTxExample.
#[local] Instance TxKind_eq_dec : EqDecision TxKind.
Proof. solve_decision. Defined.
#[local] Instance AaCall_eq_dec : EqDecision AaCall.
Proof. solve_decision. Defined.
#[local] Instance AaCall_countable : Countable AaCall.
Proof.
  refine (inj_countable'
    (fun c => (match ac_to c with Create => None | Call t => Some t end, ac_value c, ac_input c))
    (fun '(t, v, i) => mkAaCall (match t with None => Create | Some t => Call t end) v i) _).
  by intros [[] ? ?].
Defined.

Definition address_codec : codec Z :=
  mkCodec (fun a => 0x94 :: be_bytes 20 a) (fun _ => 21)
    (fun buf => match buf with
                | 0x94 :: rest => Some (be_val (take 20 rest), drop 20 rest)
                | _ => None
                end).

Definition codecs : RlpCodecs := {|
  rlp_u64 := token_codec; rlp_u128 := token_codec; rlp_calls := token_codec;
  rlp_access_list := token_codec; rlp_address := address_codec; rlp_list_header := fun n => [0xc0 + n];
|}.
#[local] Existing Instance codecs.

Lemma codecs_ok : RlpLaws.
Proof.
  split; try apply token_codec_ok; [|done]. intros a Ha. split.
  - cbn [enc_len rlp_address codecs address_codec enc length]. by rewrite length_be_bytes.
  - intros rest. cbn [dec enc rlp_address codecs address_codec app].
    rewrite take_app_length', drop_app_length' by (by rewrite length_be_bytes).
    rewrite be_val_be_bytes; [done|]. unfold fits, ADDRESS_MAX in Ha. change (256 ^ Z.of_nat 20) with (2 ^ 160). lia.
Qed.

Definition tx : BaseAaTransaction :=
  mkAaTx 42001 7 1000000000 2000000000 210000 [mkAaCall (Call 5) 1 [222; 173]; mkAaCall Create 0 []] []
    (Some 99) None.

Lemma aa_rlp_roundtrip_witness :
  rlp_decode_fields (rlp_encode_fields tx ++ [1; 2]) = Some (tx, [1; 2]).
Proof.
  refine (proj1 (aa_rlp_roundtrip (H0 := codecs_ok) tx [1; 2] _)).
  unfold aa_tx_ok, opt_address_ok, fits. vm_compute. repeat split; discriminate.
Defined.
End AaTxExample.
