(* ===== verification/SciHandler.v ===== *)
(** SCI's transaction handler ([crates/common/evm/src/sci_handler.rs]): sponsored
    gas, the keychain hook, atomic batches and the deferred deductions, on top
    of Base's handler.

    Running a frame is revm's interpreter and is the parameter [run_frame] of
    the execution functions; the rest of revm is [BaseHandler.Revm]. *)

From S2P Require Import Prelude Hardfork Packing Layout StorageVec EnumerableSet Keychain KeychainSpend KeychainScope KeychainAdmin AgentState Dispatch AaHook Flz L1Block BaseHandler AaTx.

Section handler.
Context `{Keccak256} `{Erc20Abi} `{RC : RevmCalldata} `{RG : RevmGas} `{RV : !Revm}.
Context (blk : Block) (cfg : CfgEnv) (tx : BaseTransaction).
Let spec := cfg_spec cfg.

(** * Before execution *)

Definition transfer_or (from to amount : Z) (msg : string) : hio unit := fun s =>
  match transfer from to amount (es_balance s) with
  | (Some _, b) => (Err (ErrCustom msg), put_balances b s)
  | (None, b) => (Ok tt, put_balances b s)
  end.

(** The amount Base's deduction may demand of the signer: maximal gas and the
    additional cost; the L1 block info is refreshed on the way. *)
Definition sponsor_prefund (db : Z -> Z) : hio Z := fun s =>
  let s := refresh_chain blk cfg db s in
  match max_balance_spending tx with
  | Err _ => (Err (ErrCustom "max gas overflow"), s)
  | Ok max_gas =>
      match tx_cost_with_tx (es_chain s) tx spec with
      | Some (additional_cost, chain) => (Ok (sat_add U256_MAX max_gas additional_cost), put_chain chain s)
      | None => (Ok (sat_add U256_MAX max_gas 0), s)
      end
  end.

(** Return the excess to the sponsor, or cover the shortfall from it. *)
Definition sponsor_reconcile (fp signer_before : Z) : hio unit :=
  let signer := tx_caller tx in
  signer_after ← gets (fun s => balance_of s signer);
  let '(from, to, amount) :=
    if signer_after >=? signer_before then (signer, fp, signer_after - signer_before)
    else (fp, signer, signer_before - signer_after) in
  if amount =? 0 then mret tt else transfer_or from to amount "fee_payer gas reconcile failed".

(** Deduct with a sponsor: pre-fund, deduct, and reconcile to the signer's
    starting balance. *)
Definition sponsored_deduct (db : Z -> Z) (fp : Z) : hio unit :=
  let signer := tx_caller tx in
  prefund ← sponsor_prefund db;
  signer_before ← gets (fun s => balance_of s signer);
  transfer_or fp signer prefund "fee_payer cannot cover gas";;
  base_validate_and_deduct blk cfg tx db;;
  sponsor_reconcile fp signer_before.

Definition tx_root : option Z := tx_aa tx ≫= aa_root.
Definition raw_fee_payer : option Z := tx_aa tx ≫= aa_fee_payer.

(** The fee payer when it is not the signer. *)
Definition sponsor : option Z :=
  fp ← raw_fee_payer; if fp =? tx_caller tx then None else Some fp.

Definition gas_reservation (root : Z) : Z :=
  if bool_decide (raw_fee_payer = Some root)
  then sat_mul U256_MAX (tx_gas_limit tx) (tx_max_fee_per_gas tx) else 0.

(** [set_keychain_tx_origin] on the transaction's caller. *)
Definition seed_origin : hio unit := fun s =>
  match on_keychain (set_keychain_tx_origin (tx_caller tx)) (es_precompiles s) with
  | (Ok _, p) => (Ok tt, put_precompiles p s)
  | (Err _, p) => (Err (ErrCustom "keychain tx_origin setup failed"), put_precompiles p s)
  end.

Definition run_hook (root : Z) (calls : list AaCall) : hio unit := fun s =>
  match run_aa_keychain_hook (blk_timestamp blk) root (tx_caller tx) calls (gas_reservation root)
          (es_precompiles s) with
  | (Ok Pass, p) => (Ok tt, put_precompiles p s)
  | (Ok (Reject r), p) => (Err (ErrTransaction (InvalidHook r)), put_precompiles p s)
  | (Err _, p) => (Err (ErrCustom "SCI AA keychain hook system error"), put_precompiles p s)
  end.

Definition validate_against_state_and_deduct_caller (db : Z -> Z) : hio unit :=
  if negb (bool_decide (raw_fee_payer = None)) && negb (bool_decide (raw_fee_payer = tx_root)) then
    throw (ErrTransaction (InvalidStr "AA fee_payer must equal root"))
  else
    match sponsor with
    | Some fp => sponsored_deduct db fp
    | None => base_validate_and_deduct blk cfg tx db
    end;;
    if is_deposit tx then seed_origin
    else match tx_root, tx_aa tx with
    | Some root, Some parts => run_hook root (aa_calls parts)
    | _, _ => seed_origin
    end.

(** * Execution *)

Definition I64_SAT (x : Z) : Z := Z.max I64_MIN (Z.min x I64_MAX).

(** revm's [Gas] with the whole limit spent, then credited back. *)
Definition finalize_batch_gas (fr : FrameResult) (gas_limit remaining refund : Z) : FrameResult :=
  let gas := erase_cost remaining (new_spent gas_limit) in
  mkFrameResult _ (fr_result fr) (if refund >? 0 then record_refund refund gas else gas).

(** The bytecode a call runs: the target's, or its EIP-7702 delegate's. *)
Definition resolve_code (s : EvmState) (target : Z) : option Bytecode :=
  match es_code s !! target with
  | Some (Eip7702 delegated) => es_code s !! delegated
  | c => c
  end.

Definition frame_of (caller : Z) (c : AaCall) (gas_limit : Z) (s : EvmState) : FrameInit :=
  mkFrameInit caller (ac_to c) (ac_value c) (ac_input c) gas_limit
    (match ac_to c with Call target => resolve_code s target | Create => None end).

Section execution.
Context (run_frame : FrameInit -> hio FrameResult).

Inductive BatchEnd :=
| BatchFailed (fr : FrameResult)
| BatchDone (last : option FrameResult) (remaining_gas acc_refund : Z).

Fixpoint batch_loop (caller : Z) (calls : list AaCall) (remaining_gas acc_refund : Z) (last : option FrameResult)
  : hio BatchEnd :=
  match calls with
  | [] => mret (BatchDone last remaining_gas acc_refund)
  | c :: calls =>
      frame ← gets (frame_of caller c remaining_gas);
      fr ← run_frame frame;
      match fr_result fr with
      | IrOk => batch_loop caller calls (g_remaining (fr_gas fr))
                  (I64_SAT (acc_refund + g_refunded (fr_gas fr))) (Some fr)
      | _ => mret (BatchFailed fr)
      end
  end.

(** [None] for the panic of [expect] on an empty batch. *)
Definition execute_aa_batch (initial_gas : Z) (aa : AaTransactionParts) (s : EvmState)
  : option (hres FrameResult * EvmState) :=
  let caller := default (tx_caller tx) (aa_root aa) in
  let remaining_gas := sat_sub (tx_gas_limit tx) initial_gas in
  match batch_loop caller (aa_calls aa) remaining_gas 0 None s with
  | (Err e, s') => Some (Err e, s')
  | (Ok (BatchFailed fr), s') =>
      let remaining := match fr_result fr with IrRevert => g_remaining (fr_gas fr) | _ => 0 end in
      Some (Ok (finalize_batch_gas fr (tx_gas_limit tx) remaining 0), checkpoint_revert s s')
  | (Ok (BatchDone (Some fr) remaining refund), s') =>
      Some (Ok (finalize_batch_gas fr (tx_gas_limit tx) remaining refund), s')
  | (Ok (BatchDone None _ _), _) => None
  end.

(** Base's single frame: revm's default [execution] with Base's
    [last_frame_result]. *)
Definition base_execution (initial_gas : Z) : hio FrameResult :=
  frame ← gets (frame_of (tx_caller tx) (mkAaCall (tx_kind tx) (tx_value tx) (tx_input tx))
                  (tx_gas_limit tx - initial_gas));
  fr ← run_frame frame;
  mret (base_last_frame_result cfg tx fr).

Definition execution (initial_gas : Z) (s : EvmState) : option (hres FrameResult * EvmState) :=
  match tx_aa tx with
  | Some aa => if bool_decide (aa_calls aa = []) then Some (base_execution initial_gas s)
               else execute_aa_batch initial_gas aa s
  | None => Some (base_execution initial_gas s)
  end.
End execution.

(** * After execution *)

Definition reimburse_caller (fr : FrameResult) : hio unit :=
  match sponsor with
  | None => base_reimburse_caller blk cfg tx fr
  | Some fp =>
      before ← gets (fun s => balance_of s (tx_caller tx));
      base_reimburse_caller blk cfg tx fr;;
      after ← gets (fun s => balance_of s (tx_caller tx));
      let refund := sat_sub after before in
      if refund =? 0 then mret tt else transfer_or (tx_caller tx) fp refund "fee_payer refund failed"
  end.

Definition gas_deduction (root : Z) (fr : FrameResult) : Z :=
  if bool_decide (raw_fee_payer = Some root)
  then sat_mul U256_MAX (g_used (fr_gas fr)) (tx_max_fee_per_gas tx) else 0.

Definition body_ok (fr : FrameResult) : bool := match fr_result fr with IrOk => true | _ => false end.

(** The deferred deductions of an agent transaction. *)
Definition deduct_spending (fr : FrameResult) : hio unit := fun s =>
  match tx_root with
  | None => (Ok tt, s)
  | Some root =>
      let gas := gas_deduction root fr in
      let calls := if body_ok fr then default [] (aa_calls <$> tx_aa tx) else [] in
      if body_ok fr || negb (gas =? 0) then
        match apply_aa_post_execution_deductions (blk_timestamp blk) root (tx_caller tx) calls gas
                (ps_keychain (es_precompiles s)) with
        | (Ok _, k) => (Ok tt, put_precompiles (mkPrecompileState k (ps_agent (es_precompiles s))) s)
        | (Err _, k) => (Err (ErrCustom "apply AA deductions failed"),
                         put_precompiles (mkPrecompileState k (ps_agent (es_precompiles s))) s)
        end
      else (Ok tt, s)
  end.

Definition execution_result (fr : FrameResult) : hio ExecutionResult :=
  deduct_spending fr;; base_execution_result cfg tx fr.
End handler.

(** * Sponsored gas *)

Section sponsored.
Context `{Keccak256} `{Erc20Abi} `{RC : RevmCalldata} `{RG : RevmGas} `{RV : !Revm} `{RP : !RevmPrice} `{!RevmLaws}.
Context (blk : Block) (cfg : CfgEnv) (tx : BaseTransaction) (env : list Z) (m : Z).
Context (Hdep : is_deposit tx = false) (Henv : enveloped_tx tx = Some env) (Hfree : is_free_input env = false).
Context (Hfee : cfg_fee_charge_disabled cfg = false) (Hbal : cfg_balance_check_disabled cfg = false).
Context (Hmax : max_balance_spending tx = Ok m) (Hfj : is_enabled_in (cfg_spec cfg) Fjord = true).
Context (Hlim : fits U64_MAX (tx_gas_limit tx)).

(** The additional cost under a given L1 block info. *)
Definition additional (i : L1BlockInfo) : Z :=
  calculate_tx_l1_cost_fjord i env +
  (if is_enabled_in (cfg_spec cfg) Isthmus then operator_fee i (tx_gas_limit tx) (cfg_spec cfg) else 0).

Lemma additional_nonneg i : info_ok i -> 0 <= additional i.
Proof.
  intros Hi. unfold additional. pose proof (fjord_cost_bound env i Hi).
  destruct (operator_fee_exact i (tx_gas_limit tx) (cfg_spec cfg) Hi Hlim) as [_ Hb].
  destruct (is_enabled_in (cfg_spec cfg) Isthmus); lia.
Qed.

(** A second computation of the cost, on the info the first one left. *)
Lemma tx_cost_again i :
  info_ok i -> tx_l1_cost i = None ->
  tx_cost i env (tx_gas_limit tx) (cfg_spec cfg) =
    (additional i, put_tx_l1_cost (Some (calculate_tx_l1_cost_fjord i env)) i) /\
  tx_cost (put_tx_l1_cost (Some (calculate_tx_l1_cost_fjord i env)) i) env (tx_gas_limit tx) (cfg_spec cfg) =
    (additional i, put_tx_l1_cost (Some (calculate_tx_l1_cost_fjord i env)) i).
Proof.
  intros Hi Hc. split; [by apply tx_cost_run|]. unfold tx_cost, calculate_tx_l1_cost. cbn [tx_l1_cost put_tx_l1_cost].
  unfold additional. pose proof (fjord_cost_bound env i Hi) as Hb.
  destruct (is_enabled_in (cfg_spec cfg) Isthmus) eqn:E; [|by rewrite Z.add_0_r].
  unfold operator_fee_charge. rewrite Hfree.
  fold (put_tx_l1_cost (Some (calculate_tx_l1_cost_fjord i env)) i).
  destruct (operator_fee_exact _ _ (cfg_spec cfg) (info_ok_cache (Some (calculate_tx_l1_cost_fjord i env)) i Hi) Hlim) as [-> Ho].
  rewrite uadd_exact by (unfold operator_fee in *; cbn in *; unfold U256_MAX; lia). done.
Qed.

Lemma refresh_fields db s :
  let s0 := refresh_chain blk cfg db s in
  es_balance s0 = es_balance s /\ es_nonce s0 = es_nonce s /\ es_code s0 = es_code s /\
  es_storage s0 = es_storage s /\ es_precompiles s0 = es_precompiles s /\
  l2_block (es_chain s0) = Some (blk_number blk).
Proof.
  cbn zeta. unfold refresh_chain. case_bool_decide; [done|]. repeat split; try done. cbn [put_chain es_chain].
  unfold try_fetch. destruct (negb _); [done|].
  by destruct (is_enabled_in (cfg_spec cfg) Jovian), (is_enabled_in (cfg_spec cfg) Isthmus).
Qed.

Lemma refresh_id db s : l2_block (es_chain s) = Some (blk_number blk) -> refresh_chain blk cfg db s = s.
Proof. intros Hl. unfold refresh_chain. by rewrite bool_decide_eq_true_2. Qed.

Lemma transfer_or_run from to amount msg s :
  from <> to -> 0 <= amount -> balance_of s to + amount <= U256_MAX ->
  if amount <=? balance_of s from then
    exists b, transfer_or from to amount msg s = (Ok tt, put_balances b s) /\
      forall a, zget b a = balance_of s a - (if a =? from then amount else 0) + (if a =? to then amount else 0)
  else transfer_or from to amount msg s = (Err (ErrCustom msg), s).
Proof.
  intros Hne Ha Hm. pose proof (law_transfer from to amount (es_balance s) Hne Ha Hm) as Hl. unfold transfer_or, balance_of.
  destruct (amount <=? zget (es_balance s) from).
  - destruct Hl as (b & -> & Hb). exists b. split; [done|exact Hb].
  - destruct Hl as (e & ->). by destruct s.
Qed.

(** The state after the charge but for its balances. *)
Definition charged_frame (db : Z -> Z) (s s1 : EvmState) : Prop :=
  es_code s1 = es_code s /\ es_storage s1 = es_storage s /\ es_precompiles s1 = es_precompiles s /\
  forall a, nonce_of s1 a = nonce_of s a + (if is_call (tx_kind tx) && (a =? tx_caller tx) then 1 else 0).

Lemma charge_caller_fields v s :
  (forall a, balance_of (charge_caller tx v s) a = if a =? tx_caller tx then v else balance_of s a) /\
  es_code (charge_caller tx v s) = es_code s /\ es_storage (charge_caller tx v s) = es_storage s /\
  es_precompiles (charge_caller tx v s) = es_precompiles s /\
  forall a, nonce_of (charge_caller tx v s) a =
    nonce_of s a + (if is_call (tx_kind tx) && (a =? tx_caller tx) then 1 else 0).
Proof.
  unfold charge_caller, set_balance, bump_nonce, balance_of, nonce_of.
  assert (forall a, zget (zset (tx_caller tx) v (es_balance s)) a =
    if a =? tx_caller tx then v else zget (es_balance s) a) as Hb.
  { intros a. rewrite zget_zset. destruct (a =? tx_caller tx) eqn:E; zbool; case_decide; congruence. }
  destruct (is_call (tx_kind tx)); cbn [put_balances put_nonces es_balance es_nonce es_code es_storage es_precompiles andb];
    (split; [exact Hb|]); do 3 (split; [done|]); intros a; [|lia].
  rewrite zget_zset. destruct (a =? tx_caller tx) eqn:E; zbool; case_decide; subst; try done; lia.
Qed.

(** Reconciling when the signer holds an excess over its starting balance. *)
Lemma reconcile_run fp before s :
  fp <> tx_caller tx -> before <= balance_of s (tx_caller tx) ->
  let excess := balance_of s (tx_caller tx) - before in
  balance_of s fp + excess <= U256_MAX /\ 0 <= before ->
  exists s1, sponsor_reconcile tx fp before s = (Ok tt, s1) /\
    es_code s1 = es_code s /\ es_storage s1 = es_storage s /\ es_precompiles s1 = es_precompiles s /\
    es_nonce s1 = es_nonce s /\
    forall a, balance_of s1 a = balance_of s a - (if a =? tx_caller tx then excess else 0) + (if a =? fp then excess else 0).
Proof.
  cbn zeta. intros Hne Hle [Hmx Hb]. unfold sponsor_reconcile. rewrite (bind_run _ _ _ (balance_of s (tx_caller tx)) s) by done.
  rewrite Z.geb_leb, (proj2 (Z.leb_le _ _)) by lia. destruct (_ =? 0) eqn:E; zbool.
  - exists s. do 5 (split; [done|]). intros a. rewrite E. destruct (a =? tx_caller tx), (a =? fp); lia.
  - pose proof (transfer_or_run (tx_caller tx) fp (balance_of s (tx_caller tx) - before)
      "fee_payer gas reconcile failed" s ltac:(congruence) ltac:(lia) Hmx) as Ht.
    rewrite (proj2 (Z.leb_le _ _)) in Ht by lia. destruct Ht as (b & Ht & Hbal'). rewrite Ht.
    exists (put_balances b s). do 5 (split; [done|]). exact Hbal'.
Qed.

Lemma prefund_run db s :
  let s0 := refresh_chain blk cfg db s in
  let i := es_chain s0 in
  info_ok i -> tx_l1_cost i = None -> m + additional i <= U256_MAX ->
  sponsor_prefund blk cfg tx db s =
    (Ok (m + additional i), put_chain (put_tx_l1_cost (Some (calculate_tx_l1_cost_fjord i env)) i) s0).
Proof.
  cbn zeta. intros Hi Hc Hle. unfold sponsor_prefund. rewrite Hmax. unfold tx_cost_with_tx. rewrite Henv.
  cbn [mbind option_bind]. destruct (tx_cost_again _ Hi Hc) as [-> _]. unfold sat_add. by rewrite Z.min_l.
Qed.

(** Base's charge on a state whose info already caches the L1 cost. *)
Lemma funded_deduct db i s :
  info_ok i -> tx_l1_cost i = None -> l2_block i = Some (blk_number blk) ->
  let chain := put_tx_l1_cost (Some (calculate_tx_l1_cost_fjord i env)) i in
  es_chain s = chain ->
  validate_nonce_and_code (nonce_of s (tx_caller tx)) (es_code s !! tx_caller tx) tx = Ok tt ->
  additional i + m <= balance_of s (tx_caller tx) ->
  base_validate_and_deduct blk cfg tx db s =
    (Ok tt, charge_caller tx (balance_of s (tx_caller tx) - additional i - gas_charge blk tx) (put_chain chain s)).
Proof.
  cbn zeta. intros Hi Hc Hl2 Hch Hn Hcov. destruct (tx_cost_again i Hi Hc) as [_ C2].
  pose proof (deduct_iff blk cfg tx env m Hdep Henv Hfee Hbal Hmax db s) as Hd. cbn zeta in Hd.
  rewrite refresh_id in Hd by (by rewrite Hch). rewrite Hch in Hd.
  by apply (fun s1 => Hd s1 _ _ C2).
Qed.

(** The sponsored charge: it needs the sponsor to hold the maximal fee, and the
    sponsor ends up paying the actual one. *)
Lemma sponsored_run db fp s :
  let i := es_chain (refresh_chain blk cfg db s) in
  let signer := tx_caller tx in
  fp <> signer -> info_ok i -> tx_l1_cost i = None -> 0 <= tx_value tx -> 0 <= gas_charge blk tx ->
  (forall a, 0 <= balance_of s a) -> balance_of s signer + m + additional i <= U256_MAX ->
  balance_of s fp <= U256_MAX ->
  validate_nonce_and_code (nonce_of s signer) (es_code s !! signer) tx = Ok tt ->
  if m + additional i <=? balance_of s fp then
    exists s1, sponsored_deduct blk cfg tx db fp s = (Ok tt, s1) /\ charged_frame db s s1 /\
      forall a, balance_of s1 a = balance_of s a - (if a =? fp then additional i + gas_charge blk tx else 0)
  else exists s1, sponsored_deduct blk cfg tx db fp s = (Err (ErrCustom "fee_payer cannot cover gas"), s1).
Proof.
  cbn zeta. intros Hne Hi Hc Hv Hgc Hpos Hsup Hfp Hnonce.
  destruct (refresh_fields db s) as (F1 & F2 & F3 & F4 & F5 & F6).
  set (s0 := refresh_chain blk cfg db s) in *. set (i := es_chain s0) in *. set (signer := tx_caller tx) in *.
  destruct (tx_cost_again i Hi Hc) as [C1 C2].
  set (chain := put_tx_l1_cost (Some (calculate_tx_l1_cost_fjord i env)) i) in *.
  pose proof (additional_nonneg i Hi) as Hadd. pose proof (law_max_spending tx m blk Hmax) as Hm.
  pose proof (Hpos signer) as Hps. set (add := additional i) in *.
  set (sA := put_chain chain s0).
  pose proof (prefund_run db s Hi Hc ltac:(fold s0 i add; lia)) as Hpre. fold s0 i add chain sA in Hpre.
  unfold sponsored_deduct. rewrite (bind_run _ _ _ _ _ Hpre), (bind_run _ _ _ (balance_of s signer) sA)
    by (unfold gets, balance_of, sA; cbn [put_chain es_balance]; by rewrite F1).
  assert (forall a, balance_of sA a = balance_of s a) as HbA
    by (intros a; unfold balance_of, sA; cbn [put_chain es_balance]; by rewrite F1).
  pose proof (transfer_or_run fp signer (m + add) "fee_payer cannot cover gas" sA Hne ltac:(lia)) as Ht.
  rewrite !HbA in Ht. specialize (Ht ltac:(lia)).
  destruct (m + add <=? balance_of s fp) eqn:Ecov; zbool; [|exists sA; by rewrite (bind_run_err _ _ _ _ _ Ht)].
  destruct Ht as (b1 & Ht & Hb1). rewrite (bind_run _ _ _ _ _ Ht).
  set (sB := put_balances b1 sA).
  assert (balance_of sB signer = balance_of s signer + (m + add)) as HBs.
  { unfold balance_of at 1. cbn [sB put_balances es_balance]. rewrite Hb1, HbA, Z.eqb_refl.
    rewrite (proj2 (Z.eqb_neq signer fp)) by congruence. lia. }
  assert (base_validate_and_deduct blk cfg tx db sB =
    (Ok tt, charge_caller tx (balance_of sB signer - add - gas_charge blk tx) (put_chain chain sB))) as Hded.
  { apply (funded_deduct db i sB Hi Hc F6 eq_refl); fold signer add; [|lia].
    unfold nonce_of. cbn [sB sA put_balances put_chain es_nonce es_code]. by rewrite F2, F3. }
  rewrite HBs in Hded. replace (balance_of s signer + (m + add) - add - gas_charge blk tx)
    with (balance_of s signer + m - gas_charge blk tx) in Hded by lia.
  rewrite (bind_run _ _ _ _ _ Hded).
  destruct (charge_caller_fields (balance_of s signer + m - gas_charge blk tx) (put_chain chain sB))
    as (G1 & G2 & G3 & G4 & G5).
  set (sC := charge_caller tx _ _) in *. fold signer in G1.
  assert (forall a, balance_of sC a = balance_of s a + (if a =? signer then m - gas_charge blk tx else 0) -
    (if a =? fp then m + add else 0)) as HbC.
  { intros a. rewrite G1. unfold balance_of at 2. cbn [put_chain sB put_balances es_balance]. rewrite Hb1, HbA.
    destruct (a =? signer) eqn:E1; zbool; [|lia]. subst a. rewrite (proj2 (Z.eqb_neq signer fp)) by congruence. lia. }
  destruct (reconcile_run fp (balance_of s signer) sC) as (s1 & Hs1 & Hcode & Hst & Hps1 & Hn1 & Hb);
    [done|fold signer; rewrite HbC, Z.eqb_refl, (proj2 (Z.eqb_neq signer fp)) by congruence; unfold gas_charge in *; lia| |].
  { fold signer. rewrite !HbC, !Z.eqb_refl, (proj2 (Z.eqb_neq signer fp)), (proj2 (Z.eqb_neq fp signer)) by congruence.
    unfold gas_charge in *. lia. }
  exists s1. split; [exact Hs1|]. split.
  - unfold charged_frame. rewrite Hcode, Hst, Hps1, G2, G3, G4. cbn [put_chain sB put_balances sA es_code es_storage es_precompiles].
    rewrite F3, F4, F5. do 3 (split; [done|]). intros a. unfold nonce_of at 1. rewrite Hn1. fold (nonce_of sC a). rewrite G5.
    unfold nonce_of. cbn [put_chain sB put_balances sA es_nonce]. by rewrite F2.
  - intros a. rewrite Hb. fold signer. rewrite !HbC, Z.eqb_refl, (proj2 (Z.eqb_neq signer fp)) by congruence.
    destruct (a =? signer) eqn:E1, (a =? fp) eqn:E2; zbool; subst; try congruence; lia.
Qed.
End sponsored.

(** * Batches *)

(** A batch run call by call: each frame starts in the state and with the gas
    the previous one left, and all succeed; the refunds (which may be negative)
    are summed up in 64 bits. *)
Inductive runs `{RG : RevmGas} (run_frame : FrameInit -> hio FrameResult) (caller : Z)
  : list AaCall -> Z -> Z -> EvmState -> Z -> Z -> EvmState -> Prop :=
| runs_nil gas acc s : runs run_frame caller [] gas acc s gas acc s
| runs_cons c calls gas acc s fr s1 gas' acc' s' :
    run_frame (frame_of caller c gas s) s = (Ok fr, s1) -> fr_result fr = IrOk ->
    runs run_frame caller calls (g_remaining (fr_gas fr)) (I64_SAT (acc + g_refunded (fr_gas fr))) s1 gas' acc' s' ->
    runs run_frame caller (c :: calls) gas acc s gas' acc' s'.

Section batch.
Context `{RG : RevmGas} `{GL : !RevmGasLaws}.
Context (tx : BaseTransaction) (run_frame : FrameInit -> hio FrameResult).

Lemma batch_loop_inv caller calls gas acc last s e s' :
  batch_loop run_frame caller calls gas acc last s = (Ok e, s') ->
  match e with
  | BatchFailed fr => fr_result fr <> IrOk
  | BatchDone last' gas' acc' =>
      runs run_frame caller calls gas acc s gas' acc' s' /\ (calls = [] -> last' = last) /\
      (calls <> [] -> exists fr, last' = Some fr /\ fr_result fr = IrOk)
  end.
Proof.
  revert gas acc last s. induction calls as [|c calls IH]; intros gas acc last s Hrun; cbn [batch_loop] in Hrun.
  - injection Hrun as <- <-. split; [constructor|]. by split.
  - rewrite (bind_run _ _ _ (frame_of caller c gas s) s) in Hrun by done.
    apply bind_ok_inv in Hrun as (fr & s1 & Hfr & Hrun).
    destruct (fr_result fr) eqn:Er; try (injection Hrun as <- <-; congruence).
    apply IH in Hrun. destruct e as [fr'|last' gas' acc']; [done|].
    destruct Hrun as (Hruns & Hnil & Hcons). split; [by econstructor|]. split; [done|]. intros _.
    destruct calls as [|c' calls']; [rewrite (Hnil eq_refl); eauto|by apply Hcons].
Qed.

Lemma finalize_fields fr limit remaining refund :
  let g := fr_gas (finalize_batch_gas fr limit remaining refund) in
  fr_result (finalize_batch_gas fr limit remaining refund) = fr_result fr /\
  g_limit g = limit /\ g_remaining g = remaining /\ g_refunded g = Z.max refund 0.
Proof.
  cbn zeta. unfold finalize_batch_gas. cbn [fr_gas fr_result].
  destruct (law_new_spent limit) as (L1 & L2 & L3).
  destruct (law_erase_cost remaining (new_spent limit)) as (E1 & E2 & E3).
  destruct (refund >? 0) eqn:E; zbool.
  - destruct (law_record_refund refund (erase_cost remaining (new_spent limit))) as (R1 & R2 & R3).
    rewrite R1, R2, R3, E1, E2, E3, L1, L2, L3. repeat split; lia.
  - rewrite E1, E2, E3, L1, L2, L3. repeat split; lia.
Qed.

Lemma batch_result initial_gas aa s fr s' :
  aa_calls aa <> [] ->
  execute_aa_batch tx run_frame initial_gas aa s = Some (Ok fr, s') ->
  g_limit (fr_gas fr) = tx_gas_limit tx /\
  if body_ok fr then
    exists refund,
      runs run_frame (default (tx_caller tx) (aa_root aa)) (aa_calls aa) (sat_sub (tx_gas_limit tx) initial_gas) 0 s
        (g_remaining (fr_gas fr)) refund s' /\ g_refunded (fr_gas fr) = Z.max refund 0
  else
    (exists chain, s' = put_chain chain s) /\
    g_refunded (fr_gas fr) = 0 /\ (fr_result fr = IrHalt -> g_remaining (fr_gas fr) = 0).
Proof.
  intros Hne. unfold execute_aa_batch.
  destruct (batch_loop run_frame _ (aa_calls aa) _ 0 None s) as [[e|err] s1] eqn:Hrun; [|discriminate].
  apply batch_loop_inv in Hrun. destruct e as [fr0|last gas acc].
  - intros [= <- <-].
    destruct (finalize_fields fr0 (tx_gas_limit tx) (match fr_result fr0 with IrRevert => g_remaining (fr_gas fr0) | _ => 0 end) 0)
      as (F0 & F1 & F2 & F3). rewrite F1. split; [done|]. unfold body_ok. rewrite F0.
    destruct (fr_result fr0); [done|..]; (split; [by eexists|]); by rewrite F2, F3.
  - destruct Hrun as (Hruns & _ & Hlast). destruct (Hlast Hne) as (fr0 & -> & Hok). intros [= <- <-].
    destruct (finalize_fields fr0 (tx_gas_limit tx) gas acc) as (F0 & F1 & F2 & F3).
    rewrite F1. split; [done|]. unfold body_ok. rewrite F0, Hok. exists acc. by rewrite F2, F3.
Qed.

Lemma batch_fails_back initial_gas aa s fr s' :
  aa_calls aa <> [] -> execute_aa_batch tx run_frame initial_gas aa s = Some (Ok fr, s') -> body_ok fr = false ->
  es_nonce s' = es_nonce s.
Proof.
  intros Hne Hrun Hb. apply batch_result in Hrun as [_ Hr]; [|done]. rewrite Hb in Hr.
  by destruct Hr as ([chain ->] & _).
Qed.

(** C21: Batches are atomic. However the frames behave, a non-empty batch either
    runs every call, in order, each starting from the state and gas the previous
    one left, and reports success; or some call failed, and then balances,
    nonces, code, storage and precompile state are exactly those before the
    batch. Gas is normalised to the transaction's limit: what the last call left
    (nothing after a halt) counts as remaining, and the summed refunds count on
    success only. *)
Theorem batch_atomic initial_gas aa s fr s' :
  aa_calls aa <> [] ->
  execute_aa_batch tx run_frame initial_gas aa s = Some (Ok fr, s') ->
  g_limit (fr_gas fr) = tx_gas_limit tx /\
  if body_ok fr then
    exists refund,
      runs run_frame (default (tx_caller tx) (aa_root aa)) (aa_calls aa) (sat_sub (tx_gas_limit tx) initial_gas) 0 s
        (g_remaining (fr_gas fr)) refund s' /\ g_refunded (fr_gas fr) = Z.max refund 0
  else
    es_balance s' = es_balance s /\ es_nonce s' = es_nonce s /\ es_code s' = es_code s /\
    es_storage s' = es_storage s /\ es_precompiles s' = es_precompiles s /\
    g_refunded (fr_gas fr) = 0 /\ (fr_result fr = IrHalt -> g_remaining (fr_gas fr) = 0).
Proof.
  intros Hne Hrun. apply batch_result in Hrun as [Hl Hr]; [|done]. split; [done|].
  destruct (body_ok fr); [done|]. destruct Hr as ([chain ->] & Hr). do 5 (split; [done|]). exact Hr.
Qed.
End batch.

Section claims.
Context `{Keccak256} `{PrecompileAbi} `{Erc20Abi} `{RC : RevmCalldata} `{RG : RevmGas} `{RV : !Revm}.
Context `{RP : !RevmPrice} `{GL : !RevmGasLaws} `{RL : !RevmLaws}.

(** C25: Sponsored gas is paid by the root account alone. For an agent transaction
    that names its root as fee payer, validation succeeds when the keychain hook
    passes, the signer's nonce is valid and the root account holds the maximal
    fee (the signer may hold nothing): the root account pays exactly the L1 fee,
    the operator fee and the gas limit at the effective price, no other balance
    moves, the signer's nonce is bumped (for a call), and the precompile state is
    the one the hook left. If the root account does not hold the maximal fee, or
    the hook does not pass, validation fails. *)
Theorem sponsored_validation blk cfg tx env m db s parts root :
  let i := es_chain (refresh_chain blk cfg db s) in
  let signer := tx_caller tx in
  let cost := additional cfg tx env i in
  is_deposit tx = false -> enveloped_tx tx = Some env -> is_free_input env = false ->
  cfg_fee_charge_disabled cfg = false -> cfg_balance_check_disabled cfg = false ->
  is_enabled_in (cfg_spec cfg) Fjord = true -> max_balance_spending tx = Ok m ->
  fits U64_MAX (tx_gas_limit tx) -> 0 <= tx_value tx -> 0 <= gas_charge blk tx ->
  info_ok i -> tx_l1_cost i = None ->
  tx_aa tx = Some parts -> aa_root parts = Some root -> aa_fee_payer parts = Some root -> root <> signer ->
  (forall a, 0 <= balance_of s a) -> balance_of s signer + m + cost <= U256_MAX -> balance_of s root <= U256_MAX ->
  validate_nonce_and_code (nonce_of s signer) (es_code s !! signer) tx = Ok tt ->
  let hook := run_aa_keychain_hook (blk_timestamp blk) root signer (aa_calls parts)
                (sat_mul U256_MAX (tx_gas_limit tx) (tx_max_fee_per_gas tx)) (es_precompiles s) in
  (forall p, hook = (Ok Pass, p) -> m + cost <= balance_of s root ->
     exists s1, validate_against_state_and_deduct_caller blk cfg tx db s = (Ok tt, s1) /\
       es_precompiles s1 = p /\
       (forall a, balance_of s1 a = balance_of s a - (if a =? root then cost + gas_charge blk tx else 0)) /\
       (forall a, nonce_of s1 a = nonce_of s a + (if is_call (tx_kind tx) && (a =? signer) then 1 else 0))) /\
  ((forall p, hook <> (Ok Pass, p)) \/ balance_of s root < m + cost ->
     is_ok (validate_against_state_and_deduct_caller blk cfg tx db s).1 = false).
Proof.
  cbn zeta. intros Hdep Henv Hfree Hfee Hbal Hfj Hmax Hlim Hv Hgc Hi Hc Hparts Hroot Hfp Hne Hpos Hsup Hr Hnonce.
  assert (tx_root tx = Some root) as Htr by (unfold tx_root; rewrite Hparts; done).
  assert (raw_fee_payer tx = Some root) as Hraw by (unfold raw_fee_payer; rewrite Hparts; done).
  assert (sponsor tx = Some root) as Hsp.
  { unfold sponsor. rewrite Hraw. cbn [mbind option_bind]. by rewrite (proj2 (Z.eqb_neq _ _) Hne). }
  unfold validate_against_state_and_deduct_caller. rewrite Hsp, Htr, Hraw, Hdep, Hparts.
  rewrite (bool_decide_eq_true_2 (Some root = Some root)), andb_false_r by done.
  pose proof (sponsored_run blk cfg tx env m Hdep Henv Hfree Hfee Hbal Hmax Hfj Hlim db root s Hne Hi Hc Hv Hgc Hpos Hsup Hr Hnonce) as Hrun.
  cbn zeta in Hrun. destruct (m + _ <=? balance_of s root) eqn:E; zbool.
  - destruct Hrun as (s1 & Hrun & (F1 & F2 & F3 & F4) & Hb). rewrite (bind_run _ _ _ _ _ Hrun).
    unfold run_hook, gas_reservation. rewrite Hraw, bool_decide_eq_true_2, F3 by done.
    destruct (run_aa_keychain_hook _ root _ _ _ _) as [[[|r]|e] p1].
    + split; [intros p [= ->] _|intros [Hno|]; [by destruct (Hno p1)|lia]].
      eexists. split; [done|]. split; [done|]. split; [exact Hb|exact F4].
    + split; [intros p [=]|done].
    + split; [intros p [=]|done].
  - destruct Hrun as (s1 & Hrun). rewrite (bind_run_err _ _ _ _ _ Hrun). split; [intros; lia|done].
Qed.

(** The refund of a sponsored transaction goes to the sponsor. Reimbursement
    gives the fee payer the unused gas at the effective price and the operator
    fee refund; the signer's balance, and every other, is unchanged. Together
    with the charge, the signer nets zero. *)
Theorem sponsored_refund blk cfg tx fp fr s :
  let amount := effective_gas_price tx blk * (g_remaining (fr_gas fr) + g_refunded (fr_gas fr)) +
    operator_fee_refund (es_chain s) (fr_gas fr) (cfg_spec cfg) in
  is_deposit tx = false -> cfg_fee_charge_disabled cfg = false -> sponsor tx = Some fp ->
  0 <= amount -> (forall a, 0 <= balance_of s a) -> (forall a, balance_of s a + amount <= U256_MAX) ->
  exists s', reimburse_caller blk cfg tx fr s = (Ok tt, s') /\
    forall a, balance_of s' a = balance_of s a + (if a =? fp then amount else 0).
Proof.
  cbn zeta. intros Hdep Hfee Hsp Ha Hpos Hsup. unfold reimburse_caller. rewrite Hsp.
  assert (fp <> tx_caller tx) as Hne.
  { unfold sponsor in Hsp. destruct (raw_fee_payer tx) as [x|]; [|done]. cbn in Hsp.
    destruct (x =? tx_caller tx) eqn:E; zbool; congruence. }
  set (amount := _ + operator_fee_refund _ _ _) in *.
  rewrite (bind_run _ _ _ (balance_of s (tx_caller tx)) s) by done.
  set (b := revm_reimburse_caller tx blk (fr_gas fr)
    (operator_fee_refund (es_chain s) (fr_gas fr) (cfg_spec cfg)) (es_balance s)).
  rewrite (bind_run _ _ _ tt (put_balances b s)) by (unfold base_reimburse_caller; by rewrite Hdep, Hfee).
  assert (forall a, zget b a = balance_of s a + (if a =? tx_caller tx then amount else 0)) as Hb.
  { intros a. subst b. rewrite law_reimburse; [done|]. specialize (Hsup a). unfold balance_of, amount in Hsup. lia. }
  rewrite (bind_run _ _ _ (balance_of s (tx_caller tx) + amount) (put_balances b s)).
  2:{ unfold gets, balance_of at 1. cbn [put_balances es_balance]. by rewrite Hb, Z.eqb_refl. }
  replace (sat_sub (balance_of s (tx_caller tx) + amount) (balance_of s (tx_caller tx))) with amount
    by (unfold sat_sub; lia).
  destruct (amount =? 0) eqn:E; zbool.
  - eexists. split; [done|]. intros a. unfold balance_of at 1. cbn [put_balances es_balance]. rewrite Hb.
    rewrite E. by destruct (a =? _), (a =? _).
  - pose proof (transfer_or_run (tx_caller tx) fp amount "fee_payer refund failed" (put_balances b s)
      ltac:(congruence) Ha) as Ht. unfold balance_of at 1 2 in Ht. cbn [put_balances es_balance] in Ht.
    rewrite !Hb, Z.eqb_refl, (proj2 (Z.eqb_neq fp _)) in Ht by congruence.
    specialize (Ht ltac:(specialize (Hsup fp); lia)). specialize (Hpos (tx_caller tx)).
    rewrite (proj2 (Z.leb_le _ _)) in Ht by lia. destruct Ht as (b' & Ht & Hb'). rewrite Ht.
    eexists. split; [done|]. intros a. unfold balance_of at 1. cbn [put_balances es_balance]. rewrite Hb'.
    unfold balance_of at 1. cbn [put_balances es_balance]. rewrite Hb.
    destruct (a =? tx_caller tx) eqn:E1, (a =? fp) eqn:E2; zbool; lia.
Qed.

(** C4: The deferred deductions of an agent transaction never fail. If the hook
    let the transaction through, then, whatever its calls did to the precompiles
    and however its body ended, the deductions after execution succeed for every
    gas use within the limit; a key that enforces limits is charged exactly the
    sponsored gas used at the maximal price, plus the batch's transfers if and
    only if the body succeeded. *)
Theorem agent_tx_settles blk tx parts root p0 p1 l s fr :
  let signer := tx_caller tx in
  let ts := blk_timestamp blk in
  let k0 := ps_keychain p0 in
  tx_aa tx = Some parts -> aa_root parts = Some root -> signer <> 0 -> 0 <= ts < U64_MAX ->
  kc_ok k0 -> Forall (aa_ok root) (aa_calls parts) ->
  (forall token, quota (hook_env ts) root signer token k0 < U256_MAX) ->
  0 <= tx_max_fee_per_gas tx -> 0 <= g_used (fr_gas fr) <= tx_gas_limit tx ->
  run_aa_keychain_hook ts root signer (aa_calls parts) (gas_reservation tx root) p0 = (Ok Pass, p1) ->
  es_precompiles s = precompile_calls ts l p1 ->
  exists s', deduct_spending blk tx fr s = (Ok tt, s') /\
    es_balance s' = es_balance s /\ ps_agent (es_precompiles s') = ps_agent (es_precompiles s) /\
    (enforce_limits (get_authorized_key root signer k0) = true -> forall token,
       quota (hook_env ts) root signer token (ps_keychain (es_precompiles s')) =
       quota (hook_env ts) root signer token k0 -
       batch_spend root (gas_deduction tx root fr) (if body_ok fr then aa_calls parts else []) token).
Proof.
  cbn zeta. intros Hparts Hroot Hk Hts Hok Hcalls Hq Hfee Hgas Hhook Hs.
  assert (tx_root tx = Some root) as Htr by (unfold tx_root; rewrite Hparts; done).
  assert (fits U256_MAX (gas_reservation tx root) /\ 0 <= gas_deduction tx root fr <= gas_reservation tx root) as [Hres Hded].
  { unfold gas_reservation, gas_deduction, sat_mul, fits. case_bool_decide; [|unfold U256_MAX; lia].
    assert (0 <= g_used (fr_gas fr) * tx_max_fee_per_gas tx <= tx_gas_limit tx * tx_max_fee_per_gas tx) by nia.
    unfold U256_MAX. lia. }
  destruct (hook_pass_covers (blk_timestamp blk) root (tx_caller tx) (aa_calls parts) (gas_reservation tx root) p0 p1 l
    (if body_ok fr then aa_calls parts else []) (gas_deduction tx root fr)) as (k3 & Hrun & Hspent);
    try done; [destruct (body_ok fr); auto|].
  unfold deduct_spending. rewrite Htr, Hparts. cbn [fmap option_fmap option_map].
  change (default [] (Some (aa_calls parts))) with (aa_calls parts). rewrite Hs, Hrun.
  destruct (body_ok fr || negb (gas_deduction tx root fr =? 0)) eqn:E.
  - eexists. split; [done|]. split; [done|]. cbn [put_precompiles es_precompiles ps_agent ps_keychain].
    split; [done|]. intros Hen. by rewrite Hen in Hspent.
  - apply orb_false_iff in E as [-> E]. apply negb_false_iff, Z.eqb_eq in E. exists s. do 2 (split; [done|]). split; [by rewrite Hs|].
    intros Hen token. rewrite E, Hs.
    destruct (hook_pass_frozen (blk_timestamp blk) root (tx_caller tx) (aa_calls parts) (gas_reservation tx root) p0 p1 l)
      as [-> _]; try done.
    unfold batch_spend. cbn. destruct (token =? 0); lia.
Qed.

(** C39: A failed root-less batch that starts with a contract creation does not
    consume the signer's nonce. Validation bumps the nonce only of transactions
    whose kind is a call, relying on the creation frame to bump it otherwise; but
    the batch's checkpoint is taken before the frames run, so when the batch
    fails their nonce increment is rolled back with the rest, and the same signed
    transaction is valid again. *)
Theorem failed_creation_batch_replayable blk cfg atx caller encoded c calls m db s s1 run_frame initial_gas fr s2 :
  let tx := aa_tx_env atx caller encoded in
  atx_calls atx = c :: calls -> ac_to c = Create -> atx_root atx = None -> atx_fee_payer atx = None ->
  cfg_fee_charge_disabled cfg = false -> cfg_balance_check_disabled cfg = false ->
  max_balance_spending tx = Ok m ->
  validate_against_state_and_deduct_caller blk cfg tx db s = (Ok tt, s1) ->
  execution cfg tx run_frame initial_gas s1 = Some (Ok fr, s2) -> body_ok fr = false ->
  nonce_of s2 caller = nonce_of s caller.
Proof.
  cbn zeta. intros Hcalls Hto Hroot Hfp Hfee Hbal Hmax Hval Hexec Hbody.
  set (tx := aa_tx_env atx caller encoded) in *.
  assert (tx_aa tx = Some (mkAaParts (c :: calls) None None)) as Haa
    by (unfold tx, aa_tx_env; cbn; by rewrite Hcalls, Hroot, Hfp).
  assert (tx_kind tx = Create) as Hkind
    by (unfold tx, aa_tx_env, to_eip1559_first_call; rewrite Hcalls; exact Hto).
  unfold validate_against_state_and_deduct_caller, sponsor, raw_fee_payer, tx_root in Hval.
  rewrite Haa in Hval. cbn [mbind option_bind aa_fee_payer aa_root] in Hval.
  rewrite bool_decide_eq_true_2 in Hval by done. cbn [negb andb] in Hval.
  apply bind_ok_inv in Hval as ([] & s0 & Hded & Hseed).
  assert (es_nonce s0 = es_nonce s) as Hn0.
  { destruct (tx_cost (es_chain (refresh_chain blk cfg db s)) encoded (tx_gas_limit tx) (cfg_spec cfg)) as [cost chain] eqn:Ec.
    apply (deduct_iff blk cfg tx encoded m eq_refl eq_refl Hfee Hbal Hmax db s s0 cost chain Ec) in Hded as (_ & _ & ->).
    unfold charge_caller. rewrite Hkind. cbn [is_call]. unfold refresh_chain. by case_bool_decide. }
  assert (es_nonce s1 = es_nonce s0) as Hn1.
  { change (is_deposit tx) with false in Hseed. cbn iota in Hseed.
    unfold seed_origin in Hseed. destruct (on_keychain _ _) as [[]]; by inversion Hseed. }
  unfold execution in Hexec. rewrite Haa in Hexec. cbn [aa_calls] in Hexec.
  rewrite bool_decide_eq_false_2 in Hexec by done.
  pose proof (batch_fails_back tx run_frame initial_gas (mkAaParts (c :: calls) None None) s1 fr s2 ltac:(done) Hexec Hbody) as Hn2.
  unfold nonce_of. by rewrite Hn2, Hn1, Hn0.
Qed.
End claims.

(** * A concrete instance *)

Module SciExample.
#[local] Existing Instances DispatchExample.hash DispatchExample.abi HookExample.erc20 L1Example.calldata L1Example.gas
  RevmExample.price RevmExample.revm.
#[local] Instance gas_laws : RevmGasLaws := RevmExample.gas_laws.
#[local] Instance laws : RevmLaws := RevmExample.laws.

(** Session key 2 of root 1 sends the batch of [HookExample], sponsored by the
    root account; the signer holds nothing. *)
Definition blk : Block := mkBlock 5 50 0 900 None.
Definition cfg : CfgEnv := mkCfg Jovian false false.
Definition parts : AaTransactionParts := mkAaParts HookExample.calls (Some 1) (Some 1).
Definition tx : BaseTransaction :=
  mkTx 2 2 100 (Call 7) 0 [] 0 5 (Some 3) (Some L1Example.tx) (mkDepositParts 0 None false) (Some parts).
Definition s : EvmState :=
  mkEvmState {[ 1 := 10 ^ 15 ]} ∅ ∅ ∅ HookExample.w L1Example.info.

Lemma s_range a : 0 <= balance_of s a <= 10 ^ 15.
Proof. apply zget_range; [lia|vm_compute; reflexivity]. Qed.

Lemma sponsored_validation_witness :
  exists s1, validate_against_state_and_deduct_caller blk cfg tx (fun _ => 0) s = (Ok tt, s1) /\
    balance_of s1 2 = 0 /\ balance_of s1 1 < balance_of s 1.
Proof.
  assert (forall a, 0 <= balance_of s a) as Hb by (intros a; apply s_range).
  pose proof (sponsored_validation blk cfg tx L1Example.tx 500 (fun _ => 0) s parts 1
    eq_refl eq_refl eq_refl eq_refl eq_refl eq_refl eq_refl ltac:(unfold fits; vm_compute; split; discriminate)
    ltac:(vm_compute; discriminate) ltac:(vm_compute; discriminate) L1Example.info_wf eq_refl eq_refl eq_refl eq_refl
    ltac:(discriminate) Hb ltac:(vm_compute; discriminate) ltac:(vm_compute; discriminate) eq_refl) as [Hok _].
  destruct (Hok (session 2 HookExample.w)) as (s1 & Hrun & _ & Hbal & _); [vm_compute; reflexivity|vm_compute; discriminate|].
  exists s1. split; [exact Hrun|]. rewrite !Hbal. split; [vm_compute; reflexivity|]. vm_compute. reflexivity.
Defined.

Definition fr : FrameResult := mkFrameResult _ IrOk (L1Example.mkGas 100 40 10).

Lemma sponsored_refund_witness :
  exists s', reimburse_caller blk cfg tx fr s = (Ok tt, s') /\
    forall a, balance_of s' a = balance_of s a + (if a =? 1 then 3 * 50 + operator_fee_refund L1Example.info (fr_gas fr) Jovian else 0).
Proof.
  refine (sponsored_refund blk cfg tx 1 fr s eq_refl eq_refl eq_refl _ _ _).
  - vm_compute. discriminate.
  - intros a. apply s_range.
  - intros a. pose proof (s_range a).
    assert (effective_gas_price tx blk * (g_remaining (fr_gas fr) + g_refunded (fr_gas fr)) +
      operator_fee_refund (es_chain s) (fr_gas fr) (cfg_spec cfg) <= 10 ^ 15) by (vm_compute; discriminate).
    unfold U256_MAX. lia.
Defined.

(** A frame that takes 10 gas, pays its value to the target and fails on calls
    to address 13. *)
Definition frame_effect (f : FrameInit) (s : EvmState) : EvmState :=
  match fi_to f with
  | Call t => put_balances (RevmExample.pay t (fi_value f) (RevmExample.pay (fi_caller f) (- fi_value f) (es_balance s))) s
  | Create => bump_nonce (fi_caller f) s
  end.
Definition frame_result (f : FrameInit) : FrameResult :=
  mkFrameResult _ (match fi_to f with Call 13 => IrRevert | _ => IrOk end)
    (L1Example.mkGas (fi_gas_limit f) (fi_gas_limit f - 10) 0).
Definition run_frame (f : FrameInit) : hio FrameResult := fun s => (Ok (frame_result f), frame_effect f s).

Definition failing : AaTransactionParts :=
  mkAaParts [mkAaCall (Call 7) 5 []; mkAaCall (Call 13) 1 []] (Some 1) None.
Definition failed : FrameResult := mkFrameResult _ IrRevert (L1Example.mkGas 100 60 0).

Definition after_failure : EvmState :=
  match execute_aa_batch tx run_frame 20 failing s with Some (_, s') => s' | None => s end.

Lemma batch_atomic_witness :
  execute_aa_batch tx run_frame 20 failing s = Some (Ok failed, after_failure) /\
  es_balance after_failure = es_balance s.
Proof.
  assert (execute_aa_batch tx run_frame 20 failing s = Some (Ok failed, after_failure)) as E by (vm_compute; reflexivity).
  split; [exact E|].
  exact (proj1 (proj2 (batch_atomic tx run_frame 20 failing s failed after_failure ltac:(discriminate) E))).
Defined.

(** The state during execution, with the precompile state of the session. *)
Definition s2 : EvmState := put_precompiles (precompile_calls 50 DispatchExample.calls (session 2 HookExample.w)) s.

Lemma agent_tx_settles_witness :
  exists s', deduct_spending blk tx fr s2 = (Ok tt, s') /\
    quota (hook_env 50) 1 2 7 (ps_keychain (es_precompiles s')) = 10.
Proof.
  destruct (agent_tx_settles blk tx parts 1 HookExample.w (session 2 HookExample.w) DispatchExample.calls s2 fr)
    as (s' & Hrun & _ & _ & Hq).
  - reflexivity.
  - reflexivity.
  - discriminate.
  - vm_compute. split; discriminate || reflexivity.
  - exact HookExample.kc_wf.
  - exact HookExample.calls_wf.
  - exact HookExample.quota_small.
  - vm_compute. discriminate.
  - vm_compute. split; discriminate.
  - vm_compute. reflexivity.
  - reflexivity.
  - exists s'. split; [exact Hrun|]. rewrite Hq; vm_compute; reflexivity.
Defined.

Definition atx : BaseAaTransaction :=
  mkAaTx 42001 0 3 5 100 [mkAaCall Create 0 [1]; mkAaCall (Call 13) 0 []] [] None None.

Definition charged : EvmState :=
  (validate_against_state_and_deduct_caller blk cfg (aa_tx_env atx 1 L1Example.tx) (fun _ => 0) s).2.

Lemma failed_creation_batch_replayable_witness :
  validate_against_state_and_deduct_caller blk cfg (aa_tx_env atx 1 L1Example.tx) (fun _ => 0) s = (Ok tt, charged) /\
  execution cfg (aa_tx_env atx 1 L1Example.tx) run_frame 20 charged = Some (Ok failed, charged) /\
  nonce_of charged 1 = nonce_of s 1.
Proof.
  assert (validate_against_state_and_deduct_caller blk cfg (aa_tx_env atx 1 L1Example.tx) (fun _ => 0) s = (Ok tt, charged))
    as E1 by (vm_compute; reflexivity).
  assert (execution cfg (aa_tx_env atx 1 L1Example.tx) run_frame 20 charged = Some (Ok failed, charged))
    as E2 by (vm_compute; reflexivity).
  split; [exact E1|]. split; [exact E2|].
  exact (failed_creation_batch_replayable blk cfg atx 1 L1Example.tx _ _ 500 (fun _ => 0) s charged run_frame 20 failed charged
    eq_refl eq_refl eq_refl eq_refl eq_refl eq_refl eq_refl E1 E2 eq_refl).
Defined.
End SciExample.
