(* ===== verification/Buffer.v ===== *)
(** Byte buffers with Rust's indexing: [Vec<u8>], [&[u8]] and [&mut [u8]].
    Indices are [usize] values, written in [Z]. An access out of range panics;
    a panic is a value, so that its absence can be proved. *)

From S2P Require Import Prelude.

(** How a call ends that does not return [Ok]: with an error of the program,
    with a panic, or with a loop that used up its fuel. *)
Inductive fault (E : Type) : Type :=
| Fail (e : E)
| Panic
| OutOfFuel.
Arguments Fail {E} _.
Arguments Panic {E}.
Arguments OutOfFuel {E}.

(** [r.map_err(f)] on errors of the program. *)
Definition map_fail {E F A} (f : E -> F) (r : result (fault E) A) : result (fault F) A :=
  match r with
  | Ok a => Ok a
  | Err (Fail e) => Err (Fail (f e))
  | Err Panic => Err Panic
  | Err OutOfFuel => Err OutOfFuel
  end.

(** The call returned: no panic and no divergence. *)
Definition returns {E A} (r : result (fault E) A) : Prop := r <> Err Panic /\ r <> Err OutOfFuel.

Lemma bind_returns {E A B} (m : result (fault E) A) (f : A -> result (fault E) B) :
  returns m -> (forall a, m = Ok a -> returns (f a)) -> returns (m ≫= f).
Proof. intros [H1 H2] Hf. destruct m as [a|[e| |]]; [by apply Hf|done..]. Qed.
Lemma bind_ok {E A B} (a : A) (f : A -> result E B) : (Ok a ≫= f) = f a.
Proof. done. Qed.
Lemma ok_returns {E A} (a : A) : returns (E := E) (Ok a).
Proof. done. Qed.
Lemma fail_returns {E A} (e : E) : returns (A := A) (Err (Fail e)).
Proof. done. Qed.

Definition zlen {A} (l : list A) : Z := Z.of_nat (length l).

#[export] Instance byte_ok_dec b : Decision (byte_ok b).
Proof. unfold byte_ok. apply _. Defined.
(** Discharge a decidable statement about concrete data by evaluation. *)
Ltac by_eval := apply (bool_decide_unpack _); vm_compute; exact I.

Section access.
Context {E A : Type}.
Implicit Types (l src : list A).

(** [l[i]] *)
Definition byte_at l (i : Z) : result (fault E) A :=
  if i <? 0 then Err Panic
  else match l !! Z.to_nat i with Some b => Ok b | None => Err Panic end.

(** [&l[a..b]] *)
Definition slice l (a b : Z) : result (fault E) (list A) :=
  if (0 <=? a) && (a <=? b) && (b <=? zlen l)
  then Ok (take (Z.to_nat (b - a)) (drop (Z.to_nat a) l))
  else Err Panic.

(** [&l[a..]] *)
Definition slice_from l (a : Z) : result (fault E) (list A) := slice l a (zlen l).

(** [out[i] = v], with the buffer as the state *)
Definition put (i : Z) (v : A) : stm (list A) (fault E) unit := fun out =>
  if (0 <=? i) && (i <? zlen out) then (Ok tt, <[Z.to_nat i := v]> out) else (Err Panic, out).

(** [out[a..b].copy_from_slice(src)] *)
Definition copy_to (a b : Z) src : stm (list A) (fault E) unit := fun out =>
  if (0 <=? a) && (a <=? b) && (b <=? zlen out) && (b - a =? zlen src)
  then (Ok tt, take (Z.to_nat a) out ++ src ++ drop (Z.to_nat b) out)
  else (Err Panic, out).
End access.

(** Take the branch of an [if] whose guard is arithmetic and holds (fails). *)
Ltac guard_true :=
  match goal with |- context [if ?b then _ else _] =>
    replace b with true by (symmetry; rewrite ?andb_true_iff, ?Z.leb_le, ?Z.ltb_lt, ?Z.eqb_eq; lia) end.
Ltac guard_false :=
  match goal with |- context [if ?b then _ else _] =>
    replace b with false by (symmetry; rewrite ?Z.leb_gt, ?Z.ltb_ge, ?Z.eqb_neq; lia) end.

(** Reading another buffer, or running pure fallible code, inside [stm]. *)
Definition lift {S E A} (r : result E A) : stm S E A := fun s => (r, s).

Section access_lemmas.
Context {E A : Type}.
Implicit Types (l p d r src : list A).

Lemma zlen_app l r : zlen (l ++ r) = zlen l + zlen r.
Proof. unfold zlen. rewrite length_app. lia. Qed.
Lemma zlen_nonneg l : 0 <= zlen l.
Proof. unfold zlen. lia. Qed.

Lemma slice_app p d r a b :
  zlen p = a -> zlen p + zlen d = b -> slice (E := E) (p ++ d ++ r) a b = Ok d.
Proof.
  intros Ha Hb. unfold slice, zlen in *. rewrite !length_app.
  guard_true.
  replace (Z.to_nat a) with (length p) by lia. rewrite drop_app_length.
  replace (Z.to_nat (b - a)) with (length d) by lia. by rewrite take_app_length.
Qed.

Lemma slice_ok l a b : 0 <= a <= b -> b <= zlen l -> exists d, slice (E := E) l a b = Ok d.
Proof. intros. unfold slice. guard_true. eauto. Qed.

Lemma byte_at_lookup l (i : nat) a : l !! i = Some a -> byte_at (E := E) l (Z.of_nat i) = Ok a.
Proof. intros Hi. unfold byte_at. rewrite (proj2 (Z.ltb_ge _ _)), Nat2Z.id by lia. by rewrite Hi. Qed.
Lemma byte_at_ok l i : 0 <= i < zlen l -> exists b, byte_at (E := E) l i = Ok b.
Proof.
  unfold zlen. intros. unfold byte_at. guard_false.
  destruct (lookup_lt_is_Some_2 l (Z.to_nat i)) as [b ->]; [lia|eauto].
Qed.

Lemma slice_from_app p d a : zlen p = a -> slice_from (E := E) (p ++ d) a = Ok d.
Proof.
  intros Ha. unfold slice_from. rewrite <- (app_nil_r d) at 1 2.
  apply slice_app; [done|]. rewrite !zlen_app. unfold zlen. cbn. lia.
Qed.

(** A slice of the middle part of a buffer is a slice of that part. *)
Lemma slice_middle p d r i j :
  0 <= i <= j -> j <= zlen d ->
  slice (E := E) (p ++ d ++ r) (zlen p + i) (zlen p + j) = Ok (take (Z.to_nat (j - i)) (drop (Z.to_nat i) d)).
Proof.
  intros Hi Hj. unfold slice, zlen in *. rewrite !length_app.
  guard_true.
  rewrite drop_app_ge by lia. replace (Z.to_nat (_ + i) - length p)%nat with (Z.to_nat i) by lia.
  rewrite drop_app_le by lia. rewrite take_app_le by (rewrite length_drop; lia).
  do 2 f_equal. lia.
Qed.

(** A slice inside one of the parts of a buffer. *)
Lemma slice_word (ws : list (list A)) i d k n a b :
  ws !! i = Some d -> zlen (concat (take i ws)) + k = a -> a + n = b -> 0 <= k -> 0 <= n -> k + n <= zlen d ->
  slice (E := E) (concat ws) a b = Ok (take (Z.to_nat n) (drop (Z.to_nat k) d)).
Proof.
  intros Hi <- <- Hk Hn Hd.
  rewrite <- (take_drop_middle ws i d Hi) at 1. rewrite concat_app. cbn [concat].
  rewrite <- Z.add_assoc, slice_middle by lia. do 3 f_equal. lia.
Qed.

Lemma byte_at_middle p d r i b :
  0 <= i -> d !! Z.to_nat i = Some b -> byte_at (E := E) (p ++ d ++ r) (zlen p + i) = Ok b.
Proof.
  intros Hi Hd. unfold byte_at, zlen. guard_false.
  rewrite lookup_app_r by lia. replace (Z.to_nat _ - length p)%nat with (Z.to_nat i) by lia.
  apply lookup_lt_Some in Hd as Hlt. rewrite lookup_app_l by lia. by rewrite Hd.
Qed.

Lemma byte_at_word (ws : list (list A)) i d (k : nat) x a :
  ws !! i = Some d -> d !! k = Some x -> zlen (concat (take i ws)) + Z.of_nat k = a ->
  byte_at (E := E) (concat ws) a = Ok x.
Proof.
  intros Hi Hx <-. rewrite <- (take_drop_middle ws i d Hi) at 1. rewrite concat_app. cbn [concat].
  apply byte_at_middle; [lia|]. by rewrite Nat2Z.id.
Qed.

Lemma put_middle p d r i v :
  0 <= i < zlen d ->
  put (E := E) (zlen p + i) v (p ++ d ++ r) = (Ok tt, p ++ <[Z.to_nat i := v]> d ++ r).
Proof.
  intros Hi. unfold put, zlen in *. rewrite !length_app.
  guard_true. rewrite insert_app_r_alt by lia.
  replace (Z.to_nat _ - length p)%nat with (Z.to_nat i) by lia.
  by rewrite insert_app_l by lia.
Qed.

Lemma copy_to_middle p d r i j src :
  0 <= i -> j <= zlen d -> j - i = zlen src ->
  copy_to (E := E) (zlen p + i) (zlen p + j) src (p ++ d ++ r) =
  (Ok tt, p ++ (take (Z.to_nat i) d ++ src ++ drop (Z.to_nat j) d) ++ r).
Proof.
  intros Hi Hj Hs. unfold copy_to, zlen in *. rewrite !length_app.
  guard_true.
  rewrite take_app_ge by lia. replace (Z.to_nat (_ + i) - length p)%nat with (Z.to_nat i) by lia.
  rewrite take_app_le by lia.
  rewrite drop_app_ge by lia. replace (Z.to_nat (_ + j) - length p)%nat with (Z.to_nat j) by lia.
  rewrite drop_app_le by lia. by rewrite <- !(assoc_L (++)).
Qed.
End access_lemmas.

(** Evaluate a read of [n] bytes from byte [k] of part [i] of a concatenation of
    parts of known length. *)
Ltac word_len := unfold zlen; cbn [take concat app length]; rewrite ?length_app, ?length_be_bytes; cbn [length]; lia.
Ltac read_word i k n :=
  lazymatch goal with |- mbind _ (slice _ ?a ?b) = _ =>
    erewrite (slice_word _ i _ k n a b); [rewrite bind_ok|reflexivity|word_len|word_len|lia|word_len|word_len] end.
Ltac byte_word i k :=
  lazymatch goal with |- mbind _ (byte_at _ ?a) = _ =>
    erewrite (byte_at_word _ i _ k _ a); [rewrite bind_ok|reflexivity|reflexivity|word_len] end.
