(* ===== verification/Frames.v ===== *)
(** Channel frames ([crates/consensus/protocol/src/frame.rs]): the wire format
    of a frame and the parser of the frames of one batcher transaction.

    The main theorem says which byte strings the parser accepts, and shows that
    its loop ends without a panic on every input. *)

From S2P Require Import Prelude Buffer.

Definition DERIVATION_VERSION_0 : Z := 0.
Definition BLOB_MAX_DATA_SIZE : Z := (4 * 31 + 3) * 1024 - 4.
(** [Frame::MAX_LEN] *)
Definition MAX_LEN : Z := 1000000.
(** [Frame::OVERHEAD] *)
Definition OVERHEAD : Z := 200.
Definition BASE_FRAME_LEN : Z := 16 + 2 + 4 + 1.

Inductive FrameDecodingError : Type :=
| DataTooLarge (n : Z)
| DataTooShort (n : Z)
| InvalidId
| InvalidNumber
| InvalidDataLength.

Inductive FrameParseError : Type :=
| FrameDecodingErr (e : FrameDecodingError)
| NoFrames
| UnsupportedVersion
| DataLengthMismatch
| NoFramesDecoded.

Record Frame : Type := mkFrame {
  frame_id : list Z;
  number : Z;
  frame_data : list Z;
  is_last : bool;
}.

#[export] Instance Frame_eq_dec : EqDecision Frame.
Proof. solve_decision. Defined.

(** [Frame::size] *)
Definition frame_size (f : Frame) : Z := zlen (frame_data f) + OVERHEAD.

(** [Frame::encode] *)
Definition frame_encode (f : Frame) : list Z :=
  frame_id f ++ be_bytes 2 (number f) ++ be_bytes 4 (wrap U32_MAX (zlen (frame_data f)))
  ++ frame_data f ++ [Z.b2z (is_last f)].

(** [Frame::decode]. The conversions of the fixed-size slices to arrays cannot
    fail, since the slices have the length of the arrays. *)
Definition frame_decode (encoded : list Z) : result (fault FrameDecodingError) (Z * Frame) :=
  if zlen encoded <? BASE_FRAME_LEN then Err (Fail (DataTooShort (zlen encoded)))
  else
    id ← slice encoded 0 16;
    num ← slice encoded 16 18;
    dl ← slice encoded 18 22;
    let data_len := be_val dl in
    if (data_len >? MAX_LEN) || (data_len >=? zlen encoded - (BASE_FRAME_LEN - 1))
    then Err (Fail (DataTooLarge data_len))
    else
      data ← slice encoded 22 (22 + data_len);
      last ← byte_at encoded (22 + data_len);
      Ok (BASE_FRAME_LEN + data_len, mkFrame id (be_val num) data (last =? 1)).

(** [Frame::parse_frames]: the loop. Each round consumes at least one byte, so
    the length of the input plus one is enough fuel. *)
Fixpoint parse_loop (fuel : nat) (data : list Z) (offset : Z) (frames : list Frame)
    : result (fault FrameParseError) (Z * list Frame) :=
  match fuel with
  | O => Err OutOfFuel
  | S fuel =>
      if offset <? zlen data then
        rest ← slice_from data offset;
        '(frame_length, frame) ← map_fail FrameDecodingErr (frame_decode rest);
        parse_loop fuel data (offset + frame_length) (frames ++ [frame])
      else Ok (offset, frames)
  end.

Definition parse_frames (encoded : list Z) : result (fault FrameParseError) (list Frame) :=
  match encoded with
  | [] => Err (Fail NoFrames)
  | version :: data =>
      if negb (version =? DERIVATION_VERSION_0) then Err (Fail UnsupportedVersion)
      else
        '(offset, frames) ← parse_loop (S (length data)) data 0 [];
        if negb (offset =? zlen data) then Err (Fail DataLengthMismatch)
        else match frames with [] => Err (Fail NoFramesDecoded) | _ => Ok frames end
  end.

(** * Well-formed frames and their bytes *)

(** The values of the Rust type, with the length limit of the decoder. *)
Definition frame_ok (f : Frame) : Prop :=
  length (frame_id f) = 16%nat /\ bytes_ok (frame_id f) /\ fits U16_MAX (number f) /\
  bytes_ok (frame_data f) /\ zlen (frame_data f) <= MAX_LEN.

#[export] Instance frame_ok_dec f : Decision (frame_ok f).
Proof. unfold frame_ok, fits. apply _. Defined.

(** The wire form of a frame, with an arbitrary last byte. *)
Definition frame_bytes (f : Frame) (flag : Z) : list Z :=
  frame_id f ++ be_bytes 2 (number f) ++ be_bytes 4 (zlen (frame_data f)) ++ frame_data f ++ [flag].

(** The byte string is a sequence of frames; a frame is the last one of its
    channel exactly when its last byte is one. *)
Inductive framing : list Z -> list Frame -> Prop :=
| framing_nil : framing [] []
| framing_cons f flag rest fs :
    frame_ok f -> byte_ok flag -> is_last f = (flag =? 1) -> framing rest fs ->
    framing (frame_bytes f flag ++ rest) (f :: fs).

Lemma zlen_frame_bytes f flag : frame_ok f -> zlen (frame_bytes f flag) = BASE_FRAME_LEN + zlen (frame_data f).
Proof.
  intros (Hid & _). unfold frame_bytes, BASE_FRAME_LEN, zlen. rewrite !length_app, !length_be_bytes, Hid.
  cbn [length]. lia.
Qed.

Lemma frame_encode_bytes f : frame_ok f -> frame_encode f = frame_bytes f (Z.b2z (is_last f)).
Proof.
  intros (_ & _ & _ & _ & Hl). unfold frame_encode, frame_bytes.
  rewrite wrap_id; [done|]. unfold fits, MAX_LEN, U32_MAX, zlen in *. lia.
Qed.

(** The header fields of a buffer given by its parts. *)
Lemma header_slices {E} id num dl (tl : list Z) :
  length id = 16%nat -> length num = 2%nat -> length dl = 4%nat ->
  let e := id ++ num ++ dl ++ tl in
  slice (E := E) e 0 16 = Ok id /\ slice (E := E) e 16 18 = Ok num /\ slice (E := E) e 18 22 = Ok dl.
Proof.
  intros Hid Hnum Hdl e. unfold e. split_and!.
  - apply (slice_app [] id); unfold zlen; rewrite ?Hid; done.
  - apply slice_app; unfold zlen; rewrite ?Hid, ?Hnum; done.
  - rewrite (assoc_L (++) id num).
    apply slice_app; unfold zlen; rewrite ?length_app, ?Hid, ?Hnum, ?Hdl; done.
Qed.

(** What the decoder reads from a buffer given by its five parts. *)
Lemma frame_decode_parts id num dl data flag rest :
  length id = 16%nat -> length num = 2%nat -> length dl = 4%nat -> be_val dl = zlen data ->
  zlen data <= MAX_LEN ->
  frame_decode (id ++ num ++ dl ++ data ++ [flag] ++ rest) =
  Ok (BASE_FRAME_LEN + zlen data, mkFrame id (be_val num) data (flag =? 1)).
Proof.
  intros Hid Hnum Hdl Hval Hmax. unfold frame_decode.
  destruct (header_slices (E := FrameDecodingError) id num dl (data ++ [flag] ++ rest) Hid Hnum Hdl) as (-> & -> & ->).
  set (e := id ++ num ++ dl ++ data ++ [flag] ++ rest).
  assert (zlen e = 23 + zlen data + zlen rest) as He.
  { unfold e, zlen. rewrite !length_app, Hid, Hnum, Hdl. cbn [length]. lia. }
  pose proof (zlen_nonneg data). pose proof (zlen_nonneg rest).
  cbn [mbind result_bind]. rewrite Hval, He. unfold BASE_FRAME_LEN. guard_false.
  replace (_ >? _) with false by (symmetry; rewrite Z.gtb_ltb; apply Z.ltb_ge; lia).
  replace (_ >=? _) with false by (symmetry; rewrite Z.geb_leb; apply Z.leb_gt; lia).
  assert (e = (id ++ num ++ dl) ++ data ++ [flag] ++ rest) as He1 by (unfold e; by rewrite <- !(assoc_L (++))).
  assert (e = (id ++ num ++ dl ++ data) ++ [flag] ++ rest) as He2 by (unfold e; by rewrite <- !(assoc_L (++))).
  assert (zlen (id ++ num ++ dl) = 22) as H22 by (unfold zlen; rewrite !length_app, Hid, Hnum, Hdl; done).
  rewrite He1 at 1. rewrite slice_app by lia. cbn [orb mbind result_bind]. rewrite He2.
  replace (22 + zlen data) with (zlen (id ++ num ++ dl ++ data) + 0)
    by (rewrite !zlen_app in *; lia).
  by rewrite (byte_at_middle _ [flag] rest 0 flag).
Qed.

Lemma frame_decode_bytes f flag rest :
  frame_ok f -> is_last f = (flag =? 1) ->
  frame_decode (frame_bytes f flag ++ rest) = Ok (BASE_FRAME_LEN + zlen (frame_data f), f).
Proof.
  intros (Hid & _ & Hnum & _ & Hl) Hlast. unfold frame_bytes. rewrite <- !(assoc_L (++)).
  rewrite frame_decode_parts; [|by rewrite ?length_be_bytes..| |done].
  - rewrite be_val_be_bytes by (unfold fits, U16_MAX in Hnum; lia).
    destruct f; cbn in *. by subst.
  - apply be_val_be_bytes. unfold MAX_LEN, zlen in *. lia.
Qed.

Lemma split_at (l : list Z) n : (n <= length l)%nat -> exists a b, l = a ++ b /\ length a = n.
Proof. intros. exists (take n l), (drop n l). by rewrite take_drop, length_take_le. Qed.

(** Everything the decoder accepts is the wire form of the frame it returns. *)
Lemma frame_decode_inv e n f :
  bytes_ok e -> frame_decode e = Ok (n, f) ->
  exists flag rest, e = frame_bytes f flag ++ rest /\ frame_ok f /\ byte_ok flag /\
    bytes_ok rest /\ is_last f = (flag =? 1) /\ n = BASE_FRAME_LEN + zlen (frame_data f).
Proof.
  intros He Hd.
  assert (BASE_FRAME_LEN <= zlen e) as Hlen.
  { unfold frame_decode in Hd. destruct (zlen e <? BASE_FRAME_LEN) eqn:E; [done|]. by zbool. }
  unfold BASE_FRAME_LEN, zlen in Hlen.
  destruct (split_at e 16) as (id & e1 & -> & Hid); [lia|]. rewrite length_app in Hlen.
  destruct (split_at e1 2) as (num & e2 & -> & Hnum); [lia|]. rewrite length_app in Hlen.
  destruct (split_at e2 4) as (dl & tl & -> & Hdl); [lia|]. rewrite length_app in Hlen.
  rewrite !Forall_app in He. destruct He as (Hbid & Hbnum & Hbdl & Hbt).
  pose proof (be_val_bound num Hbnum) as Bnum. pose proof (be_val_bound dl Hbdl) as Bdl.
  assert (be_val dl <= MAX_LEN /\ be_val dl < zlen tl) as [Hk1 Hk2].
  { unfold frame_decode, BASE_FRAME_LEN in Hd. rewrite !zlen_app in Hd.
    replace (_ <? _) with false in Hd by (unfold zlen; lia).
    destruct (header_slices (E := FrameDecodingError) id num dl tl Hid Hnum Hdl) as (Hs1 & Hs2 & Hs3).
    rewrite Hs1, Hs2, Hs3 in Hd.
    cbn [mbind result_bind] in Hd. destruct (_ || _) eqn:E in Hd; [done|]. zbool.
    unfold zlen in *. lia. }
  unfold zlen in Hk2. destruct (split_at tl (Z.to_nat (be_val dl))) as (data & tl' & -> & Hdata); [lia|].
  rewrite length_app in Hk2. destruct tl' as [|flag rest]; [cbn in Hk2; lia|].
  rewrite Forall_app, Forall_cons in Hbt. destruct Hbt as (Hbd & Hbf & Hbr).
  assert (be_val dl = zlen data) as Hz by (unfold zlen; lia).
  pose proof (frame_decode_parts id num dl data flag rest Hid Hnum Hdl Hz ltac:(lia)) as Hp.
  cbn [app] in Hp. rewrite Hp in Hd. injection Hd as <- <-.
  exists flag, rest. split; [|split; [|done]].
  - unfold frame_bytes. cbn [frame_id number frame_data]. rewrite <- !(assoc_L (++)). cbn [app].
    rewrite (be_bytes_be_val num 2), <- Hz, (be_bytes_be_val dl 4) by done. done.
  - unfold frame_ok, fits, U16_MAX; cbn. rewrite Hnum in Bnum. split_and!; try done; lia.
Qed.

(** The decoder never panics: every access it makes is within bounds. *)
Lemma frame_decode_returns e : bytes_ok e -> returns (frame_decode e).
Proof.
  intros He. unfold frame_decode. destruct (zlen e <? BASE_FRAME_LEN) eqn:Hlen; [by split|]. zbool.
  unfold BASE_FRAME_LEN in *.
  destruct (split_at e 16) as (id & e1 & -> & Hid); [unfold zlen in *; lia|]. rewrite zlen_app in Hlen.
  destruct (split_at e1 2) as (num & e2 & -> & Hnum); [unfold zlen in *; lia|]. rewrite zlen_app in Hlen.
  destruct (split_at e2 4) as (dl & tl & -> & Hdl); [unfold zlen in *; lia|].
  rewrite !Forall_app in He. destruct He as (_ & _ & Hbdl & _). pose proof (be_val_bound dl Hbdl).
  destruct (header_slices (E := FrameDecodingError) id num dl tl Hid Hnum Hdl) as (-> & -> & ->).
  set (e := id ++ _). cbn [mbind result_bind]. destruct (_ || _) eqn:E; [by split|]. zbool.
  destruct (slice_ok (E := FrameDecodingError) e 22 (22 + be_val dl)) as [? ->]; [lia..|].
  destruct (byte_at_ok (E := FrameDecodingError) e (22 + be_val dl)) as [? ->]; [lia|].
  by split.
Qed.

(** * Parsing *)

Lemma framing_bytes_ok l fs : framing l fs -> Forall frame_ok fs.
Proof. induction 1; by constructor. Qed.

Lemma framing_nil_inv fs : framing [] fs -> fs = [].
Proof.
  inversion 1 as [|f flag rest gs Hok Hf Hl Hg Heq]; [done|].
  apply app_nil in Heq as [Heq _]. unfold frame_bytes in Heq. apply app_nil in Heq as [Heq _].
  destruct Hok as [Hid _]. by rewrite Heq in Hid.
Qed.

(** From a position on, the loop accepts exactly the framings of the rest. *)
Lemma parse_loop_exact fuel pre rest frames o fs :
  bytes_ok rest -> (length rest < fuel)%nat ->
  parse_loop fuel (pre ++ rest) (zlen pre) frames = Ok (o, fs) <->
  o = zlen (pre ++ rest) /\ exists gs, fs = frames ++ gs /\ framing rest gs.
Proof.
  revert pre rest frames. induction fuel as [|fuel IH]; intros pre rest frames Hb Hf; [lia|].
  cbn [parse_loop]. rewrite zlen_app. destruct (_ <? _) eqn:E; zbool.
  - rewrite slice_from_app by done. cbn [mbind result_bind].
    assert (forall f flag r, rest = frame_bytes f flag ++ r -> frame_ok f -> byte_ok flag ->
      bytes_ok r -> is_last f = (flag =? 1) ->
      parse_loop fuel (pre ++ rest) (zlen pre + (BASE_FRAME_LEN + zlen (frame_data f))) (frames ++ [f]) = Ok (o, fs) <->
      o = zlen pre + zlen rest /\ exists gs, fs = frames ++ f :: gs /\ framing r gs) as Hstep.
    { intros f flag r -> Hok Hflag Hr Hl. rewrite <- (zlen_frame_bytes f flag Hok), <- zlen_app, (assoc_L (++)).
      rewrite IH; [|done|].
      - rewrite !zlen_app. split; intros (-> & gs & -> & Hg); (split; [lia|]); exists gs;
          by rewrite <- (assoc_L (++)).
      - rewrite length_app in Hf. pose proof (zlen_frame_bytes f flag Hok).
        unfold zlen, BASE_FRAME_LEN in *. lia. }
    split.
    + destruct (frame_decode rest) as [[n f]|[]] eqn:Ed; cbn; try done.
      apply frame_decode_inv in Ed as (flag & r & Hr & Hok & Hfl & Hbr & Hl & ->); [|done].
      rewrite (Hstep f flag r) by done. intros (-> & gs & -> & Hg). split; [done|].
      exists (f :: gs). split; [done|]. rewrite Hr. by constructor.
    + intros (-> & gs & -> & Hg). destruct Hg as [|f flag r gs Hok Hfl Hl Hg]; [unfold zlen in E; cbn in E; lia|].
      rewrite frame_decode_bytes by done. cbn. apply Forall_app in Hb as [_ Hb].
      rewrite (Hstep f flag r) by done. eauto.
  - assert (rest = []) as -> by (destruct rest; [done|unfold zlen in E; cbn in E; lia]).
    replace (zlen pre + zlen []) with (zlen pre) by (unfold zlen; cbn; lia). split.
    + intros [= -> ->]. split; [done|]. exists []. split; [by rewrite app_nil_r|constructor].
    + intros (-> & gs & -> & Hg). apply framing_nil_inv in Hg as ->. by rewrite app_nil_r.
Qed.

Lemma parse_loop_returns fuel pre rest frames :
  bytes_ok rest -> (length rest < fuel)%nat -> returns (parse_loop fuel (pre ++ rest) (zlen pre) frames).
Proof.
  revert pre rest frames. induction fuel as [|fuel IH]; intros pre rest frames Hb Hf; [lia|].
  cbn [parse_loop]. destruct (_ <? _); [|by split]. rewrite slice_from_app by done. cbn [mbind result_bind].
  pose proof (frame_decode_returns rest Hb) as [Hp Ho].
  destruct (frame_decode rest) as [[n f]|[]] eqn:Ed; cbn; try done.
  apply frame_decode_inv in Ed as (flag & r & -> & Hok & _ & Hbr & _ & ->); [|done].
  rewrite <- (zlen_frame_bytes f flag Hok), <- zlen_app, (assoc_L (++)). apply IH; [done|].
  rewrite length_app in Hf. pose proof (zlen_frame_bytes f flag Hok). unfold zlen, BASE_FRAME_LEN in *. lia.
Qed.

Lemma parse_frames_iff e :
  bytes_ok e ->
  returns (parse_frames e) /\
  forall fs, parse_frames e = Ok fs <->
    fs <> [] /\ exists rest, e = DERIVATION_VERSION_0 :: rest /\ framing rest fs.
Proof.
  intros He. destruct e as [|v data]; cbn [parse_frames].
  { split; [by split|]. intros fs. split; [done|]. by intros (_ & ? & ? & _). }
  apply Forall_cons in He as [_ Hd].
  pose proof (parse_loop_returns (S (length data)) [] data [] Hd ltac:(lia)) as [Hp Ho].
  pose proof (fun o fs => parse_loop_exact (S (length data)) [] data [] o fs Hd ltac:(lia)) as Hx.
  cbn [app] in *. change (zlen []) with 0 in *.
  destruct (v =? DERIVATION_VERSION_0) eqn:Ev; zbool; cbn [negb].
  2: { split; [by split|]. intros fs. split; [done|]. intros (_ & r & [= -> _] & _). done. }
  subst v. destruct (parse_loop _ _ _ _) as [[o gs]|err] eqn:El; cbn [mbind result_bind].
  - destruct (proj1 (Hx o gs) eq_refl) as (-> & gs' & -> & Hg). rewrite Z.eqb_refl. cbn [negb app].
    assert (forall fs, framing data fs -> fs = gs') as Huniq.
    { intros fs Hf. enough (Ok (E := fault FrameParseError) (zlen data, gs') = Ok (zlen data, fs)) by congruence.
      apply Hx. eauto. }
    split; [by destruct gs'; split|]. intros fs. split.
    + destruct gs'; [done|]. intros [= <-]. split; [done|]. eauto.
    + intros (Hne & r & [= <-] & Hf). apply Huniq in Hf as ->. by destruct gs'.
  - split; [split; congruence|]. intros fs. split; [done|]. intros (_ & r & [= <-] & Hf).
    enough (Err (A := Z * list Frame) err = Ok (zlen data, fs)) by done. apply Hx. eauto.
Qed.

(** C35: [parse_frames] accepts exactly the byte strings that are the version
    byte followed by one or more frames with nothing left over, and returns
    those frames in order; on every input it terminates without a panic. A
    frame counts as the last one of its channel exactly when its last byte is
    one; any other value of that byte is accepted as "not last". *)
Theorem parse_frames_exact e :
  bytes_ok e ->
  returns (parse_frames e) /\
  forall fs, parse_frames e = Ok fs <->
    fs <> [] /\ exists rest, e = DERIVATION_VERSION_0 :: rest /\ framing rest fs.
Proof. apply parse_frames_iff. Qed.

(** Frames written with [Frame::encode] parse back. *)
Lemma framing_encode fs : Forall frame_ok fs -> framing (concat (frame_encode <$> fs)) fs.
Proof.
  induction 1 as [|f fs Hf _ IH]; [constructor|]. cbn. rewrite frame_encode_bytes by done.
  constructor; [done| |by destruct (is_last f)|done]. unfold byte_ok. destruct (is_last f); cbn; lia.
Qed.

Module FramesExample.
Definition id : list Z := replicate 16 7.
Definition two : list Frame := [mkFrame id 0 [1; 2; 3] false; mkFrame id 1 [4] true].
(** A frame whose last byte is two. *)
Definition odd_flag : list Z := 0 :: frame_bytes (mkFrame id 0 [1; 2; 3] false) 2.

Lemma parse_frames_exact_witness :
  parse_frames (0 :: concat (frame_encode <$> two)) = Ok two /\
  parse_frames odd_flag = Ok [mkFrame id 0 [1; 2; 3] false].
Proof.
  split.
  - apply parse_frames_exact.
    + by_eval.
    + split; [done|]. eexists. split; [reflexivity|]. apply framing_encode. by_eval.
  - apply parse_frames_exact.
    + by_eval.
    + split; [done|]. eexists. split; [reflexivity|]. rewrite <- (app_nil_r (frame_bytes _ _)).
      constructor; [by_eval|by_eval|done|constructor].
Defined.
End FramesExample.
