(* ===== verification/Blobs.v ===== *)
(** The EIP-4844 blob codec: the encoder and decoder of the batcher
    ([crates/batcher/blobs]) and the decoder of the derivation pipeline
    ([crates/consensus/derive/src/sources/blob_data.rs]).

    A blob has 4096 field elements of 32 bytes. A round packs 127 payload bytes
    into four of them: 31 bytes each, and three bytes spread over the low six
    bits of the four leading bytes. The encoder and the decoders write into
    preallocated buffers, as the source does; the buffer is the state. *)

From S2P Require Import Prelude Buffer Frames.

(** Constants of EIP-4844 ([alloy_eips::eip4844]). *)
Definition BYTES_PER_BLOB : Z := 131072.
Definition VERSIONED_HASH_VERSION_KZG : Z := 1.

Definition BLOB_ENCODING_VERSION : Z := 0.
Definition BLOB_ENCODING_ROUNDS : Z := 1024.

Definition zeros (n : Z) : list Z := replicate (Z.to_nat n) 0.

Notation "x <<- r ; k" := (mbind (fun x => k) (lift r))
  (at level 20, r at level 100, k at level 200, only parsing).

(** * Encoding *)

Inductive BlobEncodeError : Type := BlobDataTooLarge (size : Z).

Section encode.
Context {E : Type}.
Abbreviation io := (stm (list Z) (fault E)).

(** The four high bytes of a round. *)
Definition put_high_bytes (pos x y z : Z) : io unit :=
  put pos (Z.land x 0x3F) ;;
  put (pos + 32) (Z.lor (Z.shiftl (Z.land (Z.shiftr x 6) 0x03) 4) (Z.land y 0x0F)) ;;
  put (pos + 64) (Z.land z 0x3F) ;;
  put (pos + 96) (Z.lor (Z.land (Z.shiftr y 4) 0x0F) (Z.shiftl (Z.land (Z.shiftr z 6) 0x03) 4)).

Definition encode_round0 (data input : list Z) : io Z :=
  let len_be := be_bytes 4 (wrap U32_MAX (zlen data)) in
  put VERSIONED_HASH_VERSION_KZG BLOB_ENCODING_VERSION ;;
  l1 <<- byte_at len_be 1; put 2 l1 ;;
  l2 <<- byte_at len_be 2; put 3 l2 ;;
  l3 <<- byte_at len_be 3; put 4 l3 ;;
  s0 <<- slice input 0 27; copy_to 5 32 s0 ;;
  let ipos := 27 in
  x <<- byte_at input ipos;
  let ipos := ipos + 1 in
  s1 <<- slice input ipos (ipos + 31); copy_to 33 64 s1 ;;
  let ipos := ipos + 31 in
  y <<- byte_at input ipos;
  let ipos := ipos + 1 in
  s2 <<- slice input ipos (ipos + 31); copy_to 65 96 s2 ;;
  let ipos := ipos + 31 in
  z <<- byte_at input ipos;
  let ipos := ipos + 1 in
  s3 <<- slice input ipos (ipos + 31); copy_to 97 128 s3 ;;
  let ipos := ipos + 31 in
  put_high_bytes 0 x y z ;;
  mret ipos.

Definition encode_round (input : list Z) (blob_pos ipos : Z) : io Z :=
  s0 <<- slice input ipos (ipos + 31); copy_to (blob_pos + 1) (blob_pos + 32) s0 ;;
  let ipos := ipos + 31 in
  x <<- byte_at input ipos;
  let ipos := ipos + 1 in
  s1 <<- slice input ipos (ipos + 31); copy_to (blob_pos + 33) (blob_pos + 64) s1 ;;
  let ipos := ipos + 31 in
  y <<- byte_at input ipos;
  let ipos := ipos + 1 in
  s2 <<- slice input ipos (ipos + 31); copy_to (blob_pos + 65) (blob_pos + 96) s2 ;;
  let ipos := ipos + 31 in
  z <<- byte_at input ipos;
  let ipos := ipos + 1 in
  s3 <<- slice input ipos (ipos + 31); copy_to (blob_pos + 97) (blob_pos + 128) s3 ;;
  let ipos := ipos + 31 in
  put_high_bytes blob_pos x y z ;;
  mret ipos.

(** [for _ in 1..BLOB_ENCODING_ROUNDS], with [n] rounds left. *)
Fixpoint encode_rounds (n : nat) (data input : list Z) (blob_pos ipos : Z) : io unit :=
  match n with
  | O => mret tt
  | S n =>
      if ipos >=? zlen data then mret tt
      else
        ipos ← encode_round input blob_pos ipos;
        encode_rounds n data input (blob_pos + 128) ipos
  end.
End encode.

(** [BlobEncoder::encode] *)
Definition blob_encode (data : list Z) : result (fault BlobEncodeError) (list Z) :=
  if zlen data >? BLOB_MAX_DATA_SIZE then Err (Fail (BlobDataTooLarge (zlen data)))
  else
    let '(r, input) := copy_to 0 (zlen data) data (zeros BLOB_MAX_DATA_SIZE) in
    _ ← r;
    let '(r, blob) :=
      (ipos ← encode_round0 data input;
       encode_rounds (Z.to_nat (BLOB_ENCODING_ROUNDS - 1)) data input 128 ipos) (zeros BYTES_PER_BLOB) in
    _ ← r;
    Ok blob.

(** [BlobEncoder::encode_packed] *)
Definition encode_packed (frames : list Frame) : result (fault BlobEncodeError) (list Z) :=
  blob_encode (DERIVATION_VERSION_0 :: concat (frame_encode <$> frames)).

(** * Decoding in the batcher ([BlobDecoder]) *)

Inductive BlobDecodeError : Type :=
| InvalidFieldElement (offset : Z)
| InvalidEncodingVersion (version : Z)
| InvalidLength (length : Z)
| NonZeroPadding (offset : Z).

(** [BlobDecoder::decode_field_element]; the output buffer is the state. *)
Definition decode_field_element (data : list Z) (output_pos input_pos : Z)
    : stm (list Z) (fault BlobDecodeError) (Z * Z * Z) :=
  b <<- byte_at data input_pos;
  if negb (Z.land b 0xC0 =? 0) then throw (Fail (InvalidFieldElement input_pos))
  else
    s <<- slice data (input_pos + 1) (input_pos + 32);
    copy_to output_pos (output_pos + 31) s ;;
    mret (b, output_pos + 32, input_pos + 32).

(** [reassemble_bytes], which both decoders have. *)
Definition reassemble_bytes {E} (output_pos : Z) (e0 e1 e2 e3 : Z) : stm (list Z) (fault E) Z :=
  let output_pos := output_pos - 1 in
  let x := Z.lor (Z.land e0 0x3F) (Z.shiftl (Z.land e1 0x30) 2) in
  let y := Z.lor (Z.land e1 0x0F) (Z.shiftl (Z.land e3 0x0F) 4) in
  let z := Z.lor (Z.land e2 0x3F) (Z.shiftl (Z.land e3 0x30) 2) in
  put (output_pos - 32) z ;;
  put (output_pos - 32 * 2) y ;;
  put (output_pos - 32 * 3) x ;;
  mret output_pos.

(** The loops [for b in encoded_byte.iter_mut()...] over the last three or over
    all four field elements of a round. *)
Definition decode_round0 (data : list Z) : stm (list Z) (fault BlobDecodeError) (Z * Z) :=
  s0 <<- slice data 5 32; copy_to 0 27 s0 ;;
  e0 <<- byte_at data 0;
  '(e1, opos, ipos) ← decode_field_element data 28 32;
  '(e2, opos, ipos) ← decode_field_element data opos ipos;
  '(e3, opos, ipos) ← decode_field_element data opos ipos;
  opos ← reassemble_bytes opos e0 e1 e2 e3;
  mret (opos, ipos).

Definition decode_round (data : list Z) (opos ipos : Z) : stm (list Z) (fault BlobDecodeError) (Z * Z) :=
  '(e0, opos, ipos) ← decode_field_element data opos ipos;
  '(e1, opos, ipos) ← decode_field_element data opos ipos;
  '(e2, opos, ipos) ← decode_field_element data opos ipos;
  '(e3, opos, ipos) ← decode_field_element data opos ipos;
  opos ← reassemble_bytes opos e0 e1 e2 e3;
  mret (opos, ipos).

Fixpoint decode_rounds (n : nat) (data : list Z) (length opos ipos : Z)
    : stm (list Z) (fault BlobDecodeError) (Z * Z) :=
  match n with
  | O => mret (opos, ipos)
  | S n =>
      if opos >=? length then mret (opos, ipos)
      else
        '(opos, ipos) ← decode_round data opos ipos;
        decode_rounds n data length opos ipos
  end.

(** The index of the first non-zero element from position [i] on. *)
Fixpoint find_nonzero (i : Z) (l : list Z) : option Z :=
  match l with
  | [] => None
  | b :: l => if negb (b =? 0) then Some i else find_nonzero (i + 1) l
  end.

(** [for (i, byte) in l.iter().enumerate().skip(from) { if *byte != 0 .. }] *)
Definition check_padding (l : list Z) (from : Z) : result (fault BlobDecodeError) unit :=
  match find_nonzero from (drop (Z.to_nat from) l) with
  | Some i => Err (Fail (NonZeroPadding i))
  | None => Ok tt
  end.

(** [BlobDecoder::decode] *)
Definition blob_decode (data : list Z) : result (fault BlobDecodeError) (list Z) :=
  version ← byte_at data VERSIONED_HASH_VERSION_KZG;
  if negb (version =? 0) then Err (Fail (InvalidEncodingVersion version))
  else
    l1 ← byte_at data 2; l2 ← byte_at data 3; l3 ← byte_at data 4;
    let length := be_val [0; l1; l2; l3] in
    if length >? BLOB_MAX_DATA_SIZE then Err (Fail (InvalidLength length))
    else
      let '(r, output) :=
        ('(opos, ipos) ← decode_round0 data;
         decode_rounds (Z.to_nat (BLOB_ENCODING_ROUNDS - 1)) data length opos ipos) (zeros BLOB_MAX_DATA_SIZE) in
      '(_, input_pos) ← r;
      _ ← check_padding output length;
      _ ← check_padding data input_pos;
      Ok (take (Z.to_nat length) output).

(** * A round as a function on blocks *)

(** The high bytes of a round. *)
Definition high0 (x : Z) : Z := Z.land x 0x3F.
Definition high1 (x y : Z) : Z := Z.lor (Z.shiftl (Z.land (Z.shiftr x 6) 0x03) 4) (Z.land y 0x0F).
Definition high3 (y z : Z) : Z := Z.lor (Z.land (Z.shiftr y 4) 0x0F) (Z.shiftl (Z.land (Z.shiftr z 6) 0x03) 4).

(** The 128 blob bytes that carry 127 payload bytes. *)
Definition block (c : list Z) : list Z :=
  let x := nth 31 c 0 in let y := nth 63 c 0 in let z := nth 95 c 0 in
  [high0 x] ++ take 31 c ++
  [high1 x y] ++ take 31 (drop 32 c) ++
  [high0 z] ++ take 31 (drop 64 c) ++
  [high3 y z] ++ take 31 (drop 96 c).

(** The payload of a block. *)
Definition unblock (b : list Z) : list Z :=
  let e0 := nth 0 b 0 in let e1 := nth 32 b 0 in let e2 := nth 64 b 0 in let e3 := nth 96 b 0 in
  take 31 (drop 1 b) ++ [Z.lor (Z.land e0 0x3F) (Z.shiftl (Z.land e1 0x30) 2)] ++
  take 31 (drop 33 b) ++ [Z.lor (Z.land e1 0x0F) (Z.shiftl (Z.land e3 0x0F) 4)] ++
  take 31 (drop 65 b) ++ [Z.lor (Z.land e2 0x3F) (Z.shiftl (Z.land e3 0x30) 2)] ++
  take 31 (drop 97 b).

(** A list of known length, element by element. *)
Lemma explode (l : list Z) n : length l = n -> l = (fun i => nth i l 0) <$> seq 0 n.
Proof.
  intros <-. apply list_eq. intros i. rewrite list_lookup_fmap.
  destruct (decide (i < length l)%nat) as [Hi|Hi].
  - rewrite lookup_seq_lt by done. cbn. destruct (lookup_lt_is_Some_2 l i Hi) as [a Ha].
    rewrite Ha. f_equal. symmetry. by apply nth_lookup_Some.
  - rewrite lookup_seq_ge, lookup_ge_None_2 by lia. done.
Qed.

Lemma length_block c : length c = 127%nat -> length (block c) = 128%nat.
Proof. intros H. rewrite (explode c 127 H). vm_compute. reflexivity. Qed.
Lemma length_unblock b : length b = 128%nat -> length (unblock b) = 127%nat.
Proof. intros H. rewrite (explode b 128 H). vm_compute. reflexivity. Qed.

Lemma lift_run {S E A B} (r : result E A) a (f : A -> stm S E B) s :
  r = Ok a -> (mbind f (lift r)) s = f a s.
Proof. by intros ->. Qed.

Section encode_run.
Context {E : Type}.

(** Writing one byte or one slice of the block [d] of a buffer. *)
Lemma put_block {B} p d r i v (k : unit -> stm (list Z) (fault E) B) :
  0 <= i < zlen d ->
  (mbind k (put (zlen p + i) v)) (p ++ d ++ r) = k tt (p ++ <[Z.to_nat i := v]> d ++ r).
Proof. intros. by rewrite (bind_run _ _ _ tt _ (put_middle p d r i v H)). Qed.

Definition splice (i j : Z) (src d : list Z) : list Z :=
  take (Z.to_nat i) d ++ src ++ drop (Z.to_nat j) d.

Lemma zlen_splice i j src d :
  0 <= i -> j <= zlen d -> j - i = zlen src -> zlen (splice i j src d) = zlen d.
Proof. unfold splice, zlen. intros. rewrite !length_app, length_take, length_drop. lia. Qed.

Ltac zlens := repeat first
  [ progress rewrite ?zlen_splice
  | match goal with H : forall i, 0 <= i -> _ -> zlen _ = 31 |- _ => progress rewrite ?H end ]; lia.

Lemma copy_block {B} p d r i j src (k : unit -> stm (list Z) (fault E) B) :
  0 <= i -> j <= zlen d -> j - i = zlen src ->
  (mbind k (copy_to (zlen p + i) (zlen p + j) src)) (p ++ d ++ r) = k tt (p ++ splice i j src d ++ r).
Proof. intros. by rewrite (bind_run _ _ _ tt _ (copy_to_middle p d r i j src H H0 H1)). Qed.

Definition high_bytes (x y z : Z) (d : list Z) : list Z :=
  <[Z.to_nat 96 := high3 y z]>
  (<[Z.to_nat 64 := high0 z]>
  (<[Z.to_nat 32 := high1 x y]>
  (<[Z.to_nat 0 := high0 x]> d))).

Lemma put_high_bytes_run p d r x y z :
  zlen d = 128 ->
  put_high_bytes (E := E) (zlen p) x y z (p ++ d ++ r) = (Ok tt, p ++ high_bytes x y z d ++ r).
Proof.
  intros Hd. unfold put_high_bytes, high_bytes.
  assert (forall i v (l : list Z), zlen (<[Z.to_nat i := v]> l) = zlen l) as Hins
    by (intros; unfold zlen; by rewrite length_insert).
  rewrite <- (Z.add_0_r (zlen p)) at 1.
  rewrite put_block by lia. rewrite put_block by (rewrite ?Hins; lia).
  rewrite put_block by (rewrite ?Hins; lia). rewrite put_middle by (rewrite ?Hins; lia). done.
Qed.

Lemma round_block d c :
  length d = 128%nat -> length c = 127%nat ->
  high_bytes (nth 31 c 0) (nth 63 c 0) (nth 95 c 0)
    (splice 97 128 (take 31 (drop 96 c)) (splice 65 96 (take 31 (drop 64 c))
    (splice 33 64 (take 31 (drop 32 c)) (splice 1 32 (take 31 (drop 0 c)) d)))) = block c.
Proof.
  intros Hd Hc. unfold high_bytes, block.
  generalize (high0 (nth 31 c 0)) (high1 (nth 31 c 0) (nth 63 c 0)) (high0 (nth 95 c 0))
    (high3 (nth 63 c 0) (nth 95 c 0)).
  intros h0 h1 h2 h3. rewrite (explode d 128 Hd), (explode c 127 Hc). vm_compute. reflexivity.
Qed.

(** A round replaces a whole block of the blob by the encoding of the next 127
    bytes of the input. *)
Lemma encode_round_run p d r a c q :
  length d = 128%nat -> length c = 127%nat ->
  encode_round (E := E) (a ++ c ++ q) (zlen p) (zlen a) (p ++ d ++ r) =
  (Ok (zlen a + 127), p ++ block c ++ r).
Proof.
  intros Hd Hc. unfold encode_round.
  assert (zlen d = 128) as Hzd by (unfold zlen; lia). assert (zlen c = 127) as Hzc by (unfold zlen; lia).
  assert (forall i, 0 <= i -> i + 31 <= 127 ->
    slice (E := E) (a ++ c ++ q) (zlen a + i) (zlen a + i + 31) = Ok (take 31 (drop (Z.to_nat i) c))) as Hs.
  { intros i Hi1 Hi2. rewrite <- Z.add_assoc, slice_middle by lia. by replace (i + 31 - i) with 31 by lia. }
  assert (forall i, 0 <= i < 127 -> byte_at (E := E) (a ++ c ++ q) (zlen a + i) = Ok (nth (Z.to_nat i) c 0)) as Hb.
  { intros i Hi. apply byte_at_middle; [lia|].
    destruct (lookup_lt_is_Some_2 c (Z.to_nat i)) as [b Hb]; [lia|]. rewrite Hb. f_equal.
    symmetry. by apply nth_lookup_Some. }
  assert (forall i, 0 <= i -> i + 31 <= 127 -> zlen (take 31 (drop (Z.to_nat i) c)) = 31) as Hl.
  { intros. unfold zlen in *. rewrite length_take, length_drop. lia. }
  pose proof (Hs 0 ltac:(lia) ltac:(lia)) as Hs0. rewrite Z.add_0_r in Hs0.
  rewrite (lift_run _ _ _ _ Hs0), copy_block by (rewrite ?Hl; lia).
  rewrite (lift_run _ _ _ _ (Hb 31 ltac:(lia))).
  replace (zlen a + 31 + 1) with (zlen a + 32) by lia.
  rewrite (lift_run _ _ _ _ (Hs 32 ltac:(lia) ltac:(lia))), copy_block by zlens.
  replace (zlen a + 32 + 31) with (zlen a + 63) by lia.
  rewrite (lift_run _ _ _ _ (Hb 63 ltac:(lia))).
  replace (zlen a + 63 + 1) with (zlen a + 64) by lia.
  rewrite (lift_run _ _ _ _ (Hs 64 ltac:(lia) ltac:(lia))), copy_block by zlens.
  replace (zlen a + 64 + 31) with (zlen a + 95) by lia.
  rewrite (lift_run _ _ _ _ (Hb 95 ltac:(lia))).
  replace (zlen a + 95 + 1) with (zlen a + 96) by lia.
  rewrite (lift_run _ _ _ _ (Hs 96 ltac:(lia) ltac:(lia))), copy_block by zlens.
  erewrite bind_run; [|apply put_high_bytes_run; zlens].
  rewrite round_block by done. by replace (zlen a + 96 + 31) with (zlen a + 127) by lia.
Qed.

(** The bytes the first field element starts with: version and length. *)
Definition blob_header (n : Z) : list Z := BLOB_ENCODING_VERSION :: drop 1 (be_bytes 4 n).

Lemma put_block0 {B} d r i v (k : unit -> stm (list Z) (fault E) B) :
  0 <= i < zlen d -> (mbind k (put i v)) (d ++ r) = k tt (<[Z.to_nat i := v]> d ++ r).
Proof. exact (put_block [] d r i v k). Qed.
Lemma copy_block0 {B} d r i j src (k : unit -> stm (list Z) (fault E) B) :
  0 <= i -> j <= zlen d -> j - i = zlen src ->
  (mbind k (copy_to i j src)) (d ++ r) = k tt (splice i j src d ++ r).
Proof. exact (copy_block [] d r i j src k). Qed.

Lemma round0_block d c l1 l2 l3 :
  length d = 128%nat -> length c = 123%nat ->
  high_bytes (nth (Z.to_nat 27) c 0) (nth (Z.to_nat 59) c 0) (nth (Z.to_nat 91) c 0)
    (splice 97 128 (take (Z.to_nat 31) (drop (Z.to_nat 92) c)) (splice 65 96 (take (Z.to_nat 31) (drop (Z.to_nat 60) c))
    (splice 33 64 (take (Z.to_nat 31) (drop (Z.to_nat 28) c)) (splice 5 32 (take (Z.to_nat 27) (drop (Z.to_nat 0) c))
    (<[Z.to_nat 4:=l3]> (<[Z.to_nat 3:=l2]> (<[Z.to_nat 2:=l1]> (<[Z.to_nat 1:=BLOB_ENCODING_VERSION]> d)))))))) =
  block ([BLOB_ENCODING_VERSION; l1; l2; l3] ++ c).
Proof.
  intros Hd Hc. unfold high_bytes, block. cbn [app].
  change (nth 31 (_ :: _) 0) with (nth (Z.to_nat 27) c 0). change (nth 63 (_ :: _) 0) with (nth (Z.to_nat 59) c 0).
  change (nth 95 (_ :: _) 0) with (nth (Z.to_nat 91) c 0).
  generalize (high0 (nth (Z.to_nat 27) c 0)) (high1 (nth (Z.to_nat 27) c 0) (nth (Z.to_nat 59) c 0))
    (high0 (nth (Z.to_nat 91) c 0)) (high3 (nth (Z.to_nat 59) c 0) (nth (Z.to_nat 91) c 0)).
  intros h0 h1 h2 h3. rewrite (explode d 128 Hd), (explode c 123 Hc). vm_compute. reflexivity.
Qed.

(** Name the block at the head of the buffer and record its size. *)
Ltac name_block n :=
  match goal with |- _ (?d ++ ?r) = _ =>
    set (n := d); assert (zlen n = 128)
      by (unfold n; rewrite ?zlen_splice;
          repeat match goal with
          | H : forall i v (l : list Z), _ |- _ => rewrite H
          | H : forall i n, 0 <= i -> _ |- _ => rewrite H
          end; lia) end.

(** The first round does the same with the header before the input. *)
Lemma encode_round0_run data d r c q :
  length d = 128%nat -> length c = 123%nat -> zlen data <= U32_MAX ->
  encode_round0 (E := E) data (c ++ q) (d ++ r) =
  (Ok 123, block (blob_header (zlen data) ++ c) ++ r).
Proof.
  intros Hd Hc Hmax. unfold encode_round0, blob_header, VERSIONED_HASH_VERSION_KZG.
  rewrite wrap_id by (unfold fits; pose proof (zlen_nonneg data); lia).
  pose proof (length_be_bytes 4 (zlen data)) as Hbe.
  destruct (be_bytes 4 (zlen data)) as [|l0 [|l1 [|l2 [|l3 [|]]]]]; try discriminate.
  assert (zlen d = 128) as Hzd by (unfold zlen; lia). assert (zlen c = 123) as Hzc by (unfold zlen; lia).
  assert (forall i v (l : list Z), zlen (<[Z.to_nat i := v]> l) = zlen l) as Hins
    by (intros; unfold zlen; by rewrite length_insert).
  assert (forall i n, 0 <= i -> 0 <= n -> i + n <= 123 ->
    slice (E := E) (c ++ q) i (i + n) = Ok (take (Z.to_nat n) (drop (Z.to_nat i) c))) as Hs.
  { intros i n Hi1 Hi2 Hi3. rewrite (slice_middle [] c q i (i + n)) by lia. by replace (i + n - i) with n by lia. }
  assert (forall i, 0 <= i < 123 -> byte_at (E := E) (c ++ q) i = Ok (nth (Z.to_nat i) c 0)) as Hb.
  { intros i Hi. apply (byte_at_middle [] c q i); [lia|].
    destruct (lookup_lt_is_Some_2 c (Z.to_nat i)) as [b Hb]; [lia|]. rewrite Hb. f_equal.
    symmetry. by apply nth_lookup_Some. }
  assert (forall i n, 0 <= i -> 0 <= n -> i + n <= 123 -> zlen (take (Z.to_nat n) (drop (Z.to_nat i) c)) = n) as Hl.
  { intros. unfold zlen in *. rewrite length_take, length_drop. lia. }
  rewrite put_block0 by lia.
  rewrite (lift_run _ l1), put_block0 by first [done | rewrite ?Hins; lia].
  rewrite (lift_run _ l2), put_block0 by first [done | rewrite ?Hins; lia].
  rewrite (lift_run _ l3), put_block0 by first [done | rewrite ?Hins; lia].
  name_block d0.
  rewrite (lift_run _ _ _ _ (Hs 0 27 ltac:(lia) ltac:(lia) ltac:(lia))), copy_block0 by (rewrite ?Hl; lia).
  name_block d1. rewrite (lift_run _ _ _ _ (Hb 27 ltac:(lia))).
  rewrite (lift_run _ _ _ _ (Hs 28 31 ltac:(lia) ltac:(lia) ltac:(lia))), copy_block0 by (rewrite ?Hl; lia).
  name_block d2. rewrite (lift_run _ _ _ _ (Hb 59 ltac:(lia))).
  rewrite (lift_run _ _ _ _ (Hs 60 31 ltac:(lia) ltac:(lia) ltac:(lia))), copy_block0 by (rewrite ?Hl; lia).
  name_block d3. rewrite (lift_run _ _ _ _ (Hb 91 ltac:(lia))).
  rewrite (lift_run _ _ _ _ (Hs 92 31 ltac:(lia) ltac:(lia) ltac:(lia))), copy_block0 by (rewrite ?Hl; lia).
  name_block d4. erewrite bind_run; [|exact (put_high_bytes_run [] d4 r _ _ _ ltac:(lia))].
  unfold d4, d3, d2, d1, d0. by rewrite (round0_block d c l1 l2 l3).
Qed.

(** The blocks of the later rounds: while payload is left, a block per 127
    bytes; after that the blob keeps its zeros. *)
Fixpoint blocks (n : nat) (left : Z) (input zs : list Z) : list Z :=
  match n with
  | O => zs
  | S n => if left <=? 0 then zs
           else block (take 127 input) ++ blocks n (left - 127) (drop 127 input) (drop 128 zs)
  end.

Lemma encode_rounds_run n data a i p zs :
  length i = (127 * n)%nat -> length zs = (128 * n)%nat ->
  encode_rounds (E := E) n data (a ++ i) (zlen p) (zlen a) (p ++ zs) =
  (Ok tt, p ++ blocks n (zlen data - zlen a) i zs).
Proof.
  revert a i p zs. induction n as [|n IH]; intros a i p zs Hi Hz; [done|]. cbn [encode_rounds blocks].
  destruct (zlen a >=? zlen data) eqn:E1; destruct (_ <=? 0) eqn:E2; zbool; try lia; [done|].
  assert (length (take 127 i) = 127%nat) as Hc by (rewrite length_take; lia).
  assert (a ++ i = a ++ take 127 i ++ drop 127 i) as -> by (by rewrite take_drop).
  assert (p ++ zs = p ++ take 128 zs ++ drop 128 zs) as -> by (by rewrite take_drop).
  erewrite bind_run; [|apply encode_round_run; [rewrite length_take; lia|done]].
  assert (zlen p + 128 = zlen (p ++ block (take 127 i))) as ->
    by (rewrite zlen_app; unfold zlen; rewrite (length_block _ Hc); lia).
  assert (zlen a + 127 = zlen (a ++ take 127 i)) as Ha by (rewrite zlen_app; unfold zlen; lia).
  rewrite Ha, !(assoc_L (++)), IH by (rewrite length_drop; lia).
  rewrite <- Ha. by replace (zlen data - (zlen a + 127)) with (zlen data - zlen a - 127) by lia.
Qed.
End encode_run.

(** * Decoding a block *)

Section decode_run.
Abbreviation dec := (stm (list Z) (fault BlobDecodeError)).

Definition high_clear (b : Z) : bool := Z.land b 0xC0 =? 0.

Lemma field_run {B} q b s p d r i k i' k' (f : Z * Z * Z -> dec B) :
  i' = i + 32 -> k' = k + 32 -> 0 <= i -> i' <= zlen b -> 0 <= k -> k' <= zlen d + 1 ->
  (mbind f (decode_field_element (q ++ b ++ s) (zlen p + k) (zlen q + i))) (p ++ d ++ r) =
  if high_clear (nth (Z.to_nat i) b 0)
  then f (nth (Z.to_nat i) b 0, zlen p + k', zlen q + i')
         (p ++ splice k (k + 31) (take 31 (drop (Z.to_nat (i + 1)) b)) d ++ r)
  else (Err (Fail (InvalidFieldElement (zlen q + i))), p ++ d ++ r).
Proof.
  intros -> -> Hi1 Hi2 Hk1 Hk2. unfold decode_field_element.
  assert (byte_at (E := BlobDecodeError) (q ++ b ++ s) (zlen q + i) = Ok (nth (Z.to_nat i) b 0)) as Hb.
  { apply byte_at_middle; [lia|]. destruct (lookup_lt_is_Some_2 b (Z.to_nat i)) as [x Hx]; [unfold zlen in *; lia|].
    rewrite Hx. f_equal. symmetry. by apply nth_lookup_Some. }
  assert (slice (E := BlobDecodeError) (q ++ b ++ s) (zlen q + i + 1) (zlen q + i + 32)
    = Ok (take 31 (drop (Z.to_nat (i + 1)) b))) as Hs.
  { rewrite <- !Z.add_assoc, slice_middle by lia. by replace (i + 32 - (i + 1)) with 31 by lia. }
  unfold mbind at 1, stm_bind at 1. rewrite (lift_run _ _ _ _ Hb). unfold high_clear.
  destruct (Z.land _ _ =? 0); cbn [negb]; [|done].
  rewrite (lift_run _ _ _ _ Hs). replace (zlen p + k + 31) with (zlen p + (k + 31)) by lia.
  rewrite copy_block; [|lia..|]; [|unfold zlen in *; rewrite length_take, length_drop; lia].
  unfold mret, stm_ret. by rewrite <- !Z.add_assoc.
Qed.

(** The three bytes reassembled from the high bytes, as written to the output. *)
Definition low_x (e0 e1 : Z) : Z := Z.lor (Z.land e0 0x3F) (Z.shiftl (Z.land e1 0x30) 2).
Definition low_y (e1 e3 : Z) : Z := Z.lor (Z.land e1 0x0F) (Z.shiftl (Z.land e3 0x0F) 4).
Definition low_z (e2 e3 : Z) : Z := Z.lor (Z.land e2 0x3F) (Z.shiftl (Z.land e3 0x30) 2).

Lemma reassemble_run {E} p d r k e0 e1 e2 e3 :
  97 <= k -> k - 33 < zlen d ->
  reassemble_bytes (E := E) (zlen p + k) e0 e1 e2 e3 (p ++ d ++ r) =
  (Ok (zlen p + (k - 1)), p ++
    <[Z.to_nat (k - 97) := low_x e0 e1]> (<[Z.to_nat (k - 65) := low_y e1 e3]>
    (<[Z.to_nat (k - 33) := low_z e2 e3]> d)) ++ r).
Proof.
  intros Hk Hd. unfold reassemble_bytes.
  assert (forall i v (l : list Z), zlen (<[Z.to_nat i := v]> l) = zlen l) as Hins
    by (intros; unfold zlen; by rewrite length_insert).
  replace (zlen p + k - 1 - 32) with (zlen p + (k - 33)) by lia.
  replace (zlen p + k - 1 - 32 * 2) with (zlen p + (k - 65)) by lia.
  replace (zlen p + k - 1 - 32 * 3) with (zlen p + (k - 97)) by lia.
  rewrite !put_block by (rewrite ?Hins; lia). unfold mret, stm_ret.
  by replace (zlen p + (k - 1)) with (zlen p + k - 1) by lia.
Qed.

Definition highs_clear (js : list nat) (b : list Z) : bool := forallb (fun j => high_clear (nth j b 0)) js.

Lemma unround_block d b :
  length d = 127%nat -> length b = 128%nat ->
  <[Z.to_nat 31 := low_x (nth 0 b 0) (nth 32 b 0)]> (<[Z.to_nat 63 := low_y (nth 32 b 0) (nth 96 b 0)]>
    (<[Z.to_nat 95 := low_z (nth 64 b 0) (nth 96 b 0)]>
    (splice 96 127 (take 31 (drop 97 b)) (splice 64 95 (take 31 (drop 65 b))
    (splice 32 63 (take 31 (drop 33 b)) (splice 0 31 (take 31 (drop 1 b)) d)))))) = unblock b.
Proof.
  intros Hd Hb. unfold unblock. fold (low_x (nth 0 b 0) (nth 32 b 0)) (low_y (nth 32 b 0) (nth 96 b 0))
    (low_z (nth 64 b 0) (nth 96 b 0)).
  generalize (low_x (nth 0 b 0) (nth 32 b 0)) (low_y (nth 32 b 0) (nth 96 b 0)) (low_z (nth 64 b 0) (nth 96 b 0)).
  intros x y z. rewrite (explode d 127 Hd), (explode b 128 Hb). vm_compute. reflexivity.
Qed.

Ltac name_size n size :=
  assert (zlen n = size) by (unfold n; match goal with H : forall i k (l : list Z), _ |- _ => apply H; lia end).
Ltac name_mid n := match goal with |- _ (?p ++ ?d ++ ?r) = _ => set (n := d); name_size n 127 end.
Ltac name_mid0 n :=
  match goal with |- _ (?d ++ ?r) = _ => set (n := d); name_size n 123 end.

Lemma decode_round_run q b s p d r :
  length b = 128%nat -> length d = 127%nat ->
  exists e out, decode_round (q ++ b ++ s) (zlen p) (zlen q) (p ++ d ++ r) =
    if highs_clear [0; 32; 64; 96]%nat b
    then (Ok (zlen p + 127, zlen q + 128), p ++ unblock b ++ r) else (Err (Fail e), out).
Proof.
  intros Hb Hd. assert (zlen b = 128) as Hzb by (unfold zlen; lia). assert (zlen d = 127) as Hzd by (unfold zlen; lia).
  assert (forall i, 0 <= i -> i + 31 <= 128 -> zlen (take 31 (drop (Z.to_nat i) b)) = 31) as Hl.
  { intros. unfold zlen in *. rewrite length_take, length_drop. lia. }
  assert (forall i k l, 0 <= i -> i + 31 <= 128 -> 0 <= k -> k + 31 <= 127 -> zlen l = 127 ->
    zlen (splice k (k + 31) (take 31 (drop (Z.to_nat i) b)) l) = 127) as Hsp.
  { intros i k l ?????. rewrite zlen_splice; rewrite ?Hl; lia. }
  eassert (decode_round (q ++ b ++ s) (zlen p) (zlen q) (p ++ d ++ r) =
    if high_clear (nth (Z.to_nat 0) b 0) then if high_clear (nth (Z.to_nat 32) b 0) then
      if high_clear (nth (Z.to_nat 64) b 0) then if high_clear (nth (Z.to_nat 96) b 0)
      then (Ok (zlen p + 127, zlen q + 128), p ++ unblock b ++ r)
      else (Err (Fail _), _) else (Err (Fail _), _) else (Err (Fail _), _) else (Err (Fail _), _)) as ->.
  { unfold decode_round.
    rewrite <- (Z.add_0_r (zlen p)) at 1. rewrite <- (Z.add_0_r (zlen q)) at 1.
    rewrite (field_run _ _ _ _ _ _ 0 0 32 32) by lia.
    destruct (high_clear (nth (Z.to_nat 0) b 0)); [|reflexivity]. name_mid d1.
    rewrite (field_run _ _ _ _ _ _ 32 32 64 64) by lia.
    destruct (high_clear (nth (Z.to_nat 32) b 0)); [|reflexivity]. name_mid d2.
    rewrite (field_run _ _ _ _ _ _ 64 64 96 96) by lia.
    destruct (high_clear (nth (Z.to_nat 64) b 0)); [|reflexivity]. name_mid d3.
    rewrite (field_run _ _ _ _ _ _ 96 96 128 128) by lia.
    destruct (high_clear (nth (Z.to_nat 96) b 0)); [|reflexivity]. name_mid d4.
    erewrite bind_run; [|apply reassemble_run; lia].
    rewrite <- (unround_block d b Hd Hb). reflexivity. }
  unfold highs_clear. cbn [forallb]. change (Z.to_nat 0) with 0%nat. change (Z.to_nat 32) with 32%nat.
  change (Z.to_nat 64) with 64%nat. change (Z.to_nat 96) with 96%nat.
  destruct (high_clear (nth 0 _ _)), (high_clear (nth 32 _ _)), (high_clear (nth 64 _ _)),
    (high_clear (nth 96 _ _)); cbn [andb]; eauto; by exists (NonZeroPadding 0), [].
Qed.

Lemma unround0_block d b :
  length d = 123%nat -> length b = 128%nat ->
  <[Z.to_nat 27 := low_x (nth 0 b 0) (nth 32 b 0)]> (<[Z.to_nat 59 := low_y (nth 32 b 0) (nth 96 b 0)]>
    (<[Z.to_nat 91 := low_z (nth 64 b 0) (nth 96 b 0)]>
    (splice 92 123 (take 31 (drop 97 b)) (splice 60 91 (take 31 (drop 65 b))
    (splice 28 59 (take 31 (drop 33 b)) (splice 0 27 (take 27 (drop 5 b)) d)))))) = drop 4 (unblock b).
Proof.
  intros Hd Hb. unfold unblock. fold (low_x (nth 0 b 0) (nth 32 b 0)) (low_y (nth 32 b 0) (nth 96 b 0))
    (low_z (nth 64 b 0) (nth 96 b 0)).
  generalize (low_x (nth 0 b 0) (nth 32 b 0)) (low_y (nth 32 b 0) (nth 96 b 0)) (low_z (nth 64 b 0) (nth 96 b 0)).
  intros x y z. rewrite (explode d 123 Hd), (explode b 128 Hb). vm_compute. reflexivity.
Qed.

Lemma field_run0 {B} b s d r i k i' k' (f : Z * Z * Z -> dec B) :
  i' = i + 32 -> k' = k + 32 -> 0 <= i -> i' <= zlen b -> 0 <= k -> k' <= zlen d + 1 ->
  (mbind f (decode_field_element (b ++ s) k i)) (d ++ r) =
  if high_clear (nth (Z.to_nat i) b 0)
  then f (nth (Z.to_nat i) b 0, k', i') (splice k (k + 31) (take 31 (drop (Z.to_nat (i + 1)) b)) d ++ r)
  else (Err (Fail (InvalidFieldElement i)), d ++ r).
Proof. exact (field_run [] b s [] d r i k i' k' f). Qed.

(** The first round does not look at the two high bits of the first byte. *)
Lemma decode_round0_run b s d r :
  length b = 128%nat -> length d = 123%nat ->
  exists e out, decode_round0 (b ++ s) (d ++ r) =
    if highs_clear [32; 64; 96]%nat b
    then (Ok (123, 128), drop 4 (unblock b) ++ r) else (Err (Fail e), out).
Proof.
  intros Hb Hd. assert (zlen b = 128) as Hzb by (unfold zlen; lia). assert (zlen d = 123) as Hzd by (unfold zlen; lia).
  assert (forall i k l, 0 <= i -> i + 31 <= 128 -> 0 <= k -> k + 31 <= 123 -> zlen l = 123 ->
    zlen (splice k (k + 31) (take 31 (drop (Z.to_nat i) b)) l) = 123) as Hsp.
  { intros i k l ?????. rewrite zlen_splice; unfold zlen in *; rewrite ?length_take, ?length_drop; lia. }
  eassert (decode_round0 (b ++ s) (d ++ r) =
    if high_clear (nth (Z.to_nat 32) b 0) then
      if high_clear (nth (Z.to_nat 64) b 0) then if high_clear (nth (Z.to_nat 96) b 0)
      then (Ok (123, 128), drop 4 (unblock b) ++ r)
      else (Err (Fail _), _) else (Err (Fail _), _) else (Err (Fail _), _)) as ->.
  { unfold decode_round0.
    rewrite (lift_run _ _ _ _ (slice_middle [] b s 5 32 ltac:(lia) ltac:(lia))).
    change (take (Z.to_nat (32 - 5)) (drop (Z.to_nat 5) b)) with (take 27 (drop 5 b)).
    rewrite copy_block0 by (unfold zlen in *; rewrite ?length_take, ?length_drop; lia).
    set (d1 := splice 0 27 _ d).
    assert (zlen d1 = 123) by (unfold d1; rewrite zlen_splice; unfold zlen in *; rewrite ?length_take, ?length_drop; lia).
    assert (byte_at (E := BlobDecodeError) (b ++ s) 0 = Ok (nth 0 b 0)) as Hb0
      by (destruct b; [done|reflexivity]).
    rewrite (lift_run _ _ _ _ Hb0).
    rewrite (field_run0 _ _ _ _ 32 28 64 60) by lia.
    destruct (high_clear (nth (Z.to_nat 32) b 0)); [|reflexivity]. name_mid0 d2.
    rewrite (field_run0 _ _ _ _ 64 60 96 92) by lia.
    destruct (high_clear (nth (Z.to_nat 64) b 0)); [|reflexivity]. name_mid0 d3.
    rewrite (field_run0 _ _ _ _ 96 92 128 124) by lia.
    destruct (high_clear (nth (Z.to_nat 96) b 0)); [|reflexivity]. name_mid0 d4.
    erewrite bind_run; [|apply (reassemble_run [] d4 r 124); lia].
    rewrite <- (unround0_block d b Hd Hb). reflexivity. }
  unfold highs_clear. cbn [forallb]. change (Z.to_nat 32) with 32%nat.
  change (Z.to_nat 64) with 64%nat. change (Z.to_nat 96) with 96%nat.
  destruct (high_clear (nth 32 _ _)), (high_clear (nth 64 _ _)),
    (high_clear (nth 96 _ _)); cbn [andb]; eauto; by exists (NonZeroPadding 0), [].
Qed.
End decode_run.

(** * The bit layout of the high bytes *)

Lemma small_testbit k b n : 0 <= b < 2 ^ k -> 0 <= k <= n -> Z.testbit b n = false.
Proof.
  intros. apply Z.testbit_false; [lia|]. rewrite Z.div_small; [done|].
  split; [lia|]. apply Z.lt_le_trans with (2 ^ k); [lia|]. apply Z.pow_le_mono_r; lia.
Qed.

(** Equations between bytes, bit by bit: the low eight bits are compared one by
    one, above them both sides are masked or bytes. *)
Ltac bit_specs :=
  repeat first [ rewrite Z.lor_spec | rewrite Z.land_spec | rewrite Z.shiftl_spec by lia | rewrite Z.shiftr_spec by lia ].
Ltac low_bit :=
  bit_specs;
  repeat match goal with |- context [Z.testbit (Zpos ?p) ?n] =>
    let b := eval vm_compute in (Z.testbit (Zpos p) n) in change (Z.testbit (Zpos p) n) with b end;
  rewrite ?andb_true_r, ?andb_false_r, ?orb_false_r, ?orb_false_l; bit_specs;
  rewrite ?(Z.testbit_neg_r _ (_ - _)) by lia; rewrite ?Z.bits_0; try reflexivity.
Ltac high_bit :=
  bit_specs;
  repeat match goal with
  | |- context [Z.testbit (Zpos ?p) ?n] =>
      first [ rewrite (small_testbit 2 (Zpos p) n) by lia | rewrite (small_testbit 4 (Zpos p) n) by lia
            | rewrite (small_testbit 6 (Zpos p) n) by lia | rewrite (small_testbit 8 (Zpos p) n) by lia ]
  | H : 0 <= ?x < _ |- context [Z.testbit ?x ?n] => rewrite (small_testbit 8 x n) by lia
  end;
  rewrite ?andb_false_r, ?Z.bits_0; try reflexivity.
Ltac by_bits :=
  unfold byte_ok in *; apply Z.bits_inj'; intros n Hn; destruct (Z_lt_le_dec n 8) as [H8|H8];
  [ assert (n = 0 \/ n = 1 \/ n = 2 \/ n = 3 \/ n = 4 \/ n = 5 \/ n = 6 \/ n = 7) as Hc by lia;
    destruct_or! Hc; subst n; low_bit
  | high_bit ].

Lemma low_x_high x y : byte_ok x -> byte_ok y -> low_x (high0 x) (high1 x y) = x.
Proof. intros. unfold low_x, high0, high1. by_bits. Qed.
Lemma low_y_high x y z : byte_ok x -> byte_ok y -> byte_ok z -> low_y (high1 x y) (high3 y z) = y.
Proof. intros. unfold low_y, high1, high3. by_bits. Qed.
Lemma low_z_high y z : byte_ok y -> byte_ok z -> low_z (high0 z) (high3 y z) = z.
Proof. intros. unfold low_z, high0, high3. by_bits. Qed.
Lemma high0_low_x e0 e1 : byte_ok e0 -> byte_ok e1 -> high0 (low_x e0 e1) = Z.land e0 0x3F.
Proof. intros. unfold low_x, high0. by_bits. Qed.
Lemma high1_low_xy e0 e1 e3 :
  byte_ok e0 -> byte_ok e1 -> byte_ok e3 -> high1 (low_x e0 e1) (low_y e1 e3) = Z.land e1 0x3F.
Proof. intros. unfold low_x, low_y, high1. by_bits. Qed.
Lemma high3_low_yz e1 e2 e3 :
  byte_ok e1 -> byte_ok e2 -> byte_ok e3 -> high3 (low_y e1 e3) (low_z e2 e3) = Z.land e3 0x3F.
Proof. intros. unfold low_y, low_z, high3. by_bits. Qed.

Lemma high_clear_land b : byte_ok b -> high_clear b = true -> Z.land b 0x3F = b.
Proof.
  unfold high_clear. intros Hb Hc. zbool. transitivity (Z.lor (Z.land b 0x3F) (Z.land b 0xC0)).
  - by rewrite Hc, Z.lor_0_r.
  - clear Hc. by_bits.
Qed.
Lemma high_clear_high0 x : high_clear (high0 x) = true.
Proof. unfold high_clear, high0. rewrite <- Z.land_assoc. by rewrite Z.land_0_r. Qed.
Lemma high_clear_high1 x y : high_clear (high1 x y) = true.
Proof. apply Z.eqb_eq. unfold high1. by_bits. Qed.
Lemma high_clear_high3 y z : high_clear (high3 y z) = true.
Proof. apply Z.eqb_eq. unfold high3. by_bits. Qed.

Lemma nth_byte l k : bytes_ok l -> byte_ok (nth k l 0).
Proof.
  intros Hl. destruct (nth_lookup_or_length l k 0) as [H|H].
  - by eapply Forall_lookup_1.
  - rewrite nth_overflow by done. unfold byte_ok. lia.
Qed.

(** The high bytes of a block and the low bytes of a payload. *)
Lemma nth_block c : length c = 127%nat ->
  let x := nth 31 c 0 in let y := nth 63 c 0 in let z := nth 95 c 0 in
  nth 0 (block c) 0 = high0 x /\ nth 32 (block c) 0 = high1 x y /\
  nth 64 (block c) 0 = high0 z /\ nth 96 (block c) 0 = high3 y z.
Proof.
  intros Hc x y z. unfold block. fold x y z.
  generalize (high0 x) (high1 x y) (high0 z) (high3 y z). intros h0 h1 h2 h3.
  rewrite (explode c 127 Hc). vm_compute. done.
Qed.
Lemma nth_unblock b : length b = 128%nat ->
  let e0 := nth 0 b 0 in let e1 := nth 32 b 0 in let e2 := nth 64 b 0 in let e3 := nth 96 b 0 in
  nth 31 (unblock b) 0 = low_x e0 e1 /\ nth 63 (unblock b) 0 = low_y e1 e3 /\ nth 95 (unblock b) 0 = low_z e2 e3.
Proof.
  intros Hb e0 e1 e2 e3. unfold unblock. fold e0 e1 e2 e3. fold (low_x e0 e1) (low_y e1 e3) (low_z e2 e3).
  generalize (low_x e0 e1) (low_y e1 e3) (low_z e2 e3). intros x y z.
  rewrite (explode b 128 Hb). vm_compute. done.
Qed.

(** Packing and unpacking a block are inverse to each other. *)
Lemma unblock_block c : length c = 127%nat -> bytes_ok c -> unblock (block c) = c.
Proof.
  intros Hc Hok. destruct (nth_block c Hc) as (H0 & H1 & H2 & H3). unfold unblock. rewrite H0, H1, H2, H3.
  fold (low_x (high0 (nth 31 c 0)) (high1 (nth 31 c 0) (nth 63 c 0)))
    (low_y (high1 (nth 31 c 0) (nth 63 c 0)) (high3 (nth 63 c 0) (nth 95 c 0)))
    (low_z (high0 (nth 95 c 0)) (high3 (nth 63 c 0) (nth 95 c 0))).
  rewrite low_x_high, low_y_high, low_z_high by (by apply nth_byte). unfold block.
  generalize (high0 (nth 31 c 0)) (high1 (nth 31 c 0) (nth 63 c 0)) (high0 (nth 95 c 0))
    (high3 (nth 63 c 0) (nth 95 c 0)).
  intros h0 h1 h2 h3. rewrite (explode c 127 Hc). vm_compute. reflexivity.
Qed.
Lemma block_unblock b :
  length b = 128%nat -> bytes_ok b -> highs_clear [32; 64; 96]%nat b = true ->
  block (unblock b) = <[0%nat := Z.land (nth 0 b 0) 0x3F]> b.
Proof.
  intros Hb Hok Hc. destruct (nth_unblock b Hb) as (H0 & H1 & H2). unfold block. rewrite H0, H1, H2.
  unfold highs_clear in Hc. cbn [forallb] in Hc. zbool.
  rewrite high0_low_x, high1_low_xy, high3_low_yz by (by apply nth_byte).
  change (high0 (low_z (nth 64 b 0) (nth 96 b 0))) with (high0 (low_x (nth 64 b 0) (nth 96 b 0))).
  rewrite high0_low_x by (by apply nth_byte).
  rewrite (high_clear_land (nth 32 b 0)), (high_clear_land (nth 64 b 0)), (high_clear_land (nth 96 b 0))
    by (done || by apply nth_byte).
  unfold unblock. generalize (Z.land (nth 0 b 0) 63). intros h.
  fold (low_x (nth 0 b 0) (nth 32 b 0)) (low_y (nth 32 b 0) (nth 96 b 0)) (low_z (nth 64 b 0) (nth 96 b 0)).
  generalize (low_x (nth 0 b 0) (nth 32 b 0)) (low_y (nth 32 b 0) (nth 96 b 0)) (low_z (nth 64 b 0) (nth 96 b 0)).
  intros x y z. rewrite (explode b 128 Hb). vm_compute. reflexivity.
Qed.
