(* ===== verification/BlobCodec.v ===== *)
(** The blob codec is exact: the batcher's decoder accepts a blob exactly when it
    is the encoding of the payload it returns, up to the two high bits of the
    first byte, which it does not look at. *)

From S2P Require Import Prelude Buffer Frames Blobs.

Abbreviation all_zero := (Forall (fun b : Z => b = 0)).

Lemma length_zeros n : length (zeros n) = Z.to_nat n.
Proof. apply length_replicate. Qed.
Lemma zlen_zeros n : 0 <= n -> zlen (zeros n) = n.
Proof. intros. unfold zlen. rewrite length_zeros. lia. Qed.
Lemma zeros_all_zero n : all_zero (zeros n).
Proof. apply Forall_forall. intros x Hx. by apply elem_of_replicate in Hx as [-> _]. Qed.
Lemma all_zero_zeros l : all_zero l -> l = zeros (zlen l).
Proof.
  intros H. unfold zeros, zlen. rewrite Nat2Z.id. induction H; [done|]. cbn. by f_equal.
Qed.
Lemma zeros_add n m : 0 <= n -> 0 <= m -> zeros (n + m) = zeros n ++ zeros m.
Proof. intros. unfold zeros. rewrite Z2Nat.inj_add, replicate_add by done. done. Qed.
Lemma drop_zeros n m : 0 <= n <= m -> drop (Z.to_nat n) (zeros m) = zeros (m - n).
Proof. intros. unfold zeros. rewrite drop_replicate. f_equal. lia. Qed.
Lemma take_zeros n m : 0 <= n <= m -> take (Z.to_nat n) (zeros m) = zeros n.
Proof. intros. unfold zeros. rewrite take_replicate. f_equal. lia. Qed.
Lemma drop_127_zeros n : drop 127 (zeros (127 * Z.of_nat (S n))) = zeros (127 * Z.of_nat n).
Proof. change 127%nat with (Z.to_nat 127). rewrite drop_zeros by lia. f_equal. lia. Qed.
Lemma drop_128_zeros n : drop 128 (zeros (128 * Z.of_nat (S n))) = zeros (128 * Z.of_nat n).
Proof. change 128%nat with (Z.to_nat 128). rewrite drop_zeros by lia. f_equal. lia. Qed.
Lemma all_zero_drop a b l : (a <= b)%nat -> all_zero (drop a l) -> all_zero (drop b l).
Proof. intros. replace b with (a + (b - a))%nat by lia. rewrite <- drop_drop. by apply Forall_drop. Qed.
Lemma all_zero_bytes l : all_zero l -> bytes_ok l.
Proof. intros H. apply (Forall_impl _ _ _ H). unfold byte_ok. lia. Qed.
#[export] Hint Resolve zeros_all_zero all_zero_bytes : sci.

Lemma find_nonzero_None i l : find_nonzero i l = None <-> all_zero l.
Proof.
  revert i. induction l as [|b l IH]; intros i; cbn; [by split|].
  rewrite Forall_cons, <- (IH (i + 1)). destruct (b =? 0) eqn:E; zbool; cbn; naive_solver.
Qed.
Lemma check_padding_ok l n : check_padding l n = Ok tt <-> all_zero (drop (Z.to_nat n) l).
Proof.
  unfold check_padding. rewrite <- (find_nonzero_None n). by destruct (find_nonzero _ _).
Qed.

(** * Sequences of blocks *)

(** The payload of the later rounds and the part of the blob left unread. *)
Fixpoint unblocks (n : nat) (left : Z) (data zs : list Z) : option (list Z * list Z) :=
  match n with
  | O => Some (zs, data)
  | S n =>
      if left <=? 0 then Some (zs, data)
      else if highs_clear [0; 32; 64; 96]%nat (take 128 data) then
        '(o, u) ← unblocks n (left - 127) (drop 128 data) (drop 127 zs);
        Some (unblock (take 128 data) ++ o, u)
      else None
  end.

Lemma decode_rounds_run n len q data p zs :
  length data = (128 * n)%nat -> length zs = (127 * n)%nat ->
  match unblocks n (len - zlen p) data zs with
  | Some (o, u) => exists opos ipos used,
      decode_rounds n (q ++ data) len (zlen p) (zlen q) (p ++ zs) = (Ok (opos, ipos), p ++ o) /\
      data = used ++ u /\ ipos = zlen q + zlen used
  | None => exists e out,
      decode_rounds n (q ++ data) len (zlen p) (zlen q) (p ++ zs) = (Err (Fail e), out)
  end.
Proof.
  revert q data p zs. induction n as [|n IH]; intros q data p zs Hd Hz; cbn [unblocks decode_rounds].
  { exists (zlen p), (zlen q), []. split; [done|]. split; [done|]. unfold zlen. cbn. lia. }
  destruct (zlen p >=? len) eqn:E1; destruct (_ <=? 0) eqn:E2; zbool; try lia.
  { exists (zlen p), (zlen q), []. split; [done|]. split; [done|]. unfold zlen. cbn. lia. }
  set (b := take 128 data). assert (length b = 128%nat) as Hb by (unfold b; rewrite length_take; lia).
  assert (q ++ data = q ++ b ++ drop 128 data) as Hq by (unfold b; by rewrite take_drop).
  assert (p ++ zs = p ++ take 127 zs ++ drop 127 zs) as Hp by (by rewrite take_drop). rewrite Hq, Hp.
  destruct (decode_round_run q b (drop 128 data) p (take 127 zs) (drop 127 zs) Hb ltac:(rewrite length_take; lia))
    as (e & out & Hr).
  destruct (highs_clear _ b); cbn [mbind option_bind].
  2: { exists e, out. by rewrite (bind_run_err _ _ _ _ _ Hr). }
  specialize (IH (q ++ b) (drop 128 data) (p ++ unblock b) (drop 127 zs)
    ltac:(rewrite length_drop; lia) ltac:(rewrite length_drop; lia)).
  assert (zlen (q ++ b) = zlen q + 128) as Zq by (rewrite zlen_app; unfold zlen; lia).
  assert (zlen (p ++ unblock b) = zlen p + 127) as Zp
    by (rewrite zlen_app; unfold zlen; rewrite (length_unblock b Hb); lia).
  rewrite Zq, Zp, <- !(assoc_L (++)) in IH.
  replace (len - (zlen p + 127)) with (len - zlen p - 127) in IH by lia.
  destruct (unblocks _ _ _ _) as [[o u]|]; cbn.
  - destruct IH as (opos & ipos & used & Hrun & Hu & Hi). exists opos, ipos, (b ++ used).
    rewrite (bind_run _ _ _ _ _ Hr). rewrite <- (assoc_L (++)) in Hrun. rewrite <- !(assoc_L (++)). split; [done|].
    split; [rewrite <- Hu; unfold b; by rewrite take_drop|]. rewrite zlen_app in *. lia.
  - destruct IH as (e' & out' & Hrun). exists e', out'. by rewrite (bind_run _ _ _ _ _ Hr).
Qed.

Lemma byte_land v : Z.land v 0xFF = v -> byte_ok v.
Proof.
  intros <-. change 0xFF with (Z.ones 8). rewrite Z.land_ones by lia.
  unfold byte_ok. pose proof (Z.mod_pos_bound v (2 ^ 8)). lia.
Qed.
Lemma low_x_byte e0 e1 : byte_ok e0 -> byte_ok e1 -> byte_ok (low_x e0 e1).
Proof. intros. apply byte_land. unfold low_x. by_bits. Qed.
Lemma low_y_byte e1 e3 : byte_ok e1 -> byte_ok e3 -> byte_ok (low_y e1 e3).
Proof. intros. apply byte_land. unfold low_y. by_bits. Qed.

Lemma bytes_unblock b : bytes_ok b -> bytes_ok (unblock b).
Proof.
  intros Hb. assert (forall k, bytes_ok (take 31 (drop k b))) by (intros; by apply Forall_take, Forall_drop).
  unfold unblock. repeat (apply Forall_app; split); try done; (apply Forall_singleton);
    [apply low_x_byte|apply low_y_byte|apply low_x_byte]; by apply nth_byte.
Qed.

Lemma highs_clear_all b :
  highs_clear [0; 32; 64; 96]%nat b = high_clear (nth 0 b 0) && highs_clear [32; 64; 96]%nat b.
Proof. done. Qed.

Lemma highs_clear_block c : length c = 127%nat -> highs_clear [0; 32; 64; 96]%nat (block c) = true.
Proof.
  intros Hc. destruct (nth_block c Hc) as (H0 & H1 & H2 & H3). unfold highs_clear. cbn [forallb].
  by rewrite H0, H1, H2, H3, !high_clear_high0, high_clear_high1, high_clear_high3.
Qed.

(** A block with clear high bits is the block of its payload. *)
Lemma block_unblock_clear b :
  length b = 128%nat -> bytes_ok b -> highs_clear [0; 32; 64; 96]%nat b = true -> block (unblock b) = b.
Proof.
  intros Hb Hok Hc. rewrite highs_clear_all in Hc. zbool. rewrite block_unblock by done.
  rewrite high_clear_land by (done || by apply nth_byte).
  apply list_insert_id. destruct b; [done|reflexivity].
Qed.

Lemma blocks_unblocks n left data o u :
  length data = (128 * n)%nat -> bytes_ok data ->
  unblocks n left data (zeros (127 * Z.of_nat n)) = Some (o, u) -> all_zero u ->
  blocks n left o (zeros (128 * Z.of_nat n)) = data /\ length o = (127 * n)%nat /\ bytes_ok o.
Proof.
  revert left data o. induction n as [|n IH]; intros left data o Hd Hb Hu Hz; cbn [blocks unblocks] in *.
  { injection Hu as <- <-. destruct data; [|done]. split; [done|]. by split; [|constructor]. }
  destruct (left <=? 0).
  { injection Hu as <- <-. rewrite (all_zero_zeros data Hz). split; [f_equal; unfold zlen; lia|].
    split; [rewrite length_zeros; lia|]. apply all_zero_bytes, zeros_all_zero. }
  destruct (highs_clear _ _) eqn:Hc; [|done].
  rewrite drop_127_zeros in Hu.
  destruct (unblocks n _ _ _) as [[o' u']|] eqn:E; [|done]. injection Hu as <- <-.
  assert (length (take 128 data) = 128%nat) as Ht by (rewrite length_take; lia).
  apply IH in E as (Hbl & Hl & Hok); [|rewrite length_drop; lia|by apply Forall_drop|done].
  pose proof (length_unblock _ Ht) as Hlu.
  rewrite take_app_length', drop_app_length' by done.
  rewrite block_unblock_clear by (done || by apply Forall_take).
  rewrite drop_128_zeros, Hbl, take_drop.
  split; [done|]. rewrite length_app, Hlu, Hl. split; [lia|]. apply Forall_app. split; [|done].
  by apply bytes_unblock, Forall_take.
Qed.

Lemma unblocks_blocks n left o :
  length o = (127 * n)%nat -> bytes_ok o -> all_zero (drop (Z.to_nat left) o) ->
  exists u, unblocks n left (blocks n left o (zeros (128 * Z.of_nat n))) (zeros (127 * Z.of_nat n)) = Some (o, u) /\
    all_zero u.
Proof.
  revert left o. induction n as [|n IH]; intros left o Ho Hb Hz; cbn [blocks unblocks].
  { destruct o; [|done]. exists []. by split. }
  destruct (left <=? 0) eqn:E; zbool.
  { exists (zeros (128 * Z.of_nat (S n))). split; [|apply zeros_all_zero].
    rewrite Z2Nat.nonpos in Hz by lia. rewrite drop_0 in Hz. rewrite (all_zero_zeros o Hz). do 3 f_equal.
    unfold zlen. rewrite ?length_zeros. lia. }
  assert (length (take 127 o) = 127%nat) as Ht by (rewrite length_take; lia).
  pose proof (length_block _ Ht) as Hlb.
  rewrite take_app_length', drop_app_length' by done. rewrite highs_clear_block by done.
  rewrite drop_127_zeros, drop_128_zeros.
  destruct (IH (left - 127) (drop 127 o)) as (u & Hu & Huz).
  { rewrite length_drop. lia. }
  { by apply Forall_drop. }
  { rewrite drop_drop. eapply all_zero_drop, Hz. lia. }
  exists u. split; [|done]. rewrite Hu. cbn [mbind option_bind]. rewrite unblock_block by (done || by apply Forall_take).
  by rewrite take_drop.
Qed.

(** * Whole blobs *)

(** The rounds after the first one. *)
Definition rounds : nat := Z.to_nat (BLOB_ENCODING_ROUNDS - 1).
Lemma rounds_val : Z.of_nat rounds = 1023.
Proof. unfold rounds, BLOB_ENCODING_ROUNDS. lia. Qed.
Lemma rounds_eq : Z.to_nat (BLOB_ENCODING_ROUNDS - 1) = rounds.
Proof. done. Qed.
Opaque rounds zeros.

Definition pad (data : list Z) : list Z := data ++ zeros (BLOB_MAX_DATA_SIZE - zlen data).

(** The blob of a payload, block by block. *)
Definition blob_of (data : list Z) : list Z :=
  block (blob_header (zlen data) ++ take 123 (pad data)) ++
  blocks rounds (zlen data - 123) (drop 123 (pad data)) (zeros (128 * Z.of_nat rounds)).

Lemma length_pad data : zlen data <= BLOB_MAX_DATA_SIZE -> length (pad data) = (123 + 127 * rounds)%nat.
Proof.
  intros. pose proof rounds_val. unfold pad. rewrite length_app, length_zeros.
  unfold zlen, BLOB_MAX_DATA_SIZE in *. lia.
Qed.

Lemma blob_encode_run data :
  zlen data <= BLOB_MAX_DATA_SIZE -> blob_encode data = Ok (blob_of data).
Proof.
  intros Hmax. pose proof (zlen_nonneg data). pose proof rounds_val as Hr. unfold blob_encode.
  replace (zlen data >? BLOB_MAX_DATA_SIZE) with false by (symmetry; rewrite Z.gtb_ltb; apply Z.ltb_ge; lia).
  assert (copy_to (E := BlobEncodeError) 0 (zlen data) data (zeros BLOB_MAX_DATA_SIZE) = (Ok tt, pad data)) as ->.
  { unfold copy_to. rewrite zlen_zeros by (unfold BLOB_MAX_DATA_SIZE; lia). guard_true.
    rewrite drop_zeros by lia. done. }
  cbn [mbind result_bind]. rewrite rounds_eq.
  assert (zeros BYTES_PER_BLOB = zeros 128 ++ zeros (128 * Z.of_nat rounds)) as ->.
  { rewrite Hr, <- zeros_add by lia. done. }
  pose proof (length_pad data Hmax) as Hp.
  assert (pad data = take 123 (pad data) ++ drop 123 (pad data)) as Htd by (by rewrite take_drop).
  rewrite Htd at 1.
  erewrite bind_run; [|apply encode_round0_run; [by rewrite length_zeros|rewrite length_take; lia|]].
  2: { unfold BLOB_MAX_DATA_SIZE, U32_MAX in *. lia. }
  assert (123 = zlen (take 123 (pad data))) as H123 by (unfold zlen; rewrite length_take; lia).
  set (b := block _).
  assert (128 = zlen b) as H128.
  { unfold zlen, b. rewrite length_block; [done|]. unfold blob_header. cbn [app length].
    rewrite length_app, length_drop, length_be_bytes, length_take. lia. }
  pose proof (encode_rounds_run (E := BlobEncodeError) rounds data (take 123 (pad data)) (drop 123 (pad data))
    b (zeros (128 * Z.of_nat rounds))) as Hrun.
  rewrite <- H123, <- H128, <- Htd in Hrun. rewrite Hrun; [done|rewrite length_drop; lia|].
  rewrite length_zeros. lia.
Qed.

(** The length field of a blob and the buffer its decoder fills. *)
Definition blob_length (b : list Z) : Z := be_val [0; nth 2 b 0; nth 3 b 0; nth 4 b 0].

Lemma byte_at_nth {E} (b : list Z) i : 0 <= i < zlen b -> byte_at (E := E) b i = Ok (nth (Z.to_nat i) b 0).
Proof.
  unfold zlen. intros. unfold byte_at. guard_false.
  destruct (lookup_lt_is_Some_2 b (Z.to_nat i)) as [x Hx]; [lia|]. rewrite Hx. f_equal.
  symmetry. by apply nth_lookup_Some.
Qed.

Lemma decode_buffer b :
  zlen b = BYTES_PER_BLOB ->
  let run := ('(opos, ipos) ← decode_round0 b;
              decode_rounds rounds b (blob_length b) opos ipos) (zeros BLOB_MAX_DATA_SIZE) in
  (exists o u used opos,
    highs_clear [32; 64; 96]%nat (take 128 b) = true /\
    unblocks rounds (blob_length b - 123) (drop 128 b) (zeros (127 * Z.of_nat rounds)) = Some (o, u) /\
    run = (Ok (opos, zlen used), drop 4 (unblock (take 128 b)) ++ o) /\ b = used ++ u) \/
  (exists e out, run = (Err (Fail e), out) /\
    (highs_clear [32; 64; 96]%nat (take 128 b) = false \/
     unblocks rounds (blob_length b - 123) (drop 128 b) (zeros (127 * Z.of_nat rounds)) = None)).
Proof.
  intros Hb run. unfold BYTES_PER_BLOB, zlen in Hb. pose proof rounds_val as Hr.
  assert (zeros BLOB_MAX_DATA_SIZE = zeros 123 ++ zeros (127 * Z.of_nat rounds)) as Hz.
  { rewrite Hr, <- zeros_add by lia. done. }
  set (b0 := take 128 b) in *. assert (length b0 = 128%nat) as Hb0 by (unfold b0; rewrite length_take; lia).
  assert (b = b0 ++ drop 128 b) as Hbd by (unfold b0; by rewrite take_drop).
  destruct (decode_round0_run b0 (drop 128 b) (zeros 123) (zeros (127 * Z.of_nat rounds)) Hb0
    ltac:(by rewrite length_zeros)) as (e & out & H0). rewrite <- Hbd, <- Hz in H0.
  destruct (highs_clear _ b0) eqn:Hc.
  2: { right. exists e, out. split; [|by left]. unfold run. by rewrite (bind_run_err _ _ _ _ _ H0). }
  assert (zlen b0 = 128) as Z0 by (unfold zlen; lia).
  assert (zlen (drop 4 (unblock b0)) = 123) as Z1
    by (unfold zlen; rewrite length_drop, (length_unblock b0 Hb0); done).
  pose proof (decode_rounds_run rounds (blob_length b) b0 (drop 128 b) (drop 4 (unblock b0))
    (zeros (127 * Z.of_nat rounds)) ltac:(rewrite length_drop; lia) ltac:(rewrite length_zeros; lia)) as Hrs.
  rewrite Z0, Z1, <- Hbd in Hrs.
  destruct (unblocks _ _ _ _) as [[o u]|].
  - left. destruct Hrs as (opos & ipos & used & Hrun & Hu & ->). exists o, u, (b0 ++ used), opos.
    split; [done|]. split; [done|]. split.
    + unfold run. rewrite (bind_run _ _ _ _ _ H0), Hrun. by rewrite zlen_app, Z0.
    + by rewrite <- (assoc_L (++)), <- Hu.
  - right. destruct Hrs as (e' & out' & Hrun). exists e', out'. split; [|by right].
    unfold run. by rewrite (bind_run _ _ _ _ _ H0).
Qed.

Lemma blob_decode_run b d :
  zlen b = BYTES_PER_BLOB ->
  blob_decode b = Ok d <->
  nth 1 b 0 = 0 /\ blob_length b <= BLOB_MAX_DATA_SIZE /\
  highs_clear [32; 64; 96]%nat (take 128 b) = true /\
  exists o u, unblocks rounds (blob_length b - 123) (drop 128 b) (zeros (127 * Z.of_nat rounds)) = Some (o, u) /\
    all_zero u /\ all_zero (drop (Z.to_nat (blob_length b)) (drop 4 (unblock (take 128 b)) ++ o)) /\
    d = take (Z.to_nat (blob_length b)) (drop 4 (unblock (take 128 b)) ++ o).
Proof.
  intros Hb. pose proof Hb as Hb'. unfold BYTES_PER_BLOB in Hb'.
  unfold blob_decode, VERSIONED_HASH_VERSION_KZG. rewrite !byte_at_nth by lia. cbn [mbind result_bind].
  change (be_val _) with (blob_length b). change (nth (Z.to_nat 1) b 0) with (nth 1 b 0). rewrite rounds_eq.
  destruct (nth 1 b 0 =? 0) eqn:Hv; zbool; cbn [negb]; [|naive_solver].
  destruct (_ >? _) eqn:HL; zbool; [split; [done|]; intros (_ & ? & _); lia|].
  destruct (decode_buffer b Hb) as [(o & u & used & opos & Hc & Hu & Hrun & Hbu)|(e & out & Hrun & Hbad)].
  - rewrite Hrun. cbn [mbind result_bind].
    assert (drop (Z.to_nat (zlen used)) b = u) as Hdu.
    { unfold zlen. rewrite Nat2Z.id. rewrite Hbu at 1. by rewrite drop_app_length. }
    pose proof (check_padding_ok (drop 4 (unblock (take 128 b)) ++ o) (blob_length b)) as P1.
    pose proof (check_padding_ok b (zlen used)) as P2. rewrite Hdu in P2.
    rewrite Hu. destruct (check_padding _ _) as [[]|]; cbn.
    2: { split; [done|]. intros (_ & _ & _ & o' & u' & [= <- <-] & _ & Hz & _). by apply P1 in Hz. }
    destruct (check_padding _ _) as [[]|]; cbn.
    2: { split; [done|]. intros (_ & _ & _ & o' & u' & [= <- <-] & Hz & _). by apply P2 in Hz. }
    naive_solver.
  - rewrite Hrun. split; [done|]. intros (_ & _ & Hc & o & u & Hu & _). destruct Hbad; congruence.
Qed.

Lemma blob_decode_returns b : zlen b = BYTES_PER_BLOB -> returns (blob_decode b).
Proof.
  intros Hb. pose proof Hb as Hb'. unfold BYTES_PER_BLOB in Hb'.
  unfold blob_decode, VERSIONED_HASH_VERSION_KZG. rewrite !byte_at_nth by lia. cbn [mbind result_bind].
  destruct (negb _); [by split|]. destruct (_ >? _); [by split|].
  change (be_val _) with (blob_length b). rewrite rounds_eq.
  destruct (decode_buffer b Hb) as [(o & u & used & opos & _ & _ & Hr & _)|(e & out & Hr & _)]; rewrite Hr; [|by split].
  cbn [mbind result_bind]. unfold check_padding. by destruct (find_nonzero _ _), (find_nonzero _ _).
Qed.

(** * Exactness *)

(** The blob with the two high bits of its first byte cleared. *)
Definition clear_first (b : list Z) : list Z := <[0%nat := Z.land (nth 0 b 0) 0x3F]> b.

Lemma land_63_twice v : Z.land (Z.land v 0x3F) 0x3F = Z.land v 0x3F.
Proof. by rewrite <- Z.land_assoc. Qed.

Lemma unblock_clear_first b : unblock (clear_first b) = unblock b.
Proof.
  destruct b as [|e b]; [done|]. unfold clear_first, unblock. cbn [insert list_insert nth drop].
  by rewrite land_63_twice.
Qed.

Lemma clear_first_app b0 r : b0 <> [] -> clear_first (b0 ++ r) = clear_first b0 ++ r.
Proof. by destruct b0. Qed.

Lemma highs_clear_first h b :
  length h = 127%nat -> block h = clear_first b -> highs_clear [32; 64; 96]%nat b = true.
Proof.
  intros Hh He. pose proof (highs_clear_block h Hh) as Hc. rewrite He, highs_clear_all in Hc. zbool.
  destruct b; [done|]. done.
Qed.

Lemma take_4_unblock b :
  length b = 128%nat -> take 4 (unblock b) = [nth 1 b 0; nth 2 b 0; nth 3 b 0; nth 4 b 0].
Proof.
  intros Hb. unfold unblock. fold (low_x (nth 0 b 0) (nth 32 b 0)).
  generalize (low_x (nth 0 b 0) (nth 32 b 0)). intros x. rewrite (explode b 128 Hb). reflexivity.
Qed.

Lemma blob_header_length b :
  bytes_ok b -> nth 1 b 0 = 0 ->
  blob_header (blob_length b) = [nth 1 b 0; nth 2 b 0; nth 3 b 0; nth 4 b 0].
Proof.
  intros Hb H1. unfold blob_header, blob_length. rewrite be_bytes_be_val; [by rewrite H1| |done].
  repeat constructor; (by apply nth_byte) || (unfold byte_ok; lia).
Qed.

Lemma blob_length_header b n :
  0 <= n <= BLOB_MAX_DATA_SIZE -> blob_header n = [nth 1 b 0; nth 2 b 0; nth 3 b 0; nth 4 b 0] ->
  nth 1 b 0 = 0 /\ blob_length b = n.
Proof.
  intros Hn Hh. unfold blob_header in Hh. unfold blob_length, BLOB_MAX_DATA_SIZE in *.
  pose proof (be_val_be_bytes 4 n) as Hv. cbn [be_bytes app drop] in *. injection Hh as <- <- <- <-.
  split; [done|]. rewrite <- Hv at 4 by lia. unfold be_val. cbn [foldl].
  enough (n / 256 / 256 / 256 = 0) as E by (rewrite E; done). rewrite !Z.div_div by lia. apply Z.div_small. lia.
Qed.

Lemma blob_length_bound b : bytes_ok b -> 0 <= blob_length b.
Proof.
  intros Hb. apply be_val_bound. repeat constructor; (by apply nth_byte) || (unfold byte_ok; lia).
Qed.

(** A blob of the right size, cut after its first block. *)
Lemma first_block b :
  zlen b = BYTES_PER_BLOB -> bytes_ok b ->
  length (take 128 b) = 128%nat /\ bytes_ok (take 128 b) /\ length (drop 128 b) = (128 * rounds)%nat /\
  (forall k, (k < 128)%nat -> nth k (take 128 b) 0 = nth k b 0) /\
  clear_first b = clear_first (take 128 b) ++ drop 128 b.
Proof.
  unfold zlen, BYTES_PER_BLOB. intros Hb Hok. pose proof rounds_val.
  assert (length (take 128 b) = 128%nat) as Hl by (rewrite length_take; lia).
  split; [done|]. split; [by apply Forall_take|]. split; [rewrite length_drop; lia|]. split.
  - intros k Hk. rewrite !nth_lookup, lookup_take_lt by done. done.
  - rewrite <- clear_first_app; [by rewrite take_drop|]. intros Hn. by rewrite Hn in Hl.
Qed.

Lemma decode_encode b d :
  zlen b = BYTES_PER_BLOB -> bytes_ok b -> blob_decode b = Ok d -> blob_encode d = Ok (clear_first b).
Proof.
  intros Hb Hbok Hd. apply blob_decode_run in Hd as (H1 & HL & Hc & o & u & Hu & Hzu & Hzo & ->); [|done].
  destruct (first_block b Hb Hbok) as (L0 & B0 & Ld & Hnth & ->).
  apply blocks_unblocks in Hu as (Hbl & Hlo & _); [|done|by apply Forall_drop|done].
  pose proof (blob_length_bound b Hbok) as H0. pose proof rounds_val as Hr.
  pose proof (length_unblock _ L0) as Lu. set (c := drop 4 (unblock (take 128 b))) in *.
  assert (length c = 123%nat) as Lc by (unfold c; rewrite length_drop; lia).
  set (out := c ++ o) in *. assert (zlen out = BLOB_MAX_DATA_SIZE) as Lout.
  { unfold zlen, out, BLOB_MAX_DATA_SIZE. rewrite length_app. lia. }
  set (d := take _ out). assert (zlen d = blob_length b) as Zd.
  { unfold zlen in *. unfold d. rewrite length_take. lia. }
  assert (pad d = out) as Hpad.
  { unfold pad. rewrite Zd, <- (take_drop (Z.to_nat (blob_length b)) out). fold d. f_equal.
    rewrite (all_zero_zeros _ Hzo). f_equal. unfold zlen in *. rewrite length_drop. lia. }
  rewrite blob_encode_run by lia. unfold blob_of. rewrite Hpad, Zd. unfold out.
  rewrite take_app_length', drop_app_length', Hbl by done. do 2 f_equal.
  rewrite blob_header_length, <- (Hnth 1%nat), <- (Hnth 2%nat), <- (Hnth 3%nat), <- (Hnth 4%nat), <- take_4_unblock
    by (done || lia).
  unfold c. rewrite take_drop. by apply block_unblock.
Qed.

(** The input of the first round: the header and the first 123 bytes. *)
Lemma length_first d :
  zlen d <= BLOB_MAX_DATA_SIZE ->
  length (blob_header (zlen d)) = 4%nat /\ length (blob_header (zlen d) ++ take 123 (pad d)) = 127%nat.
Proof.
  intros Hmax. pose proof (length_pad d Hmax).
  assert (length (blob_header (zlen d)) = 4%nat) as L4
    by (unfold blob_header; cbn [length]; rewrite length_drop, length_be_bytes; done).
  split; [done|]. rewrite length_app, length_take. lia.
Qed.
Lemma bytes_pad d : bytes_ok d -> bytes_ok (pad d).
Proof. intros. apply Forall_app; split; [done|]. apply all_zero_bytes, zeros_all_zero. Qed.
Lemma bytes_first d : bytes_ok d -> bytes_ok (blob_header (zlen d) ++ take 123 (pad d)).
Proof.
  intros Hd. apply Forall_app. split; [|by apply Forall_take, bytes_pad]. unfold blob_header, BLOB_ENCODING_VERSION.
  constructor; [unfold byte_ok; lia|]. apply Forall_drop, be_bytes_ok.
Qed.

Lemma encode_decode b d :
  zlen b = BYTES_PER_BLOB -> bytes_ok b -> bytes_ok d ->
  blob_encode d = Ok (clear_first b) -> blob_decode b = Ok d.
Proof.
  intros Hb Hbok Hdok He.
  assert (zlen d <= BLOB_MAX_DATA_SIZE) as Hmax.
  { unfold blob_encode in He. destruct (_ >? _) eqn:E; [done|]. zbool. lia. }
  pose proof (zlen_nonneg d) as H0. pose proof rounds_val as Hr.
  rewrite blob_encode_run in He by done. injection He as He. unfold blob_of in He.
  destruct (first_block b Hb Hbok) as (L0 & B0 & Ld & Hnth & Hcf). rewrite Hcf in He. clear Hcf.
  set (b0 := take 128 b) in *. pose proof (length_pad d Hmax) as Lp.
  pose proof (bytes_pad d Hdok) as Bp. destruct (length_first d Hmax) as [L4 Lh].
  pose proof (bytes_first d Hdok) as Bh. set (h := blob_header (zlen d) ++ take 123 (pad d)) in *.
  apply app_inj_1 in He as [He1 He2]; [|rewrite (length_block h Lh); unfold clear_first; by rewrite length_insert].
  assert (unblock b0 = h) as Hu0 by (rewrite <- unblock_clear_first, <- He1; by apply unblock_block).
  destruct (blob_length_header b (zlen d) ltac:(lia)) as [H1 HL].
  { rewrite <- (Hnth 1%nat), <- (Hnth 2%nat), <- (Hnth 3%nat), <- (Hnth 4%nat), <- take_4_unblock, Hu0
      by (done || lia). unfold h. by rewrite take_app_length'. }
  assert (forall k, (Z.to_nat (zlen d) <= k)%nat -> all_zero (drop k (pad d))) as Hz.
  { intros k Hk. eapply all_zero_drop; [exact Hk|]. unfold pad, zlen. rewrite Nat2Z.id, drop_app_length.
    apply zeros_all_zero. }
  destruct (unblocks_blocks rounds (zlen d - 123) (drop 123 (pad d))) as (u & Hu & Hzu);
    [rewrite length_drop; lia|by apply Forall_drop|rewrite drop_drop; apply Hz; lia|].
  rewrite He2 in Hu. apply blob_decode_run; [done|]. rewrite HL. fold b0. rewrite Hu0.
  assert (drop 4 h = take 123 (pad d)) as -> by (unfold h; by rewrite drop_app_length').
  split; [done|]. split; [done|]. split; [by apply (highs_clear_first h)|].
  exists (drop 123 (pad d)), u. rewrite take_drop. split; [done|]. split; [done|]. split; [by apply Hz|].
  unfold pad, zlen. by rewrite Nat2Z.id, take_app_length.
Qed.

(** C36: The blob codec of the batcher is exact: for every 131072-byte blob and every
    payload, decoding the blob returns the payload if and only if encoding the
    payload returns the blob, with the two high bits of the blob's first byte
    cleared. So decoding undoes encoding, two payloads never share a blob, and
    the only freedom in a blob the decoder accepts are these two bits, which it
    does not look at. *)
Theorem blob_codec_exact b d :
  zlen b = BYTES_PER_BLOB -> bytes_ok b -> bytes_ok d ->
  blob_decode b = Ok d <-> blob_encode d = Ok (clear_first b).
Proof.
  intros Hb Hbok Hdok. split; [by apply decode_encode|by apply encode_decode].
Qed.

(** ** Blobs of payloads *)

Lemma bytes_block c : bytes_ok c -> bytes_ok (block c).
Proof.
  intros Hok. assert (forall k, bytes_ok (take 31 (drop k c))) as Hk by (intros; by apply Forall_take, Forall_drop).
  unfold block. repeat (apply Forall_app; split); try apply Hk; try apply (Hk 0%nat);
    apply Forall_singleton, byte_land; unfold high0, high1, high3; clear Hk;
    pose proof (nth_byte c 31 Hok); pose proof (nth_byte c 63 Hok); pose proof (nth_byte c 95 Hok); by_bits.
Qed.

Lemma blocks_ok n left input zs :
  length input = (127 * n)%nat -> length zs = (128 * n)%nat -> bytes_ok input -> bytes_ok zs ->
  length (blocks n left input zs) = (128 * n)%nat /\ bytes_ok (blocks n left input zs).
Proof.
  revert left input zs. induction n as [|n IH]; intros left input zs Hi Hz Bi Bz; cbn [blocks]; [done|].
  destruct (_ <=? _); [done|]. assert (length (take 127 input) = 127%nat) as H1 by (rewrite length_take; lia).
  destruct (IH (left - 127) (drop 127 input) (drop 128 zs)) as [IHl IHb];
    [rewrite length_drop; lia|rewrite length_drop; lia|by apply Forall_drop..|].
  rewrite length_app, IHl, length_block by done. split; [lia|].
  apply Forall_app. split; [|done]. by apply bytes_block, Forall_take.
Qed.

Lemma blob_of_ok d :
  zlen d <= BLOB_MAX_DATA_SIZE -> bytes_ok d ->
  zlen (blob_of d) = BYTES_PER_BLOB /\ bytes_ok (blob_of d) /\ clear_first (blob_of d) = blob_of d.
Proof.
  intros Hmax Hd. pose proof rounds_val. pose proof (length_pad d Hmax). destruct (length_first d Hmax) as [_ Lh].
  pose proof (bytes_first d Hd) as Bh. unfold blob_of.
  destruct (blocks_ok rounds (zlen d - 123) (drop 123 (pad d)) (zeros (128 * Z.of_nat rounds))) as [Lb Bb];
    [rewrite length_drop; lia|rewrite length_zeros; lia|by apply Forall_drop, bytes_pad
    |apply all_zero_bytes, zeros_all_zero|].
  split; [|split].
  - unfold zlen at 1. rewrite length_app, Lb, length_block by done. unfold BYTES_PER_BLOB. lia.
  - apply Forall_app. split; [by apply bytes_block|done].
  - unfold block, clear_first, high0. cbn [app insert list_insert nth]. by rewrite land_63_twice.
Qed.

Lemma decode_blob_of d : zlen d <= BLOB_MAX_DATA_SIZE -> bytes_ok d -> blob_decode (blob_of d) = Ok d.
Proof.
  intros Hmax Hd. destruct (blob_of_ok d Hmax Hd) as (Hl & Hb & Hc). apply encode_decode; [done..|].
  rewrite Hc. by apply blob_encode_run.
Qed.

Module BlobCodecExample.
Lemma short : zlen [1; 2; 255] <= BLOB_MAX_DATA_SIZE.
Proof. by vm_compute. Qed.
Lemma short_bytes : bytes_ok [1; 2; 255].
Proof. repeat constructor; done. Qed.

(** The payload [[1; 2; 255]] and its blob. *)
Lemma blob_codec_exact_witness : blob_decode (blob_of [1; 2; 255]) = Ok [1; 2; 255].
Proof.
  destruct (blob_of_ok _ short short_bytes) as (Hl & Hb & Hc).
  apply (blob_codec_exact _ _ Hl Hb short_bytes). rewrite Hc. exact (blob_encode_run _ short).
Defined.
End BlobCodecExample.
