(* ===== verification/Rollup.v ===== *)
(** The rollup configuration ([crates/common/genesis/src/rollup.rs]) and block
    references ([crates/consensus/protocol/src/block.rs]), as the derivation
    pipeline uses them.

    Sums of [u64] and [u16] values wrap, as in the release profile of the
    workspace, which does not check overflow. *)

From S2P Require Import Prelude.

Definition add64 (a b : Z) : Z := wrap U64_MAX (a + b).
Definition add16 (a b : Z) : Z := wrap U16_MAX (a + b).

Lemma add64_id a b : 0 <= a -> 0 <= b -> a + b <= U64_MAX -> add64 a b = a + b.
Proof. intros. apply wrap_id. unfold fits. lia. Qed.

Record BlockNumHash : Type := mkBlockNumHash { num : Z; num_hash : Z }.
#[export] Instance BlockNumHash_eq_dec : EqDecision BlockNumHash.
Proof. solve_decision. Defined.

Record BlockInfo : Type := mkBlockInfo {
  hash : Z;
  block_number : Z;
  parent_hash : Z;
  timestamp : Z;
}.
#[export] Instance BlockInfo_eq_dec : EqDecision BlockInfo.
Proof. solve_decision. Defined.

(** [BlockInfo::id] *)
Definition block_id (b : BlockInfo) : BlockNumHash := mkBlockNumHash (block_number b) (hash b).
(** [BlockInfo::default] *)
Definition default_block : BlockInfo := mkBlockInfo 0 0 0 0.

Definition is_parent_of (a b : BlockInfo) : bool :=
  (add64 (block_number a) 1 =? block_number b) && (hash a =? parent_hash b).

Record L2BlockInfo : Type := mkL2BlockInfo {
  block_info : BlockInfo;
  l1_origin : BlockNumHash;
  seq_num : Z;
}.
#[export] Instance L2BlockInfo_eq_dec : EqDecision L2BlockInfo.
Proof. solve_decision. Defined.

(** [ChainGenesis], as far as derivation reads it. *)
Record ChainGenesis : Type := mkChainGenesis {
  genesis_l1 : BlockNumHash;
  genesis_l2 : BlockNumHash;
  l2_time : Z;
}.

Record HardForkConfig : Type := mkHardForkConfig {
  regolith_time : option Z;
  canyon_time : option Z;
  delta_time : option Z;
  ecotone_time : option Z;
  fjord_time : option Z;
  granite_time : option Z;
  holocene_time : option Z;
  pectra_blob_schedule_time : option Z;
  isthmus_time : option Z;
  jovian_time : option Z;
  azul : option Z;
  beryl : option Z;
}.

(** [RollupConfig] without its L1 chain id and fee parameters. *)
Record RollupConfig : Type := mkRollupConfig {
  genesis : ChainGenesis;
  block_time : Z;
  cfg_max_sequencer_drift : Z;
  seq_window_size : Z;
  cfg_channel_timeout : Z;
  granite_channel_timeout : Z;
  hardforks : HardForkConfig;
  batch_inbox_address : Z;
  deposit_contract_address : Z;
  l1_system_config_address : Z;
  l2_chain_id : Z;
}.

Definition MAX_RLP_BYTES_PER_CHANNEL_BEDROCK : Z := 10000000.
Definition MAX_RLP_BYTES_PER_CHANNEL_FJORD : Z := 100000000.
Definition FJORD_MAX_SEQUENCER_DRIFT : Z := 1800.

Section config.
Variable cfg : RollupConfig.

(** [time.is_some_and(|t| timestamp >= t)] *)
Definition since (time : option Z) (ts : Z) : bool :=
  match time with Some t => ts >=? t | None => false end.

Definition is_jovian_active (ts : Z) : bool := since (jovian_time (hardforks cfg)) ts.
Definition is_isthmus_active (ts : Z) : bool := since (isthmus_time (hardforks cfg)) ts || is_jovian_active ts.
Definition is_holocene_active (ts : Z) : bool := since (holocene_time (hardforks cfg)) ts || is_isthmus_active ts.
Definition is_granite_active (ts : Z) : bool := since (granite_time (hardforks cfg)) ts || is_holocene_active ts.
Definition is_fjord_active (ts : Z) : bool := since (fjord_time (hardforks cfg)) ts || is_granite_active ts.
Definition is_ecotone_active (ts : Z) : bool := since (ecotone_time (hardforks cfg)) ts || is_fjord_active ts.
Definition is_delta_active (ts : Z) : bool := since (delta_time (hardforks cfg)) ts || is_ecotone_active ts.
Definition is_canyon_active (ts : Z) : bool := since (canyon_time (hardforks cfg)) ts || is_delta_active ts.
Definition is_regolith_active (ts : Z) : bool := since (regolith_time (hardforks cfg)) ts || is_canyon_active ts.
Definition is_pectra_blob_schedule_active (ts : Z) : bool := since (pectra_blob_schedule_time (hardforks cfg)) ts.
Definition is_base_azul_active (ts : Z) : bool := since (azul (hardforks cfg)) ts.
Definition is_beryl_active (ts : Z) : bool := since (beryl (hardforks cfg)) ts.

(** [is_first_<fork>_block], for the predicate of the fork. *)
Definition is_first_block (active : Z -> bool) (ts : Z) : bool :=
  active ts && negb (active (sat_sub ts (block_time cfg))).

Definition max_sequencer_drift (ts : Z) : Z :=
  if is_fjord_active ts then FJORD_MAX_SEQUENCER_DRIFT else cfg_max_sequencer_drift cfg.
Definition max_rlp_bytes_per_channel (ts : Z) : Z :=
  if is_fjord_active ts then MAX_RLP_BYTES_PER_CHANNEL_FJORD else MAX_RLP_BYTES_PER_CHANNEL_BEDROCK.
Definition channel_timeout (ts : Z) : Z :=
  if is_granite_active ts then granite_channel_timeout cfg else cfg_channel_timeout cfg.
(** Division by a zero [block_time] panics, which is [None]. *)
Definition block_number_from_timestamp (ts : Z) : option Z :=
  if block_time cfg =? 0 then None else Some (sat_sub ts (l2_time (genesis cfg)) / block_time cfg).

Lemma since_mono time ts ts' : ts <= ts' -> since time ts = true -> since time ts' = true.
Proof. unfold since. destruct time; [|done]. intros ? ?. zbool. rewrite Z.geb_leb. apply Z.leb_le. lia. Qed.

Lemma holocene_mono ts ts' : ts <= ts' -> is_holocene_active ts = true -> is_holocene_active ts' = true.
Proof.
  intros Hts. unfold is_holocene_active, is_isthmus_active, is_jovian_active. rewrite !orb_true_iff.
  naive_solver eauto using since_mono.
Qed.
End config.

Module RollupExample.
(** A chain on which every fork is active from the start. *)
Definition all_forks : RollupConfig :=
  let f := Some 0 in
  mkRollupConfig (mkChainGenesis (mkBlockNumHash 0 0) (mkBlockNumHash 0 0) 0) 2 600 3600 300 50
    (mkHardForkConfig f f f f f f f f f f f f) 5 6 7 8453.
End RollupExample.
