(* ===== verification/Channel.v ===== *)
(** Channels ([crates/consensus/protocol/src/channel.rs]): frames of one channel
    are collected in any order and read back once all are there. *)

From S2P Require Import Prelude Buffer Frames Rollup.

Inductive ChannelError : Type :=
| FrameIdMismatch
| ChannelClosed
| FrameNumberExists (n : Z)
| FrameBeyondEndFrame (n : Z).

Record Channel : Type := mkChannel {
  channel_id : list Z;
  open_block : BlockInfo;
  estimated_size : Z;
  closed : bool;
  highest_frame_number : Z;
  last_frame_number : Z;
  inputs : gmap Z Frame;
  highest_l1_inclusion_block : BlockInfo;
}.

(** [Channel::new] *)
Definition new_channel (id : list Z) (ob : BlockInfo) : Channel := mkChannel id ob 0 false 0 0 ∅ default_block.

Definition sub64 (a b : Z) : Z := wrap U64_MAX (a - b).

(** The sizes that [retain] subtracts, one by one. *)
Definition subtract_sizes (size : Z) (dropped : gmap Z Frame) : Z :=
  foldl (fun acc f => sub64 acc (frame_size f)) size (map_to_list dropped).*2.

(** The [is_last] branch of [add_frame]: close the channel and drop the frames
    from the last one on. *)
Definition close_at (n : Z) (c : Channel) : Channel :=
  if n <? highest_frame_number c
  then mkChannel (channel_id c) (open_block c)
         (subtract_sizes (estimated_size c) (filter (fun kf => ~ kf.1 < n) (inputs c))) true n n
         (filter (fun kf => kf.1 < n) (inputs c)) (highest_l1_inclusion_block c)
  else mkChannel (channel_id c) (open_block c) (estimated_size c) true (highest_frame_number c) n
         (inputs c) (highest_l1_inclusion_block c).

Definition add_frame (frame : Frame) (l1_inclusion_block : BlockInfo) : stm Channel ChannelError unit := fun c =>
  if negb (bool_decide (frame_id frame = channel_id c)) then (Err FrameIdMismatch, c)
  else if is_last frame && closed c then (Err ChannelClosed, c)
  else if bool_decide (is_Some (inputs c !! number frame)) then (Err (FrameNumberExists (number frame)), c)
  else if closed c && (number frame >=? last_frame_number c) then (Err (FrameBeyondEndFrame (number frame)), c)
  else
    let c := if is_last frame then close_at (number frame) c else c in
    let highest := if number frame >? highest_frame_number c then number frame else highest_frame_number c in
    let inclusion :=
      if block_number (highest_l1_inclusion_block c) <? block_number l1_inclusion_block
      then l1_inclusion_block else highest_l1_inclusion_block c in
    (Ok tt, mkChannel (channel_id c) (open_block c) (add64 (estimated_size c) (frame_size frame)) (closed c)
              highest (last_frame_number c) (<[number frame := frame]> (inputs c)) inclusion).

Definition channel_len (c : Channel) : Z := Z.of_nat (size (inputs c)).
Definition channel_is_empty (c : Channel) : bool := bool_decide (inputs c = ∅).
Definition open_block_number (c : Channel) : Z := block_number (open_block c).
Definition channel_size (c : Channel) : Z := estimated_size c.

(** [0..=n] *)
Definition upto (n : Z) : list Z := seqZ 0 (n + 1).

Definition is_ready (c : Channel) : bool :=
  if negb (closed c) then false
  else if negb (channel_len c =? add16 (last_frame_number c) 1) then false
  else forallb (fun i => bool_decide (is_Some (inputs c !! i))) (upto (last_frame_number c)).

(** [Channel::frame_data] *)
Definition channel_data (c : Channel) : option (list Z) :=
  if channel_is_empty c then None
  else @concat Z <$> mapM (fun i => frame_data <$> inputs c !! i) (upto (last_frame_number c)).

(** * Sizes *)

(** The buffered size: data and overhead of every frame. *)
Definition total (m : gmap Z Frame) : Z := map_fold (fun _ f acc => frame_size f + acc) 0 m.

Lemma total_empty : total ∅ = 0.
Proof. apply map_fold_empty. Qed.
Lemma total_insert k f m : m !! k = None -> total (<[k := f]> m) = frame_size f + total m.
Proof. intros. unfold total. rewrite map_fold_insert_L; [done|intros; lia|done]. Qed.

Lemma total_split (Q : Z * Frame -> Prop) `{!forall x, Decision (Q x)} m :
  total m = total (filter Q m) + total (filter (fun x => ~ Q x) m).
Proof.
  induction m as [|k f m Hk IH] using map_ind; [by rewrite !map_filter_empty, total_empty|].
  assert (forall (R : Z * Frame -> Prop) `{!forall x, Decision (R x)}, filter R m !! k = None) as HN
    by (intros; apply map_lookup_filter_None; by left).
  rewrite total_insert by done. destruct (decide (Q (k, f))) as [HQ|HQ].
  - rewrite (map_filter_insert_True Q), (map_filter_insert_not' (fun x => ~ Q x)), total_insert by (by auto || naive_solver).
    lia.
  - rewrite (map_filter_insert_True (fun x => ~ Q x)), (map_filter_insert_not' Q), total_insert by (by auto || naive_solver).
    lia.
Qed.

Lemma total_bound m b :
  0 <= b -> (forall k f, m !! k = Some f -> 0 <= frame_size f <= b) -> 0 <= total m <= Z.of_nat (size m) * b.
Proof.
  intros Hb. induction m as [|k f m Hk IH] using map_ind; intros Hm.
  { rewrite total_empty, map_size_empty. lia. }
  rewrite total_insert, map_size_insert_None by done.
  pose proof (Hm k f (lookup_insert_eq _ _ _)). enough (0 <= total m <= Z.of_nat (size m) * b) by nia.
  apply IH. intros k' f' Hk'. apply (Hm k'). rewrite lookup_insert_ne; [done|congruence].
Qed.

Lemma size_u16 (m : gmap Z Frame) :
  (forall k, is_Some (m !! k) -> fits U16_MAX k) -> Z.of_nat (size m) <= U16_MAX + 1.
Proof.
  intros Hm. rewrite <- size_dom.
  assert (size (dom m) <= size (list_to_set (C := gset Z) (seqZ 0 (U16_MAX + 1))))%nat as Hs.
  { apply subseteq_size. intros k Hk%elem_of_dom%Hm. apply elem_of_list_to_set, elem_of_seqZ. unfold fits in Hk. lia. }
  rewrite size_list_to_set, length_seqZ in Hs by apply NoDup_seqZ. unfold U16_MAX in *. lia.
Qed.

Lemma subtract_sizes_run s m : 0 <= s <= U64_MAX -> subtract_sizes s m = wrap U64_MAX (s - total m).
Proof.
  intros Hs. unfold subtract_sizes, total. rewrite map_fold_foldr. revert s Hs.
  induction (map_to_list m) as [|[k f] l IH]; intros s Hs; cbn.
  - unfold wrap. rewrite Z.sub_0_r, Z.mod_small; lia.
  - rewrite IH. 2: { unfold sub64, wrap. pose proof (Z.mod_pos_bound (s - frame_size f) (U64_MAX + 1)).
      unfold U64_MAX in *. lia. }
    unfold sub64, wrap. rewrite Zminus_mod_idemp_l. f_equal. lia.
Qed.

(** * The invariant of a channel *)

Record channel_ok (c : Channel) : Prop := {
  ok_frame : forall k f, inputs c !! k = Some f -> number f = k /\ frame_id f = channel_id c /\ frame_ok f;
  ok_high : 0 <= highest_frame_number c /\ forall k, is_Some (inputs c !! k) -> k <= highest_frame_number c;
  ok_closed : closed c = true -> highest_frame_number c = last_frame_number c /\
    exists f, inputs c !! last_frame_number c = Some f /\ is_last f = true;
  ok_last : forall k f, inputs c !! k = Some f -> is_last f = true -> closed c = true /\ k = last_frame_number c;
  ok_size : estimated_size c = total (inputs c);
}.

Lemma new_channel_ok id ob : channel_ok (new_channel id ob).
Proof.
  split; cbn.
  - intros k f Hf. by rewrite lookup_empty in Hf.
  - split; [lia|]. intros k [f Hf]. by rewrite lookup_empty in Hf.
  - done.
  - intros k f Hf. by rewrite lookup_empty in Hf.
  - by rewrite total_empty.
Qed.

Lemma frame_size_bound f : frame_ok f -> 0 <= frame_size f <= MAX_LEN + OVERHEAD.
Proof.
  intros (_ & _ & _ & _ & Hl). unfold frame_size, OVERHEAD, MAX_LEN, zlen in *. lia.
Qed.

(** The frames of a channel never exceed the width of its size counter. *)
Lemma total_fits m :
  (forall k f, m !! k = Some f -> frame_ok f /\ fits U16_MAX k) -> 0 <= total m <= 65536 * (MAX_LEN + OVERHEAD).
Proof.
  intros Hm. assert (0 <= MAX_LEN + OVERHEAD) as Hb by (unfold MAX_LEN, OVERHEAD; lia).
  destruct (total_bound m (MAX_LEN + OVERHEAD) Hb) as [H0 H1]; [intros k f Hf; by apply frame_size_bound, (Hm k f)|].
  pose proof (size_u16 m) as Hs. unfold U16_MAX in Hs at 2. split; [done|].
  etrans; [exact H1|]. apply Z.mul_le_mono_nonneg_r; [done|]. apply Hs. intros k [f Hf]. by apply (Hm k f).
Qed.

Lemma ok_fits c k f : channel_ok c -> inputs c !! k = Some f -> frame_ok f /\ fits U16_MAX k.
Proof. intros Hc Hf. destruct (ok_frame c Hc k f Hf) as (<- & _ & Hok). split; [done|]. by apply Hok. Qed.

(** The dropped frames of a closing frame are accounted for. *)
Lemma close_size c n :
  channel_ok c -> estimated_size (close_at n c) = total (inputs (close_at n c)).
Proof.
  intros Hc. pose proof (total_fits (inputs c) (fun k f => ok_fits c k f Hc)) as Ht. unfold MAX_LEN, OVERHEAD in Ht.
  unfold close_at. destruct (_ <? _); cbn; [|apply Hc]. rewrite (ok_size c Hc).
  rewrite subtract_sizes_run by (unfold U64_MAX; lia). rewrite (total_split (fun kf => kf.1 < n) (inputs c)) at 1.
  assert (forall m, (forall k f, m !! k = Some f -> inputs c !! k = Some f) -> 0 <= total m) as Hpos.
  { intros m Hm. assert (0 <= MAX_LEN + OVERHEAD) as Hb by (unfold MAX_LEN, OVERHEAD; lia).
    apply (total_bound m (MAX_LEN + OVERHEAD) Hb). intros k f Hk. apply frame_size_bound.
    by apply (ok_frame c Hc k f), Hm. }
  pose proof (total_split (fun kf => kf.1 < n) (inputs c)) as Hs. rewrite Hs in Ht.
  match type of Hs with _ = ?x + ?y => assert (0 <= x); [|assert (0 <= y)] end;
    [apply Hpos; intros k f Hk; by apply map_lookup_filter_Some in Hk as [Hk _]..|].
  unfold wrap, U64_MAX. rewrite Z.mod_small; lia.
Qed.

Lemma close_inputs c n k f :
  channel_ok c -> inputs c !! n = None ->
  inputs (close_at n c) !! k = Some f <-> inputs c !! k = Some f /\ k < n.
Proof.
  intros Hc Hn. unfold close_at. destruct (n <? highest_frame_number c) eqn:E; zbool; cbn.
  - by rewrite map_lookup_filter_Some.
  - split; [|by intros []]. intros Hk. split; [done|]. destruct (ok_high c Hc) as [_ Hh].
    specialize (Hh k (mk_is_Some _ _ Hk)). destruct (decide (k = n)) as [->|]; [congruence|lia].
Qed.

Lemma close_high c n : n = highest_frame_number (close_at n c) \/ (highest_frame_number (close_at n c) <= n).
Proof. unfold close_at. destruct (_ <? _) eqn:E; zbool; cbn; [by left|right; lia]. Qed.
Lemma close_fields c n :
  channel_id (close_at n c) = channel_id c /\ closed (close_at n c) = true /\ last_frame_number (close_at n c) = n.
Proof. unfold close_at. by destruct (_ <? _). Qed.

(** The frame is stored: the channel before the insertion and the new fields. *)
Definition stored (f : Frame) (c c' : Channel) : Prop :=
  let c1 := if is_last f then close_at (number f) c else c in
  channel_id c' = channel_id c1 /\ open_block c' = open_block c1 /\ closed c' = closed c1 /\ last_frame_number c' = last_frame_number c1 /\
  inputs c' = <[number f := f]> (inputs c1) /\
  highest_frame_number c' = Z.max (highest_frame_number c1) (number f) /\
  estimated_size c' = add64 (estimated_size c1) (frame_size f).

(** [add_frame], branch by branch. *)
Lemma add_frame_cases f b c :
  (exists e, add_frame f b c = (Err e, c) /\
     (frame_id f <> channel_id c \/ is_last f = true /\ closed c = true \/ is_Some (inputs c !! number f) \/
      closed c = true /\ last_frame_number c <= number f)) \/
  (frame_id f = channel_id c /\ (closed c = true -> is_last f = false /\ number f < last_frame_number c) /\
   inputs c !! number f = None /\ exists c', add_frame f b c = (Ok tt, c') /\ stored f c c').
Proof.
  unfold add_frame. case_bool_decide as Hid; cbn [negb]; [|left; eauto].
  destruct (is_last f && closed c) eqn:Hl; [zbool; left; eauto 8|].
  case_bool_decide as Hin; [left; eauto 8|]. apply eq_None_not_Some in Hin.
  destruct (closed c && (number f >=? last_frame_number c)) eqn:Hc; [zbool; left; eexists; split; [done|]; naive_solver lia|].
  right. split; [done|]. split.
  { intros Hcl. rewrite Hcl in *. rewrite andb_true_r in Hl. cbn in Hc. split; [done|]. rewrite Z.geb_leb in Hc. zbool. lia. }
  split; [done|]. eexists. split; [done|]. unfold stored. cbn. split_and!; try done.
  destruct (_ >? _) eqn:E; rewrite Z.gtb_ltb in E; zbool; lia.
Qed.

Lemma stored_ok f c c' :
  frame_ok f -> channel_ok c -> frame_id f = channel_id c ->
  (closed c = true -> is_last f = false /\ number f < last_frame_number c) -> inputs c !! number f = None ->
  stored f c c' -> channel_ok c'.
Proof.
  intros Hf Hc Hid Hcl Hin (Eid & _ & Ecl & Elast & Ein & Ehigh & Esize).
  set (c1 := if is_last f then close_at (number f) c else c) in *.
  assert (forall k g, inputs c1 !! k = Some g <-> inputs c !! k = Some g /\ (is_last f = true -> k < number f)) as H1.
  { intros k g. unfold c1. destruct (is_last f); [rewrite close_inputs by done|]; naive_solver. }
  assert (inputs c1 !! number f = None) as Hin1.
  { apply eq_None_not_Some. intros [g [Hg _]%H1]. congruence. }
  assert (channel_id c1 = channel_id c) as Hid1 by (unfold c1; destruct (is_last f); [apply close_fields|done]).
  assert (estimated_size c1 = total (inputs c1)) as Hs1 by (unfold c1; destruct (is_last f); [by apply close_size|apply Hc]).
  assert (0 <= number f) as Hn0 by (destruct Hf as (_ & _ & [? _] & _); done).
  destruct (ok_high c Hc) as [H0 Hh].
  assert (forall k g, inputs c' !! k = Some g -> (k = number f /\ g = f) \/ (k <> number f /\ inputs c1 !! k = Some g)) as Hcase.
  { intros k g. rewrite Ein. intros [[<- <-]|[? ?]]%lookup_insert_Some; [by left|by right]. }
  assert (forall k g, inputs c' !! k = Some g -> number g = k /\ frame_id g = channel_id c' /\ frame_ok g) as Hframes.
  { intros k g [[-> ->]|[_ [Hg _]%H1]]%Hcase; rewrite Eid, Hid1; [done|by apply (ok_frame c Hc k g)]. }
  split; [done|..].
  - split; [lia|]. intros k [g [[-> ->]|[_ [Hg Hk]%H1]]%Hcase]; rewrite Ehigh; [lia|].
    unfold c1. destruct (is_last f); [specialize (Hk eq_refl); lia|]. specialize (Hh k (mk_is_Some _ _ Hg)). lia.
  - rewrite Ecl, Ehigh, Elast, Ein. unfold c1. destruct (is_last f) eqn:Hl.
    + intros _. destruct (close_fields c (number f)) as (_ & _ & ->). rewrite lookup_insert_eq.
      pose proof (close_high c (number f)). split; [lia|eauto].
    + intros Hcc. destruct (Hcl Hcc) as [_ Hlt]. destruct (ok_closed c Hc Hcc) as [He (g & Hg & Hgl)].
      split; [lia|]. exists g. by rewrite lookup_insert_ne by lia.
  - intros k g Hg Hgl. rewrite Ecl, Elast. apply Hcase in Hg as [[-> ->]|[_ [Hg Hk]%H1]]; unfold c1.
    + rewrite Hgl. by destruct (close_fields c (number f)) as (_ & -> & ->).
    + destruct (ok_last c Hc k g Hg Hgl) as [Hcc ->]. destruct (Hcl Hcc) as [-> _]. done.
  - rewrite Esize, Ein, total_insert, Hs1 by done. pose proof (frame_size_bound f Hf).
    pose proof (total_fits (inputs c1)) as Ht. unfold MAX_LEN, OVERHEAD in *.
    rewrite add64_id; [lia|..]; try lia; [|unfold U64_MAX]; (enough (0 <= total (inputs c1) <= 65536 * (1000000 + 200)) by lia);
      apply Ht; intros k g [Hg _]%H1; by apply (ok_fits c).
Qed.

(** The state of a channel stays consistent whatever frames are added: it
    stores every frame under its own number and id, once the closing frame has
    arrived no frame lies beyond it and no other frame is marked last, and the
    size estimate is the exact sum of the buffered frames, so its unsigned
    subtraction never wraps. *)
Theorem channel_invariant f b c : frame_ok f -> channel_ok c -> channel_ok (add_frame f b c).2.
Proof.
  intros Hf Hc. destruct (add_frame_cases f b c) as [(e & -> & _)|(Hid & Hcl & Hin & c' & -> & Hs)]; [done|].
  by eapply stored_ok.
Qed.

(** * Reassembly *)

(** The frames a channel is split into: numbered from zero, the last one marked. *)
Definition split_channel (id : list Z) (fs : list Frame) : Prop :=
  forall i f, fs !! i = Some f ->
    frame_id f = id /\ number f = Z.of_nat i /\ is_last f = (S i =? length fs)%nat /\ frame_ok f.

(** The channel after some of the frames, in any order. *)
Definition collected (id : list Z) (ob : BlockInfo) (n : nat) (got : list Frame) (c : Channel) : Prop :=
  channel_id c = id /\ open_block c = ob /\ inputs c = list_to_map ((fun f => (number f, f)) <$> got) /\
  (closed c = true <-> exists f, f ∈ got /\ is_last f = true) /\
  (closed c = true -> last_frame_number c = Z.of_nat n - 1) /\ highest_frame_number c <= Z.of_nat n - 1.

Section reassembly.
Context (id : list Z) (fs : list Frame) (Hfs : split_channel id fs).

Lemma split_number f : f ∈ fs ->
  frame_id f = id /\ fs !! Z.to_nat (number f) = Some f /\ 0 <= number f < Z.of_nat (length fs) /\
  (is_last f = true <-> number f = Z.of_nat (length fs) - 1) /\ frame_ok f.
Proof using Hfs.
  intros [i Hi]%list_elem_of_lookup. destruct (Hfs i f Hi) as (Hid & Hn & Hl & Hok). apply lookup_lt_Some in Hi as Hlt.
  rewrite Hn, Nat2Z.id, Hl, Nat.eqb_eq. split_and!; try done; lia.
Qed.

Lemma split_inj f g : f ∈ fs -> g ∈ fs -> number f = number g -> f = g.
Proof using Hfs. intros (_ & Hf & _)%split_number (_ & Hg & _)%split_number He. rewrite He in Hf. congruence. Qed.

Lemma got_keys got : (forall f, f ∈ got -> f ∈ fs) -> NoDup got -> NoDup ((fun f => (number f, f)) <$> got).*1.
Proof using Hfs.
  intros Hsub Hnd. rewrite <- list_fmap_compose. cbn. apply NoDup_fmap_2_strong; [|done].
  intros x y Hx Hy. cbn. intros He. apply split_inj; auto.
Qed.

Lemma got_lookup got k :
  (forall f, f ∈ got -> f ∈ fs) -> NoDup got ->
  forall f, list_to_map (M := gmap Z Frame) ((fun f => (number f, f)) <$> got) !! k = Some f <-> f ∈ got /\ number f = k.
Proof using Hfs.
  intros Hsub Hnd f. rewrite <- elem_of_list_to_map by (by apply got_keys).
  rewrite list_elem_of_fmap. split; [intros (g & [= -> ->] & Hg); done|]. intros [Hf <-]. by exists f.
Qed.

Lemma collect_one ob b got c f :
  (forall g, g ∈ f :: got -> g ∈ fs) -> NoDup (f :: got) -> collected id ob (length fs) got c ->
  exists c', add_frame f b c = (Ok tt, c') /\ collected id ob (length fs) (f :: got) c'.
Proof using Hfs.
  intros Hsub [Hf Hnd]%NoDup_cons (Eid & Eob & Ein & Ecl & Elast & Ehigh).
  assert (f ∈ fs) as Hffs by set_solver. destruct (split_number f Hffs) as (Hid & _ & Hn & Hl & _).
  assert (inputs c !! number f = None) as Hnone.
  { rewrite Ein. apply eq_None_not_Some. intros [g Hg]. apply got_lookup in Hg as [Hg He]; [|set_solver|done].
    apply Hf. replace f with g; [done|]. apply split_inj; [set_solver|done..]. }
  assert (closed c = true -> exists g, g ∈ got /\ number g = Z.of_nat (length fs) - 1 /\ number g <> number f) as Hcl.
  { intros [g [Hg Hgl]]%Ecl. exists g. split; [done|]. assert (g ∈ fs) as Hgf by set_solver.
    destruct (split_number g Hgf) as (_ & _ & _ & Hgl' & _). split; [by apply Hgl'|]. intros He. apply Hf.
    replace f with g; [done|]. by apply split_inj. }
  destruct (add_frame_cases f b c) as [(e & _ & [He|[[Hfl Hcc]|[[g Hg]|[Hcc Hle]]]])|(_ & _ & _ & c' & Hadd & Hs)].
  - congruence.
  - destruct (Hcl Hcc) as (g & _ & Hg & Hne). apply Hl in Hfl. congruence.
  - congruence.
  - destruct (Hcl Hcc) as (g & _ & Hg & Hne). rewrite (Elast Hcc) in Hle. lia.
  - exists c'. split; [done|]. destruct Hs as (Sid & Sob & Scl & Slast & Sin & Shigh & _).
    unfold close_at in *. destruct (is_last f) eqn:Hfl.
    + replace (number f <? highest_frame_number c) with false in * by (symmetry; apply Z.ltb_ge; rewrite (proj1 Hl eq_refl); lia).
      cbn in *. split_and!; try congruence.
      * rewrite Sin. cbn. by rewrite Ein.
      * rewrite Scl. split; [intros _; exists f; split; [set_solver|done]|done].
      * intros _. rewrite Slast. by apply Hl.
      * lia.
    + split_and!; try congruence.
      * rewrite Sin. cbn. by rewrite Ein.
      * rewrite Scl, Ecl. split; [intros (g & ? & ?); exists g; split; [set_solver|done]|].
        intros (g & [->|Hg]%elem_of_cons & Hgl); [congruence|eauto].
      * rewrite Scl, Slast. done.
      * lia.
Qed.

(** Frames with the L1 blocks they were included in. *)
Definition ingest (l : list (Frame * BlockInfo)) : stm Channel ChannelError unit :=
  for_each l (fun fb => add_frame fb.1 fb.2).

Lemma collect_all ob l got c :
  (forall g, g ∈ l.*1 ++ got -> g ∈ fs) -> NoDup (l.*1 ++ got) -> collected id ob (length fs) got c ->
  exists c' got', ingest l c = (Ok tt, c') /\ got' ≡ₚ l.*1 ++ got /\ collected id ob (length fs) got' c'.
Proof using Hfs.
  revert got c. induction l as [|[f b] l IH]; intros got c Hsub Hnd Hc; [by exists c, got|]. cbn in Hsub, Hnd.
  assert (f :: l.*1 ++ got ≡ₚ l.*1 ++ f :: got) as Hp by apply Permutation_middle.
  change (NoDup (f :: l.*1 ++ got)) in Hnd. rewrite Hp in Hnd.
  destruct (collect_one ob b got c f) as (c1 & Ha & Hc1); [set_solver|by apply NoDup_app in Hnd as (_ & _ & ?)|done|].
  destruct (IH (f :: got) c1) as (c' & got' & Hi & Hg & Hc'); [set_solver|done|done|].
  exists c', got'. split; [|split; [|done]].
  - unfold ingest in *. cbn [for_each fst snd]. by rewrite (bind_run _ _ _ _ _ Ha).
  - rewrite Hg. cbn. by rewrite Hp.
Qed.

Lemma mapM_inputs (m : gmap Z Frame) :
  (forall i, (i < length fs)%nat -> m !! Z.of_nat i = fs !! i) ->
  mapM (fun i => frame_data <$> m !! i) (seqZ 0 (Z.of_nat (length fs))) = Some (frame_data <$> fs).
Proof using.
  intros Hm. apply mapM_Some, Forall2_same_length_lookup_2.
  - rewrite length_seqZ, length_fmap. lia.
  - intros i x y [-> Hi]%lookup_seqZ (f & -> & Hf)%list_lookup_fmap_Some.
    rewrite Z.add_0_l, Hm by lia. by rewrite Hf.
Qed.
End reassembly.

(** All frames are there. *)
Lemma collected_full id ob fs got c :
  split_channel id fs -> NoDup fs -> fs <> [] -> Z.of_nat (length fs) <= 65536 -> got ≡ₚ fs ->
  collected id ob (length fs) got c ->
  channel_data c = Some (concat (frame_data <$> fs)) /\ is_ready c = negb (Z.of_nat (length fs) =? 65536).
Proof.
  intros Hfs Hnd Hne Hlen Hg (_ & _ & Ein & Ecl & Elast & _).
  assert (forall i, (i < length fs)%nat -> inputs c !! Z.of_nat i = fs !! i) as Hlook.
  { intros i Hil. destruct (lookup_lt_is_Some_2 fs i Hil) as [f Hf]. rewrite Ein, Hf. apply (got_lookup id fs Hfs).
    - intros g. by rewrite Hg.
    - by rewrite Hg.
    - rewrite Hg. split; [by eapply list_elem_of_lookup_2|]. by apply (Hfs i f Hf). }
  destruct (last fs) as [z|] eqn:Hz; [|by apply last_None in Hz].
  assert (closed c = true) as Hcl.
  { apply Ecl. exists z. rewrite Hg. split; [by apply last_Some_elem_of|]. rewrite last_lookup in Hz.
    destruct (Hfs _ z Hz) as (_ & _ & -> & _). apply Nat.eqb_eq. destruct fs; [done|cbn; lia]. }
  assert (channel_len c = Z.of_nat (length fs)) as Hsize.
  { unfold channel_len. rewrite Ein, map_size_list_to_map, length_fmap, Hg; [done|].
    apply (got_keys id fs Hfs); [|by rewrite Hg]. intros g. by rewrite Hg. }
  assert (upto (last_frame_number c) = seqZ 0 (Z.of_nat (length fs))) as Hup.
  { unfold upto. rewrite (Elast Hcl). f_equal. lia. }
  assert (0 < length fs)%nat as Hpos by (destruct fs; [done|cbn; lia]). split.
  - unfold channel_data, channel_is_empty. rewrite bool_decide_false.
    + rewrite Hup, (mapM_inputs fs) by done. done.
    + intros He. unfold channel_len in Hsize. rewrite He, map_size_empty in Hsize. lia.
  - unfold is_ready. rewrite Hcl, Hsize, Hup, (Elast Hcl). cbn [negb]. unfold add16, wrap, U16_MAX.
    replace (Z.of_nat (length fs) - 1 + 1) with (Z.of_nat (length fs)) by lia.
    destruct (Z.of_nat (length fs) =? 65536) eqn:E; zbool; cbn [negb].
    + rewrite E. done.
    + rewrite Z.mod_small, Z.eqb_refl by lia. cbn [negb]. apply forallb_forall. intros i Hr%list_elem_of_In%elem_of_seqZ.
      apply bool_decide_eq_true. replace i with (Z.of_nat (Z.to_nat i)) by lia. rewrite Hlook by lia.
      apply lookup_lt_is_Some_2. lia.
Qed.

(** C34: A channel is reassembled whatever the order of its frames. If the frames it
    was split into are added in any order, each with its inclusion block, all are
    accepted, the data read back is the concatenation of the frames in the order
    of their numbers, and the channel is ready - except that a channel of 65536
    frames, the most that frame numbers allow, is never ready, because the
    frame count is computed in sixteen bits. *)
Theorem channel_reassembles id ob fs l :
  split_channel id fs -> fs <> [] -> Z.of_nat (length fs) <= 65536 -> l.*1 ≡ₚ fs ->
  exists c, ingest l (new_channel id ob) = (Ok tt, c) /\
    channel_data c = Some (concat (frame_data <$> fs)) /\
    is_ready c = negb (Z.of_nat (length fs) =? 65536).
Proof.
  intros Hfs Hne Hlen Hp.
  assert (NoDup fs) as Hnd.
  { apply NoDup_alt. intros i j f Hi Hj. destruct (Hfs i f Hi) as (_ & Hni & _), (Hfs j f Hj) as (_ & Hnj & _). lia. }
  destruct (collect_all id fs Hfs ob l [] (new_channel id ob)) as (c & got & Hi & Hg & Hc).
  { intros g. rewrite app_nil_r, Hp. done. }
  { by rewrite app_nil_r, Hp. }
  { split_and!; try done; cbn; [split; [done|]; by intros (f & ?%elem_of_nil & _)|]. destruct fs; [done|cbn; lia]. }
  rewrite app_nil_r, Hp in Hg. exists c. split; [done|]. by eapply collected_full.
Qed.

Module ChannelExample.
Definition id : list Z := replicate 16 7.
Definition f0 : Frame := mkFrame id 0 [1; 2] false.
Definition f1 : Frame := mkFrame id 1 [3] true.

Lemma frames_split : split_channel id [f0; f1].
Proof. intros [|[|i]] f Hf; [injection Hf as <-..|done]; (split_and!; [done..|by_eval]). Qed.

Lemma channel_invariant_witness : channel_ok (add_frame f1 default_block (new_channel id default_block)).2.
Proof. apply channel_invariant; [by_eval|apply new_channel_ok]. Defined.

(** The closing frame arrives first. *)
Lemma channel_reassembles_witness :
  exists c, ingest [(f1, default_block); (f0, default_block)] (new_channel id default_block) = (Ok tt, c) /\
    channel_data c = Some [1; 2; 3] /\ is_ready c = true.
Proof.
  apply (channel_reassembles id default_block [f0; f1] [(f1, default_block); (f0, default_block)]).
  - exact frames_split.
  - done.
  - done.
  - apply Permutation_swap.
Defined.
End ChannelExample.
