(* ===== verification/SystemConfig.v ===== *)
(** The L1 system configuration ([crates/common/genesis/src/system] and
    [updates]): decoding of [ConfigUpdate] logs and their application to the
    configuration that derivation uses.

    ABI decoding of single words is code of the [alloy] crates and is the class
    [SolWords]; its law says that a decoder accepts exactly the 32-byte words
    whose value fits the type, which is what [abi_decode_validate] documents. *)

From S2P Require Import Prelude Buffer Rollup.

Class SolWords := {
  decode_uint16 : list Z -> option Z;
  decode_uint64 : list Z -> option Z;
  decode_uint256 : list Z -> option Z;
  decode_address : list Z -> option Z;
}.

(** [decode] accepts exactly the words with a value up to [m]. *)
Definition decodes_upto (decode : list Z -> option Z) (m : Z) : Prop :=
  forall w, length w = 32%nat -> bytes_ok w ->
    decode w = if be_val w <=? m then Some (be_val w) else None.

Class SolWordsLaws `{SolWords} := {
  uint16_law : decodes_upto decode_uint16 U16_MAX;
  uint64_law : decodes_upto decode_uint64 U64_MAX;
  uint256_law : decodes_upto decode_uint256 U256_MAX;
  address_law : decodes_upto decode_address (2 ^ 160 - 1);
}.

(** * Data *)

Record SystemConfig : Type := mkSystemConfig {
  batcher_address : Z;
  overhead : Z;
  scalar : Z;
  gas_limit : Z;
  base_fee_scalar : option Z;
  blob_base_fee_scalar : option Z;
  eip1559_denominator : option Z;
  eip1559_elasticity : option Z;
  operator_fee_scalar : option Z;
  operator_fee_constant : option Z;
  min_base_fee : option Z;
  da_footprint_gas_scalar : option Z;
}.

Inductive SystemConfigUpdateKind : Type :=
| KBatcher | KGasConfig | KGasLimit | KUnsafeBlockSigner
| KEip1559 | KOperatorFee | KMinBaseFee | KDaFootprintGasScalar.

(** [TryFrom<u64>], derived from the discriminants. *)
Definition kind_of_u64 (ty : Z) : option SystemConfigUpdateKind :=
  if ty =? 0 then Some KBatcher else if ty =? 1 then Some KGasConfig
  else if ty =? 2 then Some KGasLimit else if ty =? 3 then Some KUnsafeBlockSigner
  else if ty =? 4 then Some KEip1559 else if ty =? 5 then Some KOperatorFee
  else if ty =? 6 then Some KMinBaseFee else if ty =? 7 then Some KDaFootprintGasScalar
  else None.

Inductive SystemConfigUpdate : Type :=
| BatcherUpdate (batcher_address : Z)
| GasConfigUpdate (scalar overhead : option Z)
| GasLimitUpdate (gas_limit : Z)
| UnsafeBlockSignerUpdate (unsafe_block_signer : Z)
| Eip1559Update (denominator elasticity : Z)
| OperatorFeeUpdate (fee_scalar fee_constant : Z)
| MinBaseFeeUpdate (min_base_fee : Z)
| DaFootprintGasScalarUpdate (gas_scalar : Z).

(** [SystemConfigUpdate::kind] *)
Definition update_kind (u : SystemConfigUpdate) : SystemConfigUpdateKind :=
  match u with
  | BatcherUpdate _ => KBatcher
  | GasConfigUpdate _ _ => KGasConfig
  | GasLimitUpdate _ => KGasLimit
  | UnsafeBlockSignerUpdate _ => KUnsafeBlockSigner
  | Eip1559Update _ _ => KEip1559
  | OperatorFeeUpdate _ _ => KOperatorFee
  | MinBaseFeeUpdate _ => KMinBaseFee
  | DaFootprintGasScalarUpdate _ => KDaFootprintGasScalar
  end.

(** The errors of the update kinds have the same cases; the last one stands for
    the failure to decode the value itself. *)
Inductive UpdateDataError : Type :=
| InvalidDataLen (n : Z)
| PointerDecodingError
| InvalidDataPointer (p : Z)
| LengthDecodingError
| InvalidDataLength (n : Z)
| OverheadDecodingError
| ScalarDecodingError
| ValueDecodingError.

Inductive LogProcessingError : Type :=
| InvalidTopicLen (n : Z)
| InvalidTopic
| UnsupportedVersion (v : Z)
| UpdateTypeDecodingError
| InvalidSystemConfigUpdateType (ty : Z).

Inductive SystemConfigUpdateError : Type :=
| LogProcessing (e : LogProcessingError)
| UpdateData (k : SystemConfigUpdateKind) (e : UpdateDataError).

(** [alloy_primitives::Log]; topics are 256-bit words. *)
Record Log : Type := mkLog { log_address : Z; topics : list Z; log_data : list Z }.
(** [Receipt]: its status ([Eip658Value::Eip658(false)] is a failed call) and logs. *)
Record Receipt : Type := mkReceipt { status_failed : bool; logs : list Log }.

Definition TOPIC : Z := 0x1d2b0bda21d56b8bd12d4f94ebacffdfb35f5e226f84b461103bb8beab6353be.
Definition EVENT_VERSION_0 : Z := 0.
Definition DEFAULT_DA_FOOTPRINT_GAS_SCALAR : Z := 400.

(** * Applying an update *)

Definition apply_update (u : SystemConfigUpdate) (c : SystemConfig) : SystemConfig :=
  let '(mkSystemConfig ba oh sc gl bfs bbfs den ela ofs ofc mbf dfs) := c in
  match u with
  | BatcherUpdate a => mkSystemConfig a oh sc gl bfs bbfs den ela ofs ofc mbf dfs
  | GasConfigUpdate s o =>
      mkSystemConfig ba (default oh o) (default sc s) gl bfs bbfs den ela ofs ofc mbf dfs
  | GasLimitUpdate g => mkSystemConfig ba oh sc g bfs bbfs den ela ofs ofc mbf dfs
  | UnsafeBlockSignerUpdate _ => c
  | Eip1559Update d e => mkSystemConfig ba oh sc gl bfs bbfs (Some d) (Some e) ofs ofc mbf dfs
  | OperatorFeeUpdate s k => mkSystemConfig ba oh sc gl bfs bbfs den ela (Some s) (Some k) mbf dfs
  | MinBaseFeeUpdate m => mkSystemConfig ba oh sc gl bfs bbfs den ela ofs ofc (Some m) dfs
  | DaFootprintGasScalarUpdate g =>
      let g := if g =? 0 then DEFAULT_DA_FOOTPRINT_GAS_SCALAR else g in
      mkSystemConfig ba oh sc gl bfs bbfs den ela ofs ofc mbf (Some g)
  end.

(** [RollupConfig::check_ecotone_l1_system_config_scalar] *)
Definition check_ecotone_l1_system_config_scalar (s : list Z) : bool :=
  let version_byte := nth 0 s 0 in
  if version_byte =? 0 then bool_decide (take 27 (drop 1 s) = replicate 27 0)
  else if version_byte =? 1 then bool_decide (take 23 (drop 1 s) = replicate 23 0)
  else false.

(** * Decoding *)

Section decoding.
Context `{SolWords}.

Abbreviation dec := (result UpdateDataError).
(** [let Ok(x) = decoded else { return Err(e) }] *)
Definition or_else {A} (o : option A) (e : UpdateDataError) : dec A :=
  match o with Some a => Ok a | None => Err e end.
Definition range (data : list Z) (a b : nat) : list Z := take (b - a) (drop a data).

(** [UpdateDataValidator::validate] followed by [payload]; the three decoders
    that do not use it make the same checks in the same order. *)
Definition validate (len : Z) (data : list Z) : dec (list Z) :=
  if negb (zlen data =? 64 + len) then Err (InvalidDataLen (zlen data))
  else
    pointer ← or_else (decode_uint64 (range data 0 32)) PointerDecodingError;
    if negb (pointer =? 32) then Err (InvalidDataPointer pointer)
    else
      length ← or_else (decode_uint64 (range data 32 64)) LengthDecodingError;
      if negb (length =? len) then Err (InvalidDataLength length) else Ok (drop 64 data).

Definition batcher_update (data : list Z) : dec SystemConfigUpdate :=
  payload ← validate 32 data;
  a ← or_else (decode_address payload) ValueDecodingError;
  Ok (BatcherUpdate a).

Definition unsafe_block_signer_update (data : list Z) : dec SystemConfigUpdate :=
  payload ← validate 32 data;
  a ← or_else (decode_address payload) ValueDecodingError;
  Ok (UnsafeBlockSignerUpdate a).

Definition gas_config_update (ecotone_active : bool) (data : list Z) : dec SystemConfigUpdate :=
  _ ← validate 64 data;
  oh ← or_else (decode_uint256 (range data 64 96)) OverheadDecodingError;
  sc ← or_else (decode_uint256 (drop 96 data)) ScalarDecodingError;
  if ecotone_active && negb (check_ecotone_l1_system_config_scalar (be_bytes 32 sc))
  then Ok (GasConfigUpdate None None)
  else Ok (GasConfigUpdate (Some sc) (Some (if ecotone_active then 0 else oh))).

Definition gas_limit_update (data : list Z) : dec SystemConfigUpdate :=
  payload ← validate 32 data;
  g ← or_else (decode_uint256 payload) ValueDecodingError;
  if g >? U64_MAX then Err ValueDecodingError else Ok (GasLimitUpdate g).

Definition eip1559_update (data : list Z) : dec SystemConfigUpdate :=
  payload ← validate 32 data;
  p ← or_else (decode_uint64 payload) ValueDecodingError;
  Ok (Eip1559Update (wrap U32_MAX (Z.shiftr p 32)) (wrap U32_MAX p)).

Definition operator_fee_update (data : list Z) : dec SystemConfigUpdate :=
  payload ← validate 32 data;
  Ok (OperatorFeeUpdate (be_val (range payload 20 24)) (be_val (range payload 24 32))).

Definition min_base_fee_update (data : list Z) : dec SystemConfigUpdate :=
  payload ← validate 32 data;
  m ← or_else (decode_uint64 payload) ValueDecodingError;
  Ok (MinBaseFeeUpdate m).

Definition da_footprint_gas_scalar_update (data : list Z) : dec SystemConfigUpdate :=
  payload ← validate 32 data;
  g ← or_else (decode_uint16 payload) ValueDecodingError;
  Ok (DaFootprintGasScalarUpdate g).

Definition try_from (ecotone_active : bool) (k : SystemConfigUpdateKind) (data : list Z) : dec SystemConfigUpdate :=
  match k with
  | KBatcher => batcher_update data
  | KGasConfig => gas_config_update ecotone_active data
  | KGasLimit => gas_limit_update data
  | KUnsafeBlockSigner => unsafe_block_signer_update data
  | KEip1559 => eip1559_update data
  | KOperatorFee => operator_fee_update data
  | KMinBaseFee => min_base_fee_update data
  | KDaFootprintGasScalar => da_footprint_gas_scalar_update data
  end.

(** [SystemConfigLog::update_type]: the low eight bytes of the third topic. *)
Definition update_type (l : Log) : result SystemConfigUpdateError SystemConfigUpdateKind :=
  match topics l with
  | _ :: _ :: topic :: _ =>
      let ty := topic mod 2 ^ 64 in
      match kind_of_u64 ty with
      | Some k => Ok k
      | None => Err (LogProcessing (InvalidSystemConfigUpdateType ty))
      end
  | ts => Err (LogProcessing (InvalidTopicLen (zlen ts)))
  end.

(** [SystemConfigLog::build], with [validate_topic] and [validate_version]. *)
Definition build (l : Log) (ecotone_active : bool) : result SystemConfigUpdateError SystemConfigUpdate :=
  if zlen (topics l) <? 3 then Err (LogProcessing (InvalidTopicLen (zlen (topics l))))
  else if negb (nth 0 (topics l) 0 =? TOPIC) then Err (LogProcessing InvalidTopic)
  else if negb (nth 1 (topics l) 0 =? EVENT_VERSION_0)
  then Err (LogProcessing (UnsupportedVersion (nth 1 (topics l) 0)))
  else
    k ← update_type l;
    match try_from ecotone_active k (log_data l) with
    | Ok u => Ok u
    | Err e => Err (UpdateData k e)
    end.

Definition process_config_update_log (l : Log) (ecotone_active : bool)
    : stm SystemConfig SystemConfigUpdateError SystemConfigUpdateKind :=
  u ← reads (fun _ => build l ecotone_active);
  modify (apply_update u) ;;
  mret (update_kind u).

(** The logs of a block that are processed. *)
Definition config_logs (receipts : list Receipt) (l1_system_config_address : Z) : list Log :=
  r ← receipts;
  if status_failed r then []
  else filter (fun l => log_address l = l1_system_config_address /\ head (topics l) = Some TOPIC) (logs r).

Fixpoint process_logs (ls : list Log) (ecotone_active : bool) (c : SystemConfig)
    : list SystemConfigUpdateKind * list SystemConfigUpdateError * SystemConfig :=
  match ls with
  | [] => ([], [], c)
  | l :: ls =>
      let '(r, c) := process_config_update_log l ecotone_active c in
      let '(updates, errors, c) := process_logs ls ecotone_active c in
      match r with
      | Ok k => (k :: updates, errors, c)
      | Err e => (updates, e :: errors, c)
      end
  end.

Definition update_with_receipts (receipts : list Receipt) (addr : Z) (ecotone_active : bool) (c : SystemConfig) :=
  process_logs (config_logs receipts addr) ecotone_active c.
End decoding.

(** [SystemConfig::eip_1559_params]; the eight bytes of a [B64]. *)
Definition eip_1559_params (c : SystemConfig) (cfg : RollupConfig) (parent_ts next_ts : Z) : option (list Z) :=
  let is_holocene := is_holocene_active cfg next_ts in
  if is_holocene && negb (is_holocene_active cfg parent_ts) then Some (replicate 8 0)
  else if is_holocene
  then Some (be_bytes 4 (default 0 (eip1559_denominator c)) ++ be_bytes 4 (default 0 (eip1559_elasticity c)))
  else None.

(** * What the contract emits and what it means *)

(** The [ConfigUpdate] events of the L1 system config contract. *)
Inductive ConfigEvent : Type :=
| EvBatcher (a : Z)
| EvGasConfig (oh sc : Z)
| EvGasLimit (g : Z)
| EvUnsafeBlockSigner (a : Z)
| EvEip1559 (denominator elasticity : Z)
| EvOperatorFee (fee_scalar fee_constant : Z)
| EvMinBaseFee (m : Z)
| EvDaFootprintGasScalar (g : Z).

Definition event_ok (ev : ConfigEvent) : Prop :=
  match ev with
  | EvBatcher a | EvUnsafeBlockSigner a => fits (2 ^ 160 - 1) a
  | EvGasConfig oh sc => fits U256_MAX oh /\ fits U256_MAX sc
  | EvGasLimit g => fits U64_MAX g
  | EvEip1559 d e => fits U32_MAX d /\ fits U32_MAX e
  | EvOperatorFee s k => fits U32_MAX s /\ fits U64_MAX k
  | EvMinBaseFee m => fits U64_MAX m
  | EvDaFootprintGasScalar g => fits U16_MAX g
  end.

Definition event_type (ev : ConfigEvent) : Z :=
  match ev with
  | EvBatcher _ => 0 | EvGasConfig _ _ => 1 | EvGasLimit _ => 2 | EvUnsafeBlockSigner _ => 3
  | EvEip1559 _ _ => 4 | EvOperatorFee _ _ => 5 | EvMinBaseFee _ => 6 | EvDaFootprintGasScalar _ => 7
  end.

(** The words the event carries; packed values as the contract packs them. *)
Definition event_words (ev : ConfigEvent) : list Z :=
  match ev with
  | EvBatcher a | EvUnsafeBlockSigner a => [a]
  | EvGasConfig oh sc => [oh; sc]
  | EvGasLimit g => [g]
  | EvEip1559 d e => [d * 2 ^ 32 + e]
  | EvOperatorFee s k => [s * 2 ^ 64 + k]
  | EvMinBaseFee m => [m]
  | EvDaFootprintGasScalar g => [g]
  end.

Definition word (v : Z) : list Z := be_bytes 32 v.

(** Solidity's encoding of the event: offset, length and content of [data]. *)
Definition event_log (addr : Z) (ev : ConfigEvent) : Log :=
  mkLog addr [TOPIC; EVENT_VERSION_0; event_type ev]
    (word 32 ++ word (32 * zlen (event_words ev)) ++ concat (word <$> event_words ev)).

(** The update an event stands for. From Ecotone on, the overhead is gone and a
    scalar of an unknown format is ignored. *)
Definition meaning (ecotone_active : bool) (ev : ConfigEvent) : SystemConfigUpdate :=
  match ev with
  | EvBatcher a => BatcherUpdate a
  | EvGasConfig oh sc =>
      if ecotone_active then
        if check_ecotone_l1_system_config_scalar (word sc) then GasConfigUpdate (Some sc) (Some 0)
        else GasConfigUpdate None None
      else GasConfigUpdate (Some sc) (Some oh)
  | EvGasLimit g => GasLimitUpdate g
  | EvUnsafeBlockSigner a => UnsafeBlockSignerUpdate a
  | EvEip1559 d e => Eip1559Update d e
  | EvOperatorFee s k => OperatorFeeUpdate s k
  | EvMinBaseFee m => MinBaseFeeUpdate m
  | EvDaFootprintGasScalar g => DaFootprintGasScalarUpdate g
  end.

Lemma length_word v : length (word v) = 32%nat.
Proof. apply length_be_bytes. Qed.
Lemma be_val_word v : fits U256_MAX v -> be_val (word v) = v.
Proof. unfold fits, U256_MAX. intros. apply be_val_be_bytes. lia. Qed.

Lemma be_val_be_bytes_mod n v : be_val (be_bytes n v) = v mod 256 ^ Z.of_nat n.
Proof.
  revert v. induction n as [|n IH]; intros v; [by rewrite Z.mod_1_r|].
  cbn [be_bytes]. rewrite be_val_snoc, IH, Nat2Z.inj_succ, Z.pow_succ_r by lia.
  rewrite Z.rem_mul_r by lia. lia.
Qed.

Section laws.
Context `{SolWordsLaws}.

Lemma decode_word (decode : list Z -> option Z) m v :
  decodes_upto decode m -> m <= U256_MAX -> fits m v -> decode (word v) = Some v.
Proof.
  intros Hd Hm Hv. assert (fits U256_MAX v) by (unfold fits in *; lia).
  rewrite Hd by (apply length_word || apply be_bytes_ok). rewrite be_val_word by done.
  unfold fits in Hv. by guard_true.
Qed.
Lemma decode_uint64_word v : fits U64_MAX v -> decode_uint64 (word v) = Some v.
Proof. apply decode_word; [apply uint64_law|]. unfold U64_MAX, U256_MAX. lia. Qed.

Lemma range_app_l (l r : list Z) n : length l = n -> range (l ++ r) 0 n = l.
Proof. intros <-. unfold range. rewrite drop_0, Nat.sub_0_r. by rewrite take_app_length. Qed.
Lemma range_middle (l m r : list Z) a b :
  length l = a -> (a + length m)%nat = b -> range (l ++ m ++ r) a b = m.
Proof.
  intros <- <-. unfold range. rewrite drop_app_length.
  by replace (length l + length m - length l)%nat with (length m) by lia; rewrite take_app_length.
Qed.

(** The decoders see the content of the event. *)
Lemma validate_event len payload :
  zlen payload = len -> fits U64_MAX len -> validate len (word 32 ++ word len ++ payload) = Ok payload.
Proof.
  intros Hl Hf. unfold validate. rewrite !zlen_app. unfold zlen at 1 2. rewrite !length_word.
  replace (_ =? 64 + len) with true by (symmetry; apply Z.eqb_eq; lia). cbn [negb].
  rewrite range_app_l by apply length_word. rewrite decode_uint64_word by (unfold fits, U64_MAX; lia).
  cbn [mbind result_bind or_else negb Z.eqb Pos.eqb].
  rewrite (range_middle (word 32) (word len) payload) by (rewrite !length_word; done).
  rewrite decode_uint64_word by done. cbn [mbind result_bind or_else]. rewrite Z.eqb_refl. cbn [negb].
  by rewrite (assoc_L (++)), drop_app_length' by (rewrite length_app, !length_word; done).
Qed.

Definition event_kind (ev : ConfigEvent) : SystemConfigUpdateKind := update_kind (meaning false ev).

Lemma kind_meaning eco ev : update_kind (meaning eco ev) = event_kind ev.
Proof.
  destruct ev as [|oh sc| | | | | |]; try done. unfold event_kind, meaning.
  by destruct eco, (check_ecotone_l1_system_config_scalar (word sc)).
Qed.

Lemma build_try_from addr ev eco :
  build (event_log addr ev) eco =
  match try_from eco (event_kind ev) (log_data (event_log addr ev)) with
  | Ok u => Ok u
  | Err e => Err (UpdateData (event_kind ev) e)
  end.
Proof. by destruct ev. Qed.

Lemma payload_single len v :
  len = 32 -> validate len (word 32 ++ word (32 * zlen [v]) ++ concat (word <$> [v])) = Ok (word v).
Proof.
  intros ->. change (32 * zlen [v]) with 32. rewrite validate_event.
  - cbn [concat fmap list_fmap]. by rewrite app_nil_r.
  - cbn [concat fmap list_fmap]. rewrite app_nil_r. unfold zlen. by rewrite length_word.
  - unfold fits, U64_MAX. lia.
Qed.

Lemma payload_double v w :
  validate 64 (word 32 ++ word (32 * zlen [v; w]) ++ concat (word <$> [v; w])) = Ok (concat (word <$> [v; w])).
Proof.
  change (32 * zlen [v; w]) with 64. apply validate_event.
  - cbn [concat fmap list_fmap]. unfold zlen. by rewrite !length_app, !length_word.
  - unfold fits, U64_MAX. lia.
Qed.

(** The operator fee is read as two byte ranges of its word. *)
Lemma operator_fee_ranges s k :
  fits U32_MAX s -> fits U64_MAX k ->
  be_val (range (word (s * 2 ^ 64 + k)) 20 24) = s /\ be_val (range (word (s * 2 ^ 64 + k)) 24 32) = k.
Proof.
  unfold fits, U32_MAX, U64_MAX. intros Hs Hk. unfold word. set (v := s * 2 ^ 64 + k).
  assert (be_bytes 32 v = be_bytes 20 (v / 256 ^ 12) ++ be_bytes 4 (v / 256 ^ 8) ++ be_bytes 8 v) as ->.
  { exact (eq_trans (be_bytes_split 20 12 v) (f_equal _ (be_bytes_split 4 8 v))). }
  split.
  - rewrite range_middle, be_val_be_bytes_mod by (rewrite ?length_be_bytes; done). unfold v.
    change (256 ^ 8) with (2 ^ 64). rewrite Z.div_add_l, Z.div_small, Z.add_0_r by lia. apply Z.mod_small. lia.
  - rewrite <- (app_nil_r (be_bytes 8 v)), (assoc_L (++)).
    rewrite range_middle, be_val_be_bytes_mod by (rewrite ?length_app, ?length_be_bytes; done). unfold v.
    change (256 ^ Z.of_nat 8) with (2 ^ 64). rewrite Z.add_comm, Z.mod_add by lia. apply Z.mod_small. lia.
Qed.

Lemma build_event addr ev eco : event_ok ev -> build (event_log addr ev) eco = Ok (meaning eco ev).
Proof.
  intros Hok. rewrite build_try_from. destruct ev as [a|oh sc|g|a|d e|s k|m|g]; unfold event_kind; cbn [meaning update_kind try_from event_log log_data event_words].
  - unfold batcher_update. rewrite payload_single by done. cbn [mbind result_bind].
    by rewrite (decode_word _ (2 ^ 160 - 1)) by (apply address_law || done).
  - destruct Hok as [Ho Hs]. unfold gas_config_update. rewrite payload_double. cbn [mbind result_bind].
    change (32 * zlen [oh; sc]) with 64. cbn [concat fmap list_fmap]. rewrite app_nil_r.
    rewrite (assoc_L (++)), range_middle by (rewrite ?length_app, ?length_word; done).
    rewrite (decode_word _ U256_MAX) by (apply uint256_law || done). cbn [mbind result_bind or_else].
    rewrite (assoc_L (++)), drop_app_length' by (rewrite ?length_app, ?length_word; done).
    rewrite (decode_word _ U256_MAX) by (apply uint256_law || done). cbn [mbind result_bind or_else].
    fold (word sc). by destruct eco, (check_ecotone_l1_system_config_scalar (word sc)).
  - unfold gas_limit_update. rewrite payload_single by done. cbn [mbind result_bind].
    rewrite (decode_word _ U256_MAX) by (apply uint256_law || (cbn in Hok; unfold fits, U64_MAX, U256_MAX in *; lia)).
    cbn [mbind result_bind or_else]. cbn in Hok. unfold fits in Hok.
    by replace (g >? U64_MAX) with false by (symmetry; rewrite Z.gtb_ltb; apply Z.ltb_ge; lia).
  - unfold unsafe_block_signer_update. rewrite payload_single by done. cbn [mbind result_bind].
    by rewrite (decode_word _ (2 ^ 160 - 1)) by (apply address_law || done).
  - destruct Hok as [Hd He]. unfold fits, U32_MAX in *. unfold eip1559_update. rewrite payload_single by done.
    cbn [mbind result_bind]. rewrite decode_uint64_word by (unfold fits, U64_MAX; lia). cbn [mbind result_bind or_else].
    rewrite Z.shiftr_div_pow2, Z.div_add_l, Z.div_small, Z.add_0_r by lia.
    rewrite (wrap_id U32_MAX d) by (unfold fits, U32_MAX; lia). do 2 f_equal.
    unfold wrap, U32_MAX. rewrite Z.add_comm, Z.mod_add by lia. apply Z.mod_small. lia.
  - destruct Hok as [Hs Hk]. unfold operator_fee_update. rewrite payload_single by done. cbn [mbind result_bind].
    by destruct (operator_fee_ranges s k Hs Hk) as [-> ->].
  - unfold min_base_fee_update. rewrite payload_single by done. cbn [mbind result_bind].
    by rewrite decode_uint64_word.
  - unfold da_footprint_gas_scalar_update. rewrite payload_single by done. cbn [mbind result_bind].
    by rewrite (decode_word _ U16_MAX) by (apply uint16_law || done).
Qed.

(** A log of the contract: an event, or something the decoder rejects. *)
Definition item_log (addr : Z) (i : ConfigEvent + Log) : Log :=
  match i with inl ev => event_log addr ev | inr l => l end.
Definition item_ok (eco : bool) (i : ConfigEvent + Log) : Prop :=
  match i with inl ev => event_ok ev | inr l => is_ok (build l eco) = false end.
Definition item_event (i : ConfigEvent + Log) : option ConfigEvent :=
  match i with inl ev => Some ev | inr _ => None end.

End laws.

Module ConfigExample.
Definition upto (m : Z) (w : list Z) : option Z := if be_val w <=? m then Some (be_val w) else None.
Definition words : SolWords := {|
  decode_uint16 := upto U16_MAX; decode_uint64 := upto U64_MAX;
  decode_uint256 := upto U256_MAX; decode_address := upto (2 ^ 160 - 1) |}.
#[local] Existing Instance words.
Definition laws : SolWordsLaws.
Proof. split; by intros w. Defined.
#[local] Existing Instance laws.

Definition start : SystemConfig := mkSystemConfig 1 2 3 30000000 None None None None None None None None.
Definition items : list (ConfigEvent + Log) :=
  [inl (EvBatcher 77); inr (mkLog 9 [TOPIC; 1; 0] []); inl (EvOperatorFee 5 6); inl (EvDaFootprintGasScalar 0)].
Definition receipts : list Receipt :=
  [mkReceipt true [event_log 9 (EvGasLimit 1)];
   mkReceipt false (event_log 8 (EvGasLimit 1) :: mkLog 9 [4] [] :: (item_log 9 <$> items))].

End ConfigExample.
