(* ===== verification/Deposits.v ===== *)
(** Deposits: the deposit transaction and its RLP encoding
    ([crates/common/consensus/src/transaction/deposit.rs]), the hash of its source
    ([source.rs]), and its derivation from the logs of the deposit contract
    ([crates/consensus/protocol/src/deposits.rs],
    [crates/consensus/derive/src/attributes/stateful.rs]).

    RLP encoding of the field types and of headers is code of the [alloy-rlp]
    crate and is the class [DepositCodecs]. *)

From S2P Require Import Prelude Codec Buffer Rollup SystemConfig.

(** * The transaction *)

(** [to] is [None] for a contract creation ([TxKind::Create]). *)
Record TxDeposit : Type := mkTxDeposit {
  source_hash : Z;
  from : Z;
  to : option Z;
  mint : Z;
  value : Z;
  d_gas_limit : Z;
  is_system_transaction : bool;
  input : list Z;
}.

Definition DEPOSIT_TX_TYPE : Z := 0x7E.

Section source.
Context `{Keccak256}.

(** The identifier of a domain and a hash, hashed together. *)
Definition domain_hash (identifier h : Z) : Z := keccak256 (be_bytes 32 identifier ++ be_bytes 32 h).
(** [UserDepositSource::source_hash] *)
Definition user_source_hash (l1_block_hash log_index : Z) : Z :=
  domain_hash 0 (keccak256 (be_bytes 32 l1_block_hash ++ be_bytes 32 log_index)).
(** [L1InfoDepositSource::source_hash] *)
Definition l1_info_source_hash (l1_block_hash seq_number : Z) : Z :=
  domain_hash 1 (keccak256 (be_bytes 32 l1_block_hash ++ be_bytes 32 seq_number)).
(** [UpgradeDepositSource::source_hash] *)
Definition upgrade_source_hash (intent : list Z) : Z := domain_hash 2 (keccak256 intent).
End source.

(** * Its encoding *)

(** [rlp_header] is [Header]: whether it is a list, and the length of the payload. *)
Class DepositCodecs := {
  rlp_b256 : codec Z;
  rlp_address : codec Z;
  rlp_kind : codec (option Z);
  rlp_u128 : codec Z;
  rlp_u256 : codec Z;
  rlp_u64 : codec Z;
  rlp_bool : codec bool;
  rlp_bytes : codec (list Z);
  rlp_header : codec (bool * Z);
}.

Definition address_ok (a : Z) : Prop := fits (2 ^ 160 - 1) a.
Definition kind_ok (t : option Z) : Prop := match t with Some a => address_ok a | None => True end.

Class DepositLaws `{DepositCodecs} := {
  law_b256 : codec_ok (fits U256_MAX) rlp_b256;
  law_address : codec_ok address_ok rlp_address;
  law_kind : codec_ok kind_ok rlp_kind;
  law_u128 : codec_ok (fits U128_MAX) rlp_u128;
  law_u256 : codec_ok (fits U256_MAX) rlp_u256;
  law_u64 : codec_ok (fits U64_MAX) rlp_u64;
  law_bool : codec_ok (fun _ => True) rlp_bool;
  law_bytes : codec_ok bytes_ok rlp_bytes;
  law_header : codec_ok (fun h => fits U64_MAX h.2) rlp_header;
}.

Inductive RlpError : Type := UnexpectedString | InputTooShort | UnexpectedLength | FieldError | UnexpectedType.

Section encoding.
Context `{DepositCodecs}.

Definition deposit_fields_length (t : TxDeposit) : Z :=
  enc_len rlp_b256 (source_hash t) + enc_len rlp_address (from t) + enc_len rlp_kind (to t) +
  enc_len rlp_u128 (mint t) + enc_len rlp_u256 (value t) + enc_len rlp_u64 (d_gas_limit t) +
  enc_len rlp_bool (is_system_transaction t) + enc_len rlp_bytes (input t).

Definition deposit_encode_fields (t : TxDeposit) : list Z :=
  enc rlp_b256 (source_hash t) ++ enc rlp_address (from t) ++ enc rlp_kind (to t) ++ enc rlp_u128 (mint t) ++
  enc rlp_u256 (value t) ++ enc rlp_u64 (d_gas_limit t) ++ enc rlp_bool (is_system_transaction t) ++
  enc rlp_bytes (input t).

Definition deposit_decode_fields (buf : list Z) : option (TxDeposit * list Z) :=
  '(source_hash, buf) ← dec rlp_b256 buf;
  '(from, buf) ← dec rlp_address buf;
  '(to, buf) ← dec rlp_kind buf;
  '(mint, buf) ← dec rlp_u128 buf;
  '(value, buf) ← dec rlp_u256 buf;
  '(gas_limit, buf) ← dec rlp_u64 buf;
  '(is_system_transaction, buf) ← dec rlp_bool buf;
  '(input, buf) ← dec rlp_bytes buf;
  Some (mkTxDeposit source_hash from to mint value gas_limit is_system_transaction input, buf).

(** [TxDeposit::rlp_encode] *)
Definition deposit_rlp_encode (t : TxDeposit) : list Z :=
  enc rlp_header (true, deposit_fields_length t) ++ deposit_encode_fields t.
(** [encode_2718] *)
Definition encode_2718 (t : TxDeposit) : list Z := DEPOSIT_TX_TYPE :: deposit_rlp_encode t.

(** [TxDeposit::rlp_decode], with the rest of the buffer. *)
Definition deposit_rlp_decode (buf : list Z) : result RlpError (TxDeposit * list Z) :=
  match dec rlp_header buf with
  | None => Err FieldError
  | Some ((is_list, payload_length), buf) =>
      if negb is_list then Err UnexpectedString
      else
        let remaining := zlen buf in
        if payload_length >? remaining then Err InputTooShort
        else match deposit_decode_fields buf with
             | None => Err FieldError
             | Some (this, buf) =>
                 if negb (zlen buf + payload_length =? remaining) then Err UnexpectedLength
                 else Ok (this, buf)
             end
  end.

(** [Decodable2718]: the type byte, then [typed_decode]. *)
Definition decode_2718 (buf : list Z) : result RlpError (TxDeposit * list Z) :=
  match buf with
  | ty :: buf => if ty =? DEPOSIT_TX_TYPE then deposit_rlp_decode buf else Err UnexpectedType
  | [] => Err InputTooShort
  end.
End encoding.

(** * Deposit logs *)

Inductive DepositDecodeError : Type :=
| UnexpectedTopicsLen (n : Z)
| DepositInvalidSelector (expected got : Z)
| IncompleteOpaqueData (n : Z)
| UnalignedData (n : Z)
| FromDecode (topic : Z)
| ToDecode (topic : Z)
| InvalidOpaqueDataOffset (word : list Z)
| InvalidOpaqueDataLength (expected actual : Z)
| InvalidOpaqueDataPadding (rest : list Z)
| OpaqueContentOverflow (word : list Z)
| OpaqueDataPaddingOverflow
| DepositInvalidVersion (version : Z)
| UnexpectedOpaqueDataLen (n : Z)
| MintDecode (d : list Z)
| GasDecode (d : list Z).

Definition EVENT_ABI_HASH : Z := 0xb3813568d9991fc951961fcb4c784893574240a28925604d09fc577c55bb7c32.

(** [l.get(a..b)] *)
Definition get_range {A} (l : list A) (a b : Z) : option (list A) :=
  if (a <=? b) && (b <=? zlen l) then Some (take (Z.to_nat (b - a)) (drop (Z.to_nat a) l)) else None.

(** [topic.iter().take(12).any(|&b| b != 0)] *)
Definition high_bytes_set (topic : Z) : bool := existsb (fun b => negb (b =? 0)) (take 12 (be_bytes 32 topic)).
Definition low_address (topic : Z) : Z := be_val (drop 12 (be_bytes 32 topic)).

(** [Deposits::unmarshal_v0]. The conversions of slices to arrays of their own
    length cannot fail. *)
Definition unmarshal_v0 (tx : TxDeposit) (to_addr : Z) (data : list Z) : result (fault DepositDecodeError) TxDeposit :=
  if zlen data <? 32 + 32 + 8 + 1 then Err (Fail (UnexpectedOpaqueDataLen (zlen data)))
  else
    let offset := 0 in
    raw_mint ← slice data (offset + 16) (offset + 32);
    let offset := offset + 32 in
    raw_value ← slice data offset (offset + 32);
    let offset := offset + 32 in
    raw_gas ← slice data offset (offset + 8);
    let offset := offset + 8 in
    is_creation ← byte_at data offset;
    let offset := offset + 1 in
    let tx_data_len := zlen data - offset in
    tx_input ← slice data offset (offset + tx_data_len);
    mret (mkTxDeposit (source_hash tx) (from tx) (if is_creation =? 0 then Some to_addr else None)
      (be_val raw_mint) (be_val raw_value) (be_val raw_gas) (is_system_transaction tx) tx_input).

Section decode.
Context `{Keccak256, DepositCodecs}.

(** [Deposits::decode]: the opaque data, from the data of the log. *)
Definition decode_opaque (data : list Z) : result (fault DepositDecodeError) (list Z) :=
  offset_word ← slice data 0 32;
  if negb (be_val offset_word =? 32) then Err (Fail (InvalidOpaqueDataOffset offset_word))
  else
    len_word ← slice data 32 64;
    let opaque_content_len := be_val len_word in
    if opaque_content_len >? U64_MAX then Err (Fail (OpaqueContentOverflow len_word))
    else
      let opaque_data_ceil_32 := sat_mul U64_MAX (sat_add U64_MAX opaque_content_len 31 / 32) 32 in
      match checked_add U64_MAX 64 opaque_data_ceil_32 with
      | None => Err (Fail OpaqueDataPaddingOverflow)
      | Some padding_end =>
          match get_range data 64 (add64 64 opaque_content_len) with
          | None => Err (Fail (InvalidOpaqueDataLength opaque_content_len (sat_sub (zlen data) 64)))
          | Some opaque_data =>
              if negb ((opaque_content_len mod 32 =? 0) ||
                       match get_range data (add64 64 opaque_content_len) padding_end with
                       | Some pad => forallb (fun b => b =? 0) pad
                       | None => false
                       end)
              then rest ← slice_from data (add64 64 opaque_content_len); Err (Fail (InvalidOpaqueDataPadding rest))
              else mret opaque_data
          end
      end.

(** [Deposits::decode] up to the transaction: sender, recipient, version and opaque data. *)
Definition decode_event (log : Log) : result (fault DepositDecodeError) (Z * Z * Z * list Z) :=
  let data := log_data log in
  if negb (zlen (topics log) =? 4) then Err (Fail (UnexpectedTopicsLen (zlen (topics log))))
  else
    topic0 ← byte_at (topics log) 0;
    if negb (topic0 =? EVENT_ABI_HASH) then Err (Fail (DepositInvalidSelector EVENT_ABI_HASH topic0))
    else if zlen data <? 64 then Err (Fail (IncompleteOpaqueData (zlen data)))
    else if negb (zlen data mod 32 =? 0) then Err (Fail (UnalignedData (zlen data)))
    else
      topic1 ← byte_at (topics log) 1;
      if high_bytes_set topic1 then Err (Fail (FromDecode topic1))
      else
        topic2 ← byte_at (topics log) 2;
        if high_bytes_set topic2 then Err (Fail (ToDecode topic2))
        else
          version ← byte_at (topics log) 3;
          opaque_data ← decode_opaque data;
          mret (low_address topic1, low_address topic2, version, opaque_data).

(** [Deposits::decode] *)
Definition deposit_decode (block_hash index : Z) (log : Log) : result (fault DepositDecodeError) (list Z) :=
  '(sender, recipient, version, opaque_data) ← decode_event log;
  let deposit_tx := mkTxDeposit (user_source_hash block_hash index) sender None 0 0 0 false [] in
  if negb (version =? 0) then Err (Fail (DepositInvalidVersion version))
  else
    tx ← unmarshal_v0 deposit_tx recipient opaque_data;
    mret (encode_2718 tx).

(** The loop of [derive_deposits] over the logs of a receipt from index [i] on. *)
Fixpoint log_deposits (block_hash deposit_contract : Z) (ls : list Log) (i : Z) :
    result (fault DepositDecodeError) (list (list Z) * Z) :=
  match ls with
  | [] => Ok ([], i)
  | l :: ls =>
      let global_index := i + 1 in
      if negb (bool_decide (head (topics l) = Some EVENT_ABI_HASH))
      then log_deposits block_hash deposit_contract ls global_index
      else if negb (log_address l =? deposit_contract)
      then log_deposits block_hash deposit_contract ls global_index
      else
        decoded ← deposit_decode block_hash i l;
        '(res, i) ← log_deposits block_hash deposit_contract ls global_index;
        Ok (decoded :: res, i)
  end.

Fixpoint receipt_deposits (block_hash deposit_contract : Z) (rs : list Receipt) (i : Z) :
    result (fault DepositDecodeError) (list (list Z)) :=
  match rs with
  | [] => Ok []
  | r :: rs =>
      if status_failed r then receipt_deposits block_hash deposit_contract rs i
      else
        '(here, i) ← log_deposits block_hash deposit_contract (logs r) i;
        later ← receipt_deposits block_hash deposit_contract rs i;
        Ok (here ++ later)
  end.

(** [derive_deposits] *)
Definition derive_deposits (block_hash : Z) (receipts : list Receipt) (deposit_contract : Z) :
    result (fault DepositDecodeError) (list (list Z)) :=
  receipt_deposits block_hash deposit_contract receipts 0.
End decode.

(** * Encoding and decoding agree *)

Definition deposit_ok `{DepositCodecs} (t : TxDeposit) : Prop :=
  fits U256_MAX (source_hash t) /\ address_ok (from t) /\ kind_ok (to t) /\ fits U128_MAX (mint t) /\
  fits U256_MAX (value t) /\ fits U64_MAX (d_gas_limit t) /\ bytes_ok (input t) /\
  deposit_fields_length t <= U64_MAX.

Section roundtrip.
Context `{DepositLaws}.

Lemma deposit_fields_codec t rest :
  deposit_ok t ->
  deposit_decode_fields (deposit_encode_fields t ++ rest) = Some (t, rest) /\
  deposit_fields_length t = zlen (deposit_encode_fields t).
Proof.
  intros (Hs & Hf & Ht & Hm & Hv & Hg & Hi & _). destruct t as [s f k m v g b i]; cbn in *. split.
  - unfold deposit_decode_fields, deposit_encode_fields; cbn [source_hash from to mint value d_gas_limit is_system_transaction input].
    rewrite <- !app_assoc.
    rewrite (codec_dec law_b256) by done. cbn [mbind option_bind]. rewrite (codec_dec law_address) by done.
    cbn [mbind option_bind]. rewrite (codec_dec law_kind) by done. cbn [mbind option_bind].
    rewrite (codec_dec law_u128) by done. cbn [mbind option_bind]. rewrite (codec_dec law_u256) by done.
    cbn [mbind option_bind]. rewrite (codec_dec law_u64) by done. cbn [mbind option_bind].
    rewrite (codec_dec law_bool) by done. cbn [mbind option_bind]. by rewrite (codec_dec law_bytes) by done.
  - unfold deposit_fields_length, deposit_encode_fields; cbn [source_hash from to mint value d_gas_limit is_system_transaction input].
    rewrite !zlen_app. unfold zlen.
    rewrite (codec_len law_b256), (codec_len law_address), (codec_len law_kind), (codec_len law_u128),
      (codec_len law_u256), (codec_len law_u64), (codec_len law_bool), (codec_len law_bytes) by done. lia.
Qed.

(** Decoding the encoding of a deposit gives it back with the rest of the buffer. *)
Lemma deposit_roundtrip t rest : deposit_ok t -> decode_2718 (encode_2718 t ++ rest) = Ok (t, rest).
Proof.
  intros Ht. destruct (deposit_fields_codec t rest Ht) as [Hd Hl].
  unfold encode_2718, decode_2718. cbn [app]. rewrite (Z.eqb_refl DEPOSIT_TX_TYPE).
  unfold deposit_rlp_encode, deposit_rlp_decode. rewrite <- app_assoc.
  assert (0 <= deposit_fields_length t) by (rewrite Hl; apply zlen_nonneg).
  rewrite (codec_dec law_header) by (split; [done|]; destruct_and! Ht; done).
  cbn [negb]. rewrite Hd, zlen_app, <- Hl. pose proof (zlen_nonneg rest).
  rewrite Z.gtb_ltb, (proj2 (Z.ltb_ge _ _)), (proj2 (Z.eqb_eq _ _)) by lia. done.
Qed.
End roundtrip.

(** * What the deposit contract emits *)

Record DepositEvent : Type := mkDepositEvent {
  ev_from : Z;
  ev_to : Z;
  ev_mint : Z;
  ev_value : Z;
  ev_gas : Z;
  ev_creation : bool;
  ev_data : list Z;
}.

(** [abi.encodePacked(mint, value, gasLimit, isCreation, data)] *)
Definition opaque_data (e : DepositEvent) : list Z :=
  concat [be_bytes 32 (ev_mint e); be_bytes 32 (ev_value e); be_bytes 8 (ev_gas e);
          [if ev_creation e then 1 else 0]; ev_data e].
(** Zeros up to the next multiple of 32. *)
Definition padding (l : list Z) : list Z := replicate (Z.to_nat ((- zlen l) mod 32)) 0.
Definition event_log (contract : Z) (e : DepositEvent) : Log :=
  mkLog contract [EVENT_ABI_HASH; ev_from e; ev_to e; 0]
    (be_bytes 32 32 ++ be_bytes 32 (zlen (opaque_data e)) ++ opaque_data e ++ padding (opaque_data e)).

(** The deposit the event asks for. *)
Definition event_tx (source : Z) (e : DepositEvent) : TxDeposit :=
  mkTxDeposit source (ev_from e) (if ev_creation e then None else Some (ev_to e)) (ev_mint e) (ev_value e)
    (ev_gas e) false (ev_data e).

Record event_ok (e : DepositEvent) : Prop := {
  eok_from : address_ok (ev_from e);
  eok_to : address_ok (ev_to e);
  eok_mint : fits U128_MAX (ev_mint e);
  eok_value : fits U256_MAX (ev_value e);
  eok_gas : fits U64_MAX (ev_gas e);
  eok_data : bytes_ok (ev_data e);
  eok_len : zlen (ev_data e) <= U32_MAX;
}.

(** An address fills the low 20 bytes of a topic. *)
Lemma address_topic a : address_ok a -> high_bytes_set a = false /\ low_address a = a.
Proof.
  intros Ha. assert (0 <= a < 256 ^ Z.of_nat 20) as Hb.
  { unfold address_ok, fits in Ha. change (256 ^ Z.of_nat 20) with (2 ^ 160). lia. }
  unfold high_bytes_set, low_address. change 32%nat with (12 + 20)%nat.
  by rewrite take_be_bytes_small, drop_be_bytes, be_val_be_bytes by done.
Qed.

Lemma opaque_len e : zlen (opaque_data e) = 73 + zlen (ev_data e).
Proof. unfold zlen, opaque_data. cbn [concat]. rewrite !length_app, !length_be_bytes. cbn [length]. lia. Qed.

Lemma unmarshal_event source e :
  event_ok e ->
  unmarshal_v0 (mkTxDeposit source (ev_from e) None 0 0 0 false []) (ev_to e) (opaque_data e) = Ok (event_tx source e).
Proof.
  intros He. unfold unmarshal_v0. pose proof (zlen_nonneg (ev_data e)). rewrite opaque_len. guard_false. unfold opaque_data.
  read_word 0%nat 16 16. read_word 1%nat 0 32. read_word 2%nat 0 8.
  byte_word 3%nat 0%nat. read_word 4%nat 0 (zlen (ev_data e)). unfold mret, result_ret. f_equal.
  unfold event_tx. cbn [source_hash from is_system_transaction].
  rewrite !take_ge by (rewrite length_drop, ?length_be_bytes; unfold zlen; lia).
  change 32%nat with (16 + 16)%nat at 1. change (Z.to_nat 16) with 16%nat. rewrite drop_be_bytes.
  change (Z.to_nat 0) with 0%nat. rewrite !drop_0. destruct He as [_ _ Hm Hv Hg _ _].
  rewrite (be_val_fits 16 U128_MAX), (be_val_fits 32 U256_MAX), (be_val_fits 8 U64_MAX) by done.
  by destruct (ev_creation e).
Qed.

Lemma ceil_32 n : (n + 31) / 32 * 32 = n + (- n) mod 32.
Proof. Z.to_euclidean_division_equations. lia. Qed.

Lemma length_padding o : zlen (padding o) = (- zlen o) mod 32.
Proof. unfold padding, zlen. rewrite length_replicate. pose proof (Z.mod_pos_bound (- Z.of_nat (length o)) 32). lia. Qed.

Lemma get_range_slice {A} (l d : list A) a b : slice (E := unit) l a b = Ok d -> get_range l a b = Some d.
Proof.
  unfold slice, get_range. destruct (0 <=? a); [|done]. cbn [andb]. by destruct ((a <=? b) && (b <=? zlen l)); [intros [= <-]|].
Qed.

(** The data of a log of the contract contains the opaque data. *)
Lemma decode_opaque_data o :
  zlen o <= 2 ^ 33 ->
  decode_opaque (be_bytes 32 32 ++ be_bytes 32 (zlen o) ++ o ++ padding o) = Ok o.
Proof.
  intros Ho. pose proof (zlen_nonneg o) as Hn. pose proof (length_padding o) as Hp.
  pose proof (Z.mod_pos_bound (- zlen o) 32 ltac:(lia)) as Hm. pose proof (ceil_32 (zlen o)) as Hc.
  replace (be_bytes 32 32 ++ _) with (concat [be_bytes 32 32; be_bytes 32 (zlen o); o; padding o])
    by (cbn [concat]; by rewrite app_nil_r).
  unfold decode_opaque. read_word 0%nat 0 32. change (be_val (take _ _) =? 32) with true. cbn [negb].
  read_word 1%nat 0 32. change (Z.to_nat 0) with 0%nat. rewrite drop_0, take_ge by (by rewrite length_be_bytes).
  rewrite (be_val_fits 32 U256_MAX) by (done || (unfold fits, U256_MAX; lia)).
  rewrite Z.gtb_ltb, (proj2 (Z.ltb_ge _ _)) by (unfold U64_MAX; lia).
  unfold sat_add, sat_mul, checked_add. rewrite (Z.min_l (zlen o + 31)) by (unfold U64_MAX; lia).
  rewrite Hc, Z.min_l by (unfold U64_MAX; lia). rewrite (proj2 (Z.leb_le _ _)) by (unfold U64_MAX; lia). rewrite add64_id by (unfold U64_MAX; lia).
  assert (zlen (be_bytes 32 32) = 32 /\ zlen (be_bytes 32 (zlen o)) = 32) as [L1 L2] by (unfold zlen; by rewrite !length_be_bytes).
  erewrite (get_range_slice _ _ 64 (64 + zlen o)).
  2: { apply (slice_word _ 2 o 0 (zlen o)); [done|cbn [take concat]; rewrite app_nil_r, zlen_app; lia|lia..]. }
  erewrite (get_range_slice _ _ (64 + zlen o)).
  2: { apply (slice_word _ 3 (padding o) 0 (zlen (padding o))); [done|cbn [take concat]; rewrite app_nil_r, !zlen_app; lia|lia..]. }
  change (Z.to_nat 0) with 0%nat. rewrite !drop_0, !take_ge by (unfold zlen; lia).
  replace (forallb _ (padding o)) with true; [by rewrite orb_true_r|].
  unfold padding. by induction (Z.to_nat _).
Qed.

Lemma decode_event_log contract e :
  event_ok e -> decode_event (event_log contract e) = Ok (ev_from e, ev_to e, 0, opaque_data e).
Proof.
  intros He. pose proof (zlen_nonneg (ev_data e)) as Hn. pose proof (eok_len e He) as Hl. unfold U32_MAX in Hl.
  destruct (address_topic _ (eok_from e He)) as [F1 F2], (address_topic _ (eok_to e He)) as [T1 T2].
  pose proof (opaque_len e) as Ho. pose proof (length_padding (opaque_data e)) as Hp.
  pose proof (Z.mod_pos_bound (- zlen (opaque_data e)) 32 ltac:(lia)) as Hm.
  unfold decode_event. cbn [topics event_log log_data].
  set (data := be_bytes 32 32 ++ _).
  assert (zlen data = 64 + (zlen (opaque_data e) + (- zlen (opaque_data e)) mod 32)) as Hd.
  { unfold data. rewrite !zlen_app, Hp. unfold zlen. rewrite !length_be_bytes. lia. }
  change (byte_at [EVENT_ABI_HASH; ev_from e; ev_to e; 0] 0) with (Ok (E := fault DepositDecodeError) EVENT_ABI_HASH).
  change (byte_at [EVENT_ABI_HASH; ev_from e; ev_to e; 0] 1) with (Ok (E := fault DepositDecodeError) (ev_from e)).
  change (byte_at [EVENT_ABI_HASH; ev_from e; ev_to e; 0] 2) with (Ok (E := fault DepositDecodeError) (ev_to e)).
  change (byte_at [EVENT_ABI_HASH; ev_from e; ev_to e; 0] 3) with (Ok (E := fault DepositDecodeError) 0).
  change (negb (zlen [EVENT_ABI_HASH; ev_from e; ev_to e; 0] =? 4)) with false. cbn [mbind result_bind].
  rewrite Z.eqb_refl. cbn [negb]. rewrite (proj2 (Z.ltb_ge (zlen data) 64)) by lia.
  rewrite <- ceil_32 in Hd. rewrite Hd. change 64 with (2 * 32). rewrite <- Z.mul_add_distr_r, Z_mod_mult, F1, T1.
  cbn [negb Z.eqb]. unfold data. rewrite decode_opaque_data by (rewrite Ho; lia). cbn [mbind result_bind]. by rewrite F2, T2.
Qed.

(** * Deposits of a block *)

(** A log of an L1 block: an event of the deposit contract or another log. *)
Inductive block_log : Type :=
| DepositLog (e : DepositEvent)
| OtherLog (l : Log).

Section derive.
Context `{Keccak256, DepositCodecs}.
Variables block_hash contract : Z.

Definition log_of (b : block_log) : Log := match b with DepositLog e => event_log contract e | OtherLog l => l end.
Definition block_log_ok (b : block_log) : Prop :=
  match b with
  | DepositLog e => event_ok e
  | OtherLog l => head (topics l) <> Some EVENT_ABI_HASH \/ log_address l <> contract
  end.

(** The deposits of the logs from index [i] on, in order. *)
Fixpoint deposits_of (bs : list block_log) (i : Z) : list TxDeposit :=
  match bs with
  | [] => []
  | DepositLog e :: bs => event_tx (user_source_hash block_hash i) e :: deposits_of bs (i + 1)
  | OtherLog _ :: bs => deposits_of bs (i + 1)
  end.

Lemma deposits_of_app bs bs' i : deposits_of (bs ++ bs') i = deposits_of bs i ++ deposits_of bs' (i + zlen bs).
Proof.
  unfold zlen. revert i. induction bs as [|[e|l] bs IH]; intros i; cbn [app deposits_of length].
  - by rewrite Z.add_0_r.
  - rewrite IH. do 3 f_equal. lia.
  - rewrite IH. do 2 f_equal. lia.
Qed.

Lemma deposit_decode_event i e :
  event_ok e -> deposit_decode block_hash i (event_log contract e) = Ok (encode_2718 (event_tx (user_source_hash block_hash i) e)).
Proof.
  intros He. unfold deposit_decode. rewrite decode_event_log by done. cbn [mbind result_bind].
  change (negb (0 =? 0)) with false. cbn [negb]. by rewrite unmarshal_event.
Qed.

Lemma log_deposits_run bs i :
  Forall block_log_ok bs ->
  log_deposits block_hash contract (map log_of bs) i = Ok (map encode_2718 (deposits_of bs i), i + zlen bs).
Proof.
  intros Hb. revert i. induction Hb as [|b bs Hb _ IH]; intros i; [cbn; by rewrite Z.add_0_r|].
  assert (i + zlen (b :: bs) = (i + 1) + zlen bs) as -> by (unfold zlen; cbn [length]; lia).
  cbn [map log_deposits]. destruct b as [e|l]; cbn [log_of deposits_of map].
  - rewrite bool_decide_eq_true_2 by done. cbn [negb event_log log_address]. rewrite Z.eqb_refl. cbn [negb].
    rewrite deposit_decode_event by done. cbn [mbind result_bind]. by rewrite IH.
  - destruct Hb as [Hb|Hb].
    + rewrite bool_decide_eq_false_2 by done. apply IH.
    + rewrite (proj2 (Z.eqb_neq _ _)) by done. cbn [negb]. destruct (negb _); apply IH.
Qed.

(** The receipts of a block, and the logs of the calls that succeeded. *)
Definition receipts_of (rs : list (bool * list block_log)) : list Receipt :=
  map (fun '(failed, bs) => mkReceipt failed (map log_of bs)) rs.
Fixpoint emitted (rs : list (bool * list block_log)) : list block_log :=
  match rs with
  | [] => []
  | (failed, bs) :: rs => (if failed then [] else bs) ++ emitted rs
  end.

Lemma receipt_deposits_run rs i :
  Forall block_log_ok (emitted rs) ->
  receipt_deposits block_hash contract (receipts_of rs) i = Ok (map encode_2718 (deposits_of (emitted rs) i)).
Proof.
  revert i. induction rs as [|[failed bs] rs IH]; intros i; [done|].
  cbn [emitted receipts_of map receipt_deposits status_failed logs]. destruct failed; [apply IH|].
  intros [Hb Hr]%Forall_app. rewrite log_deposits_run by done. cbn [mbind result_bind].
  fold (receipts_of rs). rewrite IH by done. cbn [mbind result_bind]. by rewrite deposits_of_app, map_app.
Qed.
End derive.

(** * Decoding never panics *)

Lemma slice_returns {E A} (l : list A) a b : 0 <= a <= b -> b <= zlen l -> returns (slice (E := E) l a b).
Proof. intros Ha Hb. destruct (slice_ok (E := E) l a b Ha Hb) as [d ->]. done. Qed.
Lemma byte_at_returns {E A} (l : list A) i : 0 <= i < zlen l -> returns (byte_at (E := E) l i).
Proof. intros Hi. destruct (byte_at_ok (E := E) l i Hi) as [d ->]. done. Qed.

(** Step through code that reads buffers within their bounds. *)
Ltac ret_step :=
  match goal with
  | |- returns (if ?b then _ else _) => destruct b eqn:?
  | |- returns (Err (Fail _)) => apply fail_returns
  | |- returns (mret _) => apply ok_returns
  | |- returns (Ok _) => apply ok_returns
  | |- returns (slice _ _ _ ≫= _) => apply bind_returns; [apply slice_returns|intros ? _]
  | |- returns (byte_at _ _ ≫= _) => apply bind_returns; [apply byte_at_returns|intros ? _]
  end.

Lemma unmarshal_returns tx a data : returns (unmarshal_v0 tx a data).
Proof. unfold unmarshal_v0. repeat ret_step; zbool; lia. Qed.

Lemma decode_opaque_returns data : 64 <= zlen data -> returns (decode_opaque data).
Proof.
  intros Hd. unfold decode_opaque. repeat ret_step; try lia.
  destruct (checked_add _ _ _) as [pe|]; [|apply fail_returns]. cbv zeta.
  unfold get_range at 1. destruct ((64 <=? _) && _) eqn:Hg; [|apply fail_returns].
  rewrite andb_true_iff, !Z.leb_le in Hg. repeat ret_step.
  apply bind_returns; [|intros; apply fail_returns]. apply slice_returns; lia.
Qed.

Lemma decode_event_returns log : returns (decode_event log).
Proof.
  unfold decode_event. repeat ret_step; zbool; try lia.
  apply bind_returns; [apply decode_opaque_returns; lia|intros; apply ok_returns].
Qed.

Section returns.
Context `{Keccak256, DepositCodecs}.

Lemma deposit_decode_returns bh i log : returns (deposit_decode bh i log).
Proof.
  unfold deposit_decode. apply bind_returns; [apply decode_event_returns|]. intros [[[s r] v] o] _. ret_step; [ret_step|].
  apply bind_returns; [apply unmarshal_returns|intros; apply ok_returns].
Qed.
Lemma log_deposits_returns bh c ls i : returns (log_deposits bh c ls i).
Proof.
  revert i. induction ls as [|l ls IH]; intros i; [done|]. cbn [log_deposits]. repeat (ret_step; [apply IH|]).
  apply bind_returns; [apply deposit_decode_returns|]. intros. apply bind_returns; [apply IH|]. by intros [].
Qed.
Lemma receipt_deposits_returns bh c rs i : returns (receipt_deposits bh c rs i).
Proof.
  revert i. induction rs as [|r rs IH]; intros i; [done|]. cbn [receipt_deposits]. ret_step; [apply IH|].
  apply bind_returns; [apply log_deposits_returns|]. intros []. intros. apply bind_returns; [apply IH|]. intros. apply ok_returns.
Qed.
End returns.

(** C27: The deposits of an L1 block are exactly the events of the deposit contract.
    For every block, [derive_deposits] returns (no panic), whatever the receipts. If
    the calls that succeeded emitted events of the deposit contract and other logs,
    it returns one transaction per event, in order, with the sender, recipient,
    mint, value, gas, data and kind of the event and a source hash from the block
    and the index of the log among the logs of the successful calls; and each
    encoded transaction decodes back to it. *)
Theorem deposits_derived `{Keccak256, DepositLaws} block_hash contract rs :
  (forall b, fits U256_MAX (keccak256 b)) ->
  Forall (block_log_ok contract) (emitted rs) ->
  Forall (fun t => deposit_fields_length t <= U64_MAX) (deposits_of block_hash (emitted rs) 0) ->
  (forall receipts, returns (derive_deposits block_hash receipts contract)) /\
  exists txs, derive_deposits block_hash (receipts_of contract rs) contract = Ok txs /\
    Forall2 (fun b t => decode_2718 b = Ok (t, [])) txs (deposits_of block_hash (emitted rs) 0).
Proof.
  intros Hk Hok Hlen. split; [intros; apply receipt_deposits_returns|].
  eexists. split; [by apply receipt_deposits_run|].
  revert Hok Hlen. generalize 0. induction (emitted rs) as [|[e|l] bs IH]; intros i Hok Hlen; cbn [deposits_of map] in *.
  - constructor.
  - apply Forall_cons in Hok as [[] Hok]. apply Forall_cons in Hlen as [Hl Hlen]. constructor; [|by apply IH].
    rewrite <- (app_nil_r (encode_2718 _)). apply deposit_roundtrip.
    split; [apply Hk|]. split; [done|]. split; [cbn; by destruct (ev_creation e)|]. done.
  - apply Forall_cons in Hok as [_ Hok]. by apply IH.
Qed.

Module DepositsExample.
Definition hash : Keccak256 := {| keccak256 := fun b => be_val b mod 1000 |}.
#[local] Existing Instance hash.
Definition codecs : DepositCodecs := {|
  rlp_b256 := token_codec; rlp_address := token_codec; rlp_kind := token_codec; rlp_u128 := token_codec;
  rlp_u256 := token_codec; rlp_u64 := token_codec; rlp_bool := token_codec; rlp_bytes := token_codec;
  rlp_header := token_codec;
|}.
#[local] Existing Instance codecs.
#[local] Instance codecs_laws : DepositLaws.
Proof. split; apply token_codec_ok. Qed.

Definition mint_event : DepositEvent := mkDepositEvent 7 8 100 50 21000 false [1; 2; 3].
Definition creation_event : DepositEvent := mkDepositEvent 7 0 0 0 21000 true [96].
(** A failed call, a call with another log before a deposit, and a creation. *)
Definition receipts : list (bool * list block_log) :=
  [(true, [DepositLog mint_event]); (false, [OtherLog (mkLog 5 [] []); DepositLog mint_event]);
   (false, [DepositLog creation_event])].

Lemma hash_fits b : fits U256_MAX (keccak256 b).
Proof.
  cbn. unfold fits, U256_MAX. pose proof (Z.mod_pos_bound (be_val b) 1000 ltac:(lia)). lia.
Qed.

Lemma event_oks : event_ok mint_event /\ event_ok creation_event.
Proof. split; (split; [by_eval..|]); by_eval. Qed.

Lemma deposits_derived_witness :
  exists txs, derive_deposits 77 (receipts_of 9 receipts) 9 = Ok txs /\
    Forall2 (fun b t => decode_2718 b = Ok (t, [])) txs
      [event_tx (user_source_hash 77 1) mint_event; event_tx (user_source_hash 77 2) creation_event].
Proof.
  refine (proj2 (deposits_derived 77 9 receipts hash_fits _ _)).
  - destruct event_oks as [Hm Hc]. repeat constructor; done.
  - by_eval.
Defined.
End DepositsExample.
