(* ===== verification/L1Info.v ===== *)
(** The L1 attributes transaction ([crates/consensus/protocol/src/info]): its
    calldata for every fork, the block references and the system configuration
    recovered from it ([block.rs], [utils.rs]), and the EIP-1559 parameters in the
    extra data of a header ([crates/common/consensus/src/extra]).

    The blob fee of an L1 header is code of the [alloy] crates and is the class
    [BlobFees]. *)

From S2P Require Import Prelude Codec Buffer Rollup SystemConfig Deposits.

Inductive DecodeError : Type :=
| MissingSelector
| InvalidSelector
| InvalidBedrockLength (expected got : Z)
| InvalidEcotoneLength (expected got : Z)
| InvalidIsthmusLength (expected got : Z)
| InvalidJovianLength (expected got : Z).

(** * The fields of the transaction *)

Record L1BlockInfoBedrockBase : Type := mkBedrockBase {
  i_number : Z;
  i_time : Z;
  i_base_fee : Z;
  i_block_hash : Z;
  i_sequence_number : Z;
  i_batcher_address : Z;
}.

Record L1BlockInfoBedrock : Type := mkBedrock {
  bedrock_base : L1BlockInfoBedrockBase;
  i_l1_fee_overhead : Z;
  i_l1_fee_scalar : Z;
}.

Record L1BlockInfoEcotoneBase : Type := mkEcotoneBase {
  eb_base : L1BlockInfoBedrockBase;
  i_blob_base_fee : Z;
  i_blob_base_fee_scalar : Z;
  i_base_fee_scalar : Z;
}.

Record L1BlockInfoEcotone : Type := mkEcotone {
  ecotone_base : L1BlockInfoEcotoneBase;
  i_empty_scalars : bool;
  e_l1_fee_overhead : Z;
}.

Record L1BlockInfoIsthmus : Type := mkIsthmus {
  isthmus_base : L1BlockInfoEcotoneBase;
  i_operator_fee_scalar : Z;
  i_operator_fee_constant : Z;
}.

Record L1BlockInfoJovian : Type := mkJovian {
  jovian_base : L1BlockInfoIsthmus;
  i_da_footprint_gas_scalar : Z;
}.

Inductive L1BlockInfoTx : Type :=
| Bedrock (i : L1BlockInfoBedrock)
| Ecotone (i : L1BlockInfoEcotone)
| Isthmus (i : L1BlockInfoIsthmus)
| Jovian (i : L1BlockInfoJovian).

Definition DEFAULT_DA_FOOTPRINT : Z := 400.
Definition BEDROCK_SELECTOR : list Z := [0x01; 0x5d; 0x8e; 0xb9].
Definition ECOTONE_SELECTOR : list Z := [0x44; 0x0a; 0x5e; 0x20].
Definition ISTHMUS_SELECTOR : list Z := [0x09; 0x89; 0x99; 0xbe].
Definition JOVIAN_SELECTOR : list Z := [0x3d; 0xb6; 0xbe; 0x2b].
Definition BEDROCK_LEN : Z := 4 + 32 * 8.
Definition ECOTONE_LEN : Z := 4 + 32 * 5.
Definition ISTHMUS_LEN : Z := 4 + 32 * 5 + 4 + 8.
Definition JOVIAN_LEN : Z := 4 + 32 * 5 + 4 + 8 + 2.

(** * Encoding *)

Definition bedrock_words (i : L1BlockInfoBedrock) : list (list Z) :=
  let 'mkBedrock (mkBedrockBase number time base_fee block_hash sequence_number batcher_address) l1_fee_overhead
    l1_fee_scalar := i in
  [BEDROCK_SELECTOR; be_bytes 32 number; be_bytes 32 time; be_bytes 32 base_fee; be_bytes 32 block_hash;
   be_bytes 32 sequence_number; be_bytes 32 batcher_address; be_bytes 32 l1_fee_overhead; be_bytes 32 l1_fee_scalar].

(** [L1BlockInfoEcotoneBase::encode_calldata_body] *)
Definition ecotone_body (e : L1BlockInfoEcotoneBase) : list (list Z) :=
  let 'mkEcotoneBase (mkBedrockBase number time base_fee block_hash sequence_number batcher_address) blob_base_fee
    blob_base_fee_scalar base_fee_scalar := e in
  [be_bytes 4 base_fee_scalar; be_bytes 4 blob_base_fee_scalar; be_bytes 8 sequence_number; be_bytes 8 time;
   be_bytes 8 number; be_bytes 32 base_fee; be_bytes 32 blob_base_fee; be_bytes 32 block_hash;
   be_bytes 32 batcher_address].
Definition isthmus_body (i : L1BlockInfoIsthmus) : list (list Z) :=
  ecotone_body (isthmus_base i) ++ [be_bytes 4 (i_operator_fee_scalar i); be_bytes 8 (i_operator_fee_constant i)].
Definition jovian_body (i : L1BlockInfoJovian) : list (list Z) :=
  isthmus_body (jovian_base i) ++ [be_bytes 2 (i_da_footprint_gas_scalar i)].

Definition info_words (i : L1BlockInfoTx) : list (list Z) :=
  match i with
  | Bedrock i => bedrock_words i
  | Ecotone i => ECOTONE_SELECTOR :: ecotone_body (ecotone_base i)
  | Isthmus i => ISTHMUS_SELECTOR :: isthmus_body i
  | Jovian i => JOVIAN_SELECTOR :: jovian_body i
  end.
(** [L1BlockInfoTx::encode_calldata] *)
Definition encode_calldata (i : L1BlockInfoTx) : list Z := concat (info_words i).

(** * Decoding *)

(** [uN::from_be_bytes(r[a..b])] *)
Definition read_be (r : list Z) (a b : Z) : result (fault DecodeError) Z :=
  d ← slice r a b; mret (be_val d).

Definition decode_bedrock (r : list Z) : result (fault DecodeError) L1BlockInfoBedrock :=
  if negb (zlen r =? BEDROCK_LEN) then Err (Fail (InvalidBedrockLength BEDROCK_LEN (zlen r)))
  else
    number ← read_be r 28 36;
    time ← read_be r 60 68;
    base_fee ← read_be r 92 100;
    block_hash ← read_be r 100 132;
    sequence_number ← read_be r 156 164;
    batcher_address ← read_be r 176 196;
    l1_fee_overhead ← read_be r 196 228;
    l1_fee_scalar ← read_be r 228 260;
    mret (mkBedrock (mkBedrockBase number time base_fee block_hash sequence_number batcher_address)
      l1_fee_overhead l1_fee_scalar).

(** [L1BlockInfoEcotoneBase::decode_calldata_body] *)
Definition decode_ecotone_body (r : list Z) : result (fault DecodeError) L1BlockInfoEcotoneBase :=
  base_fee_scalar ← read_be r 4 8;
  blob_base_fee_scalar ← read_be r 8 12;
  sequence_number ← read_be r 12 20;
  time ← read_be r 20 28;
  number ← read_be r 28 36;
  base_fee ← read_be r 60 68;
  blob_base_fee ← read_be r 84 100;
  block_hash ← read_be r 100 132;
  batcher_address ← read_be r 144 164;
  mret (mkEcotoneBase (mkBedrockBase number time base_fee block_hash sequence_number batcher_address)
    blob_base_fee blob_base_fee_scalar base_fee_scalar).

Definition decode_ecotone (r : list Z) : result (fault DecodeError) L1BlockInfoEcotone :=
  if negb (zlen r =? ECOTONE_LEN) then Err (Fail (InvalidEcotoneLength ECOTONE_LEN (zlen r)))
  else base ← decode_ecotone_body r; mret (mkEcotone base false 0).

Definition decode_isthmus_body (r : list Z) : result (fault DecodeError) L1BlockInfoIsthmus :=
  base ← decode_ecotone_body r;
  operator_fee_scalar ← read_be r 164 168;
  operator_fee_constant ← read_be r 168 176;
  mret (mkIsthmus base operator_fee_scalar operator_fee_constant).
Definition decode_isthmus (r : list Z) : result (fault DecodeError) L1BlockInfoIsthmus :=
  if negb (zlen r =? ISTHMUS_LEN) then Err (Fail (InvalidIsthmusLength ISTHMUS_LEN (zlen r)))
  else decode_isthmus_body r.

Definition decode_jovian_body (r : list Z) : result (fault DecodeError) L1BlockInfoJovian :=
  base ← decode_isthmus_body r;
  da_footprint_gas_scalar ← read_be r 176 178;
  mret (mkJovian base (if da_footprint_gas_scalar =? 0 then DEFAULT_DA_FOOTPRINT else da_footprint_gas_scalar)).
Definition decode_jovian (r : list Z) : result (fault DecodeError) L1BlockInfoJovian :=
  if negb (zlen r =? JOVIAN_LEN) then Err (Fail (InvalidJovianLength JOVIAN_LEN (zlen r)))
  else decode_jovian_body r.

(** [L1BlockInfoTx::decode_calldata] *)
Definition decode_calldata (r : list Z) : result (fault DecodeError) L1BlockInfoTx :=
  if zlen r <? 4 then Err (Fail MissingSelector)
  else
    selector ← slice r 0 4;
    if decide (selector = BEDROCK_SELECTOR) then i ← decode_bedrock r; mret (Bedrock i)
    else if decide (selector = ECOTONE_SELECTOR) then i ← decode_ecotone r; mret (Ecotone i)
    else if decide (selector = ISTHMUS_SELECTOR) then i ← decode_isthmus r; mret (Isthmus i)
    else if decide (selector = JOVIAN_SELECTOR) then i ← decode_jovian r; mret (Jovian i)
    else Err (Fail InvalidSelector).

(** * Accessors *)

Definition info_base (i : L1BlockInfoTx) : L1BlockInfoBedrockBase :=
  match i with
  | Bedrock i => bedrock_base i
  | Ecotone i => eb_base (ecotone_base i)
  | Isthmus i => eb_base (isthmus_base i)
  | Jovian i => eb_base (isthmus_base (jovian_base i))
  end.
Definition info_id (i : L1BlockInfoTx) : BlockNumHash :=
  mkBlockNumHash (i_number (info_base i)) (i_block_hash (info_base i)).
Definition info_batcher_address (i : L1BlockInfoTx) : Z := i_batcher_address (info_base i).
Definition info_sequence_number (i : L1BlockInfoTx) : Z := i_sequence_number (info_base i).
Definition info_l1_fee_overhead (i : L1BlockInfoTx) : Z :=
  match i with
  | Bedrock i => i_l1_fee_overhead i
  | Ecotone i => e_l1_fee_overhead i
  | Isthmus _ | Jovian _ => 0
  end.
Definition info_operator_fee_scalar (i : L1BlockInfoTx) : Z :=
  match i with
  | Jovian i => i_operator_fee_scalar (jovian_base i)
  | Isthmus i => i_operator_fee_scalar i
  | _ => 0
  end.
Definition info_operator_fee_constant (i : L1BlockInfoTx) : Z :=
  match i with
  | Jovian i => i_operator_fee_constant (jovian_base i)
  | Isthmus i => i_operator_fee_constant i
  | _ => 0
  end.
Definition da_footprint (i : L1BlockInfoTx) : option Z :=
  match i with Jovian i => Some (i_da_footprint_gas_scalar i) | _ => None end.

(** * Building the transaction *)

(** An L1 header, as derivation reads it; [h_hash] is [hash_slow]. *)
Record L1Header : Type := mkL1Header {
  h_hash : Z;
  h_number : Z;
  h_parent_hash : Z;
  h_timestamp : Z;
  h_base_fee_per_gas : option Z;
  h_mix_hash : Z;
  h_parent_beacon_block_root : option Z;
}.

(** Blob fee parameters and the fee of a header under them; code of [alloy]. *)
Class BlobFees := {
  BlobParams : Type;
  osaka_params : BlobParams;
  prague_params : BlobParams;
  cancun_params : BlobParams;
  blob_fee : L1Header -> BlobParams -> option Z;
}.

(** The L1 chain configuration; [scheduled] is [active_scheduled_params_at_timestamp]. *)
Record L1Config `{BlobFees} : Type := mkL1Config {
  scheduled : Z -> option BlobParams;
  osaka_time : option Z;
  prague_time : option Z;
}.

Definition L1_SCALAR : Z := 1.
Definition REGOLITH_SYSTEM_TX_GAS : Z := 1000000.
Definition DEPOSITOR_ACCOUNT : Z := 0xDeaDDEaDDeAdDeAdDEAdDEaddeAddEAdDEAd0001.
Definition L1_BLOCK_INFO : Z := 0x4200000000000000000000000000000000000015.

Section build.
Context `{BlobFees}.

(** The blob fee parameters at the time of an L1 block. *)
Definition blob_fee_config (cfg : RollupConfig) (l1 : L1Config) (ts : Z) : BlobParams :=
  match scheduled l1 ts with
  | Some p => p
  | None =>
      if since (osaka_time l1) ts then osaka_params
      else if since (prague_time l1) ts &&
              (negb (bool_decide (is_Some (pectra_blob_schedule_time (hardforks cfg)))) ||
               is_pectra_blob_schedule_active cfg ts)
      then prague_params else cancun_params
  end.

(** The two scalars packed into the [scalar] of the system configuration. *)
Definition unpack_scalar (sc : Z) : Z * Z :=
  let bytes := be_bytes 32 sc in
  (if default 0 (head bytes) =? L1_SCALAR then be_val (take 4 (drop 24 bytes)) else 0, be_val (drop 28 bytes)).

(** [L1BlockInfoTx::try_new]. The conversions of slices to arrays of their own
    length cannot fail. *)
Definition try_new (cfg : RollupConfig) (l1 : L1Config) (sc : SystemConfig) (sequence_number : Z) (h : L1Header)
    (l2_block_time : Z) : L1BlockInfoTx :=
  let base := mkBedrockBase (h_number h) (h_timestamp h) (default 0 (h_base_fee_per_gas h)) (h_hash h)
                sequence_number (batcher_address sc) in
  if negb (is_ecotone_active cfg l2_block_time) || is_first_block cfg (is_ecotone_active cfg) l2_block_time
  then Bedrock (mkBedrock base (overhead sc) (scalar sc))
  else
    let '(blob_base_fee_scalar, base_fee_scalar) := unpack_scalar (scalar sc) in
    let blob_base_fee := default 1 (blob_fee h (blob_fee_config cfg l1 (h_timestamp h))) in
    let ebase := mkEcotoneBase base blob_base_fee blob_base_fee_scalar base_fee_scalar in
    let isthmus := mkIsthmus ebase (default 0 (operator_fee_scalar sc)) (default 0 (operator_fee_constant sc)) in
    if is_jovian_active cfg l2_block_time && negb (is_first_block cfg (is_jovian_active cfg) l2_block_time)
    then
      let da := default DEFAULT_DA_FOOTPRINT (da_footprint_gas_scalar sc) in
      Jovian (mkJovian isthmus (if da =? 0 then DEFAULT_DA_FOOTPRINT else da))
    else if is_isthmus_active cfg l2_block_time && negb (is_first_block cfg (is_isthmus_active cfg) l2_block_time)
    then Isthmus isthmus
    else Ecotone (mkEcotone ebase false 0).

Context `{Keccak256}.

(** [L1BlockInfoTx::try_new_with_deposit_tx] *)
Definition try_new_with_deposit_tx (cfg : RollupConfig) (l1 : L1Config) (sc : SystemConfig) (sequence_number : Z)
    (h : L1Header) (l2_block_time : Z) : L1BlockInfoTx * TxDeposit :=
  let l1_info := try_new cfg l1 sc sequence_number h l2_block_time in
  let source := l1_info_source_hash (i_block_hash (info_base l1_info)) sequence_number in
  let regolith := is_regolith_active cfg l2_block_time in
  (l1_info, mkTxDeposit source DEPOSITOR_ACCOUNT (Some L1_BLOCK_INFO) 0 0
     (if regolith then REGOLITH_SYSTEM_TX_GAS else 150000000) (negb regolith) (encode_calldata l1_info)).
End build.

(** * EIP-1559 parameters in the extra data *)

Inductive EIP1559ParamError : Type :=
| InvalidVersion (v : Z)
| NoEIP1559Params
| DenominatorOverflow
| ElasticityOverflow
| InvalidExtraDataLength
| InvalidParams
| MinBaseFeeMustBeNone
| MinBaseFeeNotSet.

(** [HoloceneExtraData::decode_params]: elasticity and denominator of eight bytes. *)
Definition decode_params (params : list Z) : Z * Z := (be_val (take 4 (drop 4 params)), be_val (take 4 params)).

Definition holocene_decode (extra_data : list Z) : result (fault EIP1559ParamError) (Z * Z) :=
  if negb (zlen extra_data =? 9) then Err (Fail InvalidExtraDataLength)
  else
    version ← byte_at extra_data 0;
    if negb (version =? 0) then Err (Fail (InvalidVersion version))
    else params ← slice extra_data 1 9; mret (decode_params params).

(** Elasticity, denominator and minimum base fee. *)
Definition jovian_decode (extra_data : list Z) : result (fault EIP1559ParamError) (Z * Z * Z) :=
  if negb (zlen extra_data =? 17) then Err (Fail InvalidExtraDataLength)
  else
    version ← byte_at extra_data 0;
    if negb (version =? 1) then Err (Fail (InvalidVersion version))
    else
      denominator ← slice extra_data 1 5;
      elasticity ← slice extra_data 5 9;
      min_base_fee ← slice extra_data 9 17;
      mret (be_val elasticity, be_val denominator, be_val min_base_fee).

(** [BaseFeeParams] *)
Record BaseFeeParams : Type := mkBaseFeeParams { max_change_denominator : Z; elasticity_multiplier : Z }.

(** [encode_eip_1559_params], writing into the buffer. *)
Definition encode_eip_1559_params (params : list Z) (defaults : BaseFeeParams) :
    stm (list Z) (fault EIP1559ParamError) unit :=
  len ← gets zlen;
  if len <? 9 then throw (Fail InvalidExtraDataLength)
  else if forallb (fun b => b =? 0) params then
    guard_err (max_change_denominator defaults >? U32_MAX) (Fail DenominatorOverflow) ;;
    guard_err (elasticity_multiplier defaults >? U32_MAX) (Fail ElasticityOverflow) ;;
    copy_to 1 5 (be_bytes 4 (max_change_denominator defaults)) ;;
    copy_to 5 9 (be_bytes 4 (elasticity_multiplier defaults))
  else
    let '(elasticity, denominator) := decode_params params in
    copy_to 1 5 (be_bytes 4 denominator) ;; copy_to 5 9 (be_bytes 4 elasticity).

Definition holocene_encode (params : list Z) (defaults : BaseFeeParams) : result (fault EIP1559ParamError) (list Z) :=
  match encode_eip_1559_params params defaults (replicate 9 0) with
  | (Ok _, extra_data) => Ok extra_data
  | (Err e, _) => Err e
  end.

Definition write_jovian (params : list Z) (defaults : BaseFeeParams) (min_base_fee : Z) :
    stm (list Z) (fault EIP1559ParamError) unit :=
  put 0 1 ;; encode_eip_1559_params params defaults ;; copy_to 9 17 (be_bytes 8 min_base_fee).
Definition jovian_encode (params : list Z) (defaults : BaseFeeParams) (min_base_fee : Z) :
    result (fault EIP1559ParamError) (list Z) :=
  match write_jovian params defaults min_base_fee (replicate 17 0) with
  | (Ok _, extra_data) => Ok extra_data
  | (Err e, _) => Err e
  end.

(** * Blocks *)

(** A transaction of an L2 block: its type, its encoding, and the calldata if it
    is a deposit. *)
Record L2Tx : Type := mkL2Tx {
  l2_ty : Z;
  l2_encoded : list Z;
  deposit_input : option (list Z);
}.

(** [BaseBlock], as derivation reads it; the hash is [hash_slow] of the header. *)
Record BaseBlock : Type := mkBaseBlock {
  bb_hash : Z;
  bb_number : Z;
  bb_parent_hash : Z;
  bb_timestamp : Z;
  bb_gas_limit : Z;
  bb_extra_data : list Z;
  bb_transactions : list L2Tx;
}.

Definition is_deposit_tx (tx : L2Tx) : bool := bool_decide (is_Some (deposit_input tx)).

(** [BlockInfo::from] *)
Definition block_info_of (b : BaseBlock) : BlockInfo :=
  mkBlockInfo (bb_hash b) (bb_number b) (bb_parent_hash b) (bb_timestamp b).

Inductive FromBlockError : Type :=
| InvalidGenesisHash
| MissingL1InfoDeposit (hash : Z)
| UnexpectedTxType (ty : Z)
| FirstTxNonDeposit (ty : Z)
| BlockInfoDecodeError (e : DecodeError).

(** The L1 info transaction at the top of a block, once there is a transaction. *)
Definition first_info (tx : L2Tx) : result (fault FromBlockError) L1BlockInfoTx :=
  match deposit_input tx with
  | None => Err (Fail (FirstTxNonDeposit (l2_ty tx)))
  | Some data => map_fail BlockInfoDecodeError (decode_calldata data)
  end.

(** [L2BlockInfo::from_block_and_genesis] *)
Definition from_block_and_genesis (b : BaseBlock) (g : ChainGenesis) : result (fault FromBlockError) L2BlockInfo :=
  if bb_number b =? num (genesis_l2 g)
  then
    if negb (bb_hash b =? num_hash (genesis_l2 g)) then Err (Fail InvalidGenesisHash)
    else Ok (mkL2BlockInfo (block_info_of b) (genesis_l1 g) 0)
  else
    match bb_transactions b with
    | [] => Err (Fail (MissingL1InfoDeposit (bb_hash b)))
    | tx :: _ =>
        l1_info ← first_info tx;
        Ok (mkL2BlockInfo (block_info_of b) (info_id l1_info) (info_sequence_number l1_info))
    end.

Inductive BaseBlockConversionError : Type :=
| ConvInvalidGenesisHash (expected got : Z)
| InvalidTxType (ty : Z)
| L1InfoError (e : DecodeError)
| MissingSystemConfigGenesis
| EmptyTransactions (hash : Z)
| Eip1559DecodeError (e : EIP1559ParamError).

(** [encode_scalar] *)
Definition encode_scalar (blob_base_fee_scalar base_fee_scalar : Z) : Z :=
  be_val ([1] ++ replicate 23 0 ++ be_bytes 4 blob_base_fee_scalar ++ be_bytes 4 base_fee_scalar).

Definition ecotone_scalar (e : L1BlockInfoEcotoneBase) : Z :=
  encode_scalar (i_blob_base_fee_scalar e) (i_base_fee_scalar e).
Definition info_scalar (i : L1BlockInfoTx) : Z :=
  match i with
  | Bedrock i => i_l1_fee_scalar i
  | Ecotone i => ecotone_scalar (ecotone_base i)
  | Isthmus i => ecotone_scalar (isthmus_base i)
  | Jovian i => ecotone_scalar (isthmus_base (jovian_base i))
  end.

(** Denominator, elasticity and minimum base fee of the extra data, by fork. *)
Definition extra_params (cfg : RollupConfig) (b : BaseBlock) :
    result (fault EIP1559ParamError) (option Z * option Z * option Z) :=
  if is_jovian_active cfg (bb_timestamp b) then
    '(elasticity, denominator, min_fee) ← jovian_decode (bb_extra_data b);
    mret (Some denominator, Some elasticity, Some min_fee)
  else if is_holocene_active cfg (bb_timestamp b) then
    '(elasticity, denominator) ← holocene_decode (bb_extra_data b);
    mret (Some denominator, Some elasticity, None)
  else mret (None, None, None).

(** [to_system_config]; [genesis_config] is the system configuration of the genesis. *)
Definition to_system_config (genesis_config : option SystemConfig) (cfg : RollupConfig) (b : BaseBlock) :
    result (fault BaseBlockConversionError) SystemConfig :=
  let l2 := genesis_l2 (genesis cfg) in
  if bb_number b =? num l2
  then
    if negb (bb_hash b =? num_hash l2) then Err (Fail (ConvInvalidGenesisHash (num_hash l2) (bb_hash b)))
    else match genesis_config with Some c => Ok c | None => Err (Fail MissingSystemConfigGenesis) end
  else
    match bb_transactions b with
    | [] => Err (Fail (EmptyTransactions (bb_hash b)))
    | tx :: _ =>
        match deposit_input tx with
        | None => Err (Fail (InvalidTxType (l2_ty tx)))
        | Some data =>
            l1_info ← map_fail L1InfoError (decode_calldata data);
            '(denominator, elasticity, min_fee) ← map_fail Eip1559DecodeError (extra_params cfg b);
            let isthmus := is_isthmus_active cfg (bb_timestamp b) in
            Ok (mkSystemConfig (info_batcher_address l1_info) (info_l1_fee_overhead l1_info) (info_scalar l1_info)
              (bb_gas_limit b) None None denominator elasticity
              (if isthmus then Some (info_operator_fee_scalar l1_info) else None)
              (if isthmus then Some (info_operator_fee_constant l1_info) else None)
              min_fee (da_footprint l1_info))
        end
    end.

(** * Round trip of the calldata *)

Record base_ok (b : L1BlockInfoBedrockBase) : Prop := {
  bok_number : fits U64_MAX (i_number b);
  bok_time : fits U64_MAX (i_time b);
  bok_base_fee : fits U64_MAX (i_base_fee b);
  bok_hash : fits U256_MAX (i_block_hash b);
  bok_seq : fits U64_MAX (i_sequence_number b);
  bok_batcher : address_ok (i_batcher_address b);
}.
Record ecotone_base_ok (e : L1BlockInfoEcotoneBase) : Prop := {
  eok_base : base_ok (eb_base e);
  eok_blob_fee : fits U128_MAX (i_blob_base_fee e);
  eok_blob_scalar : fits U32_MAX (i_blob_base_fee_scalar e);
  eok_base_scalar : fits U32_MAX (i_base_fee_scalar e);
}.
Record isthmus_ok (i : L1BlockInfoIsthmus) : Prop := {
  iok_base : ecotone_base_ok (isthmus_base i);
  iok_scalar : fits U32_MAX (i_operator_fee_scalar i);
  iok_constant : fits U64_MAX (i_operator_fee_constant i);
}.
(** The fields are within the ranges of their types. *)
Definition info_ok (i : L1BlockInfoTx) : Prop :=
  match i with
  | Bedrock i => base_ok (bedrock_base i) /\ fits U256_MAX (i_l1_fee_overhead i) /\ fits U256_MAX (i_l1_fee_scalar i)
  | Ecotone i => ecotone_base_ok (ecotone_base i)
  | Isthmus i => isthmus_ok i
  | Jovian i => isthmus_ok (jovian_base i) /\ fits U16_MAX (i_da_footprint_gas_scalar i)
  end.
(** What the calldata keeps: not the two fields of Ecotone that are used for its
    first block only, and a DA footprint scalar of zero stands for the default. *)
Definition canonical (i : L1BlockInfoTx) : L1BlockInfoTx :=
  match i with
  | Ecotone i => Ecotone (mkEcotone (ecotone_base i) false 0)
  | Jovian i =>
      let da := i_da_footprint_gas_scalar i in
      Jovian (mkJovian (jovian_base i) (if da =? 0 then DEFAULT_DA_FOOTPRINT else da))
  | i => i
  end.

Lemma read_be_word ws i (w k n : nat) m v a b :
  ws !! i = Some (be_bytes w v) -> w = (k + n)%nat -> zlen (concat (take i ws)) + Z.of_nat k = a -> a + Z.of_nat n = b ->
  m + 1 = 256 ^ Z.of_nat n -> fits m v -> read_be (concat ws) a b = Ok v.
Proof.
  intros Hi -> Ha Hb Hm Hv. unfold read_be.
  rewrite (slice_word ws i (be_bytes (k + n) v) (Z.of_nat k) (Z.of_nat n)); try done; try lia.
  - cbn [mbind result_bind]. rewrite !Nat2Z.id, drop_be_bytes, take_ge by (by rewrite length_be_bytes).
    unfold mret, result_ret. by rewrite (be_val_fits n m).
  - unfold zlen. rewrite length_be_bytes. lia.
Qed.

(** Reduce projections of the fields. *)
Ltac info_fields :=
  cbn [negb app eb_base i_number i_time i_base_fee i_block_hash i_sequence_number i_batcher_address i_base_fee_scalar
    i_blob_base_fee_scalar i_blob_base_fee bedrock_base i_l1_fee_overhead i_l1_fee_scalar isthmus_base
    i_operator_fee_scalar i_operator_fee_constant jovian_base i_da_footprint_gas_scalar ecotone_base] in *.
(** Evaluate the read of the low [n] bytes of field [i], after [k] zero bytes. *)
Ltac read_field i k n m :=
  lazymatch goal with |- mbind _ (read_be _ ?a ?b) = _ =>
    erewrite (read_be_word _ i _ k n m _ a b); [rewrite bind_ok|reflexivity|reflexivity|word_len|reflexivity|reflexivity|assumption] end.

Lemma bedrock_len i : zlen (concat (bedrock_words i)) = BEDROCK_LEN.
Proof. destruct i as [[] oh sc]. unfold bedrock_words, BEDROCK_SELECTOR, BEDROCK_LEN. word_len. Qed.
Lemma ecotone_len sel e : length sel = 4%nat -> zlen (concat (sel :: ecotone_body e)) = ECOTONE_LEN.
Proof. intros. destruct e as [[]]. unfold ecotone_body, ECOTONE_LEN. word_len. Qed.
Lemma isthmus_len sel i : length sel = 4%nat -> zlen (concat (sel :: isthmus_body i)) = ISTHMUS_LEN.
Proof. intros. destruct i as [[[]]]. unfold isthmus_body, ecotone_body, ISTHMUS_LEN. cbn [isthmus_base]. word_len. Qed.
Lemma jovian_len sel i : length sel = 4%nat -> zlen (concat (sel :: jovian_body i)) = JOVIAN_LEN.
Proof. intros. destruct i as [[[[]]]]. unfold jovian_body, isthmus_body, ecotone_body, JOVIAN_LEN. cbn [jovian_base isthmus_base]. word_len. Qed.

Lemma decode_bedrock_words i :
  info_ok (Bedrock i) -> decode_bedrock (concat (bedrock_words i)) = Ok i.
Proof.
  intros ([] & Ho & Hs). destruct i as [[] oh sc]. unfold decode_bedrock.
  rewrite bedrock_len, Z.eqb_refl. unfold bedrock_words, BEDROCK_SELECTOR.
  info_fields.
  read_field 1%nat 24%nat 8%nat U64_MAX. read_field 2%nat 24%nat 8%nat U64_MAX. read_field 3%nat 24%nat 8%nat U64_MAX.
  read_field 4%nat 0%nat 32%nat U256_MAX. read_field 5%nat 24%nat 8%nat U64_MAX.
  read_field 6%nat 12%nat 20%nat (2 ^ 160 - 1). read_field 7%nat 0%nat 32%nat U256_MAX.
  read_field 8%nat 0%nat 32%nat U256_MAX. done.
Qed.

(** The fields of Ecotone, after a selector and before more fields. *)
Lemma decode_ecotone_words sel e rest :
  length sel = 4%nat -> ecotone_base_ok e ->
  decode_ecotone_body (concat (sel :: ecotone_body e ++ rest)) = Ok e.
Proof.
  intros Hl [[] Hf Hb Hs]. destruct e as [[] bf bs s]. destruct sel as [|s1 [|s2 [|s3 [|s4 []]]]]; try done.
  unfold decode_ecotone_body, ecotone_body.
  info_fields.
  read_field 1%nat 0%nat 4%nat U32_MAX. read_field 2%nat 0%nat 4%nat U32_MAX. read_field 3%nat 0%nat 8%nat U64_MAX.
  read_field 4%nat 0%nat 8%nat U64_MAX. read_field 5%nat 0%nat 8%nat U64_MAX. read_field 6%nat 24%nat 8%nat U64_MAX.
  read_field 7%nat 16%nat 16%nat U128_MAX. read_field 8%nat 0%nat 32%nat U256_MAX.
  read_field 9%nat 12%nat 20%nat (2 ^ 160 - 1). done.
Qed.

Lemma decode_isthmus_words sel i rest :
  length sel = 4%nat -> isthmus_ok i ->
  decode_isthmus_body (concat (sel :: isthmus_body i ++ rest)) = Ok i.
Proof.
  intros Hl [He Hs Hc]. unfold decode_isthmus_body, isthmus_body. rewrite <- app_assoc, decode_ecotone_words, bind_ok by done.
  destruct i as [[[] bf bs s] os oc].
  destruct sel as [|s1 [|s2 [|s3 [|s4 []]]]]; try done. unfold ecotone_body. info_fields.
  read_field 10%nat 0%nat 4%nat U32_MAX. read_field 11%nat 0%nat 8%nat U64_MAX. done.
Qed.

Lemma decode_jovian_words sel i :
  length sel = 4%nat -> info_ok (Jovian i) ->
  (j ← decode_jovian_body (concat (sel :: jovian_body i)); mret (Jovian j)) = Ok (canonical (Jovian i)).
Proof.
  intros Hl [Hi Hd]. unfold decode_jovian_body, jovian_body. rewrite decode_isthmus_words, bind_ok by done.
  destruct i as [[[[] bf bs s] os oc] da].
  destruct sel as [|s1 [|s2 [|s3 [|s4 []]]]]; try done. unfold isthmus_body, ecotone_body. info_fields.
  erewrite (read_be_word _ 12 _ 0 2 U16_MAX _ 176 178); [done|reflexivity|reflexivity|word_len|done|done|done].
Qed.

(** The selector of the calldata decides the decoder. *)
Lemma decode_calldata_selector sel ws :
  length sel = 4%nat ->
  decode_calldata (concat (sel :: ws)) =
  if decide (sel = BEDROCK_SELECTOR) then i ← decode_bedrock (concat (sel :: ws)); mret (Bedrock i)
  else if decide (sel = ECOTONE_SELECTOR) then i ← decode_ecotone (concat (sel :: ws)); mret (Ecotone i)
  else if decide (sel = ISTHMUS_SELECTOR) then i ← decode_isthmus (concat (sel :: ws)); mret (Isthmus i)
  else if decide (sel = JOVIAN_SELECTOR) then i ← decode_jovian (concat (sel :: ws)); mret (Jovian i)
  else Err (Fail InvalidSelector).
Proof.
  intros Hl. unfold decode_calldata.
  assert (zlen (concat (sel :: ws)) = 4 + zlen (concat ws)) as Hz by (cbn [concat]; rewrite zlen_app; unfold zlen; lia).
  rewrite (proj2 (Z.ltb_ge _ _)) by (rewrite Hz; pose proof (zlen_nonneg (concat ws)); lia).
  rewrite (slice_word (sel :: ws) 0 sel 0 4 0 4), bind_ok; [|done|done|lia|lia|lia|unfold zlen; lia].
  change (Z.to_nat 0) with 0%nat. rewrite drop_0, take_ge by lia. done.
Qed.

Lemma info_roundtrip i : info_ok i -> decode_calldata (encode_calldata i) = Ok (canonical i).
Proof.
  intros Hi. unfold encode_calldata, info_words. destruct i as [i|i|i|i].
  - pose proof (decode_bedrock_words i Hi) as Hd. destruct i as [[] oh sc]. unfold bedrock_words in *.
    rewrite decode_calldata_selector, decide_True, Hd by done. done.
  - rewrite decode_calldata_selector, decide_False, decide_True by done. unfold decode_ecotone.
    rewrite ecotone_len, Z.eqb_refl by done. cbn [negb].
    rewrite <- (app_nil_r (ecotone_body _)), decode_ecotone_words, bind_ok by done. done.
  - rewrite decode_calldata_selector, !decide_False, decide_True by done. unfold decode_isthmus.
    rewrite isthmus_len, Z.eqb_refl by done. cbn [negb].
    rewrite <- (app_nil_r (isthmus_body _)), decode_isthmus_words, bind_ok by done. done.
  - rewrite decode_calldata_selector, !decide_False, decide_True by done. unfold decode_jovian.
    rewrite jovian_len, Z.eqb_refl by done. cbn [negb]. by rewrite decode_jovian_words.
Qed.

(** Decoding calldata never panics. *)
Lemma read_be_returns r a b : 0 <= a <= b -> b <= zlen r -> returns (read_be r a b).
Proof. intros. apply bind_returns; [by apply slice_returns|intros; apply ok_returns]. Qed.

Ltac read_returns :=
  repeat first [apply bind_returns; [apply read_be_returns; [lia|lia]|intros ? _] | apply ok_returns].

Lemma decode_ecotone_body_returns r : 164 <= zlen r -> returns (decode_ecotone_body r).
Proof. intros. unfold decode_ecotone_body. read_returns. Qed.
Lemma decode_isthmus_body_returns r : 176 <= zlen r -> returns (decode_isthmus_body r).
Proof.
  intros. unfold decode_isthmus_body. apply bind_returns; [apply decode_ecotone_body_returns; lia|]. intros ? _. read_returns.
Qed.

Lemma decode_calldata_returns r : returns (decode_calldata r).
Proof.
  unfold decode_calldata, decode_bedrock, decode_ecotone, decode_isthmus, decode_jovian, decode_jovian_body,
    BEDROCK_LEN, ECOTONE_LEN, ISTHMUS_LEN, JOVIAN_LEN.
  repeat ret_step; zbool; try lia; (apply bind_returns; [|intros; apply ok_returns]); ret_step; try apply fail_returns;
    zbool.
  - read_returns.
  - apply bind_returns; [apply decode_ecotone_body_returns; lia|intros; apply ok_returns].
  - apply decode_isthmus_body_returns; lia.
  - apply bind_returns; [apply decode_isthmus_body_returns; lia|]. intros ? _. read_returns.
Qed.

(** * The system configuration survives a block *)

Lemma unpack_encode_scalar a b :
  fits U32_MAX a -> fits U32_MAX b -> unpack_scalar (encode_scalar a b) = (a, b).
Proof.
  intros Ha Hb. unfold unpack_scalar, encode_scalar. rewrite be_bytes_be_val.
  - cbn [app replicate head default drop]. change (_ =? L1_SCALAR) with true. cbv iota.
    rewrite drop_0, take_app_length', drop_app_length' by (by rewrite length_be_bytes).
    by rewrite !(be_val_fits 4 U32_MAX).
  - apply Forall_app_2; [by_eval|]. apply Forall_app_2; [by_eval|]. apply Forall_app_2; apply be_bytes_ok.
  - by rewrite !length_app, !length_be_bytes.
Qed.

Lemma unpack_scalar_fits sc : let '(a, b) := unpack_scalar sc in fits U32_MAX a /\ fits U32_MAX b.
Proof.
  assert (forall l, bytes_ok l -> length l = 4%nat -> fits U32_MAX (be_val l)) as H4.
  { intros l Hl Hn. pose proof (be_val_bound l Hl) as Hb. rewrite Hn in Hb. change (256 ^ Z.of_nat 4) with (U32_MAX + 1) in Hb.
    unfold fits. lia. }
  unfold unpack_scalar. split.
  - destruct (_ =? _); [|done]. apply H4; [apply Forall_take, Forall_drop, be_bytes_ok|].
    by rewrite length_take, length_drop, length_be_bytes.
  - apply H4; [apply Forall_drop, be_bytes_ok|]. by rewrite length_drop, length_be_bytes.
Qed.

(** The parameters that end up in the extra data: the defaults stand for zero. *)
Definition effective (params : list Z) (d : BaseFeeParams) : list Z :=
  if forallb (fun b => b =? 0) params
  then be_bytes 4 (max_change_denominator d) ++ be_bytes 4 (elasticity_multiplier d) else params.

Definition defaults_ok (d : BaseFeeParams) : Prop :=
  fits U32_MAX (max_change_denominator d) /\ fits U32_MAX (elasticity_multiplier d).

Lemma length_effective params d : length params = 8%nat -> length (effective params d) = 8%nat.
Proof. intros Hl. unfold effective. destruct (forallb _ _); [by rewrite length_app, !length_be_bytes|done]. Qed.
Lemma effective_ok params d : bytes_ok params -> bytes_ok (effective params d).
Proof. intros Hb. unfold effective. destruct (forallb _ _); [apply Forall_app_2; apply be_bytes_ok|done]. Qed.
Lemma effective_idem params d : effective (effective params d) d = effective params d.
Proof. unfold effective. destruct (forallb _ params) eqn:Ez; [by destruct (forallb _ (_ ++ _))|by rewrite Ez]. Qed.

(** Writing the parameters into a buffer after one byte. *)
Lemma encode_params_run v params d rest :
  length params = 8%nat -> bytes_ok params -> defaults_ok d ->
  encode_eip_1559_params params d (v :: replicate 8 0 ++ rest) = (Ok tt, v :: effective params d ++ rest).
Proof.
  intros Hl Hb [Hd He]. unfold encode_eip_1559_params.
  erewrite bind_run by reflexivity.
  rewrite (proj2 (Z.ltb_ge _ _)) by (unfold zlen; cbn [length]; rewrite length_app, length_replicate; lia).
  assert (forall a b, length a = 4%nat -> length b = 4%nat ->
    (copy_to (E := EIP1559ParamError) 1 5 a ;; copy_to 5 9 b) (v :: replicate 8 0 ++ rest) = (Ok tt, v :: (a ++ b) ++ rest)) as Hc.
  { intros a b Ha Hb'. destruct a as [|a1 [|a2 [|a3 [|a4 []]]]], b as [|b1 [|b2 [|b3 [|b4 []]]]]; try done.
    unfold mbind, stm_bind, copy_to, zlen. cbn [length app replicate]. guard_true.
    change (Z.to_nat 1) with 1%nat. change (Z.to_nat 5) with 5%nat. change (Z.to_nat 9) with 9%nat.
    cbn [take drop app length]. by guard_true. }
  unfold effective. destruct (forallb _ params).
  - unfold guard_err. rewrite !Z.gtb_ltb, !(proj2 (Z.ltb_ge _ _)) by apply Hd || apply He.
    erewrite !bind_run by reflexivity. apply Hc; apply length_be_bytes.
  - unfold decode_params. rewrite Hc by apply length_be_bytes. do 3 f_equal.
    rewrite (take_ge (drop 4 params)) by (rewrite length_drop; lia).
    rewrite !be_bytes_be_val; [apply take_drop|by apply Forall_drop|rewrite length_drop; lia|by apply Forall_take|rewrite length_take; lia].
Qed.

Lemma jovian_encode_run params d m :
  length params = 8%nat -> bytes_ok params -> defaults_ok d ->
  jovian_encode params d m = Ok ([1] ++ effective params d ++ be_bytes 8 m).
Proof.
  intros Hl Hb Hd. unfold jovian_encode, write_jovian. erewrite bind_run by reflexivity.
  change (<[Z.to_nat 0 := 1]> (replicate 17 0)) with (1 :: replicate 8 0 ++ replicate 8 0).
  erewrite bind_run by (by apply encode_params_run).
  pose proof (length_effective params d Hl) as He.
  change (1 :: effective params d ++ replicate 8 0) with ((1 :: effective params d) ++ replicate 8 0).
  rewrite <- (app_nil_r (replicate 8 0)).
  change 9 with (9 + 0) at 1. change 17 with (9 + 8) at 1.
  replace 9 with (zlen (1 :: effective params d)) by (unfold zlen; cbn [length]; rewrite He; done).
  rewrite copy_to_middle by (try done; unfold zlen; rewrite length_be_bytes; done).
  cbn [Z.to_nat take app]. change (drop (Z.to_nat 8) (replicate 8 0)) with (@nil Z). by rewrite !app_nil_r.
Qed.

Lemma jovian_decode_run params m :
  length params = 8%nat -> fits U64_MAX m ->
  jovian_decode ([1] ++ params ++ be_bytes 8 m) = Ok (be_val (drop 4 params), be_val (take 4 params), m).
Proof.
  intros Hl Hm. destruct params as [|p1 [|p2 [|p3 [|p4 [|p5 [|p6 [|p7 [|p8 []]]]]]]]]; try done.
  change ([1] ++ _ ++ _) with ([1; p1; p2; p3; p4; p5; p6; p7; p8] ++ be_bytes 8 m).
  unfold jovian_decode. replace (zlen _ =? 17) with true by (symmetry; apply Z.eqb_eq; unfold zlen; rewrite length_app, length_be_bytes; done).
  cbn [negb]. rewrite <- (app_nil_r (be_bytes 8 m)).
  change ([1; p1; p2; p3; p4; p5; p6; p7; p8] ++ be_bytes 8 m ++ [])
    with (concat [[1]; [p1; p2; p3; p4]; [p5; p6; p7; p8]; be_bytes 8 m]).
  byte_word 0%nat 0%nat. cbn [negb Z.eqb Pos.eqb]. read_word 1%nat 0 4. read_word 2%nat 0 4. read_word 3%nat 0 8.
  change (Z.to_nat 0) with 0%nat. rewrite !drop_0, (take_ge (be_bytes 8 m)) by (by rewrite length_be_bytes).
  by rewrite (be_val_fits 8 U64_MAX).
Qed.

(** The system configuration has values of its types. *)
Record config_ok (sc : SystemConfig) : Prop := {
  cok_batcher : address_ok (batcher_address sc);
  cok_denominator : fits U32_MAX (default 0 (eip1559_denominator sc));
  cok_elasticity : fits U32_MAX (default 0 (eip1559_elasticity sc));
  cok_operator_scalar : fits U32_MAX (default 0 (operator_fee_scalar sc));
  cok_operator_constant : fits U64_MAX (default 0 (operator_fee_constant sc));
  cok_min_base_fee : fits U64_MAX (default 0 (min_base_fee sc));
  cok_da : fits U16_MAX (default 0 (da_footprint_gas_scalar sc));
}.
Record header_ok `{BlobFees} (h : L1Header) : Prop := {
  hok_number : fits U64_MAX (h_number h);
  hok_time : fits U64_MAX (h_timestamp h);
  hok_base_fee : fits U64_MAX (default 0 (h_base_fee_per_gas h));
  hok_hash : fits U256_MAX (h_hash h);
  hok_blob_fee : forall p, fits U128_MAX (default 1 (blob_fee h p));
}.

(** Jovian is active and this is not its first block. *)
Definition past_jovian (cfg : RollupConfig) (ts : Z) : Prop :=
  is_jovian_active cfg ts = true /\ is_jovian_active cfg (sat_sub ts (block_time cfg)) = true.

Section survives.
Context `{BlobFees, Keccak256}.
Variables (cfg : RollupConfig) (l1 : L1Config).

Lemma jovian_mono ts ts' : ts <= ts' -> is_jovian_active cfg ts = true -> is_jovian_active cfg ts' = true.
Proof. apply since_mono. Qed.
Lemma past_jovian_mono ts ts' : ts <= ts' -> past_jovian cfg ts -> past_jovian cfg ts'.
Proof. intros Ht [H1 H2]. split; [by apply (jovian_mono ts)|]. revert H2. apply jovian_mono. unfold sat_sub. lia. Qed.

Lemma jovian_isthmus ts : is_jovian_active cfg ts = true -> is_isthmus_active cfg ts = true.
Proof. intros Hj. unfold is_isthmus_active. rewrite Hj. apply orb_true_r. Qed.
Lemma jovian_ecotone ts : is_jovian_active cfg ts = true -> is_ecotone_active cfg ts = true.
Proof.
  intros Hj%jovian_isthmus. unfold is_ecotone_active, is_fjord_active, is_granite_active, is_holocene_active.
  by rewrite Hj, !orb_true_r.
Qed.
Lemma jovian_holocene ts : is_jovian_active cfg ts = true -> is_holocene_active cfg ts = true.
Proof. intros Hj%jovian_isthmus. unfold is_holocene_active. by rewrite Hj, orb_true_r. Qed.

(** The transaction of a block past the first of Jovian. *)
Definition jovian_info (sc : SystemConfig) (seq : Z) (h : L1Header) : L1BlockInfoJovian :=
  let '(blob_scalar, base_scalar) := unpack_scalar (scalar sc) in
  let da := default DEFAULT_DA_FOOTPRINT (da_footprint_gas_scalar sc) in
  mkJovian
    (mkIsthmus
      (mkEcotoneBase
        (mkBedrockBase (h_number h) (h_timestamp h) (default 0 (h_base_fee_per_gas h)) (h_hash h) seq (batcher_address sc))
        (default 1 (blob_fee h (blob_fee_config cfg l1 (h_timestamp h)))) blob_scalar base_scalar)
      (default 0 (operator_fee_scalar sc)) (default 0 (operator_fee_constant sc)))
    (if da =? 0 then DEFAULT_DA_FOOTPRINT else da).

Lemma try_new_jovian sc seq h ts : past_jovian cfg ts -> try_new cfg l1 sc seq h ts = Jovian (jovian_info sc seq h).
Proof.
  intros [H1 H2]. unfold try_new, is_first_block, jovian_info.
  rewrite (jovian_ecotone _ H1), (jovian_ecotone _ H2), H1, H2. cbn [negb andb orb].
  by destruct (unpack_scalar (scalar sc)).
Qed.

Lemma jovian_info_ok sc seq h :
  config_ok sc -> header_ok h -> fits U64_MAX seq -> info_ok (Jovian (jovian_info sc seq h)).
Proof.
  intros [] [? ? ? ? Hb] Hs. unfold jovian_info. pose proof (unpack_scalar_fits (scalar sc)) as Hu.
  destruct (unpack_scalar (scalar sc)) as [a b]. destruct Hu.
  split; [constructor; [constructor; [by constructor|apply Hb|done|done]|done..]|].
  cbn [i_da_footprint_gas_scalar]. destruct (da_footprint_gas_scalar sc) as [da|]; [|done]. cbn [default id from_option] in *.
  by destruct (da =? 0).
Qed.
Lemma jovian_info_canonical sc seq h : canonical (Jovian (jovian_info sc seq h)) = Jovian (jovian_info sc seq h).
Proof.
  unfold jovian_info. destruct (unpack_scalar (scalar sc)) as [a b]. cbn [canonical jovian_base i_da_footprint_gas_scalar].
  do 2 f_equal. destruct (default DEFAULT_DA_FOOTPRINT (da_footprint_gas_scalar sc) =? 0) eqn:E; [done|by rewrite E].
Qed.

(** The EIP-1559 parameters of a configuration, once Holocene is active. *)
Definition params_of (sc : SystemConfig) : list Z :=
  be_bytes 4 (default 0 (eip1559_denominator sc)) ++ be_bytes 4 (default 0 (eip1559_elasticity sc)).
Lemma params_of_run sc parent_ts ts :
  is_holocene_active cfg parent_ts = true -> is_holocene_active cfg ts = true ->
  eip_1559_params sc cfg parent_ts ts = Some (params_of sc).
Proof. intros Hp Ht. unfold eip_1559_params. by rewrite Hp, Ht. Qed.
Lemma params_of_ok sc : length (params_of sc) = 8%nat /\ bytes_ok (params_of sc).
Proof. unfold params_of. rewrite length_app, !length_be_bytes. split; [done|]. apply Forall_app_2; apply be_bytes_ok. Qed.

(** A block past the first of Jovian that was built with the configuration [sc]:
    its first transaction is the L1 info transaction, its extra data holds the
    parameters of [sc] over the defaults of the chain, and its gas limit is the one
    of [sc]. *)
Record built_with (defaults : BaseFeeParams) (sc : SystemConfig) (seq : Z) (h : L1Header) (b : BaseBlock) : Prop := {
  bw_number : bb_number b <> num (genesis_l2 (genesis cfg));
  bw_jovian : past_jovian cfg (bb_timestamp b);
  bw_info : exists tx txs, bb_transactions b = tx :: txs /\
    deposit_input tx = Some (input (try_new_with_deposit_tx cfg l1 sc seq h (bb_timestamp b)).2);
  bw_extra : jovian_encode (params_of sc) defaults (default 0 (min_base_fee sc)) = Ok (bb_extra_data b);
  bw_gas : bb_gas_limit b = gas_limit sc;
}.

(** The configuration recovered from such a block. *)
Definition recovered (defaults : BaseFeeParams) (sc : SystemConfig) : SystemConfig :=
  let p := effective (params_of sc) defaults in
  let '(blob_scalar, base_scalar) := unpack_scalar (scalar sc) in
  let da := default DEFAULT_DA_FOOTPRINT (da_footprint_gas_scalar sc) in
  mkSystemConfig (batcher_address sc) 0 (encode_scalar blob_scalar base_scalar) (gas_limit sc) None None
    (Some (be_val (take 4 p))) (Some (be_val (drop 4 p))) (Some (default 0 (operator_fee_scalar sc)))
    (Some (default 0 (operator_fee_constant sc))) (Some (default 0 (min_base_fee sc)))
    (Some (if da =? 0 then DEFAULT_DA_FOOTPRINT else da)).

Lemma to_system_config_run genesis_config defaults sc seq h b :
  config_ok sc -> header_ok h -> fits U64_MAX seq -> defaults_ok defaults -> built_with defaults sc seq h b ->
  to_system_config genesis_config cfg b = Ok (recovered defaults sc).
Proof.
  intros Hc Hh Hs Hd [Hn Hj (tx & txs & Ht & Hi) He Hg]. unfold to_system_config.
  rewrite (proj2 (Z.eqb_neq _ _)) by done. rewrite Ht, Hi. cbn [try_new_with_deposit_tx snd input].
  rewrite try_new_jovian, info_roundtrip, jovian_info_canonical by (done || by apply jovian_info_ok).
  cbn [map_fail]. rewrite bind_ok. destruct Hj as [Hj _]. unfold extra_params. rewrite Hj.
  destruct (params_of_ok sc) as [Hpl Hpb].
  rewrite jovian_encode_run in He by done.
  assert (bb_extra_data b = [1] ++ effective (params_of sc) defaults ++ be_bytes 8 (default 0 (min_base_fee sc))) as -> by congruence.
  rewrite jovian_decode_run by (try apply Hc; by apply length_effective).
  cbn [map_fail mbind result_bind mret result_ret]. rewrite (jovian_isthmus _ Hj), Hg.
  unfold jovian_info, recovered. by destruct (unpack_scalar (scalar sc)).
Qed.

Lemma recovered_info defaults sc seq h : jovian_info (recovered defaults sc) seq h = jovian_info sc seq h.
Proof.
  unfold jovian_info, recovered. pose proof (unpack_scalar_fits (scalar sc)) as Hu.
  destruct (unpack_scalar (scalar sc)) as [a b]. destruct Hu. cbn [scalar]. rewrite unpack_encode_scalar by done.
  cbn [batcher_address operator_fee_scalar operator_fee_constant da_footprint_gas_scalar from_option id]. f_equal.
  destruct (default DEFAULT_DA_FOOTPRINT (da_footprint_gas_scalar sc) =? 0) eqn:Ed; [done|by rewrite Ed].
Qed.
Lemma recovered_params defaults sc : params_of (recovered defaults sc) = effective (params_of sc) defaults.
Proof.
  destruct (params_of_ok sc) as [Hl Hb]. apply (length_effective _ defaults) in Hl. apply (effective_ok _ defaults) in Hb.
  unfold params_of at 1, recovered. destruct (unpack_scalar (scalar sc)). cbn [eip1559_denominator eip1559_elasticity from_option id].
  rewrite !be_bytes_be_val; [apply take_drop|by apply Forall_drop|rewrite length_drop; lia|by apply Forall_take|rewrite length_take; lia].
Qed.
Lemma recovered_rest defaults sc :
  gas_limit (recovered defaults sc) = gas_limit sc /\
  min_base_fee (recovered defaults sc) = Some (default 0 (min_base_fee sc)).
Proof. unfold recovered. by destruct (unpack_scalar (scalar sc)). Qed.

(** The system configuration survives a block. It is not stored anywhere: it is
    read back from the L1 info transaction and the header of the last block. For a
    block past the first of Jovian built with a configuration, reading it back
    succeeds, and the result has the effect of the original one: for every later
    block time, L1 header and sequence number it gives the same L1 info
    transaction, the same gas limit, and the same EIP-1559 parameters and minimum
    base fee in the extra data of the next header. *)
Theorem config_survives genesis_config defaults sc seq h b :
  config_ok sc -> header_ok h -> fits U64_MAX seq -> defaults_ok defaults -> built_with defaults sc seq h b ->
  exists sc', to_system_config genesis_config cfg b = Ok sc' /\ gas_limit sc' = gas_limit sc /\
    forall seq' h' ts', bb_timestamp b <= ts' ->
      try_new_with_deposit_tx cfg l1 sc' seq' h' ts' = try_new_with_deposit_tx cfg l1 sc seq' h' ts' /\
      exists p p', eip_1559_params sc cfg (bb_timestamp b) ts' = Some p /\
        eip_1559_params sc' cfg (bb_timestamp b) ts' = Some p' /\
        jovian_encode p' defaults (default 0 (min_base_fee sc')) = jovian_encode p defaults (default 0 (min_base_fee sc)).
Proof.
  intros Hc Hh Hs Hd Hb. exists (recovered defaults sc). destruct (recovered_rest defaults sc) as [Hg Hm].
  split; [by apply (to_system_config_run _ _ _ seq h)|]. split; [done|].
  intros seq' h' ts' Ht. pose proof (bw_jovian _ _ _ _ _ Hb) as Hj. pose proof (past_jovian_mono _ _ Ht Hj) as Hj'. split.
  - unfold try_new_with_deposit_tx. by rewrite !try_new_jovian, recovered_info by done.
  - exists (params_of sc), (params_of (recovered defaults sc)). destruct Hj as [Hj _], Hj' as [Hj' _].
    rewrite !params_of_run by (by apply jovian_holocene). split_and!; [done|done|].
    destruct (params_of_ok sc) as [Hl Hb']. rewrite recovered_params, Hm, !jovian_encode_run;
      try done; [by rewrite effective_idem|by apply length_effective|by apply effective_ok].
Qed.
End survives.

(** The L1 info transaction of every fork round trips. For fields within their
    types, decoding the calldata gives the transaction back, up to what the
    calldata does not carry (two fields of the first Ecotone block; a DA footprint
    scalar of zero reads as the default 400). So a block that starts with it, other
    than the genesis block, is recovered with the L1 origin and the sequence number
    it was built with; and decoding any calldata returns (no panic). *)
Theorem l1_info_recovered i b tx txs g :
  info_ok i -> bb_transactions b = tx :: txs -> deposit_input tx = Some (encode_calldata i) ->
  bb_number b <> num (genesis_l2 g) ->
  decode_calldata (encode_calldata i) = Ok (canonical i) /\
  from_block_and_genesis b g = Ok (mkL2BlockInfo (block_info_of b) (info_id i) (info_sequence_number i)) /\
  forall r, returns (decode_calldata r).
Proof.
  intros Hi Ht Hd Hn. pose proof (info_roundtrip i Hi) as Hr. split_and!; [done| |apply decode_calldata_returns].
  unfold from_block_and_genesis. rewrite (proj2 (Z.eqb_neq _ _)), Ht by done. unfold first_info. rewrite Hd, Hr.
  cbn [map_fail]. rewrite bind_ok. by destruct i.
Qed.

Module L1InfoExample.
#[local] Instance fees : BlobFees :=
  {| BlobParams := unit; osaka_params := tt; prague_params := tt; cancun_params := tt; blob_fee _ _ := Some 7 |}.
#[local] Instance hash : Keccak256 := {| keccak256 b := be_val b |}.

Definition l1 : L1Config := mkL1Config _ (fun _ => None) None None.
Definition header : L1Header := mkL1Header 500 100 499 4000 (Some 30) 1 None.
Definition defaults : BaseFeeParams := mkBaseFeeParams 250 6.
(** No EIP-1559 parameters and no DA footprint scalar are set. *)
Definition sc : SystemConfig :=
  mkSystemConfig 9 0 (2 ^ 248 + 5 * 2 ^ 32 + 3) 30000000 None None None None (Some 8) (Some 2) (Some 100) None.
Definition cfg : RollupConfig := RollupExample.all_forks.

Definition info_tx : L2Tx := mkL2Tx 0x7E [] (Some (input (try_new_with_deposit_tx cfg l1 sc 3 header 5000).2)).
Definition extra : list Z := [1; 0; 0; 0; 250; 0; 0; 0; 6; 0; 0; 0; 0; 0; 0; 0; 100].
Definition block : BaseBlock := mkBaseBlock 77 10 76 5000 30000000 extra [info_tx].

Lemma config_survives_witness :
  exists sc', to_system_config None cfg block = Ok sc' /\ gas_limit sc' = 30000000.
Proof.
  destruct (config_survives cfg l1 None defaults sc 3 header block) as (sc' & Hs & Hg & _).
  - split; by_eval.
  - split; [by_eval..|intros; by_eval].
  - by_eval.
  - by_eval.
  - split; [done|done|by do 2 eexists|by vm_compute|done].
  - by exists sc'.
Defined.

Definition info : L1BlockInfoTx :=
  Jovian (mkJovian (mkIsthmus (mkEcotoneBase (mkBedrockBase 1 2 3 4 5 6) 7 8 9) 10 11) 0).

Lemma l1_info_recovered_witness :
  decode_calldata (encode_calldata info) = Ok (canonical info).
Proof.
  refine (proj1 (l1_info_recovered info (mkBaseBlock 77 10 76 5000 0 [] [mkL2Tx 0x7E [] (Some (encode_calldata info))])
    _ [] (mkChainGenesis (mkBlockNumHash 0 0) (mkBlockNumHash 0 0) 0) _ eq_refl eq_refl _)); [|done].
  split; [|by_eval]. constructor; [constructor; [constructor|..]|..]; by_eval.
Defined.
End L1InfoExample.
