(* ===== verification/Pipeline.v ===== *)
(** Interfaces of the derivation pipeline ([crates/consensus/derive]): its errors
    ([errors/pipeline.rs], [errors/sources.rs]) and the traits its stages
    implement for each other ([traits], [stages]). A trait is a class over the
    type of the stage; an operation of a stage is a stateful computation on it.
    Messages carried by errors are dropped. *)

From S2P Require Import Prelude Buffer Rollup SystemConfig Frames.

Inductive PipelineError : Type :=
| Eof
| NotEnoughData
| ChannelProviderEmpty
| ChannelAlreadyBuilt
| ChannelNotFound
| ChannelReaderEmpty
| BatchQueueEmpty
| MissingOrigin
| MissingL1Data
| InvalidBatchType
| InvalidBatchValidity
| SystemConfigUpdateErr
| AttributesBuilderErr
| BadEncoding
| EndOfSource
| Provider.

Inductive ResetError : Type :=
| BadParentHash (expected got : Z)
| BadTimestamp (expected got : Z)
| L1OriginMismatch (expected got : Z)
| ReorgDetected (expected got : Z)
| AttributesBuilderReset
| HoloceneActivation
| NextL1BlockHashMismatch (expected got : Z)
| BlobsUnavailable (slot : Z)
| BlobsUnderFill (expected got : Z)
| BlobsOverFill (expected got : Z)
| BlockNotFound (id : Z).

Inductive PipelineErrorKind : Type :=
| Temporary (e : PipelineError)
| Critical (e : PipelineError)
| Reset (e : ResetError).

#[export] Instance PipelineError_eq_dec : EqDecision PipelineError.
Proof. solve_decision. Defined.
#[export] Instance ResetError_eq_dec : EqDecision ResetError.
Proof. solve_decision. Defined.
#[export] Instance PipelineErrorKind_eq_dec : EqDecision PipelineErrorKind.
Proof. solve_decision. Defined.

(** An operation of a stage ([PipelineResult] of a method taking [&mut self]). *)
Abbreviation act S := (stm S (fault PipelineErrorKind)).

Definition temp {S A} (e : PipelineError) : act S A := throw (Fail (Temporary e)).
Definition crit {S A} (e : PipelineError) : act S A := throw (Fail (Critical e)).
Definition reset_with {S A} (e : ResetError) : act S A := throw (Fail (Reset e)).

(** [o.ok_or(e)?] *)
Definition ok_or {S A} (o : option A) (fail : act S A) : act S A :=
  match o with Some a => mret a | None => fail end.

(** [match m { Ok(..) => .., Err(e) => .. }]: the result as a value. *)
Definition try_run {S E A} (m : stm S E A) : stm S E (result E A) := fun s => let '(r, s) := m s in (Ok r, s).

(** * Traits *)

Class OriginProvider (P : Type) := { origin : P -> option BlockInfo }.
Class OriginAdvancer (P : Type) := { advance_origin : act P unit }.
Class StageReset (P : Type) := {
  reset : BlockNumHash -> SystemConfig -> act P unit;
  activate : act P unit;
  flush_channel : act P unit;
}.

Class L1RetrievalProvider (P : Type) := {
  next_l1_block : act P (option BlockInfo);
  batcher_addr : P -> Z;
}.
Class DataAvailabilityProvider (D : Type) := {
  da_next : BlockInfo -> Z -> act D (list Z);
  da_clear : D -> D;
}.
Class FrameQueueProvider (P : Type) := { next_data : act P (list Z) }.
Class NextFrameProvider (P : Type) := { next_frame : act P Frame }.
(** What a source of payloads promises: bytes, and a call leaves the origin alone. *)
Class FrameQueueLaws (P : Type) `{FrameQueueProvider P, OriginProvider P} := {
  data_inv : P -> Prop;
  next_data_law p r p' : data_inv p -> next_data p = (r, p') ->
    data_inv p' /\ origin p' = origin p /\ forall d, r = Ok d -> bytes_ok d;
}.
(** What a source of frames promises: well-formed frames, and a call leaves the
    origin alone. *)
Class NextFrameLaws (P : Type) `{NextFrameProvider P, OriginProvider P} := {
  frames_inv : P -> Prop;
  next_frame_law p r p' : frames_inv p -> next_frame p = (r, p') ->
    frames_inv p' /\ origin p' = origin p /\ forall f, r = Ok f -> frame_ok f;
}.
Class ChannelReaderProvider (P : Type) := { next_channel_data : act P (option (list Z)) }.

(** * Providers of L1 data *)

Inductive TxType : Type := Legacy | Eip2930 | Eip1559 | Eip4844 | Eip7702.
#[export] Instance TxType_eq_dec : EqDecision TxType.
Proof. solve_decision. Defined.

(** An L1 transaction envelope as the pipeline reads it; [signer] is what
    [recover_signer] returns. *)
Record L1Tx : Type := mkL1Tx {
  l1_tx_type : TxType;
  l1_to : option Z;
  l1_input : list Z;
  blob_versioned_hashes : list Z;
  signer : option Z;
}.

Class ChainProvider (C : Type) := {
  block_info_by_number : Z -> act C BlockInfo;
  receipts_by_hash : Z -> act C (list Receipt);
  block_info_and_transactions_by_hash : Z -> act C (BlockInfo * list L1Tx);
}.

Inductive BlobDecodingError : Type :=
| BadFieldElement
| BadEncodingVersion
| BadLength
| MissingData.

Inductive BlobProviderError : Type :=
| SidecarLengthMismatch (expected got : Z)
| SlotDerivation
| BlobDecoding (e : BlobDecodingError)
| BlobNotFound (slot : Z)
| Backend
| NotEnoughBlobs (expected got : Z)
| BlobReset (e : ResetError).

(** [From<BlobProviderError> for PipelineErrorKind] *)
Definition blob_error_kind (e : BlobProviderError) : PipelineErrorKind :=
  match e with
  | SidecarLengthMismatch _ _ | SlotDerivation | BlobDecoding _ => Critical Provider
  | BlobNotFound slot => Reset (BlobsUnavailable slot)
  | Backend => Temporary Provider
  | NotEnoughBlobs expected got => Reset (BlobsUnderFill expected got)
  | BlobReset err => Reset err
  end.

Class BlobProvider (B : Type) := {
  get_and_validate_blobs : BlockInfo -> list Z -> stm B (fault BlobProviderError) (list (list Z));
}.

(** [map_err(Into::into)] *)
Definition stm_map_fail {S E F A} (f : E -> F) (m : stm S (fault E) A) : stm S (fault F) A :=
  fun s => let '(r, s) := m s in (map_fail f r, s).
