(* ===== verification/SpanBits.v ===== *)
(** Span batch bit lists ([src/crates/consensus/protocol/src/batch/bits.rs]) and the
    errors of span batches ([batch/errors.rs]). A bit list is its bytes, most
    significant first; the lemmas describe every operation by the number the bytes
    stand for. *)

From S2P Require Import Prelude Buffer.

Inductive SpanDecodingError : Type :=
| RelativeTimestamp
| L1OriginNumber
| ParentCheck
| L1OriginCheck
| BlockCount
| BlockTxCounts
| TxNonces
| TypeSignatureLenMismatch
| InvalidTransactionType
| InvalidTransactionData
| InvalidTransactionSignature.

Inductive SpanBatchError : Type :=
| TooBigSpanBatchSize
| BitfieldTooLong
| EmptySpanBatch
| SpanL1OriginBeforeSafeHead
| SpanMissingL1Origin
| Decoding (e : SpanDecodingError).

(** Code that reads from a [&mut &[u8]]. *)
Abbreviation rd := (stm (list Z) (fault SpanBatchError)).

(** [u8::leading_zeros] *)
Definition leading_zeros (byte : Z) : Z := if byte =? 0 then 8 else 7 - Z.log2 byte.

(** [SpanBatchBits::bit_len] *)
Fixpoint bit_len (bits : list Z) : Z :=
  match bits with
  | [] => 0
  | byte :: rest =>
      if negb (byte =? 0)
      then let msb_index := 7 - leading_zeros byte in msb_index + 1 + zlen rest * 8
      else bit_len rest
  end.

(** The bytes a bit list of [bit_length] bits takes. *)
Definition bits_buffer_len (bit_length : Z) : Z :=
  bit_length / 8 + (if negb (bit_length mod 8 =? 0) then 1 else 0).

(** [SpanBatchBits::decode] *)
Definition bits_decode (bit_length : Z) : rd (list Z) := fun b =>
  let buffer_len := bits_buffer_len bit_length in
  let '(bits, b) :=
    if zlen b <? buffer_len
    then (b ++ replicate (Z.to_nat (buffer_len - zlen b)) 0, [])
    else (take (Z.to_nat buffer_len) b, drop (Z.to_nat buffer_len) b) in
  if bit_len bits >? bit_length then (Err (Fail BitfieldTooLong), b) else (Ok bits, b).

(** [SpanBatchBits::encode]: the bytes put into the writer. The slice of the buffer
    panics when the list has more bytes than the buffer. *)
Definition bits_encode (bit_length : Z) (bits : list Z) : result (fault SpanBatchError) (list Z) :=
  if bit_len bits >? bit_length then Err (Fail BitfieldTooLong)
  else
    let buf_len := bits_buffer_len bit_length in
    if buf_len <? zlen bits then Err Panic
    else Ok (replicate (Z.to_nat (buf_len - zlen bits)) 0 ++ bits).

(** [SpanBatchBits::get_bit] *)
Definition get_bit (bits : list Z) (index : Z) : option Z :=
  let byte_index := index / 8 in
  let bit_index := index mod 8 in
  if byte_index <? zlen bits
  then byte ← bits !! Z.to_nat (zlen bits - byte_index - 1);
       Some (if negb (Z.land byte (Z.shiftl 1 bit_index) =? 0) then 1 else 0)
  else None.

(** [SpanBatchBits::resize_from_right] *)
Definition resize_from_right (vec : list Z) (new_size : Z) : list Z :=
  let current_size := zlen vec in
  match new_size ?= current_size with
  | Lt => drop (Z.to_nat (current_size - new_size)) vec
  | Gt => replicate (Z.to_nat (new_size - current_size)) 0 ++ vec
  | Eq => vec
  end.

(** [SpanBatchBits::set_bit] *)
Definition set_bit (bits : list Z) (index : Z) (value : bool) : list Z :=
  let byte_index := index / 8 in
  let bit_index := index mod 8 in
  let bits := if byte_index >=? zlen bits then resize_from_right bits (byte_index + 1) else bits in
  alter (fun byte => if value then Z.lor byte (Z.shiftl 1 bit_index)
                     else Z.ldiff byte (Z.shiftl 1 bit_index))
    (Z.to_nat (zlen bits - byte_index - 1)) bits.

(** * Bit lists as numbers *)

(** The byte of weight [256^k]. *)
Definition rbyte (l : list Z) (k : nat) : Z := default 0 (reverse l !! k).

Lemma rbyte_snoc_0 l b : rbyte (l ++ [b]) 0 = b.
Proof. unfold rbyte. by rewrite reverse_snoc. Qed.
Lemma rbyte_snoc_S l b k : rbyte (l ++ [b]) (S k) = rbyte l k.
Proof. unfold rbyte. by rewrite reverse_snoc. Qed.

Lemma rbyte_lookup l k : (k < length l)%nat -> l !! (length l - S k)%nat = Some (rbyte l k).
Proof.
  intros Hk. unfold rbyte. rewrite reverse_lookup by done.
  destruct (lookup_lt_is_Some_2 l (length l - S k)) as [x ->]; [lia|done].
Qed.
Lemma rbyte_beyond l k : (length l <= k)%nat -> rbyte l k = 0.
Proof. intros Hk. unfold rbyte. by rewrite lookup_ge_None_2 by (by rewrite length_reverse). Qed.
Lemma rbyte_ok l k : bytes_ok l -> byte_ok (rbyte l k).
Proof.
  intros Hl. destruct (decide (k < length l)%nat) as [Hk|Hk]; [|by rewrite rbyte_beyond by lia].
  exact (Forall_lookup_1 _ _ _ _ Hl (rbyte_lookup l k Hk)).
Qed.

Lemma testbit_snoc x b m : byte_ok b -> 0 <= m ->
  Z.testbit (x * 256 + b) m = if m <? 8 then Z.testbit b m else Z.testbit x (m - 8).
Proof.
  intros Hb Hm. change 256 with (2 ^ 8). destruct (Z.ltb_spec m 8).
  - rewrite <- (Z.mod_pow2_bits_low _ 8) by lia. rewrite Z.add_comm, Z.mod_add by done.
    by rewrite Z.mod_small by (unfold byte_ok in *; lia).
  - replace m with ((m - 8) + 8) at 1 by lia. rewrite <- Z.div_pow2_bits by lia.
    rewrite Z.div_add_l by done. by rewrite Z.div_small, Z.add_0_r by (unfold byte_ok in *; lia).
Qed.

(** Bit [m] of the number is bit [m mod 8] of its byte [m / 8]. *)
Lemma be_testbit l m : bytes_ok l -> 0 <= m ->
  Z.testbit (be_val l) m = Z.testbit (rbyte l (Z.to_nat (m / 8))) (m mod 8).
Proof.
  revert m. induction l as [|b l IH] using rev_ind; intros m Hl Hm.
  - rewrite rbyte_beyond by (cbn; lia). by rewrite !Z.bits_0.
  - apply Forall_app in Hl as [Hl [Hb _]%Forall_cons]. rewrite be_val_snoc, testbit_snoc by done.
    destruct (Z.ltb_spec m 8).
    + rewrite Z.div_small, Z.mod_small by lia. by rewrite rbyte_snoc_0.
    + rewrite IH by (done || lia). replace m with ((m - 8) + 1 * 8) at 3 4 by lia.
      rewrite Z.div_add, Z.mod_add by done.
      replace (Z.to_nat ((m - 8) / 8 + 1)) with (S (Z.to_nat ((m - 8) / 8)))
        by (pose proof (Z.div_pos (m - 8) 8); lia).
      by rewrite rbyte_snoc_S.
Qed.

Lemma land_bit b j : 0 <= j -> (Z.land b (Z.shiftl 1 j) =? 0) = negb (Z.testbit b j).
Proof.
  intros Hj. rewrite Z.shiftl_1_l. destruct (Z.testbit b j) eqn:E; cbn.
  - apply Z.eqb_neq. intros H0. apply (f_equal (fun x => Z.testbit x j)) in H0.
    by rewrite Z.land_spec, E, Z.pow2_bits_true, Z.bits_0 in H0.
  - apply Z.eqb_eq, Z.bits_inj'. intros m Hm. rewrite Z.land_spec, Z.pow2_bits_eqb, Z.bits_0 by done.
    destruct (Z.eqb_spec j m) as [->|]; [by rewrite E|by rewrite andb_false_r].
Qed.

(** [get_bit] reads a bit of the number, within the bytes of the list. *)
Lemma get_bit_spec l i : bytes_ok l -> 0 <= i ->
  get_bit l i = if i <? 8 * zlen l then Some (Z.b2z (Z.testbit (be_val l) i)) else None.
Proof.
  intros Hl Hi. unfold get_bit. rewrite be_testbit by done.
  assert (Hd : 0 <= i / 8) by (apply Z.div_pos; lia).
  destruct (Z.ltb_spec (i / 8) (zlen l)) as [Hlt|Hge].
  - rewrite (proj2 (Z.ltb_lt i _)) by (pose proof (Z.div_mod i 8); pose proof (Z.mod_pos_bound i 8); lia).
    replace (Z.to_nat (zlen l - i / 8 - 1)) with (length l - S (Z.to_nat (i / 8)))%nat by (unfold zlen in *; lia).
    rewrite rbyte_lookup by (unfold zlen in *; lia). cbn.
    rewrite land_bit, negb_involutive by (apply Z.mod_pos_bound; lia). by destruct (Z.testbit _ _).
  - rewrite (proj2 (Z.ltb_ge i _)) by (pose proof (Z.div_mod i 8); pose proof (Z.mod_pos_bound i 8); lia). done.
Qed.

Lemma be_val_zeros n l : be_val (replicate n 0 ++ l) = be_val l.
Proof. induction n as [|n IH]; [done|]. exact IH. Qed.
Lemma bytes_ok_zeros n l : bytes_ok l -> bytes_ok (replicate n 0 ++ l).
Proof. intros Hl. apply Forall_app. split; [|done]. by apply Forall_replicate. Qed.

Lemma be_val_cons b l : be_val (b :: l) = b * 256 ^ zlen l + be_val l.
Proof.
  induction l as [|c l IH] using rev_ind; [unfold be_val, zlen; cbn -[Z.mul]; lia|].
  rewrite app_comm_cons, !be_val_snoc, IH, zlen_app.
  change (zlen [c]) with 1. rewrite Z.pow_add_r by (apply zlen_nonneg || lia). lia.
Qed.

(** [bit_len] is the size of the number. *)
Lemma bit_len_le l n : bytes_ok l -> 0 <= n -> (bit_len l <= n <-> be_val l < 2 ^ n).
Proof.
  intros Hl Hn. induction Hl as [|b l Hb Hl IH]; [cbn; split; lia|].
  rewrite be_val_cons. cbn [bit_len]. destruct (Z.eqb_spec b 0) as [->|Hb0]; cbn; [by rewrite IH|].
  pose proof (be_val_bound l Hl) as Hr. pose proof (zlen_nonneg l) as Hz. fold (zlen l) in Hr.
  change 256 with (2 ^ 8) in *. rewrite <- Z.pow_mul_r in * by lia.
  unfold leading_zeros. rewrite (proj2 (Z.eqb_neq _ _) Hb0). unfold byte_ok in Hb.
  pose proof (Z.log2_spec b ltac:(lia)) as Hs. pose proof (Z.log2_nonneg b).
  assert (Hpos : 0 < 2 ^ (8 * zlen l)) by (apply Z.pow_pos_nonneg; lia).
  assert (Hlog : Z.log2 (b * 2 ^ (8 * zlen l) + be_val l) = Z.log2 b + 8 * zlen l).
  { apply Z.log2_unique; [lia|]. rewrite <- Z.add_succ_l, !Z.pow_add_r by lia. nia. }
  rewrite Z.log2_lt_pow2, Hlog by nia. lia.
Qed.

Lemma bits_buffer_len_bounds n : 0 <= n -> n <= 8 * bits_buffer_len n < n + 8.
Proof.
  intros Hn. unfold bits_buffer_len. pose proof (Z.div_mod n 8 ltac:(lia)) as Hd.
  pose proof (Z.mod_pos_bound n 8 ltac:(lia)). destruct (Z.eqb_spec (n mod 8) 0); cbn; lia.
Qed.
Lemma bits_buffer_len_nonneg n : 0 <= n -> 0 <= bits_buffer_len n.
Proof. intros. pose proof (bits_buffer_len_bounds n). lia. Qed.

(** * Writing bits *)

Lemma resize_grow l k : zlen l <= k -> resize_from_right l k = replicate (Z.to_nat (k - zlen l)) 0 ++ l.
Proof.
  intros Hk. unfold resize_from_right. destruct (Z.compare_spec k (zlen l)) as [->|?|?]; [|lia|done].
  by rewrite Z.sub_diag.
Qed.

Lemma rbyte_alter f l k j : (k < length l)%nat ->
  rbyte (alter f (length l - S k)%nat l) j = if decide (j = k) then f (rbyte l k) else rbyte l j.
Proof.
  intros Hk. destruct (decide (j < length l)%nat) as [Hj|Hj].
  - assert (H := rbyte_lookup (alter f (length l - S k)%nat l) j). rewrite length_alter in H.
    specialize (H Hj). destruct (decide (j = k)) as [->|Hne].
    + rewrite list_lookup_alter_eq, rbyte_lookup in H by lia. cbn in H. congruence.
    + rewrite list_lookup_alter_ne, rbyte_lookup in H by lia. congruence.
  - rewrite !(rbyte_beyond _ j) by (rewrite ?length_alter; lia). by destruct (decide (j = k)); [lia|].
Qed.

(** The list of [set_bit] after it has been made long enough. *)
Definition widened (l : list Z) (i : Z) : list Z :=
  if i / 8 >=? zlen l then resize_from_right l (i / 8 + 1) else l.

Lemma widened_props l i : bytes_ok l -> 0 <= i ->
  bytes_ok (widened l i) /\ be_val (widened l i) = be_val l /\ zlen (widened l i) = Z.max (zlen l) (i / 8 + 1).
Proof.
  intros Hl Hi. unfold widened. rewrite Z.geb_leb. destruct (Z.leb_spec (zlen l) (i / 8)).
  - rewrite resize_grow by lia. split_and!; [by apply bytes_ok_zeros|apply be_val_zeros|].
    rewrite zlen_app. unfold zlen in *. rewrite length_replicate. lia.
  - split_and!; [done..|lia].
Qed.

Lemma set_bit_byte b j (v : bool) m : byte_ok b -> 0 <= j < 8 -> 0 <= m ->
  Z.testbit (if v then Z.lor b (Z.shiftl 1 j) else Z.ldiff b (Z.shiftl 1 j)) m =
  if m =? j then v else Z.testbit b m.
Proof.
  intros Hb Hj Hm. rewrite Z.shiftl_1_l. destruct v; rewrite ?Z.lor_spec, ?Z.ldiff_spec, Z.pow2_bits_eqb, Z.eqb_sym by lia;
    destruct (m =? j); by rewrite ?orb_true_r, ?orb_false_r, ?andb_false_r, ?andb_true_r.
Qed.
Lemma set_bit_byte_ok b j (v : bool) : byte_ok b -> 0 <= j < 8 ->
  byte_ok (if v then Z.lor b (Z.shiftl 1 j) else Z.ldiff b (Z.shiftl 1 j)).
Proof.
  intros Hb Hj. set (b' := if v then _ else _).
  assert (H : b' = b' mod 2 ^ 8).
  { apply Z.bits_inj'. intros m Hm.
    destruct (Z.ltb_spec m 8); [by rewrite Z.mod_pow2_bits_low by lia|].
    rewrite Z.mod_pow2_bits_high by lia. unfold b'. rewrite set_bit_byte by (done || lia).
    rewrite (proj2 (Z.eqb_neq _ _)) by lia. replace b with (b mod 2 ^ 8) by (apply Z.mod_small, Hb).
    by apply Z.mod_pow2_bits_high; lia. }
  rewrite H. apply (Z.mod_pos_bound b' (2 ^ 8)). lia.
Qed.

(** [set_bit] writes one bit of the number, and the list grows to hold it. *)
Lemma set_bit_spec l i v : bytes_ok l -> 0 <= i ->
  bytes_ok (set_bit l i v) /\ zlen (set_bit l i v) = Z.max (zlen l) (i / 8 + 1) /\
  forall m, 0 <= m -> Z.testbit (be_val (set_bit l i v)) m = if m =? i then v else Z.testbit (be_val l) m.
Proof.
  intros Hl Hi. unfold set_bit. fold (widened l i). destruct (widened_props l i Hl Hi) as (Hw & Hv & Hlen).
  rewrite <- Hv, <- Hlen. set (w := widened l i) in *. pose proof (Z.mod_pos_bound i 8 ltac:(lia)) as Hm.
  assert (Hi8 : 0 <= i / 8) by (apply Z.div_pos; lia). pose proof (zlen_nonneg l).
  replace (Z.to_nat (zlen w - i / 8 - 1)) with (length w - S (Z.to_nat (i / 8)))%nat by (unfold zlen in *; lia).
  assert (Hk : (Z.to_nat (i / 8) < length w)%nat) by (unfold zlen in *; lia).
  assert (Hok : bytes_ok (alter (fun byte => if v then Z.lor byte (Z.shiftl 1 (i mod 8))
    else Z.ldiff byte (Z.shiftl 1 (i mod 8))) (length w - S (Z.to_nat (i / 8)))%nat w)).
  { apply Forall_alter; [done|]. intros b _ Hb. by apply set_bit_byte_ok. }
  split_and!; [done|unfold zlen; by rewrite length_alter|].
  intros m Hm0. rewrite !be_testbit, rbyte_alter by done.
  destruct (decide (Z.to_nat (m / 8) = Z.to_nat (i / 8))) as [E|E].
  - assert (Hq : m / 8 = i / 8) by (pose proof (Z.div_pos m 8); lia).
    rewrite set_bit_byte by (apply rbyte_ok, Hw || lia || (apply Z.mod_pos_bound; lia)). rewrite Hq.
    pose proof (Z.div_mod m 8 ltac:(lia)). pose proof (Z.div_mod i 8 ltac:(lia)).
    destruct (Z.eqb_spec (m mod 8) (i mod 8)), (Z.eqb_spec m i); congruence || lia.
  - destruct (Z.eqb_spec m i) as [->|]; [done|done].
Qed.

(** * Bit lists as lists of booleans *)

(** The bytes [l] hold exactly the bits [bs], the first of them in the lowest
    position, in as many bytes as they take. *)
Definition bits_are (l : list Z) (bs : list bool) : Prop :=
  bytes_ok l /\ zlen l = bits_buffer_len (zlen bs) /\ be_val l < 2 ^ zlen bs /\
  forall i b, bs !! i = Some b -> Z.testbit (be_val l) (Z.of_nat i) = b.

Lemma small_bits v n m : 0 <= v < 2 ^ n -> n <= m -> Z.testbit v m = false.
Proof.
  intros Hv Hm. destruct (decide (n < 0)); [rewrite Z.pow_neg_r in Hv by done; lia|].
  rewrite <- (Z.mod_small v (2 ^ n)) by done. by apply Z.mod_pow2_bits_high; lia.
Qed.
Lemma bits_small v n : 0 <= v -> 0 <= n -> (forall m, n <= m -> Z.testbit v m = false) -> v < 2 ^ n.
Proof.
  intros Hv Hn Hb. replace v with (v mod 2 ^ n); [apply Z.mod_pos_bound, Z.pow_pos_nonneg; lia|].
  apply Z.bits_inj'. intros m Hm. destruct (Z.ltb_spec m n); [by rewrite Z.mod_pow2_bits_low by lia|].
  by rewrite Z.mod_pow2_bits_high, Hb by lia.
Qed.

Lemma bits_are_nil : bits_are [] [].
Proof. split_and!; [by constructor|done|done|]. intros i b. by rewrite lookup_nil. Qed.

Lemma buffer_len_push n : 0 <= n -> Z.max (bits_buffer_len n) (n / 8 + 1) = bits_buffer_len (n + 1).
Proof.
  intros Hn. pose proof (bits_buffer_len_bounds n Hn). pose proof (bits_buffer_len_bounds (n + 1) ltac:(lia)).
  pose proof (Z.div_mod n 8 ltac:(lia)). pose proof (Z.mod_pos_bound n 8 ltac:(lia)). lia.
Qed.

(** Setting the next bit appends it. *)
Lemma bits_are_push l bs v : bits_are l bs -> bits_are (set_bit l (zlen bs) v) (bs ++ [v]).
Proof.
  intros (Hl & Hlen & Hval & Hbits). pose proof (zlen_nonneg bs) as Hz.
  destruct (set_bit_spec l (zlen bs) v Hl Hz) as (Hl' & Hlen' & Hbits'). pose proof (be_val_bound l Hl) as [Hv0 _].
  split_and!; [done| | |].
  - rewrite Hlen', Hlen, zlen_app. by apply buffer_len_push.
  - rewrite zlen_app. change (zlen [v]) with 1. apply bits_small; [apply be_val_bound, Hl'|lia|].
    intros m Hm. rewrite Hbits', (proj2 (Z.eqb_neq _ _)) by lia. apply (small_bits _ (zlen bs)); lia.
  - intros i b Hi. rewrite Hbits' by lia. destruct (Z.eqb_spec (Z.of_nat i) (zlen bs)) as [E|E].
    + assert (i = length bs) as -> by (unfold zlen in E; lia). rewrite list_lookup_middle in Hi by done. congruence.
    + apply lookup_app_Some in Hi as [Hi|[Hge Hi]]; [by apply Hbits|].
      apply lookup_lt_Some in Hi. cbn in Hi. unfold zlen in E. lia.
Qed.

Section bits_are.
Context (l : list Z) (bs : list bool) (H : bits_are l bs).

Lemma bits_are_get i b : bs !! i = Some b -> get_bit l (Z.of_nat i) = Some (Z.b2z b).
Proof.
  intros Hi. destruct H as (Hl & Hlen & _ & Hb). rewrite get_bit_spec, (Hb _ _ Hi) by (done || lia).
  apply lookup_lt_Some in Hi. pose proof (bits_buffer_len_bounds (zlen bs) (zlen_nonneg bs)).
  rewrite (proj2 (Z.ltb_lt _ _)); [done|]. unfold zlen in *. lia.
Qed.

Lemma bits_are_bit_len : bit_len l <= zlen bs.
Proof. destruct H as (Hl & _ & Hv & _). by apply bit_len_le; [|apply zlen_nonneg|]. Qed.

Lemma bits_are_encode : bits_encode (zlen bs) l = Ok l.
Proof.
  destruct H as (Hl & Hlen & _). unfold bits_encode. rewrite Z.gtb_ltb.
  rewrite (proj2 (Z.ltb_ge _ _)) by apply bits_are_bit_len.
  rewrite <- Hlen, Z.ltb_irrefl, Z.sub_diag. done.
Qed.

Lemma bits_are_decode rest : bits_decode (zlen bs) (l ++ rest) = (Ok l, rest).
Proof.
  destruct H as (Hl & Hlen & _). unfold bits_decode. rewrite <- Hlen.
  rewrite (proj2 (Z.ltb_ge _ _)) by (rewrite zlen_app; pose proof (zlen_nonneg rest); lia).
  replace (Z.to_nat (zlen l)) with (length l) by (unfold zlen; lia). rewrite take_app_length, drop_app_length, Z.gtb_ltb.
  by rewrite (proj2 (Z.ltb_ge _ _)) by apply bits_are_bit_len.
Qed.
End bits_are.

(** Every number of [n] bits is a list of [n] booleans. *)
Definition bools_of (v n : Z) : list bool := (fun i => Z.testbit v (Z.of_nat i)) <$> seq 0 (Z.to_nat n).
Lemma zlen_bools_of v n : 0 <= n -> zlen (bools_of v n) = n.
Proof. intros. unfold zlen, bools_of. rewrite length_fmap, length_seq. lia. Qed.

Lemma bits_are_bools l n : bytes_ok l -> 0 <= n -> zlen l = bits_buffer_len n -> be_val l < 2 ^ n ->
  bits_are l (bools_of (be_val l) n).
Proof.
  intros Hl Hn Hlen Hv. unfold bits_are. rewrite zlen_bools_of by done. split_and!; try done.
  intros i b Hi. unfold bools_of in Hi. rewrite list_lookup_fmap in Hi.
  apply fmap_Some in Hi as (j & Hj & ->). apply lookup_seq in Hj as [-> _]. done.
Qed.

(** What [decode] accepts is a list of the asked number of bits; it does not panic. *)
Lemma bits_decode_cases n r : bytes_ok r -> 0 <= n ->
  exists r', bytes_ok r' /\
    (bits_decode n r = (Err (Fail BitfieldTooLong), r') \/
     exists l, bits_decode n r = (Ok l, r') /\ bits_are l (bools_of (be_val l) n)).
Proof.
  intros Hr Hn. unfold bits_decode. pose proof (bits_buffer_len_nonneg n Hn) as Hb.
  set (k := bits_buffer_len n) in *.
  assert (Hcase : exists l r', (if zlen r <? k then (r ++ replicate (Z.to_nat (k - zlen r)) 0, [])
      else (take (Z.to_nat k) r, drop (Z.to_nat k) r)) = (l, r') /\ bytes_ok l /\ zlen l = k /\ bytes_ok r').
  { destruct (Z.ltb_spec (zlen r) k); do 2 eexists; (split; [reflexivity|]).
    - split_and!; [apply Forall_app; by split; [|apply Forall_replicate]| |by constructor].
      rewrite zlen_app. unfold zlen in *. rewrite length_replicate. lia.
    - split_and!; [by apply Forall_take| |by apply Forall_drop].
      unfold zlen in *. rewrite length_take. lia. }
  destruct Hcase as (l & r' & -> & Hl & Hlen & Hr'). exists r'. split; [done|].
  rewrite Z.gtb_ltb. destruct (Z.ltb_spec n (bit_len l)) as [|Hle]; [by left|right]. exists l. split; [done|].
  apply bits_are_bools; [done..|]. by apply bit_len_le.
Qed.

(** * Counting bits *)

Definition zsum (l : list Z) : Z := foldr Z.add 0 l.
Lemma zsum_app l1 l2 : zsum (l1 ++ l2) = zsum l1 + zsum l2.
Proof. unfold zsum. induction l1; cbn; lia. Qed.

(** The bits of [v] from position [a], [n] of them. *)
Definition ones (v : Z) (a n : nat) : Z := zsum ((fun j => Z.b2z (Z.testbit v (Z.of_nat j))) <$> seq a n).
(** [u8::count_ones] *)
Definition count_ones (byte : Z) : Z := ones byte 0 8.

Lemma ones_app v a n m : ones v a (n + m) = ones v a n + ones v (a + n) m.
Proof. unfold ones. by rewrite seq_app, fmap_app, zsum_app. Qed.
Lemma ones_ext v w a b n :
  (forall j, (j < n)%nat -> Z.testbit v (Z.of_nat (a + j)) = Z.testbit w (Z.of_nat (b + j))) -> ones v a n = ones w b n.
Proof.
  intros Hj. unfold ones. f_equal. apply list_eq. intros i. rewrite !list_lookup_fmap.
  destruct (decide (i < n)%nat) as [Hi|Hi].
  - rewrite !lookup_seq_lt by done. cbn. by rewrite Hj.
  - by rewrite !lookup_seq_ge by lia.
Qed.

(** The ones of the bytes are the ones of the number. *)
Lemma count_ones_sum l : bytes_ok l -> zsum (count_ones <$> l) = ones (be_val l) 0 (8 * length l).
Proof.
  intros Hl. induction l as [|b l IH] using rev_ind; [done|].
  apply Forall_app in Hl as [Hl [Hb _]%Forall_cons]. rewrite fmap_app, zsum_app, IH by done. cbn [fmap list_fmap zsum foldr].
  rewrite be_val_snoc. replace (8 * length (l ++ [b]))%nat with (8 + 8 * length l)%nat by (rewrite length_app; cbn; lia).
  rewrite ones_app, Z.add_0_r, Z.add_comm. f_equal; apply ones_ext; intros j Hj; rewrite testbit_snoc by (done || lia).
  - by rewrite (proj2 (Z.ltb_lt _ _)) by lia.
  - rewrite (proj2 (Z.ltb_ge _ _)) by lia. f_equal. lia.
Qed.

Lemma ones_zero v n a k : 0 <= v < 2 ^ n -> n <= Z.of_nat a -> ones v a k = 0.
Proof.
  intros Hv Ha. rewrite (ones_ext v 0 a 0); [|intros j _; rewrite (small_bits v n) by lia; by rewrite Z.bits_0].
  unfold ones. induction (seq 0 k) as [|x s IH]; [done|]. cbn [fmap list_fmap zsum foldr]. rewrite Z.bits_0. exact IH.
Qed.

Definition trues (bs : list bool) : Z := zsum (Z.b2z <$> bs).
Lemma trues_bound bs : 0 <= trues bs <= zlen bs.
Proof. unfold trues, zlen. induction bs as [|[] bs IH]; cbn [fmap list_fmap zsum foldr length Z.b2z] in *; unfold zsum in *; lia. Qed.

(** A bit list has as many ones as booleans that hold. *)
Lemma bits_are_ones l bs : bits_are l bs -> zsum (count_ones <$> l) = trues bs.
Proof.
  intros (Hl & Hlen & Hv & Hb). rewrite count_ones_sum by done. pose proof (be_val_bound l Hl) as [Hv0 _].
  pose proof (bits_buffer_len_bounds (zlen bs) (zlen_nonneg bs)).
  replace (8 * length l)%nat with (length bs + (8 * length l - length bs))%nat by (unfold zlen in *; lia).
  rewrite ones_app, (ones_zero _ (zlen bs) (0 + length bs)) ; [|done|unfold zlen; lia].
  rewrite Z.add_0_r. unfold ones, trues. f_equal.
  apply list_eq. intros i. rewrite !list_lookup_fmap. destruct (bs !! i) as [b|] eqn:E.
  - pose proof (lookup_lt_Some _ _ _ E). rewrite lookup_seq_lt by done. cbn. by rewrite (Hb _ _ E).
  - apply lookup_ge_None in E. by rewrite lookup_seq_ge by done.
Qed.
