(* ===== verification/SpanTxs.v ===== *)
(** The transactions of a span batch ([src/crates/consensus/protocol/src/batch/]:
    [transactions.rs], [tx_data/], and [read_tx_data] of [utils.rs]). A span batch
    stores the fields of its transactions column by column. The signed transactions
    of [alloy], its RLP codecs and the varints of [unsigned-varint] are the class
    [SpanTxCodecs]. *)

From S2P Require Import Prelude Codec Buffer Rollup Pipeline SpanBits.

(** * Transactions of [alloy] *)

Module Alloy.
Record Signature : Type := mkSignature { sig_r : Z; sig_s : Z; sig_v : bool }.
Definition AccessList : Type := list (Z * list Z).
Record SignedAuthorization : Type := mkSignedAuthorization {
  auth_chain_id : Z; auth_address : Z; auth_nonce : Z; auth_signature : Signature }.

(** The recipient is [None] for a contract creation ([TxKind::Create]). *)
Record TxLegacy : Type := mkTxLegacy {
  lg_chain_id : option Z; lg_nonce : Z; lg_gas_price : Z; lg_gas_limit : Z;
  lg_to : option Z; lg_value : Z; lg_input : list Z }.
Record TxEip2930 : Type := mkTxEip2930 {
  al_chain_id : Z; al_nonce : Z; al_gas_price : Z; al_gas_limit : Z;
  al_to : option Z; al_value : Z; al_input : list Z; al_access_list : AccessList }.
Record TxEip1559 : Type := mkTxEip1559 {
  df_chain_id : Z; df_nonce : Z; df_max_fee_per_gas : Z; df_max_priority_fee_per_gas : Z; df_gas_limit : Z;
  df_to : option Z; df_value : Z; df_input : list Z; df_access_list : AccessList }.
Record TxEip7702 : Type := mkTxEip7702 {
  sc_chain_id : Z; sc_nonce : Z; sc_max_fee_per_gas : Z; sc_max_priority_fee_per_gas : Z; sc_gas_limit : Z;
  sc_to : Z; sc_value : Z; sc_input : list Z; sc_access_list : AccessList;
  sc_authorization_list : list SignedAuthorization }.

(** [Signed<T>]: a transaction, its signature and the hash stored with it. *)
Record Signed (T : Type) : Type := mkSigned { signed_tx : T; signature : Signature; signed_hash : Z }.
#[global] Arguments mkSigned {T} _ _ _.
#[global] Arguments signed_tx {T} _.
#[global] Arguments signature {T} _.

Inductive TxEnvelope : Type :=
| EnvLegacy (s : Signed TxLegacy)
| EnvEip2930 (s : Signed TxEip2930)
| EnvEip1559 (s : Signed TxEip1559)
| EnvEip4844 (blob_tx : list Z)
| EnvEip7702 (s : Signed TxEip7702).

Definition env_type (e : TxEnvelope) : TxType :=
  match e with
  | EnvLegacy _ => Legacy | EnvEip2930 _ => Eip2930 | EnvEip1559 _ => Eip1559
  | EnvEip4844 _ => Eip4844 | EnvEip7702 _ => Eip7702
  end.
End Alloy.
Import Alloy.

(** * Transaction data *)

Record SpanBatchLegacyTransactionData : Type := mkLegacyData {
  lgd_value : Z; lgd_gas_price : Z; lgd_data : list Z }.
Record SpanBatchEip2930TransactionData : Type := mkEip2930Data {
  ald_value : Z; ald_gas_price : Z; ald_data : list Z; ald_access_list : AccessList }.
Record SpanBatchEip1559TransactionData : Type := mkEip1559Data {
  dfd_value : Z; dfd_max_priority_fee_per_gas : Z; dfd_max_fee_per_gas : Z; dfd_data : list Z;
  dfd_access_list : AccessList }.
Record SpanBatchEip7702TransactionData : Type := mkEip7702Data {
  scd_value : Z; scd_max_priority_fee_per_gas : Z; scd_max_fee_per_gas : Z; scd_data : list Z;
  scd_access_list : AccessList; scd_authorization_list : list SignedAuthorization }.

Inductive SpanBatchTransactionData : Type :=
| LegacyData (d : SpanBatchLegacyTransactionData)
| Eip2930Data (d : SpanBatchEip2930TransactionData)
| Eip1559Data (d : SpanBatchEip1559TransactionData)
| Eip7702Data (d : SpanBatchEip7702TransactionData).

(** [SpanBatchTransactionData::tx_type] *)
Definition data_tx_type (d : SpanBatchTransactionData) : TxType :=
  match d with
  | LegacyData _ => Legacy | Eip2930Data _ => Eip2930 | Eip1559Data _ => Eip1559 | Eip7702Data _ => Eip7702
  end.

(** What the code uses of other crates: varints, RLP headers, the codecs derived for
    the transaction data, and signed transactions with their network encodings. *)
Class SpanTxCodecs := {
  uvarint : codec Z;
  (** [Header::decode] ([list], [payload_length]) and [Header::length] *)
  header_decode : list Z -> option ((bool * Z) * list Z);
  header_length : bool * Z -> Z;
  legacy_data_codec : codec SpanBatchLegacyTransactionData;
  eip2930_data_codec : codec SpanBatchEip2930TransactionData;
  eip1559_data_codec : codec SpanBatchEip1559TransactionData;
  eip7702_data_codec : codec SpanBatchEip7702TransactionData;
  (** [TxType as u8] and [TxType::try_from] *)
  tx_type_u8 : TxType -> Z;
  tx_type_try_from : Z -> option TxType;
  (** [SignableTransaction::signature_hash] *)
  legacy_signature_hash : TxLegacy -> Z;
  eip2930_signature_hash : TxEip2930 -> Z;
  eip1559_signature_hash : TxEip1559 -> Z;
  eip7702_signature_hash : TxEip7702 -> Z;
  (** [TxEnvelope::decode], [encode_2718] and [is_replay_protected] *)
  envelope_decode : list Z -> option TxEnvelope;
  envelope_encode_2718 : TxEnvelope -> list Z;
  is_replay_protected : TxEnvelope -> bool;
}.

(** [u128::from_be_bytes(x.to_be_bytes::<32>()[16..])] *)
Definition low_u128 (x : Z) : Z := be_val (drop 16 (be_bytes 32 x)).

Section tx_data.
Context `{SpanTxCodecs}.

(** [Encodable for SpanBatchTransactionData] *)
Definition data_encode (d : SpanBatchTransactionData) : list Z :=
  match d with
  | LegacyData data => enc legacy_data_codec data
  | Eip2930Data data => tx_type_u8 Eip2930 :: enc eip2930_data_codec data
  | Eip1559Data data => tx_type_u8 Eip1559 :: enc eip1559_data_codec data
  | Eip7702Data data => tx_type_u8 Eip7702 :: enc eip7702_data_codec data
  end.

(** [SpanBatchTransactionData::decode_typed] *)
Definition decode_typed (b : list Z) : option SpanBatchTransactionData :=
  if zlen b <=? 1 then None
  else match b with
       | [] => None
       | b0 :: b =>
           ty ← tx_type_try_from b0;
           match ty with
           | Eip2930 => '(d, _) ← dec eip2930_data_codec b; Some (Eip2930Data d)
           | Eip1559 => '(d, _) ← dec eip1559_data_codec b; Some (Eip1559Data d)
           | Eip7702 => '(d, _) ← dec eip7702_data_codec b; Some (Eip7702Data d)
           | _ => None
           end
       end.

(** [Decodable for SpanBatchTransactionData] *)
Definition data_decode (r : list Z) : option SpanBatchTransactionData :=
  match r with
  | r0 :: _ => if r0 >? 127 then '(d, _) ← dec legacy_data_codec r; Some (LegacyData d) else decode_typed r
  | [] => decode_typed r
  end.

(** [TryFrom<&TxEnvelope>] *)
Definition data_try_from (e : TxEnvelope) : result (fault SpanBatchError) SpanBatchTransactionData :=
  match e with
  | EnvLegacy s =>
      let s := signed_tx s in Ok (LegacyData (mkLegacyData (lg_value s) (lg_gas_price s) (lg_input s)))
  | EnvEip2930 s =>
      let s := signed_tx s in
      Ok (Eip2930Data (mkEip2930Data (al_value s) (al_gas_price s) (al_input s) (al_access_list s)))
  | EnvEip1559 s =>
      let s := signed_tx s in
      Ok (Eip1559Data (mkEip1559Data (df_value s) (df_max_priority_fee_per_gas s) (df_max_fee_per_gas s)
                         (df_input s) (df_access_list s)))
  | EnvEip7702 s =>
      let s := signed_tx s in
      Ok (Eip7702Data (mkEip7702Data (sc_value s) (sc_max_priority_fee_per_gas s) (sc_max_fee_per_gas s)
                         (sc_input s) (sc_access_list s) (sc_authorization_list s)))
  | EnvEip4844 _ => Err (Fail (Decoding InvalidTransactionType))
  end.

(** [SpanBatchLegacyTransactionData::to_signed_tx] *)
Definition legacy_to_signed_tx (d : SpanBatchLegacyTransactionData) (nonce gas : Z) (to : option Z) (chain_id : Z)
    (sig : Signature) (is_protected : bool) : Signed TxLegacy :=
  let legacy_tx := mkTxLegacy (if is_protected then Some chain_id else None) nonce (low_u128 (lgd_gas_price d)) gas
                     to (lgd_value d) (lgd_data d) in
  mkSigned legacy_tx sig (legacy_signature_hash legacy_tx).

(** [SpanBatchEip2930TransactionData::to_signed_tx] *)
Definition eip2930_to_signed_tx (d : SpanBatchEip2930TransactionData) (nonce gas : Z) (to : option Z) (chain_id : Z)
    (sig : Signature) : Signed TxEip2930 :=
  let access_list_tx := mkTxEip2930 chain_id nonce (low_u128 (ald_gas_price d)) gas to (ald_value d) (ald_data d)
                          (ald_access_list d) in
  mkSigned access_list_tx sig (eip2930_signature_hash access_list_tx).

(** [SpanBatchEip1559TransactionData::to_signed_tx] *)
Definition eip1559_to_signed_tx (d : SpanBatchEip1559TransactionData) (nonce gas : Z) (to : option Z) (chain_id : Z)
    (sig : Signature) : Signed TxEip1559 :=
  let eip1559_tx := mkTxEip1559 chain_id nonce (low_u128 (dfd_max_fee_per_gas d))
                      (low_u128 (dfd_max_priority_fee_per_gas d)) gas to (dfd_value d) (dfd_data d)
                      (dfd_access_list d) in
  mkSigned eip1559_tx sig (eip1559_signature_hash eip1559_tx).

(** [SpanBatchEip7702TransactionData::to_signed_tx] *)
Definition eip7702_to_signed_tx (d : SpanBatchEip7702TransactionData) (nonce gas to chain_id : Z)
    (sig : Signature) : Signed TxEip7702 :=
  let max_fee_per_gas := low_u128 (scd_max_fee_per_gas d) in
  let max_priority_fee_per_gas := low_u128 (scd_max_priority_fee_per_gas d) in
  let eip7702_tx := mkTxEip7702 chain_id nonce max_fee_per_gas max_priority_fee_per_gas gas to (scd_value d)
                      (scd_data d) (scd_access_list d) (scd_authorization_list d) in
  mkSigned eip7702_tx sig (eip7702_signature_hash eip7702_tx).

(** [SpanBatchTransactionData::to_signed_tx] *)
Definition to_signed_tx (d : SpanBatchTransactionData) (nonce gas : Z) (to : option Z) (chain_id : Z)
    (sig : Signature) (is_protected : bool) : result (fault SpanBatchError) TxEnvelope :=
  match d with
  | LegacyData data => Ok (EnvLegacy (legacy_to_signed_tx data nonce gas to chain_id sig is_protected))
  | Eip2930Data data => Ok (EnvEip2930 (eip2930_to_signed_tx data nonce gas to chain_id sig))
  | Eip1559Data data => Ok (EnvEip1559 (eip1559_to_signed_tx data nonce gas to chain_id sig))
  | Eip7702Data data =>
      match to with
      | None => Err (Fail (Decoding InvalidTransactionData))
      | Some addr => Ok (EnvEip7702 (eip7702_to_signed_tx data nonce gas addr chain_id sig))
      end
  end.

(** [SpanBatchElement::MAX_SPAN_BATCH_ELEMENTS] *)
Definition MAX_SPAN_BATCH_ELEMENTS : Z := 10000000.

(** [read_tx_data]: the bytes of one transaction and its type. *)
Definition read_tx_data : rd (list Z * TxType) := fun r =>
  match r with
  | [] => (Err (Fail (Decoding InvalidTransactionData)), r)
  | first_byte :: rest =>
      let '(tx_type, tx_data, r) := if first_byte <=? 127 then (first_byte, [first_byte], rest) else (0, [], r) in
      match header_decode r with
      | None => (Err (Fail (Decoding InvalidTransactionData)), r)
      | Some ((list, payload_length), _) =>
          if list then
            let payload_length_with_header := add64 payload_length (header_length (list, payload_length)) in
            if payload_length_with_header >? MAX_SPAN_BATCH_ELEMENTS then (Err (Fail TooBigSpanBatchSize), r)
            else if payload_length_with_header >? zlen r
            then (Err (Fail (Decoding InvalidTransactionData)), r)
            else
              let payload := take (Z.to_nat payload_length_with_header) r in
              let r := drop (Z.to_nat payload_length_with_header) r in
              match tx_type_try_from tx_type with
              | Some ty => (Ok (tx_data ++ payload, ty), r)
              | None => (Err (Fail (Decoding InvalidTransactionType)), r)
              end
          else (Err (Fail (Decoding InvalidTransactionData)), r)
      end
  end.
End tx_data.

(** * The transactions of a span batch *)

Record SpanBatchTransactions : Type := mkSpanBatchTransactions {
  total_block_tx_count : Z;
  contract_creation_bits : list Z;
  tx_sigs : list Signature;
  tx_nonces : list Z;
  tx_gases : list Z;
  tx_tos : list Z;
  tx_data : list (list Z);
  protected_bits : list Z;
  tx_types : list TxType;
  legacy_tx_count : Z;
}.
Definition default_txs : SpanBatchTransactions := mkSpanBatchTransactions 0 [] [] [] [] [] [] [] [] 0.

(** A [for] loop over [i..i + n] that pushes what its body reads. *)
Fixpoint read_n {A} (i : Z) (n : nat) (body : Z -> rd A) : rd (list A) :=
  match n with
  | O => mret []
  | S n => x ← body i; xs ← read_n (i + 1) n body; mret (x :: xs)
  end.

Section transactions.
Context `{SpanTxCodecs}.

(** [contract_creation_count] *)
Definition contract_creation_count (bits : list Z) : Z := zsum (count_ones <$> bits).

(** * Encoding *)

(** The bit list [encode_tx_sigs] builds. *)
Definition y_parity_bits (sigs : list Signature) : list Z :=
  (foldl (fun '(i, bits) sig => (i + 1, set_bit bits i (sig_v sig))) (0, []) sigs).2.

(** [encode_tx_sigs] *)
Definition encode_tx_sigs (t : SpanBatchTransactions) : result (fault SpanBatchError) (list Z) :=
  bits ← bits_encode (total_block_tx_count t) (y_parity_bits (tx_sigs t));
  Ok (bits ++ concat ((fun sig => be_bytes 32 (sig_r sig) ++ be_bytes 32 (sig_s sig)) <$> tx_sigs t)).

Definition encode_tx_tos (t : SpanBatchTransactions) : list Z := concat (be_bytes 20 <$> tx_tos t).
Definition encode_tx_data (t : SpanBatchTransactions) : list Z := concat (tx_data t).
Definition encode_tx_nonces (t : SpanBatchTransactions) : list Z := concat (enc uvarint <$> tx_nonces t).
Definition encode_tx_gases (t : SpanBatchTransactions) : list Z := concat (enc uvarint <$> tx_gases t).
Definition encode_contract_creation_bits (t : SpanBatchTransactions) : result (fault SpanBatchError) (list Z) :=
  bits_encode (total_block_tx_count t) (contract_creation_bits t).
Definition encode_protected_bits (t : SpanBatchTransactions) : result (fault SpanBatchError) (list Z) :=
  bits_encode (legacy_tx_count t) (protected_bits t).

(** [SpanBatchTransactions::encode] *)
Definition txs_encode (t : SpanBatchTransactions) : result (fault SpanBatchError) (list Z) :=
  creation ← encode_contract_creation_bits t;
  sigs ← encode_tx_sigs t;
  protected ← encode_protected_bits t;
  mret (creation ++ sigs ++ encode_tx_tos t ++ encode_tx_data t ++ encode_tx_nonces t ++ encode_tx_gases t ++
        protected).

(** * Decoding *)

Definition throw_fail {S A} (e : SpanBatchError) : stm S (fault SpanBatchError) A := throw (Fail e).

(** [unsigned_varint::decode::u64], with the error a caller maps a failure to. *)
Definition read_uvarint (e : SpanDecodingError) : rd Z := fun r =>
  match dec uvarint r with
  | Some (v, remaining) => (Ok v, remaining)
  | None => (Err (Fail (Decoding e)), r)
  end.

(** The bytes of a guarded [r[..n]] followed by [r.advance(n)]. *)
Definition read_bytes (n : nat) (e : SpanDecodingError) : rd (list Z) := fun r =>
  if zlen r <? Z.of_nat n then (Err (Fail (Decoding e)), r) else (Ok (take n r), drop n r).

(** [decode_contract_creation_bits] *)
Definition decode_contract_creation_bits (total : Z) : rd (list Z) :=
  if total >? MAX_SPAN_BATCH_ELEMENTS then throw_fail TooBigSpanBatchSize else bits_decode total.

(** [decode_protected_bits] *)
Definition decode_protected_bits (legacy_count : Z) : rd (list Z) :=
  if legacy_count >? MAX_SPAN_BATCH_ELEMENTS then throw_fail TooBigSpanBatchSize else bits_decode legacy_count.

(** [decode_tx_sigs]; [expect("same length")] panics on a missing bit. *)
Definition decode_tx_sigs (total : Z) : rd (list Signature) :=
  y_parity_bits ← bits_decode total;
  read_n 0 (Z.to_nat total) (fun i =>
    y_parity ← (match get_bit y_parity_bits i with Some b => mret b | None => throw Panic end : rd Z);
    rs ← read_bytes 64 InvalidTransactionData;
    mret (mkSignature (be_val (take 32 rs)) (be_val (drop 32 rs)) (y_parity =? 1))).

(** [decode_tx_nonces] and [decode_tx_gases] *)
Definition decode_tx_nonces (total : Z) : rd (list Z) := read_n 0 (Z.to_nat total) (fun _ => read_uvarint TxNonces).
Definition decode_tx_gases (total : Z) : rd (list Z) := read_n 0 (Z.to_nat total) (fun _ => read_uvarint TxNonces).

(** [decode_tx_tos]. The subtraction of more creations than transactions, which
    overflows, is a panic here. *)
Definition decode_tx_tos (total : Z) (creation_bits : list Z) : rd (list Z) :=
  let creations := contract_creation_count creation_bits in
  if total <? creations then throw Panic
  else read_n 0 (Z.to_nat (total - creations)) (fun _ => bs ← read_bytes 20 InvalidTransactionData; mret (be_val bs)).

(** [decode_tx_data]: the bytes and types, and the legacy transactions added to the
    count the structure had. *)
Definition decode_tx_data (total legacy_count : Z) : rd (list (list Z) * list TxType * Z) :=
  items ← read_n 0 (Z.to_nat total) (fun _ => read_tx_data);
  mret (items.*1, items.*2, add64 legacy_count (zlen (filter (fun ty => ty = Legacy) items.*2))).

(** [SpanBatchTransactions::decode], of a structure whose total has been set. *)
Definition txs_decode (t : SpanBatchTransactions) : rd SpanBatchTransactions :=
  let total := total_block_tx_count t in
  creation ← decode_contract_creation_bits total;
  sigs ← decode_tx_sigs total;
  tos ← decode_tx_tos total creation;
  '(data, types, legacy_count) ← decode_tx_data total (legacy_tx_count t);
  nonces ← decode_tx_nonces total;
  gases ← decode_tx_gases total;
  protected ← decode_protected_bits legacy_count;
  mret (mkSpanBatchTransactions total creation sigs nonces gases tos data protected types legacy_count).

(** * Reconstructing the transactions *)

(** [o.ok_or(Decoding(InvalidTransactionData))?] *)
Definition or_invalid {A} (o : option A) : result (fault SpanBatchError) A :=
  match o with Some a => Ok a | None => Err (Fail (Decoding InvalidTransactionData)) end.

(** The loop of [full_txs] from transaction [idx] on, [n] of them. *)
Fixpoint full_txs_loop (t : SpanBatchTransactions) (chain_id : Z) (idx to_idx protected_bit_idx n : nat) :
    result (fault SpanBatchError) (list (list Z)) :=
  match n with
  | O => mret []
  | S n =>
      data ← byte_at (tx_data t) (Z.of_nat idx);
      tx ← or_invalid (data_decode data);
      nonce ← or_invalid (tx_nonces t !! idx);
      gas ← or_invalid (tx_gases t !! idx);
      bit ← or_invalid (get_bit (contract_creation_bits t) (Z.of_nat idx));
      '(to, to_idx) ← (if bit =? 0
                       then to ← or_invalid (tx_tos t !! to_idx); Ok (Some to, S to_idx)
                       else Ok (None, to_idx) : result (fault SpanBatchError) _);
      sig ← or_invalid (tx_sigs t !! idx);
      let '(is_protected, protected_bit_idx) :=
        if decide (data_tx_type tx = Legacy)
        then (default 0 (get_bit (protected_bits t) (Z.of_nat protected_bit_idx)) =? 1, S protected_bit_idx)
        else (true, protected_bit_idx) in
      tx_envelope ← to_signed_tx tx nonce gas to chain_id sig is_protected;
      txs ← full_txs_loop t chain_id (S idx) to_idx protected_bit_idx n;
      mret (envelope_encode_2718 tx_envelope :: txs)
  end.

(** [full_txs] *)
Definition full_txs (t : SpanBatchTransactions) (chain_id : Z) : result (fault SpanBatchError) (list (list Z)) :=
  full_txs_loop t chain_id 0 0 0 (Z.to_nat (total_block_tx_count t)).

(** * Adding transactions *)

(** The fields [add_txs] takes from an envelope: signature, recipient, nonce, gas
    limit and chain id. *)
Definition envelope_fields (e : TxEnvelope) : option (Signature * option Z * Z * Z * option Z) :=
  match e with
  | EnvLegacy s => let t := signed_tx s in Some (signature s, lg_to t, lg_nonce t, lg_gas_limit t, lg_chain_id t)
  | EnvEip2930 s => let t := signed_tx s in Some (signature s, al_to t, al_nonce t, al_gas_limit t, Some (al_chain_id t))
  | EnvEip1559 s => let t := signed_tx s in Some (signature s, df_to t, df_nonce t, df_gas_limit t, Some (df_chain_id t))
  | EnvEip7702 s =>
      let t := signed_tx s in Some (signature s, Some (sc_to t), sc_nonce t, sc_gas_limit t, Some (sc_chain_id t))
  | EnvEip4844 _ => None
  end.

(** [protected_bits.set_bit(legacy_tx_count, bit); legacy_tx_count += 1] *)
Definition push_protected (bit : bool) (t : SpanBatchTransactions) : SpanBatchTransactions :=
  mkSpanBatchTransactions (total_block_tx_count t) (contract_creation_bits t) (tx_sigs t) (tx_nonces t) (tx_gases t)
    (tx_tos t) (tx_data t) (set_bit (protected_bits t) (legacy_tx_count t) bit) (tx_types t)
    (add64 (legacy_tx_count t) 1).

(** The pushes at the end of the loop body of [add_txs]. *)
Definition push_tx (index : Z) (to : option Z) (data : list Z) (sig : Signature) (nonce gas : Z) (ty : TxType)
    (t : SpanBatchTransactions) : SpanBatchTransactions :=
  let '(tos, contract_creation_bit) :=
    match to with Some address => (tx_tos t ++ [address], 0) | None => (tx_tos t, 1) end in
  mkSpanBatchTransactions (total_block_tx_count t) (set_bit (contract_creation_bits t) index (contract_creation_bit =? 1))
    (tx_sigs t ++ [sig]) (tx_nonces t ++ [nonce]) (tx_gases t ++ [gas]) tos (tx_data t ++ [data]) (protected_bits t)
    (tx_types t ++ [ty]) (legacy_tx_count t).

Definition set_total (n : Z) (t : SpanBatchTransactions) : SpanBatchTransactions :=
  mkSpanBatchTransactions n (contract_creation_bits t) (tx_sigs t) (tx_nonces t) (tx_gases t) (tx_tos t) (tx_data t)
    (protected_bits t) (tx_types t) (legacy_tx_count t).

(** The body of the loop of [add_txs]. *)
Definition add_one (chain_id index : Z) (raw : list Z) : stm SpanBatchTransactions (fault SpanBatchError) unit :=
  tx_enveloped ← lift (or_invalid (envelope_decode raw));
  span_batch_tx ← lift (data_try_from tx_enveloped);
  let tx_type := env_type tx_enveloped in
  (if decide (tx_type = Legacy) then modify (push_protected (is_replay_protected tx_enveloped)) else mret tt) ;;
  '(signature, to, nonce, gas, tx_chain_id) ← lift (or_invalid (envelope_fields tx_enveloped));
  (if is_replay_protected tx_enveloped
   then id ← lift (or_invalid tx_chain_id); guard_err (negb (id =? chain_id)) (Fail (Decoding InvalidTransactionData))
   else mret tt) ;;
  modify (push_tx index to (data_encode span_batch_tx) signature nonce gas tx_type).

Fixpoint add_loop (chain_id index : Z) (txs : list (list Z)) : stm SpanBatchTransactions (fault SpanBatchError) unit :=
  match txs with
  | [] => mret tt
  | raw :: txs => add_one chain_id index raw ;; add_loop chain_id (add64 index 1) txs
  end.

(** [add_txs] *)
Definition add_txs (txs : list (list Z)) (chain_id : Z) : stm SpanBatchTransactions (fault SpanBatchError) unit :=
  offset ← gets total_block_tx_count;
  add_loop chain_id offset txs ;;
  modify (fun t => set_total (add64 (total_block_tx_count t) (zlen txs)) t).
End transactions.

(** * Laws of the other crates *)

(** The encoding of a structure is an RLP list: its first byte is above [0x7f], and
    the header in front gives the length of the whole. *)
Definition rlp_list_ok `{SpanTxCodecs} {A} (P : A -> Prop) (c : codec A) : Prop :=
  codec_ok P c /\
  forall a, P a -> (exists b l, enc c a = b :: l /\ 127 < b) /\
    forall rest, exists payload_length rest',
      header_decode (enc c a ++ rest) = Some ((true, payload_length), rest') /\
      payload_length + header_length (true, payload_length) = zlen (enc c a).

Definition legacy_data_ok (d : SpanBatchLegacyTransactionData) : Prop :=
  fits U256_MAX (lgd_value d) /\ fits U128_MAX (lgd_gas_price d) /\ bytes_ok (lgd_data d).
Definition eip2930_data_ok (d : SpanBatchEip2930TransactionData) : Prop :=
  fits U256_MAX (ald_value d) /\ fits U128_MAX (ald_gas_price d) /\ bytes_ok (ald_data d).
Definition eip1559_data_ok (d : SpanBatchEip1559TransactionData) : Prop :=
  fits U256_MAX (dfd_value d) /\ fits U128_MAX (dfd_max_priority_fee_per_gas d) /\
  fits U128_MAX (dfd_max_fee_per_gas d) /\ bytes_ok (dfd_data d).
Definition eip7702_data_ok (d : SpanBatchEip7702TransactionData) : Prop :=
  fits U256_MAX (scd_value d) /\ fits U128_MAX (scd_max_priority_fee_per_gas d) /\
  fits U128_MAX (scd_max_fee_per_gas d) /\ bytes_ok (scd_data d).

(** An envelope without the hash stored in it. *)
Definition strip (e : TxEnvelope) : TxEnvelope :=
  match e with
  | EnvLegacy s => EnvLegacy (mkSigned (signed_tx s) (signature s) 0)
  | EnvEip2930 s => EnvEip2930 (mkSigned (signed_tx s) (signature s) 0)
  | EnvEip1559 s => EnvEip1559 (mkSigned (signed_tx s) (signature s) 0)
  | EnvEip7702 s => EnvEip7702 (mkSigned (signed_tx s) (signature s) 0)
  | EnvEip4844 b => EnvEip4844 b
  end.

Definition sig_ok (s : Signature) : Prop := fits U256_MAX (sig_r s) /\ fits U256_MAX (sig_s s).
Definition to_ok (to : option Z) : Prop := match to with Some a => fits (2 ^ 160 - 1) a | None => True end.

(** The fields of an envelope are within their types, and a chain id is [chain_id].
    Blob transactions are not transactions of an L2 block. *)
Definition envelope_ok `{SpanTxCodecs} (chain_id : Z) (e : TxEnvelope) : Prop :=
  match data_try_from e, envelope_fields e with
  | Ok d, Some (sig, to, nonce, gas, tx_chain_id) =>
      match d with
      | LegacyData d => legacy_data_ok d | Eip2930Data d => eip2930_data_ok d
      | Eip1559Data d => eip1559_data_ok d | Eip7702Data d => eip7702_data_ok d
      end /\
      zlen (data_encode d) <= MAX_SPAN_BATCH_ELEMENTS /\ sig_ok sig /\ to_ok to /\ fits U64_MAX nonce /\
      fits U64_MAX gas /\ (tx_chain_id = Some chain_id \/ tx_chain_id = None)
  | _, _ => False
  end.

Class SpanTxLaws `{SpanTxCodecs} := {
  law_uvarint : codec_ok (fits U64_MAX) uvarint;
  law_legacy_data : rlp_list_ok legacy_data_ok legacy_data_codec;
  law_eip2930_data : rlp_list_ok eip2930_data_ok eip2930_data_codec;
  law_eip1559_data : rlp_list_ok eip1559_data_ok eip1559_data_codec;
  law_eip7702_data : rlp_list_ok eip7702_data_ok eip7702_data_codec;
  law_legacy_u8 : tx_type_u8 Legacy = 0;
  law_tx_type_u8 ty : 0 <= tx_type_u8 ty <= 127;
  law_tx_type ty : tx_type_try_from (tx_type_u8 ty) = Some ty;
  law_replay_protected e :
    is_replay_protected e =
      match envelope_fields e with Some (_, _, _, _, Some _) => true | Some (_, _, _, _, None) => false | None => true end;
  law_encode_strip e : envelope_encode_2718 (strip e) = envelope_encode_2718 e;
  law_envelope chain_id e : envelope_ok chain_id e ->
    exists e', envelope_decode (envelope_encode_2718 e) = Some e' /\ strip e' = strip e;
}.

(** * Reading columns *)

Lemma read_n_app {A} (write : A -> list Z) (body : Z -> rd A) (xs : list A) i rest :
  (forall k x rest, xs !! k = Some x -> body (i + Z.of_nat k) (write x ++ rest) = (Ok x, rest)) ->
  read_n i (length xs) body (concat (write <$> xs) ++ rest) = (Ok xs, rest).
Proof.
  revert i. induction xs as [|x xs IH]; intros i Hb; [done|].
  cbn [read_n length fmap list_fmap concat]. rewrite <- app_assoc.
  rewrite (bind_run _ _ _ x _) by (rewrite <- (Hb 0%nat x) by done; f_equal; lia).
  rewrite (bind_run _ _ _ xs rest); [done|]. apply IH. intros k y r Hk.
  replace (i + 1 + Z.of_nat k) with (i + Z.of_nat (S k)) by lia. by apply Hb.
Qed.

Lemma read_bytes_app n e l rest : length l = n -> read_bytes n e (l ++ rest) = (Ok l, rest).
Proof.
  intros <-. unfold read_bytes. rewrite (proj2 (Z.ltb_ge _ _)) by (rewrite zlen_app; unfold zlen; lia).
  by rewrite take_app_length, drop_app_length.
Qed.

(** * The columns of a list of transactions *)

(** A transaction as the columns hold it. *)
Record item : Type := mkItem {
  it_data : SpanBatchTransactionData; it_sig : Signature; it_to : option Z; it_nonce : Z; it_gas : Z;
  it_protected : bool }.

Definition is_legacy (it : item) : Prop := data_tx_type (it_data it) = Legacy.
#[export] Instance is_legacy_dec it : Decision (is_legacy it).
Proof. unfold is_legacy. apply _. Defined.
#[global] Typeclasses Opaque is_legacy.

Definition creates (it : item) : bool := match it_to it with Some _ => false | None => true end.

(** The columns of [its]. *)
Record columns `{SpanTxCodecs} (t : SpanBatchTransactions) (its : list item) : Prop := mkColumns {
  col_creation : bits_are (contract_creation_bits t) (creates <$> its);
  col_sigs : tx_sigs t = it_sig <$> its;
  col_nonces : tx_nonces t = it_nonce <$> its;
  col_gases : tx_gases t = it_gas <$> its;
  col_tos : tx_tos t = omap it_to its;
  col_data : tx_data t = (fun it => data_encode (it_data it)) <$> its;
  col_types : tx_types t = (fun it => data_tx_type (it_data it)) <$> its;
  col_legacy : legacy_tx_count t = zlen (filter is_legacy its);
  col_protected : bits_are (protected_bits t) (it_protected <$> filter is_legacy its);
}.

(** The item of an envelope of the chain. *)
Definition describes `{SpanTxCodecs} (chain_id : Z) (e : TxEnvelope) (it : item) : Prop :=
  data_try_from e = Ok (it_data it) /\
  envelope_fields e = Some (it_sig it, it_to it, it_nonce it, it_gas it,
                            if it_protected it then Some chain_id else None).

Definition data_ok (d : SpanBatchTransactionData) : Prop :=
  match d with
  | LegacyData d => legacy_data_ok d | Eip2930Data d => eip2930_data_ok d
  | Eip1559Data d => eip1559_data_ok d | Eip7702Data d => eip7702_data_ok d
  end.
Record item_ok `{SpanTxCodecs} (it : item) : Prop := mkItemOk {
  ok_data : data_ok (it_data it);
  ok_size : zlen (data_encode (it_data it)) <= MAX_SPAN_BATCH_ELEMENTS;
  ok_sig : sig_ok (it_sig it);
  ok_to : to_ok (it_to it);
  ok_nonce : fits U64_MAX (it_nonce it);
  ok_gas : fits U64_MAX (it_gas it);
}.

Section laws.
Context `{SpanTxCodecs} `{!SpanTxLaws}.

Lemma envelope_item chain_id e : envelope_ok chain_id e -> exists it, describes chain_id e it /\ item_ok it.
Proof.
  unfold envelope_ok, describes. destruct (data_try_from e) as [d|] eqn:Ed; [|done].
  destruct (envelope_fields e) as [[[[[sig to] nonce] gas] cid]|] eqn:Ef; [|done].
  intros (Hd & Hs & Hsig & Hto & Hn & Hg & Hc).
  exists (mkItem d sig to nonce gas (match cid with Some _ => true | None => false end)). cbn. split_and!; [done| |by constructor].
  do 2 f_equal. by destruct Hc as [-> | ->].
Qed.

Lemma low_u128_id x : fits U128_MAX x -> low_u128 x = x.
Proof.
  intros Hx. unfold low_u128. change 32%nat with (16 + 16)%nat. rewrite drop_be_bytes. by apply (be_val_fits 16 U128_MAX).
Qed.

(** The reconstructed envelope is the one the item was taken from. *)
Lemma describes_signed chain_id e it : describes chain_id e it -> item_ok it ->
  exists e', to_signed_tx (it_data it) (it_nonce it) (it_gas it) (it_to it) chain_id (it_sig it) (it_protected it) = Ok e' /\
    strip e' = strip e.
Proof.
  intros [Hd Hf] Hok. pose proof (ok_data _ Hok) as Hdata.
  destruct it as [d sig to nonce gas prot]; cbn in *.
  destruct e as [[[] s h]|[[] s h]|[[] s h]|b|[[] s h]]; cbn in *; try done; injection Hd as <-; injection Hf as <- <- <- <- Hc;
    unfold data_ok, legacy_data_ok, eip2930_data_ok, eip1559_data_ok, eip7702_data_ok in Hdata; cbn in Hdata; destruct_and?;
    eexists; (split; [reflexivity|]); cbn -[low_u128]; rewrite !low_u128_id by done; try done;
    rewrite ?Hc; repeat f_equal; by destruct prot; simplify_eq.
Qed.

(** * Adding *)

Lemma filter_snoc_yes {A} (P : A -> Prop) `{!forall x, Decision (P x)} l x : P x -> filter P (l ++ [x]) = filter P l ++ [x].
Proof. intros Hx. by rewrite filter_app, filter_cons_True, filter_nil. Qed.
Lemma filter_snoc_no {A} (P : A -> Prop) `{!forall x, Decision (P x)} l x : ~ P x -> filter P (l ++ [x]) = filter P l.
Proof. intros Hx. by rewrite filter_app, filter_cons_False, filter_nil, app_nil_r. Qed.

Lemma data_type_env e d : data_try_from e = Ok d -> env_type e = data_tx_type d.
Proof. by destruct e; intros [= <-]. Qed.

Definition maybe_protected (it : item) (t : SpanBatchTransactions) : SpanBatchTransactions :=
  if decide (is_legacy it) then push_protected (it_protected it) t else t.
Definition add_item (it : item) (index : Z) (t : SpanBatchTransactions) : SpanBatchTransactions :=
  push_tx index (it_to it) (data_encode (it_data it)) (it_sig it) (it_nonce it) (it_gas it) (data_tx_type (it_data it))
    (maybe_protected it t).

Lemma columns_add t its it : columns t its -> zlen its < U64_MAX -> columns (add_item it (zlen its) t) (its ++ [it]).
Proof.
  intros [] Hlen. assert (Hz : zlen (filter is_legacy its) <= zlen its)
    by (unfold zlen; pose proof (length_filter is_legacy its); lia).
  assert (Hp : forall v, creates it = v ->
    bits_are (set_bit (contract_creation_bits t) (zlen its) v) ((creates <$> its) ++ [creates it])).
  { intros v <-. replace (zlen its) with (zlen (creates <$> its)) by (unfold zlen; by rewrite length_fmap).
    by apply bits_are_push. }
  assert (Hl : legacy_tx_count (maybe_protected it t) = zlen (filter is_legacy (its ++ [it])) /\
    bits_are (protected_bits (maybe_protected it t)) (it_protected <$> filter is_legacy (its ++ [it]))).
  { unfold maybe_protected. case_decide as Hleg; cbn.
    - rewrite filter_snoc_yes, fmap_app, zlen_app, col_legacy0 by done. pose proof (zlen_nonneg (filter is_legacy its)). split.
      + rewrite add64_id by lia. done.
      + replace (zlen _) with (zlen (it_protected <$> filter is_legacy its)) by (unfold zlen; by rewrite length_fmap).
        by apply bits_are_push.
    - by rewrite filter_snoc_no by done. }
  destruct Hl as [Hl1 Hl2]. unfold add_item, push_tx.
  assert (Hm : contract_creation_bits (maybe_protected it t) = contract_creation_bits t /\ tx_sigs (maybe_protected it t) = tx_sigs t /\
    tx_nonces (maybe_protected it t) = tx_nonces t /\ tx_gases (maybe_protected it t) = tx_gases t /\
    tx_tos (maybe_protected it t) = tx_tos t /\ tx_data (maybe_protected it t) = tx_data t /\ tx_types (maybe_protected it t) = tx_types t)
    by (unfold maybe_protected; by destruct (decide _)).
  destruct Hm as (E1 & E2 & E3 & E4 & E5 & E6 & E7).
  destruct (it_to it) as [a|] eqn:Eto; constructor; cbn; rewrite ?E1, ?E2, ?E3, ?E4, ?E5, ?E6, ?E7, ?fmap_app, ?omap_app; cbn;
    rewrite ?Eto, ?app_nil_r; try congruence; try done; by apply Hp; unfold creates; rewrite Eto.
Qed.

Lemma describes_strip chain_id e e' it : strip e' = strip e -> describes chain_id e it -> describes chain_id e' it.
Proof.
  unfold describes. intros Hs [Hd Hf]. split; [rewrite <- Hd|rewrite <- Hf];
    destruct e, e'; cbn in *; try done; injection Hs; intros; congruence.
Qed.

Lemma add_one_run chain_id index raw e it t :
  envelope_decode raw = Some e -> describes chain_id e it ->
  add_one chain_id index raw t = (Ok tt, add_item it index t).
Proof.
  intros He [Hd Hf]. unfold add_one. rewrite He. erewrite bind_run by reflexivity.
  erewrite bind_run by (unfold lift; by rewrite Hd).
  assert (Hp : is_replay_protected e = it_protected it)
    by (rewrite law_replay_protected, Hf; by destruct (it_protected it)).
  assert (Ht : env_type e = data_tx_type (it_data it)) by by apply data_type_env.
  rewrite Hp, Ht, Hf. rewrite (bind_run _ _ _ tt (maybe_protected it t)).
  2:{ unfold maybe_protected, is_legacy. by destruct (decide _). }
  erewrite bind_run by reflexivity. cbn beta iota.
  destruct (it_protected it); erewrite bind_run; try reflexivity.
  erewrite bind_run by reflexivity. unfold guard_err. by rewrite Z.eqb_refl.
Qed.

Lemma total_add_item it index t : total_block_tx_count (add_item it index t) = total_block_tx_count t.
Proof. unfold add_item, push_tx, maybe_protected. by destruct (decide _), (it_to it). Qed.

Definition raw_for (chain_id : Z) (raw : list Z) (it : item) : Prop :=
  exists e, envelope_decode raw = Some e /\ describes chain_id e it.

Lemma add_loop_run chain_id raws new t its :
  Forall2 (raw_for chain_id) raws new -> columns t its -> zlen its + zlen new <= U64_MAX ->
  exists t', add_loop chain_id (zlen its) raws t = (Ok tt, t') /\ columns t' (its ++ new) /\
    total_block_tx_count t' = total_block_tx_count t.
Proof.
  intros Hraws. revert t its. induction Hraws as [|raw it raws new (e & He & Hd) _ IH]; intros t its Hc Hlen.
  - exists t. by rewrite app_nil_r.
  - assert (Hn : zlen (it :: new) = 1 + zlen new) by (unfold zlen; cbn; lia). pose proof (zlen_nonneg new).
    pose proof (zlen_nonneg its).
    destruct (IH (add_item it (zlen its) t) (its ++ [it])) as (t' & Ht' & Hc' & Htot).
    { apply columns_add; [done|lia]. }
    { rewrite zlen_app. change (zlen [it]) with 1. lia. }
    exists t'. cbn [add_loop]. erewrite bind_run by by eapply add_one_run.
    rewrite zlen_app in Ht'. change (zlen [it]) with 1 in Ht'. rewrite add64_id by lia.
    rewrite <- app_assoc in Hc'. split_and!; [done..|]. by rewrite Htot, total_add_item.
Qed.

(** Adding transactions appends their items to every column. *)
Lemma add_txs_run chain_id raws new t its :
  Forall2 (raw_for chain_id) raws new -> columns t its -> total_block_tx_count t = zlen its ->
  zlen its + zlen new <= U64_MAX ->
  exists t', add_txs raws chain_id t = (Ok tt, t') /\ columns t' (its ++ new) /\
    total_block_tx_count t' = zlen (its ++ new).
Proof.
  intros Hraws Hc Htot Hlen. unfold add_txs. erewrite bind_run by reflexivity. rewrite Htot.
  destruct (add_loop_run chain_id raws new t its Hraws Hc Hlen) as (t' & Ht' & Hc' & Htot').
  rewrite (bind_run _ _ _ _ _ Ht'). eexists. split; [reflexivity|]. split; [by destruct Hc'; constructor|].
  cbn. rewrite Htot', Htot. unfold zlen at 2. rewrite (Forall2_length _ _ _ Hraws). fold (zlen new).
  pose proof (zlen_nonneg its). pose proof (zlen_nonneg new). rewrite add64_id, zlen_app by lia. done.
Qed.

(** Encodings of envelopes of the chain. *)
Lemma raws_of_envelopes chain_id es : Forall (envelope_ok chain_id) es ->
  exists its, Forall2 (raw_for chain_id) (envelope_encode_2718 <$> es) its /\ Forall2 (describes chain_id) es its /\
    Forall item_ok its.
Proof.
  induction 1 as [|e es He _ (its & H1 & H2 & H3)]; [by exists []|].
  destruct (envelope_item _ _ He) as (it & Hd & Hok). destruct (law_envelope _ _ He) as (e' & He' & Hs).
  exists (it :: its). split_and!; constructor; try done. exists e'. split; [done|]. by eapply describes_strip.
Qed.

Lemma columns_default : columns default_txs [].
Proof. constructor; try done; apply bits_are_nil. Qed.

(** * Encoding and decoding *)

Lemma y_parity_are sigs : bits_are (y_parity_bits sigs) (sig_v <$> sigs).
Proof.
  unfold y_parity_bits.
  enough (exists bits, foldl (fun '(i, bits) sig => (i + 1, set_bit bits i (sig_v sig))) (0, []) sigs = (zlen sigs, bits) /\
    bits_are bits (sig_v <$> sigs)) as (bits & -> & Hb) by done.
  induction sigs as [|s sigs (bits & IH & Hb)] using rev_ind; [exists []; split; [done|apply bits_are_nil]|].
  exists (set_bit bits (zlen sigs) (sig_v s)). rewrite foldl_app, IH. cbn. split; [by rewrite zlen_app|].
  rewrite fmap_app. replace (zlen sigs) with (zlen (sig_v <$> sigs)) by (unfold zlen; by rewrite length_fmap).
  by apply bits_are_push.
Qed.

Lemma rlp_read {A} (P : A -> Prop) (c : codec A) a rest : rlp_list_ok P c -> P a ->
  zlen (enc c a) <= MAX_SPAN_BATCH_ELEMENTS ->
  exists payload_length rest',
    header_decode (enc c a ++ rest) = Some ((true, payload_length), rest') /\
    add64 payload_length (header_length (true, payload_length)) = zlen (enc c a).
Proof.
  intros [_ Hc] Ha Hlen. destruct (Hc a Ha) as [_ Hr]. destruct (Hr rest) as (n & rest' & Hh & Hn).
  exists n, rest'. split; [done|]. unfold add64. rewrite Hn. apply wrap_id. split; [apply zlen_nonneg|].
  unfold MAX_SPAN_BATCH_ELEMENTS, U64_MAX in *. lia.
Qed.

Lemma rlp_first {A} (P : A -> Prop) (c : codec A) a : rlp_list_ok P c -> P a ->
  exists b l, enc c a = b :: l /\ 127 < b.
Proof. intros [_ Hc] Ha. apply (Hc a Ha). Qed.

(** What [read_tx_data] does once the header has been read. *)
Lemma read_tx_data_typed {A} (P : A -> Prop) (c : codec A) a ty rest : rlp_list_ok P c -> P a ->
  1 + zlen (enc c a) <= MAX_SPAN_BATCH_ELEMENTS ->
  read_tx_data (tx_type_u8 ty :: enc c a ++ rest) = (Ok (tx_type_u8 ty :: enc c a, ty), rest).
Proof.
  intros Hc Ha Hlen. destruct (rlp_read P c a rest Hc Ha ltac:(lia)) as (n & rest' & Hh & Hn).
  unfold read_tx_data. rewrite (proj2 (Z.leb_le _ _)) by apply law_tx_type_u8. rewrite Hh, Hn, !Z.gtb_ltb, zlen_app.
  pose proof (zlen_nonneg rest). rewrite !(proj2 (Z.ltb_ge _ _)) by lia. rewrite law_tx_type.
  replace (Z.to_nat (zlen (enc c a))) with (length (enc c a)) by (unfold zlen; lia).
  by rewrite take_app_length, drop_app_length.
Qed.

Lemma read_tx_data_app d rest : data_ok d -> zlen (data_encode d) <= MAX_SPAN_BATCH_ELEMENTS ->
  read_tx_data (data_encode d ++ rest) = (Ok (data_encode d, data_tx_type d), rest).
Proof.
  assert (Hcons : forall b (l : list Z), zlen (b :: l) = 1 + zlen l) by (intros; unfold zlen; cbn; lia).
  intros Hd Hs. destruct d as [d|d|d|d]; cbn [data_encode data_tx_type data_ok] in *.
  2: by rewrite Hcons in Hs; apply (read_tx_data_typed _ _ d Eip2930 rest law_eip2930_data).
  2: by rewrite Hcons in Hs; apply (read_tx_data_typed _ _ d Eip1559 rest law_eip1559_data).
  2: by rewrite Hcons in Hs; apply (read_tx_data_typed _ _ d Eip7702 rest law_eip7702_data).
  destruct (rlp_read _ _ d rest law_legacy_data Hd Hs) as (n & rest' & Hh & Hn).
  destruct (rlp_first _ _ d law_legacy_data Hd) as (b & l & El & Hb).
  unfold read_tx_data. rewrite El at 1. cbn [app]. rewrite (proj2 (Z.leb_gt _ _)) by lia.
  rewrite Hh, Hn, !Z.gtb_ltb, zlen_app. pose proof (zlen_nonneg rest).
  rewrite !(proj2 (Z.ltb_ge _ _)) by lia. pose proof (law_tx_type Legacy) as Hty. rewrite law_legacy_u8 in Hty. rewrite Hty.
  replace (Z.to_nat (zlen (enc _ d))) with (length (enc legacy_data_codec d)) by (unfold zlen; lia).
  by rewrite take_app_length, drop_app_length.
Qed.

Lemma read_uvarint_app e v rest : fits U64_MAX v -> read_uvarint e (enc uvarint v ++ rest) = (Ok v, rest).
Proof. intros Hv. unfold read_uvarint. by rewrite (codec_dec law_uvarint). Qed.

Lemma read_uvarints e (vs : list Z) rest : Forall (fits U64_MAX) vs ->
  read_n 0 (length vs) (fun _ => read_uvarint e) (concat (enc uvarint <$> vs) ++ rest) = (Ok vs, rest).
Proof.
  intros Hv. apply read_n_app. intros k v r Hk. apply read_uvarint_app. by eapply Forall_lookup_1.
Qed.

Lemma sigs_decode sigs rest : Forall sig_ok sigs ->
  decode_tx_sigs (zlen sigs)
    (y_parity_bits sigs ++ concat ((fun sig => be_bytes 32 (sig_r sig) ++ be_bytes 32 (sig_s sig)) <$> sigs) ++ rest) =
  (Ok sigs, rest).
Proof.
  intros Hs. pose proof (y_parity_are sigs) as Hy. unfold decode_tx_sigs.
  assert (Hz : zlen (sig_v <$> sigs) = zlen sigs) by (unfold zlen; by rewrite length_fmap).
  rewrite <- Hz. erewrite bind_run by by apply bits_are_decode. rewrite Hz. unfold zlen. rewrite Nat2Z.id.
  apply read_n_app. intros k s r Hk.
  rewrite Z.add_0_l, (bits_are_get _ _ Hy k (sig_v s)) by (by rewrite list_lookup_fmap, Hk).
  erewrite bind_run by reflexivity.
  rewrite (bind_run _ _ _ _ _ (read_bytes_app 64 _ (be_bytes 32 (sig_r s) ++ be_bytes 32 (sig_s s)) r ltac:(by rewrite length_app, !length_be_bytes))).
  destruct (Forall_lookup_1 _ _ _ _ Hs Hk) as [Hr Hs'].
  rewrite take_app_length', drop_app_length' by (by rewrite length_be_bytes).
  rewrite !(be_val_fits 32 U256_MAX) by done. by destruct s as [? ? []].
Qed.

Lemma tos_count its : trues (creates <$> its) + zlen (omap it_to its) = zlen its.
Proof.
  unfold trues, zlen. induction its as [|it its IH]; [done|].
  cbn [fmap list_fmap zsum foldr omap list_omap length]. fold (zsum (Z.b2z <$> (creates <$> its))). unfold creates at 1.
  destruct (it_to it); cbn [length Z.b2z]; lia.
Qed.

Lemma legacy_types its :
  zlen (filter (fun ty => ty = Legacy) ((fun it => data_tx_type (it_data it)) <$> its)) = zlen (filter is_legacy its).
Proof.
  unfold zlen. induction its as [|it its IH]; [done|]. cbn [fmap list_fmap].
  destruct (decide (is_legacy it)) as [Hl|Hl]; unfold is_legacy in Hl.
  - rewrite !filter_cons_True by done. cbn [length]. lia.
  - rewrite !filter_cons_False by done. done.
Qed.

Section roundtrip.
Context (t : SpanBatchTransactions) (its : list item) (Hc : columns t its) (Hok : Forall item_ok its).
Hypothesis Hlen : zlen its <= MAX_SPAN_BATCH_ELEMENTS.

Lemma zlen_fmap {A B} (f : A -> B) (l : list A) : zlen (f <$> l) = zlen l.
Proof. unfold zlen. by rewrite length_fmap. Qed.

Lemma column_ok {A} (P : A -> Prop) (f : item -> A) : (forall it, item_ok it -> P (f it)) -> Forall P (f <$> its).
Proof. intros Hf. apply Forall_fmap. eapply Forall_impl; [exact Hok|]. exact Hf. Qed.

Lemma tos_decode rest :
  decode_tx_tos (zlen its) (contract_creation_bits t) (encode_tx_tos t ++ rest) = (Ok (tx_tos t), rest).
Proof.
  unfold decode_tx_tos, contract_creation_count, encode_tx_tos.
  rewrite (bits_are_ones _ _ (col_creation _ _ Hc)). pose proof (tos_count its) as Hn. rewrite (col_tos _ _ Hc).
  pose proof (zlen_nonneg (omap it_to its)). rewrite (proj2 (Z.ltb_ge _ _)) by lia.
  replace (Z.to_nat (zlen its - trues (creates <$> its))) with (length (omap it_to its)) by (unfold zlen in *; lia).
  apply read_n_app. intros k a r Hk.
  rewrite (bind_run _ _ _ _ _ (read_bytes_app 20 _ (be_bytes 20 a) r (length_be_bytes 20 a))).
  unfold mret, stm_ret. do 2 f_equal. apply (be_val_fits 20 (2 ^ 160 - 1)); [done|].
  apply list_elem_of_lookup_2, list_elem_of_omap in Hk as (it & Hin & Hto).
  pose proof (ok_to _ (proj1 (Forall_forall _ _) Hok it Hin)) as Ha. by rewrite Hto in Ha.
Qed.

Lemma tx_data_decode rest :
  decode_tx_data (zlen its) 0 (encode_tx_data t ++ rest) = (Ok (tx_data t, tx_types t, legacy_tx_count t), rest).
Proof.
  unfold decode_tx_data, encode_tx_data. rewrite (col_data _ _ Hc), (col_types _ _ Hc), (col_legacy _ _ Hc).
  set (items := (fun it => (data_encode (it_data it), data_tx_type (it_data it))) <$> its).
  replace (concat _) with (concat (fst <$> items)) by (unfold items; by rewrite <- list_fmap_compose).
  replace (Z.to_nat (zlen its)) with (length items) by (unfold items, zlen; rewrite length_fmap; lia).
  rewrite (bind_run _ _ _ items rest).
  2:{ apply read_n_app. intros k x r Hk. unfold items in Hk. rewrite list_lookup_fmap in Hk.
      apply fmap_Some in Hk as (it & Hit & ->). cbn [fst].
      pose proof (Forall_lookup_1 _ _ _ _ Hok Hit) as Hi. apply read_tx_data_app; [apply Hi|apply Hi]. }
  unfold items. rewrite <- !list_fmap_compose. unfold mret, stm_ret, compose. cbn [fst snd]. rewrite legacy_types.
  rewrite add64_id; [done|lia|apply zlen_nonneg|].
  pose proof (length_filter is_legacy its). unfold zlen, MAX_SPAN_BATCH_ELEMENTS, U64_MAX in *. lia.
Qed.

(** Decoding the encoded columns gives the columns back, and the rest of the buffer. *)
Lemma txs_roundtrip : total_block_tx_count t = zlen its ->
  exists bytes, txs_encode t = Ok bytes /\
    forall rest, txs_decode (set_total (zlen its) default_txs) (bytes ++ rest) = (Ok t, rest).
Proof.
  intros Htot. pose proof (col_creation _ _ Hc) as Hcr. pose proof (col_protected _ _ Hc) as Hpr.
  pose proof (y_parity_are (tx_sigs t)) as Hy. rewrite (col_sigs _ _ Hc) in Hy at 2.
  assert (Hz1 : zlen (creates <$> its) = zlen its) by apply zlen_fmap.
  assert (Hz2 : zlen (sig_v <$> (it_sig <$> its)) = zlen its) by by rewrite !zlen_fmap.
  assert (Hz3 : zlen (it_protected <$> filter is_legacy its) = legacy_tx_count t) by by rewrite zlen_fmap, (col_legacy _ _ Hc).
  unfold txs_encode, encode_contract_creation_bits, encode_protected_bits, encode_tx_sigs. rewrite Htot.
  pose proof (bits_are_encode _ _ Hcr) as E1. rewrite Hz1 in E1. rewrite E1, bind_ok.
  pose proof (bits_are_encode _ _ Hy) as E2. rewrite Hz2 in E2. rewrite E2, !bind_ok.
  pose proof (bits_are_encode _ _ Hpr) as E3. rewrite Hz3 in E3. rewrite E3, bind_ok.
  eexists. split; [reflexivity|]. intros rest. rewrite <- !app_assoc. unfold txs_decode, decode_contract_creation_bits.
  cbn [total_block_tx_count set_total legacy_tx_count default_txs]. rewrite Z.gtb_ltb, (proj2 (Z.ltb_ge _ _)) by done.
  pose proof (bits_are_decode _ _ Hcr) as D1. rewrite Hz1 in D1. erewrite bind_run by apply D1.
  assert (Hs : zlen (tx_sigs t) = zlen its) by by rewrite (col_sigs _ _ Hc), zlen_fmap.
  rewrite <- Hs at 1. erewrite bind_run by (apply sigs_decode; rewrite (col_sigs _ _ Hc); apply column_ok; apply ok_sig).
  erewrite bind_run by apply tos_decode. erewrite bind_run by apply tx_data_decode. cbn beta iota.
  assert (Hn : Z.to_nat (zlen its) = length (tx_nonces t)) by (rewrite (col_nonces _ _ Hc), length_fmap; unfold zlen; lia).
  assert (Hg : Z.to_nat (zlen its) = length (tx_gases t)) by (rewrite (col_gases _ _ Hc), length_fmap; unfold zlen; lia).
  unfold decode_tx_nonces, decode_tx_gases. rewrite Hn at 1.
  erewrite bind_run by (apply read_uvarints; rewrite (col_nonces _ _ Hc); apply column_ok; apply ok_nonce).
  rewrite Hg at 1. erewrite bind_run by (apply read_uvarints; rewrite (col_gases _ _ Hc); apply column_ok; apply ok_gas).
  unfold decode_protected_bits. rewrite Z.gtb_ltb, (proj2 (Z.ltb_ge _ _)).
  2:{ rewrite (col_legacy _ _ Hc). pose proof (length_filter is_legacy its). unfold zlen in *. lia. }
  pose proof (bits_are_decode _ _ Hpr) as D3. rewrite Hz3 in D3. erewrite bind_run by apply D3.
  unfold mret, stm_ret. rewrite <- Htot. by destruct t.
Qed.
End roundtrip.

(** * Reconstruction *)

Lemma data_decode_encode d : data_ok d -> data_decode (data_encode d) = Some d.
Proof.
  intros Hd.
  assert (Htyped : forall A (P : A -> Prop) (c : codec A) a ty, rlp_list_ok P c -> P a ->
    data_decode (tx_type_u8 ty :: enc c a) = decode_typed (tx_type_u8 ty :: enc c a) /\
    (zlen (tx_type_u8 ty :: enc c a) <=? 1) = false /\ dec c (enc c a) = Some (a, [])).
  { intros A P c a ty Hc Ha. destruct (rlp_first P c a Hc Ha) as (b & l & El & _). destruct Hc as [Hc _].
    split_and!.
    - cbn. by rewrite Z.gtb_ltb, (proj2 (Z.ltb_ge _ _)) by apply law_tx_type_u8.
    - rewrite El. unfold zlen. cbn. apply Z.leb_gt. lia.
    - rewrite <- (app_nil_r (enc c a)). by apply (codec_dec Hc). }
  destruct d as [d|d|d|d]; cbn [data_encode data_ok] in *.
  - destruct (rlp_first _ _ d law_legacy_data Hd) as (b & l & El & Hb). unfold data_decode. rewrite El at 1. rewrite Z.gtb_ltb, (proj2 (Z.ltb_lt _ _)) by lia.
    rewrite <- (app_nil_r (enc _ d)). by rewrite (codec_dec (proj1 law_legacy_data)).
  - destruct (Htyped _ _ _ d Eip2930 law_eip2930_data Hd) as (-> & Hl & Hdec). unfold decode_typed. rewrite Hl, law_tx_type. cbn. by rewrite Hdec.
  - destruct (Htyped _ _ _ d Eip1559 law_eip1559_data Hd) as (-> & Hl & Hdec). unfold decode_typed. rewrite Hl, law_tx_type. cbn. by rewrite Hdec.
  - destruct (Htyped _ _ _ d Eip7702 law_eip7702_data Hd) as (-> & Hl & Hdec). unfold decode_typed. rewrite Hl, law_tx_type. cbn. by rewrite Hdec.
Qed.

Lemma to_signed_unprotected d nonce gas to chain_id sig b b' : data_tx_type d <> Legacy ->
  to_signed_tx d nonce gas to chain_id sig b = to_signed_tx d nonce gas to chain_id sig b'.
Proof. by destruct d. Qed.

Lemma lookup_column {A} (f : item -> A) its it rest : (f <$> its ++ it :: rest) !! length its = Some (f it).
Proof. by rewrite list_lookup_fmap, list_lookup_middle. Qed.

Section full_txs.
Context (chain_id : Z) (t : SpanBatchTransactions) (all : list item) (Hc : columns t all) (Hok : Forall item_ok all).

(** The recipient the loop finds for the next transaction. *)
Lemma next_to its it rest : all = its ++ it :: rest ->
  (if Z.b2z (creates it) =? 0
   then to ← or_invalid (tx_tos t !! length (omap it_to its)); Ok (Some to, S (length (omap it_to its)))
   else Ok (None, length (omap it_to its))) =
  (Ok (it_to it, length (omap it_to (its ++ [it]))) : result (fault SpanBatchError) _).
Proof.
  intros Hall. rewrite (col_tos _ _ Hc), Hall, !omap_app. unfold creates. cbn.
  destruct (it_to it) as [a|] eqn:E; cbn; [|by rewrite app_nil_r].
  rewrite list_lookup_middle by done. cbn. rewrite length_app. cbn. do 3 f_equal. lia.
Qed.

(** The protection bit of the next transaction, and the next index. *)
Lemma next_protected its it rest : all = its ++ it :: rest ->
  (if decide (data_tx_type (it_data it) = Legacy)
   then (default 0 (get_bit (protected_bits t) (Z.of_nat (length (filter is_legacy its)))) =? 1,
         S (length (filter is_legacy its)))
   else (true, length (filter is_legacy its))) =
  (if decide (is_legacy it) then it_protected it else true, length (filter is_legacy (its ++ [it]))).
Proof.
  intros Hall. case_decide as Hl.
  - rewrite (decide_True (P := is_legacy it)) by done. rewrite filter_snoc_yes by done. pose proof (col_protected _ _ Hc) as Hp.
    rewrite (bits_are_get _ _ Hp _ (it_protected it)).
    + cbn. rewrite length_app. cbn. f_equal; [by destruct (it_protected it)|lia].
    + by rewrite Hall, filter_app, filter_cons_True, list_lookup_fmap, list_lookup_middle.
  - rewrite (decide_False (P := is_legacy it)) by done. by rewrite filter_snoc_no.
Qed.

Lemma full_loop_run its rest es : all = its ++ rest -> Forall2 (describes chain_id) es rest ->
  full_txs_loop t chain_id (length its) (length (omap it_to its)) (length (filter is_legacy its)) (length rest) =
  Ok (envelope_encode_2718 <$> es).
Proof.
  intros Hall Hd. revert its Hall. induction Hd as [|e it es rest Hd _ IH]; intros its Hall; [done|].
  assert (Hit : all !! length its = Some it) by (by rewrite Hall, list_lookup_middle).
  pose proof (Forall_lookup_1 _ _ _ _ Hok Hit) as Hi. cbn [full_txs_loop length].
  rewrite (byte_at_lookup _ _ (data_encode (it_data it))) by (by rewrite (col_data _ _ Hc), Hall, lookup_column).
  rewrite bind_ok, data_decode_encode by apply Hi. cbn [or_invalid]. rewrite bind_ok.
  rewrite (col_nonces _ _ Hc), (col_gases _ _ Hc), (col_sigs _ _ Hc), Hall, !lookup_column. cbn [or_invalid]. rewrite !bind_ok.
  rewrite (bits_are_get _ _ (col_creation _ _ Hc) _ (creates it)) by (by rewrite Hall, lookup_column).
  cbn [or_invalid]. rewrite bind_ok, (next_to _ _ _ Hall), bind_ok. cbn beta iota.
  rewrite ?bind_ok, (next_protected _ _ _ Hall).
  destruct (describes_signed _ _ _ Hd Hi) as (e' & He' & Hs).
  assert (Hsig : to_signed_tx (it_data it) (it_nonce it) (it_gas it) (it_to it) chain_id (it_sig it)
      (if decide (is_legacy it) then it_protected it else true) = Ok e').
  { case_decide as Hl; [done|]. by rewrite (to_signed_unprotected _ _ _ _ _ _ _ (it_protected it)). }
  rewrite Hsig, bind_ok. specialize (IH (its ++ [it])). rewrite length_app in IH. cbn in IH.
  rewrite Nat.add_1_r in IH. rewrite IH by (by rewrite <- app_assoc). rewrite bind_ok. cbn.
  unfold mret, result_ret. do 2 f_equal. by rewrite <- (law_encode_strip e), <- Hs, law_encode_strip.
Qed.
End full_txs.

(** The transactions of the columns are the encodings of the envelopes. *)
Lemma full_txs_run chain_id t its es : columns t its -> Forall item_ok its -> total_block_tx_count t = zlen its ->
  Forall2 (describes chain_id) es its -> full_txs t chain_id = Ok (envelope_encode_2718 <$> es).
Proof.
  intros Hc Hok Htot Hd. unfold full_txs. rewrite Htot. unfold zlen. rewrite Nat2Z.id.
  by apply (full_loop_run chain_id t its Hc Hok []).
Qed.
End laws.
