(* ===== verification/Batches.v ===== *)
(** Batches ([crates/consensus/protocol/src/batch]): single and span batches and
    when they may extend the safe chain ([single.rs], [span.rs], [validity.rs],
    [inclusion.rs], [traits.rs]). Of a span batch, the caches for its encoding are
    left out. A check may read safe blocks from a provider, whose state it
    threads; a panic is a value. *)

From S2P Require Import Prelude Codec Buffer Rollup SystemConfig Deposits Channel Pipeline L1Info SpanBits.

Inductive BatchDropReason : Type :=
| FutureTimestampHolocene
| PastTimestampPreHolocene
| ParentHashMismatch
| IncludedTooLate
| EpochTooOld
| EpochTooFarInFuture
| EpochHashMismatch
| TimestampBeforeL1Origin
| SequencerDriftOverflow
| SequencerDriftExceeded
| SequencerDriftNotAdoptedNextOrigin
| EmptyTransaction
| DepositTransaction
| Eip7702PreIsthmus
| NonEmptyTransitionBlock
| SpanBatchPreDelta
| SpanBatchNoNewBlocksPreHolocene
| SpanBatchMisalignedTimestamp
| SpanBatchNotOverlappedExactly
| L1OriginBeforeSafeHead
| MissingL1Origin
| OverlappedTxCountMismatch
| OverlappedTxMismatch
| L2BlockInfoExtractionFailed
| OverlappedL1OriginMismatch.

Inductive BatchValidity : Type :=
| Drop (reason : BatchDropReason)
| Accept
| Undecided
| Future
| Past.

#[export] Instance BatchDropReason_eq_dec : EqDecision BatchDropReason.
Proof. solve_decision. Defined.
#[export] Instance BatchValidity_eq_dec : EqDecision BatchValidity.
Proof. solve_decision. Defined.

Definition is_accept (v : BatchValidity) : bool := match v with Accept => true | _ => false end.
Definition is_drop (v : BatchValidity) : bool := match v with Drop _ => true | _ => false end.
Definition is_outdated (v : BatchValidity) : bool := match v with Past => true | _ => false end.
Definition is_future (v : BatchValidity) : bool := match v with Future => true | _ => false end.

(** A check that goes on with a value or returns a verdict. *)
Abbreviation verdict A := (result BatchValidity A).
Definition drop_if (b : bool) (reason : BatchDropReason) : verdict unit := if b then Err (Drop reason) else Ok tt.
(** The verdict of a check that passed to the end is [Accept]. *)
Definition verdict_of {A} (r : verdict A) : BatchValidity := match r with Ok _ => Accept | Err v => v end.

(** [OpTxType] *)
Definition EIP7702_TX_TYPE : Z := 4.

(** The checks on the transactions of a block at a time when Isthmus is active or not. *)
Fixpoint check_txs (isthmus : bool) (txs : list (list Z)) : verdict unit :=
  match txs with
  | [] => Ok tt
  | tx :: txs =>
      match tx with
      | [] => Err (Drop EmptyTransaction)
      | ty :: _ =>
          if ty =? DEPOSIT_TX_TYPE then Err (Drop DepositTransaction)
          else if negb isthmus && (ty =? EIP7702_TX_TYPE) then Err (Drop Eip7702PreIsthmus)
          else check_txs isthmus txs
      end
  end.

(** * Single batches *)

Record SingleBatch : Type := mkSingleBatch {
  sb_parent_hash : Z;
  epoch_num : Z;
  epoch_hash : Z;
  sb_timestamp : Z;
  transactions : list (list Z);
}.

(** [SingleBatch::epoch] *)
Definition batch_epoch (b : SingleBatch) : BlockNumHash := mkBlockNumHash (epoch_num b) (epoch_hash b).

Section single.
Variables (cfg : RollupConfig) (l2_safe_head : L2BlockInfo) (inclusion_block : BlockInfo).

(** The time of the block after the safe head. *)
Definition next_time : Z := add64 (timestamp (block_info l2_safe_head)) (block_time cfg).

Definition check_batch_timestamp (b : SingleBatch) : BatchValidity :=
  let next_timestamp := next_time in
  if sb_timestamp b >? next_timestamp then
    if is_holocene_active cfg (timestamp inclusion_block) then Drop FutureTimestampHolocene else Future
  else if sb_timestamp b <? next_timestamp then
    if is_holocene_active cfg (timestamp inclusion_block) then Past else Drop PastTimestampPreHolocene
  else Accept.

(** The L1 origin of a batch among the first two L1 blocks. *)
Definition single_origin (epoch : BlockInfo) (rest : list BlockInfo) (b : SingleBatch) : verdict BlockInfo :=
  if epoch_num b <? block_number epoch then Err (Drop EpochTooOld)
  else if epoch_num b =? block_number epoch then Ok epoch
  else if epoch_num b =? add64 (block_number epoch) 1 then
    match rest with [] => Err Undecided | next :: _ => Ok next end
  else Err (Drop EpochTooFarInFuture).

(** The sequencer drift rule. *)
Definition single_drift (epoch : BlockInfo) (rest : list BlockInfo) (batch_origin : BlockInfo) (b : SingleBatch) : verdict unit :=
  let max_drift := max_sequencer_drift cfg (timestamp batch_origin) in
  match checked_add U64_MAX (timestamp batch_origin) max_drift with
  | None => Err (Drop SequencerDriftOverflow)
  | Some max =>
      let no_txs := match transactions b with [] => true | _ => false end in
      _ ← drop_if ((sb_timestamp b >? max) && negb no_txs) SequencerDriftExceeded;
      if (sb_timestamp b >? max) && no_txs then
        if block_number epoch =? block_number batch_origin then
          match rest with
          | [] => Err Undecided
          | next_origin :: _ => drop_if (sb_timestamp b >=? timestamp next_origin) SequencerDriftNotAdoptedNextOrigin
          end
        else Ok tt
      else Ok tt
  end.

Definition single_rules (epoch : BlockInfo) (rest : list BlockInfo) (b : SingleBatch) : verdict unit :=
  _ ← drop_if (negb (sb_parent_hash b =? hash (block_info l2_safe_head))) ParentHashMismatch;
  _ ← drop_if (add64 (epoch_num b) (seq_window_size cfg) <? block_number inclusion_block) IncludedTooLate;
  batch_origin ← single_origin epoch rest b;
  _ ← drop_if (negb (epoch_hash b =? hash batch_origin)) EpochHashMismatch;
  _ ← drop_if (sb_timestamp b <? timestamp batch_origin) TimestampBeforeL1Origin;
  _ ← single_drift epoch rest batch_origin b;
  _ ← drop_if (is_first_block cfg (is_jovian_active cfg) (sb_timestamp b) &&
              negb (match transactions b with [] => true | _ => false end)) NonEmptyTransitionBlock;
  check_txs (is_isthmus_active cfg (sb_timestamp b)) (transactions b).

(** [SingleBatch::check_batch] *)
Definition check_single (l1_blocks : list BlockInfo) (b : SingleBatch) : BatchValidity :=
  match l1_blocks with
  | [] => Undecided
  | epoch :: rest =>
      let timestamp_check := check_batch_timestamp b in
      if negb (is_accept timestamp_check) then timestamp_check
      else verdict_of (single_rules epoch rest b)
  end.
End single.

(** * Span batches *)

Record SpanBatchElement : Type := mkSpanBatchElement {
  el_epoch_num : Z;
  el_timestamp : Z;
  el_transactions : list (list Z);
}.

Record SpanBatch : Type := mkSpanBatch {
  parent_check : Z;
  l1_origin_check : Z;
  batches : list SpanBatchElement;
}.

(** The first 20 bytes of a hash. *)
Definition first_20 (h : Z) : Z := Z.shiftr h 96.
Definition check_origin_hash (s : SpanBatch) (h : Z) : bool := l1_origin_check s =? first_20 h.
Definition check_parent_hash (s : SpanBatch) (h : Z) : bool := parent_check s =? first_20 h.

(** [starting_timestamp], [final_timestamp], [starting_epoch_num]: they panic on an
    empty batch. *)
Definition starting_timestamp {E} (s : SpanBatch) : result (fault E) Z := e ← byte_at (batches s) 0; mret (el_timestamp e).
Definition final_timestamp {E} (s : SpanBatch) : result (fault E) Z :=
  e ← byte_at (batches s) (zlen (batches s) - 1); mret (el_timestamp e).
Definition starting_epoch_num {E} (s : SpanBatch) : result (fault E) Z := e ← byte_at (batches s) 0; mret (el_epoch_num e).

(** The first L1 block of a number from an index on, with its index. *)
Definition find_origin (l1 : list BlockInfo) (origin_index : nat) (n : Z) : option (nat * BlockInfo) :=
  '(offset, b) ← list_find (fun b => block_number b = n) (drop origin_index l1);
  Some ((origin_index + offset)%nat, b).

(** The loop of [get_singular_batches]. *)
Fixpoint singulars (l1 : list BlockInfo) (head : L2BlockInfo) (origin_index : nat) (es : list SpanBatchElement) :
    result SpanBatchError (list SingleBatch) :=
  match es with
  | [] => Ok []
  | e :: es =>
      if el_timestamp e <=? timestamp (block_info head) then singulars l1 head origin_index es
      else if el_epoch_num e <? num (l1_origin head) then Err SpanL1OriginBeforeSafeHead
      else match find_origin l1 origin_index (el_epoch_num e) with
           | None => Err SpanMissingL1Origin
           | Some (origin_index, origin) =>
               rest ← singulars l1 head origin_index es;
               Ok (mkSingleBatch 0 (el_epoch_num e) (hash origin) (el_timestamp e) (el_transactions e) :: rest)
           end
  end.
Definition get_singular_batches (s : SpanBatch) (l1_origins : list BlockInfo) (l2_safe_head : L2BlockInfo) :
    result SpanBatchError (list SingleBatch) :=
  singulars l1_origins l2_safe_head 0 (batches s).

(** [BatchValidationProvider] *)
Class BatchValidationProvider (F : Type) := {
  l2_block_info_by_number : Z -> stm F PipelineErrorKind L2BlockInfo;
  block_by_number : Z -> stm F PipelineErrorKind BaseBlock;
}.

Section span.
Context {F : Type} `{BatchValidationProvider F}.
Variables (cfg : RollupConfig) (l2_safe_head : L2BlockInfo) (inclusion_block : BlockInfo).

(** Whether the L1 origin of the last block of the span is known and right: the loop
    over the L1 blocks. *)
Fixpoint check_end_origin (s : SpanBatch) (end_epoch_num : Z) (l1 : list BlockInfo) : verdict unit :=
  match l1 with
  | [] => Err Undecided
  | b :: l1 =>
      if block_number b =? end_epoch_num
      then drop_if (negb (check_origin_hash s (hash b))) EpochHashMismatch
      else check_end_origin s end_epoch_num l1
  end.

(** The checks of the prefix once the parent block is known. *)
Definition prefix_rules (s : SpanBatch) (l1_origins : list BlockInfo) (start_epoch end_epoch_num : Z)
    (parent_block : L2BlockInfo) : verdict unit :=
  _ ← drop_if (negb (check_parent_hash s (hash (block_info parent_block)))) ParentHashMismatch;
  _ ← drop_if (add64 start_epoch (seq_window_size cfg) <? block_number inclusion_block) IncludedTooLate;
  _ ← drop_if (start_epoch >? add64 (num (l1_origin parent_block)) 1) EpochTooFarInFuture;
  _ ← check_end_origin s end_epoch_num l1_origins;
  drop_if (start_epoch <? num (l1_origin parent_block)) EpochTooOld.

(** The checks of the prefix before the parent block is looked up. *)
Definition prefix_time (l1_origins : list BlockInfo) (epoch : BlockInfo) (start_epoch start_time final_time : Z) : verdict unit :=
  let holocene := is_holocene_active cfg (timestamp inclusion_block) in
  batch_origin ← (if start_epoch =? add64 (block_number epoch) 1
                  then match l1_origins with _ :: next :: _ => Ok next | _ => Err Undecided end
                  else Ok epoch);
  _ ← drop_if (negb (is_delta_active cfg (timestamp batch_origin))) SpanBatchPreDelta;
  _ ← (if start_time >? next_time cfg l2_safe_head
       then Err (if holocene then Drop FutureTimestampHolocene else Future) else Ok tt);
  if final_time <? next_time cfg l2_safe_head
  then Err (if holocene then Past else Drop SpanBatchNoNewBlocksPreHolocene) else Ok tt.

(** How the span overlaps the safe chain: [None] if it starts after the safe head,
    or the number of its parent. *)
Definition overlap_parent {E} (start_time : Z) : result (fault E) (verdict (option Z)) :=
  let head_time := timestamp (block_info l2_safe_head) in
  if start_time <? next_time cfg l2_safe_head then
    if start_time >? head_time then Ok (Err (Drop SpanBatchMisalignedTimestamp))
    else
      let d := sub64 head_time start_time in
      if negb (if block_time cfg =? 0 then d =? 0 else d mod block_time cfg =? 0)
      then Ok (Err (Drop SpanBatchNotOverlappedExactly))
      else if block_time cfg =? 0 then Err Panic
      else Ok (Ok (Some (sub64 (sub64 (block_number (block_info l2_safe_head)) (d / block_time cfg)) 1)))
  else Ok (Ok None).

(** [SpanBatch::check_batch_prefix]: the parent block, or a verdict. *)
Definition check_batch_prefix {E} (s : SpanBatch) (l1_origins : list BlockInfo) : stm F (fault E) (verdict L2BlockInfo) :=
  match l1_origins, last (batches s) with
  | [], _ | _, None => mret (Err Undecided)
  | epoch :: _, Some end_element =>
      start_epoch ← lift (starting_epoch_num s);
      start_time ← lift (starting_timestamp s);
      final_time ← lift (final_timestamp s);
      let finish (parent_block : L2BlockInfo) : verdict L2BlockInfo :=
        _ ← prefix_rules s l1_origins start_epoch (el_epoch_num end_element) parent_block; Ok parent_block in
      match prefix_time l1_origins epoch start_epoch start_time final_time return stm F (fault E) (verdict L2BlockInfo) with
      | Err v => mret (Err v)
      | Ok _ =>
          o ← lift (overlap_parent start_time);
          match o return stm F (fault E) (verdict L2BlockInfo) with
          | Err v => mret (Err v)
          | Ok None => mret (finish l2_safe_head)
          | Ok (Some parent_num) => fun fetcher =>
              match l2_block_info_by_number parent_num fetcher with
              | (Ok block, fetcher) => (Ok (finish block), fetcher)
              | (Err _, fetcher) => (Ok (Err Undecided), fetcher)
              end
          end
      end
  end.

(** The sequencer drift rule for an element. *)
Definition element_drift (l1_blocks : list BlockInfo) (origin_index : nat) (l1_origin : BlockInfo) (origin_advanced : bool)
    (e : SpanBatchElement) : verdict unit :=
  let max_drift := max_sequencer_drift cfg (timestamp l1_origin) in
  if el_timestamp e >? add64 (timestamp l1_origin) max_drift then
    match el_transactions e with
    | [] =>
        if origin_advanced then Ok tt
        else match l1_blocks !! S origin_index with
             | None => Err Undecided
             | Some next => drop_if (el_timestamp e >=? timestamp next) SequencerDriftNotAdoptedNextOrigin
             end
    | _ => Err (Drop SequencerDriftExceeded)
    end
  else Ok tt.

(** The loop over the elements: [origin_advanced] is the flag for the first element;
    later ones compare their epoch with that of the element before. *)
Fixpoint check_elements (l1_blocks : list BlockInfo) (origin_index : nat) (origin_advanced : bool)
    (es : list SpanBatchElement) : verdict unit :=
  match es with
  | [] => Ok tt
  | e :: es =>
      let next_advanced := match es with [] => false | e' :: _ => el_epoch_num e' >? el_epoch_num e end in
      if el_timestamp e <=? timestamp (block_info l2_safe_head)
      then check_elements l1_blocks origin_index next_advanced es
      else if el_epoch_num e <? num (l1_origin l2_safe_head) then Err (Drop L1OriginBeforeSafeHead)
      else match find_origin l1_blocks origin_index (el_epoch_num e) with
           | None => Err (Drop MissingL1Origin)
           | Some (origin_index, l1_origin) =>
               _ ← drop_if (el_timestamp e <? timestamp l1_origin) TimestampBeforeL1Origin;
               _ ← element_drift l1_blocks origin_index l1_origin origin_advanced e;
               _ ← check_txs (is_isthmus_active cfg (el_timestamp e)) (el_transactions e);
               check_elements l1_blocks origin_index next_advanced es
           end
  end.

(** One safe block against the element of the span that overlaps it. *)
Definition check_overlapped {E} (safe_block : BaseBlock) (e : SpanBatchElement) : result (fault E) (verdict unit) :=
  let txs := bb_transactions safe_block in
  let deposit_count := length (filter is_deposit_tx txs) in
  if negb (length txs - deposit_count =? length (el_transactions e))%nat then Ok (Err (Drop OverlappedTxCountMismatch))
  else if negb (bool_decide (l2_encoded <$> drop deposit_count txs = el_transactions e))
  then Ok (Err (Drop OverlappedTxMismatch))
  else match from_block_and_genesis safe_block (genesis cfg) with
       | Ok r => Ok (drop_if (negb (num (l1_origin r) =? el_epoch_num e)) OverlappedL1OriginMismatch)
       | Err (Fail _) => Ok (Err (Drop L2BlockInfoExtractionFailed))
       | Err Panic => Err Panic
       | Err OutOfFuel => Err OutOfFuel
       end.

(** The loop over the overlapped blocks, [n] of them from index [i] on. *)
Fixpoint check_overlap {E} (s : SpanBatch) (parent_num : Z) (i : Z) (n : nat) : stm F (fault E) (verdict unit) :=
  match n with
  | O => mret (Ok tt)
  | S n => fun fetcher =>
      match block_by_number (add64 (add64 parent_num i) 1) fetcher with
      | (Err _, fetcher) => (Ok (Err Undecided), fetcher)
      | (Ok safe_block, fetcher) =>
          (e ← lift (byte_at (batches s) i);
           r ← lift (check_overlapped safe_block e);
           match r return stm F (fault E) (verdict unit) with
           | Err v => mret (Err v)
           | Ok _ => check_overlap s parent_num (i + 1) n
           end) fetcher
      end
  end.

(** [SpanBatch::check_batch] *)
Definition check_span {E} (s : SpanBatch) (l1_blocks : list BlockInfo) : stm F (fault E) BatchValidity :=
  p ← check_batch_prefix s l1_blocks;
  match p return stm F (fault E) BatchValidity with
  | Err v => mret v
  | Ok parent_block =>
      start_epoch ← lift (starting_epoch_num s);
      start_time ← lift (starting_timestamp s);
      match check_elements l1_blocks 0 (start_epoch =? add64 (num (l1_origin parent_block)) 1) (batches s)
        return stm F (fault E) BatchValidity with
      | Err v => mret v
      | Ok _ =>
          if start_time <? next_time cfg l2_safe_head then
            let parent_num := block_number (block_info parent_block) in
            r ← check_overlap s parent_num 0 (Z.to_nat (sub64 (block_number (block_info l2_safe_head)) parent_num));
            mret (verdict_of r)
          else mret Accept
      end
  end.
End span.

(** * Batches *)

Inductive Batch : Type :=
| Single (b : SingleBatch)
| Span (s : SpanBatch).

Definition batch_timestamp {E} (b : Batch) : result (fault E) Z :=
  match b with Single b => Ok (sb_timestamp b) | Span s => starting_timestamp s end.

Record BatchWithInclusionBlock : Type := mkBatchWithInclusionBlock {
  inclusion_block : BlockInfo;
  batch : Batch;
}.

(** [BatchWithInclusionBlock::check_batch] *)
Definition check_batch {F E} `{BatchValidationProvider F} (cfg : RollupConfig) (l1_blocks : list BlockInfo)
    (l2_safe_head : L2BlockInfo) (b : BatchWithInclusionBlock) : stm F (fault E) BatchValidity :=
  match batch b with
  | Single sb => mret (check_single cfg l2_safe_head (inclusion_block b) l1_blocks sb)
  | Span s => check_span cfg l2_safe_head (inclusion_block b) s l1_blocks
  end.

(** * A decided verdict stands when more L1 blocks are known *)

Lemma drop_if_ok b reason : drop_if b reason = Ok tt <-> b = false.
Proof. by destruct b. Qed.
(** A check goes on after its first half passed. *)
Lemma check_ok_inv {A B} (r : verdict A) (f : A -> verdict B) b : (r ≫= f) = Ok b -> exists a, r = Ok a /\ f a = Ok b.
Proof. destruct r; [eauto|done]. Qed.

(** Two runs of a check agree unless the first is undecided. *)
Definition agree {A} (r r' : verdict A) : Prop := r <> Err Undecided -> r' = r.
Lemma agree_refl {A} (r : verdict A) : agree r r.
Proof. done. Qed.
Lemma agree_undecided {A} (r : verdict A) : agree (Err Undecided) r.
Proof. intros Hn. by destruct Hn. Qed.
Lemma agree_bind {A B} (r r' : verdict A) (f f' : A -> verdict B) :
  agree r r' -> (forall a, r = Ok a -> agree (f a) (f' a)) -> agree (r ≫= f) (r' ≫= f').
Proof.
  intros Hr Hf Hn. destruct r as [a|v].
  - rewrite (Hr ltac:(done)). exact (Hf a eq_refl Hn).
  - rewrite Hr; [done|]. intros [= ->]. by apply Hn.
Qed.
Create HintDb agree.
#[export] Hint Resolve agree_refl agree_undecided : agree.
(** Agreement of two checks that run the same steps. *)
Ltac agree_tac := repeat first [ solve [auto with agree] | apply agree_bind; [|intros ? ?] | case_match ].

(** A check never stops with [Accept]. *)
Definition no_accept {A} (r : verdict A) : Prop := r <> Err Accept.
Lemma no_accept_bind {A B} (r : verdict A) (k : A -> verdict B) :
  no_accept r -> (forall a, no_accept (k a)) -> no_accept (r ≫= k).
Proof. intros Hr Hk. destruct r as [a|v]; [apply Hk|]. intros [= ->]. by apply Hr. Qed.
Lemma no_accept_drop b reason : no_accept (drop_if b reason).
Proof. by destruct b. Qed.
Create HintDb no_accept.
#[export] Hint Resolve no_accept_drop : no_accept.
Ltac no_accept_tac :=
  repeat first [ solve [auto with no_accept | by intros ?] | apply no_accept_bind; [|intros ?] | case_match ].

Lemma check_txs_no_accept i txs : no_accept (check_txs i txs).
Proof. induction txs as [|[|ty tx] txs IH]; cbn [check_txs]; no_accept_tac. Qed.
#[export] Hint Resolve check_txs_no_accept : no_accept.

Lemma single_stable cfg head inc l1 more b :
  check_single cfg head inc l1 b <> Undecided -> check_single cfg head inc (l1 ++ more) b = check_single cfg head inc l1 b.
Proof.
  destruct l1 as [|epoch rest]; [done|]. unfold check_single. cbn [app]. destruct (is_accept _); cbn [negb]; [|done].
  enough (agree (single_rules cfg head inc epoch rest b) (single_rules cfg head inc epoch (rest ++ more) b)) as Ha.
  { intros Hv. f_equal. apply Ha. by intros Hu; rewrite Hu in Hv. }
  unfold single_rules. apply agree_bind; [agree_tac|intros _ _]. apply agree_bind; [agree_tac|intros _ _].
  apply agree_bind; [unfold single_origin; destruct rest; cbn [app]; agree_tac|intros o _].
  apply agree_bind; [agree_tac|intros _ _]. apply agree_bind; [agree_tac|intros _ _].
  apply agree_bind; [unfold single_drift; destruct rest; cbn [app]; agree_tac|agree_tac].
Qed.

Lemma find_origin_lt l1 oi n oi' b : find_origin l1 oi n = Some (oi', b) -> (oi' < length l1)%nat /\ l1 !! oi' = Some b /\ block_number b = n.
Proof.
  unfold find_origin. intros ([i a] & Hf & [= <- <-])%bind_Some. apply list_find_Some in Hf as (Hl & Hn & _).
  rewrite lookup_drop in Hl. apply lookup_lt_Some in Hl as Hlt. done.
Qed.
Lemma find_origin_app l1 more oi n :
  (oi <= length l1)%nat -> (forall b, b ∈ more -> block_number b <> n) -> find_origin (l1 ++ more) oi n = find_origin l1 oi n.
Proof.
  intros Hi Hm. unfold find_origin. rewrite drop_app_le by done.
  destruct (list_find _ (drop oi l1)) as [[i b]|] eqn:Hf.
  - erewrite list_find_app_l by exact Hf. done.
  - rewrite list_find_app_r by done.
    replace (list_find _ more) with (None : option (nat * BlockInfo)); [done|]. symmetry. apply list_find_None, Forall_forall. exact Hm.
Qed.
Lemma lookup_app_stable {A} (l more : list A) i a : l !! i = Some a -> (l ++ more) !! i = Some a.
Proof. apply lookup_app_l_Some. Qed.

Lemma elements_stable cfg head l1 more oi adv es :
  (oi <= length l1)%nat -> (forall e b, e ∈ es -> b ∈ more -> block_number b <> el_epoch_num e) ->
  agree (check_elements cfg head l1 oi adv es) (check_elements cfg head (l1 ++ more) oi adv es).
Proof.
  revert oi adv. induction es as [|e es IH]; intros oi adv Hi Hm; [done|]. cbn [check_elements].
  assert (forall oi adv, (oi <= length l1)%nat -> agree (check_elements cfg head l1 oi adv es) (check_elements cfg head (l1 ++ more) oi adv es))
    as IH' by (intros; apply IH; [done|intros ? ? ?; apply Hm; by right]).
  case_match; [by apply IH'|]. case_match; [done|].
  rewrite find_origin_app by (try done; intros b; apply Hm; by left).
  destruct (find_origin l1 oi _) as [[oi' o]|] eqn:Hf; [|done]. apply find_origin_lt in Hf as (Hlt & _).
  apply agree_bind; [done|intros _ _]. apply agree_bind; [|intros _ _; apply agree_bind; [done|intros _ _; apply IH'; lia]].
  unfold element_drift. case_match; [|done]. case_match; [|done]. case_match; [done|].
  destruct (l1 !! S oi') eqn:Hl; [|by apply agree_undecided]. by rewrite (lookup_app_stable _ more _ _ Hl).
Qed.

Lemma end_origin_stable s n l1 more : agree (check_end_origin s n l1) (check_end_origin s n (l1 ++ more)).
Proof.
  induction l1 as [|b l1 IH]; cbn [check_end_origin app]; [apply agree_undecided|]. by case_match.
Qed.
Lemma end_origin_ok s n l1 : check_end_origin s n l1 = Ok tt -> exists b, b ∈ l1 /\ block_number b = n /\ check_origin_hash s (hash b) = true.
Proof.
  induction l1 as [|b l1 IH]; cbn [check_end_origin]; [done|]. case_match eqn:Hb.
  - intros Hd%drop_if_ok. exists b. split; [by left|]. split; [lia|by destruct (check_origin_hash _ _)].
  - intros (b' & Hb' & Hrest)%IH. exists b'. split; [by right|done].
Qed.

(** The prefix rules agree, and pass only if the epoch of the end of the span is
    known. *)
Lemma prefix_rules_stable cfg inc s l1 more start end_ parent :
  agree (prefix_rules cfg inc s l1 start end_ parent) (prefix_rules cfg inc s (l1 ++ more) start end_ parent).
Proof.
  unfold prefix_rules. do 3 (apply agree_bind; [done|intros _ _]). apply agree_bind; [apply end_origin_stable|done].
Qed.
Lemma prefix_time_stable cfg head inc l1 more epoch start st fin :
  agree (prefix_time cfg head inc l1 epoch start st fin) (prefix_time cfg head inc (l1 ++ more) epoch start st fin).
Proof.
  unfold prefix_time. apply agree_bind; [|done]. case_match; [|done].
  destruct l1 as [|a [|b l1]]; cbn [app]; [apply agree_undecided..|done].
Qed.

(** The same for checks that run on the state of a provider; [u] is the undecided
    result. *)
Definition run_agree {F E A} (u : A) (x y : result E A * F) : Prop := x.1 <> Ok u -> y = x.
Lemma run_agree_bind {F E A B} (u : B) (m : stm F E A) (f g : A -> stm F E B) s :
  (forall a s', m s = (Ok a, s') -> run_agree u (f a s') (g a s')) -> run_agree u ((m ≫= f) s) ((m ≫= g) s).
Proof. intros Hf. unfold mbind, stm_bind. destruct (m s) as [[a|e] s'] eqn:Hm; [by apply Hf|done]. Qed.
Lemma run_agree_ret {F E A} (r r' : verdict A) (s : F) :
  agree r r' -> run_agree (E := E) (Err Undecided) (Ok r, s) (Ok r', s).
Proof. intros Ha Hn. rewrite Ha; [done|]. intros ->. by apply Hn. Qed.

(** The start of a span that is not empty. *)
Lemma span_start {E} s e0 es : batches s = e0 :: es ->
  starting_epoch_num (E := E) s = Ok (el_epoch_num e0) /\ starting_timestamp (E := E) s = Ok (el_timestamp e0).
Proof. intros Hb. unfold starting_epoch_num, starting_timestamp. by rewrite Hb. Qed.
Lemma span_final {E} s en : last (batches s) = Some en -> final_timestamp (E := E) s = Ok (el_timestamp en).
Proof.
  intros Hl. unfold final_timestamp. rewrite last_lookup in Hl. apply lookup_lt_Some in Hl as Hlt.
  replace (zlen (batches s) - 1) with (Z.of_nat (pred (length (batches s)))) by (unfold zlen; lia).
  by erewrite byte_at_lookup.
Qed.

Section span_facts.
Context {F E : Type} `{BatchValidationProvider F}.
Variables (cfg : RollupConfig) (head : L2BlockInfo) (inc : BlockInfo).

Lemma prefix_stable s l1 more f :
  run_agree (Err Undecided) (check_batch_prefix (E := E) cfg head inc s l1 f) (check_batch_prefix cfg head inc s (l1 ++ more) f).
Proof.
  destruct l1 as [|epoch rest]; [by intros []|]. unfold check_batch_prefix. cbn [app].
  destruct (last (batches s)); [|done]. rewrite !app_comm_cons.
  do 3 (apply run_agree_bind; intros ? ? _).
  pose proof (prefix_time_stable cfg head inc (epoch :: rest) more epoch a a0 a1) as Ht.
  destruct (prefix_time _ _ _ (epoch :: rest) _ _ _ _) as [[]|v].
  2: { destruct (decide (v = Undecided)) as [->|Hv]; [by intros []|]. rewrite Ht by congruence. done. }
  rewrite Ht by done. apply run_agree_bind. intros o s1 _.
  assert (forall p, agree
    (_ ← prefix_rules cfg inc s (epoch :: rest) a (el_epoch_num s0) p; Ok p)
    (_ ← prefix_rules cfg inc s ((epoch :: rest) ++ more) a (el_epoch_num s0) p; Ok p)) as Hp.
  { intros p. apply agree_bind; [apply prefix_rules_stable|done]. }
  destruct o as [[n|]|v]; [| |done].
  - destruct (l2_block_info_by_number n s1) as [[b|] s2]; [|done]. apply run_agree_ret, Hp.
  - apply run_agree_ret, Hp.
Qed.

Lemma prefix_rules_ok s l1 start end_ parent :
  prefix_rules cfg inc s l1 start end_ parent = Ok tt ->
  check_parent_hash s (hash (block_info parent)) = true /\
  block_number inc <= add64 start (seq_window_size cfg) /\
  num (l1_origin parent) <= start <= add64 (num (l1_origin parent)) 1 /\
  exists b, b ∈ l1 /\ block_number b = end_ /\ check_origin_hash s (hash b) = true.
Proof.
  unfold prefix_rules. intros ([] & Hp%drop_if_ok & ([] & Hl%drop_if_ok & ([] & Hf%drop_if_ok & ([] & He%end_origin_ok & Ho%drop_if_ok)
    %check_ok_inv)%check_ok_inv)%check_ok_inv)%check_ok_inv.
  rewrite Z.gtb_ltb in Hf. split; [by destruct (check_parent_hash _ _)|]. split; [lia|]. split; [lia|done].
Qed.
Lemma prefix_time_ok l1 epoch start st fin :
  prefix_time cfg head inc l1 epoch start st fin = Ok tt -> st <= next_time cfg head <= fin.
Proof.
  unfold prefix_time. intros (o & _ & ([] & _ & ([] & Hst & Hfin)%check_ok_inv)%check_ok_inv)%check_ok_inv.
  rewrite Z.gtb_ltb in Hst. destruct (_ <? st) eqn:?; [done|]. destruct (fin <? _) eqn:?; [done|]. lia.
Qed.

(** What a span that passes the prefix check has: a new block, an end known on L1,
    and a parent it builds on, which is the safe head if nothing overlaps. *)
Record prefix_spec (s : SpanBatch) (l1 : list BlockInfo) (parent : L2BlockInfo) : Prop := {
  ps_new en : last (batches s) = Some en -> next_time cfg head <= el_timestamp en;
  ps_end en : last (batches s) = Some en ->
    exists b, b ∈ l1 /\ block_number b = el_epoch_num en /\ check_origin_hash s (hash b) = true;
  ps_parent : check_parent_hash s (hash (block_info parent)) = true;
  ps_head e0 es : batches s = e0 :: es -> el_timestamp e0 = next_time cfg head -> parent = head;
  ps_origin e0 es : batches s = e0 :: es -> num (l1_origin parent) <= el_epoch_num e0 <= add64 (num (l1_origin parent)) 1;
  ps_window e0 es : batches s = e0 :: es -> block_number inc <= add64 (el_epoch_num e0) (seq_window_size cfg);
}.

Lemma prefix_ok s l1 f parent f' :
  check_batch_prefix (E := E) cfg head inc s l1 f = (Ok (Ok parent), f') -> batches s <> [] /\ prefix_spec s l1 parent.
Proof.
  unfold check_batch_prefix. destruct l1 as [|epoch rest]; [done|]. destruct (last (batches s)) as [en|] eqn:Hlast; [|done].
  destruct (batches s) as [|e0 es] eqn:Hb; [done|]. destruct (span_start (E := E) s e0 es Hb) as [Hs Ht].
  rewrite Hs, Ht, (span_final s en) by congruence. do 3 (erewrite bind_run by reflexivity).
  destruct (prefix_time _ _ _ _ _ _ _ _) as [[]|] eqn:Htime; [|done]. apply prefix_time_ok in Htime. intros Hr.
  assert ((el_timestamp e0 = next_time cfg head -> parent = head) /\
    prefix_rules cfg inc s (epoch :: rest) (el_epoch_num e0) (el_epoch_num en) parent = Ok tt) as [Hh Hrules].
  { apply bind_ok_inv in Hr as (o & f1 & Ho & Hr). injection Ho as Ho _. destruct o as [[n|]|v]; [| |done].
    - destruct (l2_block_info_by_number n f1) as [[b|] f2]; [|done].
      injection Hr as ([] & Hr & [= ->])%check_ok_inv <-. split; [|done]. intros Heq. unfold overlap_parent in Ho.
      by rewrite Heq, Z.ltb_irrefl in Ho.
    - injection Hr as ([] & Hr & [= ->])%check_ok_inv <-. done. }
  apply prefix_rules_ok in Hrules as (Hp & Hw & Ho & He). split; [done|].
  constructor; try done; rewrite ?Hb, ?Hlast; intros; simplify_eq; by auto with lia.
Qed.

Lemma check_span_ok s l1 f v f' :
  check_span (E := E) cfg head inc s l1 f = (Ok v, f') ->
  (exists parent f1, check_batch_prefix (E := E) cfg head inc s l1 f = (Ok (Ok parent), f1)) \/
  check_batch_prefix (E := E) cfg head inc s l1 f = (Ok (Err v), f').
Proof.
  unfold check_span. intros (p & f1 & Hp & Hr)%bind_ok_inv. destruct p as [parent|v']; [left; eauto|].
  right. by injection Hr as <- <-.
Qed.

(** The epochs of a decoded span never go back, and L1 blocks come in order. *)
Definition epochs_sorted (s : SpanBatch) : Prop := StronglySorted Z.le (el_epoch_num <$> batches s).
Definition l1_sorted (l1 : list BlockInfo) : Prop := StronglySorted (fun a b => block_number a < block_number b) l1.

Lemma epoch_le_last s e en : epochs_sorted s -> e ∈ batches s -> last (batches s) = Some en -> el_epoch_num e <= el_epoch_num en.
Proof.
  unfold epochs_sorted. intros Hs He (l & Hl)%last_Some. rewrite Hl in *. rewrite fmap_app in Hs.
  apply elem_of_app in He as [He|He]; [|apply list_elem_of_singleton in He as ->; lia].
  eapply (StronglySorted_app_1_elem_of _ _ _ _ _ Hs); [by apply list_elem_of_fmap_2|by left].
Qed.

Lemma span_stable s l1 more f :
  l1_sorted (l1 ++ more) -> epochs_sorted s ->
  run_agree Undecided (check_span (E := E) cfg head inc s l1 f) (check_span cfg head inc s (l1 ++ more) f).
Proof.
  intros Hl Hs. pose proof (prefix_stable s l1 more f) as Ha. unfold check_span.
  destruct (check_batch_prefix _ _ _ s l1 f) as [[[parent|v]|e] f1] eqn:Hp.
  2: { erewrite bind_run by exact Hp. destruct (decide (v = Undecided)) as [->|Hv]; [by intros []|].
       erewrite bind_run by (apply Ha; cbn; congruence). done. }
  2: { erewrite !bind_run_err by first [exact Hp|by apply Ha]. done. }
  erewrite !bind_run by first [exact Hp|by apply Ha].
  do 2 (apply run_agree_bind; intros ? ? _). apply prefix_ok in Hp as [Hne Hspec].
  destruct (last (batches s)) as [en|] eqn:Hen; [|by apply last_None in Hen].
  destruct (ps_end _ _ _ Hspec en Hen) as (b0 & Hb0 & Hn0 & _).
  pose proof (elements_stable cfg head l1 more 0 (a =? add64 (num (l1_origin parent)) 1) (batches s) ltac:(lia)) as Hel.
  assert (forall e b, e ∈ batches s -> b ∈ more -> block_number b <> el_epoch_num e) as Hd.
  { intros e b He Hb. pose proof (epoch_le_last s e en Hs He Hen).
    pose proof (StronglySorted_app_1_elem_of _ _ _ _ _ Hl Hb0 Hb) as Hlt. cbn in Hlt. lia. }
  specialize (Hel Hd). destruct (check_elements _ _ l1 _ _ _) as [[]|v]; [by rewrite Hel|].
  destruct (decide (v = Undecided)) as [->|Hv]; [by intros []|]. rewrite Hel by congruence. done.
Qed.

Lemma elements_no_accept l1 oi adv es : no_accept (check_elements cfg head l1 oi adv es).
Proof.
  revert oi adv. induction es as [|e es IH]; intros oi adv; cbn [check_elements]; [by intros ?|].
  unfold element_drift. no_accept_tac.
Qed.
Lemma end_origin_no_accept s n l1 : no_accept (check_end_origin s n l1).
Proof. induction l1; cbn [check_end_origin]; no_accept_tac. Qed.
Lemma prefix_no_accept s l1 f f' : check_batch_prefix (E := E) cfg head inc s l1 f <> (Ok (Err Accept), f').
Proof.
  unfold check_batch_prefix. destruct l1 as [|epoch rest]; [done|]. destruct (last (batches s)); [|done].
  intros (a & f1 & _ & (a0 & f2 & _ & (a1 & f3 & _ & Hr)%bind_ok_inv)%bind_ok_inv)%bind_ok_inv.
  destruct (prefix_time _ _ _ _ _ _ _ _) as [[]|v] eqn:Ht.
  2: { injection Hr as -> <-. revert Ht. unfold prefix_time.
       match goal with |- ?r = _ -> _ => enough (no_accept r) as Hn by done end. no_accept_tac. }
  apply bind_ok_inv in Hr as (o & f4 & Ho & Hr). injection Ho as Ho _.
  assert (forall p, no_accept (_ ← prefix_rules cfg inc s (epoch :: rest) a (el_epoch_num s0) p; Ok p)) as Hp.
  { intros p. pose proof end_origin_no_accept. unfold prefix_rules. no_accept_tac. }
  destruct o as [[n|]|v].
  - destruct (l2_block_info_by_number n f4) as [[b|] f5]; [|done]. injection Hr as Hr <-. by apply (Hp b).
  - injection Hr as Hr <-. by apply (Hp head).
  - injection Hr as -> <-. revert Ho. unfold overlap_parent. repeat case_match; done.
Qed.

(** What one single batch of an accepted span is known to satisfy. *)
Definition single_sound (l1 : list BlockInfo) (b : SingleBatch) : Prop :=
  timestamp (block_info head) < sb_timestamp b /\
  (exists o, o ∈ l1 /\ mkBlockNumHash (block_number o) (hash o) = batch_epoch b /\ timestamp o <= sb_timestamp b) /\
  num (l1_origin head) <= epoch_num b /\
  check_txs (is_isthmus_active cfg (sb_timestamp b)) (transactions b) = Ok tt.
(** [From<SingleBatch> for SpanBatchElement] *)
Definition element_of (b : SingleBatch) : SpanBatchElement := mkSpanBatchElement (epoch_num b) (sb_timestamp b) (transactions b).
(** The elements of a span after the safe head. *)
Definition new_elements (es : list SpanBatchElement) : list SpanBatchElement :=
  filter (fun e => timestamp (block_info head) < el_timestamp e) es.

Lemma singulars_ok l1 oi adv es :
  check_elements cfg head l1 oi adv es = Ok tt ->
  exists bs, singulars l1 head oi es = Ok bs /\ element_of <$> bs = new_elements es /\ Forall (single_sound l1) bs.
Proof.
  revert oi adv. induction es as [|e es IH]; intros oi adv; [by exists []|]. cbn [check_elements singulars].
  unfold new_elements in *. rewrite filter_cons. case_match eqn:Ht.
  { intros (bs & Hr)%IH. exists bs. by rewrite decide_False by lia. }
  rewrite decide_True by lia. case_match eqn:Hep; [done|].
  destruct (find_origin l1 oi _) as [[oi' o]|] eqn:Hf; [|done]. apply find_origin_lt in Hf as (_ & Ho & Hn).
  intros ([] & Hto%drop_if_ok & ([] & _ & ([] & Htx & (bs & -> & <- & Hall)%IH)%check_ok_inv)%check_ok_inv)%check_ok_inv.
  eexists (_ :: bs). split; [reflexivity|]. split; [by destruct e|]. constructor; [|done].
  split; [cbn; lia|]. split; [exists o; split; [by apply list_elem_of_lookup_2 in Ho|]|split; [cbn; lia|done]].
  split; [unfold batch_epoch; cbn; congruence|cbn; lia].
Qed.
End span_facts.

(** What an accepted single batch satisfies: it builds on the safe head at the next
    time, its origin is one of the first two L1 blocks, and it was included in time. *)
Record extends (cfg : RollupConfig) (head : L2BlockInfo) (l1 : list BlockInfo) (b : SingleBatch) : Prop := {
  ext_parent : sb_parent_hash b = hash (block_info head);
  ext_time : sb_timestamp b = next_time cfg head;
  ext_origin : exists (i : nat) epoch o, (i < 2)%nat /\ l1 !! O = Some epoch /\ l1 !! i = Some o /\
    epoch_num b = (if i is O then block_number epoch else add64 (block_number epoch) 1) /\
    epoch_hash b = hash o /\ timestamp o <= sb_timestamp b;
  ext_txs : check_txs (is_isthmus_active cfg (sb_timestamp b)) (transactions b) = Ok tt;
}.

Lemma single_accepted cfg head inc l1 b : check_single cfg head inc l1 b = Accept -> extends cfg head l1 b.
Proof.
  destruct l1 as [|epoch rest]; [done|]. unfold check_single. destruct (check_batch_timestamp _ _ _ b) eqn:Ht; try done.
  cbn [is_accept negb]. destruct (single_rules _ _ _ _ _ b) as [[]|v] eqn:Hr; cbn [verdict_of].
  2: { intros ->. exfalso. revert Hr. enough (no_accept (single_rules cfg head inc epoch rest b)) by done.
       unfold single_rules, single_origin, single_drift. no_accept_tac. }
  intros _. revert Hr. unfold single_rules.
  intros ([] & Hp%drop_if_ok & ([] & _ & (o & Ho & ([] & Hh%drop_if_ok & ([] & Hts%drop_if_ok & ([] & _ & ([] & _ & Htx)
    %check_ok_inv)%check_ok_inv)%check_ok_inv)%check_ok_inv)%check_ok_inv)%check_ok_inv)%check_ok_inv.
  constructor; [lia| | |done].
  - revert Ht. unfold check_batch_timestamp. rewrite Z.gtb_ltb. repeat case_match; try done. lia.
  - revert Ho. unfold single_origin. case_match; [done|]. case_match eqn:He; [intros [= <-]; exists O, epoch, epoch; split_and!; try done; lia|].
    case_match eqn:Hn; [|done]. destruct rest as [|next rest]; [done|]. intros [= <-]. exists 1%nat, epoch, next.
    split_and!; try done; lia.
Qed.

(** Whether the epochs of a batch come in order, as decoding makes them. *)
Definition batch_sorted (b : Batch) : Prop := match b with Single _ => True | Span s => epochs_sorted s end.

(** A verdict other than [Undecided] on a batch does not change when more L1
    blocks become known: for a single batch and for a span batch with any
    overlap, whatever the safe block provider answers. So checking a batch
    eagerly, before the whole sequencing window is there, decides the same as
    checking it later. *)
Theorem verdict_stable {F E} `{BatchValidationProvider F} cfg l1 more head b (f f' : F) v :
  l1_sorted (l1 ++ more) -> batch_sorted (batch b) -> v <> Undecided ->
  check_batch (E := E) cfg l1 head b f = (Ok v, f') ->
  check_batch (E := E) cfg (l1 ++ more) head b f = (Ok v, f').
Proof.
  intros Hl Hs Hv. unfold check_batch. destruct (batch b) as [sb|s].
  - intros [= Hr <-]. by rewrite <- Hr, single_stable in * by congruence.
  - intros Hr. rewrite <- Hr. apply span_stable; [done..|]. rewrite Hr. cbn. congruence.
Qed.

(** C28: A span batch that is accepted can be turned into single batches: the
    conversion succeeds on the same L1 blocks, gives exactly the blocks of the
    span after the safe head, at least one, and each of them names a known L1
    origin by number and hash, is not earlier than it, does not go back behind
    the origin of the safe head, and has no deposit or empty transaction. *)
Theorem accepted_span_derives {F E} `{BatchValidationProvider F} cfg l1 head inc s (f f' : F) :
  timestamp (block_info head) < next_time cfg head ->
  check_span (E := E) cfg head inc s l1 f = (Ok Accept, f') ->
  exists bs, get_singular_batches s l1 head = Ok bs /\ bs <> [] /\
    element_of <$> bs = new_elements head (batches s) /\ Forall (single_sound cfg head l1) bs.
Proof.
  intros Hnext. unfold check_span. intros (p & f1 & Hp & Hr)%bind_ok_inv.
  destruct p as [parent|v]; [|injection Hr as -> <-; by apply prefix_no_accept in Hp].
  apply prefix_ok in Hp as [Hne Hspec]. apply bind_ok_inv in Hr as (a & f2 & _ & (a0 & f3 & _ & Hr)%bind_ok_inv).
  destruct (check_elements _ _ _ _ _ _) as [[]|v] eqn:He; [|injection Hr as -> <-; by apply elements_no_accept in He].
  apply singulars_ok in He as (bs & Hbs & Hnew & Hall). exists bs. split_and!; [done| |done..].
  destruct (last (batches s)) as [en|] eqn:Hen; [|by apply last_None in Hen].
  pose proof (ps_new _ _ _ _ _ _ Hspec en Hen) as Hlast. intros ->. symmetry in Hnew.
  apply (f_equal (elem_of en)) in Hnew. assert (en ∈ new_elements head (batches s)) as Hin.
  { apply list_elem_of_filter. split; [lia|]. apply last_Some_elem_of in Hen. done. }
  rewrite Hnew in Hin. by apply not_elem_of_nil in Hin.
Qed.

Module BatchesExample.
#[local] Instance no_blocks : BatchValidationProvider unit := {|
  l2_block_info_by_number _ := throw (Critical Provider); block_by_number _ := throw (Critical Provider) |}.
Definition cfg : RollupConfig := RollupExample.all_forks.
Definition head : L2BlockInfo := mkL2BlockInfo (mkBlockInfo 2000 7 1999 100) (mkBlockNumHash 50 5000) 0.
Definition l1_a : BlockInfo := mkBlockInfo 5000 50 4999 90.
Definition l1_b : BlockInfo := mkBlockInfo 5100 51 5000 102.
Definition element : SpanBatchElement := mkSpanBatchElement 50 102 [[2; 7]].
Definition span : SpanBatch := mkSpanBatch 0 0 [element; mkSpanBatchElement 51 104 []].
Definition included : BatchWithInclusionBlock := mkBatchWithInclusionBlock (mkBlockInfo 5200 52 5100 114) (Span span).

Lemma verdict_stable_witness :
  check_batch (E := unit) cfg ([l1_a; l1_b] ++ [inclusion_block included]) head included tt = (Ok Accept, tt).
Proof.
  apply (verdict_stable cfg [l1_a; l1_b] [inclusion_block included] head included tt tt Accept); [| |done|by vm_compute].
  - repeat constructor.
  - repeat constructor; by intros ?.
Defined.

Lemma accepted_span_derives_witness :
  exists bs, get_singular_batches span [l1_a; l1_b] head = Ok bs /\ bs <> [].
Proof.
  destruct (accepted_span_derives (E := unit) cfg [l1_a; l1_b] head (inclusion_block included) span tt tt) as (bs & Hbs & Hne & _);
    [done|by vm_compute|by exists bs].
Defined.
End BatchesExample.
