(* ===== verification/SpanBatches.v ===== *)
(** The codec of span batches ([src/crates/consensus/protocol/src/batch/]: [prefix.rs],
    [payload.rs], [raw.rs], the appending and encoding operations of [span.rs], and
    the codec of [core.rs]). *)

From S2P Require Import Prelude Codec Buffer Rollup SystemConfig Channel Pipeline L1Info SpanBits Batches SpanTxs.
Import Alloy.

(** * Prefix *)

Record SpanBatchPrefix : Type := mkSpanBatchPrefix {
  rel_timestamp : Z;
  l1_origin_num : Z;
  prefix_parent_check : Z;
  prefix_l1_origin_check : Z;
}.

Record SpanBatchPayload : Type := mkSpanBatchPayload {
  block_count : Z;
  origin_bits : list Z;
  block_tx_counts : list Z;
  txs : SpanBatchTransactions;
}.

Record RawSpanBatch : Type := mkRawSpanBatch { prefix : SpanBatchPrefix; payload : SpanBatchPayload }.

Section raw.
Context `{SpanTxCodecs}.

(** [decode_parent_check] and [decode_l1_origin_check] *)
Definition read_check (e : SpanDecodingError) : rd Z := bs ← read_bytes 20 e; mret (be_val bs).

(** [SpanBatchPrefix::decode_prefix] *)
Definition decode_prefix : rd SpanBatchPrefix :=
  rel_timestamp ← read_uvarint RelativeTimestamp;
  l1_origin_num ← read_uvarint L1OriginNumber;
  parent_check ← read_check ParentCheck;
  l1_origin_check ← read_check L1OriginCheck;
  mret (mkSpanBatchPrefix rel_timestamp l1_origin_num parent_check l1_origin_check).

(** [SpanBatchPrefix::encode_prefix] *)
Definition encode_prefix (p : SpanBatchPrefix) : list Z :=
  enc uvarint (rel_timestamp p) ++ enc uvarint (l1_origin_num p) ++ be_bytes 20 (prefix_parent_check p) ++
  be_bytes 20 (prefix_l1_origin_check p).

(** * Payload *)

(** [decode_block_count] *)
Definition decode_block_count : rd Z := fun r =>
  match dec uvarint r with
  | None => (Err (Fail (Decoding BlockCount)), r)
  | Some (block_count, remaining) =>
      if block_count >? MAX_SPAN_BATCH_ELEMENTS then (Err (Fail TooBigSpanBatchSize), r)
      else if block_count =? 0 then (Err (Fail EmptySpanBatch), r)
      else (Ok block_count, remaining)
  end.

(** [decode_origin_bits] *)
Definition decode_origin_bits (block_count : Z) : rd (list Z) :=
  if block_count >? MAX_SPAN_BATCH_ELEMENTS then throw_fail TooBigSpanBatchSize else bits_decode block_count.

(** The body of the loop of [decode_block_tx_counts]. *)
Definition read_block_tx_count : rd Z := fun r =>
  match dec uvarint r with
  | None => (Err (Fail (Decoding BlockTxCounts)), r)
  | Some (block_tx_count, remaining) =>
      if block_tx_count >? MAX_SPAN_BATCH_ELEMENTS then (Err (Fail TooBigSpanBatchSize), r)
      else (Ok block_tx_count, remaining)
  end.

(** [decode_block_tx_counts] *)
Definition decode_block_tx_counts (block_count : Z) : rd (list Z) :=
  read_n 0 (Z.to_nat block_count) (fun _ => read_block_tx_count).

(** The checked sum of [decode_txs]. *)
Fixpoint sum_tx_counts (acc : Z) (counts : list Z) : option Z :=
  match counts with
  | [] => Some acc
  | c :: counts => acc ← checked_add U64_MAX acc c; sum_tx_counts acc counts
  end.

(** [decode_txs] *)
Definition decode_txs (counts : list Z) : rd SpanBatchTransactions :=
  match counts with
  | [] => throw_fail EmptySpanBatch
  | _ :: _ =>
      match sum_tx_counts 0 counts with
      | None => throw_fail TooBigSpanBatchSize
      | Some total =>
          if total >? MAX_SPAN_BATCH_ELEMENTS then throw_fail TooBigSpanBatchSize
          else txs_decode (set_total total default_txs)
      end
  end.

(** [SpanBatchPayload::decode_payload] *)
Definition decode_payload : rd SpanBatchPayload :=
  block_count ← decode_block_count;
  origin_bits ← decode_origin_bits block_count;
  block_tx_counts ← decode_block_tx_counts block_count;
  txs ← decode_txs block_tx_counts;
  mret (mkSpanBatchPayload block_count origin_bits block_tx_counts txs).

Definition encode_block_count (p : SpanBatchPayload) : list Z := enc uvarint (block_count p).
Definition encode_origin_bits (p : SpanBatchPayload) : result (fault SpanBatchError) (list Z) :=
  bits_encode (block_count p) (origin_bits p).
Definition encode_block_tx_counts (p : SpanBatchPayload) : list Z := concat (enc uvarint <$> block_tx_counts p).

(** [SpanBatchPayload::encode_payload] *)
Definition encode_payload (p : SpanBatchPayload) : result (fault SpanBatchError) (list Z) :=
  bits ← encode_origin_bits p;
  encoded_txs ← txs_encode (txs p);
  mret (encode_block_count p ++ bits ++ encode_block_tx_counts p ++ encoded_txs).

(** * Raw span batches *)

(** [RawSpanBatch::encode] and [RawSpanBatch::decode] *)
Definition raw_encode (b : RawSpanBatch) : result (fault SpanBatchError) (list Z) :=
  encoded ← encode_payload (payload b); mret (encode_prefix (prefix b) ++ encoded).
Definition raw_decode : rd RawSpanBatch :=
  prefix ← decode_prefix; payload ← decode_payload; mret (mkRawSpanBatch prefix payload).

(** The loop of [derive] over the origin bits, from block [i - 1] down to block 0; the
    numbers of the later blocks are in [nums]. *)
Fixpoint origin_nums (bits : list Z) (i : nat) (l1_origin_number : Z) (nums : list Z) :
    result (fault SpanBatchError) (list Z) :=
  match i with
  | O => Ok nums
  | S i =>
      bit ← (match get_bit bits (Z.of_nat i) with
             | Some b => Ok b
             | None => Err (Fail (Decoding L1OriginCheck))
             end : result (fault SpanBatchError) Z);
      let next := if (bit =? 1) && (0 <? Z.of_nat i) then sub64 l1_origin_number 1 else l1_origin_number in
      origin_nums bits i next (l1_origin_number :: nums)
  end.

(** The loop of [derive] that builds the elements, from block [i] on. *)
Fixpoint derive_elements (first_time block_time : Z) (nums counts : list Z) (envs : list (list Z)) (i tx_idx : Z)
    (n : nat) : result (fault SpanBatchError) (list SpanBatchElement) :=
  match n with
  | O => Ok []
  | S n =>
      count ← byte_at counts i;
      transactions ← slice envs tx_idx (tx_idx + count);
      epoch_num ← byte_at nums i;
      rest ← derive_elements first_time block_time nums counts envs (i + 1) (tx_idx + count) n;
      Ok (mkSpanBatchElement epoch_num (add64 first_time (wrap U64_MAX (block_time * i))) transactions :: rest)
  end.

(** [RawSpanBatch::derive] *)
Definition derive (b : RawSpanBatch) (block_time genesis_time chain_id : Z) :
    result (fault SpanBatchError) SpanBatch :=
  if block_count (payload b) =? 0 then Err (Fail EmptySpanBatch)
  else
    let n := Z.to_nat (block_count (payload b)) in
    block_origin_nums ← origin_nums (origin_bits (payload b)) n (l1_origin_num (prefix b)) [];
    enveloped_txs ← full_txs (txs (payload b)) chain_id;
    elements ← derive_elements (add64 genesis_time (rel_timestamp (prefix b))) block_time block_origin_nums
                 (block_tx_counts (payload b)) enveloped_txs 0 0 n;
    Ok (mkSpanBatch (prefix_parent_check (prefix b)) (prefix_l1_origin_check (prefix b)) elements).
End raw.

(** * Building a span batch *)

(** [SpanBatch] with the fields only the encoder uses. *)
Record SpanBatchCache : Type := mkSpanBatchCache {
  span : SpanBatch;
  genesis_timestamp : Z;
  span_chain_id : Z;
  span_origin_bits : list Z;
  span_block_tx_counts : list Z;
  span_txs : SpanBatchTransactions;
}.
Definition new_span (genesis_timestamp chain_id : Z) : SpanBatchCache :=
  mkSpanBatchCache (mkSpanBatch 0 0 []) genesis_timestamp chain_id [] [] default_txs.

(** [SpanBatch::peek]: the [n]th element from the end. *)
Definition peek_element (es : list SpanBatchElement) (n : Z) : result (fault SpanBatchError) SpanBatchElement :=
  byte_at es (zlen es - 1 - n).

Section encoder.
Context `{SpanTxCodecs}.

(** [append_singular_batch]: everything up to [add_txs], which runs on the
    transaction cache. An element older than the last one is a panic. *)
Definition append_singular_batch (b : SingleBatch) (seq_num : Z) : stm SpanBatchCache (fault SpanBatchError) unit :=
  s ← gets id;
  let es := batches (span s) in
  (match es with
   | [] => mret tt
   | _ :: _ => last ← lift (peek_element es 0); guard_err (el_timestamp last >? sb_timestamp b) Panic
   end) ;;
  let es' := es ++ [element_of b] in
  '(parent, epoch_bit) ←
    (if zlen es' =? 1 then mret (first_20 (sb_parent_hash b), seq_num =? 0)
     else previous ← lift (peek_element es' 1); current ← lift (peek_element es' 0);
          mret (parent_check (span s), el_epoch_num previous <? el_epoch_num current));
  new ← lift (peek_element es' 0);
  modify (fun s =>
    mkSpanBatchCache (mkSpanBatch parent (first_20 (epoch_hash b)) es') (genesis_timestamp s) (span_chain_id s)
      (set_bit (span_origin_bits s) (zlen es' - 1) epoch_bit)
      (span_block_tx_counts s ++ [zlen (el_transactions new)]) (span_txs s)) ;;
  zoom span_txs (fun t s => mkSpanBatchCache (span s) (genesis_timestamp s) (span_chain_id s) (span_origin_bits s)
                              (span_block_tx_counts s) t)
    (add_txs (el_transactions new) (span_chain_id s)).

(** [SpanBatch::to_raw_span_batch] *)
Definition to_raw_span_batch (s : SpanBatchCache) : result (fault SpanBatchError) RawSpanBatch :=
  match head (batches (span s)), last (batches (span s)) with
  | Some span_start, Some span_end =>
      Ok (mkRawSpanBatch
            (mkSpanBatchPrefix (sub64 (el_timestamp span_start) (genesis_timestamp s)) (el_epoch_num span_end)
               (parent_check (span s)) (l1_origin_check (span s)))
            (mkSpanBatchPayload (zlen (batches (span s))) (span_origin_bits s) (span_block_tx_counts s) (span_txs s)))
  | _, _ => Err (Fail EmptySpanBatch)
  end.
End encoder.

(** * Batches *)

(** [RlpEncodable] and [RlpDecodable] of [SingleBatch]. *)
Class SingleCodec := { single_codec : codec SingleBatch }.

Inductive BatchDecodingError : Type :=
| EmptyBuffer
| AlloyRlpError
| InvalidBatchType (ty : Z)
| SpanBatchErr (e : SpanBatchError).

Definition SINGLE : Z := 0.
Definition SPAN : Z := 1.

Section codec.
Context `{SpanTxCodecs} `{SingleCodec}.

(** [Batch::decode]; what is left of the buffer is not looked at. *)
Definition batch_decode (cfg : RollupConfig) (r : list Z) : result (fault BatchDecodingError) Batch :=
  match r with
  | [] => Err (Fail EmptyBuffer)
  | ty :: r =>
      if ty =? SINGLE then
        match dec single_codec r with
        | Some (b, _) => Ok (Single b)
        | None => Err (Fail AlloyRlpError)
        end
      else if ty =? SPAN then
        b ← map_fail SpanBatchErr
              (raw ← (raw_decode r).1; derive raw (block_time cfg) (l2_time (genesis cfg)) (l2_chain_id cfg));
        Ok (Span b)
      else Err (Fail (InvalidBatchType ty))
  end.

(** [Batch::encode] of a span batch and of a single batch. *)
Definition span_encode (s : SpanBatchCache) : result (fault SpanBatchError) (list Z) :=
  raw ← to_raw_span_batch s; encoded ← raw_encode raw; Ok (SPAN :: encoded).
Definition single_encode (b : SingleBatch) : list Z := SINGLE :: enc single_codec b.
End codec.

(** * What a decoded span batch holds *)

Section decode_laws.
Context `{SpanTxCodecs} `{!SpanTxLaws}.

Definition prefix_ok (p : SpanBatchPrefix) : Prop :=
  fits U64_MAX (rel_timestamp p) /\ fits U64_MAX (l1_origin_num p) /\
  fits (2 ^ 160 - 1) (prefix_parent_check p) /\ fits (2 ^ 160 - 1) (prefix_l1_origin_check p).

Lemma read_check_app e c rest : fits (2 ^ 160 - 1) c -> read_check e (be_bytes 20 c ++ rest) = (Ok c, rest).
Proof.
  intros Hc. unfold read_check. rewrite (bind_run _ _ _ _ _ (read_bytes_app 20 e _ rest (length_be_bytes 20 c))).
  unfold mret, stm_ret. by rewrite (be_val_fits 20 (2 ^ 160 - 1)).
Qed.

Lemma prefix_roundtrip p rest : prefix_ok p -> decode_prefix (encode_prefix p ++ rest) = (Ok p, rest).
Proof.
  intros (H1 & H2 & H3 & H4). unfold decode_prefix, encode_prefix. rewrite <- !app_assoc.
  erewrite bind_run by by apply read_uvarint_app. erewrite bind_run by by apply read_uvarint_app.
  erewrite bind_run by by apply read_check_app. erewrite bind_run by by apply read_check_app.
  by destruct p.
Qed.

Lemma zsum_cons x l : zsum (x :: l) = x + zsum l.
Proof. done. Qed.
Lemma zsum_nonneg l : Forall (fun c => 0 <= c) l -> 0 <= zsum l.
Proof. unfold zsum. induction 1; cbn; lia. Qed.

Lemma sum_tx_counts_zsum acc counts : Forall (fun c => 0 <= c) counts -> acc + zsum counts <= U64_MAX ->
  sum_tx_counts acc counts = Some (acc + zsum counts).
Proof.
  intros Hc. revert acc. induction Hc as [|c counts Hc Hcs IH]; intros acc Hb; [cbn; f_equal; lia|].
  pose proof (zsum_nonneg _ Hcs). rewrite zsum_cons in *.
  cbn [sum_tx_counts]. unfold checked_add. rewrite (proj2 (Z.leb_le _ _)) by lia. cbn. rewrite IH by lia. f_equal. lia.
Qed.

(** A payload whose columns are those of [its]. *)
Record payload_ok (p : SpanBatchPayload) (obs : list bool) (its : list item) : Prop := mkPayloadOk {
  pay_count : block_count p = zlen obs;
  pay_bits : bits_are (origin_bits p) obs;
  pay_counts : zlen (block_tx_counts p) = zlen obs;
  pay_counts_ok : Forall (fun c => 0 <= c) (block_tx_counts p);
  pay_total : zsum (block_tx_counts p) = zlen its;
  pay_txs : columns (txs p) its;
  pay_txs_total : total_block_tx_count (txs p) = zlen its;
  pay_items : Forall item_ok its;
  pay_bounds : 1 <= zlen obs <= MAX_SPAN_BATCH_ELEMENTS /\ zlen its <= MAX_SPAN_BATCH_ELEMENTS;
}.

Lemma count_le_sum l c : Forall (fun c => 0 <= c) l -> c ∈ l -> c <= zsum l.
Proof.
  intros Hl. unfold zsum. induction Hl as [|x l Hx Hl IH]; [by intros ?%not_elem_of_nil|].
  intros [->|Hin]%elem_of_cons; cbn; pose proof (zsum_nonneg _ Hl); unfold zsum in *; [lia|]. specialize (IH Hin). lia.
Qed.

Lemma read_block_tx_count_app c rest : 0 <= c <= MAX_SPAN_BATCH_ELEMENTS ->
  read_block_tx_count (enc uvarint c ++ rest) = (Ok c, rest).
Proof.
  intros Hc. unfold read_block_tx_count. rewrite (codec_dec law_uvarint) by (unfold fits, U64_MAX, MAX_SPAN_BATCH_ELEMENTS in *; lia).
  by rewrite Z.gtb_ltb, (proj2 (Z.ltb_ge _ _)) by lia.
Qed.

(** Decoding an encoded payload gives it back. *)
Lemma payload_roundtrip p obs its : payload_ok p obs its ->
  exists bytes, encode_payload p = Ok bytes /\ forall rest, decode_payload (bytes ++ rest) = (Ok p, rest).
Proof.
  intros [Hn Hbits Hcs Hcok Htot Hcols Htot' Hitems [Hb1 Hb2]].
  destruct (txs_roundtrip (txs p) its Hcols Hitems Hb2 Htot') as (tb & Ht & Hdec).
  unfold encode_payload, encode_origin_bits. rewrite Hn, (bits_are_encode _ _ Hbits), bind_ok, Ht, bind_ok.
  eexists. split; [reflexivity|]. intros rest. rewrite <- !app_assoc. unfold decode_payload, encode_block_count.
  rewrite Hn. rewrite (bind_run _ _ _ (zlen obs) (origin_bits p ++ encode_block_tx_counts p ++ tb ++ rest)).
  2:{ unfold decode_block_count. rewrite (codec_dec law_uvarint) by (unfold fits, U64_MAX, MAX_SPAN_BATCH_ELEMENTS in *; lia).
      by rewrite Z.gtb_ltb, (proj2 (Z.ltb_ge _ _)), (proj2 (Z.eqb_neq _ _)) by lia. }
  unfold decode_origin_bits. rewrite Z.gtb_ltb, (proj2 (Z.ltb_ge _ _)) by lia.
  erewrite bind_run by by apply bits_are_decode. unfold decode_block_tx_counts.
  replace (Z.to_nat (zlen obs)) with (length (block_tx_counts p)) by (unfold zlen in *; lia).
  rewrite (bind_run _ _ _ (block_tx_counts p) (tb ++ rest)).
  2:{ apply read_n_app. intros k c r Hk. apply read_block_tx_count_app.
      split; [by eapply (Forall_lookup_1 _ _ _ _ Hcok)|].
      pose proof (count_le_sum _ c Hcok (list_elem_of_lookup_2 _ _ _ Hk)). lia. }
  rewrite (bind_run _ _ _ (txs p) rest); [unfold mret, stm_ret; rewrite <- Hn; by destruct p|].
  unfold decode_txs. destruct (block_tx_counts p) as [|c cs] eqn:Ec; [unfold zlen in *; cbn in *; lia|].
  rewrite sum_tx_counts_zsum by (done || (rewrite Htot; unfold U64_MAX, MAX_SPAN_BATCH_ELEMENTS in *; lia)).
  rewrite Htot, Z.add_0_l, Z.gtb_ltb, (proj2 (Z.ltb_ge _ _)) by lia. apply Hdec.
Qed.

Lemma raw_roundtrip b obs its : prefix_ok (prefix b) -> payload_ok (payload b) obs its ->
  exists bytes, raw_encode b = Ok bytes /\ forall rest, raw_decode (bytes ++ rest) = (Ok b, rest).
Proof.
  intros Hp Hpay. destruct (payload_roundtrip _ _ _ Hpay) as (pb & He & Hd).
  unfold raw_encode. rewrite He, bind_ok. eexists. split; [reflexivity|]. intros rest. unfold raw_decode.
  rewrite <- app_assoc. erewrite bind_run by by apply prefix_roundtrip. erewrite bind_run by apply Hd. by destruct b.
Qed.
End decode_laws.

(** * Deriving the elements *)

(** Consecutive epochs differ by at most one. *)
Definition epoch_steps (eps : list Z) : Prop :=
  forall i a b, eps !! i = Some a -> eps !! S i = Some b -> b = a \/ b = a + 1.
(** The bits mark the blocks that start a new epoch; the first bit is not read. *)
Definition marks (obs : list bool) (eps : list Z) : Prop :=
  length obs = length eps /\
  forall i a b, eps !! i = Some a -> eps !! S i = Some b -> obs !! S i = Some (a <? b).

Lemma origin_nums_run bits obs all : bits_are bits obs -> marks obs all -> epoch_steps all -> Forall (fits U64_MAX) all ->
  forall eps nums x, all = eps ++ nums -> last eps = Some x -> origin_nums bits (length eps) x nums = Ok all.
Proof.
  intros Hb [Hlen Hm] Hs Hok eps. induction eps as [|y eps IH] using rev_ind; intros nums x Hall Hl; [done|].
  rewrite last_snoc in Hl. injection Hl as ->. rewrite length_app. cbn [length]. rewrite Nat.add_1_r. cbn [origin_nums].
  rewrite <- app_assoc in Hall. cbn [app] in Hall.
  destruct (lookup_lt_is_Some_2 obs (length eps)) as [b Hob]; [rewrite Hlen, Hall, length_app; cbn; lia|].
  rewrite (bits_are_get _ _ Hb _ _ Hob), bind_ok.
  destruct (last eps) as [z|] eqn:El.
  2:{ apply last_None in El as ->. cbn in *. by rewrite Hall. }
  pose proof El as (eps0 & ->)%last_Some. rewrite length_app in *. cbn [length] in *. rewrite Nat.add_1_r in *.
  assert (Hz : all !! length eps0 = Some z) by (rewrite Hall, <- app_assoc; by apply list_lookup_middle).
  assert (Hx : all !! S (length eps0) = Some x).
  { rewrite Hall. apply list_lookup_middle. rewrite length_app. cbn. lia. }
  pose proof (Hm _ _ _ Hz Hx) as Hob'. rewrite Hob in Hob'. injection Hob' as ->.
  rewrite (IH (x :: nums) _ Hall).
  - done.
  - rewrite (proj2 (Z.ltb_lt 0 _)) by lia. rewrite andb_true_r. f_equal.
    pose proof (Forall_lookup_1 _ _ _ _ Hok Hx) as Hfx. pose proof (Forall_lookup_1 _ _ _ _ Hok Hz) as Hfz.
    destruct (Hs _ _ _ Hz Hx) as [->| ->]; [by rewrite Z.ltb_irrefl|].
    rewrite (proj2 (Z.ltb_lt _ _)) by lia. cbn. unfold sub64. rewrite wrap_id by (unfold fits in *; lia). f_equal. lia.
Qed.

Lemma zlen_concat_app {A B} (f : A -> list B) l l' :
  zlen (concat (f <$> l ++ l')) = zlen (concat (f <$> l)) + zlen (concat (f <$> l')).
Proof. by rewrite fmap_app, concat_app, zlen_app. Qed.

Lemma byte_at_zlen {E A B} (l : list A) (es : list B) a : l !! length es = Some a -> byte_at (E := E) l (zlen es) = Ok a.
Proof. apply byte_at_lookup. Qed.

Section elements.
Context (first_time block_time : Z) (all : list SpanBatchElement).
Hypothesis Htimes : forall k e, all !! k = Some e ->
  el_timestamp e = add64 first_time (wrap U64_MAX (block_time * Z.of_nat k)).

Lemma derive_elements_run es rest : all = es ++ rest ->
  derive_elements first_time block_time (el_epoch_num <$> all) ((fun e => zlen (el_transactions e)) <$> all)
    (concat (el_transactions <$> all)) (zlen es) (zlen (concat (el_transactions <$> es))) (length rest) = Ok rest.
Proof.
  revert es. induction rest as [|e rest IH]; intros es Hall; [done|]. cbn [derive_elements length].
  assert (He : all !! length es = Some e) by (by rewrite Hall, list_lookup_middle).
  rewrite (byte_at_zlen ((fun e => zlen (el_transactions e)) <$> all) _ (zlen (el_transactions e))) by (by rewrite list_lookup_fmap, He).
  rewrite bind_ok. replace (concat (el_transactions <$> all)) with
    (concat (el_transactions <$> es) ++ el_transactions e ++ concat (el_transactions <$> rest)) at 1
    by (by rewrite Hall, fmap_app, concat_app).
  rewrite slice_app by done. rewrite bind_ok.
  rewrite (byte_at_zlen (el_epoch_num <$> all) _ (el_epoch_num e)) by (by rewrite list_lookup_fmap, He). rewrite bind_ok.
  specialize (IH (es ++ [e])). rewrite zlen_concat_app, zlen_app in IH. cbn [fmap list_fmap concat] in IH.
  rewrite app_nil_r in IH. change (zlen [e]) with 1 in IH. rewrite IH by (by rewrite <- app_assoc).
  rewrite bind_ok. unfold zlen at 1. rewrite <- (Htimes _ _ He). by destruct e.
Qed.
End elements.

Section derive_run.
Context `{SpanTxCodecs} `{!SpanTxLaws}.

(** Deriving a raw batch whose columns come from the elements gives the elements. *)
Lemma derive_run b block_time genesis_time chain_id obs its es envs x :
  payload_ok (payload b) obs its -> Forall2 (describes chain_id) envs its ->
  envelope_encode_2718 <$> envs = concat (el_transactions <$> es) ->
  block_tx_counts (payload b) = (fun e => zlen (el_transactions e)) <$> es ->
  marks obs (el_epoch_num <$> es) -> epoch_steps (el_epoch_num <$> es) -> Forall (fits U64_MAX) (el_epoch_num <$> es) ->
  last (el_epoch_num <$> es) = Some x -> l1_origin_num (prefix b) = x ->
  (forall k e, es !! k = Some e ->
    el_timestamp e = add64 (add64 genesis_time (rel_timestamp (prefix b))) (wrap U64_MAX (block_time * Z.of_nat k))) ->
  derive b block_time genesis_time chain_id =
  Ok (mkSpanBatch (prefix_parent_check (prefix b)) (prefix_l1_origin_check (prefix b)) es).
Proof.
  intros Hp Hd Henv Hcounts Hm Hs Hf Hl Hx Ht. destruct Hp. unfold derive.
  rewrite pay_count0. rewrite (proj2 (Z.eqb_neq _ _)) by lia.
  assert (Hn : Z.to_nat (zlen obs) = length es).
  { destruct Hm as [Hlen _]. rewrite length_fmap in Hlen. unfold zlen. lia. }
  rewrite Hn. replace (length es) with (length (el_epoch_num <$> es)) at 1 by apply length_fmap.
  rewrite (origin_nums_run _ obs (el_epoch_num <$> es) pay_bits0 Hm Hs Hf _ [] (l1_origin_num (prefix b)));
    [|by rewrite app_nil_r|by rewrite Hx].
  rewrite bind_ok, (full_txs_run _ _ its envs) by done. rewrite bind_ok, Henv, Hcounts.
  pose proof (derive_elements_run _ block_time es Ht [] es eq_refl) as Hr.
  change (zlen (@nil SpanBatchElement)) with 0 in Hr. change (zlen (concat _)) with 0 in Hr. by rewrite Hr.
Qed.
End derive_run.

(** * Appending *)

Lemma peek_0 es e : peek_element (es ++ [e]) 0 = Ok e.
Proof.
  unfold peek_element. rewrite zlen_app. change (zlen [e]) with 1. replace (zlen es + 1 - 1 - 0) with (zlen es) by lia.
  apply byte_at_zlen. by apply list_lookup_middle.
Qed.
Lemma peek_1 es p e : peek_element ((es ++ [p]) ++ [e]) 1 = Ok p.
Proof.
  unfold peek_element. rewrite !zlen_app. change (zlen [p]) with 1. change (zlen [e]) with 1.
  replace (zlen es + 1 + 1 - 1 - 1) with (zlen es) by lia. rewrite <- app_assoc. apply byte_at_zlen. by apply list_lookup_middle.
Qed.

Section append.
Context `{SpanTxCodecs} `{!SpanTxLaws} (genesis_time chain_id : Z).

(** A span batch to which the batches [bs] have been appended. *)
Record built (s : SpanBatchCache) (bs : list SingleBatch) (obs : list bool) (its : list item) : Prop := mkBuilt {
  built_batches : batches (span s) = element_of <$> bs;
  built_genesis : genesis_timestamp s = genesis_time;
  built_chain : span_chain_id s = chain_id;
  built_bits : bits_are (span_origin_bits s) obs;
  built_marks : marks obs (epoch_num <$> bs);
  built_counts : span_block_tx_counts s = (fun b => zlen (transactions b)) <$> bs;
  built_columns : columns (span_txs s) its;
  built_total : total_block_tx_count (span_txs s) = zlen its;
  built_parent b : head bs = Some b -> parent_check (span s) = first_20 (sb_parent_hash b);
  built_origin b : last bs = Some b -> l1_origin_check (span s) = first_20 (epoch_hash b);
}.

Lemma built_new : built (new_span genesis_time chain_id) [] [] [].
Proof. constructor; try done. Qed.

Lemma marks_snoc obs eps e v : marks obs eps -> (forall p, last eps = Some p -> v = (p <? e)) ->
  marks (obs ++ [v]) (eps ++ [e]).
Proof.
  intros [Hlen Hm] Hv. split; [rewrite !length_app; cbn; lia|]. intros i a b Ha Hb.
  destruct (decide (S i < length eps)%nat) as [Hi|Hi].
  - rewrite lookup_app_l in Ha, Hb by lia. rewrite lookup_app_l by lia. by apply Hm.
  - assert (length eps = S i) as Hn.
    { apply lookup_lt_Some in Hb. rewrite length_app in Hb. cbn in Hb. lia. }
    rewrite lookup_app_l in Ha by lia. rewrite list_lookup_middle in Hb by lia. injection Hb as ->.
    rewrite list_lookup_middle by lia. f_equal. apply Hv. rewrite last_lookup, Hn. done.
Qed.

(** The bit [append_singular_batch] sets, and the parent check it stores. *)
Definition bit_for (bs : list SingleBatch) (b : SingleBatch) (seq_num : Z) : bool :=
  match last bs with Some p => epoch_num p <? epoch_num b | None => seq_num =? 0 end.

Lemma append_run s bs obs its b seq_num new :
  built s bs obs its -> (forall p, last bs = Some p -> sb_timestamp p <= sb_timestamp b) ->
  Forall2 (raw_for chain_id) (transactions b) new -> zlen its + zlen new <= U64_MAX ->
  exists s', append_singular_batch b seq_num s = (Ok tt, s') /\
    built s' (bs ++ [b]) (obs ++ [bit_for bs b seq_num]) (its ++ new).
Proof.
  intros [] Hts Hraw Hlen. destruct (add_txs_run chain_id _ _ _ _ Hraw built_columns0 built_total0 Hlen) as (t' & Ht & Hc & Htot).
  unfold append_singular_batch. erewrite bind_run by reflexivity. unfold id. rewrite built_batches0.
  rewrite (bind_run _ _ _ tt s).
  2:{ destruct bs as [|p bs _] using rev_ind; [done|]. rewrite fmap_app. cbn [fmap list_fmap].
      destruct ((element_of <$> bs) ++ [element_of p]) eqn:E; [by destruct (element_of <$> bs)|]. rewrite <- E.
      rewrite peek_0. erewrite bind_run by reflexivity. unfold guard_err. cbn [element_of el_timestamp].
      rewrite Z.gtb_ltb, (proj2 (Z.ltb_ge _ _)) by (apply Hts; by rewrite last_snoc). done. }
  set (parent := match last bs with Some _ => parent_check (span s) | None => first_20 (sb_parent_hash b) end).
  rewrite (bind_run _ _ _ (parent, bit_for bs b seq_num) s).
  2:{ unfold parent, bit_for. rewrite zlen_app. change (zlen [element_of b]) with 1.
      destruct bs as [|p bs _] using rev_ind; [done|]. rewrite last_snoc, fmap_app. cbn [fmap list_fmap].
      rewrite zlen_app, (proj2 (Z.eqb_neq _ _)) by (unfold zlen; cbn [length]; lia).
      rewrite peek_1, peek_0. erewrite bind_run by reflexivity. by erewrite bind_run by reflexivity. }
  cbn beta iota. rewrite peek_0. erewrite bind_run by reflexivity. erewrite bind_run by reflexivity.
  unfold zoom. cbn [span_txs el_transactions element_of]. rewrite built_chain0, Ht. eexists. split; [reflexivity|].
  assert (Hlast : length obs = length bs) by (destruct built_marks0 as [-> _]; apply length_fmap).
  constructor; cbn [span batches genesis_timestamp span_chain_id span_origin_bits span_block_tx_counts span_txs parent_check l1_origin_check];
    rewrite ?fmap_app; try done.
  - rewrite zlen_app. change (zlen [element_of b]) with 1.
    replace (zlen (element_of <$> bs) + 1 - 1) with (zlen obs) by (unfold zlen; rewrite length_fmap; lia). by apply bits_are_push.
  - apply marks_snoc; [done|]. intros p Hp. rewrite fmap_last in Hp. unfold bit_for. by destruct (last bs); simplify_eq/=.
  - by rewrite built_counts0.
  - intros b' Hb'. unfold parent. destruct bs as [|p bs _] using rev_ind; [cbn in *; by simplify_eq|].
    rewrite last_snoc. apply built_parent0. by destruct bs.
  - intros b' Hb'. rewrite last_snoc in Hb'. by simplify_eq.
Qed.
End append.

(** * Round trip *)

(** The blocks a batcher puts in one span batch: their L1 origins advance by at most
    one per block, their timestamps follow the block time from one not before genesis,
    and their transactions are encodings of signed transactions [envs] of the chain. *)
Record span_source `{SpanTxCodecs} (cfg : RollupConfig) (bs : list SingleBatch) (envs : list (list TxEnvelope)) : Prop :=
mkSpanSource {
  src_blocks : 1 <= zlen bs <= MAX_SPAN_BATCH_ELEMENTS;
  src_txs : Forall2 (fun b es => transactions b = envelope_encode_2718 <$> es) bs envs;
  src_envs : Forall (Forall (envelope_ok (l2_chain_id cfg))) envs;
  src_total : zlen (concat envs) <= MAX_SPAN_BATCH_ELEMENTS;
  src_epochs : epoch_steps (epoch_num <$> bs);
  src_epochs_fit : Forall (fits U64_MAX) (epoch_num <$> bs);
  src_hashes : Forall (fun b => fits U256_MAX (sb_parent_hash b) /\ fits U256_MAX (epoch_hash b)) bs;
  src_times : exists t0, fits U64_MAX t0 /\ 0 <= l2_time (genesis cfg) <= t0 /\ 0 <= block_time cfg /\
    forall k b, bs !! k = Some b -> sb_timestamp b = t0 + block_time cfg * Z.of_nat k /\ fits U64_MAX (sb_timestamp b);
}.

(** Appending every batch with its sequence number. *)
Definition append_all `{SpanTxCodecs} (l : list (SingleBatch * Z)) : stm SpanBatchCache (fault SpanBatchError) unit :=
  for_each l (fun '(b, seq_num) => append_singular_batch b seq_num).

(** The span batch a decoder sees for these blocks. *)
Definition span_of (bs : list SingleBatch) : SpanBatch :=
  mkSpanBatch (match head bs with Some b => first_20 (sb_parent_hash b) | None => 0 end)
    (match last bs with Some b => first_20 (epoch_hash b) | None => 0 end) (element_of <$> bs).

Section roundtrip.
Context `{SpanTxCodecs} `{!SpanTxLaws} `{SingleCodec}.

Lemma append_all_run genesis_time chain_id l envs s bs obs its :
  built genesis_time chain_id s bs obs its ->
  (forall i p b, (bs ++ l.*1) !! i = Some p -> (bs ++ l.*1) !! S i = Some b -> sb_timestamp p <= sb_timestamp b) ->
  Forall2 (fun b es => transactions b = envelope_encode_2718 <$> es) l.*1 envs ->
  Forall (Forall (envelope_ok chain_id)) envs -> zlen its + zlen (concat envs) <= U64_MAX ->
  exists s' obs' its', append_all l s = (Ok tt, s') /\ built genesis_time chain_id s' (bs ++ l.*1) obs' (its ++ its') /\
    Forall2 (describes chain_id) (concat envs) its' /\ Forall item_ok its'.
Proof.
  intros Hb Hts Htx Henv. revert s bs obs its envs Hb Hts Htx Henv.
  induction l as [|[b seq_num] l IH]; intros s bs obs its envs Hb Hts Htx Henv Hlen; cbn [fmap list_fmap fst] in *.
  - apply Forall2_nil_inv_l in Htx as ->. exists s, obs, []. rewrite !app_nil_r. by split_and!.
  - apply Forall2_cons_inv_l in Htx as (es & envs' & Htx & Htxs & ->). apply Forall_cons in Henv as [He Henv].
    cbn [concat] in *. rewrite zlen_app in Hlen. pose proof (zlen_nonneg (concat envs')).
    destruct (raws_of_envelopes _ _ He) as (new & Hraw & Hdesc & Hok). rewrite <- Htx in Hraw.
    assert (Hn : zlen new = zlen es) by (unfold zlen; by rewrite (Forall2_length _ _ _ Hdesc)).
    destruct (append_run genesis_time chain_id s bs obs its b seq_num new Hb) as (s1 & Hs1 & Hb1); [|done|lia|].
    { intros p Hp. rewrite last_lookup in Hp. apply (Hts (pred (length bs))).
      - pose proof (lookup_lt_Some _ _ _ Hp). by rewrite lookup_app_l.
      - apply list_lookup_middle. pose proof (lookup_lt_Some _ _ _ Hp). lia. }
    destruct (IH s1 (bs ++ [b]) _ (its ++ new) envs' Hb1) as (s' & obs' & its' & Hr & Hb' & Hd' & Hok').
    { by rewrite <- app_assoc. } { done. } { done. } { rewrite zlen_app. lia. }
    exists s', obs', (new ++ its'). rewrite <- !app_assoc in Hb'. split_and!; [|done|by apply Forall2_app|by apply Forall_app].
    unfold append_all. cbn [for_each]. by erewrite bind_run by exact Hs1.
Qed.

Lemma first_20_fits h : fits U256_MAX h -> fits (2 ^ 160 - 1) (first_20 h).
Proof.
  intros [Hlo Hhi]. unfold first_20, fits, U256_MAX in *. rewrite Z.shiftr_div_pow2 by lia. split; [by apply Z.div_pos|].
  enough (h / 2 ^ 96 < 2 ^ 160) by lia. apply Z.div_lt_upper_bound; [done|]. rewrite <- Z.pow_add_r by lia. cbn in *. lia.
Qed.

Lemma zsum_counts (bs : list SingleBatch) envs :
  Forall2 (fun b es => transactions b = envelope_encode_2718 <$> es) bs envs ->
  zsum ((fun b => zlen (transactions b)) <$> bs) = zlen (concat envs) /\
  concat (transactions <$> bs) = envelope_encode_2718 <$> concat envs.
Proof.
  induction 1 as [|b es bs envs Hb _ [IH1 IH2]]; [done|]. cbn [fmap list_fmap concat].
  rewrite zsum_cons, IH1, IH2, Hb, zlen_app, fmap_app. unfold zlen at 1.
  rewrite length_fmap. done.
Qed.

(** The raw batch of a span batch to which [first :: bs] were appended. *)
Definition raw_of (s : SpanBatchCache) (first last : SingleBatch) (n : Z) : RawSpanBatch :=
  mkRawSpanBatch
    (mkSpanBatchPrefix (sub64 (sb_timestamp first) (genesis_timestamp s)) (epoch_num last)
       (first_20 (sb_parent_hash first)) (first_20 (epoch_hash last)))
    (mkSpanBatchPayload n (span_origin_bits s) (span_block_tx_counts s) (span_txs s)).

Lemma to_raw_run g c s bs obs its b0 bn : built g c s bs obs its -> head bs = Some b0 -> last bs = Some bn ->
  to_raw_span_batch s = Ok (raw_of s b0 bn (zlen bs)).
Proof.
  intros [] Hh Hl. unfold to_raw_span_batch, raw_of. rewrite built_batches0, fmap_last, Hl, zlen_fmap.
  rewrite (built_parent0 _ Hh), (built_origin0 _ Hl). destruct bs; [done|]. cbn in *. by simplify_eq.
Qed.

Section source.
Context (cfg : RollupConfig) (bs : list SingleBatch) (envs : list (list TxEnvelope)) (Hsrc : span_source cfg bs envs).
Context (s : SpanBatchCache) (obs : list bool) (its : list item).
Context (Hb : built (l2_time (genesis cfg)) (l2_chain_id cfg) s bs obs its).
Context (Hd : Forall2 (describes (l2_chain_id cfg)) (concat envs) its) (Hok : Forall item_ok its).
Context (b0 bn : SingleBatch) (Hh : head bs = Some b0) (Hl : last bs = Some bn).

Lemma source_payload_ok : payload_ok (payload (raw_of s b0 bn (zlen bs))) obs its.
Proof.
  destruct Hb, Hsrc. pose proof (zsum_counts _ _ src_txs0) as [Hz _].
  assert (Hn : zlen obs = zlen bs) by (destruct built_marks0 as [Hlen _]; rewrite length_fmap in Hlen; unfold zlen; lia).
  assert (Hits : zlen its = zlen (concat envs)) by (unfold zlen; by rewrite (Forall2_length _ _ _ Hd)).
  constructor; cbn [payload raw_of block_count origin_bits block_tx_counts txs]; rewrite ?Hn; try done.
  - by rewrite built_counts0, zlen_fmap.
  - rewrite built_counts0. apply Forall_fmap, Forall_true. intros b. apply zlen_nonneg.
  - by rewrite built_counts0, Hz.
  - split; [done|lia].
Qed.

Lemma source_prefix_ok : prefix_ok (prefix (raw_of s b0 bn (zlen bs))).
Proof.
  destruct Hsrc as [_ _ _ _ _ Hep Hhash (t0 & Ht0 & Hg & Hbt & Hts)].
  assert (Hfirst : bs !! 0%nat = Some b0) by (by rewrite <- head_lookup).
  assert (Hn : bn ∈ bs) by (apply last_Some_elem_of in Hl; done).
  destruct (proj1 (Forall_forall _ _) Hhash b0 (list_elem_of_lookup_2 _ _ _ Hfirst)) as [Hp _].
  destruct (proj1 (Forall_forall _ _) Hhash bn Hn) as [_ He]. destruct (Hts _ _ Hfirst) as [Et _].
  split_and!; cbn; try by apply first_20_fits.
  - unfold sub64. apply fits_wrap. done.
  - by apply (proj1 (Forall_forall _ _) Hep), list_elem_of_fmap_2.
Qed.

Lemma source_derive :
  derive (raw_of s b0 bn (zlen bs)) (block_time cfg) (l2_time (genesis cfg)) (l2_chain_id cfg) = Ok (span_of bs).
Proof.
  pose proof source_payload_ok as Hpay. destruct Hb. destruct Hsrc as [_ Htx _ _ Hes Hep _ (t0 & Ht0 & Hg & Hbt & Hts)].
  pose proof (zsum_counts _ _ Htx) as [_ Hcat].
  assert (Hfirst : bs !! 0%nat = Some b0) by (by rewrite <- head_lookup). destruct (Hts _ _ Hfirst) as [Et _].
  assert (Hepochs : el_epoch_num <$> (element_of <$> bs) = epoch_num <$> bs) by (by rewrite <- list_fmap_compose).
  rewrite (derive_run _ _ _ _ obs its (element_of <$> bs) (concat envs) (epoch_num bn)); rewrite ?Hepochs; try done.
  - unfold span_of. by rewrite Hh, Hl.
  - rewrite <- list_fmap_compose. by rewrite <- Hcat.
  - cbn. rewrite built_counts0. by rewrite <- list_fmap_compose.
  - by rewrite fmap_last, Hl.
  - intros k e He. rewrite list_lookup_fmap in He. apply fmap_Some in He as (b & Hk & ->).
    destruct (Hts _ _ Hk) as [Eb Hfit]. cbn [raw_of prefix rel_timestamp element_of el_timestamp]. rewrite built_genesis0. unfold sub64.
    change (Z.of_nat 0) with 0 in Et. rewrite Z.mul_0_r in Et.
    assert (0 <= block_time cfg * Z.of_nat k) by nia. unfold fits in *.
    rewrite !wrap_id by (unfold fits; lia). rewrite (add64_id (l2_time (genesis cfg))) by lia. rewrite add64_id by lia. lia.
Qed.
End source.

(** C12: What is appended and encoded is decoded: a span batch built from consecutive
    blocks encodes, and decoding the bytes gives the elements of these blocks with the
    checks of the first parent and the last origin. *)
Theorem span_roundtrip cfg l envs : span_source cfg l.*1 envs ->
  exists s bytes, append_all l (new_span (l2_time (genesis cfg)) (l2_chain_id cfg)) = (Ok tt, s) /\
    span_encode s = Ok bytes /\ forall rest, batch_decode cfg (bytes ++ rest) = Ok (Span (span_of l.*1)).
Proof.
  intros Hsrc. pose proof (src_blocks _ _ _ Hsrc) as Hn. pose proof (src_total _ _ _ Hsrc) as Htot.
  destruct (src_times _ _ _ Hsrc) as (t0 & _ & _ & Hbt & Hts).
  destruct (append_all_run _ _ l envs _ [] [] [] (built_new (l2_time (genesis cfg)) (l2_chain_id cfg)))
    as (s & obs & its & Hs & Hb & Hd & Hok).
  { intros i p b Hp Hb. destruct (Hts _ _ Hp) as [-> _], (Hts _ _ Hb) as [-> _]. nia. }
  { apply Hsrc. } { apply Hsrc. } { unfold U64_MAX, MAX_SPAN_BATCH_ELEMENTS in *. change (zlen (@nil item)) with 0. lia. }
  cbn [app] in Hb. destruct (head l.*1) as [b0|] eqn:Hh; [|apply head_None in Hh; rewrite Hh in Hn; unfold zlen in Hn; cbn in Hn; lia].
  destruct (last l.*1) as [bn|] eqn:Hl; [|apply last_None in Hl; rewrite Hl in Hn; unfold zlen in Hn; cbn in Hn; lia].
  destruct (raw_roundtrip _ _ _ (source_prefix_ok _ _ _ Hsrc s b0 bn Hh Hl)
    (source_payload_ok _ _ _ Hsrc s obs its Hb Hd Hok b0 bn)) as (bytes & He & Hdec).
  exists s, (SPAN :: bytes). split; [done|]. split.
  - unfold span_encode. rewrite (to_raw_run _ _ _ _ _ _ _ _ Hb Hh Hl), bind_ok, He. done.
  - intros rest. cbn [app batch_decode]. rewrite Hdec. cbn [fst]. rewrite bind_ok.
    by rewrite (source_derive _ _ _ Hsrc s obs its Hb Hd Hok b0 bn Hh Hl).
Qed.
End roundtrip.

(** * Decoding arbitrary bytes *)

(** A varint is read from the front of the buffer. *)
Class UvarintLaws `{SpanTxCodecs} := {
  law_uvarint_dec r v r' : dec uvarint r = Some (v, r') -> fits U64_MAX v /\ r' `suffix_of` r;
}.

(** A reader that does not panic on bytes, and whose value satisfies [Q]. *)
Definition safe {A} (m : rd A) (Q : A -> Prop) : Prop :=
  forall r, bytes_ok r -> exists x r', m r = (x, r') /\ bytes_ok r' /\
    match x with Ok a => Q a | Err (Fail _) => True | Err _ => False end.

Section safe.
Context {A B : Type}.

Lemma safe_ret (a : A) (Q : A -> Prop) : Q a -> safe (mret a) Q.
Proof. intros Ha r Hr. by exists (Ok a), r. Qed.
Lemma safe_fail e (Q : A -> Prop) : safe (throw_fail e) Q.
Proof. intros r Hr. by exists (Err (Fail e)), r. Qed.
Lemma safe_bind (m : rd A) (f : A -> rd B) Q Q' : safe m Q -> (forall a, Q a -> safe (f a) Q') -> safe (m ≫= f) Q'.
Proof.
  intros Hm Hf r Hr. destruct (Hm r Hr) as (x & r1 & Hx & Hr1 & HQ). unfold mbind, stm_bind. rewrite Hx.
  destruct x as [a|e]; [by apply Hf|]. exists (Err e), r1. by destruct e.
Qed.
Lemma safe_weaken (m : rd A) (Q Q' : A -> Prop) : safe m Q -> (forall a, Q a -> Q' a) -> safe m Q'.
Proof.
  intros Hm HQ r Hr. destruct (Hm r Hr) as (x & r' & Hx & Hr' & H). exists x, r'. split_and!; [done..|].
  destruct x as [a|[]]; auto.
Qed.
End safe.

Lemma safe_read_n {A} (Q : A -> Prop) body n i : (forall j, i <= j < i + Z.of_nat n -> safe (body j) Q) ->
  safe (read_n i n body) (fun l => length l = n /\ Forall Q l).
Proof.
  revert i. induction n as [|n IH]; intros i Hb; cbn [read_n]; [by apply safe_ret|].
  apply (safe_bind _ _ Q); [apply Hb; lia|]. intros a Ha.
  eapply safe_bind; [apply IH; intros j Hj; apply Hb; lia|]. intros l [Hl HQ]. apply safe_ret. cbn. auto.
Qed.

Section decode_safe.
Context `{SpanTxCodecs} `{!UvarintLaws}.

Lemma bytes_ok_suffix r r' : r' `suffix_of` r -> bytes_ok r -> bytes_ok r'.
Proof. intros [k ->] Hr. by apply Forall_app in Hr as [_ ?]. Qed.

Lemma safe_uvarint e : safe (read_uvarint e) (fits U64_MAX).
Proof.
  intros r Hr. unfold read_uvarint. destruct (dec uvarint r) as [[v r']|] eqn:E; [|by exists (Err (Fail (Decoding e))), r].
  destruct (law_uvarint_dec _ _ _ E). exists (Ok v), r'. split_and!; [done|by eapply bytes_ok_suffix|done].
Qed.
Lemma safe_read_bytes n e : safe (read_bytes n e) (fun l => length l = n).
Proof.
  intros r Hr. unfold read_bytes. destruct (Z.ltb_spec (zlen r) (Z.of_nat n)); do 2 eexists; (split; [reflexivity|]); split; try done.
  - by apply Forall_drop.
  - rewrite length_take. unfold zlen in *. lia.
Qed.
Lemma safe_bits n : 0 <= n -> safe (bits_decode n) (fun l => bits_are l (bools_of (be_val l) n)).
Proof.
  intros Hn r Hr. destruct (bits_decode_cases n r Hr Hn) as (r' & Hr' & [->|(l & -> & Hl)]); do 2 eexists; by split_and!.
Qed.
Lemma safe_read_tx_data : safe read_tx_data (fun _ => True).
Proof.
  intros r Hr. unfold read_tx_data. destruct r as [|b r0]; [by do 2 eexists|].
  destruct (if b <=? 127 then _ else _) as [[ty data] r1] eqn:E.
  assert (Hr1 : bytes_ok r1). { destruct (b <=? 127); injection E as <- <- <-; [by apply Forall_cons in Hr as [_ ?]|done]. }
  destruct (header_decode r1) as [[[[] n] ?]|]; [|by do 2 eexists..].
  repeat case_match; do 2 eexists; (split; [reflexivity|]); split; try done; by apply Forall_drop.
Qed.

Lemma safe_sigs total : 0 <= total -> safe (decode_tx_sigs total) (fun _ => True).
Proof.
  intros Ht. unfold decode_tx_sigs. eapply safe_bind; [by apply safe_bits|]. intros l Hl.
  eapply safe_weaken; [apply (safe_read_n (fun _ => True))|done]. intros j Hj.
  destruct (lookup_lt_is_Some_2 (bools_of (be_val l) total) (Z.to_nat j)) as [b Hb].
  { pose proof (zlen_bools_of (be_val l) total Ht). unfold zlen in *. lia. }
  pose proof (bits_are_get _ _ Hl _ _ Hb) as Hg. rewrite Z2Nat.id in Hg by lia. rewrite Hg.
  eapply (safe_bind _ _ (fun _ => True)); [by apply safe_ret|]. intros y _.
  eapply safe_bind; [apply safe_read_bytes|]. intros rs _. by apply safe_ret.
Qed.

Lemma safe_tos total bits : bits_are bits (bools_of (be_val bits) total) -> 0 <= total ->
  safe (decode_tx_tos total bits) (fun _ => True).
Proof.
  intros Hb Ht. unfold decode_tx_tos, contract_creation_count. rewrite (bits_are_ones _ _ Hb).
  pose proof (trues_bound (bools_of (be_val bits) total)) as Hn. rewrite zlen_bools_of in Hn by done.
  rewrite (proj2 (Z.ltb_ge _ _)) by lia. eapply safe_weaken; [apply (safe_read_n (fun _ => True))|done]. intros j _.
  eapply safe_bind; [apply safe_read_bytes|]. intros bs _. by apply safe_ret.
Qed.
Lemma safe_txs total : 0 <= total ->
  safe (txs_decode (set_total total default_txs))
    (fun t => total_block_tx_count t = total /\ zlen (tx_data t) = total).
Proof.
  intros Ht. unfold txs_decode. cbn [total_block_tx_count set_total legacy_tx_count default_txs].
  apply (safe_bind _ _ (fun l => bits_are l (bools_of (be_val l) total))).
  { unfold decode_contract_creation_bits. destruct (_ >? _); [apply safe_fail|by apply safe_bits]. }
  intros bits Hb. eapply safe_bind; [by apply safe_sigs|]. intros sigs _.
  eapply safe_bind; [by apply safe_tos|]. intros tos _.
  apply (safe_bind _ _ (fun x => zlen x.1.1 = total /\ 0 <= x.2)).
  { unfold decode_tx_data. eapply safe_bind; [apply (safe_read_n (fun _ => True)); intros; apply safe_read_tx_data|].
    intros items [Hl _]. apply safe_ret. cbn [fst snd]. split; [unfold zlen; rewrite length_fmap; lia|]. by apply fits_wrap. }
  intros [[data types] legacy] [Hd Hlegacy]. cbn [fst snd] in *.
  eapply safe_bind; [apply safe_read_n; intros; apply safe_uvarint|]. intros nonces _.
  eapply safe_bind; [apply safe_read_n; intros; apply safe_uvarint|]. intros gases _.
  apply (safe_bind _ _ (fun _ => True)); [|intros; by apply safe_ret].
  unfold decode_protected_bits. destruct (_ >? _); [apply safe_fail|]. by eapply safe_weaken; [apply safe_bits|].
Qed.

(** What a decoded payload promises. *)
Record payload_shape (p : SpanBatchPayload) : Prop := mkPayloadShape {
  shape_count : 1 <= block_count p <= MAX_SPAN_BATCH_ELEMENTS;
  shape_bits : bits_are (origin_bits p) (bools_of (be_val (origin_bits p)) (block_count p));
  shape_counts : zlen (block_tx_counts p) = block_count p;
  shape_counts_ok : Forall (fun c => 0 <= c) (block_tx_counts p);
  shape_total : total_block_tx_count (txs p) = zsum (block_tx_counts p);
  shape_data : zlen (tx_data (txs p)) = zsum (block_tx_counts p);
}.

Lemma sum_tx_counts_inv acc counts total : sum_tx_counts acc counts = Some total -> total = acc + zsum counts.
Proof.
  revert acc. induction counts as [|c counts IH]; intros acc Hs; [cbn in *; simplify_eq; lia|].
  cbn [sum_tx_counts] in Hs. unfold checked_add in Hs. destruct (_ <=? _); [|done]. cbn in Hs.
  apply IH in Hs. rewrite zsum_cons. lia.
Qed.

Lemma safe_payload : safe decode_payload payload_shape.
Proof.
  unfold decode_payload. apply (safe_bind _ _ (fun n => 1 <= n <= MAX_SPAN_BATCH_ELEMENTS)).
  { intros r Hr. unfold decode_block_count. destruct (dec uvarint r) as [[v r']|] eqn:E; [|by do 2 eexists].
    destruct (law_uvarint_dec _ _ _ E) as [Hv Hs]. rewrite Z.gtb_ltb.
    destruct (Z.ltb_spec MAX_SPAN_BATCH_ELEMENTS v); [by do 2 eexists|].
    destruct (Z.eqb_spec v 0); [by do 2 eexists|]. exists (Ok v), r'. unfold fits in Hv.
    split_and!; [done|by eapply bytes_ok_suffix|lia..]. }
  intros n Hn. apply (safe_bind _ _ (fun l => bits_are l (bools_of (be_val l) n))).
  { unfold decode_origin_bits. destruct (_ >? _); [apply safe_fail|apply safe_bits; lia]. }
  intros bits Hbits. apply (safe_bind _ _ (fun l => length l = Z.to_nat n /\ Forall (fun c => 0 <= c) l)).
  { apply safe_read_n. intros j _ r Hr. unfold read_block_tx_count.
    destruct (dec uvarint r) as [[v r']|] eqn:E; [|by do 2 eexists]. destruct (law_uvarint_dec _ _ _ E) as [Hv Hs].
    destruct (_ >? _); [by do 2 eexists|]. exists (Ok v), r'. split_and!; [done|by eapply bytes_ok_suffix|apply Hv]. }
  intros counts [Hlen Hcs].
  apply (safe_bind _ _ (fun t => total_block_tx_count t = zsum counts /\ zlen (tx_data t) = zsum counts)).
  { unfold decode_txs. destruct counts as [|c cs] eqn:Ec; [apply safe_fail|]. rewrite <- Ec in *.
    destruct (sum_tx_counts 0 counts) as [total|] eqn:Es; [|apply safe_fail]. apply sum_tx_counts_inv in Es as ->.
    destruct (_ >? _); [apply safe_fail|]. apply safe_txs. pose proof (zsum_nonneg _ Hcs). lia. }
  intros t [Ht Hd]. apply safe_ret. constructor; cbn; try done. unfold zlen. lia.
Qed.

Lemma safe_raw : safe raw_decode (fun b => payload_shape (payload b) /\ fits U64_MAX (l1_origin_num (prefix b))).
Proof.
  unfold raw_decode. apply (safe_bind _ _ (fun p => fits U64_MAX (l1_origin_num p))).
  - unfold decode_prefix. eapply safe_bind; [apply safe_uvarint|]. intros rel _.
    eapply safe_bind; [apply safe_uvarint|]. intros n Hn.
    apply (safe_bind _ _ (fun _ => True)); [unfold read_check; eapply safe_bind; [apply safe_read_bytes|]; intros; by apply safe_ret|].
    intros pc _.
    apply (safe_bind _ _ (fun _ => True)); [unfold read_check; eapply safe_bind; [apply safe_read_bytes|]; intros; by apply safe_ret|].
    intros oc _. by apply safe_ret.
  - intros p Hp. eapply safe_bind; [apply safe_payload|]. intros pay Hpay. by apply safe_ret.
Qed.
End decode_safe.

Lemma sorted_snoc l x : StronglySorted Z.le l -> Forall (fun y => y <= x) l -> StronglySorted Z.le (l ++ [x]).
Proof.
  intros Hl. induction Hl as [|y l Hl IH Hy]; intros Hx; cbn; [by repeat constructor|].
  apply Forall_cons in Hx as [Hyx Hx]. constructor; [by apply IH|]. apply Forall_app. split; [done|]. by repeat constructor.
Qed.

(** The epochs of a decoded batch: one per block, the last is the one given, and they
    ascend when there are enough L1 blocks below it. *)
Lemma origin_nums_spec bits obs : bits_are bits obs -> forall i x nums, (i <= length obs)%nat -> fits U64_MAX x ->
  exists eps, origin_nums bits i x nums = Ok (eps ++ nums) /\ length eps = i /\
    (i <> 0%nat -> last eps = Some x) /\
    (Z.of_nat i <= x -> StronglySorted Z.le eps /\ Forall (fun y => y <= x) eps).
Proof.
  intros Hb i. induction i as [|i IH]; intros x nums Hi Hx; [exists []; split_and!; (done || by repeat constructor)|].
  cbn [origin_nums]. destruct (lookup_lt_is_Some_2 obs i) as [b Hob]; [lia|].
  rewrite (bits_are_get _ _ Hb _ _ Hob), bind_ok.
  set (next := if (Z.b2z b =? 1) && (0 <? Z.of_nat i) then sub64 x 1 else x).
  assert (Hnext : fits U64_MAX next) by (unfold next; destruct (_ && _); [by apply fits_wrap|done]).
  destruct (IH next (x :: nums) ltac:(lia) Hnext) as (eps & -> & Hlen & Hl & Hs).
  exists (eps ++ [x]). rewrite <- app_assoc. split_and!; [done|rewrite length_app; cbn; lia|intros _; by apply last_snoc|].
  intros Hge. assert (Hn : Z.of_nat i <= next <= x).
  { unfold next. destruct (_ && _); [|lia]. unfold sub64. rewrite wrap_id by (unfold fits in *; lia). lia. }
  destruct Hs as [Hs Hle]; [lia|]. assert (Hle' : Forall (fun y => y <= x) eps) by (eapply Forall_impl; [exact Hle|]; cbn; lia).
  split; [by apply sorted_snoc|]. apply Forall_app. split; [done|]. constructor; [lia|constructor].
Qed.

Section derive_safe.
Context `{SpanTxCodecs}.

Lemma or_invalid_returns {A} (o : option A) : returns (or_invalid o).
Proof. destruct o; [apply ok_returns|apply fail_returns]. Qed.

Lemma full_loop_returns t chain_id n idx to_idx p_idx : (idx + n <= length (tx_data t))%nat ->
  returns (full_txs_loop t chain_id idx to_idx p_idx n) /\
  forall l, full_txs_loop t chain_id idx to_idx p_idx n = Ok l -> length l = n.
Proof.
  revert idx to_idx p_idx. induction n as [|n IH]; intros idx to_idx p_idx Hn; cbn [full_txs_loop].
  { split; [apply ok_returns|]. by intros l [= <-]. }
  destruct (lookup_lt_is_Some_2 (tx_data t) idx) as [d Hd]; [lia|]. rewrite (byte_at_lookup _ _ _ Hd), bind_ok.
  destruct (data_decode d) as [tx|]; cbn [or_invalid]; [rewrite bind_ok|split; [apply fail_returns|done]].
  destruct (tx_nonces t !! idx); cbn [or_invalid]; [rewrite bind_ok|split; [apply fail_returns|done]].
  destruct (tx_gases t !! idx); cbn [or_invalid]; [rewrite bind_ok|split; [apply fail_returns|done]].
  destruct (get_bit (contract_creation_bits t) _) as [bit|]; cbn [or_invalid]; [rewrite bind_ok|split; [apply fail_returns|done]].
  assert (Hto : (exists to i, (if bit =? 0 then to ← or_invalid (tx_tos t !! to_idx); Ok (Some to, S to_idx)
      else Ok (None, to_idx)) = (Ok (to, i) : result (fault SpanBatchError) _)) \/
    exists e, (if bit =? 0 then to ← or_invalid (tx_tos t !! to_idx); Ok (Some to, S to_idx)
      else Ok (None, to_idx)) = (Err (Fail e) : result (fault SpanBatchError) (option Z * nat))).
  { destruct (bit =? 0); [|by eauto]. destruct (tx_tos t !! to_idx); cbn; eauto. }
  destruct Hto as [(to & i & ->)|[e ->]]; [rewrite bind_ok|split; [apply fail_returns|done]].
  destruct (tx_sigs t !! idx) as [sig|]; cbn [or_invalid]; [rewrite bind_ok|split; [apply fail_returns|done]].
  destruct (if decide _ then _ else _) as [prot p'].
  destruct (to_signed_tx _ _ _ _ _ _ _) as [e|f] eqn:Es; [rewrite bind_ok|].
  - destruct (IH (S idx) i p' ltac:(lia)) as [Hr Hl]. split.
    + apply bind_returns; [done|]. intros l _. apply ok_returns.
    + intros l. destruct (full_txs_loop _ _ _ _ _ _) as [l'|]; [|done]. rewrite bind_ok. intros [= <-]. cbn. by rewrite (Hl l').
  - destruct tx; cbn in Es; try done. destruct to; simplify_eq. split; [apply fail_returns|done].
Qed.

Lemma derive_elements_safe first_time bt nums counts envs n i tx_idx :
  0 <= i -> 0 <= tx_idx -> zlen counts = i + Z.of_nat n -> (length nums = length counts) -> Forall (fun c => 0 <= c) counts ->
  tx_idx + zsum (drop (Z.to_nat i) counts) <= zlen envs ->
  exists es, derive_elements first_time bt nums counts envs i tx_idx n = Ok es /\
    el_epoch_num <$> es = drop (Z.to_nat i) nums /\
    forall k e, es !! k = Some e -> el_timestamp e = add64 first_time (wrap U64_MAX (bt * (i + Z.of_nat k))).
Proof.
  intros Hi. revert i tx_idx Hi. induction n as [|n IH]; intros i tx_idx Hi Ht Hlen Hnums Hcs Hsum; cbn [derive_elements].
  { exists []. split_and!; [done|rewrite drop_ge; [done|unfold zlen in *; lia]|done]. }
  destruct (lookup_lt_is_Some_2 counts (Z.to_nat i)) as [c Hc]; [unfold zlen in *; lia|].
  destruct (lookup_lt_is_Some_2 nums (Z.to_nat i)) as [e Hep]; [unfold zlen in *; lia|].
  pose proof (byte_at_lookup (E := SpanBatchError) _ _ _ Hc) as Ec. pose proof (byte_at_lookup (E := SpanBatchError) _ _ _ Hep) as Ee.
  rewrite Z2Nat.id in Ec, Ee by done. rewrite Ec, bind_ok. pose proof (Forall_lookup_1 _ _ _ _ Hcs Hc) as Hc0. cbn in Hc0.
  rewrite (drop_S _ _ _ Hc), zsum_cons in Hsum. replace (S (Z.to_nat i)) with (Z.to_nat (i + 1)) in Hsum by lia.
  pose proof (zsum_nonneg _ (Forall_drop _ (Z.to_nat (i + 1)) _ Hcs)).
  destruct (slice_ok (E := SpanBatchError) envs tx_idx (tx_idx + c)) as [d Hd]; [lia..|]. rewrite Hd, bind_ok, Ee, bind_ok.
  destruct (IH (i + 1) (tx_idx + c)) as (es & -> & Hes & Hts); [lia|lia|lia|done|done|lia|]. rewrite bind_ok.
  eexists. split; [reflexivity|]. split.
  - cbn. rewrite Hes, (drop_S _ _ _ Hep). do 2 f_equal. lia.
  - intros [|k] x Hx; cbn in Hx; [simplify_eq; cbn; do 3 f_equal; lia|]. rewrite (Hts _ _ Hx). do 3 f_equal. lia.
Qed.
End derive_safe.

(** The shape of the elements [derive] returns. *)
Definition span_shape (bt : Z) (s : SpanBatch) : Prop :=
  1 <= zlen (batches s) <= MAX_SPAN_BATCH_ELEMENTS /\
  (exists t0, forall k e, batches s !! k = Some e -> el_timestamp e = add64 t0 (wrap U64_MAX (bt * Z.of_nat k))) /\
  (forall e, last (batches s) = Some e -> zlen (batches s) <= el_epoch_num e -> epochs_sorted s).

Section decode_any.
Context `{SpanTxCodecs} `{!UvarintLaws} `{SingleCodec}.

Lemma derive_safe b bt gt chain_id : payload_shape (payload b) -> fits U64_MAX (l1_origin_num (prefix b)) ->
  returns (derive b bt gt chain_id) /\ forall s, derive b bt gt chain_id = Ok s -> span_shape bt s.
Proof.
  intros [Hn Hbits Hcl Hcs Htot Hdata] Hx. unfold derive. rewrite (proj2 (Z.eqb_neq _ _)) by lia.
  destruct (origin_nums_spec _ _ Hbits (Z.to_nat (block_count (payload b))) (l1_origin_num (prefix b)) [])
    as (eps & -> & Hel & Hlast & Hsort); [|done|].
  { pose proof (zlen_bools_of (be_val (origin_bits (payload b))) (block_count (payload b)) ltac:(lia)). unfold zlen in *. lia. }
  rewrite app_nil_r, bind_ok. unfold full_txs.
  destruct (full_loop_returns (txs (payload b)) chain_id (Z.to_nat (total_block_tx_count (txs (payload b)))) 0 0 0) as [Hr Hl].
  { unfold zlen in *. lia. }
  destruct (full_txs_loop _ _ _ _ _ _) as [envs|f]; [rewrite bind_ok; specialize (Hl envs eq_refl)|].
  2:{ destruct f as [e| |]; [split; [apply fail_returns|done]|by destruct Hr..]. }
  pose proof (zsum_nonneg _ Hcs).
  destruct (derive_elements_safe (add64 gt (rel_timestamp (prefix b))) bt eps (block_tx_counts (payload b)) envs
    (Z.to_nat (block_count (payload b))) 0 0) as (es & -> & Hes & Hts); try done.
  { lia. } { unfold zlen in *. lia. } { rewrite drop_0. unfold zlen in *. lia. }
  rewrite bind_ok. split; [apply ok_returns|]. intros s [= <-]. unfold span_shape, epochs_sorted. cbn [batches].
  rewrite drop_0 in Hes.
  assert (Hlen : zlen es = block_count (payload b)).
  { apply (f_equal length) in Hes. rewrite length_fmap in Hes. unfold zlen. lia. }
  rewrite Hlen. split_and!; [lia..|by eexists|]. intros e He Hge. rewrite Hes. apply Hsort.
  assert (Some (el_epoch_num e) = Some (l1_origin_num (prefix b))) as [= <-]; [|lia].
  rewrite <- Hlast by lia. by rewrite <- Hes, fmap_last, He.
Qed.

Lemma batch_decode_safe cfg r : bytes_ok r ->
  returns (batch_decode cfg r) /\ forall s, batch_decode cfg r = Ok (Span s) -> span_shape (block_time cfg) s.
Proof.
  intros Hr. unfold batch_decode. destruct r as [|ty r]; [split; [apply fail_returns|done]|].
  apply Forall_cons in Hr as [_ Hr]. destruct (ty =? SINGLE).
  { destruct (dec single_codec r) as [[b ?]|]; split; (apply ok_returns || apply fail_returns || done). }
  destruct (ty =? SPAN); [|split; [apply fail_returns|done]].
  destruct (safe_raw r Hr) as (x & r' & -> & _ & Hx). cbn [fst]. destruct x as [b|[e| |]]; [|split; [apply fail_returns|done]|done..].
  rewrite bind_ok. destruct Hx as [Hp Ho].
  destruct (derive_safe b (block_time cfg) (l2_time (genesis cfg)) (l2_chain_id cfg) Hp Ho) as [[Hr1 Hr2] Hs].
  destruct (derive _ _ _ _) as [s|[e| |]]; cbn; split; try done; [intros s' [= <-]; by apply Hs].
Qed.
(** Decoding any bytes returns a batch or an error, and a span batch it returns has
    one element or more, timestamps a block time apart, and ascending epochs as far as
    the L1 chain is long enough. *)
Theorem batch_decode_total cfg r : bytes_ok r ->
  returns (batch_decode cfg r) /\ forall s, batch_decode cfg r = Ok (Span s) -> span_shape (block_time cfg) s.
Proof. apply batch_decode_safe. Qed.
End decode_any.

(** * An instance *)

Module SpanExample.
#[local] Instance sig_eq : EqDecision Signature.
Proof. solve_decision. Defined.
#[local] Instance sig_countable : Countable Signature :=
  inj_countable' (fun s => (sig_r s, sig_s s, sig_v s)) (fun '(r, s, v) => mkSignature r s v) ltac:(by intros []).
#[local] Instance auth_eq : EqDecision SignedAuthorization.
Proof. solve_decision. Defined.
#[local] Instance auth_countable : Countable SignedAuthorization :=
  inj_countable' (fun a => (auth_chain_id a, auth_address a, auth_nonce a, auth_signature a))
    (fun '(c, a, n, s) => mkSignedAuthorization c a n s) ltac:(by intros []).
#[local] Instance legacy_eq : EqDecision TxLegacy.
Proof. solve_decision. Defined.
#[local] Instance legacy_countable : Countable TxLegacy :=
  inj_countable' (fun t => (lg_chain_id t, lg_nonce t, lg_gas_price t, lg_gas_limit t, lg_to t, lg_value t, lg_input t))
    (fun '(c, n, p, g, to, v, i) => mkTxLegacy c n p g to v i) ltac:(by intros []).
#[local] Instance eip2930_eq : EqDecision TxEip2930.
Proof. unfold EqDecision, AccessList. solve_decision. Defined.
#[local] Instance eip2930_countable : Countable TxEip2930 :=
  inj_countable' (fun t => (al_chain_id t, al_nonce t, al_gas_price t, al_gas_limit t, al_to t, al_value t, al_input t,
                            (al_access_list t : list (Z * list Z))))
    (fun '(c, n, p, g, to, v, i, a) => mkTxEip2930 c n p g to v i a) ltac:(by intros []).
#[local] Instance eip1559_eq : EqDecision TxEip1559.
Proof. solve_decision. Defined.
#[local] Instance eip1559_countable : Countable TxEip1559 :=
  inj_countable' (fun t => (df_chain_id t, df_nonce t, df_max_fee_per_gas t, df_max_priority_fee_per_gas t, df_gas_limit t,
                            df_to t, df_value t, df_input t, (df_access_list t : list (Z * list Z))))
    (fun '(c, n, f, p, g, to, v, i, a) => mkTxEip1559 c n f p g to v i a) ltac:(by intros []).
#[local] Instance eip7702_eq : EqDecision TxEip7702.
Proof. solve_decision. Defined.
#[local] Instance eip7702_countable : Countable TxEip7702 :=
  inj_countable' (fun t => (sc_chain_id t, sc_nonce t, sc_max_fee_per_gas t, sc_max_priority_fee_per_gas t, sc_gas_limit t,
                            sc_to t, sc_value t, sc_input t, (sc_access_list t : list (Z * list Z)), sc_authorization_list t))
    (fun '(c, n, f, p, g, to, v, i, a, l) => mkTxEip7702 c n f p g to v i a l) ltac:(by intros []).

(** An envelope without its hash, as data. *)
Definition env_data (e : TxEnvelope) :
    (TxLegacy * Signature) + ((TxEip2930 * Signature) + ((TxEip1559 * Signature) + (list Z + (TxEip7702 * Signature)))) :=
  match e with
  | EnvLegacy s => inl (signed_tx s, signature s)
  | EnvEip2930 s => inr (inl (signed_tx s, signature s))
  | EnvEip1559 s => inr (inr (inl (signed_tx s, signature s)))
  | EnvEip4844 b => inr (inr (inr (inl b)))
  | EnvEip7702 s => inr (inr (inr (inr (signed_tx s, signature s))))
  end.
Definition data_env d : TxEnvelope :=
  match d with
  | inl (t, s) => EnvLegacy (mkSigned t s 0)
  | inr (inl (t, s)) => EnvEip2930 (mkSigned t s 0)
  | inr (inr (inl (t, s))) => EnvEip1559 (mkSigned t s 0)
  | inr (inr (inr (inl b))) => EnvEip4844 b
  | inr (inr (inr (inr (t, s)))) => EnvEip7702 (mkSigned t s 0)
  end.

(** A list header of one symbol, then the structure as one symbol. *)
Definition list_codec {A} `{Countable A} : codec A :=
  mkCodec (fun a => [200; Z.pos (encode a)]) (fun _ => 2)
    (fun buf => match buf with
                | h :: z :: rest => a ← decode (Z.to_pos z); Some (a, rest)
                | _ => None
                end).
#[local] Instance legacy_data_eq : EqDecision SpanBatchLegacyTransactionData.
Proof. solve_decision. Defined.
#[local] Instance legacy_data_countable : Countable SpanBatchLegacyTransactionData :=
  inj_countable' (fun d => (lgd_value d, lgd_gas_price d, lgd_data d)) (fun '(v, p, i) => mkLegacyData v p i) ltac:(by intros []).
#[local] Instance eip2930_data_eq : EqDecision SpanBatchEip2930TransactionData.
Proof. solve_decision. Defined.
#[local] Instance eip2930_data_countable : Countable SpanBatchEip2930TransactionData :=
  inj_countable' (fun d => (ald_value d, ald_gas_price d, ald_data d, (ald_access_list d : list (Z * list Z))))
    (fun '(v, p, i, a) => mkEip2930Data v p i a) ltac:(by intros []).
#[local] Instance eip1559_data_eq : EqDecision SpanBatchEip1559TransactionData.
Proof. solve_decision. Defined.
#[local] Instance eip1559_data_countable : Countable SpanBatchEip1559TransactionData :=
  inj_countable' (fun d => (dfd_value d, dfd_max_priority_fee_per_gas d, dfd_max_fee_per_gas d, dfd_data d,
                            (dfd_access_list d : list (Z * list Z))))
    (fun '(v, p, f, i, a) => mkEip1559Data v p f i a) ltac:(by intros []).
#[local] Instance eip7702_data_eq : EqDecision SpanBatchEip7702TransactionData.
Proof. solve_decision. Defined.
#[local] Instance eip7702_data_countable : Countable SpanBatchEip7702TransactionData :=
  inj_countable' (fun d => (scd_value d, scd_max_priority_fee_per_gas d, scd_max_fee_per_gas d, scd_data d,
                            (scd_access_list d : list (Z * list Z)), scd_authorization_list d))
    (fun '(v, p, f, i, a, l) => mkEip7702Data v p f i a l) ltac:(by intros []).

Definition type_u8 (ty : TxType) : Z :=
  match ty with Legacy => 0 | Eip2930 => 1 | Eip1559 => 2 | Eip4844 => 3 | Eip7702 => 4 end.

#[local] Instance codecs : SpanTxCodecs := {|
  uvarint := mkCodec (fun v => [v]) (fun _ => 1)
               (fun buf => match buf with
                           | v :: rest => if (0 <=? v) && (v <=? U64_MAX) then Some (v, rest) else None
                           | [] => None
                           end);
  header_decode := fun buf => match buf with h :: rest => Some ((true, 1), rest) | [] => None end;
  header_length := fun _ => 1;
  legacy_data_codec := list_codec;
  eip2930_data_codec := list_codec;
  eip1559_data_codec := list_codec;
  eip7702_data_codec := list_codec;
  tx_type_u8 := type_u8;
  tx_type_try_from := fun b => find (fun ty => type_u8 ty =? b) [Legacy; Eip2930; Eip1559; Eip4844; Eip7702];
  legacy_signature_hash := fun _ => 1;
  eip2930_signature_hash := fun _ => 1;
  eip1559_signature_hash := fun _ => 1;
  eip7702_signature_hash := fun _ => 1;
  envelope_decode := fun buf => match buf with [z] => data_env <$> decode (Z.to_pos z) | _ => None end;
  envelope_encode_2718 := fun e => [Z.pos (encode (env_data e))];
  is_replay_protected := fun e => match envelope_fields e with Some (_, _, _, _, None) => false | _ => true end;
|}.

Lemma list_codec_ok {A} `{Countable A} (P : A -> Prop) : rlp_list_ok P (list_codec (A := A)).
Proof.
  split.
  - intros a _. split; [done|]. intros rest. cbn. by rewrite decode_encode.
  - intros a _. split; [by eexists _, _|]. intros rest. by eexists 1, _.
Qed.

#[local] Instance laws : SpanTxLaws.
Proof.
  split; try apply list_codec_ok.
  - intros v [Hlo Hhi]. split; [done|]. intros rest. cbn. by rewrite (proj2 (Z.leb_le _ _) Hlo), (proj2 (Z.leb_le _ _) Hhi).
  - done.
  - by intros [].
  - by intros [].
  - intros e. cbn. by destruct (envelope_fields e) as [[[[[] ?] ?] []]|].
  - by intros [].
  - intros c e _. cbn. rewrite decode_encode. eexists. split; [reflexivity|]. by destruct e.
Qed.

#[local] Instance uvarint_laws : UvarintLaws.
Proof.
  split. intros r v r' Hd. destruct r as [|z r]; [done|]. cbn in Hd. destruct (_ && _) eqn:E; [|done].
  apply andb_true_iff in E as [Hlo%Z.leb_le Hhi%Z.leb_le]. simplify_eq. split; [done|]. by exists [v].
Qed.
#[local] Instance single : SingleCodec := {| single_codec := mkCodec (fun _ => []) (fun _ => 0) (fun _ => None) |}.

(** Two blocks of one L1 origin and the next: a protected transfer, then a creation. *)
Definition cfg : RollupConfig := RollupExample.all_forks.
Definition sg : Signature := mkSignature 11 12 true.
Definition transfer : TxEnvelope := EnvLegacy (mkSigned (mkTxLegacy (Some 8453) 3 9 21000 (Some 77) 5 [1; 2]) sg 99).
Definition creation : TxEnvelope := EnvEip1559 (mkSigned (mkTxEip1559 8453 4 9 1 90000 None 0 [3] []) sg 98).
Definition envs : list (list TxEnvelope) := [[transfer]; [creation; transfer]].
Definition block (k : Z) (es : list TxEnvelope) : SingleBatch :=
  mkSingleBatch (1000 + k) (7 + k) (2000 + k) (100 + 2 * k) (envelope_encode_2718 <$> es).
Definition blocks : list (SingleBatch * Z) := [(block 0 [transfer], 0); (block 1 [creation; transfer], 0)].

Lemma blocks_source : span_source cfg blocks.*1 envs.
Proof.
  assert (Ht : envelope_ok 8453 transfer) by (cbn; split_and!; try done; [repeat constructor; done|by left]).
  assert (Hc : envelope_ok 8453 creation) by (cbn; split_and!; try done; [repeat constructor; done|by left]).
  constructor; try done.
  - by repeat constructor.
  - by repeat constructor.
  - intros [|[|i]] a b Ha Hb; cbn in *; simplify_eq; lia.
  - by repeat constructor.
  - by repeat constructor.
  - exists 100. split_and!; try done. intros [|[|k]] b Hb; cbn in *; simplify_eq; by split.
Qed.

Lemma span_roundtrip_witness : exists s bytes,
  append_all blocks (new_span (l2_time (genesis cfg)) (l2_chain_id cfg)) = (Ok tt, s) /\
  span_encode s = Ok bytes /\ forall rest, batch_decode cfg (bytes ++ rest) = Ok (Span (span_of blocks.*1)).
Proof. exact (span_roundtrip cfg blocks envs blocks_source). Defined.

(** A span batch of one empty block, in the symbols of the instance. *)
Definition one_block : list Z := [SPAN; 4; 7] ++ replicate 40 0 ++ [1; 1; 0].

Lemma batch_decode_total_witness : exists s, batch_decode cfg one_block = Ok (Span s) /\ span_shape (block_time cfg) s.
Proof.
  exists (mkSpanBatch 0 0 [mkSpanBatchElement 7 4 []]).
  assert (Hd : batch_decode cfg one_block = Ok (Span (mkSpanBatch 0 0 [mkSpanBatchElement 7 4 []]))) by (vm_compute; reflexivity).
  split; [exact Hd|]. refine (proj2 (batch_decode_total cfg one_block _) _ Hd). by_eval.
Defined.
End SpanExample.
