(* ===== verification/BatchStages.v ===== *)
(** The batch stages of the derivation pipeline
    ([crates/consensus/derive/src/stages/batch]): the batch stream, which splits
    span batches from Holocene on, the batch queue used before Holocene, the batch
    validator used from Holocene on, and the multiplexer that switches between
    them. Metrics and logs are left out. *)

From S2P Require Import Prelude Buffer Rollup SystemConfig Pipeline Channel L1Info SpanBits Batches.

(** * Traits *)

Class NextBatchProvider (P : Type) := {
  next_batch_for : L2BlockInfo -> list BlockInfo -> act P Batch;
  span_buffer_size : P -> Z;
  flush : P -> P;
}.
Class BatchStreamProvider (P : Type) := {
  next_batch : act P Batch;
  stream_flush : P -> P;
}.
Class AttributesProvider (P : Type) := {
  next_single_batch : L2BlockInfo -> act P SingleBatch;
  is_last_in_span : P -> bool;
}.

(** [next_batch.parent_hash = parent.block_info.hash] *)
Definition with_parent (parent : L2BlockInfo) (b : SingleBatch) : SingleBatch :=
  mkSingleBatch (hash (block_info parent)) (epoch_num b) (epoch_hash b) (sb_timestamp b) (transactions b).

(** * The batch stream *)

Record BatchStream (P F : Type) : Type := mkBatchStream {
  bs_prev : P;
  span : option SpanBatch;
  buffer : list SingleBatch;
  bs_config : RollupConfig;
  bs_fetcher : F;
}.
Arguments mkBatchStream {P F}.
Arguments bs_prev {P F}.
Arguments span {P F}.
Arguments buffer {P F}.
Arguments bs_config {P F}.
Arguments bs_fetcher {P F}.

Definition new_stream {P F} (prev : P) (config : RollupConfig) (fetcher : F) : BatchStream P F :=
  mkBatchStream prev None [] config fetcher.

Section stream.
Context {P F : Type} `{BatchStreamProvider P, OriginProvider P, OriginAdvancer P, StageReset P, BatchValidationProvider F}.

Definition set_bs_prev (p : P) (s : BatchStream P F) : BatchStream P F :=
  mkBatchStream p (span s) (buffer s) (bs_config s) (bs_fetcher s).
Definition set_span (o : option SpanBatch) (s : BatchStream P F) : BatchStream P F :=
  mkBatchStream (bs_prev s) o (buffer s) (bs_config s) (bs_fetcher s).
Definition set_buffer (l : list SingleBatch) (s : BatchStream P F) : BatchStream P F :=
  mkBatchStream (bs_prev s) (span s) l (bs_config s) (bs_fetcher s).
Definition set_bs_fetcher (f : F) (s : BatchStream P F) : BatchStream P F :=
  mkBatchStream (bs_prev s) (span s) (buffer s) (bs_config s) f.

(** [BatchStream::is_active] *)
Definition stream_active : act (BatchStream P F) bool :=
  o ← gets (fun s => origin (bs_prev s));
  og ← ok_or o (crit MissingOrigin);
  gets (fun s => is_holocene_active (bs_config s) (timestamp og)).

Definition try_hydrate_buffer (parent : L2BlockInfo) (l1_origins : list BlockInfo) : stm (BatchStream P F) SpanBatchError unit := fun s =>
  match span s with
  | None => (Ok tt, s)
  | Some sp =>
      match get_singular_batches sp l1_origins parent with
      | Ok bs => (Ok tt, set_buffer (buffer s ++ bs) (set_span None s))
      | Err e => (Err e, set_span None s)
      end
  end.
Definition get_single_batch (parent : L2BlockInfo) (l1_origins : list BlockInfo) :
    stm (BatchStream P F) SpanBatchError (option SingleBatch) :=
  try_hydrate_buffer parent l1_origins ;;
  l ← gets buffer;
  match l with
  | [] => mret None
  | b :: l => modify (set_buffer l) ;; mret (Some b)
  end.

(** [flush] of [BatchStream] *)
Definition batch_stream_flush (s : BatchStream P F) : BatchStream P F :=
  match (stream_active s).1 with
  | Ok true => set_buffer [] (set_span None (set_bs_prev (stream_flush (bs_prev s)) s))
  | _ => s
  end.

(** A span batch from the previous stage: kept if its prefix is accepted. *)
Definition stream_load_span (inclusion_block : BlockInfo) (sp : SpanBatch) (parent : L2BlockInfo) (l1_origins : list BlockInfo) :
    act (BatchStream P F) unit :=
  cfg ← gets bs_config;
  v ← zoom bs_fetcher set_bs_fetcher (check_batch_prefix cfg parent inclusion_block sp l1_origins);
  match verdict_of v return act (BatchStream P F) unit with
  | Accept => modify (set_span (Some sp))
  | Drop _ => modify batch_stream_flush ;; temp NotEnoughData
  | Past =>
      active ← stream_active;
      if negb active then crit InvalidBatchValidity else temp NotEnoughData
  | Undecided | Future => temp NotEnoughData
  end.

(** A single batch out of the buffer. *)
Definition stream_pop (parent : L2BlockInfo) (l1_origins : list BlockInfo) : act (BatchStream P F) Batch := fun s =>
  match get_single_batch parent l1_origins s with
  | (Ok (Some b), s) => (Ok (Single b), s)
  | (Ok None, s) => temp NotEnoughData s
  | (Err _, s) => temp NotEnoughData (batch_stream_flush s)
  end.

(** [BatchStream::next_batch] *)
Definition stream_next_batch (parent : L2BlockInfo) (l1_origins : list BlockInfo) : act (BatchStream P F) Batch :=
  active ← stream_active;
  if negb active then zoom bs_prev set_bs_prev next_batch
  else
    l ← gets buffer;
    match l return act (BatchStream P F) Batch with
    | _ :: _ => stream_pop parent l1_origins
    | [] =>
        o ← gets (fun s => origin (bs_prev s));
        og ← ok_or o (crit MissingOrigin);
        b ← zoom bs_prev set_bs_prev next_batch;
        match b return act (BatchStream P F) Batch with
        | Single sb => mret (Single sb)
        | Span sp => stream_load_span og sp parent l1_origins ;; stream_pop parent l1_origins
        end
    end.

Definition stream_clear (s : BatchStream P F) : BatchStream P F := set_span None (set_buffer [] s).

#[export] Instance stream_batches : NextBatchProvider (BatchStream P F) :=
  {| next_batch_for := stream_next_batch; span_buffer_size s := zlen (buffer s); flush := batch_stream_flush |}.
#[export] Instance stream_origin : OriginProvider (BatchStream P F) := {| origin s := origin (bs_prev s) |}.
#[export] Instance stream_advancer : OriginAdvancer (BatchStream P F) :=
  {| advance_origin := zoom bs_prev set_bs_prev advance_origin |}.
#[export] Instance stream_stage_reset : StageReset (BatchStream P F) :=
  {| reset o c := zoom bs_prev set_bs_prev (reset o c) ;; modify stream_clear;
     activate := zoom bs_prev set_bs_prev activate ;; modify stream_clear;
     flush_channel := zoom bs_prev set_bs_prev flush_channel ;; modify stream_clear |}.
End stream.

(** * What the queue and the validator share *)

(** The origin of the previous stage is before the origin of the parent. *)
Definition behind (prev_origin : option BlockInfo) (parent : L2BlockInfo) : bool :=
  match prev_origin with None => true | Some o => block_number o <? num (l1_origin parent) end.

(** The L1 blocks before the origin of the parent are dropped if that origin is known. *)
Definition advance_epoch (parent : L2BlockInfo) (l1_blocks : list BlockInfo) : list BlockInfo :=
  match l1_blocks with
  | [] => []
  | epoch :: _ =>
      if num (l1_origin parent) >? block_number epoch then
        match list_find (fun b => num (l1_origin parent) = block_number b) l1_blocks with
        | Some (i, _) => drop i l1_blocks
        | None => l1_blocks
        end
      else l1_blocks
  end.

(** The empty batch for an epoch. *)
Definition empty_batch (cfg : RollupConfig) (parent : L2BlockInfo) (epoch : BlockInfo) : SingleBatch :=
  mkSingleBatch (hash (block_info parent)) (block_number epoch) (hash epoch) (next_time cfg parent) [].

(** * The batch validator *)

Record BatchValidator (P : Type) : Type := mkBatchValidator {
  bv_cfg : RollupConfig;
  bv_prev : P;
  bv_origin : option BlockInfo;
  bv_l1_blocks : list BlockInfo;
}.
Arguments mkBatchValidator {P}.
Arguments bv_cfg {P}.
Arguments bv_prev {P}.
Arguments bv_origin {P}.
Arguments bv_l1_blocks {P}.

Definition new_validator {P} (cfg : RollupConfig) (prev : P) : BatchValidator P := mkBatchValidator cfg prev None [].

Section validator.
Context {P : Type} `{NextBatchProvider P, OriginProvider P, OriginAdvancer P, StageReset P}.

Definition set_bv_prev (p : P) (s : BatchValidator P) : BatchValidator P :=
  mkBatchValidator (bv_cfg s) p (bv_origin s) (bv_l1_blocks s).
Definition set_bv_origin (o : option BlockInfo) (s : BatchValidator P) : BatchValidator P :=
  mkBatchValidator (bv_cfg s) (bv_prev s) o (bv_l1_blocks s).
Definition set_bv_l1_blocks (l : list BlockInfo) (s : BatchValidator P) : BatchValidator P :=
  mkBatchValidator (bv_cfg s) (bv_prev s) (bv_origin s) l.

Definition origin_behind (parent : L2BlockInfo) (s : BatchValidator P) : bool := behind (origin (bv_prev s)) parent.

Definition update_origins (parent : L2BlockInfo) : act (BatchValidator P) unit :=
  s ← gets id;
  let o := origin (bv_prev s) in
  (if negb (bool_decide (bv_origin s = o)) then
     modify (set_bv_origin o) ;;
     if negb (origin_behind parent s)
     then og ← ok_or o (crit MissingOrigin); modify (fun s => set_bv_l1_blocks (bv_l1_blocks s ++ [og]) s)
     else modify (set_bv_l1_blocks [])
   else mret tt) ;;
  modify (fun s => set_bv_l1_blocks (advance_epoch parent (bv_l1_blocks s)) s).

Definition try_derive_empty_batch (parent : L2BlockInfo) : act (BatchValidator P) SingleBatch :=
  s ← gets id;
  epoch ← lift (byte_at (bv_l1_blocks s) 0);
  stage_origin ← ok_or (bv_origin s) (crit MissingOrigin);
  let expiry_epoch := add64 (block_number epoch) (seq_window_size (bv_cfg s)) in
  let force_empty_batches := expiry_epoch <=? block_number stage_origin in
  let first_of_epoch := block_number epoch =? add64 (num (l1_origin parent)) 1 in
  if negb force_empty_batches then temp Eof
  else match bv_l1_blocks s with
       | _ :: next_epoch :: _ =>
           if (next_time (bv_cfg s) parent <? timestamp next_epoch) || first_of_epoch
           then mret (empty_batch (bv_cfg s) parent epoch)
           else modify (fun s => set_bv_l1_blocks (tail (bv_l1_blocks s)) s) ;; temp Eof
       | _ => temp Eof
       end.

(** A batch from the previous stage is checked before it is forwarded. *)
Definition validate_batch (parent : L2BlockInfo) (stage_origin : BlockInfo) (b : Batch) : act (BatchValidator P) SingleBatch :=
  match b with
  | Span _ => crit InvalidBatchType
  | Single b =>
      let b := with_parent parent b in
      s ← gets id;
      match check_single (bv_cfg s) parent stage_origin (bv_l1_blocks s) b return act (BatchValidator P) SingleBatch with
      | Accept => mret b
      | Past | Undecided => temp NotEnoughData
      | Drop _ => modify (fun s => set_bv_prev (flush (bv_prev s)) s) ;; temp NotEnoughData
      | Future => crit InvalidBatchValidity
      end
  end.

(** [BatchValidator::next_batch] *)
Definition validator_next_batch (parent : L2BlockInfo) : act (BatchValidator P) SingleBatch :=
  update_origins parent ;;
  s ← gets id;
  stage_origin ← ok_or (bv_origin s) (crit MissingOrigin);
  if origin_behind parent s || (num (l1_origin parent) =? block_number stage_origin)
  then zoom bv_prev set_bv_prev (next_batch_for parent (bv_l1_blocks s)) ;; temp NotEnoughData
  else match bv_l1_blocks s with
       | epoch :: _ :: _ =>
           if negb (bool_decide (l1_origin parent = block_id epoch)) &&
              negb (add64 (num (l1_origin parent)) 1 =? block_number epoch)
           then reset_with (L1OriginMismatch (num (l1_origin parent)) (sat_sub (block_number epoch) 1))
           else
             r ← try_run (zoom bv_prev set_bv_prev (next_batch_for parent (bv_l1_blocks s)));
             match r return act (BatchValidator P) SingleBatch with
             | Ok b => validate_batch parent stage_origin b
             | Err (Fail (Temporary Eof)) => try_derive_empty_batch parent
             | Err e => throw e
             end
       | _ => crit MissingOrigin
       end.

Definition validator_reset (l1_origin : BlockNumHash) (sc : SystemConfig) : act (BatchValidator P) unit :=
  zoom bv_prev set_bv_prev (reset l1_origin sc) ;;
  modify (fun s => let o := origin (bv_prev s) in
                   mkBatchValidator (bv_cfg s) (bv_prev s) o (match o with Some og => [og] | None => [] end)).

#[export] Instance validator_batches : AttributesProvider (BatchValidator P) :=
  {| next_single_batch := validator_next_batch; is_last_in_span s := span_buffer_size (bv_prev s) =? 0 |}.
#[export] Instance validator_origin : OriginProvider (BatchValidator P) := {| origin s := origin (bv_prev s) |}.
#[export] Instance validator_advancer : OriginAdvancer (BatchValidator P) :=
  {| advance_origin := zoom bv_prev set_bv_prev advance_origin |}.
#[export] Instance validator_stage_reset : StageReset (BatchValidator P) :=
  {| reset := validator_reset; activate := zoom bv_prev set_bv_prev activate;
     flush_channel := zoom bv_prev set_bv_prev flush_channel |}.
End validator.

(** * The batch queue *)

Record BatchQueue (P F : Type) : Type := mkBatchQueue {
  bq_cfg : RollupConfig;
  bq_prev : P;
  bq_origin : option BlockInfo;
  bq_l1_blocks : list BlockInfo;
  bq_batches : list BatchWithInclusionBlock;
  next_spans : list SingleBatch;
  bq_fetcher : F;
}.
Arguments mkBatchQueue {P F}.
Arguments bq_cfg {P F}.
Arguments bq_prev {P F}.
Arguments bq_origin {P F}.
Arguments bq_l1_blocks {P F}.
Arguments bq_batches {P F}.
Arguments next_spans {P F}.
Arguments bq_fetcher {P F}.

Definition new_queue {P F} (cfg : RollupConfig) (prev : P) (fetcher : F) : BatchQueue P F :=
  mkBatchQueue cfg prev None [] [] [] fetcher.

Section queue.
Context {P F : Type} `{NextBatchProvider P, OriginProvider P, OriginAdvancer P, StageReset P, BatchValidationProvider F}.

Definition set_bq_prev (p : P) (s : BatchQueue P F) : BatchQueue P F :=
  mkBatchQueue (bq_cfg s) p (bq_origin s) (bq_l1_blocks s) (bq_batches s) (next_spans s) (bq_fetcher s).
Definition set_bq_origin (o : option BlockInfo) (s : BatchQueue P F) : BatchQueue P F :=
  mkBatchQueue (bq_cfg s) (bq_prev s) o (bq_l1_blocks s) (bq_batches s) (next_spans s) (bq_fetcher s).
Definition set_bq_l1_blocks (l : list BlockInfo) (s : BatchQueue P F) : BatchQueue P F :=
  mkBatchQueue (bq_cfg s) (bq_prev s) (bq_origin s) l (bq_batches s) (next_spans s) (bq_fetcher s).
Definition set_bq_batches (l : list BatchWithInclusionBlock) (s : BatchQueue P F) : BatchQueue P F :=
  mkBatchQueue (bq_cfg s) (bq_prev s) (bq_origin s) (bq_l1_blocks s) l (next_spans s) (bq_fetcher s).
Definition set_next_spans (l : list SingleBatch) (s : BatchQueue P F) : BatchQueue P F :=
  mkBatchQueue (bq_cfg s) (bq_prev s) (bq_origin s) (bq_l1_blocks s) (bq_batches s) l (bq_fetcher s).
Definition set_bq_fetcher (f : F) (s : BatchQueue P F) : BatchQueue P F :=
  mkBatchQueue (bq_cfg s) (bq_prev s) (bq_origin s) (bq_l1_blocks s) (bq_batches s) (next_spans s) f.
Definition flush_prev : act (BatchQueue P F) unit := modify (fun s => set_bq_prev (flush (bq_prev s)) s).

(** The verdict on a batch for the L1 blocks of the queue. *)
Definition queue_check (parent : L2BlockInfo) (b : BatchWithInclusionBlock) : act (BatchQueue P F) BatchValidity :=
  s ← gets id; zoom bq_fetcher set_bq_fetcher (check_batch (bq_cfg s) (bq_l1_blocks s) parent b).

(** [pop_next_batch] panics if nothing is cached. *)
Definition pop_next_batch (parent : L2BlockInfo) : act (BatchQueue P F) SingleBatch :=
  l ← gets next_spans;
  match l with
  | [] => throw Panic
  | b :: l => modify (set_next_spans l) ;; mret (with_parent parent b)
  end.

(** The loop of [derive_next_batch] over the buffered batches: the first accepted one,
    with what remains. *)
Fixpoint scan_batches (parent : L2BlockInfo) (og : BlockInfo) (bs remaining : list BatchWithInclusionBlock) :
    act (BatchQueue P F) (option Batch) :=
  match bs with
  | [] => modify (set_bq_batches remaining) ;; mret None
  | b :: bs =>
      validity ← queue_check parent b;
      s ← gets id;
      match validity return act (BatchQueue P F) (option Batch) with
      | Future =>
          if negb (is_holocene_active (bq_cfg s) (timestamp og))
          then scan_batches parent og bs (remaining ++ [b])
          else flush_prev ;; scan_batches parent og bs remaining
      | Drop _ => flush_prev ;; scan_batches parent og bs remaining
      | Accept => modify (set_bq_batches (remaining ++ bs)) ;; mret (Some (batch b))
      | Undecided => modify (set_bq_batches (remaining ++ b :: bs)) ;; temp Eof
      | Past =>
          if negb (is_holocene_active (bq_cfg s) (timestamp og)) then crit InvalidBatchValidity
          else scan_batches parent og bs remaining
      end
  end.

(** An empty batch once the sequencing window of the epoch is over. *)
Definition queue_force_empty (empty : bool) (parent : L2BlockInfo) (epoch og : BlockInfo) : act (BatchQueue P F) Batch :=
  s ← gets id;
  let expiry_epoch := add64 (block_number epoch) (seq_window_size (bq_cfg s)) in
  let force_empty_batches := (expiry_epoch =? block_number og) && empty || (expiry_epoch <? block_number og) in
  let first_of_epoch := block_number epoch =? add64 (num (l1_origin parent)) 1 in
  if negb force_empty_batches then temp Eof
  else match bq_l1_blocks s with
       | _ :: next_epoch :: _ =>
           if (next_time (bq_cfg s) parent <? timestamp next_epoch) || first_of_epoch
           then mret (Single (empty_batch (bq_cfg s) parent epoch))
           else modify (fun s => set_bq_l1_blocks (tail (bq_l1_blocks s)) s) ;; temp Eof
       | _ => temp Eof
       end.

Definition derive_next_batch (empty : bool) (parent : L2BlockInfo) : act (BatchQueue P F) Batch :=
  s ← gets id;
  match bq_l1_blocks s with
  | [] => crit MissingOrigin
  | epoch :: _ =>
      let previous_epoch := if block_number epoch =? 0 then None else Some (block_number epoch - 1) in
      if negb (bool_decide (l1_origin parent = block_id epoch)) &&
         match previous_epoch with None => true | Some n => negb (num (l1_origin parent) =? n) end
      then reset_with (L1OriginMismatch (num (l1_origin parent)) (default (block_number epoch) previous_epoch))
      else
        og ← ok_or (bq_origin s) (crit MissingOrigin);
        nb ← scan_batches parent og (bq_batches s) [];
        match nb return act (BatchQueue P F) Batch with
        | Some b => mret b
        | None => queue_force_empty empty parent epoch og
        end
  end.

Definition add_batch (b : Batch) (parent : L2BlockInfo) : act (BatchQueue P F) unit :=
  s ← gets id;
  match bq_l1_blocks s with
  | [] => throw Panic
  | _ :: _ =>
      og ← ok_or (bq_origin s) (crit MissingOrigin);
      let data := mkBatchWithInclusionBlock og b in
      validity ← queue_check parent data;
      if is_drop validity || (is_holocene_active (bq_cfg s) (timestamp og) && is_future validity) then flush_prev
      else if is_outdated validity then mret tt
      else modify (fun s => set_bq_batches (bq_batches s ++ [data]) s)
  end.

(** The origin of the stage follows that of the previous one. *)
Definition queue_update_origin (origin_behind : bool) : act (BatchQueue P F) unit :=
  s ← gets id;
  let o := origin (bq_prev s) in
  if negb (bool_decide (bq_origin s = o)) then
    modify (set_bq_origin o) ;;
    if negb origin_behind
    then og ← ok_or o (crit MissingOrigin); modify (fun s => set_bq_l1_blocks (bq_l1_blocks s ++ [og]) s)
    else modify (set_bq_l1_blocks [])
  else mret tt.

(** More data from the previous stage; whether it is out of data. *)
Definition queue_load (origin_behind : bool) (parent : L2BlockInfo) : act (BatchQueue P F) bool :=
  s ← gets id;
  r ← try_run (zoom bq_prev set_bq_prev (next_batch_for parent (bq_l1_blocks s)));
  match r return act (BatchQueue P F) bool with
  | Ok b =>
      if negb origin_behind then
        r ← try_run (add_batch b parent);
        match r return act (BatchQueue P F) bool with
        | Ok _ | Err (Fail _) => mret false
        | Err e => throw e
        end
      else mret false
  | Err (Fail (Temporary Eof)) => mret true
  | Err e => throw e
  end.

(** The batches of an accepted span batch are cached, the first one returned. *)
Definition queue_emit (parent : L2BlockInfo) (b : Batch) : act (BatchQueue P F) SingleBatch :=
  match b with
  | Single sb => mret sb
  | Span sp =>
      l1_blocks ← gets bq_l1_blocks;
      match get_singular_batches sp l1_blocks parent return act (BatchQueue P F) SingleBatch with
      | Err _ => crit BadEncoding
      | Ok bs => modify (set_next_spans bs) ;; pop_next_batch parent
      end
  end.

(** [BatchQueue::next_batch] once nothing is cached. *)
Definition queue_derive (parent : L2BlockInfo) : act (BatchQueue P F) SingleBatch :=
  modify (fun s => set_bq_l1_blocks (advance_epoch parent (bq_l1_blocks s)) s) ;;
  origin_behind ← gets (fun s => behind (origin (bq_prev s)) parent);
  queue_update_origin origin_behind ;;
  out_of_data ← queue_load origin_behind parent;
  if (origin_behind : bool) then (if (out_of_data : bool) then temp Eof else temp NotEnoughData)
  else
    r ← try_run (derive_next_batch out_of_data parent);
    match r return act (BatchQueue P F) SingleBatch with
    | Ok b => queue_emit parent b
    | Err (Fail (Temporary Eof)) => if (out_of_data : bool) then temp Eof else temp NotEnoughData
    | Err e => throw e
    end.

(** [BatchQueue::next_batch] *)
Definition queue_next_batch (parent : L2BlockInfo) : act (BatchQueue P F) SingleBatch :=
  s ← gets id;
  match next_spans s with
  | b :: _ =>
      if sb_timestamp b =? next_time (bq_cfg s) parent then pop_next_batch parent
      else modify (set_next_spans []) ;; queue_derive parent
  | [] => queue_derive parent
  end.

Definition batch_queue_reset (l1_origin : BlockNumHash) (sc : SystemConfig) : act (BatchQueue P F) unit :=
  zoom bq_prev set_bq_prev (reset l1_origin sc) ;;
  modify (fun s => let o := origin (bq_prev s) in
    mkBatchQueue (bq_cfg s) (bq_prev s) o (match o with Some og => [og] | None => [] end) [] [] (bq_fetcher s)).
Definition queue_clear (s : BatchQueue P F) : BatchQueue P F := set_next_spans [] (set_bq_batches [] s).

#[export] Instance queue_batches : AttributesProvider (BatchQueue P F) :=
  {| next_single_batch := queue_next_batch; is_last_in_span s := bool_decide (next_spans s = []) |}.
#[export] Instance queue_origin : OriginProvider (BatchQueue P F) := {| origin s := origin (bq_prev s) |}.
#[export] Instance queue_advancer : OriginAdvancer (BatchQueue P F) :=
  {| advance_origin := zoom bq_prev set_bq_prev advance_origin |}.
#[export] Instance queue_stage_reset : StageReset (BatchQueue P F) :=
  {| reset := batch_queue_reset; activate := zoom bq_prev set_bq_prev activate ;; modify queue_clear;
     flush_channel := zoom bq_prev set_bq_prev flush_channel ;; modify queue_clear |}.
End queue.

(** * The multiplexer *)

Record BatchProvider (P F : Type) : Type := mkBatchProvider {
  bp_cfg : RollupConfig;
  bp_provider : F;
  bp_prev : option P;
  batch_queue : option (BatchQueue P F);
  batch_validator : option (BatchValidator P);
}.
Arguments mkBatchProvider {P F}.
Arguments bp_cfg {P F}.
Arguments bp_provider {P F}.
Arguments bp_prev {P F}.
Arguments batch_queue {P F}.
Arguments batch_validator {P F}.

Definition new_batch_provider {P F} (cfg : RollupConfig) (prev : P) (provider : F) : BatchProvider P F :=
  mkBatchProvider cfg provider (Some prev) None None.

Section provider.
Context {P F : Type} `{NextBatchProvider P, OriginProvider P, OriginAdvancer P, StageReset P, BatchValidationProvider F}.

(** [BatchProvider::origin] *)
Definition batch_provider_origin (s : BatchProvider P F) : option BlockInfo :=
  match batch_validator s with
  | Some v => origin v
  | None =>
      match batch_queue s with
      | Some q => origin q
      | None => p ← bp_prev s; origin p
      end
  end.

(** [BatchProvider::attempt_update]; the origin of the stage is kept on the way to the
    validator only. *)
Definition batch_attempt_update : act (BatchProvider P F) unit := fun s =>
  let cfg := bp_cfg s in
  match batch_provider_origin s with
  | None => crit MissingOrigin s
  | Some og =>
      let holocene := is_holocene_active cfg (timestamp og) in
      let to_queue (v : BatchValidator P) :=
        mkBatchProvider cfg (bp_provider s) None
          (Some (set_bq_l1_blocks (bv_l1_blocks v) (new_queue cfg (bv_prev v) (bp_provider s)))) None in
      (Ok tt,
       match bp_prev s with
       | Some prev =>
           if holocene then mkBatchProvider cfg (bp_provider s) None (batch_queue s) (Some (new_validator cfg prev))
           else mkBatchProvider cfg (bp_provider s) None (Some (new_queue cfg prev (bp_provider s))) (batch_validator s)
       | None =>
           match batch_queue s, batch_validator s with
           | Some q, v =>
               if holocene
               then mkBatchProvider cfg (bp_provider s) None None
                      (Some (mkBatchValidator cfg (bq_prev q) (bq_origin q) (bq_l1_blocks q)))
               else match v with Some v => to_queue v | None => s end
           | None, Some v => if holocene then s else to_queue v
           | None, None => s
           end
       end)
  end.

(** The active stage runs an operation; the validator has precedence. *)
Definition run_batch_stage {A} (mv : act (BatchValidator P) A) (mq : act (BatchQueue P F) A) : act (BatchProvider P F) A := fun s =>
  match batch_validator s, batch_queue s with
  | Some v, q => let '(r, v) := mv v in (r, mkBatchProvider (bp_cfg s) (bp_provider s) (bp_prev s) q (Some v))
  | None, Some q => let '(r, q) := mq q in (r, mkBatchProvider (bp_cfg s) (bp_provider s) (bp_prev s) (Some q) None)
  | None, None => temp NotEnoughData s
  end.
Definition batch_delegate {A} (mv : act (BatchValidator P) A) (mq : act (BatchQueue P F) A) : act (BatchProvider P F) A :=
  batch_attempt_update ;; run_batch_stage mv mq.

#[export] Instance batch_provider_batches : AttributesProvider (BatchProvider P F) :=
  {| next_single_batch parent := batch_delegate (next_single_batch parent) (next_single_batch parent);
     is_last_in_span s :=
       match batch_validator s, batch_queue s with
       | Some v, _ => is_last_in_span v
       | None, Some q => is_last_in_span q
       | None, None => false
       end |}.
#[export] Instance batch_provider_origin_provider : OriginProvider (BatchProvider P F) := {| origin := batch_provider_origin |}.
#[export] Instance batch_provider_advancer : OriginAdvancer (BatchProvider P F) :=
  {| advance_origin := batch_delegate advance_origin advance_origin |}.
#[export] Instance batch_provider_stage_reset : StageReset (BatchProvider P F) :=
  {| reset o c := batch_delegate (reset o c) (reset o c); activate := batch_delegate activate activate;
     flush_channel := batch_delegate flush_channel flush_channel |}.
End provider.
