(* ===== verification/BatchSafety.v ===== *)
(** What the batch stages promise: the batches the validator returns extend the
    safe chain and keep L2 time at or after L1 time, and a sequencer that posts
    nothing cannot stop the chain. *)

From S2P Require Import Prelude Buffer Rollup SystemConfig Pipeline Channel L1Info Batches BatchStages.

(** * Laws of the stages below *)

(** Reading a batch or flushing leaves the origin alone. *)
Class NextBatchLaws (P : Type) `{NextBatchProvider P, OriginProvider P} := {
  next_batch_for_origin parent l1 p : origin (next_batch_for parent l1 p).2 = origin p;
  flush_origin p : origin (flush p) = origin p;
}.
Class BatchStreamLaws (P : Type) `{BatchStreamProvider P, OriginProvider P} := {
  next_batch_origin p : origin (next_batch p).2 = origin p;
  stream_flush_origin p : origin (stream_flush p) = origin p;
}.

Section stream_laws.
Context {P F : Type} `{BatchStreamLaws P, BatchValidationProvider F}.

(** An operation of the stream leaves the origin of the previous stage alone. *)
Definition keeps {A} (m : act (BatchStream P F) A) : Prop := forall s, origin (bs_prev (m s).2) = origin (bs_prev s).

Lemma keeps_ret {A} (a : A) : keeps (mret a).
Proof. done. Qed.
Lemma keeps_throw {A} e : keeps (throw e : act _ A).
Proof. done. Qed.
Lemma keeps_gets {A} (f : BatchStream P F -> A) : keeps (gets f).
Proof. done. Qed.
Lemma keeps_bind {A B} (m : act _ A) (f : A -> act _ B) : keeps m -> (forall a, keeps (f a)) -> keeps (m ≫= f).
Proof.
  intros Hm Hf s. unfold mbind, stm_bind. specialize (Hm s). destruct (m s) as [[a|e] s1]; [|done].
  by rewrite (Hf a s1).
Qed.
Lemma keeps_ok_or {A} (o : option A) e : keeps (ok_or o (throw e)).
Proof. by destruct o. Qed.
Lemma keeps_flush : keeps (modify batch_stream_flush).
Proof.
  intros s. cbn. unfold batch_stream_flush. repeat case_match; try done. cbn. apply stream_flush_origin.
Qed.
Lemma keeps_zoom {A} (m : act F A) : keeps (zoom bs_fetcher set_bs_fetcher m).
Proof. intros s. unfold zoom. by destruct (m (bs_fetcher s)). Qed.
Lemma keeps_next : keeps (zoom bs_prev set_bs_prev next_batch).
Proof.
  intros s. unfold zoom. pose proof (next_batch_origin (bs_prev s)) as Hn. by destruct (next_batch (bs_prev s)).
Qed.
Lemma keeps_pop parent l1 : keeps (stream_pop parent l1).
Proof.
  intros s. unfold stream_pop. destruct (get_single_batch parent l1 s) as [r s1] eqn:Hg.
  assert (origin (bs_prev s1) = origin (bs_prev s)) as Ho.
  { revert Hg. unfold get_single_batch, try_hydrate_buffer, mbind, stm_bind, gets, modify.
    destruct (span s) as [sp|]; [destruct (get_singular_batches _ _ _) as [l|e]|]; cbn.
    - destruct (buffer s ++ l); by intros [= <- <-].
    - by intros [= <- <-].
    - destruct (buffer s); by intros [= <- <-]. }
  destruct r as [[b|]|e]; cbn; try done. etrans; [apply (keeps_flush s1)|done].
Qed.
Create HintDb keeps.
#[local] Hint Resolve keeps_ret keeps_throw keeps_gets keeps_ok_or keeps_flush keeps_zoom keeps_next keeps_pop : keeps.
#[local] Ltac keeps_tac := repeat first [ solve [auto with keeps] | apply keeps_bind; [|intros ?] | case_match ].

Lemma keeps_modify_span o : keeps (modify (set_span o)).
Proof. done. Qed.
#[local] Hint Resolve keeps_modify_span : keeps.
Lemma keeps_stream_next parent l1 : keeps (stream_next_batch parent l1).
Proof. unfold stream_next_batch, stream_load_span, stream_active, temp, crit. keeps_tac. Qed.

(** The batch stream keeps the promise if the stage before it does. *)
#[export] Instance stream_laws : NextBatchLaws (BatchStream P F).
Proof.
  split; [intros parent l1 s; apply keeps_stream_next|intros s; apply (keeps_flush s)].
Qed.
End stream_laws.

(** * The invariant of the validator *)

(** The blocks of the L1 chain from a number on. *)
Definition seg (l1 : Z -> BlockInfo) (j n : Z) : list BlockInfo := l1 <$> seqZ j n.

Section seg.
Context (l1 : Z -> BlockInfo) (Hnum : forall n, block_number (l1 n) = n).

Lemma seg_cons j n : 0 < n -> seg l1 j n = l1 j :: seg l1 (j + 1) (n - 1).
Proof. intros Hn. unfold seg. rewrite seqZ_cons by done. cbn. by rewrite Z.add_1_r, Z.sub_1_r. Qed.
Lemma seg_nil j n : n <= 0 -> seg l1 j n = [].
Proof. intros Hn. unfold seg. by rewrite seqZ_nil. Qed.
Lemma seg_snoc j n : 0 <= n -> seg l1 j n ++ [l1 (j + n)] = seg l1 j (n + 1).
Proof. intros Hn. unfold seg. rewrite seqZ_app by lia. by rewrite fmap_app. Qed.
Lemma seg_lookup j n (i : nat) b : seg l1 j n !! i = Some b -> b = l1 (j + Z.of_nat i) /\ Z.of_nat i < n.
Proof.
  unfold seg. rewrite list_lookup_fmap. intros (x & Hx & ->)%fmap_Some. apply lookup_seqZ in Hx as [-> Hi]. by rewrite Z.add_comm.
Qed.
Lemma seg_drop j n i : 0 <= i <= n -> drop (Z.to_nat i) (seg l1 j n) = seg l1 (j + i) (n - i).
Proof.
  intros Hi. unfold seg. rewrite <- fmap_drop. f_equal. replace n with (i + (n - i)) at 1 by lia.
  rewrite seqZ_app by lia. rewrite drop_app_ge; rewrite length_seqZ; [|lia]. by rewrite Nat.sub_diag.
Qed.

Lemma advance_epoch_seg parent j n : let k := num (l1_origin parent) in
  0 <= n -> advance_epoch parent (seg l1 j n) = if decide (j < k < j + n) then seg l1 k (n - (k - j)) else seg l1 j n.
Proof.
  intros k Hn. destruct (decide (n = 0)) as [->|Hn0]; [rewrite decide_False by lia; by rewrite seg_nil|].
  unfold advance_epoch. fold k. rewrite (seg_cons j n) at 1 by lia. rewrite Hnum, Z.gtb_ltb.
  destruct (j <? k) eqn:Hj; [|by rewrite decide_False by lia].
  destruct (list_find _ _) as [[i b]|] eqn:Hf.
  - apply list_find_Some in Hf as (Hi & Hb & _). apply seg_lookup in Hi as [-> Hi]. rewrite Hnum in Hb.
    rewrite decide_True by lia. replace i with (Z.to_nat (k - j)) by lia. rewrite seg_drop by lia. f_equal; lia.
  - apply list_find_None in Hf. rewrite decide_False; [done|]. intros Hk. rewrite Forall_forall in Hf.
    apply (Hf (l1 k)); [|by rewrite Hnum]. apply list_elem_of_fmap_2, elem_of_seqZ. lia.
Qed.
End seg.

Section validator.
Context (l1 : Z -> BlockInfo) (Hnum : forall n, block_number (l1 n) = n) (cfg : RollupConfig).
Context {P : Type} `{NextBatchLaws P}.

(** The safe head: its origin is on the L1 chain and not after it, and the next
    block number and time fit. *)
Record head_ok (h : L2BlockInfo) : Prop := {
  ho_origin : l1_origin h = block_id (l1 (num (l1_origin h)));
  ho_time : timestamp (l1 (num (l1_origin h))) <= timestamp (block_info h);
  ho_num : 0 <= num (l1_origin h) < U64_MAX;
  ho_fits : 0 <= timestamp (block_info h) /\ 0 <= block_time cfg /\ timestamp (block_info h) + block_time cfg <= U64_MAX;
}.

(** The validator on a safe head: it holds the L1 blocks from [j] to the origin [m0]
    it saw last, the previous stage is at [m], and an epoch ahead of the safe head
    is not after its next block. *)
Record vinv_at (v : BatchValidator P) (h : L2BlockInfo) (m m0 j : Z) : Prop := {
  vi_cfg : bv_cfg v = cfg;
  vi_head : head_ok h;
  vi_prev : origin (bv_prev v) = Some (l1 m);
  vi_origin : bv_origin v = Some (l1 m0);
  vi_blocks : bv_l1_blocks v = seg l1 j (m0 - j + 1);
  vi_seen : m = m0 \/ m = m0 + 1;
  vi_range : 0 <= j <= m0 + 1 /\ m <= U64_MAX;
  vi_empty : j = m0 + 1 -> m0 < num (l1_origin h);
  vi_epoch : j <= num (l1_origin h) + 1;
  vi_ahead : j = num (l1_origin h) + 1 -> timestamp (l1 j) <= next_time cfg h;
}.
Definition vinv (v : BatchValidator P) (h : L2BlockInfo) : Prop := exists m m0 j, vinv_at v h m m0 j.

Lemma l1_inj a b : l1 a = l1 b -> a = b.
Proof. intros Heq. apply (f_equal block_number) in Heq. by rewrite !Hnum in Heq. Qed.

Lemma update_origins_ok v h m m0 j :
  vinv_at v h m m0 j ->
  exists j' v', update_origins h v = (Ok tt, v') /\ vinv_at v' h m m j' /\ bv_prev v' = bv_prev v /\ j <= j' /\
    (num (l1_origin h) <= m -> num (l1_origin h) <= j').
Proof.
  intros Hi. destruct Hi as [Hcfg Hh Hp Ho Hb Hs Hr He Hep Ha]. unfold update_origins, origin_behind.
  erewrite bind_run by reflexivity. cbn [id]. rewrite Hp, Ho. unfold behind. rewrite Hnum.
  assert (forall i v', j <= i -> bv_cfg v' = cfg -> bv_prev v' = bv_prev v -> bv_origin v' = Some (l1 m) ->
    bv_l1_blocks v' = seg l1 i (m - i + 1) -> 0 <= i <= m + 1 -> (i = m + 1 -> m < num (l1_origin h)) ->
    i <= num (l1_origin h) + 1 -> (i = num (l1_origin h) + 1 -> timestamp (l1 i) <= next_time cfg h) ->
    exists j' v'', modify (fun s => set_bv_l1_blocks (advance_epoch h (bv_l1_blocks s)) s) v' = (Ok tt : result (fault PipelineErrorKind) unit, v'') /\
      vinv_at v'' h m m j' /\ bv_prev v'' = bv_prev v /\ j <= j' /\ (num (l1_origin h) <= m -> num (l1_origin h) <= j')) as Hadv.
  { intros i v' Hi' Hc' Hp' Ho' Hb' Hr' He' Hep' Ha'. unfold modify. rewrite Hb', (advance_epoch_seg l1 Hnum) by lia.
    destruct (decide _).
    - exists (num (l1_origin h)). eexists. split; [done|]. split; [|split; [done|lia]].
      constructor; cbn; try done; try lia; try congruence. f_equal. lia.
    - exists i. eexists. split; [done|]. split; [|split; [done|lia]]. constructor; cbn; try done; try lia; congruence. }
  case_bool_decide as Heq; cbn [negb].
  - injection Heq as Heq%l1_inj. subst m0. erewrite bind_run by reflexivity. apply (Hadv j v); try done; lia.
  - assert (m = m0 + 1) as -> by (destruct Hs; [congruence|done]).
    destruct (m0 + 1 <? num (l1_origin h)) eqn:Hlt; cbn [negb].
    + erewrite bind_run by reflexivity. apply (Hadv (m0 + 2)); cbn; try done; try lia. rewrite seg_nil by lia. done.
    + erewrite bind_run by reflexivity. apply (Hadv j); cbn; try done; try lia.
      rewrite Hb. replace (m0 + 1) with (j + (m0 - j + 1)) at 1 by lia. rewrite seg_snoc by lia. f_equal. lia.
Qed.

(** What a returned batch has, for the origin [n] it names. *)
Record batch_on (h : L2BlockInfo) (n : Z) (b : SingleBatch) : Prop := {
  bo_parent : sb_parent_hash b = hash (block_info h);
  bo_time : sb_timestamp b = next_time cfg h;
  bo_epoch : batch_epoch b = block_id (l1 n);
  bo_advance : num (l1_origin h) <= n <= num (l1_origin h) + 2;
  bo_l1_time : timestamp (l1 n) <= sb_timestamp b;
}.

(** A step of the validator that keeps the invariant and returns only good batches. *)
Definition vstep_ok (h : L2BlockInfo) (m : Z) (x : result (fault PipelineErrorKind) SingleBatch * BatchValidator P) : Prop :=
  exists j, vinv_at x.2 h m m j /\ forall b, x.1 = Ok b -> exists n, batch_on h n b /\ j <= n <= m.

Lemma vinv_set_prev v h m m0 j p : vinv_at v h m m0 j -> origin p = origin (bv_prev v) -> vinv_at (set_bv_prev p v) h m m0 j.
Proof. intros [] Hp. constructor; try done. cbn. congruence. Qed.
Lemma vstep_fail v h m j e : vinv_at v h m m j -> vstep_ok h m (Err e, v).
Proof. intros Hi. by exists j. Qed.

Lemma next_time_ok h : head_ok h -> next_time cfg h = timestamp (block_info h) + block_time cfg.
Proof. intros [_ _ _ (? & ? & ?)]. unfold next_time. by apply add64_id. Qed.
Lemma next_num_ok h : head_ok h -> add64 (num (l1_origin h)) 1 = num (l1_origin h) + 1.
Proof. intros [_ _ ? _]. apply add64_id; lia. Qed.

(** The L1 block the validator starts from is not after the next block. *)
Lemma epoch_not_late v h m m0 j :
  vinv_at v h m m0 j -> num (l1_origin h) <= j -> timestamp (l1 j) <= next_time cfg h.
Proof.
  intros Hi Hj. pose proof (vi_head _ _ _ _ _ Hi) as Hh. pose proof (vi_epoch _ _ _ _ _ Hi).
  destruct (decide (j = num (l1_origin h))) as [->|]; [|apply (vi_ahead _ _ _ _ _ Hi); lia].
  rewrite next_time_ok by done. destruct Hh as [_ ? _ (? & ? & ?)]. lia.
Qed.

Lemma validate_ok v h m j b :
  vinv_at v h m m j -> num (l1_origin h) <= j -> vstep_ok h m (validate_batch h (l1 m) b v).
Proof.
  intros Hi Hj. destruct b as [b|s]; [|by eapply vstep_fail]. unfold validate_batch. erewrite bind_run by reflexivity. cbn [id].
  rewrite (vi_cfg _ _ _ _ _ Hi). destruct (check_single _ _ _ _ _) eqn:Hc; try by eapply vstep_fail.
  - erewrite bind_run by reflexivity. eapply vstep_fail, vinv_set_prev; [done|apply flush_origin].
  - exists j. split; [done|]. intros b' [= <-]. apply single_accepted in Hc as [Hp Ht (i & epoch & o & Hi2 & He & Ho & Hn & Hh & Hto) _].
    rewrite (vi_blocks _ _ _ _ _ Hi) in He, Ho. apply seg_lookup in He as [-> _]. apply seg_lookup in Ho as [-> Hlt].
    pose proof (vi_range _ _ _ _ _ Hi). pose proof (vi_epoch _ _ _ _ _ Hi). rewrite Hnum in Hn.
    exists (j + Z.of_nat i). split; [|lia]. constructor; try done; [|lia].
    unfold batch_epoch, block_id. rewrite Hnum. f_equal; [|done]. rewrite Hn. destruct i as [|[|i]]; [lia| |lia].
    rewrite add64_id by lia. lia.
Qed.

Lemma derive_empty_ok v h m j :
  vinv_at v h m m j -> num (l1_origin h) <= j < m -> vstep_ok h m (try_derive_empty_batch h v).
Proof.
  intros Hi Hj. pose proof (vi_range _ _ _ _ _ Hi). pose proof (vi_epoch _ _ _ _ _ Hi).
  unfold try_derive_empty_batch. erewrite bind_run by reflexivity. cbn [id].
  rewrite (vi_blocks _ _ _ _ _ Hi), (vi_origin _ _ _ _ _ Hi), (vi_cfg _ _ _ _ _ Hi).
  rewrite (seg_cons l1 j), (seg_cons l1 (j + 1)) by lia.
  do 2 (erewrite bind_run by reflexivity). rewrite !Hnum, (next_num_ok h) by (by eapply vi_head).
  case_match; [by eapply vstep_fail|]. case_match eqn:Hn.
  - exists j. split; [done|]. intros b [= <-]. exists j. split; [|lia]. constructor; try done; [lia|].
    eapply epoch_not_late; [done|lia].
  - erewrite bind_run by reflexivity. apply (vstep_fail _ _ _ (j + 1)). apply orb_false_iff in Hn as [Hn Hf].
    destruct Hi. constructor; cbn; try done; try lia. rewrite vi_blocks0, seg_cons by lia. cbn. f_equal. lia.
Qed.

(** [validator_next_batch] keeps the invariant and returns only good batches. *)
Lemma validator_next_ok v h m m0 j : vinv_at v h m m0 j -> vstep_ok h m (validator_next_batch h v).
Proof.
  intros (j1 & v1 & Hu & Hi & _ & _ & Hj)%update_origins_ok. unfold validator_next_batch. erewrite bind_run by exact Hu.
  erewrite bind_run by reflexivity. cbn [id]. rewrite (vi_origin _ _ _ _ _ Hi). erewrite bind_run by reflexivity.
  unfold origin_behind, behind. rewrite (vi_prev _ _ _ _ _ Hi), Hnum, (next_num_ok h) by (by eapply vi_head).
  assert (forall l, vinv_at (set_bv_prev (next_batch_for h l (bv_prev v1)).2 v1) h m m j1) as Hset.
  { intros l. apply vinv_set_prev; [done|apply next_batch_for_origin]. }
  case_match eqn:Hb.
  { unfold mbind, stm_bind, zoom. specialize (Hset (bv_l1_blocks v1)).
    destruct (next_batch_for h _ _) as [[b|e] p]; by eapply vstep_fail. }
  apply orb_false_iff in Hb as [Hb1 Hb2]. pose proof (vi_epoch _ _ _ _ _ Hi). specialize (Hj ltac:(lia)).
  pose proof (vi_blocks _ _ _ _ _ Hi) as Hbl. destruct (decide (j1 < m)) as [Hlt|Hge].
  2: { destruct (decide (j1 = m)) as [->|]; [rewrite (seg_cons l1 m), seg_nil in Hbl by lia|rewrite seg_nil in Hbl by lia];
       rewrite Hbl; by eapply vstep_fail. }
  rewrite (seg_cons l1 j1), (seg_cons l1 (j1 + 1)) in Hbl by lia. rewrite Hbl, Hnum.
  case_match; [by eapply vstep_fail|]. rewrite <- Hbl. specialize (Hset (bv_l1_blocks v1)).
  unfold mbind at 1, stm_bind at 1, try_run, zoom. destruct (next_batch_for h _ _) as [[b|[[[]| |]| |]] p]; cbn [snd] in Hset;
    try (by eapply vstep_fail); [by eapply validate_ok|by apply (derive_empty_ok _ _ _ j1)].
Qed.

(** * Runs of the validator *)

(** The block built from a batch. *)
Record child_of (h : L2BlockInfo) (b : SingleBatch) (h' : L2BlockInfo) : Prop := {
  co_time : timestamp (block_info h') = sb_timestamp b;
  co_origin : l1_origin h' = batch_epoch b;
  co_fits : num (l1_origin h') < U64_MAX /\ timestamp (block_info h') + block_time cfg <= U64_MAX;
}.

(** A step of the validator on a safe head: a call for the next batch, whose block may
    become the safe head; the previous stage moving to the next L1 block once the
    validator has seen the current one; a reset to an L1 block that is not after
    the origin of the new safe head. *)
Inductive vstep `{StageReset P} : BatchValidator P * L2BlockInfo -> BatchValidator P * L2BlockInfo -> Prop :=
| VStay v h r v' : validator_next_batch h v = (r, v') -> vstep (v, h) (v', h)
| VBuild v h b v' h' : validator_next_batch h v = (Ok b, v') -> child_of h b h' -> vstep (v, h) (v', h')
| VAdvance v h m p : bv_origin v = Some (l1 m) -> origin (bv_prev v) = Some (l1 m) -> m < U64_MAX ->
    origin p = Some (l1 (m + 1)) -> vstep (v, h) (set_bv_prev p v, h)
| VReset v h o sc v' m h' : validator_reset o sc v = (Ok tt, v') -> origin (bv_prev v') = Some (l1 m) ->
    0 <= m <= num (l1_origin h') -> head_ok h' -> vstep (v, h) (v', h').

Lemma vinv_reset `{StageReset P} v o sc v' m h :
  bv_cfg v = cfg -> validator_reset o sc v = (Ok tt, v') -> origin (bv_prev v') = Some (l1 m) ->
  0 <= m <= num (l1_origin h) -> head_ok h -> vinv_at v' h m m m.
Proof.
  intros Hc Hr Ho Hm Hh. unfold validator_reset in Hr. apply bind_ok_inv in Hr as (u & v1 & Hz & Hr).
  assert (bv_cfg v1 = cfg) as Hc1 by (unfold zoom in Hz; destruct (reset _ _ _); by injection Hz as _ <-).
  injection Hr as <-. cbn in Ho. destruct Hh. constructor; cbn; rewrite ?Ho; try done; try lia.
  replace (m - m + 1) with 1 by lia. by rewrite seg_cons, seg_nil by lia.
Qed.

Lemma vinv_build v h m j n b h' :
  vinv_at v h m m j -> batch_on h n b -> j <= n <= m -> child_of h b h' -> vinv_at v h' m m j /\ num (l1_origin h') = n.
Proof.
  intros Hi Hb Hj Hc. destruct Hc as [Hct Hco Hcf], Hb as [_ Hnt Hne Hna Hnl], Hi as [? Hh ?????? ? ?], Hh as [_ _ Hhn (Hh1 & Hh2 & Hh3)].
  rewrite Hne in Hco. assert (num (l1_origin h') = n) as Hn by (rewrite Hco; apply Hnum). split; [|done]. rewrite Hn in *.
  constructor; cbn; rewrite ?Hn; try done; try lia. constructor; rewrite ?Hn; try done; try lia.
  rewrite Hct, Hnt in *. unfold next_time in *. rewrite add64_id in * by lia. lia.
Qed.

Lemma vstep_inv `{StageReset P} x y : vstep x y -> vinv x.1 x.2 -> vinv y.1 y.2.
Proof.
  intros Hs (m & m0 & j & Hi). destruct Hs as [v h r v' Hr|v h b v' h' Hr Hc|v h m' p Ho Hp Hm Hp'|v h o sc v' m' h' Hr Ho Hm Hh];
    cbn [fst snd] in *.
  - destruct (validator_next_ok _ _ _ _ _ Hi) as (j' & Hi' & _). rewrite Hr in Hi'. by exists m, m, j'.
  - destruct (validator_next_ok _ _ _ _ _ Hi) as (j' & Hi' & Hb). rewrite Hr in Hi', Hb.
    destruct (Hb b eq_refl) as (n & Hn & Hj). exists m, m, j'. by eapply vinv_build.
  - cbn in *. destruct Hi. rewrite vi_origin0 in Ho. injection Ho as Ho%l1_inj. rewrite vi_prev0 in Hp. injection Hp as Hp%l1_inj.
    subst. exists (m' + 1), m', j. constructor; cbn; try done; lia.
  - exists m', m', m'. cbn. eapply vinv_reset; [|done..]. by destruct Hi.
Qed.

(** * A silent batcher *)

(** A state of the previous stage in which, and after which, it has no more data. *)
Definition quiet (silent : P -> Prop) : Prop := forall p h l, silent p ->
  (next_batch_for h l p).1 = Err (Fail (Temporary Eof)) /\ silent (next_batch_for h l p).2.

(** The call of [try_derive_empty_batch] once the window of the first block is over. *)
Lemma derive_empty_run v h m j : let k := num (l1_origin h) in
  vinv_at v h m m j -> k <= j < m -> 0 <= seq_window_size cfg -> j + seq_window_size cfg <= m ->
  try_derive_empty_batch h v =
    if (next_time cfg h <? timestamp (l1 (j + 1))) || (j =? k + 1) then (Ok (empty_batch cfg h (l1 j)), v)
    else (Err (Fail (Temporary Eof)), set_bv_l1_blocks (seg l1 (j + 1) (m - j)) v).
Proof.
  intros k Hi Hj Hw Hle. pose proof (vi_range _ _ _ _ _ Hi). pose proof (vi_blocks _ _ _ _ _ Hi) as Hbl.
  rewrite (seg_cons l1 j) in Hbl by lia. replace (m - j + 1 - 1) with (m - j) in Hbl by lia.
  unfold try_derive_empty_batch. erewrite bind_run by reflexivity. cbn [id].
  rewrite Hbl, (vi_origin _ _ _ _ _ Hi), (vi_cfg _ _ _ _ _ Hi). rewrite (seg_cons l1 (j + 1)) by lia.
  do 2 (erewrite bind_run by reflexivity). rewrite !Hnum, (next_num_ok h) by (by eapply vi_head).
  rewrite add64_id by lia. rewrite (proj2 (Z.leb_le _ _)) by lia. cbn [negb]. fold k. case_match; [done|].
  erewrite bind_run by reflexivity. unfold temp, throw. rewrite Hbl. rewrite (seg_cons l1 (j + 1)) by lia. done.
Qed.

(** What a call does when the batcher is silent and the window of the next epoch is over. *)
Lemma silent_call silent v h m m0 j : let k := num (l1_origin h) in
  quiet silent -> silent (bv_prev v) -> vinv_at v h m m0 j -> 0 < seq_window_size cfg -> k + seq_window_size cfg < m ->
  exists v' j', silent (bv_prev v') /\ vinv_at v' h m m j' /\
    ((validator_next_batch h v = (Ok (empty_batch cfg h (l1 k)), v') /\ j' = k /\ next_time cfg h < timestamp (l1 (k + 1))) \/
     (validator_next_batch h v = (Err (Fail (Temporary Eof)), v') /\ j' = k + 1 /\ j <= k) \/
     (validator_next_batch h v = (Ok (empty_batch cfg h (l1 (k + 1))), v') /\ j' = k + 1)).
Proof.
  intros k Hq Hsil Hi Hw Hm. destruct (update_origins_ok _ _ _ _ _ Hi) as (j1 & v1 & Hu & Hi1 & Hprev & Hj & Hk).
  rewrite <- Hprev in Hsil. fold k in Hk. specialize (Hk ltac:(lia)). pose proof (vi_epoch _ _ _ _ _ Hi1) as Hep. fold k in Hep.
  pose proof (vi_head _ _ _ _ _ Hi1) as Hh. pose proof (ho_origin _ Hh) as Hor. fold k in Hor.
  destruct (Hq (bv_prev v1) h (bv_l1_blocks v1) Hsil) as [Hr Hs].
  set (p := (next_batch_for h (bv_l1_blocks v1) (bv_prev v1)).2) in *.
  assert (vinv_at (set_bv_prev p v1) h m m j1) as Hi2 by (apply vinv_set_prev; [done|apply next_batch_for_origin]).
  assert (validator_next_batch h v = try_derive_empty_batch h (set_bv_prev p v1)) as Hcall.
  { unfold validator_next_batch. erewrite bind_run by exact Hu. erewrite bind_run by reflexivity. cbn [id].
    rewrite (vi_origin _ _ _ _ _ Hi1). erewrite bind_run by reflexivity.
    unfold origin_behind, behind. rewrite (vi_prev _ _ _ _ _ Hi1), Hnum, (next_num_ok h) by done. fold k.
    rewrite (proj2 (Z.ltb_ge _ _)), (proj2 (Z.eqb_neq _ _)) by lia. cbn [orb].
    pose proof (vi_blocks _ _ _ _ _ Hi1) as Hbl. rewrite (seg_cons l1 j1), (seg_cons l1 (j1 + 1)) in Hbl by lia.
    rewrite Hbl, Hnum. rewrite Hor. rewrite <- Hbl.
    replace (negb _ && negb _) with false.
    2: { destruct (decide (j1 = k)) as [->|]; [by rewrite bool_decide_true|]. replace j1 with (k + 1) by lia.
         by rewrite Z.eqb_refl, andb_false_r. }
    unfold mbind, stm_bind, try_run, zoom. subst p. destruct (next_batch_for h _ _) as [r p]. cbn in Hr |- *. by rewrite Hr. }
  rewrite Hcall, (derive_empty_run _ _ m j1) by (try done; unfold k in *; lia). fold k.
  destruct (decide (j1 = k)) as [->|Hne].
  - rewrite (proj2 (Z.eqb_neq k (k + 1))), orb_false_r by lia. case_match eqn:Ht.
    + exists (set_bv_prev p v1), k. split; [done|]. split; [done|]. left. split; [done|lia].
    + eexists _, (k + 1). split; [|split; [|right; left; split; [reflexivity|lia]]]; [done|].
      destruct Hi2 as [? ? ? ? ? ? Hr2 ?]. constructor; cbn; try done; try lia. f_equal. lia.
  - replace j1 with (k + 1) by lia. rewrite Z.eqb_refl, orb_true_r. exists (set_bv_prev p v1), (k + 1).
    split; [done|]. split; [by replace (k + 1) with j1 by lia|]. by right; right.
Qed.

(** The block built from a batch, and a run of the validator in which every batch is
    built into the next safe head. *)
Definition build_block (block_hash : L2BlockInfo -> SingleBatch -> Z) (h : L2BlockInfo) (b : SingleBatch) : L2BlockInfo :=
  mkL2BlockInfo (mkBlockInfo (block_hash h b) (block_number (block_info h) + 1) (hash (block_info h)) (sb_timestamp b))
    (batch_epoch b) (if num (l1_origin h) =? epoch_num b then seq_num h + 1 else 0).
Fixpoint drive (block_hash : L2BlockInfo -> SingleBatch -> Z) (n : nat) (v : BatchValidator P) (h : L2BlockInfo) :
    BatchValidator P * L2BlockInfo :=
  match n with
  | O => (v, h)
  | S n =>
      let '(r, v) := validator_next_batch h v in
      drive block_hash n v (match r with Ok b => build_block block_hash h b | Err _ => h end)
  end.

(** The clock has room for the blocks up to the L1 block [m]. *)
Definition room (h : L2BlockInfo) (m : Z) : Prop :=
  timestamp (block_info h) + block_time cfg * (m - num (l1_origin h) + 1) <= U64_MAX.

Lemma build_empty v h m j n bh :
  vinv_at v h m m j -> num (l1_origin h) <= n <= num (l1_origin h) + 1 -> j <= n < m -> timestamp (l1 n) <= next_time cfg h ->
  next_time cfg h + block_time cfg * (m - n + 1) <= U64_MAX ->
  let h' := build_block bh h (empty_batch cfg h (l1 n)) in
  vinv_at v h' m m j /\ num (l1_origin h') = n /\ timestamp (block_info h') = next_time cfg h /\ room h' m.
Proof.
  intros Hi Hn Hj Ht Hroom h'. pose proof (vi_head _ _ _ _ _ Hi) as Hh. pose proof (vi_range _ _ _ _ _ Hi) as Hr.
  destruct (vinv_build v h m j n (empty_batch cfg h (l1 n)) h') as [Hi' Hn']; try done; [|lia| |].
  - constructor; try done; lia.
  - constructor; try done. cbn. rewrite Hnum. split; [lia|]. destruct (ho_fits _ Hh) as (? & ? & ?).
    enough (block_time cfg <= block_time cfg * (m - n + 1)) by lia. nia.
  - split_and!; try done. unfold room. by rewrite Hn'.
Qed.

Lemma drive_add bh a b v h v' h' : drive bh a v h = (v', h') -> drive bh (a + b) v h = drive bh b v' h'.
Proof.
  revert v h. induction a as [|a IH]; intros v h; cbn [drive Nat.add]; [by intros [= -> ->]|].
  destruct (validator_next_batch h v) as [r v1]. apply IH.
Qed.

Section silent.
Context (silent : P -> Prop) (Hquiet : quiet silent) (bh : L2BlockInfo -> SingleBatch -> Z) (m : Z).
Context (Hwindow : 0 < seq_window_size cfg) (Htime : 0 < block_time cfg).
Context (Hclock : forall n, 0 <= n <= m -> timestamp (l1 n) + block_time cfg * (m + 1) <= U64_MAX).

(** States of a run with a silent batcher. *)
Definition live (v : BatchValidator P) (h : L2BlockInfo) : Prop :=
  silent (bv_prev v) /\ (exists m0 j, vinv_at v h m m0 j) /\ room h m.

Lemma silent_epoch v h : let k := num (l1_origin h) in
  live v h -> k + seq_window_size cfg < m ->
  exists n v' h', drive bh n v h = (v', h') /\ num (l1_origin h') = k + 1 /\ live v' h'.
Proof.
  intros k (Hs & (m0 & j & Hi) & Hr) Hk.
  assert (exists d, 2 * Z.max 0 (timestamp (l1 (k + 1)) - timestamp (block_info h)) + (if decide (j <= k) then 1 else 0) < Z.of_nat d) as [d Hd].
  { exists (Z.to_nat (2 * Z.max 0 (timestamp (l1 (k + 1)) - timestamp (block_info h)) + 2)). case_decide; lia. }
  assert (num (l1_origin h) = k) as Hk' by done. clearbody k.
  revert v h m0 j Hs Hi Hr Hd Hk'. induction d as [|d IH]; intros v h m0 j Hs Hi Hr Hd <-; [case_decide; lia|].
  pose proof (vi_head _ _ _ _ _ Hi) as Hh. pose proof (ho_num _ Hh). pose proof (next_time_ok _ Hh) as Hnt. unfold room in Hr.
  destruct (silent_call silent v h m m0 j) as (v' & j' & Hs' & Hi' & Hcase); try done.
  destruct Hcase as [(Hc & -> & Hlt)|[(Hc & -> & Hj)|(Hc & ->)]].
  - destruct (build_empty v' h m (num (l1_origin h)) (num (l1_origin h)) bh) as (Hi2 & Hn2 & Ht2 & Hr2); try done; try lia.
    { rewrite Hnt. pose proof (ho_time _ Hh). lia. }
    { pose proof (Hclock (num (l1_origin h) + 1) ltac:(lia)). nia. }
    destruct (IH v' _ m _ Hs' Hi2 Hr2) as (n & v2 & h2 & Hd2 & Hn & Hl); [rewrite Ht2, Hnt; repeat case_decide; lia|done|].
    exists (S n), v2, h2. cbn [drive]. by rewrite Hc.
  - destruct (IH v' h m _ Hs' Hi' Hr) as (n & v2 & h2 & Hd2 & Hn & Hl); [rewrite decide_True in Hd by lia; rewrite decide_False by lia; lia|done|].
    exists (S n), v2, h2. cbn [drive]. by rewrite Hc.
  - destruct (build_empty v' h m (num (l1_origin h) + 1) (num (l1_origin h) + 1) bh) as (Hi2 & Hn2 & Ht2 & Hr2); try done; try lia.
    { by apply (vi_ahead _ _ _ _ _ Hi'). }
    exists 1%nat, v', (build_block bh h (empty_batch cfg h (l1 (num (l1_origin h) + 1)))). cbn [drive]. rewrite Hc.
    split; [done|]. split; [done|]. split; [done|]. split; [by eexists _, _|done].
Qed.

Lemma silent_run v h : live v h -> num (l1_origin h) + seq_window_size cfg <= m ->
  exists n v' h', drive bh n v h = (v', h') /\ num (l1_origin h') = m - seq_window_size cfg /\ live v' h'.
Proof.
  intros Hl Hk. remember (Z.to_nat (m - seq_window_size cfg - num (l1_origin h))) as d eqn:Hd.
  revert v h Hl Hk Hd. induction d as [|d IH]; intros v h Hl Hk Hd.
  - exists O, v, h. split; [done|]. split; [lia|done].
  - destruct (silent_epoch v h Hl ltac:(lia)) as (a & v1 & h1 & Ha & Hn1 & Hl1).
    destruct (IH v1 h1 Hl1 ltac:(lia) ltac:(lia)) as (b & v2 & h2 & Hb & Hn2 & Hl2).
    exists (a + b)%nat, v2, h2. by rewrite (drive_add _ _ _ _ _ _ _ Ha).
Qed.
End silent.
End validator.

(** A run starts with a reset of the validator to an L1 block that is not after the
    origin of the safe head. *)
Definition vstart (l1 : Z -> BlockInfo) (cfg : RollupConfig) {P} `{NextBatchProvider P, OriginProvider P, StageReset P}
    (x : BatchValidator P * L2BlockInfo) : Prop :=
  exists v o sc m, bv_cfg v = cfg /\ validator_reset o sc v = (Ok tt, x.1) /\ origin (bv_prev x.1) = Some (l1 m) /\
    0 <= m <= num (l1_origin x.2) /\ head_ok l1 cfg x.2.

Section runs.
Context (l1 : Z -> BlockInfo) (cfg : RollupConfig) {P : Type} `{NextBatchLaws P, !StageReset P}.
Context (Hnum : forall n, block_number (l1 n) = n).

Lemma reach_inv x y : vstart l1 cfg x -> rtc (vstep l1 cfg) x y -> vinv l1 cfg y.1 y.2.
Proof.
  intros (v & o & sc & m & Hc & Hr & Ho & Hm & Hh) Hxy.
  assert (vinv l1 cfg x.1 x.2) as Hx by (exists m, m, m; by eapply vinv_reset).
  clear -Hxy Hx Hnum H1. induction Hxy as [|x y z Hs _ IH]; [done|]. apply IH. by eapply vstep_inv.
Qed.

(** C23: In every run of the batch validator (calls for a batch, the previous stage
    moving to the next L1 block, resets), whatever the previous stage delivers, a
    batch it returns builds on the safe head: it has its hash as parent, the next
    block time, and an L1 origin on the L1 chain, at most two blocks after that of
    the safe head, whose time is not after the time of the batch. *)
Theorem validated_batches_extend x v h b v' :
  vstart l1 cfg x -> rtc (vstep l1 cfg) x (v, h) -> validator_next_batch h v = (Ok b, v') ->
  exists n, batch_on l1 cfg h n b.
Proof.
  intros Hx Hr Hb. destruct (reach_inv _ _ Hx Hr) as (m & m0 & j & Hi). cbn in Hi.
  destruct (validator_next_ok l1 Hnum cfg v h m m0 j Hi) as (j' & _ & Hn). rewrite Hb in Hn.
  destruct (Hn b eq_refl) as (n & Hon & _). by exists n.
Qed.

(** C24: A batcher that posts nothing cannot stop the chain: once the previous stage is
    at L1 block [m] and has no data, repeated calls of the validator, each
    returned batch built into the next safe head, bring the safe head to the L1
    origin one sequencing window before [m], after finitely many calls. *)
Theorem silent_batcher_live silent bh x v h m :
  vstart l1 cfg x -> rtc (vstep l1 cfg) x (v, h) -> origin (bv_prev v) = Some (l1 m) ->
  quiet silent -> silent (bv_prev v) -> 0 < seq_window_size cfg -> 0 < block_time cfg ->
  (forall n, 0 <= n <= m -> timestamp (l1 n) + block_time cfg * (m + 1) <= U64_MAX) -> room cfg h m ->
  num (l1_origin h) + seq_window_size cfg <= m ->
  exists n v' h', drive bh n v h = (v', h') /\ num (l1_origin h') = m - seq_window_size cfg.
Proof.
  intros Hx Hr Ho Hq Hs Hw Ht Hc Hroom Hk. destruct (reach_inv _ _ Hx Hr) as (m1 & m0 & j & Hi). cbn in Hi.
  pose proof (vi_prev _ _ _ _ _ _ _ Hi) as Hp. rewrite Ho in Hp. injection Hp as <-%(l1_inj l1 Hnum).
  destruct (silent_run l1 Hnum cfg silent Hq bh m Hw Ht Hc v h) as (n & v' & h' & Hd & Hn & _); [|done|by exists n, v', h'].
  split; [done|]. split; [by eexists _, _|done].
Qed.
End runs.

Module BatchSafetyExample.
(** A previous stage without data; its state is the number of its L1 block. *)
Definition l1 (n : Z) : BlockInfo := mkBlockInfo (1000 + n) n (999 + n) (12 * n).
#[local] Instance no_batches : NextBatchProvider Z :=
  {| next_batch_for _ _ := temp Eof; span_buffer_size _ := 0; flush p := p |}.
#[local] Instance at_block : OriginProvider Z := {| origin p := Some (l1 p) |}.
#[local] Instance to_block : StageReset Z :=
  {| reset o _ := modify (fun _ => num o); activate := mret tt; flush_channel := mret tt |}.
#[local] Instance no_batches_laws : NextBatchLaws Z.
Proof. by split. Qed.

(** A sequencing window of one block. *)
Definition cfg : RollupConfig :=
  let f := Some 0 in
  mkRollupConfig (mkChainGenesis (mkBlockNumHash 0 0) (mkBlockNumHash 0 0) 0) 2 600 1 300 50
    (mkHardForkConfig f f f f f f f f f f f f) 5 6 7 8453.
Definition sc : SystemConfig := L1InfoExample.sc.
Definition head : L2BlockInfo := mkL2BlockInfo (mkBlockInfo 77 5 76 60) (mkBlockNumHash 5 1005) 0.

Definition started : BatchValidator Z := (validator_reset (mkBlockNumHash 5 1005) sc (new_validator cfg 0)).2.
Definition call (v : BatchValidator Z) : BatchValidator Z := (validator_next_batch head v).2.
Definition at_7 : BatchValidator Z := set_bv_prev 7 (call (set_bv_prev 6 started)).

Lemma started_ok : vstart l1 cfg (started, head).
Proof.
  exists (new_validator cfg 0), (mkBlockNumHash 5 1005), sc, 5. by split_and!.
Qed.
Lemma at_7_reached : rtc (vstep l1 cfg) (started, head) (at_7, head).
Proof.
  eapply rtc_l; [apply (VAdvance l1 cfg started head 5 6); by vm_compute|].
  eapply rtc_l; [eapply (VStay l1 cfg _ head (validator_next_batch head (set_bv_prev 6 started)).1); by vm_compute|].
  eapply rtc_l; [apply (VAdvance l1 cfg _ head 6 7); by vm_compute|apply rtc_refl].
Qed.

Lemma validated_batches_extend_witness :
  exists n, batch_on l1 cfg head n (empty_batch cfg head (l1 5)).
Proof.
  apply (validated_batches_extend l1 cfg (fun _ => eq_refl) (started, head) at_7 head (empty_batch cfg head (l1 5)) (call at_7)).
  - exact started_ok.
  - exact at_7_reached.
  - by vm_compute.
Defined.

Lemma silent_batcher_live_witness :
  exists n v h, drive (fun _ b => sb_timestamp b) n at_7 head = (v, h) /\ num (l1_origin h) = 6.
Proof.
  apply (silent_batcher_live l1 cfg (fun _ => eq_refl) (fun _ => True) (fun _ b => sb_timestamp b) (started, head) at_7 head 7).
  - exact started_ok.
  - exact at_7_reached.
  - done.
  - by intros ???.
  - done.
  - done.
  - done.
  - intros n Hn. cbn. unfold U64_MAX. lia.
  - by vm_compute.
  - done.
Defined.
End BatchSafetyExample.

(** A run in which the window of the origin 5 of the safe head ends at L1 block 6 without
    a batch, and L1 block 7 has a batch on origin 7. *)
Module EpochSkip.
Definition l1 (n : Z) : BlockInfo := BatchSafetyExample.l1 n.
Definition late_batch : SingleBatch := mkSingleBatch 0 7 1007 102 [].
#[local] Instance late_batches : NextBatchProvider Z :=
  {| next_batch_for _ _ := fun p => (if p =? 7 then Ok (Single late_batch) else Err (Fail (Temporary Eof)), p);
     span_buffer_size _ := 0; flush p := p |}.
#[local] Instance at_l1_block : OriginProvider Z := {| origin p := Some (l1 p) |}.
#[local] Instance to_l1_block : StageReset Z :=
  {| reset o _ := modify (fun _ => num o); activate := mret tt; flush_channel := mret tt |}.

Definition safe_head : L2BlockInfo := mkL2BlockInfo (mkBlockInfo 77 5 76 100) (mkBlockNumHash 5 1005) 0.
Definition begun : BatchValidator Z :=
  (validator_reset (mkBlockNumHash 5 1005) BatchSafetyExample.sc (new_validator BatchSafetyExample.cfg 0)).2.
Definition moved : BatchValidator Z := set_bv_prev 7 (validator_next_batch safe_head (set_bv_prev 6 begun)).2.

(** The validator can accept a batch whose L1 origin is two blocks after the origin
    of the safe head: after the sequencing window of an epoch has ended it moves
    its list of L1 blocks one past the origin of the safe head, and a batch may
    take the block after the first of that list. *)
Theorem epoch_skipped :
  exists x v h b v', vstart l1 BatchSafetyExample.cfg x /\ rtc (vstep l1 BatchSafetyExample.cfg) x (v, h) /\
    validator_next_batch h v = (Ok b, v') /\ epoch_num b = num (l1_origin h) + 2.
Proof.
  exists (begun, safe_head), moved, safe_head, (with_parent safe_head late_batch), (validator_next_batch safe_head moved).2.
  split; [|split; [|by vm_compute]].
  - exists (new_validator BatchSafetyExample.cfg 0), (mkBlockNumHash 5 1005), BatchSafetyExample.sc, 5. by split_and!.
  - eapply rtc_l; [apply (VAdvance l1 BatchSafetyExample.cfg begun safe_head 5 6); by vm_compute|].
    eapply rtc_l; [eapply (VStay l1 BatchSafetyExample.cfg _ safe_head (validator_next_batch safe_head (set_bv_prev 6 begun)).1); by vm_compute|].
    eapply rtc_l; [apply (VAdvance l1 BatchSafetyExample.cfg _ safe_head 6 7); by vm_compute|apply rtc_refl].
Qed.
End EpochSkip.
