(* ===== verification/Attributes.v ===== *)
(** The end of the derivation pipeline: the builder of payload attributes
    ([crates/consensus/derive/src/attributes/stateful.rs]), the attributes queue
    ([stages/attributes_queue.rs]) and the driver of the stages ([pipeline/core.rs],
    [types/signals.rs], [types/results.rs]). The transactions of network upgrades
    are an argument: constant deposits with contract code. *)

From S2P Require Import Prelude Codec Buffer Rollup SystemConfig Deposits Channel Pipeline L1Info Batches BatchStages BatchSafety.

(** * Payload attributes *)

Definition SEQUENCER_FEE_VAULT : Z := 0x4200000000000000000000000000000000000011.

(** [BasePayloadAttributes]; withdrawals are absent or empty. *)
Record PayloadAttributes : Type := mkPayloadAttributes {
  pa_timestamp : Z;
  prev_randao : Z;
  suggested_fee_recipient : Z;
  parent_beacon_block_root : option Z;
  withdrawals : option (list Z);
  pa_transactions : option (list (list Z));
  no_tx_pool : option bool;
  pa_gas_limit : option Z;
  pa_eip_1559_params : option (list Z);
  pa_min_base_fee : option Z;
}.

Record AttributesWithParent : Type := mkAttributesWithParent {
  attributes : PayloadAttributes;
  parent : L2BlockInfo;
  derived_from : option BlockInfo;
  awp_is_last_in_span : bool;
}.

(** [AttributesWithParent::block_number], [is_deposits_only] *)
Definition awp_block_number (a : AttributesWithParent) : Z := sat_add U64_MAX (block_number (block_info (parent a))) 1.
Definition is_deposits_only (a : AttributesWithParent) : bool :=
  forallb (fun tx => match tx with ty :: _ => ty =? DEPOSIT_TX_TYPE | [] => false end) (default [] (pa_transactions (attributes a))).

(** * Traits *)

Class L2ChainProvider (F : Type) := { system_config_by_number : Z -> stm F PipelineErrorKind SystemConfig }.
Class L1ChainProvider (C : Type) := {
  header_by_hash : Z -> stm C PipelineErrorKind L1Header;
  l1_receipts_by_hash : Z -> stm C PipelineErrorKind (list Receipt);
}.
Class AttributesBuilder (B : Type) := { prepare_attributes : L2BlockInfo -> BlockNumHash -> act B PayloadAttributes }.
Class NextAttributes (S : Type) := { next_attributes : L2BlockInfo -> act S AttributesWithParent }.

(** A provider reports a pipeline error. *)
Definition provider_call {F A} (m : stm F PipelineErrorKind A) : act F A := fun f =>
  match m f with
  | (Ok a, f) => (Ok a, f)
  | (Err e, f) => (Err (Fail e), f)
  end.

(** * The attributes builder *)

(** The deposit transactions that switch an upgrade on. *)
Class UpgradeTxs := {
  ecotone_txs : list (list Z);
  fjord_txs : list (list Z);
  isthmus_txs : list (list Z);
  jovian_txs : list (list Z);
}.

Section builder.
Context {F C : Type} `{L2ChainProvider F, L1ChainProvider C, SolWords, BlobFees, Keccak256, DepositCodecs, UpgradeTxs}.

Record StatefulAttributesBuilder : Type := mkBuilder {
  rollup_cfg : RollupConfig;
  l1_cfg : L1Config;
  config_fetcher : F;
  receipts_fetcher : C;
}.
Definition set_config_fetcher (f : F) (b : StatefulAttributesBuilder) : StatefulAttributesBuilder :=
  mkBuilder (rollup_cfg b) (l1_cfg b) f (receipts_fetcher b).
Definition set_receipts_fetcher (c : C) (b : StatefulAttributesBuilder) : StatefulAttributesBuilder :=
  mkBuilder (rollup_cfg b) (l1_cfg b) (config_fetcher b) c.

(** What the L1 origin contributes to a block. *)
Record EpochData : Type := mkEpochData {
  ed_header : L1Header;
  ed_deposits : list (list Z);
  ed_config : SystemConfig;
  ed_sequence_number : Z;
}.

(** The data of the origin: the first block of an epoch has the deposits and the
    configuration updates of its L1 block. *)
Definition epoch_data (l2_parent : L2BlockInfo) (epoch : BlockNumHash) (sys_config : SystemConfig) :
    act StatefulAttributesBuilder EpochData :=
  cfg ← gets rollup_cfg;
  if negb (num (l1_origin l2_parent) =? num epoch) then
    header ← zoom receipts_fetcher set_receipts_fetcher (provider_call (header_by_hash (num_hash epoch)));
    if negb (num_hash (l1_origin l2_parent) =? h_parent_hash header) then reset_with AttributesBuilderReset
    else
      receipts ← zoom receipts_fetcher set_receipts_fetcher (provider_call (l1_receipts_by_hash (num_hash epoch)));
      match derive_deposits (num_hash epoch) receipts (deposit_contract_address cfg)
        return act StatefulAttributesBuilder EpochData with
      | Ok deposits =>
          let '(_, sys_config) := update_with_receipts receipts (l1_system_config_address cfg)
                                    (is_ecotone_active cfg (h_timestamp header)) sys_config in
          mret (mkEpochData header deposits sys_config 0)
      | Err (Fail _) => crit BadEncoding
      | Err Panic => throw Panic
      | Err OutOfFuel => throw OutOfFuel
      end
  else if negb (num_hash (l1_origin l2_parent) =? num_hash epoch) then reset_with AttributesBuilderReset
  else
    header ← zoom receipts_fetcher set_receipts_fetcher (provider_call (header_by_hash (num_hash epoch)));
    mret (mkEpochData header [] sys_config (add64 (seq_num l2_parent) 1)).

(** The transactions of the upgrades that become active between two times. *)
Definition upgrade_transactions (cfg : RollupConfig) (parent_time next_time : Z) : list (list Z) :=
  let on active := active next_time && negb (active parent_time) in
  (if on (is_ecotone_active cfg) then ecotone_txs else []) ++
  (if on (is_fjord_active cfg) then fjord_txs else []) ++
  (if on (is_isthmus_active cfg) then isthmus_txs else []) ++
  (if on (is_jovian_active cfg) then jovian_txs else []).

(** The attributes of a block from the data of its origin. *)
Definition build_attributes (cfg : RollupConfig) (l1 : L1Config) (l2_parent : L2BlockInfo) (d : EpochData) :
    PayloadAttributes :=
  let parent_time := timestamp (block_info l2_parent) in
  let next_l2_time := next_time cfg l2_parent in
  let sc := ed_config d in
  let '(_, info_tx) := try_new_with_deposit_tx cfg l1 sc (ed_sequence_number d) (ed_header d) next_l2_time in
  mkPayloadAttributes next_l2_time (h_mix_hash (ed_header d)) SEQUENCER_FEE_VAULT
    (if is_ecotone_active cfg next_l2_time then Some (default 0 (h_parent_beacon_block_root (ed_header d))) else None)
    (if is_canyon_active cfg next_l2_time then Some [] else None)
    (Some (encode_2718 info_tx :: ed_deposits d ++ upgrade_transactions cfg parent_time next_l2_time))
    (Some true) (Some (gas_limit sc)) (eip_1559_params sc cfg parent_time next_l2_time)
    (if is_jovian_active cfg next_l2_time then Some (default 0 (min_base_fee sc)) else None).

(** [StatefulAttributesBuilder::prepare_payload_attributes] *)
Definition prepare_payload_attributes (l2_parent : L2BlockInfo) (epoch : BlockNumHash) :
    act StatefulAttributesBuilder PayloadAttributes :=
  sys_config ← zoom config_fetcher set_config_fetcher
                 (provider_call (system_config_by_number (block_number (block_info l2_parent))));
  d ← epoch_data l2_parent epoch sys_config;
  b ← gets id;
  if next_time (rollup_cfg b) l2_parent <? h_timestamp (ed_header d) then reset_with AttributesBuilderReset
  else mret (build_attributes (rollup_cfg b) (l1_cfg b) l2_parent d).

#[export] Instance stateful_builder : AttributesBuilder StatefulAttributesBuilder :=
  {| prepare_attributes := prepare_payload_attributes |}.
End builder.
Arguments StatefulAttributesBuilder F C {_}.

(** * The attributes queue *)

Record AttributesQueue (P B : Type) : Type := mkAttributesQueue {
  aq_cfg : RollupConfig;
  aq_prev : P;
  aq_is_last_in_span : bool;
  aq_batch : option SingleBatch;
  builder : B;
}.
Arguments mkAttributesQueue {P B}.
Arguments aq_cfg {P B}.
Arguments aq_prev {P B}.
Arguments aq_is_last_in_span {P B}.
Arguments aq_batch {P B}.
Arguments builder {P B}.

Definition new_attributes_queue {P B} (cfg : RollupConfig) (prev : P) (b : B) : AttributesQueue P B :=
  mkAttributesQueue cfg prev false None b.

Section attributes_queue.
Context {P B : Type} `{AttributesProvider P, OriginProvider P, OriginAdvancer P, StageReset P, AttributesBuilder B}.

Definition set_aq_prev (p : P) (s : AttributesQueue P B) : AttributesQueue P B :=
  mkAttributesQueue (aq_cfg s) p (aq_is_last_in_span s) (aq_batch s) (builder s).
Definition set_aq_batch (last : bool) (b : option SingleBatch) (s : AttributesQueue P B) : AttributesQueue P B :=
  mkAttributesQueue (aq_cfg s) (aq_prev s) last b (builder s).
Definition set_builder (b : B) (s : AttributesQueue P B) : AttributesQueue P B :=
  mkAttributesQueue (aq_cfg s) (aq_prev s) (aq_is_last_in_span s) (aq_batch s) b.

(** [AttributesQueue::load_batch] *)
Definition load_batch (parent : L2BlockInfo) : act (AttributesQueue P B) SingleBatch :=
  o ← gets aq_batch;
  match o return act (AttributesQueue P B) SingleBatch with
  | Some b => mret b
  | None =>
      b ← zoom aq_prev set_aq_prev (next_single_batch parent);
      modify (fun s => set_aq_batch (is_last_in_span (aq_prev s)) (Some b) s) ;;
      mret b
  end.

(** The transactions of the batch follow those of the builder. *)
Definition add_batch_txs (txs : list (list Z)) (a : PayloadAttributes) : PayloadAttributes :=
  mkPayloadAttributes (pa_timestamp a) (prev_randao a) (suggested_fee_recipient a) (parent_beacon_block_root a) (withdrawals a)
    (match pa_transactions a with
     | Some l => Some (l ++ txs)
     | None => match txs with [] => None | _ => Some txs end
     end)
    (Some true) (pa_gas_limit a) (pa_eip_1559_params a) (pa_min_base_fee a).

(** [AttributesQueue::create_next_attributes] *)
Definition create_next_attributes (b : SingleBatch) (parent : L2BlockInfo) : act (AttributesQueue P B) PayloadAttributes :=
  if negb (sb_parent_hash b =? hash (block_info parent))
  then reset_with (BadParentHash (sb_parent_hash b) (hash (block_info parent)))
  else
    cfg ← gets aq_cfg;
    let actual := next_time cfg parent in
    if negb (actual =? sb_timestamp b) then reset_with (BadTimestamp (sb_timestamp b) actual)
    else
      a ← zoom builder set_builder (prepare_attributes parent (batch_epoch b));
      mret (add_batch_txs (transactions b) a).

(** [AttributesQueue::next_attributes] *)
Definition queue_next_attributes (parent : L2BlockInfo) : act (AttributesQueue P B) AttributesWithParent :=
  b ← load_batch parent;
  a ← create_next_attributes b parent;
  s ← gets id;
  og ← ok_or (origin (aq_prev s)) (crit MissingOrigin);
  modify (set_aq_batch false None) ;;
  mret (mkAttributesWithParent a parent (Some og) (aq_is_last_in_span s)).

Definition attributes_clear : act (AttributesQueue P B) unit := modify (set_aq_batch false None).
(** [flush_channel] keeps [is_last_in_span]. *)
Definition attributes_flush_channel : act (AttributesQueue P B) unit :=
  modify (fun s => set_aq_batch (aq_is_last_in_span s) None s) ;; zoom aq_prev set_aq_prev flush_channel.

#[export] Instance attributes_next : NextAttributes (AttributesQueue P B) := {| next_attributes := queue_next_attributes |}.
#[export] Instance attributes_origin : OriginProvider (AttributesQueue P B) := {| origin s := origin (aq_prev s) |}.
#[export] Instance attributes_advancer : OriginAdvancer (AttributesQueue P B) :=
  {| advance_origin := zoom aq_prev set_aq_prev advance_origin |}.
#[export] Instance attributes_stage_reset : StageReset (AttributesQueue P B) :=
  {| reset o c := zoom aq_prev set_aq_prev (reset o c) ;; attributes_clear;
     activate := zoom aq_prev set_aq_prev activate ;; attributes_clear;
     flush_channel := attributes_flush_channel |}.
End attributes_queue.

(** * The driver of the stages *)

Inductive Signal : Type :=
| SReset (l2_safe_head : L2BlockInfo)
| SActivation (l2_safe_head : L2BlockInfo)
| SFlushChannel.

Inductive StepResult : Type :=
| PreparedAttributes
| AdvancedOrigin
| OriginAdvanceErr (e : PipelineErrorKind)
| StepFailed (e : PipelineErrorKind).

Record DerivationPipeline (S F : Type) : Type := mkPipeline {
  stages : S;
  prepared : list AttributesWithParent;
  rollup_config : RollupConfig;
  l2_chain_provider : F;
}.
Arguments mkPipeline {S F}.
Arguments stages {S F}.
Arguments prepared {S F}.
Arguments rollup_config {S F}.
Arguments l2_chain_provider {S F}.

Section pipeline.
Context {S F : Type} `{NextAttributes S, StageReset S, OriginProvider S, OriginAdvancer S, L2ChainProvider F, BatchValidationProvider F}.

Definition set_stages (st : S) (p : DerivationPipeline S F) : DerivationPipeline S F :=
  mkPipeline st (prepared p) (rollup_config p) (l2_chain_provider p).
Definition set_prepared (l : list AttributesWithParent) (p : DerivationPipeline S F) : DerivationPipeline S F :=
  mkPipeline (stages p) l (rollup_config p) (l2_chain_provider p).
Definition set_l2_provider (f : F) (p : DerivationPipeline S F) : DerivationPipeline S F :=
  mkPipeline (stages p) (prepared p) (rollup_config p) f.

(** The walk back of [initial_reset]. The loop has no bound of its own: [fuel] is one. *)
Fixpoint walk_back (fuel : nat) (timeout l1_origin_number : Z) (current : L2BlockInfo) : act (DerivationPipeline S F) L2BlockInfo :=
  match fuel with
  | O => throw OutOfFuel
  | Datatypes.S fuel =>
      cfg ← gets rollup_config;
      if block_number (block_info current) =? num (genesis_l2 (genesis cfg)) then mret current
      else if add64 (num (l1_origin current)) timeout <=? l1_origin_number then mret current
      else
        next ← zoom l2_chain_provider set_l2_provider
                 (provider_call (l2_block_info_by_number (sub64 (block_number (block_info current)) 1)));
        walk_back fuel timeout l1_origin_number next
  end.

(** [DerivationPipeline::initial_reset] *)
Definition initial_reset (fuel : nat) (l2_safe_head : L2BlockInfo) : act (DerivationPipeline S F) (BlockNumHash * SystemConfig) :=
  cfg ← gets rollup_config;
  let ts := timestamp (block_info l2_safe_head) in
  let timeout := channel_timeout cfg (sat_sub ts (max_sequencer_drift cfg ts)) in
  current ← walk_back fuel timeout (num (l1_origin l2_safe_head)) l2_safe_head;
  sc ← zoom l2_chain_provider set_l2_provider (provider_call (system_config_by_number (block_number (block_info current))));
  mret (l1_origin current, sc).

(** A signal whose [Eof] is not an error. *)
Definition eof_ok (m : act (DerivationPipeline S F) unit) : act (DerivationPipeline S F) unit :=
  r ← try_run m;
  match r return act (DerivationPipeline S F) unit with
  | Ok _ | Err (Fail (Temporary Eof)) => mret tt
  | Err e => throw e
  end.

(** [DerivationPipeline::signal] *)
Definition signal (fuel : nat) (sg : Signal) : act (DerivationPipeline S F) unit :=
  match sg with
  | SReset l2_safe_head =>
      '(l1_origin, sc) ← initial_reset fuel l2_safe_head;
      eof_ok (zoom stages set_stages (reset l1_origin sc))
  | SActivation _ => eof_ok (zoom stages set_stages activate)
  | SFlushChannel => zoom stages set_stages flush_channel
  end.

(** [DerivationPipeline::step]; a panic or the end of the fuel of a stage is passed on. *)
Definition pipeline_step (cursor : L2BlockInfo) : act (DerivationPipeline S F) StepResult :=
  r ← try_run (zoom stages set_stages (next_attributes cursor));
  match r return act (DerivationPipeline S F) StepResult with
  | Ok a => modify (fun p => set_prepared (prepared p ++ [a]) p) ;; mret PreparedAttributes
  | Err (Fail (Temporary Eof)) =>
      r ← try_run (zoom stages set_stages advance_origin);
      match r return act (DerivationPipeline S F) StepResult with
      | Ok _ => mret AdvancedOrigin
      | Err (Fail e) => mret (OriginAdvanceErr e)
      | Err e => throw e
      end
  | Err (Fail e) => mret (StepFailed e)
  | Err e => throw e
  end.

(** [Iterator::next], [peek] *)
Definition next_prepared : act (DerivationPipeline S F) (option AttributesWithParent) :=
  l ← gets prepared;
  match l return act (DerivationPipeline S F) (option AttributesWithParent) with
  | [] => mret None
  | a :: l => modify (set_prepared l) ;; mret (Some a)
  end.
Definition peek (p : DerivationPipeline S F) : option AttributesWithParent := head (prepared p).
End pipeline.

(** * The walk back finds the start of the channel window *)

Section walk.
Context {S F : Type} `{L2ChainProvider F, BatchValidationProvider F}.
Context (l2 : Z -> L2BlockInfo) (Hl2 : forall n, block_number (block_info (l2 n)) = n).
Context (Hread : forall n (f : F), exists f', l2_block_info_by_number n f = (Ok (l2 n), f')).

(** The walk from block [n] stops at the first block that is old enough or the genesis. *)
Lemma walk_back_finds timeout limit (p : DerivationPipeline S F) n fuel :
  let g := num (genesis_l2 (genesis (rollup_config p))) in
  0 <= g <= n -> n <= U64_MAX -> n - g < Z.of_nat fuel ->
  exists m p', walk_back fuel timeout limit (l2 n) p = (Ok (l2 m), p') /\
    rollup_config p' = rollup_config p /\ stages p' = stages p /\ prepared p' = prepared p /\ g <= m <= n /\
    (m = g \/ add64 (num (l1_origin (l2 m))) timeout <= limit) /\
    forall i, m < i <= n -> i <> g /\ limit < add64 (num (l1_origin (l2 i))) timeout.
Proof.
  revert n p. induction fuel as [|fuel IH]; intros n p g Hg Hn Hf; [lia|]. cbn [walk_back].
  erewrite bind_run by reflexivity. rewrite Hl2. fold g. destruct (decide (n = g)) as [->|Hne].
  - rewrite Z.eqb_refl. exists g, p. split_and!; try done; try lia.
  - rewrite (proj2 (Z.eqb_neq _ _)) by lia.
    case_match eqn:Hle; [exists n, p; split_and!; try done; lia|].
    destruct (Hread (n - 1) (l2_chain_provider p)) as [f' Hf'].
    erewrite bind_run.
    2: { unfold zoom, provider_call, sub64. rewrite wrap_id by (unfold fits; lia). rewrite Hf'. reflexivity. }
    destruct (IH (n - 1) (set_l2_provider f' p)) as (m & p' & Hw & Hc & Hs & Hp & Hm & Hstop & Hmin); cbn [set_l2_provider rollup_config] in *; try lia.
    exists m, p'. split_and!; try done; try lia. intros i Hi. destruct (decide (i = n)) as [->|]; [fold g; lia|apply Hmin; lia].
Qed.

(** C30: A reset of the pipeline finds where to start: with a provider that serves the L2
    chain, the walk back from the safe head ends within as many reads as there are
    blocks above the genesis, at the newest block that is the genesis block or
    whose L1 origin is at least a channel timeout before the origin of the safe
    head. The stages restart at its origin with its system configuration. The comment
    on [initial_reset] says the block found is at most a channel timeout behind; by
    this theorem it is at least that far behind, unless it is the genesis block. *)
Theorem initial_reset_finds (sc : Z -> SystemConfig) (p : DerivationPipeline S F) n fuel :
  let cfg := rollup_config p in
  let g := num (genesis_l2 (genesis cfg)) in
  let ts := timestamp (block_info (l2 n)) in
  let timeout := channel_timeout cfg (sat_sub ts (max_sequencer_drift cfg ts)) in
  (forall i f, exists f', system_config_by_number i f = (Ok (sc i), f')) ->
  0 <= g <= n -> n <= U64_MAX -> n - g < Z.of_nat fuel ->
  exists m p', initial_reset fuel (l2 n) p = (Ok (l1_origin (l2 m), sc m), p') /\ stages p' = stages p /\ g <= m <= n /\
    (m = g \/ add64 (num (l1_origin (l2 m))) timeout <= num (l1_origin (l2 n))) /\
    forall i, m < i <= n -> num (l1_origin (l2 n)) < add64 (num (l1_origin (l2 i))) timeout.
Proof.
  intros cfg g ts timeout Hsc Hg Hn Hf.
  destruct (walk_back_finds timeout (num (l1_origin (l2 n))) p n fuel) as (m & p' & Hw & Hc & Hs & _ & Hm & Hstop & Hmin); [done..|].
  destruct (Hsc m (l2_chain_provider p')) as [f' Hsc']. exists m, (set_l2_provider f' p'). split; [|split; [done|split; [done|split; [done|intros i Hi; by apply Hmin]]]].
  unfold initial_reset. erewrite bind_run by reflexivity. erewrite bind_run by exact Hw. rewrite Hl2.
  erewrite bind_run; [reflexivity|]. unfold zoom, provider_call. by rewrite Hsc'.
Qed.
End walk.

(** * Attributes of validated batches *)

Section attributes.
Context (l1 : Z -> BlockInfo) (Hnum : forall n, block_number (l1 n) = n) (cfg : RollupConfig).
Context {P F C : Type} `{NextBatchLaws P, !OriginAdvancer P, !StageReset P}.
Context `{L2ChainProvider F, L1ChainProvider C, SolWords, BlobFees, Keccak256, DepositCodecs, UpgradeTxs}.

(** The headers, receipts and deposits of the L1 chain. *)
Context (hdr : Z -> L1Header) (rcpt : Z -> list Receipt) (deps : Z -> list (list Z)).

(** The L1 provider serves the chain: headers with their hash and parent, receipts
    whose deposits decode. *)
Record serves : Prop := {
  sv_header n (c : C) : exists c', header_by_hash (hash (l1 n)) c = (Ok (hdr n), c');
  sv_receipts n (c : C) : exists c', l1_receipts_by_hash (hash (l1 n)) c = (Ok (rcpt n), c');
  sv_parent n : h_parent_hash (hdr n) = hash (l1 (n - 1));
  sv_time n : h_timestamp (hdr n) = timestamp (l1 n);
  sv_distinct a b : hash (l1 a) = hash (l1 b) -> a = b;
  sv_deposits n : derive_deposits (hash (l1 n)) (rcpt n) (deposit_contract_address cfg) = Ok (deps n);
}.

(** What origin [n] contributes to the block after [h]. *)
Definition origin_data (h : L2BlockInfo) (n : Z) (sc : SystemConfig) : EpochData :=
  if n =? num (l1_origin h) then mkEpochData (hdr n) [] sc (add64 (seq_num h) 1)
  else mkEpochData (hdr n) (deps n)
         (update_with_receipts (rcpt n) (l1_system_config_address cfg) (is_ecotone_active cfg (h_timestamp (hdr n))) sc).2 0.

Lemma origin_header h n sc : ed_header (origin_data h n sc) = hdr n.
Proof. unfold origin_data. by case_match. Qed.
Lemma origin_deposits h n sc : ed_deposits (origin_data h n sc) = if n =? num (l1_origin h) then [] else deps n.
Proof. unfold origin_data. by case_match. Qed.

Lemma epoch_data_run h n sc (b : StatefulAttributesBuilder F C) :
  serves -> head_ok l1 cfg h -> rollup_cfg b = cfg -> num (l1_origin h) <= n ->
  exists c', epoch_data h (block_id (l1 n)) sc b =
    (if n <=? num (l1_origin h) + 1 then Ok (origin_data h n sc) else Err (Fail (Reset AttributesBuilderReset)),
     set_receipts_fetcher c' b).
Proof.
  intros Hs Hh Hc Hn. pose proof (ho_origin _ _ _ Hh) as Ho. unfold epoch_data, origin_data. erewrite bind_run by reflexivity.
  rewrite Hc. cbn [num num_hash block_id]. rewrite Hnum.
  destruct (sv_header Hs n (receipts_fetcher b)) as [c1 H1'].
  assert (num_hash (l1_origin h) = hash (l1 (num (l1_origin h)))) as Hho by (by rewrite Ho at 1).
  rewrite Hho. destruct (decide (n = num (l1_origin h))) as [->|Hne].
  - rewrite !Z.eqb_refl. cbn [negb]. exists c1. rewrite (proj2 (Z.leb_le _ _)) by lia.
    erewrite bind_run by (unfold zoom, provider_call; rewrite H1'; reflexivity). done.
  - rewrite (proj2 (Z.eqb_neq (num _) n)), (proj2 (Z.eqb_neq n _)) by lia. cbn [negb].
    erewrite bind_run by (unfold zoom, provider_call; rewrite H1'; reflexivity). rewrite (sv_parent Hs).
    destruct (decide (n = num (l1_origin h) + 1)) as [->|Hne2].
    + replace (num (l1_origin h) + 1 - 1) with (num (l1_origin h)) by lia. rewrite Z.eqb_refl. cbn [negb].
      destruct (sv_receipts Hs (num (l1_origin h) + 1) c1) as [c2 H2'].
      erewrite bind_run by (unfold zoom, provider_call; cbn [receipts_fetcher set_receipts_fetcher]; rewrite H2'; reflexivity).
      rewrite (sv_deposits Hs), (proj2 (Z.leb_le _ _)) by lia. destruct (update_with_receipts _ _ _ _) as [us sc'] eqn:Hu.
      by exists c2.
    + rewrite (proj2 (Z.eqb_neq _ _)); [cbn [negb]|intros Heq%(sv_distinct Hs); lia].
      rewrite (proj2 (Z.leb_gt _ _)) by lia. by exists c1.
Qed.

(** The attributes of the block after [h] from the batch [b] on origin [n]. *)
Definition expected (l1c : L1Config) (h : L2BlockInfo) (n : Z) (b : SingleBatch) (sc : SystemConfig) : PayloadAttributes :=
  add_batch_txs (transactions b) (build_attributes cfg l1c h (origin_data h n sc)).

Lemma prepare_run h n b sc (bl : StatefulAttributesBuilder F C) f' :
  serves -> head_ok l1 cfg h -> rollup_cfg bl = cfg -> batch_on l1 cfg h n b ->
  system_config_by_number (block_number (block_info h)) (config_fetcher bl) = (Ok sc, f') ->
  exists bl', prepare_payload_attributes h (batch_epoch b) bl =
    (if n <=? num (l1_origin h) + 1 then Ok (build_attributes cfg (l1_cfg bl) h (origin_data h n sc))
     else Err (Fail (Reset AttributesBuilderReset)), bl').
Proof.
  intros Hs Hh Hc Hb Hsc. unfold prepare_payload_attributes.
  erewrite bind_run by (unfold zoom, provider_call; rewrite Hsc; reflexivity).
  rewrite (bo_epoch _ _ _ _ _ Hb). pose proof (bo_advance _ _ _ _ _ Hb) as Hn.
  destruct (epoch_data_run h n sc (set_config_fetcher f' bl) Hs Hh Hc ltac:(lia)) as [c' He].
  case_match eqn:Hle; [|eexists; by erewrite bind_run_err by exact He].
  erewrite bind_run by exact He. erewrite bind_run by reflexivity. cbn [id rollup_cfg set_receipts_fetcher set_config_fetcher l1_cfg].
  rewrite Hc, origin_header, (sv_time Hs), (proj2 (Z.ltb_ge _ _)); [by eexists|]. rewrite <- (bo_time _ _ _ _ _ Hb). apply (bo_l1_time _ _ _ _ _ Hb).
Qed.

Lemma create_run h n b sc (s : AttributesQueue (BatchValidator P) (StatefulAttributesBuilder F C)) f' :
  serves -> head_ok l1 cfg h -> aq_cfg s = cfg -> rollup_cfg (builder s) = cfg -> batch_on l1 cfg h n b ->
  system_config_by_number (block_number (block_info h)) (config_fetcher (builder s)) = (Ok sc, f') ->
  exists bl', create_next_attributes b h s =
    (if n <=? num (l1_origin h) + 1 then Ok (expected (l1_cfg (builder s)) h n b sc) else Err (Fail (Reset AttributesBuilderReset)),
     set_builder bl' s).
Proof.
  intros Hs Hh Hc Hbc Hon Hsc. destruct (prepare_run h n b sc (builder s) f' Hs Hh Hbc Hon Hsc) as [bl' Hprep]. exists bl'.
  unfold create_next_attributes. rewrite (bo_parent _ _ _ _ _ Hon), Z.eqb_refl. cbn [negb].
  erewrite bind_run by reflexivity. rewrite Hc, (bo_time _ _ _ _ _ Hon), Z.eqb_refl. cbn [negb].
  unfold mbind, stm_bind, zoom. cbn [prepare_attributes stateful_builder]. rewrite Hprep. by case_match.
Qed.

(** C22: The attributes of a derived block. For a validator in any state of a run, an
    empty attributes queue above it, and an L1 provider that serves the chain: if
    the validator returns a batch, its L1 origin [n] is between the origin of the
    safe head and two after it. If it is at most one after, the queue returns the
    attributes at the next block time with exactly the L1 info transaction, the
    deposits of the origin if it is new, the transactions of upgrades and those of
    the batch, in this order, and forgets the batch. If it is two after, the queue
    asks for a reset and keeps the batch. No other error is possible: the checks
    of parent hash, timestamp and L1 time always pass. *)
Theorem derived_attributes x v h b v' sc (q : AttributesQueue (BatchValidator P) (StatefulAttributesBuilder F C)) f' m :
  serves -> vstart l1 cfg x -> rtc (vstep l1 cfg) x (v, h) -> validator_next_batch h v = (Ok b, v') ->
  aq_cfg q = cfg -> rollup_cfg (builder q) = cfg -> aq_prev q = v -> aq_batch q = None -> origin (bv_prev v) = Some (l1 m) ->
  system_config_by_number (block_number (block_info h)) (config_fetcher (builder q)) = (Ok sc, f') ->
  exists n q', num (l1_origin h) <= n <= num (l1_origin h) + 2 /\ batch_epoch b = block_id (l1 n) /\
    if n <=? num (l1_origin h) + 1 then
      queue_next_attributes h q = (Ok (mkAttributesWithParent (expected (l1_cfg (builder q)) h n b sc) h (Some (l1 m))
                                         (is_last_in_span v')), q') /\
      aq_batch q' = None /\
      pa_timestamp (expected (l1_cfg (builder q)) h n b sc) = sb_timestamp b /\
      pa_transactions (expected (l1_cfg (builder q)) h n b sc) =
        Some (encode_2718 (try_new_with_deposit_tx cfg (l1_cfg (builder q)) (ed_config (origin_data h n sc))
                (ed_sequence_number (origin_data h n sc)) (hdr n) (sb_timestamp b)).2 ::
              ((if n =? num (l1_origin h) then [] else deps n) ++
               upgrade_transactions cfg (timestamp (block_info h)) (sb_timestamp b)) ++ transactions b)
    else queue_next_attributes h q = (Err (Fail (Reset AttributesBuilderReset)), q') /\ aq_batch q' = Some b.
Proof.
  intros Hs Hx Hr Hb Hqc Hbc Hp Hq Ho Hsc. destruct (reach_inv l1 cfg Hnum _ _ Hx Hr) as (m1 & m0 & j & Hi). cbn in Hi.
  pose proof (vi_head _ _ _ _ _ _ _ Hi) as Hh. pose proof (vi_prev _ _ _ _ _ _ _ Hi) as Hm. rewrite Ho in Hm. injection Hm as <-%(l1_inj l1 Hnum).
  destruct (validator_next_ok l1 Hnum cfg v h m m0 j Hi) as (j' & Hi' & Hn). rewrite Hb in Hi', Hn.
  destruct (Hn b eq_refl) as (n & Hon & _). pose proof (vi_prev _ _ _ _ _ _ _ Hi') as Hprev. cbn in Hprev.
  assert (load_batch h q = (Ok b, set_aq_batch (is_last_in_span v') (Some b) (set_aq_prev v' q))) as Hload.
  { unfold load_batch. erewrite bind_run by reflexivity. rewrite Hq. rewrite (bind_run _ _ _ b (set_aq_prev v' q)); [done|].
    unfold zoom. rewrite Hp. cbn [next_single_batch validator_batches]. by rewrite Hb. }
  destruct (create_run h n b sc (set_aq_batch (is_last_in_span v') (Some b) (set_aq_prev v' q)) f' Hs Hh Hqc Hbc Hon Hsc) as [bl' Hcreate].
  exists n. unfold queue_next_attributes. erewrite bind_run by exact Hload.
  case_match eqn:Hle.
  - eexists. split; [by destruct Hon|]. split; [by destruct Hon|].
    split; [|split; [|split]].
    + erewrite bind_run by exact Hcreate. erewrite bind_run by reflexivity. cbn. rewrite Hprev. reflexivity.
    + done.
    + by rewrite (bo_time _ _ _ _ _ Hon).
    + unfold expected, build_attributes. rewrite (bo_time _ _ _ _ _ Hon), origin_header, origin_deposits.
      by destruct (try_new_with_deposit_tx cfg _ _ _ _ _).
  - eexists. split; [by destruct Hon|]. split; [by destruct Hon|].
    split; [by erewrite bind_run_err by exact Hcreate|done].
Qed.
End attributes.

Module AttributesExample.
Import BatchSafetyExample.
#[local] Existing Instance no_batches.
#[local] Existing Instance at_block.
#[local] Existing Instance to_block.
#[local] Existing Instance no_batches_laws.
#[local] Existing Instance DepositsExample.codecs.
#[local] Existing Instance L1InfoExample.hash.
#[local] Existing Instance L1InfoExample.fees.
#[local] Existing Instance ConfigExample.words.
#[local] Instance advancer : OriginAdvancer Z := {| advance_origin := mret tt |}.
#[local] Instance no_upgrades : UpgradeTxs := {| ecotone_txs := []; fjord_txs := []; isthmus_txs := []; jovian_txs := [] |}.

Definition hdr (n : Z) : L1Header := mkL1Header (1000 + n) n (999 + n) (12 * n) (Some 30) 1 None.
#[local] Instance l1_provider : L1ChainProvider unit :=
  {| header_by_hash h := mret (hdr (h - 1000)); l1_receipts_by_hash _ := mret [] |}.
#[local] Instance config_provider : L2ChainProvider unit := {| system_config_by_number _ := mret sc |}.

Lemma serves_ok : serves l1 cfg (C := unit) hdr (fun _ => []) (fun _ => []).
Proof.
  constructor; intros.
  - exists c. cbn. unfold mret, stm_ret. do 2 f_equal. unfold hdr, l1. cbn [hash]. f_equal; lia.
  - by exists c.
  - cbn. lia.
  - done.
  - revert H. cbn. lia.
  - done.
Qed.

Definition queue : AttributesQueue (BatchValidator Z) (StatefulAttributesBuilder unit unit) :=
  new_attributes_queue cfg at_7 (mkBuilder cfg L1InfoExample.l1 tt tt).

Lemma derived_attributes_witness :
  exists n a q', num (l1_origin head) <= n /\ n <= num (l1_origin head) + 1 /\ queue_next_attributes head queue = (Ok a, q').
Proof.
  destruct (derived_attributes l1 (fun _ => eq_refl) cfg hdr (fun _ => []) (fun _ => []) (started, head) at_7 head
    (empty_batch cfg head (l1 5)) (call at_7) sc queue tt 7) as (n & q' & Hn & He & Hq).
  - exact serves_ok.
  - exact started_ok.
  - exact at_7_reached.
  - by vm_compute.
  - done.
  - done.
  - done.
  - done.
  - done.
  - done.
  - assert (n = 5) as -> by (injection He; cbn; lia). destruct Hq as [Hq _].
    exists 5. do 2 eexists. split; [done|]. split; [done|exact Hq].
Defined.

(** An L2 chain with one block per L1 block. *)
Definition l2 (n : Z) : L2BlockInfo := mkL2BlockInfo (mkBlockInfo (2000 + n) n (1999 + n) (12 * n)) (mkBlockNumHash n (1000 + n)) 0.
#[local] Instance l2_blocks : BatchValidationProvider unit :=
  {| l2_block_info_by_number n := mret (l2 n); block_by_number _ := throw (Critical Provider) |}.

Lemma l2_read n (f : unit) : exists f', l2_block_info_by_number n f = (Ok (l2 n), f').
Proof. by exists f. Qed.

Lemma initial_reset_finds_witness :
  exists m p', initial_reset 4 (l2 3) (mkPipeline tt [] cfg tt) = (Ok (l1_origin (l2 m), sc), p') /\ 0 <= m <= 3.
Proof.
  destruct (initial_reset_finds (S := unit) (F := unit) l2 (fun _ => eq_refl) l2_read (fun _ => sc)
    (mkPipeline tt [] cfg tt) 3 4) as (m & p' & Hr & _ & Hm & _).
  - intros i f. by exists f.
  - done.
  - done.
  - done.
  - by exists m, p'.
Defined.
End AttributesExample.
