(* ===== verification/BlobSource.v ===== *)
(** Data sources of the derivation pipeline ([crates/consensus/derive/src/sources]):
    the blobs and the calldata of batcher transactions, and the choice between
    the two. *)

From S2P Require Import Prelude Buffer Frames Blobs BlobCodec Rollup SystemConfig Pipeline.

(** * Blob data ([blob_data.rs]) *)

Record BlobData : Type := mkBlobData { blob_bytes : option (list Z); calldata : option (list Z) }.
Definition default_blob_data : BlobData := mkBlobData None None.

Definition data_field_element (data : list Z) (output_pos input_pos : Z)
    : stm (list Z) (fault BlobDecodingError) (Z * Z * Z) :=
  b <<- byte_at data input_pos;
  if negb (Z.land b 0xC0 =? 0) then throw (Fail BadFieldElement)
  else
    s <<- slice data (input_pos + 1) (input_pos + 32);
    copy_to output_pos (output_pos + 31) s ;;
    mret (b, output_pos + 32, input_pos + 32).

Definition data_round0 (data : list Z) : stm (list Z) (fault BlobDecodingError) (Z * Z) :=
  s0 <<- slice data 5 32; copy_to 0 27 s0 ;;
  e0 <<- byte_at data 0;
  '(e1, opos, ipos) ← data_field_element data 28 32;
  '(e2, opos, ipos) ← data_field_element data opos ipos;
  '(e3, opos, ipos) ← data_field_element data opos ipos;
  opos ← reassemble_bytes opos e0 e1 e2 e3;
  mret (opos, ipos).

Definition data_round (data : list Z) (opos ipos : Z) : stm (list Z) (fault BlobDecodingError) (Z * Z) :=
  '(e0, opos, ipos) ← data_field_element data opos ipos;
  '(e1, opos, ipos) ← data_field_element data opos ipos;
  '(e2, opos, ipos) ← data_field_element data opos ipos;
  '(e3, opos, ipos) ← data_field_element data opos ipos;
  opos ← reassemble_bytes opos e0 e1 e2 e3;
  mret (opos, ipos).

Fixpoint data_rounds (n : nat) (data : list Z) (length opos ipos : Z)
    : stm (list Z) (fault BlobDecodingError) (Z * Z) :=
  match n with
  | O => mret (opos, ipos)
  | S n =>
      if opos >=? length then mret (opos, ipos)
      else
        '(opos, ipos) ← data_round data opos ipos;
        data_rounds n data length opos ipos
  end.

(** [for o in output.iter().skip(length) { if *o != 0u8 .. }] *)
Definition check_output (output : list Z) (length : Z) : result (fault BlobDecodingError) unit :=
  if forallb (fun o => o =? 0) (drop (Z.to_nat length) output) then Ok tt else Err (Fail BadFieldElement).

(** [for i in input_pos..BYTES_PER_BLOB { if data[i] != 0 .. }], [n] bytes left. *)
Fixpoint check_input (n : nat) (data : list Z) (i : Z) : result (fault BlobDecodingError) unit :=
  match n with
  | O => Ok tt
  | S n =>
      b ← byte_at data i;
      if negb (b =? 0) then Err (Fail BadFieldElement) else check_input n data (i + 1)
  end.

(** [BlobData::decode] *)
Definition blob_data_decode (self : BlobData) : result (fault BlobDecodingError) (list Z) :=
  match blob_bytes self with
  | None => Err (Fail MissingData)
  | Some data =>
      version ← byte_at data VERSIONED_HASH_VERSION_KZG;
      if negb (version =? BLOB_ENCODING_VERSION) then Err (Fail BadEncodingVersion)
      else
        l1 ← byte_at data 2; l2 ← byte_at data 3; l3 ← byte_at data 4;
        let length := be_val [0; l1; l2; l3] in
        if length >? BLOB_MAX_DATA_SIZE then Err (Fail BadLength)
        else
          let '(r, output) :=
            ('(opos, ipos) ← data_round0 data;
             data_rounds (Z.to_nat (BLOB_ENCODING_ROUNDS - 1)) data length opos ipos)
              (zeros BLOB_MAX_DATA_SIZE) in
          '(_, input_pos) ← r;
          _ ← check_output output length;
          _ ← check_input (Z.to_nat (BYTES_PER_BLOB - input_pos)) data input_pos;
          Ok (take (Z.to_nat length) output)
  end.

(** [BlobData::fill]; a blob is an array of fixed size, so it is never empty. *)
Definition fill (blobs : list (list Z)) (index : Z) : stm BlobData (fault BlobProviderError) bool := fun self =>
  match calldata self with
  | Some _ => (Ok false, self)
  | None =>
      match blobs !! Z.to_nat index with
      | None => (Err (Fail (NotEnoughBlobs index (zlen blobs))), self)
      | Some [] => (Err (Fail (BlobDecoding MissingData)), self)
      | Some b => (Ok true, mkBlobData (Some b) (calldata self))
      end
  end.

(** * The two decoders agree *)

(** The pipeline's error for an error of the batcher's decoder. *)
Definition collapse (e : BlobDecodeError) : BlobDecodingError :=
  match e with
  | InvalidFieldElement _ | NonZeroPadding _ => BadFieldElement
  | InvalidEncodingVersion _ => BadEncodingVersion
  | Blobs.InvalidLength _ => BadLength
  end.

Section map_fail.
Context {S E F : Type} (f : E -> F).

Lemma map_fail_bind {A B} (r : result (fault E) A) (k : A -> result (fault E) B) :
  map_fail f (mbind k r) = mbind (fun a => map_fail f (k a)) (map_fail f r).
Proof. by destruct r as [|[]]. Qed.
Lemma stm_map_fail_bind {A B} (m : stm S (fault E) A) (k : A -> stm S (fault E) B) s :
  stm_map_fail f (mbind k m) s = mbind (fun a => stm_map_fail f (k a)) (stm_map_fail f m) s.
Proof. unfold stm_map_fail, mbind, stm_bind. by destruct (m s) as [[|[]]]. Qed.
Lemma map_fail_byte_at {A} (l : list A) i : map_fail f (byte_at l i) = byte_at l i.
Proof. unfold byte_at. destruct (_ <? _); [done|]. by destruct (l !! _). Qed.
Lemma map_fail_slice {A} (l : list A) i j : map_fail f (slice l i j) = slice l i j.
Proof. unfold slice. by destruct (_ && _). Qed.
Lemma stm_map_fail_lift {A} (r : result (fault E) A) (s : S) :
  stm_map_fail f (lift r) s = lift (map_fail f r) s.
Proof. done. Qed.
Lemma stm_map_fail_put {A} i (v : A) out : stm_map_fail f (put i v) out = put i v out.
Proof. unfold stm_map_fail, put. by destruct (_ && _). Qed.
Lemma stm_map_fail_copy_to {A} i j (src out : list A) : stm_map_fail f (copy_to i j src) out = copy_to i j src out.
Proof. unfold stm_map_fail, copy_to. by destruct (_ && _). Qed.
End map_fail.

(** Two computations agree on all states. *)
Lemma bind_ext {S E A B} (m m' : stm S E A) (k k' : A -> stm S E B) s :
  m s = m' s -> (forall a s', k a s' = k' a s') -> (mbind k m) s = (mbind k' m') s.
Proof. intros Hm Hk. unfold mbind, stm_bind. rewrite Hm. by destruct (m' s) as [[]]. Qed.

Ltac agree :=
  repeat (rewrite stm_map_fail_bind || rewrite stm_map_fail_lift || rewrite map_fail_byte_at || rewrite map_fail_slice);
  first [ apply bind_ext; [|intros ? ?] | done ].

Lemma field_element_agrees data opos ipos out :
  stm_map_fail collapse (decode_field_element data opos ipos) out = data_field_element data opos ipos out.
Proof.
  unfold decode_field_element, data_field_element. agree.
  { by rewrite stm_map_fail_lift, map_fail_byte_at. }
  destruct (negb _); [done|]. agree. { by rewrite stm_map_fail_lift, map_fail_slice. }
  agree. { apply stm_map_fail_copy_to. } done.
Qed.

Lemma reassemble_agrees opos e0 e1 e2 e3 out :
  stm_map_fail collapse (reassemble_bytes opos e0 e1 e2 e3) out = reassemble_bytes opos e0 e1 e2 e3 out.
Proof.
  unfold reassemble_bytes. do 3 (agree; [apply stm_map_fail_put|]). done.
Qed.

Ltac agree_field := agree; [apply field_element_agrees|]; match goal with p : Z * Z * Z |- _ => destruct p as [[? ?] ?] end.

Lemma round_agrees data opos ipos out :
  stm_map_fail collapse (decode_round data opos ipos) out = data_round data opos ipos out.
Proof.
  unfold decode_round, data_round. do 4 agree_field. agree; [apply reassemble_agrees|]. done.
Qed.

Lemma round0_agrees data out :
  stm_map_fail collapse (decode_round0 data) out = data_round0 data out.
Proof.
  unfold decode_round0, data_round0. agree. { by rewrite stm_map_fail_lift, map_fail_slice. }
  agree. { apply stm_map_fail_copy_to. } agree. { by rewrite stm_map_fail_lift, map_fail_byte_at. }
  do 3 agree_field. agree; [apply reassemble_agrees|]. done.
Qed.

Lemma rounds_agree n data length opos ipos out :
  stm_map_fail collapse (decode_rounds n data length opos ipos) out = data_rounds n data length opos ipos out.
Proof.
  revert opos ipos out. induction n as [|n IH]; intros opos ipos out; [done|]. cbn [decode_rounds data_rounds].
  destruct (_ >=? _); [done|]. agree; [apply round_agrees|]. destruct a. apply IH.
Qed.

Lemma forallb_zero l : forallb (fun o => o =? 0) l = true <-> all_zero l.
Proof.
  induction l as [|b l IH]; cbn; [done|]. rewrite andb_true_iff, IH, Forall_cons, Z.eqb_eq. done.
Qed.

Lemma padding_agrees l i : map_fail collapse (check_padding l i) = check_output l i.
Proof.
  unfold check_padding, check_output. pose proof (find_nonzero_None i (drop (Z.to_nat i) l)) as Hf.
  pose proof (forallb_zero (drop (Z.to_nat i) l)) as Hz.
  destruct (find_nonzero _ _), (forallb _ _); cbn; try done; naive_solver.
Qed.

Lemma input_agrees n data i :
  0 <= i -> Z.of_nat n = zlen data - i -> check_input n data i = check_output data i.
Proof.
  revert i. induction n as [|n IH]; intros i Hi Hn; cbn [check_input]; unfold check_output.
  - rewrite drop_ge by (unfold zlen in Hn; lia). done.
  - assert (0 <= i < zlen data) as Hr by lia. rewrite (byte_at_nth data i Hr). cbn [mbind result_bind].
    assert (drop (Z.to_nat i) data = nth (Z.to_nat i) data 0 :: drop (Z.to_nat (i + 1)) data) as ->.
    { replace (Z.to_nat (i + 1)) with (S (Z.to_nat i)) by lia. apply drop_S.
      destruct (lookup_lt_is_Some_2 data (Z.to_nat i)) as [x Hx]; [unfold zlen in Hr; lia|].
      rewrite Hx. f_equal. symmetry. by apply nth_lookup_Some. }
    cbn [forallb]. destruct (_ =? 0); cbn [negb andb]; [|done]. apply IH; lia.
Qed.

Lemma data_decode_eq b calldata :
  zlen b = BYTES_PER_BLOB ->
  blob_data_decode (mkBlobData (Some b) calldata) = map_fail collapse (blob_decode b).
Proof.
  intros Hb. unfold blob_data_decode, blob_decode. cbn [blob_bytes].
  rewrite !(byte_at_nth b) by (unfold BYTES_PER_BLOB, VERSIONED_HASH_VERSION_KZG in *; lia).
  cbn [mbind result_bind]. unfold BLOB_ENCODING_VERSION. destruct (negb _); [done|].
  change (be_val _) with (blob_length b). destruct (_ >? _); [done|].
  assert (forall out, stm_map_fail collapse (mbind (fun '(opos, ipos) =>
      decode_rounds (Z.to_nat (BLOB_ENCODING_ROUNDS - 1)) b (blob_length b) opos ipos) (decode_round0 b)) out
    = (mbind (fun '(opos, ipos) =>
      data_rounds (Z.to_nat (BLOB_ENCODING_ROUNDS - 1)) b (blob_length b) opos ipos) (data_round0 b)) out) as Hrun.
  { intros out. agree; [apply round0_agrees|]. destruct a. apply rounds_agree. }
  rewrite <- Hrun. unfold stm_map_fail. rewrite rounds_eq.
  destruct (decode_buffer b Hb) as [(o & u & used & opos & _ & _ & Hr & Hbu)|(e & out & Hr & _)]; rewrite Hr; [|done].
  cbn [map_fail mbind result_bind]. rewrite map_fail_bind, padding_agrees.
  destruct (check_output _ _) as [[]|]; [|done]. cbn [mbind result_bind].
  rewrite map_fail_bind, padding_agrees, input_agrees; [by destruct (check_output _ _) as [[]|]| |].
  - apply zlen_nonneg.
  - rewrite <- Hb. pose proof (f_equal zlen Hbu) as Hz. rewrite zlen_app in Hz.
    pose proof (zlen_nonneg u). lia.
Qed.

(** C37: The pipeline's blob decoder and the batcher's are the same function: on
    every blob of the protocol size they return the same payload, or both
    reject it for the same reason. *)
Theorem blob_decoders_agree b calldata :
  zlen b = BYTES_PER_BLOB ->
  blob_data_decode (mkBlobData (Some b) calldata) = map_fail collapse (blob_decode b).
Proof. apply data_decode_eq. Qed.

Module BlobSourceExample.
Lemma blob_decoders_agree_witness :
  blob_data_decode (mkBlobData (Some (blob_of [1; 2; 255])) None) = Ok [1; 2; 255].
Proof.
  destruct (blob_of_ok _ BlobCodecExample.short BlobCodecExample.short_bytes) as (Hl & _).
  rewrite (blob_decoders_agree _ None Hl).
  by rewrite (decode_blob_of _ BlobCodecExample.short BlobCodecExample.short_bytes).
Defined.
End BlobSourceExample.
