(* ===== verification/DataSource.v ===== *)
(** The data availability providers of the pipeline
    ([crates/consensus/derive/src/sources/blobs.rs], [calldata.rs], [ethereum.rs]).
    Each hands out, one at a time, the batcher data of an L1 block. *)

From S2P Require Import Prelude Buffer Frames Blobs BlobCodec Rollup SystemConfig Pipeline BlobSource.

(** * Blobs and calldata after Ecotone *)

Record BlobSource (C B : Type) : Type := mkBlobSource {
  chain_provider : C;
  blob_fetcher : B;
  inbox_address : Z;
  source_data : list BlobData;
  is_open : bool;
}.
Arguments mkBlobSource {C B}.
Arguments chain_provider {C B}.
Arguments blob_fetcher {C B}.
Arguments inbox_address {C B}.
Arguments source_data {C B}.
Arguments is_open {C B}.

Section blob_source.
Context {C B : Type} `{ChainProvider C, BlobProvider B}.

Definition set_chain (c : C) (s : BlobSource C B) : BlobSource C B :=
  mkBlobSource c (blob_fetcher s) (inbox_address s) (source_data s) (is_open s).
Definition set_fetcher (b : B) (s : BlobSource C B) : BlobSource C B :=
  mkBlobSource (chain_provider s) b (inbox_address s) (source_data s) (is_open s).
Definition set_data (d : list BlobData) (open : bool) (s : BlobSource C B) : BlobSource C B :=
  mkBlobSource (chain_provider s) (blob_fetcher s) (inbox_address s) d open.

(** The loop of [extract_blob_data]; [inbox] is [self.batcher_address]. *)
Fixpoint extract_blob_data (inbox : Z) (txs : list L1Tx) (batcher_address : Z) : list BlobData * list Z :=
  match txs with
  | [] => ([], [])
  | tx :: txs =>
      let '(data, hashes) := extract_blob_data inbox txs batcher_address in
      if decide (l1_tx_type tx = Eip7702) then (data, hashes)
      else match l1_to tx with
      | None => (data, hashes)
      | Some to =>
          if negb (to =? inbox) then (data, hashes)
          else if negb (default 0 (signer tx) =? batcher_address) then (data, hashes)
          else if decide (l1_tx_type tx <> Eip4844)
          then (mkBlobData None (Some (l1_input tx)) :: data, hashes)
          else ((const default_blob_data <$> blob_versioned_hashes tx) ++ data,
                blob_versioned_hashes tx ++ hashes)
      end
  end.

(** The loop that fills the blob pointers; returns the final [blob_index]. *)
Fixpoint fill_blobs (data : list BlobData) (blobs : list (list Z)) (blob_index : Z)
    : result (fault BlobProviderError) (list BlobData * Z) :=
  match data with
  | [] => Ok ([], blob_index)
  | d :: data =>
      let '(r, d) := fill blobs blob_index d in
      should_increment ← (r : result (fault BlobProviderError) bool);
      let next_index := if should_increment : bool then blob_index + 1 else blob_index in
      '(data, index) ← fill_blobs data blobs next_index;
      Ok (d :: data, index)
  end.

Definition load_blobs (block_ref : BlockInfo) (batcher_address : Z) : act (BlobSource C B) unit :=
  open ← gets is_open;
  if (open : bool) then mret tt
  else
    '(_, txs) ← zoom chain_provider set_chain (block_info_and_transactions_by_hash (hash block_ref));
    inbox ← gets inbox_address;
    let '(data, blob_hashes) := extract_blob_data inbox txs batcher_address in
    match blob_hashes with
    | [] => modify (set_data data true)
    | _ =>
        blobs ← zoom blob_fetcher set_fetcher
          (stm_map_fail blob_error_kind (get_and_validate_blobs block_ref blob_hashes));
        '(data, blob_index) ← lift (map_fail blob_error_kind (fill_blobs data blobs 0));
        if blob_index <? zlen blobs then reset_with (BlobsOverFill blob_index (zlen blobs))
        else modify (set_data data true)
    end.

(** [BlobSource::next_data] *)
Definition source_next_data : act (BlobSource C B) BlobData := fun s =>
  match source_data s with
  | [] => temp Eof s
  | d :: data => (Ok d, set_data data (is_open s) s)
  end.

(** [DataAvailabilityProvider::next]; the recursive call skips a blob that does
    not decode, and each call removes one element. *)
Fixpoint next_loop (fuel : nat) (block_ref : BlockInfo) (batcher_address : Z) : act (BlobSource C B) (list Z) :=
  match fuel with
  | O => throw OutOfFuel
  | S fuel =>
      load_blobs block_ref batcher_address ;;
      d ← source_next_data;
      match calldata d with
      | Some c => mret c
      | None =>
          match blob_data_decode d with
          | Ok d => mret d
          | Err (Fail _) => next_loop fuel block_ref batcher_address
          | Err Panic => throw Panic
          | Err OutOfFuel => throw OutOfFuel
          end
      end
  end.

(** The fuel is taken once the source is loaded; loading again is a no-op. *)
Definition blob_source_next (block_ref : BlockInfo) (batcher_address : Z) : act (BlobSource C B) (list Z) :=
  load_blobs block_ref batcher_address ;;
  n ← gets (fun s => length (source_data s));
  next_loop (S n) block_ref batcher_address.

Definition blob_source_clear (s : BlobSource C B) : BlobSource C B := set_data [] false s.

#[export] Instance blob_source_provider : DataAvailabilityProvider (BlobSource C B) :=
  {| da_next := blob_source_next; da_clear := blob_source_clear |}.
End blob_source.

(** * Calldata before Ecotone *)

Record CalldataSource (C : Type) : Type := mkCalldataSource {
  cd_chain_provider : C;
  cd_inbox_address : Z;
  cd_calldata : list (list Z);
  cd_open : bool;
}.
Arguments mkCalldataSource {C}.
Arguments cd_chain_provider {C}.
Arguments cd_inbox_address {C}.
Arguments cd_calldata {C}.
Arguments cd_open {C}.

Section calldata_source.
Context {C : Type} `{ChainProvider C}.

Definition set_cd_chain (c : C) (s : CalldataSource C) : CalldataSource C :=
  mkCalldataSource c (cd_inbox_address s) (cd_calldata s) (cd_open s).
Definition set_calldata (d : list (list Z)) (open : bool) (s : CalldataSource C) : CalldataSource C :=
  mkCalldataSource (cd_chain_provider s) (cd_inbox_address s) d open.

(** The closure of [filter_map] in [load_calldata]. *)
Definition batcher_calldata (inbox batcher_address : Z) (tx : L1Tx) : option (list Z) :=
  if decide (l1_tx_type tx = Eip7702) then None
  else
    to ← l1_to tx;
    if negb (to =? inbox) then None
    else
      from ← signer tx;
      if negb (from =? batcher_address) then None else Some (l1_input tx).

Definition load_calldata (block_ref : BlockInfo) (batcher_address : Z) : act (CalldataSource C) unit :=
  open ← gets cd_open;
  if (open : bool) then mret tt
  else
    '(_, txs) ← zoom cd_chain_provider set_cd_chain (block_info_and_transactions_by_hash (hash block_ref));
    inbox ← gets cd_inbox_address;
    modify (set_calldata (omap (batcher_calldata inbox batcher_address) txs) true).

(** [self.calldata.pop_front().ok_or(PipelineError::Eof.temp())] *)
Definition pop_calldata : act (CalldataSource C) (list Z) := fun s =>
  match cd_calldata s with
  | [] => temp Eof s
  | d :: data => (Ok d, set_calldata data (cd_open s) s)
  end.

Definition calldata_source_next (block_ref : BlockInfo) (batcher_address : Z) : act (CalldataSource C) (list Z) :=
  load_calldata block_ref batcher_address ;; pop_calldata.

#[export] Instance calldata_source_provider : DataAvailabilityProvider (CalldataSource C) :=
  {| da_next := calldata_source_next; da_clear := set_calldata [] false |}.
End calldata_source.

(** * The switch at Ecotone *)

Record EthereumDataSource (C B : Type) : Type := mkEthereumDataSource {
  ecotone_timestamp : option Z;
  blob_source : BlobSource C B;
  calldata_source : CalldataSource C;
}.
Arguments mkEthereumDataSource {C B}.
Arguments ecotone_timestamp {C B}.
Arguments blob_source {C B}.
Arguments calldata_source {C B}.

Section ethereum.
Context {C B : Type} `{ChainProvider C, BlobProvider B}.

Definition ethereum_next (block_ref : BlockInfo) (batcher_address : Z) : act (EthereumDataSource C B) (list Z) :=
  e ← gets ecotone_timestamp;
  if match (e : option Z) with Some e => timestamp block_ref >=? e | None => false end
  then zoom blob_source (fun b s => mkEthereumDataSource (ecotone_timestamp s) b (calldata_source s))
         (blob_source_next block_ref batcher_address)
  else zoom calldata_source (fun c s => mkEthereumDataSource (ecotone_timestamp s) (blob_source s) c)
         (calldata_source_next block_ref batcher_address).

Definition ethereum_clear (s : EthereumDataSource C B) : EthereumDataSource C B :=
  mkEthereumDataSource (ecotone_timestamp s) (blob_source_clear (blob_source s))
    (set_calldata [] false (calldata_source s)).

#[export] Instance ethereum_provider : DataAvailabilityProvider (EthereumDataSource C B) :=
  {| da_next := ethereum_next; da_clear := ethereum_clear |}.
End ethereum.

(** * What the blob source delivers *)

(** [extract_blob_data] considers the transaction. *)
Definition from_batcher (inbox batcher : Z) (tx : L1Tx) : bool :=
  bool_decide (l1_tx_type tx <> Eip7702 /\ l1_to tx = Some inbox /\ default 0 (signer tx) = batcher).

Definition decoded (b : list Z) : option (list Z) :=
  match blob_decode b with Ok d => Some d | Err _ => None end.

(** The data of a block, in the order of its transactions: the input of each
    batcher transaction, or what its blobs decode to. *)
Fixpoint delivered (inbox batcher : Z) (txs : list L1Tx) (blobs : list (list Z)) : list (list Z) :=
  match txs with
  | [] => []
  | tx :: txs =>
      if from_batcher inbox batcher tx then
        if decide (l1_tx_type tx = Eip4844)
        then omap decoded (take (length (blob_versioned_hashes tx)) blobs) ++
             delivered inbox batcher txs (drop (length (blob_versioned_hashes tx)) blobs)
        else l1_input tx :: delivered inbox batcher txs blobs
      else delivered inbox batcher txs blobs
  end.

(** Calls of [next] until the source reports the end of its data. *)
Inductive drains {S A} (next : act S A) : S -> list A -> S -> Prop :=
| drains_eof s s' : next s = (Err (Fail (Temporary Eof)), s') -> drains next s [] s'
| drains_next s a s1 l s' : next s = (Ok a, s1) -> drains next s1 l s' -> drains next s (a :: l) s'.

Lemma drains_eq {S A} (next : act S A) s s1 l s' : next s = next s1 -> drains next s1 l s' -> drains next s l s'.
Proof. intros He Hd. inversion Hd; subst; [apply drains_eof|eapply drains_next]; (by rewrite He) || done. Qed.

Definition blob_sized (b : list Z) : Prop := zlen b = BYTES_PER_BLOB.

(** The data entries that wait for a blob. *)
Definition slots (data : list BlobData) : nat := length (filter (fun d => calldata d = None) data).

Fixpoint filled (data : list BlobData) (blobs : list (list Z)) : list BlobData :=
  match data, blobs with
  | [], _ => []
  | d :: data, _ =>
      match calldata d, blobs with
      | Some _, _ => d :: filled data blobs
      | None, b :: blobs => mkBlobData (Some b) None :: filled data blobs
      | None, [] => []
      end
  end.

Definition yield (d : BlobData) : option (list Z) :=
  match calldata d with Some c => Some c | None => blob_bytes d ≫= decoded end.

(** A loaded entry: calldata, or a blob of the protocol size. *)
Definition entry_ok (d : BlobData) : Prop :=
  calldata d = None -> exists b, blob_bytes d = Some b /\ blob_sized b.

Lemma blob_sized_cons b : blob_sized b -> exists x r, b = x :: r.
Proof. unfold blob_sized, BYTES_PER_BLOB. destruct b; [done|]. eauto. Qed.

Lemma slots_cons d data : slots (d :: data) = (match calldata d with Some _ => 0 | None => 1 end + slots data)%nat.
Proof. unfold slots. rewrite filter_cons. destruct (calldata d), (decide _); by try done. Qed.

Lemma fill_blobs_run data pre blobs :
  Forall blob_sized blobs ->
  fill_blobs data (pre ++ blobs) (zlen pre) =
  if decide (slots data <= length blobs)%nat then Ok (filled data blobs, zlen pre + Z.of_nat (slots data))
  else Err (Fail (NotEnoughBlobs (zlen (pre ++ blobs)) (zlen (pre ++ blobs)))).
Proof.
  revert pre blobs. induction data as [|d data IH]; intros pre blobs Hb; cbn [fill_blobs filled].
  { rewrite decide_True by (cbn; lia). by rewrite Z.add_0_r. }
  rewrite slots_cons. unfold fill. destruct (calldata d) as [c|] eqn:Ec.
  - cbn [mbind result_bind]. rewrite IH by done. cbn [Nat.add]. by destruct (decide _).
  - unfold zlen. rewrite Nat2Z.id, lookup_app_r, Nat.sub_diag by lia. destruct blobs as [|b blobs]; cbn [lookup list_lookup].
    { rewrite decide_False by (cbn; lia). by rewrite app_nil_r. }
    apply Forall_cons in Hb as [Hb Hbs]. destruct (blob_sized_cons b Hb) as (x & r & ->).
    cbn [mbind result_bind]. specialize (IH (pre ++ [x :: r]) blobs Hbs). rewrite zlen_app in IH.
    rewrite <- (assoc_L (++)) in IH. cbn [app] in IH. unfold zlen in IH at 1 2. cbn [length] in IH.
    change (Z.of_nat 1) with 1 in IH. rewrite IH. cbn [length].
    destruct (decide (slots data <= length blobs)%nat).
    + rewrite decide_True by lia. cbn [mbind result_bind]. do 2 f_equal. unfold zlen. cbn. lia.
    + by rewrite decide_False by lia.
Qed.

Lemma filled_none data : slots data = 0%nat -> filled data [] = data.
Proof.
  induction data as [|d data IH]; [done|]. rewrite slots_cons. cbn [filled]. destruct (calldata d); [|done].
  intros. f_equal. by apply IH.
Qed.

Lemma filled_ok data blobs : Forall blob_sized blobs -> Forall entry_ok (filled data blobs).
Proof.
  revert blobs. induction data as [|d data IH]; intros blobs Hb; cbn [filled]; [by destruct blobs|].
  destruct (calldata d) eqn:Ec; [constructor; [|by apply IH]; unfold entry_ok; congruence|].
  destruct Hb as [|b blobs Hb Hbs]; [constructor|]. constructor; [|by apply IH]. intros _. by exists b.
Qed.

Lemma extract_cons inbox tx txs batcher :
  extract_blob_data inbox (tx :: txs) batcher =
  let '(data, hashes) := extract_blob_data inbox txs batcher in
  if from_batcher inbox batcher tx then
    if decide (l1_tx_type tx = Eip4844)
    then (replicate (length (blob_versioned_hashes tx)) default_blob_data ++ data, blob_versioned_hashes tx ++ hashes)
    else (mkBlobData None (Some (l1_input tx)) :: data, hashes)
  else (data, hashes).
Proof.
  cbn [extract_blob_data]. destruct (extract_blob_data inbox txs batcher) as [data hashes]. unfold from_batcher.
  destruct (decide (l1_tx_type tx = Eip7702)); [rewrite bool_decide_false by naive_solver; done|].
  destruct (l1_to tx) as [to|]; [|rewrite bool_decide_false by naive_solver; done].
  destruct (to =? inbox) eqn:Et; zbool; cbn [negb]; [|rewrite bool_decide_false by naive_solver; done].
  destruct (_ =? batcher) eqn:Es; zbool; cbn [negb]; [|rewrite bool_decide_false by naive_solver; done].
  rewrite bool_decide_true by naive_solver.
  destruct (decide (l1_tx_type tx = Eip4844)); [rewrite decide_False by naive_solver|by rewrite decide_True].
  do 2 f_equal. apply const_fmap; done.
Qed.

Lemma slots_replicate n data : slots (replicate n default_blob_data ++ data) = (n + slots data)%nat.
Proof. induction n as [|n IH]; [done|]. cbn [replicate app]. rewrite slots_cons, IH. done. Qed.

Lemma filled_replicate n data blobs :
  (n <= length blobs)%nat ->
  filled (replicate n default_blob_data ++ data) blobs =
  ((fun b => mkBlobData (Some b) None) <$> take n blobs) ++ filled data (drop n blobs).
Proof.
  revert blobs. induction n as [|n IH]; intros blobs Hn; [done|].
  destruct blobs as [|b blobs]; cbn in Hn |- *; [lia|]. by rewrite IH by lia.
Qed.

Lemma omap_yield_blobs (blobs : list (list Z)) : omap yield ((fun b => mkBlobData (Some b) None) <$> blobs) = omap decoded blobs.
Proof. induction blobs as [|b blobs IH]; [done|]. cbn. by rewrite IH. Qed.

(** What is extracted from a block and filled from its blobs is what the block
    delivers. *)
Lemma extract_filled inbox batcher txs data hashes blobs :
  extract_blob_data inbox txs batcher = (data, hashes) ->
  slots data = length hashes /\
  ((length hashes <= length blobs)%nat -> omap yield (filled data blobs) = delivered inbox batcher txs blobs).
Proof.
  revert data hashes blobs. induction txs as [|tx txs IH]; intros data hashes blobs.
  { intros [= <- <-]. by destruct blobs. }
  rewrite extract_cons. destruct (extract_blob_data inbox txs batcher) as [data' hashes']. cbn [delivered].
  destruct (from_batcher inbox batcher tx); [|intros [= <- <-]; by apply IH].
  destruct (decide _); intros [= <- <-].
  - set (n := length (blob_versioned_hashes tx)). destruct (IH data' hashes' (drop n blobs) eq_refl) as [Hs Hy].
    rewrite slots_replicate, length_app, Hs. split; [done|]. intros Hl. rewrite filled_replicate by lia.
    rewrite omap_app, omap_yield_blobs, Hy by (rewrite length_drop; lia). done.
  - destruct (IH data' hashes' blobs eq_refl) as [Hs Hy]. rewrite slots_cons. cbn [calldata filled omap list_omap yield].
    split; [done|]. intros Hl. cbn. f_equal. by apply Hy.
Qed.

Section deliver.
Context {C B : Type} `{ChainProvider C, BlobProvider B} (block_ref : BlockInfo) (batcher : Z).
Implicit Types s : BlobSource C B.

Lemma load_open s : is_open s = true -> load_blobs block_ref batcher s = (Ok tt, s).
Proof. intros Ho. unfold load_blobs, mbind, stm_bind, gets. by rewrite Ho. Qed.

Lemma next_loop_run fuel s :
  is_open s = true -> Forall entry_ok (source_data s) -> (length (source_data s) < fuel)%nat ->
  match omap yield (source_data s) with
  | [] => next_loop fuel block_ref batcher s = (Err (Fail (Temporary Eof)), set_data [] true s)
  | d :: ds => exists data, next_loop fuel block_ref batcher s = (Ok d, set_data data true s) /\
      omap yield data = ds /\ Forall entry_ok data
  end.
Proof.
  revert s. induction fuel as [|fuel IH]; intros s Ho Hd Hf; [lia|]. cbn [next_loop].
  rewrite (bind_run _ _ _ _ _ (load_open s Ho)). unfold source_next_data.
  destruct s as [c b i data o]; cbn [source_data is_open] in *; subst o.
  destruct Hd as [|d data Hd Hds]; [done|]. cbn [length] in Hf.
  erewrite bind_run by reflexivity. cbn [omap list_omap]. unfold yield at 1.
  destruct (calldata d) as [c'|] eqn:Ec; [eexists; done|].
  destruct (Hd Ec) as (x & Hx & Hsz). destruct d as [bb cd]; cbn [blob_bytes calldata mbind option_bind] in Hx, Ec |- *; subst bb cd. cbn [blob_bytes mbind option_bind].
  rewrite data_decode_eq by done. destruct (blob_decode_returns x Hsz) as [Hp Ho]. unfold decoded at 1.
  destruct (blob_decode x) as [p|[e| |]]; cbn [map_fail]; [| |done|done].
  - eexists. done.
  - apply (IH (set_data data true (mkBlobSource c b i (mkBlobData (Some x) None :: data) true))); [done|done|cbn; lia].
Qed.

Lemma source_next_run s :
  is_open s = true -> Forall entry_ok (source_data s) ->
  exists s', drains (blob_source_next block_ref batcher) s (omap yield (source_data s)) s' /\
    is_open s' = true /\ source_data s' = [].
Proof.
  remember (omap yield (source_data s)) as l eqn:Hl. revert s Hl. induction l as [|d l IH]; intros s Hl Ho Hd;
    pose proof (next_loop_run (S (length (source_data s))) s Ho Hd ltac:(lia)) as Hn; rewrite <- Hl in Hn;
    assert (blob_source_next block_ref batcher s = next_loop (S (length (source_data s))) block_ref batcher s) as He
      by (unfold blob_source_next; by rewrite (bind_run _ _ _ _ _ (load_open s Ho))).
  - eexists. split; [apply drains_eof; by rewrite He|done].
  - destruct Hn as (data & Hn & Hy & Hok). destruct (IH (set_data data true s)) as (s' & Hdr & Hs'); [done..|].
    exists s'. split; [|done]. eapply drains_next; [by rewrite He|done].
Qed.

(** The providers answer: the chain provider with the transactions of the block,
    the blob fetcher with [blobs] for the hashes it is asked for. *)
Definition answers s (txs : list L1Tx) (blobs : list (list Z)) : Prop :=
  (exists info c, block_info_and_transactions_by_hash (hash block_ref) (chain_provider s) = (Ok (info, txs), c)) /\
  let hashes := (extract_blob_data (inbox_address s) txs batcher).2 in
  (hashes = [] /\ blobs = []) \/
  (hashes <> [] /\ exists b, get_and_validate_blobs block_ref hashes (blob_fetcher s) = (Ok blobs, b)).

(** The load, by the number of blobs the fetcher returned. *)
Lemma load_run s txs blobs :
  is_open s = false -> answers s txs blobs -> Forall blob_sized blobs ->
  let '(data, hashes) := extract_blob_data (inbox_address s) txs batcher in
  exists c b, load_blobs block_ref batcher s =
    match (length hashes ?= length blobs)%nat with
    | Eq => (Ok tt, mkBlobSource c b (inbox_address s) (filled data blobs) true)
    | Lt => (Err (Fail (Reset (BlobsOverFill (zlen hashes) (zlen blobs)))), mkBlobSource c b (inbox_address s) (source_data s) false)
    | Gt => (Err (Fail (Reset (BlobsUnderFill (zlen blobs) (zlen blobs)))), mkBlobSource c b (inbox_address s) (source_data s) false)
    end.
Proof.
  destruct s as [c0 b0 i data0 o]; cbn [is_open inbox_address source_data]. intros -> [(info & c & Hc) Hb] Hsz.
  unfold load_blobs. erewrite bind_run by reflexivity. cbn [is_open].
  erewrite bind_run; [|unfold zoom; cbn [chain_provider] in *; rewrite Hc; reflexivity].
  cbn beta iota. erewrite bind_run by reflexivity. cbn [inbox_address set_chain chain_provider blob_fetcher source_data is_open] in *.
  destruct (extract_blob_data i txs batcher) as [data hashes] eqn:Ex. cbn [snd] in Hb.
  destruct (extract_filled i batcher txs data hashes blobs Ex) as [Hs _].
  destruct Hb as [[-> ->]|[Hne (b & Hb)]].
  { exists c, b0. cbn [length Nat.compare]. by rewrite filled_none. }
  exists c, b. destruct hashes as [|h hashes]; [done|]. cbn [blob_fetcher set_chain].
  erewrite bind_run; [|unfold zoom, stm_map_fail; cbn [blob_fetcher set_chain] in *; rewrite Hb; reflexivity].
  pose proof (fill_blobs_run data [] blobs Hsz) as Hf. cbn [app] in Hf. change (zlen []) with 0 in Hf.
  rewrite Hf, Hs. clear Hf. destruct (decide _) as [Hle|Hgt].
  - erewrite bind_run by reflexivity. cbn [Z.add]. destruct (Nat.compare_spec (length (h :: hashes)) (length blobs)) as [He|Hlt|Hgt].
    + unfold zlen. guard_false. done.
    + unfold zlen. guard_true. done.
    + lia.
  - erewrite bind_run_err by reflexivity. rewrite (proj2 (Nat.compare_gt_iff _ _)) by lia. done.
Qed.

Lemma next_loaded s s1 :
  load_blobs block_ref batcher s = (Ok tt, s1) -> is_open s1 = true ->
  blob_source_next block_ref batcher s = blob_source_next block_ref batcher s1.
Proof.
  intros Hl Ho. unfold blob_source_next. by rewrite (bind_run _ _ _ _ _ Hl), (bind_run _ _ _ _ _ (load_open s1 Ho)).
Qed.

Lemma source_delivers s txs blobs :
  is_open s = false -> answers s txs blobs -> Forall blob_sized blobs ->
  length (extract_blob_data (inbox_address s) txs batcher).2 = length blobs ->
  exists s', drains (blob_source_next block_ref batcher) s (delivered (inbox_address s) batcher txs blobs) s' /\
    is_open s' = true /\ source_data s' = [].
Proof.
  intros Ho Ha Hb Hlen. pose proof (load_run s txs blobs Ho Ha Hb) as Hl.
  destruct (extract_blob_data (inbox_address s) txs batcher) as [data hashes] eqn:Ex. cbn [snd] in Hlen.
  destruct Hl as (c & b & Hl). rewrite Hlen, Nat.compare_refl in Hl.
  destruct (extract_filled _ _ _ _ _ blobs Ex) as [_ <-]; [|lia].
  set (s1 := mkBlobSource c b (inbox_address s) (filled data blobs) true) in Hl.
  destruct (source_next_run s1 eq_refl) as (s' & Hd & Hs'); [by apply filled_ok|].
  exists s'. split; [|done]. eapply drains_eq; [|exact Hd]. by apply next_loaded.
Qed.

(** The blob source delivers an L1 block exactly. Started on a block whose
    providers answer, successive calls of [next] return the input of each
    transaction from the batcher to the inbox, or the payloads of its blobs, in
    the order of the block, skip the blobs that do not decode, and then report
    the end. If the fetcher returns more or fewer blobs than the block's
    transactions name, nothing is delivered: the call asks for a reset and the
    source stays closed. *)
Theorem block_delivered s txs blobs :
  is_open s = false -> answers s txs blobs -> Forall blob_sized blobs ->
  let hashes := (extract_blob_data (inbox_address s) txs batcher).2 in
  (length hashes = length blobs ->
    exists s', drains (da_next block_ref batcher) s (delivered (inbox_address s) batcher txs blobs) s' /\
      is_open s' = true /\ source_data s' = []) /\
  (length hashes <> length blobs ->
    exists e s', da_next block_ref batcher s = (Err (Fail (Reset e)), s') /\
      is_open s' = false /\ source_data s' = source_data s).
Proof.
  intros Ho Ha Hb hashes. split; intros Hlen; [by apply source_delivers|].
  pose proof (load_run s txs blobs Ho Ha Hb) as Hl. unfold hashes in Hlen.
  destruct (extract_blob_data (inbox_address s) txs batcher) as [data hs]. cbn [snd] in Hlen.
  destruct Hl as (c & b & Hl). cbn [da_next blob_source_provider]. unfold blob_source_next.
  destruct (Nat.compare_spec (length hs) (length blobs)); [done|..];
    (do 2 eexists; split; [erewrite bind_run_err by exact Hl; reflexivity|done]).
Qed.
End deliver.

(** * Frames from the batcher to the pipeline *)

Lemma bytes_frame_encode f : frame_ok f -> bytes_ok (frame_encode f).
Proof.
  intros Hf. rewrite frame_encode_bytes by done. destruct Hf as (_ & Hid & _ & Hd & _). unfold frame_bytes.
  rewrite !Forall_app, Forall_singleton. split_and!; [done|apply be_bytes_ok..|done|]. by destruct (is_last f).
Qed.

(** The payload [encode_packed] writes. *)
Definition packed (g : list Frame) : list Z := DERIVATION_VERSION_0 :: concat (frame_encode <$> g).

Lemma bytes_packed g : Forall frame_ok g -> bytes_ok (packed g).
Proof.
  intros Hg. constructor; [unfold byte_ok, DERIVATION_VERSION_0; lia|].
  induction Hg as [|f g Hf _ IH]; [constructor|]. cbn. apply Forall_app. split; [by apply bytes_frame_encode|done].
Qed.

Lemma parse_packed g : g <> [] -> Forall frame_ok g -> parse_frames (packed g) = Ok g.
Proof.
  intros Hne Hg. apply (parse_frames_iff _ (bytes_packed g Hg)). split; [done|]. eexists. split; [done|].
  by apply framing_encode.
Qed.

Lemma packed_decoded g b :
  Forall frame_ok g -> encode_packed g = Ok b -> blob_sized b /\ decoded b = Some (packed g).
Proof.
  intros Hg He. unfold encode_packed in He. fold (packed g) in He.
  assert (zlen (packed g) <= BLOB_MAX_DATA_SIZE) as Hm.
  { unfold blob_encode in He. destruct (_ >? _) eqn:E; [done|]. zbool. lia. }
  rewrite blob_encode_run in He by done. injection He as <-. pose proof (bytes_packed g Hg) as Hb.
  split; [by apply blob_of_ok|]. unfold decoded. by rewrite decode_blob_of.
Qed.

(** Every batcher transaction of the block carries blobs. *)
Definition blobs_only (inbox batcher : Z) (txs : list L1Tx) : Prop :=
  Forall (fun tx => from_batcher inbox batcher tx = true -> l1_tx_type tx = Eip4844) txs.

Lemma delivered_blobs inbox batcher txs blobs :
  blobs_only inbox batcher txs ->
  length (extract_blob_data inbox txs batcher).2 = length blobs ->
  delivered inbox batcher txs blobs = omap decoded blobs.
Proof.
  intros Hb. revert blobs. induction Hb as [|tx txs Htx _ IH]; intros blobs; [by destruct blobs|].
  rewrite extract_cons. cbn [delivered]. destruct (extract_blob_data inbox txs batcher) as [data hashes].
  destruct (from_batcher inbox batcher tx); [|apply IH]. rewrite !decide_True by auto. cbn [snd] in *.
  rewrite length_app. intros Hl. rewrite IH by (rewrite length_drop; lia). by rewrite <- omap_app, take_drop.
Qed.

Section end_to_end.
Context {C B : Type} `{ChainProvider C, BlobProvider B} (block_ref : BlockInfo) (batcher : Z).

(** From Ecotone on, the Ethereum source is its blob source. *)
Lemma ethereum_drains (s : EthereumDataSource C B) e l b' :
  ecotone_timestamp s = Some e -> e <= timestamp block_ref ->
  drains (blob_source_next block_ref batcher) (blob_source s) l b' ->
  exists s', drains (ethereum_next block_ref batcher) s l s'.
Proof.
  intros He Hle Hd. remember (blob_source s) as b eqn:Hb. revert s He Hb.
  assert (forall s r b1, ecotone_timestamp s = Some e -> blob_source_next block_ref batcher (blob_source s) = (r, b1) ->
    ethereum_next block_ref batcher s = (r, mkEthereumDataSource (Some e) b1 (calldata_source s))) as Hstep.
  { intros s r b1 He Hn. unfold ethereum_next. erewrite bind_run by reflexivity. rewrite He.
    replace (timestamp block_ref >=? e) with true by (symmetry; apply Z.geb_le; lia).
    unfold zoom. by rewrite Hn, He. }
  induction Hd as [b b1 Hn|b d b1 l b' Hn _ IH]; intros s He ->.
  - eexists. eapply drains_eof. by apply Hstep.
  - destruct (IH (mkEthereumDataSource (Some e) b1 (calldata_source s)) eq_refl eq_refl) as [s' Hs'].
    exists s'. eapply drains_next; [by apply Hstep|done].
Qed.

(** Frames the batcher packs into blobs and posts with blob transactions after
    Ecotone come out of the data source as the packed payloads. *)
Lemma posted_payloads (s : EthereumDataSource C B) e txs blobs groups :
  ecotone_timestamp s = Some e -> e <= timestamp block_ref ->
  is_open (blob_source s) = false -> answers block_ref batcher (blob_source s) txs blobs ->
  blobs_only (inbox_address (blob_source s)) batcher txs ->
  length (extract_blob_data (inbox_address (blob_source s)) txs batcher).2 = length blobs ->
  Forall (Forall frame_ok) groups -> Forall2 (fun g b => encode_packed g = Ok b) groups blobs ->
  exists s', drains (da_next block_ref batcher) s (packed <$> groups) s'.
Proof.
  intros He Hle Ho Ha Hb Hlen Hg Henc.
  assert (Forall blob_sized blobs /\ omap decoded blobs = packed <$> groups) as [Hsz Hdec].
  { clear -Hg Henc. induction Henc as [|g b groups blobs Hgb _ IH]; [done|].
    apply Forall_cons in Hg as [Hg Hgs]. destruct (packed_decoded g b Hg Hgb) as [Hs Hd].
    destruct (IH Hgs) as [IH1 IH2]. split; [by constructor|]. cbn. rewrite Hd. f_equal. exact IH2. }
  destruct (source_delivers block_ref batcher _ txs blobs Ho Ha Hsz Hlen) as (b' & Hd & _).
  rewrite delivered_blobs, Hdec in Hd by done. by apply (ethereum_drains s e _ b').
Qed.
End end_to_end.

Module DataSourceExample.
Definition frames : list Frame := [mkFrame (replicate 16 7) 0 [1; 2; 3] true].
Definition batch_tx : L1Tx := mkL1Tx Eip4844 (Some 5) [] [42] (Some 9).
Definition other_tx : L1Tx := mkL1Tx Legacy (Some 6) [1] [] (Some 9).
Definition txs : list L1Tx := [other_tx; batch_tx].
Definition blob : list Z := blob_of (packed frames).

#[local] Instance chain : ChainProvider unit :=
  {| block_info_by_number _ := mret default_block;
     receipts_by_hash _ := mret [];
     block_info_and_transactions_by_hash _ := mret (default_block, txs) |}.
#[local] Instance blob_server : BlobProvider (list (list Z)) :=
  {| get_and_validate_blobs _ _ := fun b => (Ok b, b) |}.

Definition source (blobs : list (list Z)) : BlobSource unit (list (list Z)) := mkBlobSource tt blobs 5 [] false.
Definition ethereum : EthereumDataSource unit (list (list Z)) :=
  mkEthereumDataSource (Some 0) (source [blob]) (mkCalldataSource tt 5 [] false).

Lemma frames_ok : Forall frame_ok frames.
Proof. by_eval. Qed.
Lemma frames_encoded : encode_packed frames = Ok blob.
Proof. apply blob_encode_run. by vm_compute. Qed.
Lemma served b : answers default_block 9 (source b) txs b.
Proof. split; [by do 2 eexists|]. right. split; [done|]. by eexists. Qed.

Lemma block_delivered_witness :
  (exists s', drains (da_next default_block 9) (source [blob]) [packed frames] s') /\
  exists e s', da_next default_block 9 (source []) = (Err (Fail (Reset e)), s').
Proof.
  destruct (packed_decoded frames blob frames_ok frames_encoded) as [Hs Hd]. split.
  - destruct (block_delivered default_block 9 (source [blob]) txs [blob] eq_refl (served _)
      (Forall_cons_2 _ _ _ Hs (Forall_nil_2 _))) as [(s' & Hdr & _) _]; [done|].
    exists s'. revert Hdr. cbn [delivered txs]. unfold delivered. cbn -[blob packed]. by rewrite Hd.
  - destruct (block_delivered default_block 9 (source []) txs [] eq_refl (served _) (Forall_nil_2 _))
      as [_ (e & s' & Hr & _)]; [done|]. by exists e, s'.
Defined.

End DataSourceExample.
