(* ===== verification/FrameQueue.v ===== *)
(** The frame queue of the derivation pipeline
    ([crates/consensus/derive/src/stages/frame_queue.rs]): it parses the data of a
    batcher transaction into frames and, from Holocene on, keeps only frames
    that arrive in order. *)

From S2P Require Import Prelude Buffer Frames Rollup SystemConfig Pipeline.
From Stdlib Require Import Sorted.

Record FrameQueue (P : Type) : Type := mkFrameQueue {
  fq_prev : P;
  queue : list Frame;
  fq_config : RollupConfig;
}.
Arguments mkFrameQueue {P}.
Arguments fq_prev {P}.
Arguments queue {P}.
Arguments fq_config {P}.

(** [extends_channel] *)
Definition same_channel (a b : Frame) : bool := bool_decide (frame_id a = frame_id b).

(** The loop of [prune] at index [i]. An empty queue makes [len() - 1] wrap, and
    the first access panics. *)
Fixpoint prune_loop {E} (fuel : nat) (q : list Frame) (i : nat) : result (fault E) (list Frame) :=
  match fuel with
  | O => Err OutOfFuel
  | S fuel =>
      if negb (length q =? 0)%nat && (length q - 1 <=? i)%nat then Ok q
      else
        prev_frame ← byte_at q (Z.of_nat i);
        next_frame ← byte_at q (Z.of_nat (S i));
        let extends_channel := same_channel prev_frame next_frame in
        if extends_channel && negb (add16 (number prev_frame) 1 =? number next_frame)
        then prune_loop fuel (delete (S i) q) i
        else if extends_channel && is_last prev_frame
        then prune_loop fuel (delete (S i) q) i
        else if negb extends_channel && negb (number next_frame =? 0)
        then prune_loop fuel (delete (S i) q) i
        else if negb extends_channel && negb (is_last prev_frame) && (number next_frame =? 0)
        then
          match list_find (fun f => frame_id f = frame_id prev_frame) q with
          | None => Err Panic
          | Some (first_frame, _) =>
              prune_loop fuel (take first_frame q ++ drop (S i) q) (i - (S i - first_frame))
          end
        else prune_loop fuel q (S i)
  end.

Section frame_queue.
Context {P : Type} `{FrameQueueProvider P, OriginProvider P, OriginAdvancer P, StageReset P}.

Definition set_prev (p : P) (s : FrameQueue P) : FrameQueue P := mkFrameQueue p (queue s) (fq_config s).
Definition set_queue (q : list Frame) (s : FrameQueue P) : FrameQueue P := mkFrameQueue (fq_prev s) q (fq_config s).

Definition prune (og : BlockInfo) : act (FrameQueue P) unit := fun s =>
  if negb (is_holocene_active (fq_config s) (timestamp og)) then (Ok tt, s)
  else match prune_loop (S (2 * length (queue s))) (queue s) 0 with
       | Ok q => (Ok tt, set_queue q s)
       | Err e => (Err e, s)
       end.

Definition load_frames : act (FrameQueue P) unit :=
  q ← gets queue;
  match q with
  | _ :: _ => mret tt
  | [] =>
      data ← zoom fq_prev set_prev next_data;
      match parse_frames data with
      | Err (Fail _) => mret tt
      | Err Panic => throw Panic
      | Err OutOfFuel => throw OutOfFuel
      | Ok frames =>
          modify (fun s => set_queue (queue s ++ frames) s) ;;
          o ← gets (fun s => origin (fq_prev s));
          og ← ok_or o (crit MissingOrigin);
          prune og
      end
  end.

(** [pop_front], after the test for an empty queue *)
Definition pop_frame : act (FrameQueue P) Frame := fun s =>
  match queue s with
  | [] => temp NotEnoughData s
  | f :: q => (Ok f, set_queue q s)
  end.

Definition queue_next_frame : act (FrameQueue P) Frame := load_frames ;; pop_frame.

Definition queue_reset (l1_origin : BlockNumHash) (cfg : SystemConfig) : act (FrameQueue P) unit :=
  zoom fq_prev set_prev (reset l1_origin cfg) ;; modify (set_queue []).
Definition queue_activate : act (FrameQueue P) unit :=
  zoom fq_prev set_prev activate ;; modify (set_queue []).
Definition queue_flush_channel : act (FrameQueue P) unit :=
  zoom fq_prev set_prev flush_channel ;; modify (set_queue []).

#[export] Instance frame_queue_provider : NextFrameProvider (FrameQueue P) := {| next_frame := queue_next_frame |}.
#[export] Instance frame_queue_origin : OriginProvider (FrameQueue P) := {| origin s := origin (fq_prev s) |}.
#[export] Instance frame_queue_advancer : OriginAdvancer (FrameQueue P) :=
  {| advance_origin := zoom fq_prev set_prev advance_origin |}.
#[export] Instance frame_queue_reset : StageReset (FrameQueue P) :=
  {| reset := queue_reset; activate := queue_activate; flush_channel := queue_flush_channel |}.
End frame_queue.

(** * The Holocene rules *)

(** A frame may follow another one in the queue. *)
Definition follows (a b : Frame) : Prop :=
  (frame_id a = frame_id b /\ add16 (number a) 1 = number b /\ is_last a = false) \/
  (frame_id a <> frame_id b /\ is_last a = true /\ number b = 0).

Section accept.
(** What is dropped when a new channel starts after the unclosed channel of [p]. *)
Variable discard : Frame -> list Frame -> list Frame.

(** One decoded frame against the frames kept so far. *)
Definition accept (kept : list Frame) (f : Frame) : list Frame :=
  match last kept with
  | None => [f]
  | Some p =>
      if same_channel p f then
        if (add16 (number p) 1 =? number f) && negb (is_last p) then kept ++ [f] else kept
      else if negb (number f =? 0) then kept
      else if is_last p then kept ++ [f]
      else match last (discard p kept) with
           | Some x => if same_channel x f then discard p kept else discard p kept ++ [f]
           | None => [f]
           end
  end.

Lemma accept_last kept p f :
  last kept = Some p ->
  accept kept f =
    if same_channel p f then
      if (add16 (number p) 1 =? number f) && negb (is_last p) then kept ++ [f] else kept
    else if negb (number f =? 0) then kept
    else if is_last p then kept ++ [f]
    else match last (discard p kept) with
         | Some x => if same_channel x f then discard p kept else discard p kept ++ [f]
         | None => [f]
         end.
Proof. unfold accept. by intros ->. Qed.

Lemma accept_closed kept p f :
  last kept = Some p -> frame_id p <> frame_id f -> is_last p = true -> number f = 0 -> accept kept f = kept ++ [f].
Proof.
  intros Hp Hid Hl Hn. rewrite (accept_last _ p) by done. unfold same_channel. by rewrite bool_decide_false, Hl, Hn.
Qed.
End accept.

(** The code drops everything from the first frame of the channel on. *)
Definition from_first (p : Frame) (kept : list Frame) : list Frame :=
  match list_find (fun f => frame_id f = frame_id p) kept with
  | Some (k, _) => take k kept
  | None => kept
  end.

(** The specification drops the frames of the unclosed channel, which are the last
    ones of the queue. *)
Fixpoint trailing (p : Frame) (kept : list Frame) : list Frame :=
  match kept with
  | [] => []
  | f :: kept =>
      match trailing p kept with
      | [] => if same_channel f p then [] else [f]
      | r => f :: r
      end
  end.

Abbreviation ordered := (Sorted follows).

Lemma same_channel_true a b : same_channel a b = true <-> frame_id a = frame_id b.
Proof. apply bool_decide_eq_true. Qed.
Lemma same_channel_false a b : same_channel a b = false <-> frame_id a <> frame_id b.
Proof. apply bool_decide_eq_false. Qed.

Lemma ordered_lookup l : ordered l <-> forall i a b, l !! i = Some a -> l !! S i = Some b -> follows a b.
Proof.
  induction l as [|x l IH]; split.
  - by intros _ [].
  - constructor.
  - intros [Hl Hx]%Sorted_inv i a b. destruct i as [|i]; cbn.
    + intros [= ->]. destruct Hx; cbn; [done|]. by intros [= ->].
    + by apply IH.
  - intros Hf. constructor; [apply IH; intros i; by apply (Hf (S i))|].
    destruct l; constructor. by apply (Hf 0%nat).
Qed.

Lemma ordered_snoc l p f : ordered l -> last l = Some p -> follows p f -> ordered (l ++ [f]).
Proof.
  rewrite !ordered_lookup, last_lookup. intros Hl Hp Hf i a b Ha Hb.
  assert (i < length l)%nat as Hi by (apply lookup_lt_Some in Hb; rewrite length_app in Hb; cbn in Hb; lia).
  rewrite lookup_app_l in Ha by done. destruct (decide (S i = length l)) as [He|].
  - rewrite lookup_app_r, He, Nat.sub_diag in Hb by lia. injection Hb as <-. rewrite <- He in Hp. cbn in Hp.
    by replace a with p by congruence.
  - rewrite lookup_app_l in Hb by lia. by eapply Hl.
Qed.

Lemma ordered_take n l : ordered l -> ordered (take n l).
Proof.
  rewrite !ordered_lookup. intros Hl i a b Ha Hb. apply lookup_take_Some in Ha as [Ha _], Hb as [Hb _]. by eapply Hl.
Qed.

(** Where the code cuts: everything before is of other channels, and the frame
    before the cut closes its channel. *)
Lemma from_first_cut p kept :
  ordered kept -> p ∈ kept ->
  exists k, from_first p kept = take k kept /\ (k < length kept)%nat /\
    (forall r, fst <$> list_find (fun f => frame_id f = frame_id p) (kept ++ r) = Some k) /\
    (forall x, last (take k kept) = Some x -> is_last x = true).
Proof.
  intros Ho Hp. unfold from_first.
  destruct (list_find (fun f => frame_id f = frame_id p) kept) as [[k y]|] eqn:Hf.
  2: { apply list_find_None in Hf. rewrite Forall_forall in Hf. by destruct (Hf p Hp). }
  exists k. pose proof Hf as (Hy & Hid & Hmin)%list_find_Some. split; [done|].
  assert (k < length kept)%nat as Hk by (by eapply lookup_lt_Some). split; [done|]. split.
  - intros r. erewrite list_find_app_l by done. done.
  - intros x Hx. rewrite last_lookup, length_take, Nat.min_l in Hx by lia.
    apply lookup_take_Some in Hx as [Hx Hlt]. destruct k as [|k]; [lia|]. cbn in Hx.
    rewrite ordered_lookup in Ho. destruct (Ho k x y Hx Hy) as [[He _]|[_ [Hl _]]]; [|done].
    exfalso. apply (Hmin k x Hx); [lia|congruence].
Qed.

Lemma accept_ordered discard kept f :
  (forall p, p ∈ kept -> exists k, discard p kept = take k kept /\ forall x, last (take k kept) = Some x -> is_last x = true) ->
  ordered kept -> ordered (accept discard kept f).
Proof.
  intros Hd Ho. unfold accept. destruct (last kept) as [p|] eqn:Hp; [|by repeat constructor].
  destruct (same_channel p f) eqn:Hc.
  - destruct (_ =? _) eqn:Hn, (is_last p) eqn:Hl; cbn; try done. zbool.
    apply (ordered_snoc _ p); [done..|]. left. by apply same_channel_true in Hc.
  - destruct (number f =? 0) eqn:Hn; cbn; [|done]. zbool. destruct (is_last p) eqn:Hl.
    + apply (ordered_snoc _ p); [done..|]. right. by apply same_channel_false in Hc.
    + destruct (Hd p) as (k & -> & Hx); [by apply last_Some_elem_of|].
      destruct (last (take k kept)) as [x|] eqn:Ex; [|by repeat constructor].
      destruct (same_channel x f) eqn:Hxf; [by apply ordered_take|].
      apply (ordered_snoc _ x); [by apply ordered_take|done|]. right. apply same_channel_false in Hxf. auto.
Qed.

Lemma accept_code_ordered kept f : ordered kept -> ordered (accept from_first kept f).
Proof.
  intros Ho. apply accept_ordered; [|done]. intros p Hp.
  destruct (from_first_cut p kept Ho Hp) as (k & ? & _ & _ & ?). eauto.
Qed.

(** The loop is the frame-by-frame reference: the frames up to the index are the
    ones kept so far. *)
Lemma prune_loop_run {E} fuel kept rest :
  kept <> [] -> ordered kept -> (2 * length (kept ++ rest) - (length kept - 1) < fuel)%nat ->
  prune_loop (E := E) fuel (kept ++ rest) (length kept - 1) = Ok (foldl (accept from_first) kept rest).
Proof.
  revert kept rest. induction fuel as [|fuel IH]; intros kept rest Hne Ho Hf; [lia|]. cbn [prune_loop].
  destruct (last kept) as [p|] eqn:Hp; [|by apply last_None in Hp].
  assert (0 < length kept)%nat as Hpos by (destruct kept; [done|cbn; lia]).
  rewrite length_app in *. rewrite (proj2 (Nat.eqb_neq _ _)) by lia. cbn [negb andb].
  destruct rest as [|f rest].
  { rewrite (proj2 (Nat.leb_le _ _)) by (cbn; lia). by rewrite app_nil_r. }
  cbn [length] in Hf |- *. rewrite (proj2 (Nat.leb_gt _ _)) by lia.
  assert (kept !! (length kept - 1)%nat = Some p) as Hlp by (rewrite last_lookup in Hp; by rewrite Nat.sub_1_r).
  assert (S (length kept - 1) = length kept) as HS by lia. rewrite HS.
  rewrite (byte_at_lookup _ (length kept - 1) p) by (rewrite lookup_app_l by lia; done).
  rewrite (byte_at_lookup _ (length kept) f) by (by rewrite lookup_app_r, Nat.sub_diag by lia). cbn [mbind result_bind foldl].
  assert (delete (length kept) (kept ++ f :: rest) = kept ++ rest) as Hdel.
  { rewrite delete_take_drop, take_app_length, drop_app_ge by lia.
    by replace (S (length kept) - length kept)%nat with 1%nat by lia. }
  assert (prune_loop (E := E) fuel (kept ++ rest) (length kept - 1) = Ok (foldl (accept from_first) kept rest)) as Hdrop
    by (apply IH; [done..|rewrite length_app; lia]).
  assert (ordered (kept ++ [f]) -> prune_loop (E := E) fuel (kept ++ f :: rest) (length kept)
    = Ok (foldl (accept from_first) (kept ++ [f]) rest)) as Hkeep.
  { intros Ho'. replace (kept ++ f :: rest) with ((kept ++ [f]) ++ rest) by (by rewrite <- (assoc_L (++))).
    replace (length kept) with (length (kept ++ [f]) - 1)%nat by (rewrite length_app; cbn; lia).
    apply IH; [by destruct kept|done|]. rewrite !length_app. cbn. lia. }
  pose proof (accept_code_ordered kept f Ho) as Hacc. rewrite (accept_last _ _ p) in Hacc |- * by done.
  rewrite Hdel. destruct (same_channel p f) eqn:Hc; cbn [negb andb].
  { destruct (_ =? _), (is_last p); cbn [negb andb] in *; auto. }
  destruct (number f =? 0) eqn:Hn; cbn [negb andb] in *; [|done].
  destruct (is_last p) eqn:Hl; cbn [negb andb] in *; [auto|].
  destruct (from_first_cut p kept Ho) as (k & Hk & Hlt & Hfind & Hx); [by apply last_Some_elem_of|].
  specialize (Hfind (f :: rest)). destruct (list_find _ (kept ++ f :: rest)) as [[k' y]|]; [|done].
  injection Hfind as ->. rewrite Hk in Hacc |- *. clear Hdrop Hkeep Hdel.
  rewrite take_app_le, drop_app_length by lia. replace (length kept - 1 - (length kept - k))%nat with (k - 1)%nat by lia.
  destruct (last (take k kept)) as [x|] eqn:Ex.
  - assert (length (take k kept) = k) as Hlk by (rewrite length_take; lia).
    assert (take k kept <> []) as Hnk by (by intros E0; rewrite E0 in Ex).
    rewrite <- Hlk at 2. rewrite IH; [|done|by apply ordered_take|rewrite length_app, Hlk; cbn; lia].
    cbn [foldl]. do 2 f_equal. rewrite (accept_last _ _ x), (Hx x eq_refl), Hn, andb_false_r by done. cbn [negb].
    by destruct (same_channel x f).
  - apply last_None in Ex. rewrite Ex. assert (k = 0)%nat as -> by (destruct kept, k; cbn in *; try done; lia).
    apply (IH [f] rest); [done|by repeat constructor|cbn; lia].
Qed.

(** No channel starts again after it was closed. *)
Definition stays_closed (a b : Frame) : Prop := is_last a = true -> frame_id a = frame_id b -> number b <> 0.
Abbreviation no_reopen := (StronglySorted stays_closed).

Lemma no_reopen_sublist l k : sublist l k -> no_reopen k -> no_reopen l.
Proof.
  induction 1 as [|x l k Hs IH|x l k Hs IH]; intros Hk; [done|..]; apply StronglySorted_inv in Hk as [Hk Hx]; [|auto].
  constructor; [auto|]. rewrite Forall_forall in Hx |- *. intros y Hy. apply Hx. by eapply sublist_subseteq.
Qed.

Lemma from_first_cons p a l :
  from_first p (a :: l) = if same_channel a p then [] else a :: from_first p l.
Proof.
  unfold from_first, same_channel. cbn [list_find]. destruct (decide _) as [He|He].
  - by rewrite bool_decide_true.
  - rewrite bool_decide_false by done. by destruct (list_find _ l) as [[k y]|].
Qed.

(** A channel that ends the queue and does not start it has its first frame there. *)
Lemma first_frame_in l b p :
  ordered (b :: l) -> last (b :: l) = Some p -> frame_id b <> frame_id p ->
  exists y, y ∈ l /\ frame_id y = frame_id p /\ number y = 0.
Proof.
  revert b. induction l as [|c l IH]; intros b Ho Hp Hb; [cbn in Hp; congruence|].
  apply Sorted_inv in Ho as [Ho Hd]. apply HdRel_inv in Hd. rewrite last_cons_cons in Hp.
  destruct (decide (frame_id c = frame_id p)) as [Hc|Hc].
  - exists c. split; [set_solver|]. split; [done|]. destruct Hd as [[He _]|[_ [_ H0]]]; [congruence|done].
  - destruct (IH c Ho Hp Hc) as (y & Hy & ?). exists y. split; [set_solver|done].
Qed.

Lemma discards_agree kept p :
  ordered kept -> no_reopen kept -> last kept = Some p -> from_first p kept = trailing p kept.
Proof.
  induction kept as [|a kept IH]; [done|]. intros Ho Hr Hp. rewrite from_first_cons. cbn [trailing].
  destruct kept as [|b kept].
  { injection Hp as ->. unfold same_channel. by rewrite bool_decide_true. }
  rewrite last_cons_cons in Hp. apply Sorted_inv in Ho as [Ho Hd]. apply HdRel_inv in Hd.
  apply StronglySorted_inv in Hr as [Hr Hx]. rewrite <- IH by done. destruct (same_channel a p) eqn:Ha.
  - apply same_channel_true in Ha. rewrite from_first_cons. destruct (same_channel b p) eqn:Hb; [done|].
    apply same_channel_false in Hb. destruct (first_frame_in kept b p Ho Hp Hb) as (y & Hy & Hid & Hn).
    destruct Hd as [[He _]|[_ [Hl _]]]; [congruence|].
    rewrite Forall_forall in Hx. destruct (Hx y); [set_solver|done|congruence|done].
  - by destruct (from_first p (b :: kept)).
Qed.

Lemma sublist_skips_r {A} (l k r : list A) : sublist l k -> sublist (l ++ r) (k ++ r).
Proof. intros. by apply sublist_app. Qed.

Lemma accept_sublist kept f : ordered kept -> sublist (accept from_first kept f) (kept ++ [f]).
Proof.
  intros Ho. destruct (last kept) as [p|] eqn:Hp; [|apply last_None in Hp as ->; done].
  assert (sublist kept (kept ++ [f])) by apply sublist_inserts_r, reflexivity.
  rewrite (accept_last _ _ p) by done.
  destruct (from_first_cut p kept Ho) as (k & -> & _); [by apply last_Some_elem_of|].
  assert (sublist (take k kept ++ [f]) (kept ++ [f])) by (apply sublist_skips_r, sublist_take).
  assert (sublist (take k kept) (kept ++ [f])) by (etrans; [apply sublist_take|done]).
  assert (sublist [f] (kept ++ [f])) by (by apply sublist_inserts_l).
  repeat case_match; done.
Qed.

(** The code and the specification keep the same frames if no channel reopens. *)
Lemma accept_agrees kept rest :
  ordered kept -> no_reopen (kept ++ rest) ->
  foldl (accept from_first) kept rest = foldl (accept trailing) kept rest /\
  sublist (foldl (accept from_first) kept rest) (kept ++ rest) /\
  ordered (foldl (accept from_first) kept rest).
Proof.
  revert kept. induction rest as [|f rest IH]; intros kept Ho Hr; cbn [foldl]; [by rewrite app_nil_r|].
  replace (kept ++ f :: rest) with ((kept ++ [f]) ++ rest) in Hr |- * by (by rewrite <- (assoc_L (++))).
  pose proof (accept_sublist kept f Ho) as Hs.
  destruct (IH (accept from_first kept f)) as (He & Hsub & Hord);
    [by apply accept_code_ordered|eapply no_reopen_sublist; [|exact Hr]; by apply sublist_skips_r|].
  split; [|split; [|done]].
  - rewrite He. f_equal. destruct (last kept) as [p|] eqn:Hp; [|apply last_None in Hp as ->; done].
    rewrite !(accept_last _ _ p) by done. rewrite discards_agree; [done..| |done].
    eapply no_reopen_sublist; [|exact Hr]. rewrite <- (assoc_L (++)). by apply sublist_inserts_r.
  - etrans; [exact Hsub|]. by apply sublist_skips_r.
Qed.

Lemma prune_loop_all {E} q :
  q <> [] -> prune_loop (E := E) (S (2 * length q)) q 0 = Ok (foldl (accept from_first) [] q).
Proof.
  destruct q as [|f q]; [done|]. intros _.
  apply (prune_loop_run (S (2 * length (f :: q))) [f] q); [done|by repeat constructor|cbn; lia].
Qed.

Lemma foldl_accept_ordered kept rest : ordered kept -> ordered (foldl (accept from_first) kept rest).
Proof. revert kept. induction rest as [|f rest IH]; intros kept Ho; [done|]. apply IH. by apply accept_code_ordered. Qed.

Lemma foldl_accept_sublist kept rest :
  ordered kept -> sublist (foldl (accept from_first) kept rest) (kept ++ rest).
Proof.
  revert kept. induction rest as [|f rest IH]; intros kept Ho; cbn [foldl]; [by rewrite app_nil_r|].
  etrans; [apply IH; by apply accept_code_ordered|].
  replace (kept ++ f :: rest) with ((kept ++ [f]) ++ rest) by (by rewrite <- (assoc_L (++))).
  by apply sublist_skips_r, accept_sublist.
Qed.

Lemma accept_kept kept f : ordered (kept ++ [f]) -> accept from_first kept f = kept ++ [f].
Proof.
  intros Ho. destruct (last kept) as [p|] eqn:Hp; [|apply last_None in Hp as ->; done].
  rewrite (accept_last _ _ p) by done. rewrite ordered_lookup in Ho.
  assert (kept <> []) as Hne by (by intros ->). assert (0 < length kept)%nat by (destruct kept; [done|cbn; lia]).
  destruct (Ho (length kept - 1)%nat p f) as [(Hid & Hn & Hl)|(Hid & Hl & Hn)].
  - rewrite last_lookup in Hp. rewrite lookup_app_l by lia. by rewrite Nat.sub_1_r.
  - replace (S (length kept - 1)) with (length kept) by lia. by rewrite lookup_app_r, Nat.sub_diag by lia.
  - rewrite (proj2 (same_channel_true p f)), Hl, (proj2 (Z.eqb_eq _ _)) by done. done.
  - rewrite (proj2 (same_channel_false p f)), Hl, Hn by done. done.
Qed.

Lemma foldl_accept_kept kept rest : ordered (kept ++ rest) -> foldl (accept from_first) kept rest = kept ++ rest.
Proof.
  revert kept. induction rest as [|f rest IH]; intros kept Ho; cbn [foldl]; [by rewrite app_nil_r|].
  replace (kept ++ f :: rest) with ((kept ++ [f]) ++ rest) in * by (by rewrite <- (assoc_L (++))).
  rewrite accept_kept; [by apply IH|]. apply (ordered_take (length (kept ++ [f]))) in Ho. by rewrite take_app_length in Ho.
Qed.

Lemma accept_nonempty kept f : accept from_first kept f <> [].
Proof.
  destruct (last kept) as [p|] eqn:Hp; [|apply last_None in Hp as ->; done].
  assert (kept <> []) by (by intros ->). assert (forall l, l ++ [f] <> []) by (by intros []).
  rewrite (accept_last _ _ p) by done. destruct (last (from_first p kept)) eqn:E.
  - assert (from_first p kept <> []) by (intros E0; by rewrite E0 in E). repeat case_match; done.
  - repeat case_match; done.
Qed.

Lemma foldl_accept_nonempty q : q <> [] -> foldl (accept from_first) [] q <> [].
Proof.
  intros Hq. destruct q as [|f q _] using rev_ind; [done|]. rewrite foldl_app. apply accept_nonempty.
Qed.

Section prune.
Context {P : Type} `{FrameQueueProvider P, OriginProvider P, OriginAdvancer P, StageReset P}.
Implicit Types s : FrameQueue P.

Lemma prune_run og s :
  is_holocene_active (fq_config s) (timestamp og) = true -> queue s <> [] ->
  prune og s = (Ok tt, set_queue (foldl (accept from_first) [] (queue s)) s).
Proof. intros Hh Hq. unfold prune. rewrite Hh. cbn [negb]. by rewrite prune_loop_all. Qed.

Lemma prune_sublist og s :
  queue s <> [] -> exists q, prune og s = (Ok tt, set_queue q s) /\ q <> [] /\ sublist q (queue s).
Proof.
  intros Hq. destruct (is_holocene_active (fq_config s) (timestamp og)) eqn:Hh.
  - rewrite prune_run by done. eexists. split; [done|]. split; [by apply foldl_accept_nonempty|].
    apply (foldl_accept_sublist []). constructor.
  - exists (queue s). unfold prune. rewrite Hh. split; [by destruct s|]. by split.
Qed.

(** Loading, by what the source returns. *)
Lemma load_frames_run s :
  queue s = [] ->
  let '(r, p) := next_data (fq_prev s) in
  load_frames s =
  match r with
  | Err e => (Err e, set_prev p s)
  | Ok data =>
      match parse_frames data with
      | Err (Fail _) => (Ok tt, set_prev p s)
      | Err e => (Err (match e with Panic => Panic | _ => OutOfFuel end), set_prev p s)
      | Ok frames =>
          match origin p with
          | None => (Err (Fail (Critical MissingOrigin)), mkFrameQueue p frames (fq_config s))
          | Some og => prune og (mkFrameQueue p frames (fq_config s))
          end
      end
  end.
Proof.
  intros Hq. destruct (next_data (fq_prev s)) as [r p] eqn:Hn. unfold load_frames.
  erewrite bind_run by reflexivity. rewrite Hq. unfold mbind at 1, stm_bind at 1, zoom. rewrite Hn.
  destruct r as [data|e]; [|done]. destruct (parse_frames data) as [frames|[]]; [|done..].
  erewrite bind_run by reflexivity. erewrite bind_run by reflexivity. cbn [set_queue fq_prev set_prev queue fq_config].
  rewrite Hq. cbn [app]. by destruct (origin p).
Qed.

(** Pruning enforces the Holocene frame order. On every non-empty queue it
    returns without panicking and leaves a non-empty subsequence of the queue in
    which every frame either continues the channel of the frame before it or
    starts a new channel after a closing frame; a queue already in order is left
    alone. If no channel starts again after it was closed, the result is the one
    of the specification, which drops only the frames of the channel that was
    left open. *)
Theorem prune_orders og s :
  is_holocene_active (fq_config s) (timestamp og) = true -> queue s <> [] ->
  exists q, prune og s = (Ok tt, set_queue q s) /\ q <> [] /\ sublist q (queue s) /\ ordered q /\
    (ordered (queue s) -> q = queue s) /\
    (no_reopen (queue s) -> q = foldl (accept trailing) [] (queue s)).
Proof.
  intros Hh Hq. exists (foldl (accept from_first) [] (queue s)). split; [by apply prune_run|].
  split; [by apply foldl_accept_nonempty|]. split; [by apply (foldl_accept_sublist [])|].
  split; [apply foldl_accept_ordered; constructor|]. split; [by apply (foldl_accept_kept [])|].
  intros Hr. by apply (accept_agrees [] (queue s)).
Qed.

(** Pruning can drop complete channels. Take two closed one-frame channels, then
    a frame that starts the first channel again and the first frame of a third
    channel. The code searches the start of the open channel from the front of the
    queue, finds the closed channel of the same id and drops everything up to
    the open frame, the unrelated closed channel included; the specification drops
    only the open frame. *)
Theorem prune_drops_closed og s a a2 b c :
  is_holocene_active (fq_config s) (timestamp og) = true ->
  queue s = [a; b; a2; c] -> frame_id a = frame_id a2 -> frame_id a <> frame_id b -> frame_id a <> frame_id c ->
  frame_id b <> frame_id c -> Forall (fun f => number f = 0) (queue s) ->
  is_last a = true -> is_last b = true -> is_last a2 = false ->
  prune og s = (Ok tt, set_queue [c] s) /\ foldl (accept trailing) [] (queue s) = [a; b; c].
Proof.
  intros Hh Hq Ha2 Hab Hac Hbc Hn La Lb La2. rewrite Hq in Hn. decompose_Forall_hyps.
  assert (forall d, foldl (accept d) [] (queue s) = accept d [a; b; a2] c) as Hrun.
  { intros d. rewrite Hq. cbn [foldl]. change (accept d [] a) with [a].
    rewrite (accept_closed d [a] a b) by (done || congruence).
    by rewrite (accept_closed d ([a] ++ [b]) b a2) by (done || congruence). }
  rewrite prune_run by (done || by rewrite Hq). rewrite !Hrun, !(accept_last _ [a; b; a2] a2) by done.
  assert (same_channel a2 c = false /\ same_channel b c = false /\ same_channel a a2 = true /\
    same_channel b a2 = false /\ same_channel a2 a2 = true) as (E1 & E2 & E3 & E4 & E5).
  { rewrite !same_channel_false, !same_channel_true. split_and!; congruence. }
  rewrite E1, La2, from_first_cons, E3. cbn [trailing]. rewrite E5, E4. cbn [last app]. rewrite E2.
  by replace (number c =? 0) with true by (symmetry; by apply Z.eqb_eq).
Qed.
End prune.

(** The frame queue keeps the promise of a source of frames. *)
#[export] Instance frame_queue_laws {P} `{FrameQueueLaws P, OriginAdvancer P, StageReset P} : NextFrameLaws (FrameQueue P).
Proof.
  refine {| frames_inv s := data_inv (fq_prev s) /\ Forall frame_ok (queue s) |}.
  intros s r s' [Hp Hq] Hn. cbn [next_frame frame_queue_provider origin frame_queue_origin] in *. unfold queue_next_frame in Hn.
  assert (exists r1 s1, load_frames s = (r1, s1) /\ data_inv (fq_prev s1) /\ Forall frame_ok (queue s1) /\
    origin (fq_prev s1) = origin (fq_prev s)) as (r1 & s1 & Hl & Hp1 & Hq1 & Ho1).
  { destruct (queue s) as [|f q] eqn:Eq; [|exists (Ok tt), s; rewrite Eq; split; [|done]; unfold load_frames;
      erewrite bind_run by reflexivity; by rewrite Eq].
    pose proof (load_frames_run s Eq) as Hr. destruct (next_data (fq_prev s)) as [rd p] eqn:Hd.
    destruct (next_data_law _ _ _ Hp Hd) as (Hp' & Ho' & Hb).
    destruct rd as [data|e]; [|do 2 eexists; split; [exact Hr|]; cbn; by rewrite Eq].
    destruct (parse_frames data) as [frames|[]] eqn:Epf;
      [|do 2 eexists; split; [exact Hr|]; cbn; by rewrite Eq..].
    apply parse_frames_iff in Epf as (Hne & rest & _ & Hfr%framing_bytes_ok); [|by apply Hb].
    destruct (origin p) as [og|] eqn:Eo; [|do 2 eexists; split; [exact Hr|]; cbn; by rewrite Eo].
    destruct (prune_sublist og (mkFrameQueue p frames (fq_config s)) Hne) as (q' & Hpr & _ & Hsub).
    rewrite Hpr in Hr. do 2 eexists. split; [exact Hr|]. cbn. rewrite Eo. split_and!; [done| |done].
    eapply Forall_forall. intros f Hf. rewrite Forall_forall in Hfr. apply Hfr. by eapply sublist_subseteq. }
  unfold mbind, stm_bind in Hn. rewrite Hl in Hn. destruct r1 as [[]|e]; [|by injection Hn as <- <-].
  unfold pop_frame in Hn. destruct (queue s1) as [|f q] eqn:Eq1.
  - unfold temp, throw in Hn. injection Hn as <- <-. by rewrite Eq1.
  - injection Hn as <- <-. apply Forall_cons in Hq1 as [Hf Hq1]. cbn. split_and!; try done. by intros ? [= <-].
Defined.

Module FrameQueueExample.
Definition fr (c n : Z) (l : bool) : Frame := mkFrame [c] n [] l.
#[local] Instance prev_data : FrameQueueProvider unit := {| next_data := temp Eof |}.
#[local] Instance prev_origin : OriginProvider unit := {| origin _ := Some default_block |}.
#[local] Instance prev_advance : OriginAdvancer unit := {| advance_origin := mret tt |}.
#[local] Instance prev_reset : StageReset unit :=
  {| reset _ _ := mret tt; activate := mret tt; flush_channel := mret tt |}.

Definition start (q : list Frame) : FrameQueue unit := mkFrameQueue tt q RollupExample.all_forks.

Lemma prune_orders_witness :
  exists q, prune default_block (start [fr 1 0 false; fr 2 0 false; fr 1 1 true; fr 2 1 true]) = (Ok tt, start q) /\
    q = [fr 2 0 false; fr 2 1 true].
Proof.
  destruct (prune_orders default_block (start [fr 1 0 false; fr 2 0 false; fr 1 1 true; fr 2 1 true]))
    as (q & Hq & _ & _ & _ & _ & Hs); [done|done|].
  exists q. split; [done|]. apply Hs. repeat constructor; done.
Defined.

Lemma prune_drops_closed_witness :
  prune default_block (start [fr 1 0 true; fr 2 0 true; fr 1 0 false; fr 3 0 true]) = (Ok tt, start [fr 3 0 true]).
Proof.
  apply (prune_drops_closed default_block (start [fr 1 0 true; fr 2 0 true; fr 1 0 false; fr 3 0 true])
    (fr 1 0 true) (fr 1 0 false) (fr 2 0 true) (fr 3 0 true)); first [done | repeat constructor].
Defined.
End FrameQueueExample.
