(* ===== verification/Traversal.v ===== *)
(** The two lowest stages of the derivation pipeline: the traversal of the L1 chain
    ([crates/consensus/derive/src/stages/traversal/polling.rs]) and the retrieval
    of the data of each L1 block ([stages/l1_retrieval.rs]). *)

From S2P Require Import Prelude Buffer Rollup SystemConfig Frames Pipeline DataSource.

(** * Traversal *)

Record PollingTraversal (C : Type) : Type := mkPollingTraversal {
  tr_block : option BlockInfo;
  data_source : C;
  tr_done : bool;
  system_config : SystemConfig;
  tr_config : RollupConfig;
}.
Arguments mkPollingTraversal {C}.
Arguments tr_block {C}.
Arguments data_source {C}.
Arguments tr_done {C}.
Arguments system_config {C}.
Arguments tr_config {C}.

Section traversal.
Context {C : Type} `{ChainProvider C, SolWords}.

Definition set_data_source (c : C) (s : PollingTraversal C) : PollingTraversal C :=
  mkPollingTraversal (tr_block s) c (tr_done s) (system_config s) (tr_config s).
Definition set_system_config (sc : SystemConfig) (s : PollingTraversal C) : PollingTraversal C :=
  mkPollingTraversal (tr_block s) (data_source s) (tr_done s) sc (tr_config s).
Definition update_origin (b : BlockInfo) (s : PollingTraversal C) : PollingTraversal C :=
  mkPollingTraversal (Some b) (data_source s) false (system_config s) (tr_config s).

(** [PollingTraversal::next_l1_block] *)
Definition traversal_next_block : act (PollingTraversal C) (option BlockInfo) := fun s =>
  if negb (tr_done s)
  then (Ok (tr_block s), mkPollingTraversal (tr_block s) (data_source s) true (system_config s) (tr_config s))
  else temp Eof s.

(** [update_system_config_with_receipts]: logs and metrics are dropped. *)
Definition update_system_config_with_receipts (receipts : list Receipt) (addr : Z) (ecotone_active : bool)
    (s : PollingTraversal C) : PollingTraversal C :=
  set_system_config (update_with_receipts receipts addr ecotone_active (system_config s)).2 s.

Definition traversal_advance_origin : act (PollingTraversal C) unit :=
  b ← gets tr_block;
  match b with
  | None => temp Eof
  | Some b =>
      next_l1_origin ← zoom data_source set_data_source (block_info_by_number (add64 (block_number b) 1));
      if negb (hash b =? parent_hash next_l1_origin)
      then reset_with (ReorgDetected (hash b) (parent_hash next_l1_origin))
      else
        receipts ← zoom data_source set_data_source (receipts_by_hash (hash next_l1_origin));
        cfg ← gets tr_config;
        modify (update_system_config_with_receipts receipts (l1_system_config_address cfg)
                  (is_ecotone_active cfg (timestamp next_l1_origin))) ;;
        modify (update_origin next_l1_origin) ;;
        if negb (is_holocene_active cfg (timestamp b)) && is_holocene_active cfg (timestamp next_l1_origin)
        then reset_with HoloceneActivation
        else mret tt
  end.

Definition traversal_reset (l1_origin : BlockNumHash) (sc : SystemConfig) : act (PollingTraversal C) unit :=
  b ← zoom data_source set_data_source (block_info_by_number (num l1_origin));
  modify (update_origin b) ;;
  modify (set_system_config sc).

#[export] Instance traversal_l1 : L1RetrievalProvider (PollingTraversal C) :=
  {| next_l1_block := traversal_next_block; batcher_addr s := batcher_address (system_config s) |}.
#[export] Instance traversal_origin : OriginProvider (PollingTraversal C) := {| origin := tr_block |}.
#[export] Instance traversal_advancer : OriginAdvancer (PollingTraversal C) :=
  {| advance_origin := traversal_advance_origin |}.
#[export] Instance traversal_stage_reset : StageReset (PollingTraversal C) :=
  {| reset := traversal_reset; activate := mret tt; flush_channel := mret tt |}.
End traversal.

(** * Retrieval *)

Record L1Retrieval (D P : Type) : Type := mkL1Retrieval {
  lr_prev : P;
  provider : D;
  lr_next : option BlockInfo;
}.
Arguments mkL1Retrieval {D P}.
Arguments lr_prev {D P}.
Arguments provider {D P}.
Arguments lr_next {D P}.

Section retrieval.
Context {D P : Type} `{DataAvailabilityProvider D, L1RetrievalProvider P, OriginAdvancer P, OriginProvider P, StageReset P}.

Definition set_lr_prev (p : P) (s : L1Retrieval D P) : L1Retrieval D P := mkL1Retrieval p (provider s) (lr_next s).
Definition set_provider (d : D) (s : L1Retrieval D P) : L1Retrieval D P := mkL1Retrieval (lr_prev s) d (lr_next s).
Definition set_next (n : option BlockInfo) (s : L1Retrieval D P) : L1Retrieval D P :=
  mkL1Retrieval (lr_prev s) (provider s) n.

(** The first half of [next_data]: the block to read from. *)
Definition current_block : act (L1Retrieval D P) BlockInfo :=
  n ← gets lr_next;
  match n with
  | Some b => mret b
  | None =>
      o ← zoom lr_prev set_lr_prev next_l1_block;
      b ← ok_or o (temp MissingL1Data);
      modify (set_next (Some b)) ;; mret b
  end.

Definition retrieval_next_data : act (L1Retrieval D P) (list Z) :=
  b ← current_block;
  batcher ← gets (fun s => batcher_addr (lr_prev s));
  r ← try_run (zoom provider set_provider (da_next b batcher));
  match r with
  | Ok data => mret data
  | Err (Fail (Temporary Eof)) =>
      modify (set_next None) ;;
      modify (fun s => set_provider (da_clear (provider s)) s) ;;
      throw (Fail (Temporary Eof))
  | Err e => throw e
  end.

(** The common end of [reset] and [activate]. *)
Definition retrieval_restart : act (L1Retrieval D P) unit :=
  modify (fun s => set_provider (da_clear (provider s)) s) ;;
  modify (fun s => set_next (origin (lr_prev s)) s).
Definition retrieval_reset (l1_origin : BlockNumHash) (sc : SystemConfig) : act (L1Retrieval D P) unit :=
  zoom lr_prev set_lr_prev (reset l1_origin sc) ;; retrieval_restart.
Definition retrieval_activate : act (L1Retrieval D P) unit :=
  zoom lr_prev set_lr_prev activate ;; retrieval_restart.

#[export] Instance retrieval_data : FrameQueueProvider (L1Retrieval D P) := {| next_data := retrieval_next_data |}.
#[export] Instance retrieval_origin : OriginProvider (L1Retrieval D P) := {| origin s := origin (lr_prev s) |}.
#[export] Instance retrieval_advancer : OriginAdvancer (L1Retrieval D P) :=
  {| advance_origin := zoom lr_prev set_lr_prev advance_origin |}.
#[export] Instance retrieval_stage_reset : StageReset (L1Retrieval D P) :=
  {| reset := retrieval_reset; activate := retrieval_activate;
     flush_channel := zoom lr_prev set_lr_prev flush_channel |}.
End retrieval.
