(* ===== verification/ChannelStages.v ===== *)
(** The channel stages of the derivation pipeline
    ([crates/consensus/derive/src/stages/channel]): the channel bank used before
    Holocene, the channel assembler used from Holocene on, and the multiplexer
    that switches between them. *)

From S2P Require Import Prelude Buffer Rollup SystemConfig Frames Pipeline Channel.

(** [c.open_block_number() + cfg.channel_timeout(origin.timestamp) < origin.number] *)
Definition channel_timed_out (cfg : RollupConfig) (og : BlockInfo) (c : Channel) : bool :=
  add64 (open_block_number c) (channel_timeout cfg (timestamp og)) <? block_number og.

(** * The channel assembler *)

Record ChannelAssembler (P : Type) : Type := mkChannelAssembler {
  ca_cfg : RollupConfig;
  ca_prev : P;
  channel : option Channel;
}.
Arguments mkChannelAssembler {P}.
Arguments ca_cfg {P}.
Arguments ca_prev {P}.
Arguments channel {P}.

Definition new_assembler {P} (cfg : RollupConfig) (prev : P) : ChannelAssembler P := mkChannelAssembler cfg prev None.

Section assembler.
Context {P : Type} `{NextFrameProvider P, OriginProvider P, OriginAdvancer P, StageReset P}.

Definition set_ca_prev (p : P) (s : ChannelAssembler P) : ChannelAssembler P := mkChannelAssembler (ca_cfg s) p (channel s).
Definition set_channel (c : option Channel) (s : ChannelAssembler P) : ChannelAssembler P :=
  mkChannelAssembler (ca_cfg s) (ca_prev s) c.

(** [ChannelAssembler::is_timed_out] *)
Definition is_timed_out : act (ChannelAssembler P) bool :=
  o ← gets (fun s => origin (ca_prev s));
  og ← ok_or o (crit MissingOrigin);
  gets (fun s => match channel s with Some c => channel_timed_out (ca_cfg s) og c | None => false end).

(** What is done with a frame once a channel is open. *)
Definition assemble (og : BlockInfo) (f : Frame) (c : Channel) : act (ChannelAssembler P) (option (list Z)) :=
  if negb (number f =? channel_len c) then temp NotEnoughData
  else
    let '(r, c) := add_frame f og c in
    modify (set_channel (Some c)) ;;
    match r with
    | Err _ => temp NotEnoughData
    | Ok _ =>
        cfg ← gets ca_cfg;
        let max_rlp_bytes := if is_fjord_active cfg (timestamp og)
                             then MAX_RLP_BYTES_PER_CHANNEL_FJORD else MAX_RLP_BYTES_PER_CHANNEL_BEDROCK in
        if channel_size c >? max_rlp_bytes
        then modify (set_channel None) ;; temp NotEnoughData
        else if is_ready c
        then
          channel_bytes ← ok_or (channel_data c) (crit ChannelNotFound);
          modify (set_channel None) ;; mret (Some channel_bytes)
        else temp NotEnoughData
    end.

(** [ChannelAssembler::next_data] *)
Definition assembler_next_data : act (ChannelAssembler P) (option (list Z)) :=
  o ← gets (fun s => origin (ca_prev s));
  og ← ok_or o (crit MissingOrigin);
  c ← gets channel;
  match c with
  | Some _ => t ← is_timed_out; if (t : bool) then modify (set_channel None) else mret tt
  | None => mret tt
  end ;;
  f ← zoom ca_prev set_ca_prev next_frame;
  (if number f =? 0 then modify (set_channel (Some (new_channel (frame_id f) og))) else mret tt) ;;
  c ← gets channel;
  match c with
  | Some c => assemble og f c
  | None => temp NotEnoughData
  end.

Definition assembler_reset (l1_origin : BlockNumHash) (sc : SystemConfig) : act (ChannelAssembler P) unit :=
  zoom ca_prev set_ca_prev (reset l1_origin sc) ;; modify (set_channel None).
Definition assembler_activate : act (ChannelAssembler P) unit :=
  zoom ca_prev set_ca_prev activate ;; modify (set_channel None).
Definition assembler_flush_channel : act (ChannelAssembler P) unit :=
  zoom ca_prev set_ca_prev flush_channel ;; modify (set_channel None).

#[export] Instance assembler_data : ChannelReaderProvider (ChannelAssembler P) :=
  {| next_channel_data := assembler_next_data |}.
#[export] Instance assembler_origin : OriginProvider (ChannelAssembler P) := {| origin s := origin (ca_prev s) |}.
#[export] Instance assembler_advancer : OriginAdvancer (ChannelAssembler P) :=
  {| advance_origin := zoom ca_prev set_ca_prev advance_origin |}.
#[export] Instance assembler_stage_reset : StageReset (ChannelAssembler P) :=
  {| reset := assembler_reset; activate := assembler_activate; flush_channel := assembler_flush_channel |}.
End assembler.

(** * The channel bank *)

Definition MAX_CHANNEL_BANK_SIZE : Z := 100000000.
Definition FJORD_MAX_CHANNEL_BANK_SIZE : Z := 1000000000.

Record ChannelBank (P : Type) : Type := mkChannelBank {
  cb_cfg : RollupConfig;
  channels : gmap (list Z) Channel;
  channel_queue : list (list Z);
  cb_prev : P;
}.
Arguments mkChannelBank {P}.
Arguments cb_cfg {P}.
Arguments channels {P}.
Arguments channel_queue {P}.
Arguments cb_prev {P}.

Definition new_bank {P} (cfg : RollupConfig) (prev : P) : ChannelBank P := mkChannelBank cfg ∅ [] prev.

Section bank.
Context {P : Type} `{NextFrameProvider P, OriginProvider P, OriginAdvancer P, StageReset P}.

Definition set_cb_prev (p : P) (s : ChannelBank P) : ChannelBank P :=
  mkChannelBank (cb_cfg s) (channels s) (channel_queue s) p.
Definition set_channels (cs : gmap (list Z) Channel) (s : ChannelBank P) : ChannelBank P :=
  mkChannelBank (cb_cfg s) cs (channel_queue s) (cb_prev s).
Definition set_channel_queue (q : list (list Z)) (s : ChannelBank P) : ChannelBank P :=
  mkChannelBank (cb_cfg s) (channels s) q (cb_prev s).

(** [ChannelBank::size] *)
Definition bank_size (s : ChannelBank P) : Z := map_fold (fun _ c acc => add64 acc (channel_size c)) 0 (channels s).

(** [self.origin().ok_or(e)?] *)
Definition bank_origin_or (e : PipelineError) : act (ChannelBank P) BlockInfo :=
  o ← gets (fun s => origin (cb_prev s)); ok_or o (crit e).

(** The loop of [prune]; [q] is the channel queue. *)
Fixpoint bank_prune_loop (q : list (list Z)) (total_size max_channel_bank_size : Z) : act (ChannelBank P) unit :=
  if total_size >? max_channel_bank_size then
    match q with
    | [] => crit ChannelProviderEmpty
    | id :: q =>
        modify (set_channel_queue q) ;;
        cs ← gets channels;
        c ← ok_or (cs !! id) (crit ChannelNotFound);
        modify (set_channels (delete id cs)) ;;
        bank_prune_loop q (sub64 total_size (channel_size c)) max_channel_bank_size
    end
  else mret tt.

(** [ChannelBank::prune] *)
Definition bank_prune : act (ChannelBank P) unit :=
  total_size ← gets bank_size;
  og ← bank_origin_or MissingOrigin;
  cfg ← gets cb_cfg;
  q ← gets channel_queue;
  bank_prune_loop q total_size
    (if is_fjord_active cfg (timestamp og) then FJORD_MAX_CHANNEL_BANK_SIZE else MAX_CHANNEL_BANK_SIZE).

Definition ingest_frame (f : Frame) : act (ChannelBank P) unit :=
  og ← bank_origin_or MissingOrigin;
  s ← gets id;
  let fresh := match channels s !! frame_id f with Some _ => false | None => true end in
  let current_channel := default (new_channel (frame_id f) og) (channels s !! frame_id f) in
  (if (fresh : bool)
   then modify (set_channel_queue (channel_queue s ++ [frame_id f])) ;;
        modify (set_channels (<[frame_id f := current_channel]> (channels s)))
   else mret tt) ;;
  if channel_timed_out (cb_cfg s) og current_channel then mret tt
  else
    let '(r, c) := add_frame f og current_channel in
    cs ← gets channels;
    modify (set_channels (<[frame_id f := c]> cs)) ;;
    match r with
    | Err _ => mret tt
    | Ok _ => bank_prune
    end.

Definition try_read_channel_at_index (index : Z) : act (ChannelBank P) (list Z) :=
  q ← gets channel_queue;
  id ← lift (byte_at q index);
  cs ← gets channels;
  c ← ok_or (cs !! id) (crit ChannelProviderEmpty);
  og ← bank_origin_or MissingOrigin;
  cfg ← gets cb_cfg;
  if channel_timed_out cfg og c || negb (is_ready c) then temp Eof
  else
    modify (set_channels (delete id cs)) ;;
    modify (set_channel_queue (delete (Z.to_nat index) q)) ;;
    ok_or (channel_data c) (crit ChannelProviderEmpty).

(** [(i..i + n).find_map(|i| self.try_read_channel_at_index(i).ok())] *)
Fixpoint find_ready (n : nat) (i : Z) : act (ChannelBank P) (option (list Z)) :=
  match n with
  | O => mret None
  | S n =>
      r ← try_run (try_read_channel_at_index i);
      match r with
      | Ok data => mret (Some data)
      | Err (Fail _) => find_ready n (i + 1)
      | Err e => throw e
      end
  end.

(** [ChannelBank::read] *)
Definition bank_read : act (ChannelBank P) (option (list Z)) :=
  q ← gets channel_queue;
  match q with
  | [] => temp Eof
  | first :: rest =>
      cs ← gets channels;
      c ← ok_or (cs !! first) (crit ChannelProviderEmpty);
      og ← bank_origin_or ChannelProviderEmpty;
      cfg ← gets cb_cfg;
      if channel_timed_out cfg og c
      then modify (set_channels (delete first cs)) ;; modify (set_channel_queue rest) ;; mret None
      else if negb (is_canyon_active cfg (timestamp og))
      then d ← try_read_channel_at_index 0; mret (Some d)
      else
        r ← find_ready (length q) 0;
        match r with
        | None => temp Eof
        | Some data => mret (Some data)
        end
  end.

(** [ChannelBank::next_data] *)
Definition bank_next_data : act (ChannelBank P) (option (list Z)) :=
  r ← try_run bank_read;
  match r with
  | Ok data => mret data
  | Err (Fail (Temporary Eof)) =>
      f ← zoom cb_prev set_cb_prev next_frame;
      ingest_frame f ;;
      temp NotEnoughData
  | Err (Fail _) => crit ChannelProviderEmpty
  | Err e => throw e
  end.

Definition bank_clear (s : ChannelBank P) : ChannelBank P := mkChannelBank (cb_cfg s) ∅ [] (cb_prev s).
Definition bank_reset (l1_origin : BlockNumHash) (sc : SystemConfig) : act (ChannelBank P) unit :=
  zoom cb_prev set_cb_prev (reset l1_origin sc) ;; modify bank_clear.
Definition bank_activate : act (ChannelBank P) unit := zoom cb_prev set_cb_prev activate ;; modify bank_clear.
Definition bank_flush_channel : act (ChannelBank P) unit := zoom cb_prev set_cb_prev flush_channel ;; modify bank_clear.

#[export] Instance bank_data : ChannelReaderProvider (ChannelBank P) := {| next_channel_data := bank_next_data |}.
#[export] Instance bank_origin : OriginProvider (ChannelBank P) := {| origin s := origin (cb_prev s) |}.
#[export] Instance bank_advancer : OriginAdvancer (ChannelBank P) :=
  {| advance_origin := zoom cb_prev set_cb_prev advance_origin |}.
#[export] Instance bank_stage_reset : StageReset (ChannelBank P) :=
  {| reset := bank_reset; activate := bank_activate; flush_channel := bank_flush_channel |}.
End bank.

(** * The multiplexer *)

Record ChannelProvider (P : Type) : Type := mkChannelProvider {
  cp_cfg : RollupConfig;
  cp_prev : option P;
  channel_bank : option (ChannelBank P);
  channel_assembler : option (ChannelAssembler P);
}.
Arguments mkChannelProvider {P}.
Arguments cp_cfg {P}.
Arguments cp_prev {P}.
Arguments channel_bank {P}.
Arguments channel_assembler {P}.

Definition new_provider {P} (cfg : RollupConfig) (prev : P) : ChannelProvider P := mkChannelProvider cfg (Some prev) None None.

Section provider.
Context {P : Type} `{NextFrameProvider P, OriginProvider P, OriginAdvancer P, StageReset P}.

(** [ChannelProvider::origin] *)
Definition provider_origin (s : ChannelProvider P) : option BlockInfo :=
  match channel_assembler s with
  | Some a => origin a
  | None =>
      match channel_bank s with
      | Some b => origin b
      | None => p ← cp_prev s; origin p
      end
  end.

(** [ChannelProvider::attempt_update] *)
Definition channel_attempt_update : act (ChannelProvider P) unit := fun s =>
  let cfg := cp_cfg s in
  match provider_origin s with
  | None => crit MissingOrigin s
  | Some og =>
      let holocene := is_holocene_active cfg (timestamp og) in
      (Ok tt,
       match cp_prev s with
       | Some prev =>
           if holocene
           then mkChannelProvider cfg None (channel_bank s) (Some (new_assembler cfg prev))
           else mkChannelProvider cfg None (Some (new_bank cfg prev)) (channel_assembler s)
       | None =>
           match channel_bank s, channel_assembler s with
           | Some b, a =>
               if holocene then mkChannelProvider cfg None None (Some (new_assembler cfg (cb_prev b)))
               else match a with
                    | Some a => mkChannelProvider cfg None (Some (new_bank cfg (ca_prev a))) None
                    | None => s
                    end
           | None, Some a =>
               if holocene then s
               else mkChannelProvider cfg None (Some (new_bank cfg (ca_prev a))) None
           | None, None => s
           end
       end)
  end.

(** The active stage runs an operation; the assembler has precedence. *)
Definition run_active {A} (ma : act (ChannelAssembler P) A) (mb : act (ChannelBank P) A) : act (ChannelProvider P) A := fun s =>
  match channel_assembler s, channel_bank s with
  | Some a, b => let '(r, a) := ma a in (r, mkChannelProvider (cp_cfg s) (cp_prev s) b (Some a))
  | None, Some b => let '(r, b) := mb b in (r, mkChannelProvider (cp_cfg s) (cp_prev s) (Some b) None)
  | None, None => temp NotEnoughData s
  end.
Definition delegate {A} (ma : act (ChannelAssembler P) A) (mb : act (ChannelBank P) A) : act (ChannelProvider P) A :=
  channel_attempt_update ;; run_active ma mb.

#[export] Instance provider_data : ChannelReaderProvider (ChannelProvider P) :=
  {| next_channel_data := delegate next_channel_data next_channel_data |}.
#[export] Instance provider_origin_provider : OriginProvider (ChannelProvider P) := {| origin := provider_origin |}.
#[export] Instance provider_advancer : OriginAdvancer (ChannelProvider P) :=
  {| advance_origin := delegate advance_origin advance_origin |}.
#[export] Instance provider_stage_reset : StageReset (ChannelProvider P) :=
  {| reset o c := delegate (reset o c) (reset o c); activate := delegate activate activate;
     flush_channel := delegate flush_channel flush_channel |}.
End provider.

(** * The bank stays bounded *)

(** The buffered size of all channels. *)
Definition channels_total (m : gmap (list Z) Channel) : Z := map_fold (fun _ c acc => channel_size c + acc) 0 m.

Lemma channels_total_empty : channels_total ∅ = 0.
Proof. apply map_fold_empty. Qed.
Lemma channels_total_insert k c m : m !! k = None -> channels_total (<[k := c]> m) = channel_size c + channels_total m.
Proof. intros. unfold channels_total. rewrite map_fold_insert_L; [done|intros; lia|done]. Qed.
Lemma channels_total_delete k c m :
  m !! k = Some c -> channels_total m = channel_size c + channels_total (delete k m).
Proof. intros Hk. rewrite <- (channels_total_insert k) by apply lookup_delete_eq. by rewrite insert_delete_id. Qed.
Lemma channels_total_update k c c' m :
  m !! k = Some c -> channels_total (<[k := c']> m) = channels_total m - channel_size c + channel_size c'.
Proof.
  intros Hk. rewrite <- insert_delete_eq, channels_total_insert by apply lookup_delete_eq.
  rewrite (channels_total_delete k c m) by done. lia.
Qed.

Lemma channels_total_nonneg m :
  (forall k c, m !! k = Some c -> 0 <= channel_size c) -> 0 <= channels_total m.
Proof.
  induction m as [|k c m Hk IH] using map_ind; intros Hm; [by rewrite channels_total_empty|].
  rewrite channels_total_insert by done. pose proof (Hm k c (lookup_insert_eq _ _ _)).
  enough (0 <= channels_total m) by lia. apply IH. intros k' c' Hk'. apply (Hm k').
  rewrite lookup_insert_ne; [done|congruence].
Qed.

(** The sum in the width of [usize] is the sum. *)
Lemma sizes_exact (m : gmap (list Z) Channel) :
  (forall k c, m !! k = Some c -> 0 <= channel_size c) -> channels_total m <= U64_MAX ->
  map_fold (fun _ c acc => add64 acc (channel_size c)) 0 m = channels_total m.
Proof.
  intros Hm. unfold channels_total. rewrite !map_fold_foldr.
  assert (Forall (fun kc => 0 <= channel_size kc.2) (map_to_list m)) as Hl.
  { apply Forall_forall. intros [k c] Hkc%elem_of_map_to_list. by apply (Hm k). }
  induction Hl as [|[k c] l Hc Hl IH]; [done|]. cbn in *. intros Hs.
  assert (0 <= foldr (uncurry (fun (_ : list Z) c acc => channel_size c + acc)) 0 l).
  { clear -Hl. induction Hl as [|[k c] l Hc _ IH]; cbn in *; lia. }
  rewrite IH by lia. rewrite add64_id; lia.
Qed.

Record bank_ok {P} (s : ChannelBank P) : Prop := {
  bok_queue : NoDup (channel_queue s);
  bok_dom : forall id, id ∈ channel_queue s <-> is_Some (channels s !! id);
  bok_channel : forall id c, channels s !! id = Some c -> channel_id c = id /\ channel_ok c;
}.

Lemma channel_size_bound c : channel_ok c -> 0 <= channel_size c.
Proof.
  intros Hc. unfold channel_size. rewrite (ok_size c Hc).
  by destruct (total_fits (inputs c) (fun k f => ok_fits c k f Hc)).
Qed.

Lemma new_bank_ok {P} cfg (prev : P) : bank_ok (new_bank cfg prev).
Proof.
  split; cbn; [constructor|..]; [intros id|intros id c]; rewrite lookup_empty; [|done].
  split; [by intros ?%elem_of_nil|by intros [? ?]].
Qed.

Section bank_lemmas.
Context {P : Type} `{NextFrameProvider P, OriginProvider P, OriginAdvancer P, StageReset P}.
Implicit Types s : ChannelBank P.

Lemma bank_remove s i id :
  bank_ok s -> channel_queue s !! i = Some id ->
  bank_ok (mkChannelBank (cb_cfg s) (delete id (channels s)) (delete i (channel_queue s)) (cb_prev s)).
Proof.
  intros [Hq Hd Hc] Hi. apply delete_Permutation in Hi as Hp.
  assert (NoDup (id :: delete i (channel_queue s))) as [Hni Hnd]%NoDup_cons by (by rewrite <- Hp).
  split; cbn; [done|..].
  - intros j. destruct (decide (j = id)) as [->|Hne].
    + rewrite lookup_delete_eq. split; [done|by intros [? ?]].
    + assert (j ∈ channel_queue s <-> j ∈ id :: delete i (channel_queue s)) as Hj by (by apply elem_of_Permutation_proper).
      rewrite lookup_delete_ne by done. rewrite <- Hd, Hj, elem_of_cons. naive_solver.
  - intros j c' [_ Hj]%lookup_delete_Some. by apply Hc.
Qed.

(** Pruning drops the oldest channels until the rest fits. *)
Lemma bank_prune_run max q s :
  bank_ok s -> channel_queue s = q -> 0 <= max -> channels_total (channels s) <= U64_MAX ->
  exists q' m, bank_prune_loop q (channels_total (channels s)) max s =
      (Ok tt, mkChannelBank (cb_cfg s) m q' (cb_prev s)) /\
    channels_total m <= max /\ q' `suffix_of` q /\ bank_ok (mkChannelBank (cb_cfg s) m q' (cb_prev s)) /\
    (forall id, id ∈ q' -> m !! id = channels s !! id).
Proof.
  revert s. induction q as [|id q IH]; intros s Hs Eq Hmax Hfit; cbn [bank_prune_loop].
  - assert (channels s = ∅) as Hem.
    { apply map_empty. intros i. apply eq_None_not_Some. rewrite <- (bok_dom s Hs), Eq. apply not_elem_of_nil. }
    rewrite Hem, channels_total_empty. destruct (0 >? max) eqn:E; [rewrite Z.gtb_ltb in E; zbool; lia|].
    exists [], ∅. destruct s; cbn in *; subst. split_and!; done.
  - assert (is_Some (channels s !! id)) as [c Hc] by (apply (bok_dom s Hs); rewrite Eq; set_solver).
    destruct (_ >? max) eqn:E.
    2: { exists (id :: q), (channels s). rewrite Z.gtb_ltb in E. zbool. destruct s; cbn in *; subst. by split_and!. }
    erewrite bind_run by reflexivity. erewrite bind_run by reflexivity. cbn [channels set_channel_queue]. rewrite Hc.
    erewrite bind_run by reflexivity. erewrite bind_run by reflexivity.
    set (s' := mkChannelBank (cb_cfg s) (delete id (channels s)) q (cb_prev s)).
    assert (bank_ok s') as Hs' by (pose proof (bank_remove s 0 id Hs) as Hr; rewrite Eq in Hr; by apply Hr).
    pose proof (channels_total_delete id c (channels s) Hc) as Ht.
    assert (0 <= channel_size c) as Hpos by (by apply channel_size_bound, (bok_channel s Hs id)).
    assert (0 <= channels_total (delete id (channels s))) as Hrest.
    { apply channels_total_nonneg. intros k c' Hk. by apply channel_size_bound, (bok_channel s' Hs' k). }
    assert (sub64 (channels_total (channels s)) (channel_size c) = channels_total (channels s')) as Hsub.
    { unfold sub64, wrap. cbn [channels s']. rewrite Z.mod_small; lia. }
    rewrite Hsub. change (set_channels (delete id (channels s)) (set_channel_queue q s)) with s'.
    destruct (IH s' Hs' eq_refl Hmax) as (q' & m & Hr & Hm & Hsuf & Hok & Hlook); [cbn; lia|].
    exists q', m. split; [done|]. split; [done|]. split; [by apply suffix_cons_r|]. split; [done|].
    intros i Hi. rewrite Hlook by done. cbn. apply lookup_delete_ne. intros ->.
    pose proof (bok_queue s Hs) as Hnd. rewrite Eq in Hnd. apply NoDup_cons in Hnd as [Hni _]. apply Hni.
    destruct Hsuf as [l ->]. set_solver.
Qed.

Lemma ready_data c : channel_ok c -> is_ready c = true -> exists d, channel_data c = Some d.
Proof using.
  clear. intros Hc. unfold is_ready, channel_data, channel_is_empty. destruct (closed c) eqn:Ecl; [|done]. cbn [negb].
  destruct (_ =? _); [|done]. cbn [negb]. intros Hf. rewrite forallb_forall in Hf.
  destruct (ok_closed c Hc Ecl) as [_ (z & Hz & _)]. rewrite bool_decide_false by (intros He; by rewrite He in Hz).
  assert (is_Some (mapM (fun i => frame_data <$> inputs c !! i) (Channel.upto (last_frame_number c)))) as [l Hl].
  { apply mapM_is_Some_2, Forall_forall. intros i Hi%list_elem_of_In%Hf%bool_decide_eq_true. by apply fmap_is_Some. }
  rewrite Hl. eauto.
Qed.

(** The fields a read or an ingestion leaves alone. *)
Definition same_env s s' : Prop := cb_cfg s' = cb_cfg s /\ cb_prev s' = cb_prev s.

Lemma try_read_run og s i :
  bank_ok s -> origin (cb_prev s) = Some og -> (i < length (channel_queue s))%nat ->
  try_read_channel_at_index (Z.of_nat i) s = (Err (Fail (Temporary Eof)), s) \/
  exists id c d, channel_queue s !! i = Some id /\ channels s !! id = Some c /\
    try_read_channel_at_index (Z.of_nat i) s =
      (Ok d, mkChannelBank (cb_cfg s) (delete id (channels s)) (delete i (channel_queue s)) (cb_prev s)).
Proof.
  intros Hs Ho Hi. destruct (lookup_lt_is_Some_2 _ _ Hi) as [id Hid].
  assert (is_Some (channels s !! id)) as [c Hc] by (apply (bok_dom s Hs); by eapply list_elem_of_lookup_2).
  unfold try_read_channel_at_index. erewrite bind_run by reflexivity.
  erewrite bind_run; [|unfold lift; rewrite (byte_at_lookup _ _ _ Hid); reflexivity].
  erewrite bind_run by reflexivity. rewrite Hc. erewrite bind_run by reflexivity.
  erewrite bind_run; [|unfold bank_origin_or; erewrite bind_run by reflexivity; rewrite Ho; reflexivity].
  erewrite bind_run by reflexivity. destruct (_ || _) eqn:E; [by left|]. right. exists id, c.
  apply orb_false_iff in E as [_ Hr]. apply negb_false_iff in Hr.
  destruct (ready_data c) as [d Hd]; [by apply (bok_channel s Hs id)|done|].
  exists d. split; [done|]. split; [done|]. erewrite bind_run by reflexivity. erewrite bind_run by reflexivity.
  rewrite Hd, Nat2Z.id. done.
Qed.

Lemma find_ready_run og s n i :
  bank_ok s -> origin (cb_prev s) = Some og -> (i + n = length (channel_queue s))%nat ->
  find_ready n (Z.of_nat i) s = (Ok None, s) \/
  exists j id c d, channel_queue s !! j = Some id /\ channels s !! id = Some c /\
    find_ready n (Z.of_nat i) s =
      (Ok (Some d), mkChannelBank (cb_cfg s) (delete id (channels s)) (delete j (channel_queue s)) (cb_prev s)).
Proof.
  intros Hs Ho. revert i. induction n as [|n IH]; intros i Hi; [by left|]. cbn [find_ready].
  destruct (try_read_run og s i Hs Ho) as [Hr|(id & c & d & Hid & Hc & Hr)]; [lia|..].
  - erewrite bind_run by (unfold try_run; by rewrite Hr). cbn beta iota.
    replace (Z.of_nat i + 1) with (Z.of_nat (S i)) by lia. apply IH. lia.
  - right. exists i, id, c, d. split; [done|]. split; [done|].
    erewrite bind_run by (unfold try_run; by rewrite Hr). done.
Qed.

(** A read keeps the bank consistent and never fails but for lack of data. *)
Lemma bank_read_run og s :
  bank_ok s -> origin (cb_prev s) = Some og ->
  exists r s', bank_read s = (r, s') /\ (r = Err (Fail (Temporary Eof)) /\ s' = s \/ exists d, r = Ok d) /\
    bank_ok s' /\ channels_total (channels s') <= channels_total (channels s) /\ same_env s s'.
Proof.
  intros Hs Ho. unfold bank_read. erewrite bind_run by reflexivity.
  assert (forall i id c, channel_queue s !! i = Some id -> channels s !! id = Some c ->
    let s' := mkChannelBank (cb_cfg s) (delete id (channels s)) (delete i (channel_queue s)) (cb_prev s) in
    bank_ok s' /\ channels_total (channels s') <= channels_total (channels s) /\ same_env s s') as Hrem.
  { intros i id c Hi Hc. split; [by apply bank_remove|]. split; [|done]. cbn.
    rewrite (channels_total_delete id c (channels s)) by done.
    pose proof (channel_size_bound c (proj2 (bok_channel s Hs id c Hc))). lia. }
  assert (bank_ok s /\ channels_total (channels s) <= channels_total (channels s) /\ same_env s s) as Hkeep by (split_and!; done).
  destruct (channel_queue s) as [|first rest] eqn:Eq; [exists (Err (Fail (Temporary Eof))), s; by eauto|].
  assert (is_Some (channels s !! first)) as [c Hc] by (apply (bok_dom s Hs); rewrite Eq; set_solver).
  erewrite bind_run by reflexivity. rewrite Hc. erewrite bind_run by reflexivity.
  erewrite bind_run; [|unfold bank_origin_or; erewrite bind_run by reflexivity; rewrite Ho; reflexivity].
  erewrite bind_run by reflexivity. destruct (channel_timed_out _ _ _).
  { exists (Ok None). eexists. split; [done|]. split; [eauto|]. by apply (Hrem 0%nat first c). }
  destruct (is_canyon_active _ _); cbn [negb].
  - destruct (find_ready_run og s (length (first :: rest)) 0 Hs Ho) as [Hr|(j & id & c' & d & Hj & Hc' & Hr)]; [by rewrite Eq|..];
      change (Z.of_nat 0) with 0 in Hr; erewrite bind_run by exact Hr.
    + exists (Err (Fail (Temporary Eof))), s. by eauto.
    + rewrite Eq in Hj |- *. exists (Ok (Some d)). eexists. split; [done|]. split; [eauto|]. by apply (Hrem j id c').
  - destruct (try_read_run og s 0 Hs Ho) as [Hr|(id & c' & d & Hj & Hc' & Hr)]; [rewrite Eq; cbn; lia|..];
      change (Z.of_nat 0) with 0 in Hr.
    + erewrite bind_run_err by exact Hr. exists (Err (Fail (Temporary Eof))), s. by eauto.
    + erewrite bind_run by exact Hr. rewrite Eq in Hj |- *. exists (Ok (Some d)). eexists. split; [done|]. split; [eauto|]. by apply (Hrem 0%nat id c').
Qed.

Definition bank_limit (cfg : RollupConfig) (og : BlockInfo) : Z :=
  if is_fjord_active cfg (timestamp og) then FJORD_MAX_CHANNEL_BANK_SIZE else MAX_CHANNEL_BANK_SIZE.

Lemma bank_update s id c :
  bank_ok s -> id ∈ channel_queue s -> channel_id c = id -> channel_ok c ->
  bank_ok (set_channels (<[id := c]> (channels s)) s).
Proof.
  intros [Hq Hd Hc] Hi Hid Hok. split; cbn; [done|..].
  - intros j. rewrite lookup_insert_is_Some'. rewrite <- Hd. split; [auto|]. by intros [->|?].
  - intros j c' [[<- <-]|[_ Hj]]%lookup_insert_Some; [done|by apply Hc].
Qed.

Lemma bank_open s id og :
  bank_ok s -> channels s !! id = None ->
  bank_ok (mkChannelBank (cb_cfg s) (<[id := new_channel id og]> (channels s)) (channel_queue s ++ [id]) (cb_prev s)).
Proof.
  intros [Hq Hd Hc] Hi. assert (id ∉ channel_queue s) as Hni by (rewrite Hd, Hi; by intros [? ?]). split; cbn.
  - apply NoDup_app. split_and!; [done|set_solver|apply NoDup_singleton].
  - intros j. rewrite lookup_insert_is_Some', elem_of_app, list_elem_of_singleton, Hd. naive_solver.
  - intros j c' [[<- <-]|[_ Hj]]%lookup_insert_Some; [|by apply Hc]. split; [done|apply new_channel_ok].
Qed.

Lemma bank_prune_ok og s :
  bank_ok s -> origin (cb_prev s) = Some og -> channels_total (channels s) <= U64_MAX ->
  exists s', bank_prune s = (Ok tt, s') /\ bank_ok s' /\ same_env s s' /\
    channels_total (channels s') <= bank_limit (cb_cfg s) og.
Proof.
  intros Hs Ho Hfit. unfold bank_prune. erewrite bind_run by reflexivity.
  erewrite bind_run; [|unfold bank_origin_or; erewrite bind_run by reflexivity; rewrite Ho; reflexivity].
  erewrite bind_run by reflexivity. erewrite bind_run by reflexivity.
  assert (bank_size s = channels_total (channels s)) as ->.
  { apply sizes_exact; [|done]. intros k c Hk. by apply channel_size_bound, (bok_channel s Hs k). }
  destruct (bank_prune_run (bank_limit (cb_cfg s) og) (channel_queue s) s) as (q & m & Hr & Hm & _ & Hok & _); [done..| |done|].
  { unfold bank_limit, FJORD_MAX_CHANNEL_BANK_SIZE, MAX_CHANNEL_BANK_SIZE. destruct (is_fjord_active _ _); lia. }
  eexists. split; [exact Hr|]. by split_and!.
Qed.

(** The channel of a frame once it exists in the bank. *)
Lemma ingest_into og f s c :
  bank_ok s -> frame_ok f -> origin (cb_prev s) = Some og -> channels s !! frame_id f = Some c ->
  channels_total (channels s) <= FJORD_MAX_CHANNEL_BANK_SIZE ->
  let '(r, c') := add_frame f og c in
  exists s', (cs ← gets channels; modify (set_channels (<[frame_id f := c']> cs)) ;;
              match r with Err _ => mret tt | Ok _ => bank_prune end) s = (Ok tt, s') /\
    bank_ok s' /\ same_env s s' /\
    (channels_total (channels s') <= bank_limit (cb_cfg s) og \/ channels_total (channels s') = channels_total (channels s)).
Proof.
  intros Hs Hf Ho Hc Ht. destruct (bok_channel s Hs _ c Hc) as [Hid Hok].
  assert (frame_id f ∈ channel_queue s) as Hq by (apply (bok_dom s Hs); eauto).
  destruct (add_frame_cases f og c) as [(e & -> & _)|(Hfid & Hcl & Hin & c' & -> & Hst)];
    erewrite bind_run by reflexivity; erewrite bind_run by reflexivity.
  - eexists. split; [done|]. split; [by apply bank_update|]. split; [done|]. right. cbn.
    rewrite (channels_total_update _ c) by done. lia.
  - assert (channel_ok c') as Hok' by (by eapply stored_ok).
    assert (channel_id c' = frame_id f) as Hid'.
    { destruct Hst as [-> _]. destruct (is_last f); [by destruct (close_fields c (number f)) as [-> _]|done]. }
    destruct (bank_prune_ok og (set_channels (<[frame_id f := c']> (channels s)) s)) as (s' & Hr & Hs' & He & Hm);
      [by apply bank_update|done| |].
    + cbn. rewrite (channels_total_update _ c) by done. pose proof (channel_size_bound c Hok).
      unfold channel_size at 2. rewrite (ok_size c' Hok').
      pose proof (total_fits (inputs c') (fun k f => ok_fits c' k f Hok')).
      unfold MAX_LEN, OVERHEAD, FJORD_MAX_CHANNEL_BANK_SIZE, U64_MAX in *. lia.
    + exists s'. split; [exact Hr|]. split; [done|]. split; [done|]. by left.
Qed.

Lemma ingest_run og f s :
  bank_ok s -> frame_ok f -> origin (cb_prev s) = Some og -> channels_total (channels s) <= FJORD_MAX_CHANNEL_BANK_SIZE ->
  exists s', ingest_frame f s = (Ok tt, s') /\ bank_ok s' /\ same_env s s' /\
    (channels_total (channels s') <= bank_limit (cb_cfg s) og \/ channels_total (channels s') = channels_total (channels s)).
Proof.
  intros Hs Hf Ho Ht. unfold ingest_frame.
  erewrite bind_run; [|unfold bank_origin_or; erewrite bind_run by reflexivity; rewrite Ho; reflexivity].
  erewrite bind_run by reflexivity. unfold Datatypes.id. destruct (channels s !! frame_id f) as [c|] eqn:Ec; cbn [default].
  - erewrite bind_run by reflexivity. destruct (channel_timed_out _ _ _).
    { exists s. split_and!; try done. by right. }
    pose proof (ingest_into og f s c Hs Hf Ho Ec Ht) as Hi. by destruct (add_frame f og c).
  - erewrite bind_run by (erewrite bind_run by reflexivity; reflexivity).
    set (s1 := set_channels _ _). pose proof (bank_open s (frame_id f) og Hs Ec) as Hs1.
    change (mkChannelBank _ _ _ _) with s1 in Hs1.
    assert (channels_total (channels s1) = channels_total (channels s)) as Ht1 by (cbn; by rewrite channels_total_insert).
    destruct (channel_timed_out _ _ _). { exists s1. split_and!; try done. by right. }
    pose proof (ingest_into og f s1 (new_channel (frame_id f) og) Hs1 Hf Ho) as Hi.
    rewrite Ht1 in Hi. specialize (Hi ltac:(apply lookup_insert_eq) Ht).
    by destruct (add_frame f og (new_channel (frame_id f) og)).
Qed.

(** The channel bank is safe over any source of well-formed frames. A call of
    [next_data] keeps the bank consistent (the queue lists exactly the buffered
    channels, each consistent and under its own id), keeps the buffered size within
    the limit of the fork, and returns data, asks to be called again, or passes
    on an error of its source: the critical errors of the bank are unreachable. *)
Theorem bank_invariant `{!NextFrameLaws P} s og :
  bank_ok s -> frames_inv (cb_prev s) -> origin (cb_prev s) = Some og ->
  channels_total (channels s) <= bank_limit (cb_cfg s) og ->
  let '(r, s') := bank_next_data s in
  bank_ok s' /\ frames_inv (cb_prev s') /\ origin (cb_prev s') = Some og /\
  channels_total (channels s') <= bank_limit (cb_cfg s') og /\
  ((exists d, r = Ok d) \/ r = Err (Fail (Temporary NotEnoughData)) \/
   exists e p', next_frame (cb_prev s) = (Err e, p') /\ r = Err e).
Proof.
  intros Hs Hp Ho Ht. unfold bank_next_data.
  assert (bank_limit (cb_cfg s) og <= FJORD_MAX_CHANNEL_BANK_SIZE) as Hlim.
  { unfold bank_limit, FJORD_MAX_CHANNEL_BANK_SIZE, MAX_CHANNEL_BANK_SIZE. destruct (is_fjord_active _ _); lia. }
  destruct (bank_read_run og s Hs Ho) as (r & s1 & Hr & Hcase & Hs1 & Ht1 & [Ec Ep]).
  erewrite bind_run by (unfold try_run; by rewrite Hr).
  destruct Hcase as [[-> ->]|[d ->]]; [|unfold mret, stm_ret; rewrite Ec, Ep; split_and!; eauto; lia].
  unfold mbind at 1, stm_bind at 1, zoom. destruct (next_frame (cb_prev s)) as [r1 p1] eqn:En.
  destruct (next_frame_law (cb_prev s) r1 p1 Hp En) as (Hp1 & Ho1 & Hf1). rewrite Ho in Ho1.
  set (s2 := set_cb_prev p1 s). assert (bank_ok s2) as Hs2 by (split; apply Hs).
  destruct r1 as [f|e]; [|split_and!; eauto 8].
  destruct (ingest_run og f s2) as (s3 & Hi & Hs3 & [Ec3 Ep3] & Ht3); [done|by apply Hf1|done|cbn; lia|].
  erewrite bind_run by exact Hi. unfold temp, throw. rewrite Ec3, Ep3. cbn [cb_prev cb_cfg set_cb_prev channels s2] in *.
  split_and!; auto. destruct Ht3 as [?| ->]; done.
Qed.
End bank_lemmas.

(** * The multiplexer holds one stage *)

(** Exactly one of the three places owns the previous stage. *)
Definition one_stage {P} (s : ChannelProvider P) : Prop :=
  match cp_prev s, channel_bank s, channel_assembler s with
  | Some _, None, None | None, Some _, None | None, None, Some _ => True
  | _, _, _ => False
  end.

(** The previous stage, wherever it is. *)
Definition inner {P} (s : ChannelProvider P) : option P :=
  match cp_prev s, channel_bank s, channel_assembler s with
  | Some p, _, _ => Some p
  | None, Some b, _ => Some (cb_prev b)
  | None, None, Some a => Some (ca_prev a)
  | None, None, None => None
  end.

Section mux.
Context {P : Type} `{NextFrameProvider P, OriginProvider P, OriginAdvancer P, StageReset P}.
Implicit Types s : ChannelProvider P.

Lemma delegate_run {A} (ma : act (ChannelAssembler P) A) (mb : act (ChannelBank P) A) s p :
  one_stage s -> inner s = Some p ->
  match origin p with
  | None => delegate ma mb s = (Err (Fail (Critical MissingOrigin)), s)
  | Some og =>
      if is_holocene_active (cp_cfg s) (timestamp og)
      then let a := default (new_assembler (cp_cfg s) p) (channel_assembler s) in
           delegate ma mb s = ((ma a).1, mkChannelProvider (cp_cfg s) None None (Some (ma a).2)) /\ ca_prev a = p
      else let b := default (new_bank (cp_cfg s) p) (channel_bank s) in
           delegate ma mb s = ((mb b).1, mkChannelProvider (cp_cfg s) None (Some (mb b).2) None) /\ cb_prev b = p
  end.
Proof.
  destruct s as [cfg prev b a]. unfold one_stage, inner, delegate, mbind, stm_bind, channel_attempt_update, provider_origin.
  cbn [cp_prev channel_bank channel_assembler cp_cfg].
  destruct prev as [p0|], b as [b|], a as [a|]; try done; intros _ [= <-];
    cbn [mbind option_bind origin bank_origin assembler_origin];
    (destruct (origin _) as [og|]; [|done]); destruct (is_holocene_active _ _); unfold run_active; cbn;
    (split; [|done]); first [by destruct (ma _)|by destruct (mb _)].
Qed.

(** The states of the multiplexer: created on a previous stage, then any
    operations of its stages run through it. *)
Inductive mux_reach (cfg : RollupConfig) (prev : P) : ChannelProvider P -> Prop :=
| mux_new : mux_reach cfg prev (new_provider cfg prev)
| mux_op A (ma : act (ChannelAssembler P) A) (mb : act (ChannelBank P) A) s :
    mux_reach cfg prev s -> mux_reach cfg prev (delegate ma mb s).2.

Lemma mux_reach_one cfg prev s :
  mux_reach cfg prev s -> one_stage s /\ cp_cfg s = cfg /\ is_Some (inner s).
Proof.
  induction 1 as [|A ma mb s _ (Hs & Hc & [p Hp])]; [done|].
  pose proof (delegate_run ma mb s p Hs Hp) as Hd. destruct (origin p) as [og|].
  - destruct (is_holocene_active _ _); destruct Hd as [-> _]; (split_and!; [done|done|by eexists]).
  - rewrite Hd. split_and!; [done|done|by eexists].
Qed.

(** The multiplexer always owns the previous stage exactly once and runs the
    stage of the fork. In every state it can get into, exactly one place owns the
    previous stage; every operation first makes the assembler the owner if
    Holocene is active at the current origin and the bank otherwise, keeping the
    stage that already is the right one with its buffers and replacing the other by
    an empty one on the same previous stage; then it is exactly the operation of
    that stage. Without an origin it fails and changes nothing. *)
Theorem mux_one_stage {A} (ma : act (ChannelAssembler P) A) (mb : act (ChannelBank P) A) cfg prev s :
  mux_reach cfg prev s ->
  one_stage s /\ exists p, inner s = Some p /\
  match origin p with
  | None => delegate ma mb s = (Err (Fail (Critical MissingOrigin)), s)
  | Some og =>
      if is_holocene_active cfg (timestamp og)
      then let a := default (new_assembler cfg p) (channel_assembler s) in
           delegate ma mb s = ((ma a).1, mkChannelProvider cfg None None (Some (ma a).2)) /\ ca_prev a = p
      else let b := default (new_bank cfg p) (channel_bank s) in
           delegate ma mb s = ((mb b).1, mkChannelProvider cfg None (Some (mb b).2) None) /\ cb_prev b = p
  end.
Proof.
  intros (Hs & <- & [p Hp])%mux_reach_one. split; [done|]. exists p. split; [done|]. by apply delegate_run.
Qed.
End mux.

Module ChannelStagesExample.
Definition id : list Z := replicate 16 7.
Definition f0 : Frame := mkFrame id 0 [1; 2] true.

(** A source with a list of frames. *)
#[local] Instance frames_next : NextFrameProvider (list Frame) :=
  {| next_frame := fun p => match p with [] => temp Eof p | f :: p => (Ok f, p) end |}.
#[local] Instance frames_origin : OriginProvider (list Frame) := {| origin _ := Some default_block |}.
#[local] Instance frames_advance : OriginAdvancer (list Frame) := {| advance_origin := mret tt |}.
#[local] Instance frames_reset : StageReset (list Frame) :=
  {| reset _ _ := mret tt; activate := mret tt; flush_channel := mret tt |}.
#[local] Program Instance frames_laws : NextFrameLaws (list Frame) := {| frames_inv := Forall frame_ok |}.
Next Obligation.
  intros [|f p] r p' Hp; cbn; intros [= <- <-]; [done|].
  inversion Hp; subst. split_and!; [done|done|]. by intros ? [= <-].
Qed.

Lemma source_frames_ok : Forall frame_ok [f0].
Proof. constructor; [by_eval|constructor]. Qed.

Lemma bank_invariant_witness :
  bank_ok (bank_next_data (new_bank RollupExample.all_forks [f0])).2.
Proof.
  pose proof (bank_invariant (new_bank RollupExample.all_forks [f0]) default_block (new_bank_ok _ _)
    source_frames_ok eq_refl ltac:(by vm_compute)) as Hb.
  destruct (bank_next_data (new_bank RollupExample.all_forks [f0])) as [r s]. exact (proj1 Hb).
Defined.

(** The assembler reads the one frame of a channel. *)
Lemma mux_one_stage_witness :
  (delegate next_channel_data next_channel_data (new_provider RollupExample.all_forks [f0])).1 = Ok (Some [1; 2]) /\
  one_stage (new_provider RollupExample.all_forks [f0]).
Proof.
  destruct (mux_one_stage next_channel_data next_channel_data RollupExample.all_forks [f0] _ (mux_new _ _))
    as [Ho (p & [= <-] & Hd & _)].
  split; [|exact Ho]. rewrite Hd. by vm_compute.
Defined.
End ChannelStagesExample.
