(* ===== verification/Derivation.v ===== *)
(** The lower half of the derivation pipeline composed: L1 blocks to channels.
    The stages are stacked as the node stacks them, and what the batcher posts is
    followed through them. *)

From S2P Require Import Prelude Buffer Frames Blobs BlobCodec Rollup Channel SystemConfig Pipeline.
From S2P Require Import BlobSource DataSource FrameQueue Traversal ChannelStages.
From Stdlib Require Import Sorted.

(** Calls of [next] until the end of the data, calling again when the stage says
    that it needs more; [I] holds all along. *)
Inductive delivers {S A} (I : S -> Prop) (next : act S A) : S -> list A -> S -> Prop :=
| delivers_eof s s' : I s -> next s = (Err (Fail (Temporary Eof)), s') -> I s' -> delivers I next s [] s'
| delivers_retry s s1 l s' :
    I s -> next s = (Err (Fail (Temporary NotEnoughData)), s1) -> delivers I next s1 l s' -> delivers I next s l s'
| delivers_next s a s1 l s' : I s -> next s = (Ok a, s1) -> delivers I next s1 l s' -> delivers I next s (a :: l) s'.

Lemma delivers_eq {S A} (I : S -> Prop) (next : act S A) s s1 l s' :
  I s -> next s = next s1 -> delivers I next s1 l s' -> delivers I next s l s'.
Proof.
  intros HI He Hd. inversion Hd; subst; rewrite <- He in *;
    [by eapply delivers_eof|by eapply delivers_retry|by eapply delivers_next].
Qed.

Lemma delivers_weaken {S A} (I J : S -> Prop) (next : act S A) s l s' :
  (forall s, I s -> J s) -> delivers I next s l s' -> delivers J next s l s'.
Proof.
  intros HIJ Hd. induction Hd; [eapply delivers_eof|eapply delivers_retry|eapply delivers_next]; eauto.
Qed.

Lemma drains_delivers {S A} (I : S -> Prop) (next : act S A) s l s' :
  (forall s r s1, I s -> next s = (r, s1) -> I s1) -> I s -> drains next s l s' -> delivers I next s l s'.
Proof.
  intros Hpres HI Hd. induction Hd as [s s' Hn|s a s1 l s' Hn _ IH]; [eapply delivers_eof; eauto|eapply delivers_next; eauto].
Qed.

(** * Retrieval *)

Section retrieval.
Context {D C : Type} `{DataAvailabilityProvider D, ChainProvider C, SolWords}.
Implicit Types s : L1Retrieval D (PollingTraversal C).

Lemma retrieval_step b s :
  lr_next s = Some b ->
  retrieval_next_data s =
  match da_next b (batcher_address (system_config (lr_prev s))) (provider s) with
  | (Ok d, p) => (Ok d, set_provider p s)
  | (Err (Fail (Temporary Eof)), p) => (Err (Fail (Temporary Eof)), mkL1Retrieval (lr_prev s) (da_clear p) None)
  | (Err e, p) => (Err e, set_provider p s)
  end.
Proof.
  intros Hn. unfold retrieval_next_data, current_block.
  erewrite bind_run; [|erewrite bind_run by reflexivity; rewrite Hn; reflexivity].
  erewrite bind_run by reflexivity. unfold mbind at 1, stm_bind at 1, try_run, zoom.
  cbn [batcher_addr traversal_l1]. destruct (da_next _ _ _) as [[d|e] p]; [done|].
  by destruct e as [[[] | |]| |].
Qed.

Lemma retrieval_drains b s l d :
  lr_next s = Some b -> drains (da_next b (batcher_address (system_config (lr_prev s)))) (provider s) l d ->
  drains next_data s l (mkL1Retrieval (lr_prev s) (da_clear d) None).
Proof.
  intros Hn Hd. remember (provider s) as p eqn:Hp. revert s Hn Hp Hd.
  cut (forall tr : PollingTraversal C, lr_next (mkL1Retrieval tr p (Some b)) = Some b ->
    drains (da_next b (batcher_address (system_config tr))) p l d ->
    drains next_data (mkL1Retrieval tr p (Some b)) l (mkL1Retrieval tr (da_clear d) None)).
  { intros Hc [tr p' n] Hn -> Hd. cbn in *. subst n. by apply Hc. }
  intros tr _ Hd. induction Hd as [p p' Hd|p a p1 l p' Hd _ IH].
  - apply drains_eof. cbn [next_data retrieval_data]. rewrite (retrieval_step b) by done. cbn [lr_prev provider]. by rewrite Hd.
  - eapply drains_next; [|exact IH]. cbn [next_data retrieval_data]. rewrite (retrieval_step b) by done.
    cbn [lr_prev provider]. by rewrite Hd.
Qed.

(** The first call takes the block of the traversal. *)
Lemma retrieval_opens b s :
  lr_next s = None -> tr_block (lr_prev s) = Some b -> tr_done (lr_prev s) = false ->
  next_data s = next_data (mkL1Retrieval
    (mkPollingTraversal (Some b) (data_source (lr_prev s)) true (system_config (lr_prev s)) (tr_config (lr_prev s)))
    (provider s) (Some b)).
Proof.
  intros Hn Hb Hd. cbn [next_data retrieval_data]. unfold retrieval_next_data, current_block.
  assert (forall A (m1 m2 : act (L1Retrieval D (PollingTraversal C)) A) k (s1 s2 : L1Retrieval D (PollingTraversal C)),
    m1 s1 = m2 s2 -> (mbind k m1 : act _ (list Z)) s1 = (mbind k m2) s2) as Hext
    by (intros A m1 m2 k s1 s2 He; unfold mbind, stm_bind; by rewrite He).
  apply Hext. unfold mbind, stm_bind, gets, zoom. rewrite Hn. cbn [lr_next next_l1_block traversal_l1]. unfold traversal_next_block.
  rewrite Hd, Hb. done.
Qed.

Lemma retrieval_block b s l d :
  lr_next s = None -> tr_block (lr_prev s) = Some b -> tr_done (lr_prev s) = false ->
  drains (da_next b (batcher_address (system_config (lr_prev s)))) (provider s) l d ->
  exists s', drains next_data s l s'.
Proof.
  intros Hn Hb Hd Hdr. eexists. eapply drains_eq; [by apply retrieval_opens|]. by apply (retrieval_drains b).
Qed.

Lemma retrieval_keeps_origin s r s' : next_data s = (r, s') -> origin s' = origin s.
Proof.
  cbn [next_data retrieval_data origin retrieval_origin traversal_origin]. unfold retrieval_next_data. intros Hr.
  unfold mbind at 1, stm_bind at 1 in Hr. destruct (current_block s) as [rb s1] eqn:Hc.
  assert (tr_block (lr_prev s1) = tr_block (lr_prev s)) as Hb.
  { unfold current_block, mbind, stm_bind, gets, zoom in Hc. destruct (lr_next s); [by injection Hc as _ <-|].
    cbn [next_l1_block traversal_l1] in Hc. unfold traversal_next_block in Hc. destruct (negb _).
    - destruct (tr_block (lr_prev s)) eqn:Eb; cbn in Hc; injection Hc as _ <-; cbn; done.
    - by injection Hc as _ <-. }
  destruct rb as [b|e]; [|injection Hr as _ <-; done]. rewrite <- Hb.
  erewrite bind_run in Hr by reflexivity. unfold mbind at 1, stm_bind at 1, try_run, zoom in Hr.
  destruct (da_next _ _ _) as [[d|e] p]; [by injection Hr as _ <-|]. destruct e as [[[] | |]| |]; by injection Hr as _ <-.
Qed.
End retrieval.

(** * The frame queue *)

(** The frames a payload contributes. *)
Definition frames_of (cfg : RollupConfig) (og : BlockInfo) (d : list Z) : list Frame :=
  match parse_frames d with
  | Ok fs => if is_holocene_active cfg (timestamp og) then foldl (accept from_first) [] fs else fs
  | Err _ => []
  end.

Section queue.
Context {P : Type} `{FrameQueueProvider P, OriginProvider P, OriginAdvancer P, StageReset P} (og : BlockInfo).
Implicit Types s : FrameQueue P.

Definition source_at (p : P) : Prop := origin p = Some og.
Definition queue_at s : Prop := source_at (fq_prev s).

Lemma queue_pops p q cfg l s' :
  source_at p -> delivers queue_at next_frame (mkFrameQueue p [] cfg) l s' ->
  delivers queue_at next_frame (mkFrameQueue p q cfg) (q ++ l) s'.
Proof.
  intros Hp Hd. induction q as [|f q IH]; [done|]. cbn [app]. eapply delivers_next; [done| |exact IH].
  cbn [next_frame frame_queue_provider]. unfold queue_next_frame, load_frames.
  erewrite bind_run by (erewrite bind_run by reflexivity; reflexivity). done.
Qed.

(** A loaded queue is popped. *)
Lemma next_frame_loaded s p f q :
  load_frames s = (Ok tt, mkFrameQueue p (f :: q) (fq_config s)) ->
  next_frame s = next_frame (mkFrameQueue p (f :: q) (fq_config s)).
Proof.
  intros Hl. cbn [next_frame frame_queue_provider]. unfold queue_next_frame. rewrite (bind_run _ _ _ _ _ Hl).
  unfold load_frames. erewrite bind_run by (erewrite bind_run by reflexivity; reflexivity). done.
Qed.

Lemma queue_delivers p ds p' cfg :
  delivers source_at next_data p ds p' -> Forall bytes_ok ds ->
  delivers queue_at next_frame (mkFrameQueue p [] cfg) (ds ≫= frames_of cfg og) (mkFrameQueue p' [] cfg).
Proof.
  intros Hd. induction Hd as [p p' Hp Hn Hp'|p p1 ds p' Hp Hn Hd IH|p d p1 ds p' Hp Hn Hd IH]; intros Hb;
    pose proof (load_frames_run (mkFrameQueue p [] cfg) eq_refl) as Hl; cbn [fq_prev fq_config] in Hl; rewrite Hn in Hl.
  - eapply delivers_eof; [done| |done]. cbn [next_frame frame_queue_provider]. unfold queue_next_frame.
    by rewrite (bind_run_err _ _ _ _ _ Hl).
  - eapply delivers_retry; [done| |by apply IH]. cbn [next_frame frame_queue_provider]. unfold queue_next_frame.
    by rewrite (bind_run_err _ _ _ _ _ Hl).
  - apply Forall_cons in Hb as [Hb Hbs]. cbn [mbind list_bind]. unfold frames_of at 1.
    assert (source_at p1) as Hp1 by (by destruct Hd).
    destruct (parse_frames_iff d Hb) as [[HnP HnF] Hiff].
    destruct (parse_frames d) as [fs|[e| |]] eqn:Epf; [| |done|done].
    + assert (fs <> []) as Hne by (by apply Hiff). rewrite Hp1 in Hl.
      assert (exists f q, load_frames (mkFrameQueue p [] cfg) = (Ok tt, mkFrameQueue p1 (f :: q) cfg) /\
        f :: q = if is_holocene_active cfg (timestamp og) then foldl (accept from_first) [] fs else fs) as (f & q & Hld & <-).
      { destruct (is_holocene_active cfg (timestamp og)) eqn:Hh.
        - rewrite prune_run in Hl by done. pose proof (foldl_accept_nonempty fs Hne) as Hnn. cbn [queue] in Hl.
          destruct (foldl (accept from_first) [] fs) as [|f q] eqn:Ef; [done|]. exists f, q. split; [|done].
          by rewrite Hl.
        - destruct fs as [|f q]; [done|]. exists f, q. split; [|done]. rewrite Hl. unfold prune. cbn [fq_config]. by rewrite Hh. }
      eapply delivers_eq; [done|by apply next_frame_loaded|]. cbn [fq_config]. apply queue_pops; [done|by apply IH].
    + cbn [app]. eapply delivers_retry; [done| |by apply IH]. cbn [next_frame frame_queue_provider]. unfold queue_next_frame.
      by rewrite (bind_run _ _ _ _ _ Hl).
Qed.
End queue.

(** * The channel assembler *)

(** The open channel, unless it timed out. *)
Definition unexpired (cfg : RollupConfig) (og : BlockInfo) (ch : option Channel) : option Channel :=
  match ch with
  | Some c => if channel_timed_out cfg og c then None else Some c
  | None => None
  end.

(** One frame: the data of a completed channel and the channel left open. *)
Definition asm_step (cfg : RollupConfig) (og : BlockInfo) (ch : option Channel) (f : Frame)
    : option (list Z) * option Channel :=
  match (if number f =? 0 then Some (new_channel (frame_id f) og) else unexpired cfg og ch) with
  | None => (None, None)
  | Some c =>
      if negb (number f =? channel_len c) then (None, Some c)
      else
        match add_frame f og c with
        | (Err _, c) => (None, Some c)
        | (Ok _, c) =>
            if channel_size c >? max_rlp_bytes_per_channel cfg (timestamp og) then (None, None)
            else if is_ready c then (channel_data c, None) else (None, Some c)
        end
  end.

(** All frames of a list: the completed channels and the channel left open. *)
Fixpoint asm_all (cfg : RollupConfig) (og : BlockInfo) (ch : option Channel) (fs : list Frame)
    : list (list Z) * option Channel :=
  match fs with
  | [] => ([], ch)
  | f :: fs =>
      let '(out, ch) := asm_step cfg og ch f in
      let '(outs, ch) := asm_all cfg og ch fs in
      (option_list out ++ outs, ch)
  end.

Definition open_ok (ch : option Channel) : Prop := match ch with Some c => channel_ok c | None => True end.

Lemma unexpired_ok cfg og ch : open_ok ch -> open_ok (unexpired cfg og ch).
Proof. destruct ch as [c|]; [|done]. cbn. by destruct (channel_timed_out _ _ _). Qed.

Lemma add_frame_ok f b c : frame_ok f -> channel_ok c -> channel_ok (add_frame f b c).2.
Proof.
  intros Hf Hc. destruct (add_frame_cases f b c) as [(e & -> & _)|(Hid & Hcl & Hin & c' & -> & Hs)]; [done|].
  by eapply stored_ok.
Qed.

Lemma asm_step_ok cfg og ch f : frame_ok f -> open_ok ch -> open_ok (asm_step cfg og ch f).2.
Proof.
  intros Hf Hch. unfold asm_step.
  assert (open_ok (if number f =? 0 then Some (new_channel (frame_id f) og) else unexpired cfg og ch)) as Hc.
  { destruct (_ =? 0); [apply new_channel_ok|by apply unexpired_ok]. }
  destruct (if number f =? 0 then _ else _) as [c|]; [|done]. destruct (negb _); [done|].
  pose proof (add_frame_ok f og c Hf Hc) as Ha. destruct (add_frame f og c) as [[[]|e] c']; [|done].
  destruct (_ >? _); [done|]. by destruct (is_ready c').
Qed.

Lemma asm_all_unexpired cfg og ch fs : (asm_all cfg og (unexpired cfg og ch) fs).1 = (asm_all cfg og ch fs).1.
Proof.
  destruct fs as [|f fs]; [done|]. cbn [asm_all]. unfold asm_step.
  assert (unexpired cfg og (unexpired cfg og ch) = unexpired cfg og ch) as ->; [|done].
  destruct ch as [c|]; [|done]. cbn. destruct (channel_timed_out cfg og c) eqn:E; [done|]. cbn. by rewrite E.
Qed.

Section assembler.
Context {P : Type} `{NextFrameProvider P, OriginProvider P, OriginAdvancer P, StageReset P} (og : BlockInfo).
Implicit Types s : ChannelAssembler P.

Definition frames_at (p : P) : Prop := origin p = Some og.

(** What [next_data] does, by what the source of frames returns. *)
Lemma assembler_run s :
  frames_at (ca_prev s) -> open_ok (channel s) -> (forall f p, next_frame (ca_prev s) = (Ok f, p) -> frame_ok f) ->
  assembler_next_data s =
  match next_frame (ca_prev s) with
  | (Err e, p) => (Err e, mkChannelAssembler (ca_cfg s) p (unexpired (ca_cfg s) og (channel s)))
  | (Ok f, p) =>
      let '(out, ch) := asm_step (ca_cfg s) og (channel s) f in
      (match out with Some d => Ok (Some d) | None => Err (Fail (Temporary NotEnoughData)) end,
       mkChannelAssembler (ca_cfg s) p ch)
  end.
Proof.
  intros Ho Hch Hf. destruct s as [cfg p0 ch]; cbn [ca_prev channel ca_cfg] in *. unfold assembler_next_data.
  erewrite bind_run by reflexivity. cbn [ca_prev]. rewrite Ho. erewrite bind_run by reflexivity.
  erewrite bind_run by reflexivity. cbn [channel].
  assert (match ch with
    | Some _ => t ← is_timed_out; if (t : bool) then modify (set_channel None) else mret tt
    | None => mret tt end (mkChannelAssembler cfg p0 ch) = (Ok tt, mkChannelAssembler cfg p0 (unexpired cfg og ch))) as Ht.
  { destruct ch as [c|]; [|done]. unfold is_timed_out. erewrite bind_run.
    2: { erewrite bind_run by reflexivity. cbn [ca_prev]. rewrite Ho. erewrite bind_run by reflexivity. reflexivity. }
    cbn [channel ca_cfg unexpired]. by destruct (channel_timed_out cfg og c). }
  erewrite bind_run by exact Ht. unfold mbind at 1, stm_bind at 1, zoom. cbn [ca_prev].
  destruct (next_frame p0) as [[f|e] p] eqn:Hn; [|done]. specialize (Hf f p eq_refl). unfold asm_step.
  assert (open_ok (unexpired cfg og ch)) as Hu by (by apply unexpired_ok).
  assert (((if number f =? 0 then modify (set_channel (Some (new_channel (frame_id f) og))) else mret tt)
            : act (ChannelAssembler P) unit) (set_ca_prev p (mkChannelAssembler cfg p0 (unexpired cfg og ch))) =
    (Ok tt, mkChannelAssembler cfg p (if number f =? 0 then Some (new_channel (frame_id f) og) else unexpired cfg og ch))) as Hnew
    by (by destruct (number f =? 0)).
  erewrite bind_run by exact Hnew. erewrite bind_run by reflexivity. cbn [channel].
  assert (open_ok (if number f =? 0 then Some (new_channel (frame_id f) og) else unexpired cfg og ch)) as Hc
    by (destruct (number f =? 0); [apply new_channel_ok|done]).
  revert Hc. clear Hnew. generalize (if number f =? 0 then Some (new_channel (frame_id f) og) else unexpired cfg og ch).
  intros [c|] Hc; [|done]. unfold assemble. destruct (negb _); [done|].
  pose proof (add_frame_ok f og c Hf Hc) as Ha. destruct (add_frame f og c) as [[[]|e] c']; cbn [snd] in Ha;
    erewrite bind_run by reflexivity; [|done].
  erewrite bind_run by reflexivity. cbn [ca_cfg set_channel]. unfold max_rlp_bytes_per_channel. destruct (_ >? _); [done|].
  destruct (is_ready c') eqn:Hr; [|done]. destruct (ready_data c' Ha Hr) as [d ->]. done.
Qed.

Lemma assembler_delivers p fs p' cfg ch :
  delivers frames_at next_frame p fs p' -> Forall frame_ok fs -> open_ok ch ->
  exists ch', delivers (fun s => frames_at (ca_prev s) /\ ca_cfg s = cfg) next_channel_data (mkChannelAssembler cfg p ch)
    (Some <$> (asm_all cfg og ch fs).1) (mkChannelAssembler cfg p' ch').
Proof.
  intros Hd. revert ch. induction Hd as [p p' Hp Hn Hp'|p p1 fs p' Hp Hn Hd IH|p f p1 fs p' Hp Hn Hd IH]; intros ch Hf Hch.
  - exists (unexpired cfg og ch). eapply delivers_eof; [done| |done]. cbn [next_channel_data assembler_data].
    rewrite assembler_run; cbn [ca_prev channel]; [by rewrite Hn|done..|]. intros f p1. by rewrite Hn.
  - destruct (IH (unexpired cfg og ch) Hf (unexpired_ok cfg og ch Hch)) as [ch' Hdl]. exists ch'.
    rewrite asm_all_unexpired in Hdl. eapply delivers_retry; [done| |exact Hdl]. cbn [next_channel_data assembler_data].
    rewrite assembler_run; cbn [ca_prev channel]; [by rewrite Hn|done..|]. intros f p2. by rewrite Hn.
  - apply Forall_cons in Hf as [Hf Hfs].
    assert (assembler_next_data (mkChannelAssembler cfg p ch) = let '(out, ch1) := asm_step cfg og ch f in
      (match out with Some d => Ok (Some d) | None => Err (Fail (Temporary NotEnoughData)) end,
       mkChannelAssembler cfg p1 ch1)) as Hstep.
    { rewrite assembler_run; cbn [ca_prev channel ca_cfg]; [by rewrite Hn|done..|]. intros f' p2. rewrite Hn. by intros [= <- _]. }
    pose proof (asm_step_ok cfg og ch f Hf Hch) as Hok. cbn [asm_all]. destruct (asm_step cfg og ch f) as [out ch1].
    destruct (IH ch1 Hfs Hok) as [ch' Hdl]. exists ch'. destruct (asm_all cfg og ch1 fs) as [outs ch2]. cbn [fst] in *.
    destruct out as [d|]; cbn [option_list app fmap list_fmap];
      [eapply delivers_next|eapply delivers_retry]; (done || exact Hstep || exact Hdl).
Qed.
End assembler.

(** ** Complete channels *)

(** The buffered size of a list of frames. *)
Fixpoint frames_size (fs : list Frame) : Z :=
  match fs with
  | [] => 0
  | f :: fs => frame_size f + frames_size fs
  end.

(** The frames of one channel within the limits of the assembler. *)
Definition fits_assembler (cfg : RollupConfig) (og : BlockInfo) (fs : list Frame) : Prop :=
  fs <> [] /\ Z.of_nat (length fs) <= U16_MAX /\ frames_size fs <= max_rlp_bytes_per_channel cfg (timestamp og) /\
  exists id, split_channel id fs.

(** A channel opened in the current block is not timed out. *)
Definition no_overflow (cfg : RollupConfig) (og : BlockInfo) : Prop :=
  block_number og <= add64 (block_number og) (channel_timeout cfg (timestamp og)).

Lemma frames_size_perm fs gs : fs ≡ₚ gs -> frames_size fs = frames_size gs.
Proof. induction 1; cbn; lia. Qed.
Lemma frames_size_app fs gs : frames_size (fs ++ gs) = frames_size fs + frames_size gs.
Proof. induction fs as [|f fs IH]; cbn; lia. Qed.
Lemma frames_size_nonneg fs : Forall frame_ok fs -> 0 <= frames_size fs.
Proof. induction 1 as [|f fs Hf _ IH]; cbn; [lia|]. pose proof (frame_size_bound f Hf). lia. Qed.

Lemma total_list got :
  NoDup ((fun f => (number f, f)) <$> got).*1 ->
  total (list_to_map ((fun f => (number f, f)) <$> got)) = frames_size got.
Proof.
  induction got as [|f got IH]; cbn; [intros _; apply total_empty|]. intros [Hn Hnd]%NoDup_cons.
  rewrite total_insert, IH by (done || by apply not_elem_of_list_to_map_1). done.
Qed.

Section channel.
Context (cfg : RollupConfig) (og : BlockInfo) (id : list Z) (fs : list Frame).
Context (Hsplit : split_channel id fs) (Hne : fs <> []) (Hlen : Z.of_nat (length fs) <= U16_MAX).
Context (Hsize : frames_size fs <= max_rlp_bytes_per_channel cfg (timestamp og)) (Htime : no_overflow cfg og).

(** The channel that holds the first frames, and nothing else. *)
Definition holds (pre : list Frame) (c : Channel) : Prop :=
  channel_ok c /\ exists got, got ≡ₚ pre /\ collected id og (length fs) got c.

Lemma split_nodup : NoDup fs.
Proof.
  apply NoDup_alt. intros i j f Hi Hj. destruct (Hsplit i f Hi) as (_ & Hni & _), (Hsplit j f Hj) as (_ & Hnj & _). lia.
Qed.

Lemma split_all_ok : Forall frame_ok fs.
Proof. apply Forall_lookup. intros i f Hf. by apply (Hsplit i f Hf). Qed.

Lemma holds_nil : holds [] (new_channel id og).
Proof.
  clear -Hne. split; [apply new_channel_ok|]. exists []. split; [done|].
  split_and!; try done; cbn; [split; [done|]; by intros (f & ?%elem_of_nil & _)|]. destruct fs; [done|cbn; lia].
Qed.

Lemma holds_len pre post c : fs = pre ++ post -> holds pre c -> channel_len c = Z.of_nat (length pre).
Proof.
  intros Hfs (_ & got & Hg & _ & _ & Ein & _). unfold channel_len. pose proof split_nodup as Hnd. rewrite Hfs in Hnd.
  apply NoDup_app in Hnd as [Hnd _].
  rewrite Ein, map_size_list_to_map, length_fmap, Hg; [done|]. apply (got_keys id fs Hsplit); [|by rewrite Hg].
  intros g. rewrite Hg, Hfs. set_solver.
Qed.

Lemma holds_alive pre c : holds pre c -> unexpired cfg og (Some c) = Some c.
Proof.
  intros (_ & got & _ & _ & Hob & _). unfold unexpired, channel_timed_out, open_block_number. rewrite Hob.
  by rewrite (proj2 (Z.ltb_ge _ _)) by apply Htime.
Qed.

Lemma holds_step pre f post c :
  fs = pre ++ f :: post -> holds pre c ->
  exists c', add_frame f og c = (Ok tt, c') /\ holds (pre ++ [f]) c' /\
    channel_size c' <= max_rlp_bytes_per_channel cfg (timestamp og) /\
    is_ready c' = match post with [] => true | _ => false end /\
    (post = [] -> channel_data c' = Some (concat (frame_data <$> fs))).
Proof.
  intros Hfs (Hok & got & Hg & Hc). pose proof split_nodup as Hnd.
  assert (f :: got ≡ₚ pre ++ [f]) as Hp by (rewrite Hg, <- Permutation_cons_append; done).
  assert (forall g, g ∈ f :: got -> g ∈ fs) as Hsub by (intros g; rewrite Hp, Hfs; set_solver).
  assert (NoDup (f :: got)) as Hndg.
  { rewrite Hp. rewrite Hfs in Hnd. replace (pre ++ f :: post) with ((pre ++ [f]) ++ post) in Hnd by (by rewrite <- (assoc_L (++))).
    by apply NoDup_app in Hnd as [? _]. }
  destruct (collect_one id fs Hsplit og og got c f Hsub Hndg Hc) as (c' & Ha & Hc').
  assert (frame_ok f) as Hf by (pose proof split_all_ok as Hall; rewrite Forall_forall in Hall; apply Hall, Hsub; set_solver).
  pose proof (add_frame_ok f og c Hf Hok) as Hok'. rewrite Ha in Hok'. cbn in Hok'.
  exists c'. split; [done|]. split; [split; [done|by exists (f :: got)]|]. pose proof Hc' as (_ & _ & Ein & Ecl & _).
  split; [|split].
  - unfold channel_size. rewrite (ok_size c' Hok'), Ein, total_list by (by apply (got_keys id fs Hsplit)).
    rewrite (frames_size_perm _ _ Hp). etrans; [|exact Hsize]. rewrite Hfs, !frames_size_app. cbn.
    pose proof split_all_ok as Hall. rewrite Hfs in Hall. apply Forall_app in Hall as [_ [_ Hpost]%Forall_cons].
    pose proof (frames_size_nonneg post Hpost). lia.
  - destruct post as [|g post].
    + rewrite <- Hfs in Hp. destruct (collected_full id og fs (f :: got) c' Hsplit Hnd Hne) as [_ ->]; [|done..|].
      * unfold U16_MAX in Hlen. lia.
      * rewrite (proj2 (Z.eqb_neq _ _)); [done|]. unfold U16_MAX in Hlen. lia.
    + assert (closed c' = false) as Hcl; [|unfold is_ready; by rewrite Hcl].
      apply not_true_iff_false. intros (h & Hh & Hl)%Ecl.
      destruct (split_number id fs Hsplit h (Hsub h Hh)) as (_ & Hn & _ & Hlast & _). apply Hlast in Hl.
      rewrite Hp in Hh. apply list_elem_of_lookup in Hh as [i Hi].
      assert (fs !! i = Some h) as Hi'.
      { rewrite Hfs. replace (pre ++ f :: g :: post) with ((pre ++ [f]) ++ g :: post) by (by rewrite <- (assoc_L (++))).
        by apply lookup_app_l_Some. }
      destruct (Hsplit i h Hi') as (_ & Hni & _). apply lookup_lt_Some in Hi. rewrite length_app in Hi.
      rewrite Hfs, !length_app in Hl. cbn in *. lia.
  - intros ->. rewrite <- Hfs in Hp. by destruct (collected_full id og fs (f :: got) c' Hsplit Hnd Hne) as [-> _];
      [unfold U16_MAX in Hlen; lia|..].
Qed.

(** One frame of the channel, the channel found being [c]. *)
Lemma asm_step_holds pre f post c ch :
  fs = pre ++ f :: post -> holds pre c ->
  (if number f =? 0 then Some (new_channel (frame_id f) og) else unexpired cfg og ch) = Some c ->
  exists c', holds (pre ++ [f]) c' /\
    asm_step cfg og ch f = match post with [] => (Some (concat (frame_data <$> fs)), None) | _ => (None, Some c') end.
Proof.
  intros Hfs Hc Hres. destruct (holds_step pre f post c Hfs Hc) as (c' & Ha & Hc' & Hsz & Hr & Hd). exists c'. split; [done|].
  assert (number f = Z.of_nat (length pre)) as Hn.
  { destruct (Hsplit (length pre) f) as (_ & Hn & _); [|done]. rewrite Hfs. by rewrite lookup_app_r, Nat.sub_diag by lia. }
  unfold asm_step. rewrite Hres, (holds_len pre (f :: post) c Hfs Hc), Hn, Z.eqb_refl. cbn [negb]. rewrite Ha.
  rewrite Z.gtb_ltb, (proj2 (Z.ltb_ge _ _)) by done. rewrite Hr. destruct post; [by rewrite Hd|done].
Qed.

Lemma asm_rest pre post c rest :
  fs = pre ++ post -> pre <> [] -> post <> [] -> holds pre c ->
  asm_all cfg og (Some c) (post ++ rest) =
  let '(outs, ch) := asm_all cfg og None rest in (concat (frame_data <$> fs) :: outs, ch).
Proof.
  revert pre c. induction post as [|f post IH]; intros pre c Hfs Hpre Hpost Hc; [done|].
  assert (number f = Z.of_nat (length pre)) as Hn.
  { destruct (Hsplit (length pre) f) as (_ & Hn & _); [|done]. rewrite Hfs. by rewrite lookup_app_r, Nat.sub_diag by lia. }
  assert (0 < length pre)%nat as Hpos by (destruct pre; [done|cbn; lia]).
  destruct (asm_step_holds pre f post c (Some c) Hfs Hc) as (c' & Hc' & Hs).
  { rewrite (proj2 (Z.eqb_neq _ _)) by lia. by apply (holds_alive pre). }
  cbn [app asm_all]. rewrite Hs. destruct post as [|g post]; [done|].
  rewrite (IH (pre ++ [f])); [by destruct (asm_all cfg og None rest)|by rewrite <- (assoc_L (++))|by destruct pre|done..].
Qed.

Lemma asm_channel ch rest :
  asm_all cfg og ch (fs ++ rest) =
  let '(outs, ch) := asm_all cfg og None rest in (concat (frame_data <$> fs) :: outs, ch).
Proof.
  assert (exists f post, fs = f :: post) as (f & post & Efs) by (clear -Hne; destruct fs; [done|eauto]).
  assert (fs = [] ++ f :: post) as Hfs by done. destruct (Hsplit 0%nat f) as (Hid & Hn & _); [by rewrite Efs|].
  destruct (asm_step_holds [] f post (new_channel id og) ch Hfs holds_nil) as (c' & Hc' & Hs).
  { by rewrite Hn, Hid. }
  rewrite Efs at 1. cbn [app asm_all]. rewrite Hs. destruct post as [|g post]; [done|].
  rewrite (asm_rest [f] (g :: post)) by done. by destruct (asm_all cfg og None rest).
Qed.
End channel.

(** Complete channels one after the other come out one after the other. *)
Lemma asm_channels cfg og css ch :
  no_overflow cfg og -> Forall (fits_assembler cfg og) css ->
  (asm_all cfg og ch (concat css)).1 = (fun fs => concat (frame_data <$> fs)) <$> css.
Proof.
  intros Ht Hc. revert ch. induction Hc as [|fs css (Hne & Hlen & Hsize & id & Hsplit) _ IH]; intros ch; [done|]. cbn [concat].
  rewrite (asm_channel cfg og id fs) by done. specialize (IH None).
  destruct (asm_all cfg og None (concat css)) as [outs ch']. cbn [fst] in *. rewrite IH. done.
Qed.

(** * From the batcher to the channels *)

Lemma ordered_app l k :
  ordered l -> ordered k -> (forall a b, last l = Some a -> head k = Some b -> follows a b) -> ordered (l ++ k).
Proof.
  rewrite !ordered_lookup. intros Hl Hk Hj i a b Ha Hb. destruct (decide (S i < length l)%nat) as [Hi|Hi].
  - rewrite lookup_app_l in Ha, Hb by lia. by eapply Hl.
  - rewrite lookup_app_r in Hb by lia. destruct (decide (i < length l)%nat) as [Hi'|Hi'].
    + rewrite lookup_app_l in Ha by lia. replace (S i - length l)%nat with 0%nat in Hb by lia.
      apply Hj; [|by rewrite head_lookup]. rewrite last_lookup. by replace (pred (length l)) with i by lia.
    + rewrite lookup_app_r in Ha by lia. apply (Hk (i - length l)%nat); [done|]. by replace (S (i - length l)) with (S i - length l)%nat by lia.
Qed.

(** The frames of a channel are in order. *)
Lemma split_ordered id fs : split_channel id fs -> Z.of_nat (length fs) <= U16_MAX -> ordered fs.
Proof.
  intros Hs Hlen. apply ordered_lookup. intros i a b Ha Hb.
  destruct (Hs i a Ha) as (Hia & Hna & Hla & _), (Hs (S i) b Hb) as (Hib & Hnb & _). apply lookup_lt_Some in Hb.
  left. split; [congruence|]. split; [|rewrite Hla; apply Nat.eqb_neq; lia].
  rewrite Hna, Hnb. unfold add16. rewrite wrap_id; [lia|]. unfold fits, U16_MAX in *. lia.
Qed.

(** Neighbouring channels have different ids. *)
Abbreviation apart := (Sorted (fun a b : list Frame => forall f g, f ∈ a -> g ∈ b -> frame_id f <> frame_id g)).

Lemma channels_ordered cfg og css : Forall (fits_assembler cfg og) css -> apart css -> ordered (concat css).
Proof.
  intros Hc Ha. induction Ha as [|fs css Ha IH Hhd]; [constructor|]. apply Forall_cons in Hc as [(Hne & Hlen & _ & id & Hs) Hc].
  cbn [concat]. apply ordered_app; [by eapply split_ordered|by apply IH|]. intros a b Hla Hhb.
  destruct css as [|gs css]; [done|]. apply HdRel_inv in Hhd. apply Forall_cons in Hc as [(Hne' & _ & _ & id' & Hs') _].
  destruct gs as [|g gs]; [done|]. cbn in Hhb. injection Hhb as <-. right. split; [|split].
  - apply Hhd; [by apply last_Some_elem_of|set_solver].
  - rewrite last_lookup in Hla. destruct (Hs _ a Hla) as (_ & _ & -> & _). apply Nat.eqb_eq. destruct fs; [done|cbn; lia].
  - by destruct (Hs' 0%nat g eq_refl) as (_ & -> & _).
Qed.

(** Cutting an ordered sequence into payloads leaves each payload in order. *)
Lemma groups_ordered groups : ordered (concat groups) -> Forall ordered groups.
Proof.
  induction groups as [|g groups IH]; [constructor|]. cbn [concat]. intros Ho. constructor.
  - apply (ordered_take (length g)) in Ho. by rewrite take_app_length in Ho.
  - apply IH. rewrite ordered_lookup in *. intros i a b Hi Hb. apply (Ho (length g + i)%nat);
      rewrite lookup_app_r by lia; [by replace (length g + i - length g)%nat with i by lia|].
    by replace (S (length g + i) - length g)%nat with (S i) by lia.
Qed.

(** The node at an L1 block in which the batcher posted complete channels: the
    frames of the channels, in order, cut into groups, each group packed into one
    blob, the blobs carried by blob transactions. *)
Record posted {C B} `{ChainProvider C, BlobProvider B} (cfg : RollupConfig) (b : BlockInfo) (tr : PollingTraversal C)
    (src : EthereumDataSource C B) (css groups : list (list Frame)) : Prop := {
  p_block : tr_block tr = Some b /\ tr_done tr = false;
  p_forks : is_holocene_active cfg (timestamp b) = true /\ no_overflow cfg b /\
    exists e, ecotone_timestamp src = Some e /\ e <= timestamp b;
  p_channels : Forall (fits_assembler cfg b) css /\ apart css;
  p_groups : concat groups = concat css /\ Forall (fun g => g <> []) groups;
  p_blobs : exists txs blobs, Forall2 (fun g bl => encode_packed g = Ok bl) groups blobs /\
    is_open (blob_source src) = false /\
    answers b (batcher_address (system_config tr)) (blob_source src) txs blobs /\
    blobs_only (inbox_address (blob_source src)) (batcher_address (system_config tr)) txs /\
    length (extract_blob_data (inbox_address (blob_source src)) txs (batcher_address (system_config tr))).2 = length blobs;
}.

(** The stages as the node stacks them. *)
Definition stack {C B} (cfg : RollupConfig) (tr : PollingTraversal C) (src : EthereumDataSource C B) :=
  new_provider cfg (mkFrameQueue (mkL1Retrieval tr src None) [] cfg).

Lemma mux_delivers {P} `{NextFrameProvider P, OriginProvider P, OriginAdvancer P, StageReset P} cfg og (p : P) l a' :
  is_holocene_active cfg (timestamp og) = true ->
  delivers (fun a => frames_at og (ca_prev a) /\ ca_cfg a = cfg) next_channel_data (new_assembler cfg p) l a' ->
  exists s', delivers (fun s => origin s = Some og) next_channel_data (new_provider cfg p) l s'.
Proof.
  intros Hh Hd.
  assert (forall a, frames_at og (ca_prev a) -> ca_cfg a = cfg ->
    next_channel_data (mkChannelProvider cfg None None (Some a)) =
    ((next_channel_data a).1, mkChannelProvider cfg None None (Some (next_channel_data a).2))) as Hstep.
  { intros a Ha Hc. pose proof (delegate_run next_channel_data next_channel_data
      (mkChannelProvider cfg None None (Some a)) (ca_prev a) I eq_refl) as Hr. rewrite Ha in Hr. cbn [cp_cfg] in Hr.
    rewrite Hh in Hr. exact (proj1 Hr). }
  assert (next_channel_data (new_provider cfg p) = next_channel_data (mkChannelProvider cfg None None (Some (new_assembler cfg p)))) as Hfirst.
  { assert (frames_at og p) as Hp by (by inversion Hd; subst; naive_solver).
    rewrite Hstep by done. pose proof (delegate_run next_channel_data next_channel_data (new_provider cfg p) p I eq_refl) as Hr.
    rewrite Hp in Hr. cbn [cp_cfg new_provider] in Hr. rewrite Hh in Hr. exact (proj1 Hr). }
  enough (exists s', delivers (fun s => origin s = Some og) next_channel_data (mkChannelProvider cfg None None (Some (new_assembler cfg p))) l s')
    as [s' Hs'] by (exists s'; eapply delivers_eq; [|done..]; by inversion Hd; subst; naive_solver).
  clear Hfirst. induction Hd as [a a' [Ha Hc] Hn [Ha' _]|a a1 l a' [Ha Hc] Hn _ [s' IH]|a d a1 l a' [Ha Hc] Hn _ [s' IH]];
    specialize (Hstep a Ha Hc); rewrite Hn in Hstep.
  - eexists. by eapply delivers_eof.
  - exists s'. by eapply delivers_retry.
  - exists s'. by eapply delivers_next.
Qed.

Lemma frames_of_packed cfg og groups :
  is_holocene_active cfg (timestamp og) = true -> Forall (fun g => g <> []) groups -> Forall (Forall frame_ok) groups ->
  Forall ordered groups -> (packed <$> groups) ≫= frames_of cfg og = concat groups.
Proof.
  intros Hh Hne Hok Ho. induction groups as [|g groups IH]; [done|].
  apply Forall_cons in Hne as [Hg Hne], Hok as [Hgo Hok], Ho as [Hor Ho].
  rewrite fmap_cons, bind_cons, IH by done. cbn [concat]. f_equal. unfold frames_of.
  by rewrite parse_packed, Hh, (foldl_accept_kept []).
Qed.

Section channels.
Context {C B : Type} `{ChainProvider C, BlobProvider B, SolWords}.

(** The stages over a posted block deliver its channels, at the block's origin. *)
Lemma posted_channels_at cfg b (tr : PollingTraversal C) (src : EthereumDataSource C B) css groups :
  posted cfg b tr src css groups ->
  exists s', delivers (fun s => origin s = Some b) next_channel_data (stack cfg tr src)
    ((fun fs => Some (concat (frame_data <$> fs))) <$> css) s'.
Proof.
  intros [[Hb Hd] (Hh & Ht & e & He & Hle) [Hc Ha] [Hcat Hne] (txs & blobs & Henc & Hop & Hans & Honly & Hlen)].
  assert (Forall frame_ok (concat groups)) as Hok.
  { rewrite Hcat. apply Forall_concat. eapply Forall_impl; [exact Hc|]. intros fs (_ & _ & _ & id & Hs). by apply (split_all_ok id). }
  assert (Forall (Forall frame_ok) groups) as Hoks by (by apply Forall_concat).
  assert (Forall ordered groups) as Hord by (apply groups_ordered; rewrite Hcat; by eapply channels_ordered).
  destruct (posted_payloads b (batcher_address (system_config tr)) src e txs blobs groups) as [src' Hsrc]; [done..|].
  destruct (retrieval_block b (mkL1Retrieval tr src None) (packed <$> groups) src') as [r' Hr]; [done..|].
  apply (drains_delivers (source_at b)) in Hr; [|intros s r s1 Hs Hn; unfold source_at; by rewrite (retrieval_keeps_origin _ _ _ Hn)|done].
  apply (queue_delivers b _ _ _ cfg) in Hr.
  2: { apply Forall_fmap. eapply Forall_impl; [exact Hoks|]. intros g. apply bytes_packed. }
  rewrite frames_of_packed in Hr by done. rewrite Hcat in Hr.
  change (queue_at b) with (frames_at (P := FrameQueue (L1Retrieval (EthereumDataSource C B) (PollingTraversal C))) b) in Hr.
  destruct (assembler_delivers b _ _ _ cfg None Hr) as [ch' Hasm]; [by rewrite <- Hcat|done|].
  rewrite asm_channels, <- list_fmap_compose in Hasm by done.
  by apply (mux_delivers cfg b) in Hasm.
Qed.

(** Channels posted on L1 are derived. If the batcher cuts complete channels
    into frames, packs consecutive frames into blobs in any grouping and posts the
    blobs in an L1 block after Holocene, then the stages of a node that reaches
    that block - traversal, retrieval over the blob source, frame queue, channel
    assembler - return exactly the data of these channels, in order, and then
    the end of the block's data. *)
Theorem posted_channels_derived cfg b (tr : PollingTraversal C) (src : EthereumDataSource C B) css groups :
  posted cfg b tr src css groups ->
  exists s', delivers (fun _ => True) next_channel_data (stack cfg tr src)
    ((fun fs => Some (concat (frame_data <$> fs))) <$> css) s'.
Proof.
  intros [s' Hd]%posted_channels_at. exists s'. by eapply delivers_weaken.
Qed.
End channels.

Module DerivationExample.
Definition id : list Z := replicate 16 7.
Definition f0 : Frame := mkFrame id 0 [1; 2] false.
Definition f1 : Frame := mkFrame id 1 [3] true.
(** The two frames of the channel are packed into one blob each. *)
Definition groups : list (list Frame) := [[f0]; [f1]].
Definition blobs : list (list Z) := [blob_of (packed [f0]); blob_of (packed [f1])].
Definition txs : list L1Tx := [mkL1Tx Eip4844 (Some 5) [] [42; 43] (Some 9)].

#[local] Instance chain : ChainProvider unit :=
  {| block_info_by_number _ := mret default_block;
     receipts_by_hash _ := mret [];
     block_info_and_transactions_by_hash _ := mret (default_block, txs) |}.
#[local] Instance blob_server : BlobProvider (list (list Z)) :=
  {| get_and_validate_blobs _ _ := fun b => (Ok b, b) |}.
#[local] Existing Instance ConfigExample.words.

Definition sc : SystemConfig := mkSystemConfig 9 0 0 0 None None None None None None None None.
Definition tr : PollingTraversal unit := mkPollingTraversal (Some default_block) tt false sc RollupExample.all_forks.
Definition src : EthereumDataSource unit (list (list Z)) :=
  mkEthereumDataSource (Some 0) (mkBlobSource tt blobs 5 [] false) (mkCalldataSource tt 5 [] false).

Lemma posted_split : split_channel id [f0; f1].
Proof. intros [|[|i]] f Hf; [injection Hf as <-..|done]; (split_and!; [done..|by_eval]). Qed.

Lemma block_posted : posted RollupExample.all_forks default_block tr src [[f0; f1]] groups.
Proof.
  split.
  - done.
  - split_and!; [done|done|]. exists 0. done.
  - split; [|by repeat constructor]. constructor; [|done]. split_and!; [done|done|done|]. exists id. apply posted_split.
  - split; [done|]. by repeat constructor.
  - exists txs, blobs. split_and!; [|done|..|done].
    + constructor; [apply blob_encode_run; by vm_compute|]. constructor; [apply blob_encode_run; by vm_compute|constructor].
    + split; [by do 2 eexists|]. right. split; [done|]. by eexists.
    + by_eval.
Qed.

Lemma posted_channels_derived_witness :
  exists s', delivers (fun _ => True) next_channel_data (stack RollupExample.all_forks tr src) [Some [1; 2; 3]] s'.
Proof. exact (posted_channels_derived _ _ _ _ _ _ block_posted). Defined.
End DerivationExample.
