(* ===== verification/ChannelReader.v ===== *)
(** From channel data to batches: decompression
    ([src/crates/consensus/protocol/src/brotli.rs], [batch/reader.rs]) and the channel
    reader stage ([src/crates/consensus/derive/src/stages/channel/channel_reader.rs]).
    The inflate and Brotli decoders and the RLP codec of byte strings are code of
    other crates, the class [Decompressors]. *)

From S2P Require Import Prelude Codec Buffer Rollup SystemConfig Channel Pipeline L1Info SpanBits Batches SpanTxs SpanBatches.
From S2P Require Import BatchStages BatchSafety Frames Blobs BlobCodec BlobSource DataSource FrameQueue Traversal ChannelStages Derivation.

(** * Decompression *)

Inductive BrotliResult : Type := ResultSuccess | NeedsMoreInput | NeedsMoreOutput | ResultFailure.

Class Decompressors := {
  brotli_state : Type;
  brotli_init : brotli_state;
  (** One call of [BrotliDecompressStream] on the input left and the space available:
      its result, the bytes it wrote, the input left and the state. *)
  brotli_stream : brotli_state -> list Z -> Z -> BrotliResult * list Z * list Z * brotli_state;
  (** [decompress_to_vec_zlib_with_limit]: the output, or whether the limit stopped it
      and the output so far. *)
  zlib_inflate : list Z -> Z -> result (bool * list Z) (list Z);
  (** [Bytes::decode] and [Bytes::encode] *)
  rlp_byte_string : codec (list Z);
}.

Inductive DecompressionError : Type :=
| EmptyData
| UnsupportedType (ty : Z)
| BrotliError (r : BrotliResult)
| ZlibError.

Section brotli.
Context `{Decompressors}.

(** The loop of [Brotli::decompress]: [output] holds the bytes written so far in a
    buffer of [output_len] bytes. *)
Fixpoint brotli_loop (max : Z) (fuel : nat) (st : brotli_state) (input output : list Z) (available_out output_len : Z) :
    result (fault DecompressionError) (list Z) :=
  match fuel with
  | O => Err OutOfFuel
  | S fuel =>
      let '(result, written, input, st) := brotli_stream st input available_out in
      let output := output ++ written in
      let available_out := available_out - zlen written in
      match result with
      | NeedsMoreOutput =>
          if output_len >=? max then Ok output
          else
            let new_len := Z.min (Z.max (output_len * 2) 1) max in
            brotli_loop max fuel st input output (available_out + (new_len - output_len)) new_len
      | _ => if zlen output =? 0 then Err (Fail (BrotliError result)) else Ok output
      end
  end.

(** A buffer that doubles reaches any [usize] in 64 steps; one more takes an empty
    buffer to one byte, and one ends the loop. *)
Definition BROTLI_FUEL : nat := 66.

(** [Brotli::decompress] *)
Definition brotli_decompress (data : list Z) (max : Z) : result (fault DecompressionError) (list Z) :=
  let output_len := Z.min (zlen data) max in
  brotli_loop max BROTLI_FUEL brotli_init data [] output_len output_len.
End brotli.

(** * Reading batches *)

Record BatchReader : Type := mkBatchReader {
  br_data : option (list Z);
  decompressed : list Z;
  cursor : Z;
  br_max_rlp_bytes : Z;
  brotli_used : bool;
  brotli_supported : bool;
}.

(** [BatchReader::new] *)
Definition new_reader (data : list Z) (max : Z) (brotli : bool) : BatchReader :=
  mkBatchReader (Some data) [] 0 max false brotli.

Definition ZLIB_DEFLATE_COMPRESSION_METHOD : Z := 8.
Definition ZLIB_RESERVED_COMPRESSION_METHOD : Z := 15.
Definition CHANNEL_VERSION_BROTLI : Z := 1.

Definition take_data (r : BatchReader) : BatchReader :=
  mkBatchReader None (decompressed r) (cursor r) (br_max_rlp_bytes r) (brotli_used r) (brotli_supported r).
Definition set_decompressed (d : list Z) (r : BatchReader) : BatchReader :=
  mkBatchReader (br_data r) d (cursor r) (br_max_rlp_bytes r) (brotli_used r) (brotli_supported r).
Definition set_brotli_used (r : BatchReader) : BatchReader :=
  mkBatchReader (br_data r) (decompressed r) (cursor r) (br_max_rlp_bytes r) true (brotli_supported r).
Definition set_cursor (c : Z) (r : BatchReader) : BatchReader :=
  mkBatchReader (br_data r) (decompressed r) c (br_max_rlp_bytes r) (brotli_used r) (brotli_supported r).

Section reader.
Context `{Decompressors} `{SpanTxCodecs} `{SingleCodec}.
Implicit Types r : BatchReader.

(** [decompress_zlib] *)
Definition decompress_zlib (data : list Z) : stm BatchReader (fault DecompressionError) unit :=
  max ← gets br_max_rlp_bytes;
  match zlib_inflate data max with
  | Ok out => modify (set_decompressed out)
  | Err (has_more_output, out) =>
      if has_more_output || negb (zlen out =? 0) then modify (set_decompressed out) else throw (Fail ZlibError)
  end.

(** [decompress_brotli] *)
Definition decompress_brotli (data : list Z) : stm BatchReader (fault DecompressionError) unit :=
  modify set_brotli_used ;;
  max ← gets br_max_rlp_bytes;
  out ← lift (brotli_decompress (drop 1 data) max);
  modify (set_decompressed out).

(** [BatchReader::decompress] *)
Definition decompress : stm BatchReader (fault DecompressionError) unit := fun r =>
  if negb (zlen (decompressed r) =? 0) then (Ok tt, r)
  else
    let data := br_data r in
    let r := take_data r in
    match data with
    | None => (Err (Fail EmptyData), r)
    | Some [] => (Err (Fail EmptyData), r)
    | Some ((compression_type :: _) as data) =>
        if (Z.land compression_type 15 =? ZLIB_DEFLATE_COMPRESSION_METHOD) ||
           (Z.land compression_type 15 =? ZLIB_RESERVED_COMPRESSION_METHOD)
        then decompress_zlib data r
        else if (compression_type =? CHANNEL_VERSION_BROTLI) && brotli_supported r
        then decompress_brotli data r
        else (Err (Fail (UnsupportedType compression_type)), r)
    end.

(** [BatchReader::next_batch]; [.ok()?] turns an error into [None]. *)
Definition reader_next_batch {E} (cfg : RollupConfig) : stm BatchReader (fault E) (option Batch) := fun r =>
  match decompress r with
  | (Err (Fail _), r) => (Ok None, r)
  | (Err Panic, r) => (Err Panic, r)
  | (Err OutOfFuel, r) => (Err OutOfFuel, r)
  | (Ok _, r) =>
      match slice_from (E := E) (decompressed r) (cursor r) with
      | Err e => (Err e, r)
      | Ok decompressed_reader =>
          match dec rlp_byte_string decompressed_reader with
          | None => (Ok None, r)
          | Some (bytes, decompressed_reader) =>
              match batch_decode cfg bytes with
              | Ok batch => (Ok (Some batch), set_cursor (zlen (decompressed r) - zlen decompressed_reader) r)
              | Err (Fail _) => (Ok None, r)
              | Err Panic => (Err Panic, r)
              | Err OutOfFuel => (Err OutOfFuel, r)
              end
          end
      end
  end.
End reader.

(** * The channel reader stage *)

Record ChannelReader (P : Type) : Type := mkChannelReader {
  cr_prev : P;
  cr_next_batch : option BatchReader;
  cr_cfg : RollupConfig;
}.
Arguments mkChannelReader {P}.
Arguments cr_prev {P}.
Arguments cr_next_batch {P}.
Arguments cr_cfg {P}.

Definition new_channel_reader {P} (prev : P) (cfg : RollupConfig) : ChannelReader P := mkChannelReader prev None cfg.
Definition set_cr_prev {P} (p : P) (s : ChannelReader P) : ChannelReader P := mkChannelReader p (cr_next_batch s) (cr_cfg s).
Definition set_next_batch {P} (r : option BatchReader) (s : ChannelReader P) : ChannelReader P :=
  mkChannelReader (cr_prev s) r (cr_cfg s).

Section stage.
Context {P : Type} `{ChannelReaderProvider P, OriginProvider P, OriginAdvancer P, StageReset P}.
Context `{Decompressors} `{SpanTxCodecs} `{SingleCodec}.

(** [set_batch_reader] *)
Definition set_batch_reader : act (ChannelReader P) unit :=
  r ← gets cr_next_batch;
  match r return act (ChannelReader P) unit with
  | Some _ => mret tt
  | None =>
      data ← zoom cr_prev set_cr_prev next_channel_data;
      channel ← ok_or data (temp ChannelReaderEmpty);
      o ← gets (fun s => origin (cr_prev s));
      og ← ok_or o (crit MissingOrigin);
      cfg ← gets cr_cfg;
      let fjord_active := is_fjord_active cfg (timestamp og) in
      let max_rlp := if fjord_active then MAX_RLP_BYTES_PER_CHANNEL_FJORD else MAX_RLP_BYTES_PER_CHANNEL_BEDROCK in
      modify (set_next_batch (Some (new_reader channel max_rlp fjord_active)))
  end.

(** [next_channel], which is also [flush] *)
Definition next_channel (s : ChannelReader P) : ChannelReader P := set_next_batch None s.

(** [ChannelReader::next_batch] *)
Definition reader_stage_next_batch : act (ChannelReader P) Batch := fun s =>
  match set_batch_reader s with
  | (Err e, s) => (Err e, next_channel s)
  | (Ok _, s) =>
      match cr_next_batch s with
      | None => (Err Panic, s)
      | Some r =>
          match decompress r with
          | (Err (Fail _), r) => (Err (Fail (Temporary NotEnoughData)), next_channel (set_next_batch (Some r) s))
          | (Err Panic, r) => (Err Panic, set_next_batch (Some r) s)
          | (Err OutOfFuel, r) => (Err OutOfFuel, set_next_batch (Some r) s)
          | (Ok _, r) =>
              match reader_next_batch (cr_cfg s) r with
              | (Ok (Some batch), r) => (Ok batch, set_next_batch (Some r) s)
              | (Ok None, r) => (Err (Fail (Temporary NotEnoughData)), next_channel (set_next_batch (Some r) s))
              | (Err e, r) => (Err e, set_next_batch (Some r) s)
              end
          end
      end
  end.

Definition reader_reset (l1_origin : BlockNumHash) (sc : SystemConfig) : act (ChannelReader P) unit :=
  zoom cr_prev set_cr_prev (reset l1_origin sc) ;; modify next_channel.
Definition reader_activate : act (ChannelReader P) unit := zoom cr_prev set_cr_prev activate ;; modify next_channel.
Definition reader_flush_channel : act (ChannelReader P) unit := modify (set_next_batch None).

#[export] Instance reader_stream : BatchStreamProvider (ChannelReader P) :=
  {| next_batch := reader_stage_next_batch; stream_flush := next_channel |}.
#[export] Instance reader_origin : OriginProvider (ChannelReader P) := {| origin s := origin (cr_prev s) |}.
#[export] Instance reader_advancer : OriginAdvancer (ChannelReader P) :=
  {| advance_origin := zoom cr_prev set_cr_prev advance_origin |}.
#[export] Instance reader_stage_reset : StageReset (ChannelReader P) :=
  {| reset := reader_reset; activate := reader_activate; flush_channel := reader_flush_channel |}.

(** The stage keeps the origin as the stages above it expect, when the stage below does. *)
Lemma reader_stream_laws : (forall p : P, origin (next_channel_data p).2 = origin p) -> BatchStreamLaws (ChannelReader P).
Proof.
  intros Hp. split; [|done]. intros s. cbn [next_batch reader_stream origin reader_origin].
  assert (Hset : origin (cr_prev (set_batch_reader s).2) = origin (cr_prev s)).
  { unfold set_batch_reader, mbind, stm_bind, gets, zoom, ok_or. cbn. destruct (cr_next_batch s); [done|].
    specialize (Hp (cr_prev s)). destruct (next_channel_data (cr_prev s)) as [[[d|]|e] p]; cbn in *; try done.
    destruct (origin p) eqn:E; cbn; congruence. }
  unfold reader_stage_next_batch. destruct (set_batch_reader s) as [[[]|e] s1]; [|done]. cbn in Hset.
  destruct (cr_next_batch s1) as [r|]; [|done]. destruct (decompress r) as [[[]|[e| |]] r1]; try done.
  by destruct (reader_next_batch _ r1) as [[[b|]|e] r2].
Qed.
End stage.

(** * Bounds *)

(** What the decoders promise: they write bytes, no more than they have room for. *)
Class DecompressorLaws `{Decompressors} := {
  law_brotli st input available st' res out rest :
    brotli_stream st input available = (res, out, rest, st') -> 0 <= available -> bytes_ok out /\ zlen out <= available;
  law_zlib data max : 0 <= max ->
    match zlib_inflate data max with Ok out | Err (_, out) => bytes_ok out /\ zlen out <= max end;
  law_byte_string : codec_ok bytes_ok rlp_byte_string;
  law_byte_string_nil : dec rlp_byte_string [] = None;
  law_byte_string_dec r bs rest : dec rlp_byte_string r = Some (bs, rest) -> bytes_ok r ->
    bytes_ok bs /\ rest `suffix_of` r;
}.

Section bounds.
Context `{DecompressorLaws}.

(** Output of bytes within the limit, or an error of the decoder. *)
Definition bounded_output (max : Z) (r : result (fault DecompressionError) (list Z)) : Prop :=
  match r with Ok out => bytes_ok out /\ zlen out <= max | Err (Fail _) => True | Err _ => False end.

Lemma brotli_loop_bounded max k : forall fuel st input output available output_len,
  0 <= max -> 1 <= output_len -> max <= 2 ^ Z.of_nat k * output_len -> output_len <= max -> (k < fuel)%nat ->
  bytes_ok output -> 0 <= available -> zlen output + available <= output_len ->
  bounded_output max (brotli_loop max fuel st input output available output_len).
Proof.
  induction k as [|k IH]; intros fuel st input output available len Hmax Hlen Hk Hle Hfuel Hout Hav Hroom;
    (destruct fuel as [|fuel]; [lia|]); cbn [brotli_loop];
    destruct (brotli_stream st input available) as [[[res w] input'] st'] eqn:Es;
    destruct (law_brotli _ _ _ _ _ _ _ Es Hav) as [Hw Hwl];
    (assert (Ho : bytes_ok (output ++ w) /\ zlen (output ++ w) <= max)
      by (split; [by apply Forall_app|rewrite zlen_app; lia]));
    (destruct res; [by destruct (_ =? 0)..| |by destruct (_ =? 0)]); rewrite Z.geb_leb.
  - change (Z.of_nat 0) with 0 in Hk. rewrite Z.pow_0_r in Hk. by rewrite (proj2 (Z.leb_le _ _)) by lia.
  - destruct (Z.leb_spec max len); [done|]. rewrite Nat2Z.inj_succ, Z.pow_succ_r in Hk by lia.
    set (new := Z.min (Z.max (len * 2) 1) max).
    assert (Hnew : len < new <= max /\ max <= 2 ^ Z.of_nat k * new).
    { assert (1 <= 2 ^ Z.of_nat k) by (pose proof (Z.pow_pos_nonneg 2 (Z.of_nat k)); lia).
      unfold new. destruct (Z.min_spec (Z.max (len * 2) 1) max) as [[? ->]|[? ->]]; nia. }
    pose proof (zlen_nonneg w). apply IH; try lia; [apply Ho|rewrite zlen_app; lia].
Qed.

(** The first call, on an empty buffer. *)
Lemma brotli_loop_empty max fuel st input : 0 <= max -> max <= 2 ^ 64 -> (65 < fuel)%nat ->
  bounded_output max (brotli_loop max fuel st input [] 0 0).
Proof.
  intros Hmin Hmax Hfuel. destruct fuel as [|fuel]; [lia|]. cbn [brotli_loop].
  destruct (brotli_stream st input 0) as [[[res w] input'] st'] eqn:Es.
  destruct (law_brotli _ _ _ _ _ _ _ Es ltac:(lia)) as [Hw Hwl]. pose proof (zlen_nonneg w). cbn [app].
  destruct res; [destruct (_ =? 0); cbn; split_and?; (done || lia)..| |destruct (_ =? 0); cbn; split_and?; (done || lia)].
  rewrite Z.geb_leb. destruct (Z.leb_spec max 0); [cbn; split; [done|lia]|].
  replace (Z.min (Z.max (0 * 2) 1) max) with 1 by lia. apply (brotli_loop_bounded max 64); try done; lia.
Qed.

(** [Brotli::decompress] ends and its output is within the limit. *)
Lemma brotli_bounded data max : fits U64_MAX max -> bounded_output max (brotli_decompress data max).
Proof.
  intros [Hmin Hmax]. unfold brotli_decompress, BROTLI_FUEL. pose proof (zlen_nonneg data) as Hd.
  set (len := Z.min (zlen data) max). assert (0 <= len <= max) by (unfold len; lia).
  assert (H64 : U64_MAX <= 2 ^ Z.of_nat 64 * 1) by (unfold U64_MAX; lia).
  destruct (decide (1 <= len)) as [Hl|Hl].
  { apply (brotli_loop_bounded max 64); try done; lia. }
  replace len with 0 by lia. apply brotli_loop_empty; unfold U64_MAX in *; lia.
Qed.
End bounds.

(** * The stage on arbitrary channel data *)

(** What a source of channel data promises: it returns, and the data is bytes. *)
Class ChannelDataLaws (P : Type) `{ChannelReaderProvider P} := {
  channel_inv : P -> Prop;
  channel_data_law p r p' : channel_inv p -> next_channel_data p = (r, p') ->
    channel_inv p' /\ returns r /\ forall d, r = Ok (Some d) -> bytes_ok d;
}.

(** A reader within its limit, with the cursor in the decompressed data. *)
Record reader_ok (r : BatchReader) : Prop := mkReaderOk {
  ok_br_data d : br_data r = Some d -> bytes_ok d;
  ok_decompressed : bytes_ok (decompressed r);
  ok_limit : zlen (decompressed r) <= br_max_rlp_bytes r;
  ok_cursor : 0 <= cursor r <= zlen (decompressed r);
  ok_max : fits U64_MAX (br_max_rlp_bytes r);
}.

(** The limit of a channel read at an origin: Fjord's from its activation on. *)
Definition channel_limit (cfg : RollupConfig) (og : BlockInfo) : Z :=
  if is_fjord_active cfg (timestamp og) then MAX_RLP_BYTES_PER_CHANNEL_FJORD else MAX_RLP_BYTES_PER_CHANNEL_BEDROCK.

(** The reader follows the fork rules of an origin. *)
Definition reader_forked (cfg : RollupConfig) (og : BlockInfo) (r : BatchReader) : Prop :=
  br_max_rlp_bytes r = channel_limit cfg og /\ brotli_supported r = is_fjord_active cfg (timestamp og).

(** The fork rules of a reader do not change. *)
Definition same_rules (r r' : BatchReader) : Prop :=
  br_max_rlp_bytes r' = br_max_rlp_bytes r /\ brotli_supported r' = brotli_supported r.

Section reader_total.
Context `{DecompressorLaws} `{SpanTxCodecs} `{!UvarintLaws} `{SingleCodec}.

Definition fails_or_ok {E A} (x : result (fault E) A) : Prop := match x with Err Panic | Err OutOfFuel => False | _ => True end.
Lemma fails_or_ok_returns {E A} (x : result (fault E) A) : fails_or_ok x -> returns x.
Proof. by destruct x as [a|[]]. Qed.

Lemma set_decompressed_ok r out : reader_ok r -> decompressed r = [] -> bytes_ok out /\ zlen out <= br_max_rlp_bytes r ->
  reader_ok (set_decompressed out r).
Proof.
  intros [] Hd [Ho Hl]. rewrite Hd in ok_cursor0. change (zlen (@nil Z)) with 0 in ok_cursor0.
  pose proof (zlen_nonneg out). constructor; cbn; try done. lia.
Qed.

Lemma decompress_total r : reader_ok r ->
  let '(x, r') := decompress r in
  reader_ok r' /\ fails_or_ok x /\ same_rules r r'.
Proof.
  intros Hr. unfold decompress. destruct (zlen (decompressed r) =? 0) eqn:Ez; cbn [negb]; [|done].
  assert (Hd : decompressed r = []) by (apply Z.eqb_eq in Ez; destruct (decompressed r); [done|unfold zlen in Ez; cbn in Ez; lia]).
  assert (Ht : reader_ok (take_data r)) by (destruct Hr; by constructor).
  destruct (br_data r) as [[|c data]|]; [done| |done].
  destruct (_ || _).
  - unfold decompress_zlib. erewrite bind_run by reflexivity. pose proof (law_zlib (c :: data) _ (proj1 (ok_max _ Ht))) as Hz.
    destruct (zlib_inflate _ _) as [out|[more out]]; [|destruct (more || negb (zlen out =? 0))]; cbn; split_and?; try done; by apply set_decompressed_ok.
  - destruct (_ && _); [|done]. unfold decompress_brotli. erewrite bind_run by reflexivity. erewrite bind_run by reflexivity.
    pose proof (brotli_bounded (drop 1 (c :: data)) _ (ok_max _ Ht)) as Hb. unfold bounded_output in Hb.
    assert (Hu : reader_ok (set_brotli_used (take_data r))) by (destruct Ht; by constructor).
    unfold mbind, stm_bind, lift. change (br_max_rlp_bytes (set_brotli_used (take_data r))) with (br_max_rlp_bytes (take_data r)).
    destruct (brotli_decompress _ _) as [out|[e| |]]; cbn; split_and?; try done. by apply set_decompressed_ok.
Qed.

Lemma reader_next_batch_total {E} cfg r : reader_ok r ->
  let '(x, r') := reader_next_batch (E := E) cfg r in
  reader_ok r' /\ fails_or_ok x /\ same_rules r r' /\ (forall s, x = Ok (Some (Span s)) -> span_shape (block_time cfg) s).
Proof.
  intros Hr. unfold reader_next_batch. pose proof (decompress_total r Hr) as Hd.
  destruct (decompress r) as [x r1]. destruct Hd as (Hr1 & Hx & Hsame). destruct x as [[]|[e| |]]; [|by split_and!|done..].
  destruct (slice_ok (E := E) (decompressed r1) (cursor r1) (zlen (decompressed r1))) as [d Hs]; [apply Hr1|lia|].
  unfold slice_from. rewrite Hs. destruct (dec rlp_byte_string d) as [[bs rest]|] eqn:Ed; [|by split_and!].
  assert (Hdok : bytes_ok d /\ zlen d <= zlen (decompressed r1)).
  { unfold slice in Hs. destruct (_ && _); [|done]. injection Hs as <-. split; [apply Forall_take, Forall_drop, ok_decompressed, Hr1|].
    unfold zlen. rewrite length_take, length_drop. lia. }
  destruct Hdok as [Hdok Hdl]. destruct (law_byte_string_dec _ _ _ Ed Hdok) as [Hbs [k Hk]].
  destruct (batch_decode_safe cfg bs Hbs) as [[Hp Hf] Hspan].
  destruct (batch_decode cfg bs) as [b|[e| |]]; [|by split_and!|done..]. split_and!; [|done|done|].
  - assert (zlen rest <= zlen d) by (rewrite Hk, zlen_app; pose proof (zlen_nonneg k); lia). pose proof (zlen_nonneg rest).
    destruct Hr1. constructor; cbn; try done. lia.
  - intros s [= ->]. by apply Hspan.
Qed.
End reader_total.

(** * The channel assembler as a source of channel data *)

Lemma channel_data_bytes c d : channel_ok c -> channel_data c = Some d -> bytes_ok d.
Proof.
  intros Hc. unfold channel_data. destruct (channel_is_empty c); [done|].
  destruct (mapM _ _) as [l|] eqn:E; [|done]. intros [= <-]. apply mapM_Some in E. apply Forall_concat.
  induction E as [|i x ks l Hx _ IH]; [constructor|]. constructor; [|done].
  apply fmap_Some in Hx as (f & Hf & ->). apply (ok_frame _ Hc _ _ Hf).
Qed.

Lemma asm_step_bytes cfg og ch f d : frame_ok f -> open_ok ch -> (asm_step cfg og ch f).1 = Some d -> bytes_ok d.
Proof.
  intros Hf Hch. unfold asm_step.
  assert (Hc : open_ok (if number f =? 0 then Some (new_channel (frame_id f) og) else unexpired cfg og ch))
    by (destruct (_ =? 0); [apply new_channel_ok|by apply unexpired_ok]).
  destruct (if number f =? 0 then _ else _) as [c|]; [|done]. destruct (negb _); [done|].
  pose proof (add_frame_ok f og c Hf Hc) as Ha. destruct (add_frame f og c) as [[[]|e] c']; [|done].
  destruct (_ >? _); [done|]. destruct (is_ready c'); [|done]. by apply channel_data_bytes.
Qed.

(** Frames that are well formed and a source of them that returns make the assembler
    the source of channel data the reader expects. *)
Lemma assembler_channel_laws {P} `{NextFrameLaws P, OriginAdvancer P, StageReset P} :
  (forall p : P, frames_inv p -> returns (next_frame p).1) -> ChannelDataLaws (ChannelAssembler P).
Proof.
  intros Hret. refine {| channel_inv s := frames_inv (ca_prev s) /\ open_ok (channel s) |}.
  intros s r s' [Hp Hch] Hn. cbn [next_channel_data assembler_data] in Hn.
  destruct (origin (ca_prev s)) as [og|] eqn:Ho.
  2:{ unfold assembler_next_data in Hn. erewrite bind_run in Hn by reflexivity. rewrite Ho in Hn.
      erewrite bind_run_err in Hn by reflexivity. injection Hn as <- <-. split_and!; [done|done|apply fail_returns|done]. }
  specialize (Hret _ Hp). rewrite (assembler_run og) in Hn; [|done..|].
  2:{ intros f p Hf. by destruct (next_frame_law _ _ _ Hp Hf) as (_ & _ & Hok); apply Hok. }
  destruct (next_frame (ca_prev s)) as [[f|e] p] eqn:Hf; destruct (next_frame_law _ _ _ Hp Hf) as (Hp' & _ & Hok); cbn [fst] in Hret.
  - specialize (Hok f eq_refl). pose proof (asm_step_ok (ca_cfg s) og (channel s) f Hok Hch) as Hch'.
    pose proof (asm_step_bytes (ca_cfg s) og (channel s) f) as Hb.
    destruct (asm_step (ca_cfg s) og (channel s) f) as [[d|] ch]; cbn [fst snd] in *; injection Hn as <- <-.
    + split_and!; [done|done|apply ok_returns|]. intros ? [= <-]. by apply Hb.
    + split_and!; [done|done|apply fail_returns|done].
  - injection Hn as <- <-. split_and!; [done|by apply unexpired_ok|by destruct e; destruct Hret|done].
Qed.

Section stage_total.
Context {P : Type} `{ChannelDataLaws P, OriginProvider P, OriginAdvancer P, StageReset P}.
Context `{DecompressorLaws} `{SpanTxCodecs} `{!UvarintLaws} `{SingleCodec}.

(** The invariant of the stage: the reader it holds, if any, follows the rules of the
    fork of some origin and is within their limit. *)
Definition reader_stage_ok (s : ChannelReader P) : Prop :=
  channel_inv (cr_prev s) /\
  forall r, cr_next_batch s = Some r -> reader_ok r /\ exists og, reader_forked (cr_cfg s) og r.

(** The reader after a call is the one before it, or one that was created at the
    current origin and follows the rules of its fork. *)
Definition reader_from (s s' : ChannelReader P) (r : BatchReader) : Prop :=
  match cr_next_batch s with
  | Some r0 => same_rules r0 r
  | None => exists og, origin (cr_prev s') = Some og /\ reader_forked (cr_cfg s) og r
  end.

Lemma new_reader_ok d max b : bytes_ok d -> fits U64_MAX max -> reader_ok (new_reader d max b).
Proof. intros Hd Hm. constructor; cbn; try done; [by intros ? [= <-]|apply Hm]. Qed.

Lemma set_batch_reader_total s : reader_stage_ok s ->
  let '(x, s') := set_batch_reader s in
  reader_stage_ok s' /\ fails_or_ok x /\ cr_cfg s' = cr_cfg s /\ (x = Ok tt -> exists r, cr_next_batch s' = Some r) /\
  forall r, cr_next_batch s' = Some r -> reader_from s s' r.
Proof.
  intros [Hp Hr]. unfold set_batch_reader. erewrite bind_run by reflexivity. unfold reader_from.
  destruct (cr_next_batch s) as [r|] eqn:Er; [split_and!; [by split; [|rewrite Er]|done|done|by eauto|intros r' Hr'; by simplify_eq/=]|].
  unfold mbind at 1, stm_bind at 1, zoom. destruct (next_channel_data (cr_prev s)) as [x p] eqn:En.
  destruct (channel_data_law _ _ _ Hp En) as (Hp' & [Hret1 Hret2] & Hd).
  assert (Hs : reader_stage_ok (set_cr_prev p s)) by (split; [done|]; cbn; rewrite Er; done).
  assert (Hn : forall r, cr_next_batch (set_cr_prev p s) = Some r ->
    exists og, origin (cr_prev (set_cr_prev p s)) = Some og /\ reader_forked (cr_cfg s) og r) by (cbn; by rewrite Er).
  destruct x as [[d|]|e]; [|by split_and!|by destruct e; split_and!]. erewrite bind_run by reflexivity.
  erewrite bind_run by reflexivity. cbn [cr_prev set_cr_prev].
  destruct (origin p) as [og|] eqn:Eo; [|by split_and!]. erewrite bind_run by reflexivity. erewrite bind_run by reflexivity.
  unfold modify. cbn [cr_cfg set_cr_prev]. fold (channel_limit (cr_cfg s) og).
  assert (Hlim : fits U64_MAX (channel_limit (cr_cfg s) og)) by (unfold channel_limit; by destruct (is_fjord_active _ _)).
  split_and!; [|done|done|by eauto|by cbn; intros r [= <-]; exists og].
  split; [done|]. cbn. intros r [= <-]. split; [apply new_reader_ok; [by apply Hd|done]|by exists og].
Qed.

Lemma same_rules_trans r1 r2 r3 : same_rules r1 r2 -> same_rules r2 r3 -> same_rules r1 r3.
Proof. unfold same_rules. intros [-> ->] [-> ->]. done. Qed.

Lemma reader_forked_same cfg og r r' : reader_forked cfg og r -> same_rules r r' -> reader_forked cfg og r'.
Proof. unfold reader_forked, same_rules. intros [-> ->] [-> ->]. done. Qed.

(** A step of the reader keeps the invariant and where the reader comes from. *)
Lemma stage_keeps s s1 r r' : reader_stage_ok s1 -> cr_cfg s1 = cr_cfg s -> cr_next_batch s1 = Some r -> reader_from s s1 r ->
  reader_ok r' -> same_rules r r' ->
  reader_stage_ok (set_next_batch (Some r') s1) /\ reader_from s (set_next_batch (Some r') s1) r'.
Proof.
  intros [Hp Hr] Hcfg Er Hfrom Hok Hsame. destruct (Hr r Er) as [_ [og Hog]]. split.
  - split; [done|]. cbn. intros ? [= <-]. split; [done|]. exists og. by eapply reader_forked_same.
  - unfold reader_from in *. cbn. destruct (cr_next_batch s); [by eapply same_rules_trans|].
    destruct Hfrom as (og' & Ho & Hf). exists og'. split; [done|]. by eapply reader_forked_same.
Qed.

(** C13: The channel reader is total. Whatever bytes a channel holds, [next_batch] returns a
    batch or an error: no slice, index or arithmetic of the decoders is out of range and
    decompression ends. The decompressed data stays within the limit of the fork: the
    invariant holds the data of a reader within its limit, a reader created by the call
    has the limit (and accepts Brotli) as the fork at the current L1 origin says, Bedrock's
    or Fjord's, and a reader the stage already had keeps the limit it was created with.
    A span batch it returns has at least one block, timestamps a block time apart, and
    ascending epochs as far as the L1 chain is long enough. *)
Theorem channel_reader_total s : reader_stage_ok s ->
  let '(x, s') := next_batch s in
  reader_stage_ok s' /\ returns x /\
  (forall r, cr_next_batch s' = Some r -> reader_from s s' r) /\
  forall sp, x = Ok (Span sp) -> span_shape (block_time (cr_cfg s)) sp.
Proof.
  intros Hs. cbn [next_batch reader_stream]. unfold reader_stage_next_batch.
  pose proof (set_batch_reader_total s Hs) as Hset. destruct (set_batch_reader s) as [x s1].
  destruct Hset as (Hs1 & Hx & Hcfg & Hr & Hfrom). destruct x as [[]|e].
  2:{ split_and!; [by destruct Hs1|by destruct e|done|done]. }
  destruct (Hr eq_refl) as [r Er]. rewrite Er. specialize (Hfrom r Er). pose proof (proj1 (proj2 Hs1 r Er)) as Hr1.
  pose proof (decompress_total r Hr1) as Hd. destruct (decompress r) as [y r1]. destruct Hd as (Hr2 & Hy & Hsame).
  destruct y as [[]|[e| |]]; [|by destruct Hs1; split_and!|done..].
  pose proof (reader_next_batch_total (E := PipelineErrorKind) (cr_cfg s1) r1 Hr2) as Hn.
  destruct (reader_next_batch _ r1) as [z r2]. destruct Hn as (Hr3 & Hz & Hsame' & Hspan). rewrite Hcfg in Hspan.
  destruct (stage_keeps s s1 r r2) as [Hok Hkeep]; [done..|by eapply same_rules_trans|].
  assert (Hone : forall r', cr_next_batch (set_next_batch (Some r2) s1) = Some r' -> reader_from s (set_next_batch (Some r2) s1) r')
    by (cbn; by intros ? [= <-]).
  destruct z as [[b|]|e]; [|by destruct Hs1; split_and!|].
  - split_and!; [done|done|done|]. intros sp [= ->]. by apply Hspan.
  - split_and!; [done|by apply fails_or_ok_returns; destruct e|done|done].
Qed.
End stage_total.

(** * Delivery *)

Section delivery.
Context {P : Type} `{ChannelReaderProvider P, OriginProvider P, OriginAdvancer P, StageReset P}.
Context `{DecompressorLaws} `{SpanTxCodecs} `{SingleCodec}.
Variables (cfg : RollupConfig) (og : BlockInfo).

Definition channel_reader_of (data : list Z) : BatchReader :=
  new_reader data (channel_limit cfg og) (is_fjord_active cfg (timestamp og)).

(** The channel data decompresses to the byte strings of encoded batches. *)
Definition channel_holds (data : list Z) (bs : list Batch) : Prop :=
  exists r payloads, decompress (channel_reader_of data) = (Ok tt, r) /\
    decompressed r = concat (enc rlp_byte_string <$> payloads) /\ payloads <> [] /\ Forall bytes_ok payloads /\
    Forall2 (fun bytes b => batch_decode cfg bytes = Ok b) payloads bs.

Lemma decompress_cursor r : cursor (decompress r).2 = cursor r.
Proof.
  unfold decompress. destruct (negb _); [done|]. destruct (br_data r) as [[|c data]|]; [done| |done].
  destruct (_ || _).
  - unfold decompress_zlib. erewrite bind_run by reflexivity. by destruct (zlib_inflate _ _) as [out|[[] [|? out]]].
  - destruct (_ && _); [|done]. unfold decompress_brotli. erewrite bind_run by reflexivity. erewrite bind_run by reflexivity.
    unfold mbind, stm_bind, lift. by destruct (brotli_decompress _ _).
Qed.

Lemma decompress_done r : decompressed r <> [] -> decompress r = (Ok tt, r).
Proof.
  intros Hd. unfold decompress. destruct (decompressed r) as [|b l] eqn:E; [done|].
  rewrite (proj2 (Z.eqb_neq _ _)) by (unfold zlen; cbn; lia). done.
Qed.

Lemma byte_string_nonempty bs : bytes_ok bs -> enc rlp_byte_string bs <> [].
Proof.
  intros Hb He. pose proof (codec_dec law_byte_string bs [] Hb) as Hd. by rewrite He, law_byte_string_nil in Hd.
Qed.

(** A call on a reader that has been decompressed. *)
Lemma step_open (p : P) r : decompressed r <> [] ->
  next_batch (mkChannelReader p (Some r) cfg) =
  match reader_next_batch cfg r with
  | (Ok (Some b), r) => (Ok b, mkChannelReader p (Some r) cfg)
  | (Ok None, r) => (Err (Fail (Temporary NotEnoughData)), mkChannelReader p None cfg)
  | (Err e, r) => (Err e, mkChannelReader p (Some r) cfg)
  end.
Proof.
  intros Hd. cbn [next_batch reader_stream]. unfold reader_stage_next_batch, set_batch_reader.
  erewrite bind_run by reflexivity. cbn [cr_next_batch mret stm_ret]. unfold mret, stm_ret. cbn [cr_next_batch].
  rewrite decompress_done by done. cbn [cr_cfg]. by destruct (reader_next_batch cfg r) as [[[b|]|e] r'].
Qed.

Lemma reader_reads {E} r pre bytes rest b :
  decompressed r = pre ++ enc rlp_byte_string bytes ++ rest -> cursor r = zlen pre -> bytes_ok bytes ->
  batch_decode cfg bytes = Ok b ->
  reader_next_batch (E := E) cfg r = (Ok (Some b), set_cursor (zlen (pre ++ enc rlp_byte_string bytes)) r).
Proof.
  intros Hd Hc Hb Hdec. pose proof (byte_string_nonempty _ Hb) as Hne. unfold reader_next_batch.
  rewrite decompress_done by (rewrite Hd; destruct pre; [|done]; by destruct (enc rlp_byte_string bytes)).
  rewrite Hd, slice_from_app by done. rewrite (codec_dec law_byte_string) by done. rewrite Hdec. do 2 f_equal.
  rewrite !zlen_app. lia.
Qed.

Lemma reader_ends {E} r : decompressed r <> [] -> cursor r = zlen (decompressed r) ->
  reader_next_batch (E := E) cfg r = (Ok None, r).
Proof.
  intros Hd Hc. unfold reader_next_batch. rewrite decompress_done by done.
  rewrite <- (app_nil_r (decompressed r)) at 1. rewrite slice_from_app by done. by rewrite law_byte_string_nil.
Qed.

(** The rest of an open channel is delivered, then the channels after it. *)
Lemma open_delivers I (p : P) r pre payloads bs rest s' :
  (forall q r, I (mkChannelReader q r cfg) <-> I (mkChannelReader q None cfg)) ->
  decompressed r <> [] -> decompressed r = pre ++ concat (enc rlp_byte_string <$> payloads) -> cursor r = zlen pre ->
  Forall bytes_ok payloads -> Forall2 (fun bytes b => batch_decode cfg bytes = Ok b) payloads bs ->
  I (mkChannelReader p None cfg) -> delivers I next_batch (mkChannelReader p None cfg) rest s' ->
  delivers I next_batch (mkChannelReader p (Some r) cfg) (bs ++ rest) s'.
Proof.
  intros HI Hne Hd Hc Hok Hdec Hp Hrest. revert r pre Hne Hd Hc.
  induction Hdec as [|bytes b payloads bs Hb _ IH]; intros r pre Hne Hd Hc.
  - eapply delivers_retry; [by apply HI| |exact Hrest]. rewrite step_open by done.
    rewrite reader_ends; [done|done|]. rewrite Hd. cbn. by rewrite app_nil_r.
  - apply Forall_cons in Hok as [Hby Hok]. cbn [fmap list_fmap concat] in Hd. eapply delivers_next; [by apply HI| |].
    { rewrite step_open by done. by erewrite reader_reads by done. }
    apply (IH Hok _ (pre ++ enc rlp_byte_string bytes)); [done| |done]. cbn. by rewrite Hd, <- app_assoc.
Qed.

(** The first call on a channel opens it. *)
Lemma step_channel (p p1 : P) d r :
  next_channel_data p = (Ok (Some d), p1) -> origin p1 = Some og -> decompress (channel_reader_of d) = (Ok tt, r) ->
  decompressed r <> [] -> next_batch (mkChannelReader p None cfg) = next_batch (mkChannelReader p1 (Some r) cfg).
Proof.
  intros Hn Ho Hdec Hne. rewrite step_open by done. cbn [next_batch reader_stream]. unfold reader_stage_next_batch.
  assert (Hset : set_batch_reader (mkChannelReader p None cfg) =
    (Ok tt, mkChannelReader p1 (Some (channel_reader_of d)) cfg)).
  { unfold set_batch_reader. erewrite bind_run by reflexivity. cbn [cr_next_batch].
    rewrite (bind_run _ _ _ (Some d) (mkChannelReader p1 None cfg)) by (unfold zoom; cbn [cr_prev]; by rewrite Hn).
    erewrite bind_run by reflexivity. erewrite bind_run by reflexivity. cbn [cr_prev]. rewrite Ho.
    erewrite bind_run by reflexivity. by erewrite bind_run by reflexivity. }
  rewrite Hset. cbn [cr_next_batch]. rewrite Hdec. cbn [cr_cfg set_next_batch]. 
  by destruct (reader_next_batch cfg r) as [[[b|]|e] r'].
Qed.

(** The previous stage has nothing: neither has the reader. *)
Lemma step_nothing (p p1 : P) e : next_channel_data p = (Err e, p1) ->
  next_batch (mkChannelReader p None cfg) = (Err e, mkChannelReader p1 None cfg).
Proof.
  intros Hn. cbn [next_batch reader_stream]. unfold reader_stage_next_batch, set_batch_reader.
  erewrite bind_run by reflexivity. cbn [cr_next_batch].
  by rewrite (bind_run_err _ _ _ e (mkChannelReader p1 None cfg)) by (unfold zoom; cbn [cr_prev]; by rewrite Hn).
Qed.

Lemma delivers_inv {S A} (I : S -> Prop) (next : act S A) s l s' : delivers I next s l s' -> I s.
Proof. by destruct 1. Qed.

(** The batches of the channels the previous stage delivers come out in order. *)
Lemma reader_delivers (p : P) datas p' bss :
  delivers (fun q => origin q = Some og) next_channel_data p (Some <$> datas) p' -> Forall2 channel_holds datas bss ->
  exists s', delivers (fun s => origin (cr_prev s) = Some og) next_batch (mkChannelReader p None cfg) (concat bss) s'.
Proof.
  intros Hd. remember (Some <$> datas) as l eqn:El. revert datas bss El.
  induction Hd as [p p' Hp Hn Hp'|p p1 l p' Hp Hn Hd IH|p a p1 l p' Hp Hn Hd IH]; intros datas bss El Hh.
  - symmetry in El. apply fmap_nil_inv in El as ->. apply Forall2_nil_inv_l in Hh as ->.
    eexists. eapply delivers_eof; [done|by apply step_nothing|done].
  - destruct (IH datas bss El Hh) as [s' Hs']. exists s'. eapply delivers_retry; [done|by apply step_nothing|done].
  - destruct datas as [|d datas]; [done|]. cbn in El. injection El as -> ->.
    apply Forall2_cons_inv_l in Hh as (bs & bss' & (r & payloads & Hdec & Hcat & Hne & Hok & Hbs) & Hh & ->).
    destruct (IH datas bss' eq_refl Hh) as [s' Hs']. exists s'. cbn [concat].
    assert (Hnil : decompressed r <> []).
    { rewrite Hcat. destruct payloads as [|b ps]; [done|]. apply Forall_cons in Hok as [Hb _].
      pose proof (byte_string_nonempty b Hb). cbn. by destruct (enc rlp_byte_string b). }
    assert (Ho : origin p1 = Some og) by by apply delivers_inv in Hd.
    eapply delivers_eq; [done|by apply (step_channel p p1 d r)|].
    apply (open_delivers _ p1 r [] payloads bs); try done.
    pose proof (decompress_cursor (channel_reader_of d)) as Hc. by rewrite Hdec in Hc.
Qed.
End delivery.

(** * The pipeline up to batches *)

Section batches.
Context {C B : Type} `{ChainProvider C, BlobProvider B, SolWords}.
Context `{DecompressorLaws} `{SpanTxCodecs} `{SingleCodec}.

(** Batches posted on L1 are derived. If the batcher cuts complete channels into
    frames, packs consecutive frames into blobs in any grouping and posts the blobs in
    an L1 block after Holocene, and the data of each channel decompresses to encoded
    batches, then the stages of a node that reaches that block - traversal, retrieval over the
    blob source, frame queue, channel assembler, channel reader - return exactly these
    batches, in order, and then the end of the block's data. *)
Lemma posted_batches_at cfg b (tr : PollingTraversal C) (src : EthereumDataSource C B) css groups bss :
  posted cfg b tr src css groups ->
  Forall2 (fun fs bs => channel_holds cfg b (concat (frame_data <$> fs)) bs) css bss ->
  exists s', delivers (fun s => origin (cr_prev s) = Some b) next_batch
    (new_channel_reader (stack cfg tr src) cfg) (concat bss) s'.
Proof.
  intros Hp Hh. destruct (posted_channels_at _ _ _ _ _ _ Hp) as [p' Hd].
  apply (reader_delivers cfg b _ ((fun fs => concat (frame_data <$> fs)) <$> css) p').
  - by rewrite <- list_fmap_compose.
  - by apply Forall2_fmap_l.
Qed.
End batches.

Module ReaderExample.
#[local] Existing Instance SpanExample.codecs.
#[local] Existing Instance SpanExample.uvarint_laws.
#[local] Existing Instance DerivationExample.chain.
#[local] Existing Instance DerivationExample.blob_server.
#[local] Existing Instance ConfigExample.words.

Definition cfg : RollupConfig := RollupExample.all_forks.
Definition batch0 : SingleBatch := mkSingleBatch 1 2 3 4 [].
#[local] Instance single : SingleCodec := {| single_codec := mkCodec (fun _ => []) (fun _ => 0) (fun r => Some (batch0, r)) |}.

(** A Brotli decoder whose output is the byte string of one batch, and byte strings
    behind their length. *)
#[local] Instance decoders : Decompressors := {|
  brotli_state := unit;
  brotli_init := tt;
  brotli_stream := fun st _ available => (ResultSuccess, take (Z.to_nat available) [1; 0], [], st);
  zlib_inflate := fun _ _ => Ok [];
  rlp_byte_string := mkCodec (fun bs => zlen bs :: bs) (fun bs => 1 + zlen bs)
    (fun r => match r with
              | n :: r => if (0 <=? n) && (n <=? zlen r) then Some (take (Z.to_nat n) r, drop (Z.to_nat n) r) else None
              | [] => None
              end);
|}.

#[local] Instance decoder_laws : DecompressorLaws.
Proof.
  split.
  - intros st input available st' res out rest [= <- <- <- <-] Hav. split; [apply Forall_take; by_eval|].
    unfold zlen. rewrite length_take. lia.
  - intros data max Hm. cbn. by split; [constructor|].
  - intros bs Hb. split; [unfold zlen; cbn [enc enc_len rlp_byte_string decoders length]; unfold zlen; cbn [length]; lia|]. intros rest. cbn. rewrite zlen_app.
    pose proof (zlen_nonneg bs). pose proof (zlen_nonneg rest).
    rewrite (proj2 (Z.leb_le _ _)), (proj2 (Z.leb_le _ _)) by lia. cbn.
    replace (Z.to_nat (zlen bs)) with (length bs) by (unfold zlen; lia). by rewrite take_app_length, drop_app_length.
  - done.
  - intros r bs rest Hd Hr. destruct r as [|n r]; [done|]. cbn in Hd. apply Forall_cons in Hr as [_ Hr].
    destruct (_ && _); [|done]. injection Hd as <- <-. split; [by apply Forall_take|].
    exists (n :: take (Z.to_nat n) r). cbn. by rewrite take_drop.
Qed.

Lemma posted_batches_example :
  exists s', delivers (fun s => origin (cr_prev s) = Some default_block) next_batch
    (new_channel_reader (stack cfg DerivationExample.tr DerivationExample.src) cfg) [Single batch0] s'.
Proof.
  apply (posted_batches_at cfg default_block DerivationExample.tr DerivationExample.src _ _ [[Single batch0]]
           DerivationExample.block_posted).
  constructor; [|constructor]. eexists _, [[0]]. split; [reflexivity|].
  split; [reflexivity|]. split; [discriminate|]. split; [by_eval|]. by repeat constructor.
Qed.

(** Channel data from a list. *)
#[local] Instance list_data : ChannelReaderProvider (list (list Z)) :=
  {| next_channel_data := fun l => match l with d :: l => (Ok (Some d), l) | [] => (Err (Fail (Temporary Eof)), []) end |}.
#[local] Instance list_origin : OriginProvider (list (list Z)) := {| origin := fun _ => Some default_block |}.
#[local] Instance list_data_laws : ChannelDataLaws (list (list Z)).
Proof.
  refine {| channel_inv := Forall bytes_ok |}. intros [|d l] r p' Hl Hn; cbn in Hn; injection Hn as <- <-.
  - split_and!; [constructor|apply fail_returns|done].
  - apply Forall_cons in Hl as [Hd Hl]. split_and!; [done|apply ok_returns|]. by intros ? [= <-].
Defined.

Definition stage0 : ChannelReader (list (list Z)) := new_channel_reader [[1; 2; 3]; [200; 9]] cfg.

Lemma channel_reader_total_witness :
  (next_batch stage0).1 = Ok (Single batch0) /\ reader_stage_ok (next_batch stage0).2 /\ returns (next_batch stage0).1.
Proof.
  assert (Hs : reader_stage_ok stage0) by (split; [by_eval|done]).
  pose proof (channel_reader_total stage0 Hs) as Ht. split; [reflexivity|]. destruct (next_batch stage0) as [x s'].
  exact (conj (proj1 Ht) (proj1 (proj2 Ht))).
Defined.
End ReaderExample.
