(* ===== verification/Compress.v ===== *)
(** The compressors of the batcher ([src/crates/batcher/comp/src/]: [types.rs],
    [config.rs], [brotli.rs], [zlib.rs], [variant.rs], [shadow.rs], [ratio.rs]).
    The Brotli and deflate encoders are code of other crates, the class [Compression].
    A compressor compresses lazily: [len], [read] and [get_compressed] fill a cache
    behind a shared reference, so they return the new state too. *)

From S2P Require Import Prelude Buffer Rollup.
From Stdlib Require Import SpecFloat.

(** * [f64] *)

Module F64.
Abbreviation prec := 53.
Abbreviation emax := 1024.

(** [n as f64], the product and the quotient, rounded to nearest even. *)
Definition of_u64 (n : Z) : spec_float := binary_normalize prec emax n 0 false.
Definition mul (x y : spec_float) : spec_float := SFmul prec emax x y.
Definition div (x y : spec_float) : spec_float := SFdiv prec emax x y.
Definition le (x y : spec_float) : bool := SFleb x y.
Definition lt (x y : spec_float) : bool := SFltb x y.

(** [x as usize]: towards zero, saturating, zero for not-a-number. *)
Definition to_usize (x : spec_float) : Z :=
  match x with
  | S754_finite false m e => Z.min (Z.shiftl (Zpos m) e) U64_MAX
  | S754_infinity false => U64_MAX
  | _ => 0
  end.
End F64.

(** * Errors and configuration *)

Inductive CompressorError : Type := Full | BrotliFailed.

Inductive CompressorType : Type := Ratio | Shadow.
Inductive CompressionAlgo : Type := Brotli9 | Brotli10 | Brotli11 | Zlib.
Inductive BrotliLevel : Type := Level9 | Level10 | Level11.

(** [BrotliLevel as u32] *)
Definition level_u32 (l : BrotliLevel) : Z := match l with Level9 => 9 | Level10 => 10 | Level11 => 11 end.

(** [From<CompressionAlgo> for BrotliLevel] *)
Definition level_of (a : CompressionAlgo) : BrotliLevel :=
  match a with Brotli9 => Level9 | Brotli11 => Level11 | _ => Level10 end.

Record CompConfig : Type := mkCompConfig {
  target_output_size : Z;
  comp_approx_ratio : spec_float;
  kind : CompressorType;
  compression_algo : CompressionAlgo;
}.

(** [BrotliCompress] at a quality, which may fail, and [compress_to_vec] at the best level. *)
Class Compression := {
  brotli_compress : list Z -> Z -> option (list Z);
  zlib_deflate : list Z -> list Z;
}.

(** [CompressorWriter] and [ChannelCompressor]. [c_read n] is [read] on a buffer of [n] bytes; its
    value is the bytes copied to the front of the buffer. *)
Class ChannelCompressor (C : Type) := {
  c_write : list Z -> stm C CompressorError Z;
  c_flush : stm C CompressorError unit;
  c_close : stm C CompressorError unit;
  c_reset : C -> C;
  c_len : C -> Z * C;
  c_read : Z -> stm C CompressorError (list Z);
  get_compressed : C -> list Z * C;
  channel_version_byte : C -> option Z;
}.

(** * Brotli *)

Record BrotliCompressor : Type := mkBrotli {
  bc_compressed : list Z;
  bc_raw : list Z;
  bc_closed : bool;
  bc_dirty : bool;
  bc_level : BrotliLevel;
}.

(** [BrotliCompressor::new] *)
Definition new_brotli (level : BrotliLevel) : BrotliCompressor := mkBrotli [] [] false false level.

Section brotli.
Context `{Compression}.
Implicit Types c : BrotliCompressor.

(** [ensure_compressed] *)
Definition brotli_ensure : stm BrotliCompressor CompressorError unit := fun c =>
  if bc_dirty c then
    match brotli_compress (bc_raw c) (level_u32 (bc_level c)) with
    | None => (Err BrotliFailed, c)
    | Some out => (Ok tt, mkBrotli out (bc_raw c) (bc_closed c) false (bc_level c))
    end
  else (Ok tt, c).

Definition brotli_write (data : list Z) : stm BrotliCompressor CompressorError Z := fun c =>
  if bc_closed c then (Err BrotliFailed, c)
  else (Ok (zlen data), mkBrotli [] (bc_raw c ++ data) (bc_closed c) true (bc_level c)).
Definition brotli_close : stm BrotliCompressor CompressorError unit := fun c =>
  (Ok tt, mkBrotli (bc_compressed c) (bc_raw c) true (bc_dirty c) (bc_level c)).
Definition brotli_reset c : BrotliCompressor := mkBrotli [] [] false false (bc_level c).

(** [read] takes the bytes from the front of the cache. *)
Definition brotli_read (n : Z) : stm BrotliCompressor CompressorError (list Z) :=
  brotli_ensure ;;
  compressed ← gets bc_compressed;
  let len := Z.to_nat (Z.min (zlen compressed) n) in
  modify (fun c => mkBrotli (drop len compressed) (bc_raw c) (bc_closed c) (bc_dirty c) (bc_level c)) ;;
  mret (take len compressed).

(** [len] and [get_compressed] ignore an error of the encoder. *)
Definition brotli_len c : Z * BrotliCompressor := let c := (brotli_ensure c).2 in (zlen (bc_compressed c), c).
Definition brotli_get_compressed c : list Z * BrotliCompressor := let c := (brotli_ensure c).2 in (bc_compressed c, c).

#[export] Instance brotli_compressor : ChannelCompressor BrotliCompressor := {|
  c_write := brotli_write;
  c_flush := mret tt;
  c_close := brotli_close;
  c_reset := brotli_reset;
  c_len := brotli_len;
  c_read := brotli_read;
  get_compressed := brotli_get_compressed;
  channel_version_byte _ := Some 1;
|}.
End brotli.

(** * Zlib *)

Record ZlibCompressor : Type := mkZlib {
  zc_buffer : list Z;
  zc_compressed : list Z;
  zc_dirty : bool;
}.

Definition new_zlib : ZlibCompressor := mkZlib [] [] false.

Section zlib.
Context `{Compression}.
Implicit Types c : ZlibCompressor.

Definition zlib_ensure c : ZlibCompressor :=
  if zc_dirty c then mkZlib (zc_buffer c) (zlib_deflate (zc_buffer c)) false else c.
Definition zlib_write (data : list Z) : stm ZlibCompressor CompressorError Z := fun c =>
  (Ok (zlen data), mkZlib (zc_buffer c ++ data) [] true).
Definition zlib_len c : Z * ZlibCompressor := let c := zlib_ensure c in (zlen (zc_compressed c), c).
(** [read] copies the front of the cache and leaves it there. *)
Definition zlib_read (n : Z) : stm ZlibCompressor CompressorError (list Z) := fun c =>
  let c := zlib_ensure c in
  (Ok (take (Z.to_nat (Z.min (zlen (zc_compressed c)) n)) (zc_compressed c)), c).
Definition zlib_get_compressed c : list Z * ZlibCompressor := let c := zlib_ensure c in (zc_compressed c, c).

#[export] Instance zlib_compressor : ChannelCompressor ZlibCompressor := {|
  c_write := zlib_write;
  c_flush := mret tt;
  c_close := mret tt;
  c_reset _ := mkZlib [] [] false;
  c_len := zlib_len;
  c_read := zlib_read;
  get_compressed := zlib_get_compressed;
  channel_version_byte _ := None;
|}.
End zlib.

(** * Either of the two *)

Inductive VariantCompressor : Type :=
| VBrotli (c : BrotliCompressor)
| VZlib (c : ZlibCompressor).

Section variant.
Context `{Compression}.

(** [VariantCompressor::from_timestamp] *)
Definition variant_from_timestamp (cfg : RollupConfig) (ts : Z) : VariantCompressor :=
  if is_fjord_active cfg ts then VBrotli (new_brotli (level_of Brotli10)) else VZlib new_zlib.

(** [From<CompressionAlgo>] *)
Definition variant_of (a : CompressionAlgo) : VariantCompressor :=
  match a with
  | Brotli9 | Brotli10 | Brotli11 => VBrotli (new_brotli (level_of a))
  | Zlib => VZlib new_zlib
  end.

(** An operation of either compressor. *)
Definition on_variant {E A} (b : stm BrotliCompressor E A) (z : stm ZlibCompressor E A) : stm VariantCompressor E A := fun v =>
  match v with
  | VBrotli c => let '(r, c) := b c in (r, VBrotli c)
  | VZlib c => let '(r, c) := z c in (r, VZlib c)
  end.

Definition variant_write (data : list Z) : stm VariantCompressor CompressorError Z := on_variant (c_write data) (c_write data).
Definition variant_flush : stm VariantCompressor CompressorError unit := on_variant c_flush c_flush.
Definition variant_close : stm VariantCompressor CompressorError unit := on_variant c_close c_close.
Definition variant_read (n : Z) : stm VariantCompressor CompressorError (list Z) := on_variant (c_read n) (c_read n).
Definition variant_reset (v : VariantCompressor) : VariantCompressor :=
  match v with VBrotli c => VBrotli (c_reset c) | VZlib c => VZlib (c_reset c) end.
Definition variant_len (v : VariantCompressor) : Z * VariantCompressor :=
  match v with
  | VBrotli c => let '(n, c) := c_len c in (n, VBrotli c)
  | VZlib c => let '(n, c) := c_len c in (n, VZlib c)
  end.
Definition variant_get_compressed (v : VariantCompressor) : list Z * VariantCompressor :=
  match v with
  | VBrotli c => let '(d, c) := get_compressed c in (d, VBrotli c)
  | VZlib c => let '(d, c) := get_compressed c in (d, VZlib c)
  end.
Definition variant_version_byte (v : VariantCompressor) : option Z :=
  match v with VBrotli c => channel_version_byte c | VZlib c => channel_version_byte c end.

#[export] Instance variant_compressor : ChannelCompressor VariantCompressor := {|
  c_write := variant_write;
  c_flush := variant_flush;
  c_close := variant_close;
  c_reset := variant_reset;
  c_len := variant_len;
  c_read := variant_read;
  get_compressed := variant_get_compressed;
  channel_version_byte := variant_version_byte;
|}.
End variant.

(** * The shadow compressor *)

Definition SAFE_COMPRESSION_OVERHEAD : Z := 51.
Definition CLOSE_OVERHEAD_ZLIB : Z := 9.

Record ShadowCompressor : Type := mkShadow {
  sc_config : CompConfig;
  sc_compressor : VariantCompressor;
  sc_shadow : VariantCompressor;
  sc_is_full : bool;
  sc_bound : Z;
}.

(** [ShadowCompressor::new] and [From<Config>] *)
Definition new_shadow (cfg : CompConfig) (compressor shadow : VariantCompressor) : ShadowCompressor :=
  mkShadow cfg compressor shadow false SAFE_COMPRESSION_OVERHEAD.
Definition shadow_of (cfg : CompConfig) : ShadowCompressor :=
  new_shadow cfg (variant_of (compression_algo cfg)) (variant_of (compression_algo cfg)).

Definition set_compressor (c : VariantCompressor) (s : ShadowCompressor) : ShadowCompressor :=
  mkShadow (sc_config s) c (sc_shadow s) (sc_is_full s) (sc_bound s).
Definition set_shadow (c : VariantCompressor) (s : ShadowCompressor) : ShadowCompressor :=
  mkShadow (sc_config s) (sc_compressor s) c (sc_is_full s) (sc_bound s).
Definition set_full (s : ShadowCompressor) : ShadowCompressor :=
  mkShadow (sc_config s) (sc_compressor s) (sc_shadow s) true (sc_bound s).
Definition set_bound (b : Z) (s : ShadowCompressor) : ShadowCompressor :=
  mkShadow (sc_config s) (sc_compressor s) (sc_shadow s) (sc_is_full s) b.

(** [len] of a component, inside the state of the whole. *)
Definition len_of {S C} `{ChannelCompressor C} (get : S -> C) (set : C -> S -> S) : stm S CompressorError Z :=
  zoom get set (fun c => let '(n, c) := c_len c in (Ok n, c)).

Section shadow.
Context `{Compression}.
Implicit Types s : ShadowCompressor.

(** The first part of [write], up to the new bound: the shadow is written, and past
    the target size its compressed length decides, except for the first write. *)
Definition shadow_admit (data : list Z) : stm ShadowCompressor CompressorError Z :=
  s ← gets id;
  guard_err (sc_is_full s) Full ;;
  zoom sc_shadow set_shadow (c_write data) ;;
  let target := target_output_size (sc_config s) in
  if zlen data >? target then
    zoom sc_shadow set_shadow c_flush ;;
    n ← len_of sc_shadow set_shadow;
    let newbound := add64 n CLOSE_OVERHEAD_ZLIB in
    if newbound >? target then
      modify set_full ;;
      written ← len_of sc_compressor set_compressor;
      guard_err (written >? 0) Full ;;
      mret newbound
    else mret newbound
  else mret (zlen data).

(** [write] *)
Definition shadow_write (data : list Z) : stm ShadowCompressor CompressorError Z :=
  newbound ← shadow_admit data;
  modify (set_bound newbound) ;;
  zoom sc_compressor set_compressor (c_write data).

Definition shadow_len s : Z * ShadowCompressor := let '(n, c) := c_len (sc_compressor s) in (n, set_compressor c s).
Definition shadow_flush : stm ShadowCompressor CompressorError unit :=
  zoom sc_shadow set_shadow c_flush ;; zoom sc_compressor set_compressor c_flush.
(** Only the shadow is closed. *)
Definition shadow_close : stm ShadowCompressor CompressorError unit := zoom sc_shadow set_shadow c_close.
Definition shadow_reset s : ShadowCompressor :=
  mkShadow (sc_config s) (c_reset (sc_compressor s)) (c_reset (sc_shadow s)) false SAFE_COMPRESSION_OVERHEAD.
Definition shadow_read (n : Z) : stm ShadowCompressor CompressorError (list Z) := zoom sc_compressor set_compressor (c_read n).
Definition shadow_get_compressed s : list Z * ShadowCompressor :=
  let '(d, c) := get_compressed (sc_compressor s) in (d, set_compressor c s).

#[export] Instance shadow_compressor : ChannelCompressor ShadowCompressor := {|
  c_write := shadow_write;
  c_flush := shadow_flush;
  c_close := shadow_close;
  c_reset := shadow_reset;
  c_len := shadow_len;
  c_read := shadow_read;
  get_compressed := shadow_get_compressed;
  channel_version_byte s := channel_version_byte (sc_compressor s);
|}.
End shadow.

(** * The ratio compressor *)

Record RatioCompressor : Type := mkRatio {
  rc_config : CompConfig;
  rc_lake : Z;
  rc_compressor : VariantCompressor;
}.

Definition new_ratio (cfg : CompConfig) (c : VariantCompressor) : RatioCompressor := mkRatio cfg 0 c.
Definition ratio_of (cfg : CompConfig) : RatioCompressor := new_ratio cfg (variant_of (compression_algo cfg)).
Definition set_ratio_compressor (c : VariantCompressor) (r : RatioCompressor) : RatioCompressor := mkRatio (rc_config r) (rc_lake r) c.

(** [input_threshold] and [is_full] *)
Definition input_threshold (r : RatioCompressor) : Z :=
  F64.to_usize (F64.div (F64.of_u64 (target_output_size (rc_config r))) (comp_approx_ratio (rc_config r))).
Definition ratio_is_full (r : RatioCompressor) : bool := rc_lake r >=? input_threshold r.

Section ratio.
Context `{Compression}.
Definition ratio_write (data : list Z) : stm RatioCompressor CompressorError Z :=
  n ← zoom rc_compressor set_ratio_compressor (c_write data);
  modify (fun r => mkRatio (rc_config r) (add64 (rc_lake r) n) (rc_compressor r)) ;;
  mret n.
Definition ratio_reset (r : RatioCompressor) : RatioCompressor := mkRatio (rc_config r) 0 (c_reset (rc_compressor r)).
Definition ratio_read (n : Z) : stm RatioCompressor CompressorError (list Z) := zoom rc_compressor set_ratio_compressor (c_read n).
Definition ratio_len (r : RatioCompressor) : Z * RatioCompressor :=
  let '(n, c) := c_len (rc_compressor r) in (n, set_ratio_compressor c r).
End ratio.

(** * Reading the output *)

(** What a channel relies on when it reads a compressor out: the output left is a
    byte string, whose length [len] reports and whose front [read] removes. *)
Class Drainable (C : Type) `{ChannelCompressor C} := {
  ready : C -> list Z -> Prop;
  ready_version : option Z;
  law_version c d : ready c d -> channel_version_byte c = ready_version;
  law_len c d : ready c d -> exists c', c_len c = (zlen d, c') /\ ready c' d;
  law_read c d n : ready c d -> 0 <= n <= zlen d ->
    exists c', c_read n c = (Ok (take (Z.to_nat n) d), c') /\ ready c' (drop (Z.to_nat n) d);
}.

Section drain.
Context `{Compression}.

(** The output of a Brotli compressor that has not been read out. *)
Definition brotli_ready (c : BrotliCompressor) (d : list Z) : Prop :=
  if bc_dirty c then brotli_compress (bc_raw c) (level_u32 (bc_level c)) = Some d else bc_compressed c = d.

Lemma brotli_ensure_ready c d : brotli_ready c d ->
  exists c', brotli_ensure c = (Ok tt, c') /\ bc_compressed c' = d /\ bc_dirty c' = false.
Proof. unfold brotli_ready, brotli_ensure. destruct (bc_dirty c) eqn:E; [intros ->|]; eauto. Qed.

Lemma brotli_ready_len c d : brotli_ready c d -> exists c', c_len c = (zlen d, c') /\ brotli_ready c' d.
Proof.
  intros (c' & He & Hc & Hd)%brotli_ensure_ready. exists c'. cbn. unfold brotli_len, brotli_ready. rewrite He, Hd. by subst.
Qed.
Lemma brotli_ready_read c d n : brotli_ready c d -> 0 <= n <= zlen d ->
  exists c', c_read n c = (Ok (take (Z.to_nat n) d), c') /\ brotli_ready c' (drop (Z.to_nat n) d).
Proof.
  intros (c' & He & Hc & Hd)%brotli_ensure_ready Hn. subst d. cbn. unfold brotli_read.
  rewrite (bind_run _ _ _ tt c') by done. erewrite bind_run by reflexivity. rewrite Z.min_r by lia.
  erewrite bind_run by reflexivity. eexists. split; [done|]. unfold brotli_ready. cbn. by rewrite Hd.
Qed.
#[export] Instance brotli_drains : Drainable BrotliCompressor := {|
  ready := brotli_ready;
  ready_version := Some 1;
  law_version c d _ := eq_refl;
  law_len := brotli_ready_len;
  law_read := brotli_ready_read;
|}.

(** A shadow compressor over Brotli is read out through its main compressor. *)
Definition shadow_ready (s : ShadowCompressor) (d : list Z) : Prop :=
  exists c, sc_compressor s = VBrotli c /\ brotli_ready c d.

Lemma shadow_ready_version s d : shadow_ready s d -> channel_version_byte s = Some 1.
Proof. intros (c & Hs & _). cbn. by rewrite Hs. Qed.
Lemma shadow_ready_len s d : shadow_ready s d -> exists s', c_len s = (zlen d, s') /\ shadow_ready s' d.
Proof.
  intros (c & Hs & (c' & Hl & Hc')%brotli_ready_len). cbn. unfold shadow_len. rewrite Hs.
  cbn [c_len variant_compressor variant_len]. rewrite Hl. eexists. split; [done|]. by exists c'.
Qed.
Lemma shadow_ready_read s d n : shadow_ready s d -> 0 <= n <= zlen d ->
  exists s', c_read n s = (Ok (take (Z.to_nat n) d), s') /\ shadow_ready s' (drop (Z.to_nat n) d).
Proof.
  intros (c & Hs & Hc) Hn. destruct (brotli_ready_read c d n Hc Hn) as (c' & Hl & Hc'). cbn.
  unfold shadow_read, zoom. rewrite Hs. cbn [c_read variant_compressor]. unfold variant_read, on_variant. rewrite Hl.
  eexists. split; [done|]. by exists c'.
Qed.
#[export] Instance shadow_drains : Drainable ShadowCompressor := {|
  ready := shadow_ready;
  ready_version := Some 1;
  law_version := shadow_ready_version;
  law_len := shadow_ready_len;
  law_read := shadow_ready_read;
|}.

(** A Zlib compressor is never read out: [read] leaves its output in place. *)
Lemma zlib_read_keeps n c : zc_compressed (zlib_read n c).2 = zc_compressed (zlib_ensure c) /\
  (zlib_len (zlib_read n c).2).1 = (zlib_len c).1.
Proof. unfold zlib_read, zlib_len, zlib_ensure. cbn. by destruct (zc_dirty c) eqn:E; cbn; rewrite ?E. Qed.
End drain.

(** * What has been written *)

Section writes.
Context `{Compression} (level : BrotliLevel).
Implicit Types s : ShadowCompressor.

(** A Brotli compressor to which [raw] has been written. *)
Record brotli_holds (c : BrotliCompressor) (raw : list Z) : Prop := {
  bh_raw : bc_raw c = raw;
  bh_open : bc_closed c = false;
  bh_level : bc_level c = level;
  bh_cache : if bc_dirty c then bc_compressed c = [] /\ raw <> []
             else if decide (raw = []) then bc_compressed c = [] else brotli_compress raw (level_u32 level) = Some (bc_compressed c);
}.

Record shadow_holds s (raw : list Z) : Prop := {
  sh_main : exists c, sc_compressor s = VBrotli c /\ brotli_holds c raw;
  sh_shadow : exists c, sc_shadow s = VBrotli c /\ bc_closed c = false;
}.

Lemma brotli_holds_new : brotli_holds (new_brotli level) [].
Proof. done. Qed.

Lemma brotli_holds_write c raw data : data <> [] -> brotli_holds c raw ->
  exists c', brotli_write data c = (Ok (zlen data), c') /\ brotli_holds c' (raw ++ data).
Proof.
  intros Hd [Hr Ho Hl Hc]. unfold brotli_write. rewrite Ho. eexists. split; [done|]. split; cbn; [by rewrite Hr|done..|].
  split; [done|]. by destruct raw.
Qed.

(** Asking for the length may run the encoder. *)
Lemma brotli_holds_len c raw : brotli_holds c raw ->
  brotli_holds (brotli_len c).2 raw /\ (raw = [] -> (brotli_len c).1 = 0).
Proof.
  intros [Hr Ho Hl Hc]. unfold brotli_len, brotli_ensure. destruct (bc_dirty c) eqn:Ed; cbn.
  - rewrite Hr, Hl. destruct (brotli_compress raw (level_u32 level)) as [out|] eqn:Eb; cbn.
    + split; [|by intros ->; destruct Hc]. split; cbn; [done..|]. destruct Hc. by rewrite decide_False.
    + split; [|by intros ->; destruct Hc]. split; [done..|]. by rewrite Ed.
  - split; [split; [done..|by rewrite Ed]|]. intros ->. cbn in Hc. by rewrite Hc.
Qed.

Lemma shadow_holds_new cfg : level_of (compression_algo cfg) = level -> compression_algo cfg <> Zlib ->
  shadow_holds (shadow_of cfg) [].
Proof.
  intros Hl Hz. unfold shadow_of, variant_of. destruct (compression_algo cfg) eqn:E; try done;
    (split; eexists; (split; [done|]); [rewrite Hl; apply brotli_holds_new|done]).
Qed.

(** The first part leaves the main compressor with what it held. It refuses data
    only if the compressor is full, or if it holds something and the data exceeds the target. *)
Lemma shadow_admit_outcome s raw data : shadow_holds s raw ->
  let '(r, s') := shadow_admit data s in
  sc_config s' = sc_config s /\ shadow_holds s' raw /\
  match r with
  | Ok _ => sc_is_full s' = true -> zlen data > target_output_size (sc_config s)
  | Err e => e = Full /\ (sc_is_full s = true \/ raw <> [] /\ zlen data > target_output_size (sc_config s))
  end.
Proof.
  intros [(c & Hc & Hm) (sh & Hs & Ho)]. destruct s as [cfg main shadow full bound]. cbn in Hc, Hs. subst main shadow.
  unfold shadow_admit. erewrite bind_run by reflexivity. unfold id. cbn [sc_is_full sc_config].
  destruct full; [split; [done|]; split; [split; by eexists|]; by split; [|left]|]. erewrite bind_run by reflexivity.
  set (sh1 := mkBrotli [] (bc_raw sh ++ data) false true (bc_level sh)).
  rewrite (bind_run _ _ _ (zlen data) (mkShadow cfg (VBrotli c) (VBrotli sh1) false bound))
    by (unfold zoom; cbn; unfold variant_write, on_variant; cbn; unfold brotli_write; by rewrite Ho).
  destruct (zlen data >? target_output_size cfg) eqn:Et; zbool; [|split; [done|]; split; [split; by eexists|done]].
  erewrite bind_run by reflexivity.
  assert (Hsh2 : bc_closed (brotli_len sh1).2 = false).
  { unfold brotli_len, brotli_ensure. cbn. by destruct (brotli_compress _ _). }
  rewrite (bind_run _ _ _ (brotli_len sh1).1 (mkShadow cfg (VBrotli c) (VBrotli (brotli_len sh1).2) false bound))
    by (unfold len_of, zoom; cbn; by destruct (brotli_len sh1)).
  destruct (_ >? _); [|split; [done|]; split; [split; by eexists|done]]. erewrite bind_run by reflexivity.
  destruct (brotli_holds_len c raw Hm) as [Hm2 Hz].
  rewrite (bind_run _ _ _ (brotli_len c).1 (mkShadow cfg (VBrotli (brotli_len c).2) (VBrotli (brotli_len sh1).2) true bound))
    by (unfold len_of, zoom; cbn; by destruct (brotli_len c)).
  destruct ((brotli_len c).1 >? 0) eqn:Ew; zbool; cbn; (split; [done|]; split; [split; by eexists|]).
  - split; [done|]. right. split; [|lia]. intros Hr. specialize (Hz Hr). lia.
  - intros _. lia.
Qed.

Lemma shadow_write_outcome s raw data : data <> [] -> shadow_holds s raw ->
  let '(r, s') := shadow_write data s in
  sc_config s' = sc_config s /\
  match r with
  | Ok n => n = zlen data /\ shadow_holds s' (raw ++ data) /\
      (sc_is_full s' = true -> zlen data > target_output_size (sc_config s))
  | Err e => e = Full /\ shadow_holds s' raw /\
      (sc_is_full s = true \/ raw <> [] /\ zlen data > target_output_size (sc_config s))
  end.
Proof.
  intros Hd Hs. pose proof (shadow_admit_outcome s raw data Hs) as Ha. unfold shadow_write.
  destruct (shadow_admit data s) as [[nb|e] s1] eqn:Er; destruct Ha as (Hcfg & Hs1 & Hr).
  - rewrite (bind_run _ _ _ _ _ Er). erewrite bind_run by reflexivity. destruct Hs1 as [(c & Hc & Hm) Hsh].
    destruct (brotli_holds_write c raw data Hd Hm) as (c' & Hw & Hm'). unfold zoom. cbn. rewrite Hc.
    unfold variant_write, on_variant. cbn [c_write brotli_compressor]. rewrite Hw.
    split; [done|]. split; [done|]. split; [|done]. split; [by exists c'|done].
  - rewrite (bind_run_err _ _ _ _ _ Er). split; [done|]. naive_solver.
Qed.

(** The output of the compressor is the compression of what it holds. *)
Lemma shadow_holds_ready s raw d : shadow_holds s raw -> raw <> [] -> brotli_compress raw (level_u32 level) = Some d ->
  shadow_ready s d.
Proof.
  intros [(c & Hc & [Hr Ho Hl Hk]) _] Hne Hb. exists c. split; [done|]. unfold brotli_ready.
  destruct (bc_dirty c); [by rewrite Hr, Hl|]. rewrite decide_False in Hk by done. congruence.
Qed.
Lemma shadow_holds_empty s : shadow_holds s [] -> shadow_ready s [].
Proof.
  intros [(c & Hc & [Hr Ho Hl Hk]) _]. exists c. split; [done|]. unfold brotli_ready. by destruct (bc_dirty c); [destruct Hk|].
Qed.

Lemma shadow_holds_flush s raw : shadow_holds s raw -> exists s', shadow_flush s = (Ok tt, s') /\ shadow_holds s' raw.
Proof.
  intros [(c & Hc & Hm) (sh & Hs & Ho)]. destruct s as [cfg main shadow full bound]. cbn in Hc, Hs. subst main shadow.
  eexists. split; [done|]. split; by eexists.
Qed.

(** [for data in l { write(data)? }] *)
Definition shadow_write_all (l : list (list Z)) : stm ShadowCompressor CompressorError unit :=
  for_each l (fun data => shadow_write data ;; mret tt).

Lemma small_writes l : forall s raw, shadow_holds s raw -> sc_is_full s = false ->
  Forall (fun data => data <> [] /\ zlen data <= target_output_size (sc_config s)) l ->
  exists s', shadow_write_all l s = (Ok tt, s') /\ shadow_holds s' (raw ++ concat l) /\ sc_is_full s' = false.
Proof.
  unfold shadow_write_all. induction l as [|data l IH]; intros s raw Hs Hf Hl; cbn [for_each concat].
  { exists s. by rewrite app_nil_r. }
  apply Forall_cons in Hl as [[Hne Hsz] Hl]. pose proof (shadow_write_outcome s raw data Hne Hs) as Hw.
  destruct (shadow_write data s) as [[n|e] s1] eqn:Er; destruct Hw as (Hcfg & Hw).
  - destruct Hw as (_ & Hs1 & Hf1). rewrite (bind_run _ _ _ tt s1) by (by rewrite (bind_run _ _ _ _ _ Er)).
    destruct (IH s1 _ Hs1) as (s' & Hr & Hs' & Hf'); [destruct (sc_is_full s1); [lia|done]|by rewrite Hcfg|].
    exists s'. by rewrite app_assoc.
  - destruct Hw as (_ & _ & [Hw|[_ Hw]]); [congruence|lia].
Qed.
End writes.

(** C38: The shadow compressor does not keep its output below the target size. It
    compares each write, not what has been written, with the target; so a compressor that
    is given any number of writes of at most the target size accepts all of them,
    never becomes full, and its output is the compression of everything. *)
Theorem small_writes_never_fill `{Compression} cfg l d :
  compression_algo cfg <> Zlib -> Forall (fun data => data <> [] /\ zlen data <= target_output_size cfg) l -> l <> [] ->
  brotli_compress (concat l) (level_u32 (level_of (compression_algo cfg))) = Some d ->
  exists s, shadow_write_all l (shadow_of cfg) = (Ok tt, s) /\ sc_is_full s = false /\ (get_compressed s).1 = d.
Proof.
  intros Hz Hl Hne Hd. set (level := level_of (compression_algo cfg)) in *.
  destruct (small_writes level l (shadow_of cfg) [] (shadow_holds_new level cfg eq_refl Hz) eq_refl Hl) as (s & Hr & Hs & Hf).
  exists s. split; [done|]. split; [done|]. cbn [app] in Hs.
  assert (Hcat : concat l <> []) by (destruct l as [|[|b data] l]; [done|apply Forall_cons in Hl as [[] _]; done|done]).
  destruct (shadow_holds_ready level s (concat l) d Hs Hcat Hd) as (c & Hc & Hrd).
  destruct (brotli_ensure_ready c d Hrd) as (c' & He & Hc' & _). cbn. unfold shadow_get_compressed. rewrite Hc. cbn.
  unfold brotli_get_compressed. by rewrite He.
Qed.

Module CompressExample.
#[local] Instance copy : Compression := {| brotli_compress raw _ := Some raw; zlib_deflate raw := raw |}.

(** Three writes of two bytes to a compressor with a target of two bytes. *)
Lemma small_writes_never_fill_witness :
  exists s, shadow_write_all [[1; 2]; [3; 4]; [5; 6]] (shadow_of (mkCompConfig 2 (F64.of_u64 1) Shadow Brotli10)) = (Ok tt, s) /\
    sc_is_full s = false /\ (get_compressed s).1 = [1; 2; 3; 4; 5; 6].
Proof. apply small_writes_never_fill; [discriminate|repeat constructor; discriminate|discriminate|reflexivity]. Defined.
End CompressExample.
