(* ===== verification/ChannelOut.v ===== *)
(** Building a channel ([src/crates/batcher/comp/src/channel_out.rs]): batches are
    encoded, wrapped as RLP byte strings and compressed; the output of the compressor
    is cut into frames. The theorem is that the frames of a closed channel are
    the numbered parts of its data. *)

From S2P Require Import Prelude Codec Buffer Frames Rollup Channel Batches SpanTxs SpanBits SpanBatches ChannelReader Compress.

Definition FRAME_V0_OVERHEAD : Z := 23.

Inductive ChannelOutError : Type :=
| ChannelClosedErr
| MaxFrameSizeTooSmall
| MissingData
| CompressionErr (e : CompressorError)
| BatchEncoding
| ExceedsMaxRlpBytesPerChannel.

(** [Batch] on its way out; a span batch carries the fields only the encoder uses. *)
Inductive OutBatch : Type :=
| OutSingle (b : SingleBatch)
| OutSpan (s : SpanBatchCache).

Record ChannelOut (C : Type) : Type := mkChannelOut {
  co_id : list Z;
  co_config : RollupConfig;
  rlp_length : Z;
  co_closed : bool;
  co_frame_number : Z;
  co_compressor : C;
}.
Arguments mkChannelOut {C}.
Arguments co_id {C}.
Arguments co_config {C}.
Arguments rlp_length {C}.
Arguments co_closed {C}.
Arguments co_frame_number {C}.
Arguments co_compressor {C}.

Section batch.
Context `{SpanTxCodecs} `{SingleCodec}.

(** [Batch::encode] and [Batch::timestamp] *)
Definition out_encode (b : OutBatch) : result (fault SpanBatchError) (list Z) :=
  match b with OutSingle b => Ok (single_encode b) | OutSpan s => span_encode s end.
Definition out_timestamp {E} (b : OutBatch) : result (fault E) Z :=
  match b with OutSingle b => Ok (sb_timestamp b) | OutSpan s => starting_timestamp (span s) end.
End batch.

Section channel_out.
Context {C : Type} `{ChannelCompressor C} `{SpanTxCodecs} `{SingleCodec} `{Decompressors}.
Implicit Types o : ChannelOut C.

(** [ChannelOut::new] *)
Definition new_channel_out (id : list Z) (cfg : RollupConfig) (c : C) : ChannelOut C := mkChannelOut id cfg 0 false 0 c.

Definition set_co_compressor (c : C) o : ChannelOut C :=
  mkChannelOut (co_id o) (co_config o) (rlp_length o) (co_closed o) (co_frame_number o) c.
Definition set_rlp_length (n : Z) o : ChannelOut C :=
  mkChannelOut (co_id o) (co_config o) n (co_closed o) (co_frame_number o) (co_compressor o).
Definition set_frame_number (n : Z) o : ChannelOut C :=
  mkChannelOut (co_id o) (co_config o) (rlp_length o) (co_closed o) n (co_compressor o).

(** A call of the compressor. *)
Definition on_compressor {A} (m : stm C CompressorError A) : stm (ChannelOut C) (fault ChannelOutError) A := fun o =>
  match m (co_compressor o) with
  | (Ok a, c) => (Ok a, set_co_compressor c o)
  | (Err e, c) => (Err (Fail (CompressionErr e)), set_co_compressor c o)
  end.

(** [reset]; [id] is what the generator seeded with 43 writes. *)
Definition channel_out_reset (id : list Z) o : ChannelOut C :=
  mkChannelOut id (co_config o) 0 false 0 (c_reset (co_compressor o)).

(** [add_batch] *)
Definition out_add_batch (batch : OutBatch) : stm (ChannelOut C) (fault ChannelOutError) unit :=
  o ← gets id;
  guard_err (co_closed o) (Fail ChannelClosedErr) ;;
  buf ← lift (map_fail (fun _ => BatchEncoding) (out_encode batch));
  let rlp_buf := enc rlp_byte_string buf in
  ts ← lift (out_timestamp batch);
  guard_err (add64 (rlp_length o) (zlen rlp_buf) >? max_rlp_bytes_per_channel (co_config o) ts)
    (Fail ExceedsMaxRlpBytesPerChannel) ;;
  on_compressor (c_write rlp_buf) ;;
  modify (set_rlp_length (add64 (rlp_length o) (zlen rlp_buf))).

Definition input_bytes o : Z := rlp_length o.

(** [ready_bytes] *)
Definition ready_bytes {E} : stm (ChannelOut C) E Z := fun o =>
  let '(n, c) := c_len (co_compressor o) in (Ok n, set_co_compressor c o).

Definition channel_out_flush : stm (ChannelOut C) (fault ChannelOutError) unit := on_compressor c_flush.
Definition channel_out_close o : ChannelOut C :=
  mkChannelOut (co_id o) (co_config o) (rlp_length o) true (co_frame_number o) (co_compressor o).

(** [output_frame]. The bytes of the buffer that [read] does not fill are zero. *)
Definition output_frame (max_size : Z) : stm (ChannelOut C) (fault ChannelOutError) Frame :=
  guard_err (max_size <? FRAME_V0_OVERHEAD) (Fail MaxFrameSizeTooSmall) ;;
  o ← gets id;
  let version_byte := if co_frame_number o =? 0 then channel_version_byte (co_compressor o) else None in
  let prefix_len := zlen (option_list version_byte) in
  available ← ready_bytes;
  let max_size := Z.min (sub64 (sub64 max_size FRAME_V0_OVERHEAD) prefix_len) available in
  buf ← on_compressor (c_read max_size);
  let data := option_list version_byte ++ buf ++ replicate (Z.to_nat (max_size - zlen buf)) 0 in
  left ← ready_bytes;
  let is_last := co_closed o && (left =? 0) in
  let frame := mkFrame (co_id o) (co_frame_number o) data is_last in
  modify (set_frame_number (add16 (co_frame_number o) 1)) ;;
  mret frame.

(** The loop that takes the frames of a channel while bytes are ready, and stops at
    an error. *)
Fixpoint drain_frames {E} (fuel : nat) (max_frame_size : Z) : stm (ChannelOut C) (fault E) (list Frame) := fun o =>
  match fuel with
  | O => (Err OutOfFuel, o)
  | S fuel =>
      let '(n, c) := c_len (co_compressor o) in
      let o := set_co_compressor c o in
      if n >? 0 then
        match output_frame max_frame_size o with
        | (Ok frame, o) =>
            match drain_frames fuel max_frame_size o with
            | (Ok frames, o) => (Ok (frame :: frames), o)
            | (Err e, o) => (Err e, o)
            end
        | (Err (Fail _), o) => (Ok [], o)
        | (Err Panic, o) => (Err Panic, o)
        | (Err OutOfFuel, o) => (Err OutOfFuel, o)
        end
      else (Ok [], o)
  end.
End channel_out.

(** * The frames of a closed channel *)

Section drain.
Context {C : Type} `{Drainable C}.
Implicit Types o : ChannelOut C.

(** A closed channel whose next frame is number [i], with [d] left to read. *)
Record out_at o (cid : list Z) (i : Z) (d : list Z) : Prop := mkOutAt {
  at_id : co_id o = cid;
  at_closed : co_closed o = true;
  at_number : co_frame_number o = i;
  at_ready : ready (co_compressor o) d;
}.

(** What the first frame starts with. *)
Definition frame_prefix (i : Z) : list Z := if i =? 0 then option_list ready_version else [].

Lemma frame_prefix_short i : zlen (frame_prefix i) <= 1.
Proof. unfold frame_prefix, zlen. destruct (i =? 0), ready_version; cbn; lia. Qed.

Lemma ready_bytes_run {E} o cid i d : out_at o cid i d -> exists o', ready_bytes (E := E) o = (Ok (zlen d), o') /\ out_at o' cid i d.
Proof.
  intros [Hi Hc Hn Hr]. unfold ready_bytes. destruct (law_len _ _ Hr) as (c' & -> & Hr'). eexists. split; [done|].
  by split.
Qed.

Lemma output_frame_run o cid i d max n :
  out_at o cid i d -> FRAME_V0_OVERHEAD <= max <= U64_MAX -> fits U64_MAX (zlen d) ->
  n = Z.min (sub64 (max - FRAME_V0_OVERHEAD) (zlen (frame_prefix i))) (zlen d) ->
  exists o', output_frame max o = (Ok (mkFrame cid i (frame_prefix i ++ take (Z.to_nat n) d) (zlen d - n =? 0)), o') /\
    out_at o' cid (add16 i 1) (drop (Z.to_nat n) d).
Proof.
  intros Ho Hmax Hfit Hn. unfold output_frame, guard_err. rewrite (proj2 (Z.ltb_ge _ _)) by lia. erewrite bind_run by reflexivity.
  erewrite bind_run by reflexivity. 
  destruct (ready_bytes_run (E := fault ChannelOutError) o cid i d Ho) as (o1 & Hrun & Ho1). rewrite (bind_run _ _ _ _ _ Hrun).
  destruct Ho as [Hi Hc Hnum Hr]. unfold Datatypes.id. rewrite (law_version _ _ Hr), Hnum, Hc, Hi.
  assert (Hp : option_list (if i =? 0 then ready_version (C := C) else None) = frame_prefix i)
    by (unfold frame_prefix; by destruct (i =? 0)).
  rewrite Hp. replace (sub64 max FRAME_V0_OVERHEAD) with (max - FRAME_V0_OVERHEAD).
  2:{ unfold sub64. rewrite wrap_id; [done|]. unfold fits, FRAME_V0_OVERHEAD in *. lia. }
  rewrite <- Hn. assert (Hb : 0 <= n <= zlen d).
  { subst n. pose proof (fits_wrap U64_MAX (max - FRAME_V0_OVERHEAD - zlen (frame_prefix i)) ltac:(done)) as [? ?].
    unfold sub64. unfold fits in *. lia. }
  destruct Ho1 as [Hi1 Hc1 Hn1 Hr1]. destruct (law_read _ _ n Hr1 Hb) as (c2 & Hread & Hr2).
  rewrite (bind_run _ _ _ (take (Z.to_nat n) d) (set_co_compressor c2 o1)) by (unfold on_compressor; by rewrite Hread).
  assert (Ho2 : out_at (set_co_compressor c2 o1) cid i (drop (Z.to_nat n) d)) by by split.
  destruct (ready_bytes_run (E := fault ChannelOutError) _ _ _ _ Ho2) as (o3 & Hrun3 & Ho3). rewrite (bind_run _ _ _ _ _ Hrun3).
  erewrite bind_run by reflexivity. eexists. split.
  - unfold mret, stm_ret. do 3 f_equal.
    + replace (n - zlen (take (Z.to_nat n) d)) with 0 by (unfold zlen in *; rewrite length_take; lia).
      by rewrite app_nil_r.
    + cbn. f_equal. unfold zlen in *. rewrite length_drop. lia.
  - destruct Ho3 as [? ? ? ?]. split; cbn; done.
Qed.

Section loop.
Context (cid : list Z) (max : Z) (Hmax : FRAME_V0_OVERHEAD < max <= U64_MAX).
Let cap : Z := max - FRAME_V0_OVERHEAD.

(** One round of the loop. *)
Lemma drain_round {E} fuel o i d n : out_at o cid i d -> d <> [] -> fits U64_MAX (zlen d) ->
  n = Z.min (cap - zlen (frame_prefix i)) (zlen d) ->
  exists o', out_at o' cid (add16 i 1) (drop (Z.to_nat n) d) /\
    drain_frames (E := E) (S fuel) max o =
    (let '(r, o'') := drain_frames (E := E) fuel max o' in
     (frames ← r; Ok (mkFrame cid i (frame_prefix i ++ take (Z.to_nat n) d) (zlen d - n =? 0) :: frames), o'')).
Proof using Hmax.
  intros Ho Hd Hfit Hn. pose proof (ready_bytes_run (E := E) _ _ _ _ Ho) as (o1 & Hr & Ho1). unfold ready_bytes in Hr.
  cbn [drain_frames]. destruct (c_len (co_compressor o)) as [m c]. injection Hr as -> Ho'. rewrite Ho'.
  assert (0 < zlen d) by (destruct d; [done|unfold zlen; cbn; lia]). rewrite Z.gtb_ltb, (proj2 (Z.ltb_lt _ _)) by lia.
  pose proof (frame_prefix_short i). pose proof (zlen_nonneg (frame_prefix i)).
  assert (Hs : sub64 (max - FRAME_V0_OVERHEAD) (zlen (frame_prefix i)) = cap - zlen (frame_prefix i)).
  { unfold sub64, cap. apply wrap_id. unfold fits, FRAME_V0_OVERHEAD in *. lia. }
  destruct (output_frame_run o1 cid i d max n Ho1) as (o2 & Hf & Ho2); [lia|done|by rewrite Hs|]. rewrite Hf.
  exists o2. split; [done|]. by destruct (drain_frames fuel max o2) as [[fs|e] o3].
Qed.

Lemma drain_stops {E} fuel o i : out_at o cid i [] -> exists o', drain_frames (E := E) (S fuel) max o = (Ok [], o').
Proof using Type.
  intros Ho. pose proof (ready_bytes_run (E := E) _ _ _ _ Ho) as (o1 & Hr & Ho1). unfold ready_bytes in Hr.
  cbn [drain_frames]. destruct (c_len (co_compressor o)) as [m c]. injection Hr as -> Ho'. rewrite Ho'. by eexists.
Qed.

(** The frames from number [i] on. *)
Definition frames_from (i : Z) (d : list Z) (fs : list Frame) : Prop :=
  concat (frame_data <$> fs) = frame_prefix i ++ d /\
  forall j f, fs !! j = Some f -> frame_id f = cid /\ number f = i + Z.of_nat j /\ is_last f = (S j =? length fs)%nat /\
    zlen (frame_data f) <= cap.

Lemma drain_parts {E} k : forall fuel o i d, out_at o cid i d -> d <> [] -> fits U64_MAX (zlen d) ->
  zlen d + zlen (frame_prefix i) <= Z.of_nat k * cap -> 0 <= i -> i + Z.of_nat k <= U16_MAX + 1 -> (k < fuel)%nat ->
  exists fs o', drain_frames (E := E) fuel max o = (Ok fs, o') /\ fs <> [] /\ (length fs <= k)%nat /\ frames_from i d fs.
Proof using Hmax.
  induction k as [|k IH]; intros fuel o i d Ho Hd Hfit Hk Hi Hik Hfuel.
  { pose proof (zlen_nonneg (frame_prefix i)). destruct d; [done|]. unfold zlen in Hk at 1. cbn in Hk. lia. }
  destruct fuel as [|fuel]; [lia|]. set (n := Z.min (cap - zlen (frame_prefix i)) (zlen d)).
  destruct (drain_round (E := E) fuel o i d n Ho Hd Hfit eq_refl) as (o1 & Ho1 & ->).
  pose proof (frame_prefix_short i). pose proof (zlen_nonneg (frame_prefix i)). pose proof (zlen_nonneg d).
  assert (Hcap : 1 <= cap) by (unfold cap; lia). assert (Hn : 0 <= n <= zlen d) by (unfold n; lia).
  assert (Hlen : zlen (frame_prefix i ++ take (Z.to_nat n) d) <= cap).
  { rewrite zlen_app. unfold zlen at 2. rewrite length_take. unfold n in *. lia. }
  destruct (drop (Z.to_nat n) d) as [|b rest] eqn:Erest.
  - assert (Hnd : n = zlen d) by (apply (f_equal length) in Erest; rewrite length_drop in Erest; cbn in Erest; unfold zlen in *; lia).
    destruct fuel as [|fuel]; [lia|]. destruct (drain_stops (E := E) fuel o1 _ Ho1) as [o2 ->].
    eexists [_], o2. split; [done|]. split; [done|]. split; [cbn; lia|]. split.
    + cbn. rewrite app_nil_r. rewrite <- (take_drop (Z.to_nat n) d) at 2. by rewrite Erest, app_nil_r.
    + intros [|j] f Hf; [|done]. injection Hf as <-. cbn [frame_id number is_last frame_data length].
      split_and!; [done|lia| |done]. rewrite Hnd, Z.sub_diag. done.
  - assert (Hshort : n = cap - zlen (frame_prefix i)).
    { apply (f_equal length) in Erest. rewrite length_drop in Erest. cbn in Erest. unfold n, zlen in *. lia. }
    assert (Hrest : zlen (b :: rest) = zlen d - n) by (rewrite <- Erest; unfold zlen in *; rewrite length_drop; lia).
    assert (Hi1 : add16 i 1 = i + 1 \/ k = 0%nat).
    { destruct k; [by right|]. left. unfold add16. apply wrap_id. unfold fits. lia. }
    assert (Hk0 : k <> 0%nat).
    { intros ->. unfold zlen in Hrest at 1. cbn in Hrest. lia. }
    destruct Hi1 as [Hi1|]; [|done]. rewrite Hi1 in Ho1.
    assert (Hpre : frame_prefix (i + 1) = []) by (unfold frame_prefix; by rewrite (proj2 (Z.eqb_neq _ _)) by lia).
    destruct (IH fuel o1 (i + 1) (b :: rest) Ho1) as (fs & o2 & -> & Hne & Hl & Hcat & Hfs);
      [done|unfold fits in *; rewrite Hrest; lia|rewrite Hpre, Hrest; change (zlen (@nil Z)) with 0; lia|lia|lia|lia|].
    eexists (_ :: fs), o2. split; [done|]. split; [done|]. split; [cbn; lia|]. split.
    + cbn [fmap list_fmap concat frame_data]. rewrite Hcat, Hpre, <- Erest, <- app_assoc. cbn [app]. by rewrite take_drop.
    + intros [|j] f Hf.
      * injection Hf as <-. cbn [frame_id number is_last frame_data length]. split_and!; [done|lia| |done].
        rewrite (proj2 (Z.eqb_neq _ _)) by (rewrite <- Hrest; unfold zlen; cbn; lia). symmetry. apply Nat.eqb_neq.
        destruct fs; [done|]. cbn. lia.
      * destruct (Hfs j f Hf) as (? & Hnum & Hlast & ?). split_and!; [done|lia|by rewrite Hlast|done].
Qed.

(** The loop ends, whatever the number it starts from. A round that reads nothing is
    one for the version byte alone. *)
Lemma drain_ends {E} : forall fuel o i d, out_at o cid i d -> fits U64_MAX (zlen d) -> 0 <= i ->
  2 * zlen d + (if i =? 0 then 1 else 0) < Z.of_nat fuel ->
  exists fs o', drain_frames (E := E) fuel max o = (Ok fs, o').
Proof using Hmax.
  induction fuel as [|fuel IH]; intros o i d Ho Hfit Hi Hfuel.
  { pose proof (zlen_nonneg d). destruct (i =? 0); lia. }
  destruct (decide (d = [])) as [->|Hd]; [destruct (drain_stops (E := E) fuel o i Ho) as [o' ->]; by exists [], o'|].
  destruct (drain_round (E := E) fuel o i d _ Ho Hd Hfit eq_refl) as (o1 & Ho1 & ->).
  set (n := Z.min (cap - zlen (frame_prefix i)) (zlen d)) in *.
  assert (0 < zlen d) by (destruct d; [done|unfold zlen; cbn; lia]). assert (1 <= cap) by (unfold cap; lia).
  pose proof (frame_prefix_short i). pose proof (zlen_nonneg (frame_prefix i)).
  assert (Hrest : zlen (drop (Z.to_nat n) d) = zlen d - n) by (unfold n, zlen in *; rewrite length_drop; lia).
  assert (Hn : if i =? 0 then 0 <= n else 1 <= n).
  { destruct (i =? 0) eqn:Ei; [unfold n; lia|]. unfold n, frame_prefix. rewrite Ei. change (zlen (@nil Z)) with 0. lia. }
  pose proof (fits_wrap U16_MAX (i + 1) ltac:(done)) as Hi1. change (wrap U16_MAX (i + 1)) with (add16 i 1) in Hi1.
  destruct (IH o1 _ _ Ho1) as (fs & o2 & ->); [unfold fits in *; rewrite Hrest; unfold n in *; lia|apply Hi1| |by eexists _, o2].
  rewrite Hrest. destruct (i =? 0) eqn:Ei; zbool; [subst i; change (add16 0 1) with 1; cbn; lia|].
  destruct (_ =? 0); lia.
Qed.
End loop.

(** Fuel for the frames of a channel with [n] bytes. *)
Definition drain_fuel (n : Z) : nat := Z.to_nat (2 * n + 2).

(** A closed channel is cut into frames whatever the frame size is. *)
Lemma drain_total {E} o cid d max : out_at o cid 0 d -> ready_version (C := C) <> None -> fits U64_MAX max -> zlen d <= U64_MAX ->
  exists fs o', drain_frames (E := E) (drain_fuel (zlen d)) max o = (Ok fs, o').
Proof.
  intros Ho Hv Hmax Hd. pose proof (zlen_nonneg d). unfold drain_fuel.
  destruct (decide (FRAME_V0_OVERHEAD < max)) as [Hm|Hm].
  { apply (drain_ends cid max) with (i := 0) (d := d); (done || unfold fits in *; cbn; lia). }
  replace (Z.to_nat (2 * zlen d + 2)) with (S (Z.to_nat (2 * zlen d + 1))) by lia.
  destruct (decide (d = [])) as [->|Hne]; [destruct (drain_stops (E := E) cid max (Z.to_nat (2 * 0 + 1)) o 0 Ho) as [o' He]; by exists [], o'|].
  pose proof (ready_bytes_run (E := E) _ _ _ _ Ho) as (o1 & Hr & Ho1). unfold ready_bytes in Hr.
  cbn [drain_frames]. destruct (c_len (co_compressor o)) as [m c]. injection Hr as -> Ho'. rewrite Ho'.
  destruct (_ >? 0); [|by exists [], o1]. destruct (decide (max < FRAME_V0_OVERHEAD)) as [Hs|Hs].
  { unfold output_frame at 1, guard_err. rewrite (proj2 (Z.ltb_lt _ _)) by lia. by exists [], o1. }
  assert (Hp : zlen (frame_prefix 0) = 1) by (unfold frame_prefix; cbn; by destruct ready_version).
  destruct (output_frame_run o1 cid 0 d max (zlen d) Ho1) as (o2 & -> & Ho2); [unfold fits in *; lia|by split|rewrite Hp|].
  { replace (max - FRAME_V0_OVERHEAD) with 0 by lia. change (sub64 0 1) with U64_MAX. lia. }
  replace (Z.to_nat (zlen d)) with (length d) in Ho2 by (unfold zlen; lia). rewrite drop_all in Ho2.
  replace (Z.to_nat (2 * zlen d + 1)) with (S (Z.to_nat (2 * zlen d))) by lia.
  destruct (drain_stops (E := E) cid max (Z.to_nat (2 * zlen d)) o2 _ Ho2) as [o3 ->]. by eexists _, o3.
Qed.

Lemma zlen_frame_encode f : length (frame_id f) = 16%nat -> zlen (frame_encode f) = FRAME_V0_OVERHEAD + zlen (frame_data f).
Proof. intros Hid. unfold frame_encode. rewrite !zlen_app. unfold zlen. rewrite Hid, !length_be_bytes. cbn. unfold FRAME_V0_OVERHEAD. lia. Qed.

(** The frames of a closed channel are the numbered parts of its version byte and
    compressed data. Each fits the frame size, and the last one is marked. *)
Lemma drain_split {E} o cid d max : out_at o cid 0 d -> d <> [] -> bytes_ok (frame_prefix 0 ++ d) ->
  length cid = 16%nat -> bytes_ok cid -> FRAME_V0_OVERHEAD < max <= FRAME_V0_OVERHEAD + MAX_LEN ->
  zlen d + 1 <= U16_MAX * (max - FRAME_V0_OVERHEAD) ->
  exists fs o', drain_frames (E := E) (drain_fuel (zlen d)) max o = (Ok fs, o') /\ fs <> [] /\
    Z.of_nat (length fs) <= U16_MAX /\ split_channel cid fs /\ concat (frame_data <$> fs) = frame_prefix 0 ++ d /\
    Forall (fun f => zlen (frame_encode f) <= max) fs.
Proof.
  intros Ho Hne Hb Hid Hidb Hmax Hd. pose proof (zlen_nonneg d). pose proof (frame_prefix_short 0). pose proof (zlen_nonneg (frame_prefix 0)).
  set (cap := max - FRAME_V0_OVERHEAD) in *. assert (1 <= cap <= MAX_LEN) by (unfold cap; lia).
  set (k := (zlen d + zlen (frame_prefix 0) + cap - 1) / cap).
  assert (Hk : zlen d + zlen (frame_prefix 0) <= k * cap /\ k * cap < zlen d + zlen (frame_prefix 0) + cap).
  { unfold k. pose proof (Z.div_mod (zlen d + zlen (frame_prefix 0) + cap - 1) cap). pose proof (Z.mod_pos_bound (zlen d + zlen (frame_prefix 0) + cap - 1) cap). lia. }
  assert (Hk0 : 0 <= k <= U16_MAX) by nia. assert (Hkd : k <= zlen d + 1) by nia.
  destruct (drain_parts (E := E) cid max ltac:(unfold U64_MAX, MAX_LEN, FRAME_V0_OVERHEAD in *; lia) (Z.to_nat k) (drain_fuel (zlen d)) o 0 d Ho Hne)
    as (fs & o' & Hr & Hfs & Hlen & Hcat & Hall).
  { unfold fits, U64_MAX, MAX_LEN, U16_MAX in *. nia. } { rewrite Z2Nat.id by lia. fold cap. lia. } { lia. }
  { lia. } { unfold drain_fuel. lia. }
  exists fs, o'. split_and!; [done|done|lia| |done|].
  - intros i f Hf. destruct (Hall i f Hf) as (Hfi & Hn & Hl & Hz). split_and!; [done|lia|done|]. apply lookup_lt_Some in Hf as Hlt.
    assert (bytes_ok (frame_data f)).
    { rewrite <- Hcat, Forall_concat, Forall_fmap, Forall_lookup in Hb. by apply (Hb i). }
    split_and!; try done; [by rewrite Hfi|by rewrite Hfi|unfold fits; lia|fold cap in Hz; lia].
  - apply Forall_lookup. intros i f Hf. destruct (Hall i f Hf) as (Hfi & _ & _ & Hz).
    rewrite zlen_frame_encode by (by rewrite Hfi). unfold cap in *. lia.
Qed.
End drain.
