(* ===== verification/Encoder.v ===== *)
(** The encoder of the batcher ([src/crates/batcher/encoder/src/]: [encoder.rs],
    [channel.rs], [submission.rs], [step.rs], [reorg.rs], [config.rs]) and the
    composer of batches ([src/crates/batcher/comp/src/composer.rs]). The encoder turns
    L2 blocks into frames, hands the frames out as submissions and tracks their
    confirmation on L1. Indices ([usize]) are [nat], sizes and [u64] values are [Z].
    Metrics and log lines are left out. The generator of channel ids is a parameter. *)

From S2P Require Import Prelude Codec Buffer Frames Blobs Rollup Channel Pipeline L1Info Batches SpanTxs SpanBits SpanBatches.
From S2P Require Import ChannelReader Compress ChannelOut.
From Stdlib Require Import SpecFloat.

(** * Composing batches *)

Inductive BatchComposeError : Type := EmptyBlock | NotDepositTx | L1InfoDecode.

(** [BatchComposer::block_to_single_batch] *)
Definition block_to_single_batch (b : BaseBlock) : result (fault BatchComposeError) (SingleBatch * L1BlockInfoTx) :=
  match bb_transactions b with
  | [] => Err (Fail EmptyBlock)
  | tx :: _ =>
      match deposit_input tx with
      | None => Err (Fail NotDepositTx)
      | Some input =>
          l1_info ← map_fail (fun _ => L1InfoDecode) (decode_calldata input);
          let epoch := info_id l1_info in
          let transactions := l2_encoded <$> filter (fun tx => is_deposit_tx tx = false) (bb_transactions b) in
          Ok (mkSingleBatch (bb_parent_hash b) (num epoch) (num_hash epoch) (bb_timestamp b) transactions, l1_info)
      end
  end.

(** * Configuration *)

Inductive BatchType : Type := SingleType | SpanType.
#[export] Instance BatchType_eq_dec : EqDecision BatchType.
Proof. solve_decision. Defined.
Inductive DaType : Type := Blob | Calldata.
#[export] Instance DaType_eq_dec : EqDecision DaType.
Proof. solve_decision. Defined.

Record EncoderConfig : Type := mkEncoderConfig {
  target_frame_size : Z;
  max_frame_size : Z;
  max_channel_duration : Z;
  sub_safety_margin : Z;
  target_num_frames : Z;
  batch_type : BatchType;
  da_type : DaType;
  approx_compr_ratio : spec_float;
  max_l1_tx_size_bytes : option Z;
}.

(** The largest frame of a blob: its data, less the version byte in front. *)
Definition MAX_BLOB_FRAME_SIZE : Z := BLOB_MAX_DATA_SIZE - 1.

(** [EncoderConfig::default]; the ratio is 0.6. *)
Definition default_encoder_config : EncoderConfig :=
  mkEncoderConfig MAX_BLOB_FRAME_SIZE MAX_BLOB_FRAME_SIZE 2 0 1 SingleType Blob
    (S754_finite false 5404319552844595 (-53)) None.

Inductive EncoderConfigError : Type :=
| SafetyMarginTooLarge (margin duration : Z)
| CalldataRequiresSingleFrame (n : Z)
| BlobFrameSizeTooLarge (size max : Z)
| BlobTargetFrameSizeTooLarge (size max : Z)
| InvalidApproxComprRatio (r : spec_float)
| SpanBatchRequiresScheduledFjord (next_l2_timestamp : Z)
| SpanBatchBeforeFjord (next_l2_timestamp fjord_time : Z).

(** [EncoderConfig::validate] *)
Definition validate_config (c : EncoderConfig) : result EncoderConfigError unit :=
  if sub_safety_margin c >=? max_channel_duration c
  then Err (SafetyMarginTooLarge (sub_safety_margin c) (max_channel_duration c))
  else if bool_decide (da_type c = Calldata) && negb (target_num_frames c =? 1)
  then Err (CalldataRequiresSingleFrame (target_num_frames c))
  else if bool_decide (da_type c = Blob) && (max_frame_size c >? MAX_BLOB_FRAME_SIZE)
  then Err (BlobFrameSizeTooLarge (max_frame_size c) MAX_BLOB_FRAME_SIZE)
  else if bool_decide (da_type c = Blob) && (target_frame_size c >? MAX_BLOB_FRAME_SIZE)
  then Err (BlobTargetFrameSizeTooLarge (target_frame_size c) MAX_BLOB_FRAME_SIZE)
  else if F64.le (approx_compr_ratio c) (F64.of_u64 0) || F64.lt (F64.of_u64 1) (approx_compr_ratio c)
  then Err (InvalidApproxComprRatio (approx_compr_ratio c))
  else Ok tt.

(** [EncoderConfig::validate_for_rollup_config] *)
Definition validate_for_rollup_config (c : EncoderConfig) (cfg : RollupConfig) (next_l2_timestamp : Z) :
    result EncoderConfigError unit :=
  _ ← validate_config c;
  if bool_decide (batch_type c = SpanType) && negb (is_fjord_active cfg next_l2_timestamp)
  then match fjord_time (hardforks cfg) with
       | None => Err (SpanBatchRequiresScheduledFjord next_l2_timestamp)
       | Some t => Err (SpanBatchBeforeFjord next_l2_timestamp t)
       end
  else Ok tt.

(** * State *)

(** [SmallRng]: the bytes of the next channel id, and the generator after it. *)
Class ChannelRng (R : Type) := { fill_id : R -> list Z * R }.

Record OpenChannel : Type := mkOpenChannel {
  oc_out : ChannelOut ShadowCompressor;
  oc_block_start : nat;
  oc_opened_at_l1 : Z;
  oc_blocks_added : nat;
  oc_da_backlog_bytes : Z;
}.

Record ReadyChannel : Type := mkReadyChannel {
  rc_id : list Z;
  rc_frames : list Frame;
  rc_cursor : nat;
  rc_block_range : nat * nat;
  rc_encoded_range : nat * nat;
  rc_da_backlog_bytes : Z;
  rc_pending_confirmations : nat;
  rc_confirmed_count : nat;
  rc_first_confirmed : option Z;
  rc_last_confirmed : option Z;
}.

Record PendingRef : Type := mkPendingRef {
  channel_idx : nat;
  frame_start : nat;
  frame_count : nat;
}.

Record BatchSubmission : Type := mkSubmission {
  sub_id : Z;
  sub_channel_id : list Z;
  sub_da_type : DaType;
  sub_frames : list Frame;
}.

(** [FrameEncoder::to_calldata] *)
Definition to_calldata (f : Frame) : list Z := DERIVATION_VERSION_0 :: frame_encode f.

Inductive EncStep : Type := BlockEncoded | ChannelClosed | Idle.
Inductive StepError : Type := CompositionFailed (cursor : nat) (source : BatchComposeError).
Inductive ReorgError : Type := ParentMismatch (expected got : Z).

Record BatchEncoder (R : Type) : Type := mkEncoder {
  be_rollup_config : RollupConfig;
  be_config : EncoderConfig;
  be_l1_head : Z;
  be_blocks : list BaseBlock;
  be_block_cursor : nat;
  be_tip : Z;
  be_current_channel : option OpenChannel;
  be_ready_channels : list ReadyChannel;
  be_pending : gmap Z PendingRef;
  be_next_id : Z;
  be_rng : R;
  be_span_accumulator : list (SingleBatch * Z);
  be_span_raw_bytes : Z;
  be_span_da_backlog_bytes : Z;
  be_span_opened_at_l1 : option Z;
  be_blob_override : bool;
}.
Arguments mkEncoder {R}.
Arguments be_rollup_config {R}.
Arguments be_config {R}.
Arguments be_l1_head {R}.
Arguments be_blocks {R}.
Arguments be_block_cursor {R}.
Arguments be_tip {R}.
Arguments be_current_channel {R}.
Arguments be_ready_channels {R}.
Arguments be_pending {R}.
Arguments be_next_id {R}.
Arguments be_rng {R}.
Arguments be_span_accumulator {R}.
Arguments be_span_raw_bytes {R}.
Arguments be_span_da_backlog_bytes {R}.
Arguments be_span_opened_at_l1 {R}.
Arguments be_blob_override {R}.

Section setters.
Context {R : Type}.
Implicit Types e : BatchEncoder R.
Definition set_l1_head (x : Z) e : BatchEncoder R :=
  mkEncoder (be_rollup_config e) (be_config e) x (be_blocks e) (be_block_cursor e) (be_tip e) (be_current_channel e)
    (be_ready_channels e) (be_pending e) (be_next_id e) (be_rng e) (be_span_accumulator e) (be_span_raw_bytes e)
    (be_span_da_backlog_bytes e) (be_span_opened_at_l1 e) (be_blob_override e).
Definition set_blocks (x : list BaseBlock) e : BatchEncoder R :=
  mkEncoder (be_rollup_config e) (be_config e) (be_l1_head e) x (be_block_cursor e) (be_tip e) (be_current_channel e)
    (be_ready_channels e) (be_pending e) (be_next_id e) (be_rng e) (be_span_accumulator e) (be_span_raw_bytes e)
    (be_span_da_backlog_bytes e) (be_span_opened_at_l1 e) (be_blob_override e).
Definition set_block_cursor (x : nat) e : BatchEncoder R :=
  mkEncoder (be_rollup_config e) (be_config e) (be_l1_head e) (be_blocks e) x (be_tip e) (be_current_channel e)
    (be_ready_channels e) (be_pending e) (be_next_id e) (be_rng e) (be_span_accumulator e) (be_span_raw_bytes e)
    (be_span_da_backlog_bytes e) (be_span_opened_at_l1 e) (be_blob_override e).
Definition set_tip (x : Z) e : BatchEncoder R :=
  mkEncoder (be_rollup_config e) (be_config e) (be_l1_head e) (be_blocks e) (be_block_cursor e) x (be_current_channel
    e) (be_ready_channels e) (be_pending e) (be_next_id e) (be_rng e) (be_span_accumulator e) (be_span_raw_bytes e)
    (be_span_da_backlog_bytes e) (be_span_opened_at_l1 e) (be_blob_override e).
Definition set_current_channel (x : option OpenChannel) e : BatchEncoder R :=
  mkEncoder (be_rollup_config e) (be_config e) (be_l1_head e) (be_blocks e) (be_block_cursor e) (be_tip e) x
    (be_ready_channels e) (be_pending e) (be_next_id e) (be_rng e) (be_span_accumulator e) (be_span_raw_bytes e)
    (be_span_da_backlog_bytes e) (be_span_opened_at_l1 e) (be_blob_override e).
Definition set_ready_channels (x : list ReadyChannel) e : BatchEncoder R :=
  mkEncoder (be_rollup_config e) (be_config e) (be_l1_head e) (be_blocks e) (be_block_cursor e) (be_tip e)
    (be_current_channel e) x (be_pending e) (be_next_id e) (be_rng e) (be_span_accumulator e) (be_span_raw_bytes e)
    (be_span_da_backlog_bytes e) (be_span_opened_at_l1 e) (be_blob_override e).
Definition set_pending (x : gmap Z PendingRef) e : BatchEncoder R :=
  mkEncoder (be_rollup_config e) (be_config e) (be_l1_head e) (be_blocks e) (be_block_cursor e) (be_tip e)
    (be_current_channel e) (be_ready_channels e) x (be_next_id e) (be_rng e) (be_span_accumulator e)
    (be_span_raw_bytes e) (be_span_da_backlog_bytes e) (be_span_opened_at_l1 e) (be_blob_override e).
Definition set_next_id (x : Z) e : BatchEncoder R :=
  mkEncoder (be_rollup_config e) (be_config e) (be_l1_head e) (be_blocks e) (be_block_cursor e) (be_tip e)
    (be_current_channel e) (be_ready_channels e) (be_pending e) x (be_rng e) (be_span_accumulator e)
    (be_span_raw_bytes e) (be_span_da_backlog_bytes e) (be_span_opened_at_l1 e) (be_blob_override e).
Definition set_rng (x : R) e : BatchEncoder R :=
  mkEncoder (be_rollup_config e) (be_config e) (be_l1_head e) (be_blocks e) (be_block_cursor e) (be_tip e)
    (be_current_channel e) (be_ready_channels e) (be_pending e) (be_next_id e) x (be_span_accumulator e)
    (be_span_raw_bytes e) (be_span_da_backlog_bytes e) (be_span_opened_at_l1 e) (be_blob_override e).
Definition set_blob_override (x : bool) e : BatchEncoder R :=
  mkEncoder (be_rollup_config e) (be_config e) (be_l1_head e) (be_blocks e) (be_block_cursor e) (be_tip e)
    (be_current_channel e) (be_ready_channels e) (be_pending e) (be_next_id e) (be_rng e) (be_span_accumulator e)
    (be_span_raw_bytes e) (be_span_da_backlog_bytes e) (be_span_opened_at_l1 e) x.
Definition set_span (acc : list (SingleBatch * Z)) (raw da : Z) (opened : option Z) e : BatchEncoder R :=
  mkEncoder (be_rollup_config e) (be_config e) (be_l1_head e) (be_blocks e) (be_block_cursor e) (be_tip e)
    (be_current_channel e) (be_ready_channels e) (be_pending e) (be_next_id e) (be_rng e) acc raw da opened
    (be_blob_override e).
Definition clear_span e : BatchEncoder R := set_span [] 0 0 None e.
End setters.

(** * Operations *)

Section encoder.
Context {R : Type} `{ChannelRng R} `{Compression} `{SpanTxCodecs} `{SingleCodec} `{Decompressors}.
Implicit Types e : BatchEncoder R.

Abbreviation enc_act := (stm (BatchEncoder R) (fault StepError)).

Definition SPAN_BATCH_PER_BLOCK_OVERHEAD : Z := 50.

(** [BatchEncoder::new]; the generator is seeded by the system. *)
Definition new_encoder (cfg : RollupConfig) (config : EncoderConfig) (rng : R) : BatchEncoder R :=
  mkEncoder cfg config 0 [] 0 0 None [] ∅ 0 rng [] 0 0 None false.

(** [block_da_backlog_bytes] *)
Definition block_da_backlog_bytes (b : BaseBlock) : Z :=
  foldl add64 0 ((fun tx => zlen (l2_encoded tx)) <$> filter (fun tx => is_deposit_tx tx = false) (bb_transactions b)).

(** [open_new_channel] *)
Definition open_new_channel (block_start : nat) e : BatchEncoder R :=
  let '(id, rng) := fill_id (be_rng e) in
  let compressor_config := mkCompConfig (target_frame_size (be_config e)) (approx_compr_ratio (be_config e)) Shadow Brotli10 in
  let channel_out := new_channel_out id (be_rollup_config e) (shadow_of compressor_config) in
  set_current_channel (Some (mkOpenChannel channel_out block_start (be_l1_head e) 0 0)) (set_rng rng e).

(** The span part of [close_current_channel]: the accumulated blocks become one span
    batch in the channel. They stay accumulated if a step fails. *)
Definition flush_span : enc_act unit := fun e =>
  if bool_decide (batch_type (be_config e) = SpanType) && bool_decide (be_span_accumulator e <> []) then
    let cfg := be_rollup_config e in
    match append_all (be_span_accumulator e) (new_span (l2_time (genesis cfg)) (l2_chain_id cfg)) with
    | (Err (Fail _), _) => (Ok tt, e)
    | (Err Panic, _) => (Err Panic, e)
    | (Err OutOfFuel, _) => (Err OutOfFuel, e)
    | (Ok _, span_batch) =>
        let total := length (be_span_accumulator e) in
        let e := match be_current_channel e with
                 | None => open_new_channel (be_block_cursor e - total) e
                 | Some _ => e
                 end in
        match be_current_channel e with
        | None => (Ok tt, e)
        | Some open =>
            match out_add_batch (OutSpan span_batch) (oc_out open) with
            | (Ok _, out) =>
                (Ok tt, clear_span (set_current_channel (Some (mkOpenChannel out (oc_block_start open) (oc_opened_at_l1 open)
                   (oc_blocks_added open + total) (add64 (oc_da_backlog_bytes open) (be_span_da_backlog_bytes e)))) e))
            | (Err (Fail _), _) => (Ok tt, set_current_channel None e)
            | (Err Panic, _) => (Err Panic, e)
            | (Err OutOfFuel, _) => (Err OutOfFuel, e)
            end
        end
    end
  else (Ok tt, e).

(** The rest of [close_current_channel], once a channel has been taken: flush and close
    it, and cut its data into frames. *)
Definition channel_frames (max_frame_size : Z) (out : ChannelOut ShadowCompressor) : result (fault StepError) (list Frame) :=
  let out := channel_out_close (channel_out_flush out).2 in
  let '(n, c) := c_len (co_compressor out) in
  (drain_frames (drain_fuel n) max_frame_size (set_co_compressor c out)).1.

(** [close_current_channel] *)
Definition close_current_channel : enc_act unit :=
  flush_span ;;
  e ← gets id;
  match be_current_channel e return enc_act unit with
  | None => mret tt
  | Some open =>
      modify (set_current_channel None) ;;
      frames ← lift (channel_frames (max_frame_size (be_config e)) (oc_out open));
      let compressed_bytes := foldl add64 0 ((fun f => zlen (frame_data f)) <$> frames) in
      modify (set_ready_channels (be_ready_channels e ++
        [mkReadyChannel (co_id (oc_out open)) frames 0 (0%nat, be_block_cursor e) (oc_block_start open, be_block_cursor e)
           compressed_bytes 0 0 None None]))
  end.

(** [check_channel_timeout] *)
Definition timed_out e : bool :=
  let effective_duration := sat_sub (max_channel_duration (be_config e)) (sub_safety_margin (be_config e)) in
  match be_current_channel e with
  | Some open => sat_sub (be_l1_head e) (oc_opened_at_l1 open) >=? effective_duration
  | None =>
      if bool_decide (batch_type (be_config e) = SpanType) then
        match be_span_opened_at_l1 e with
        | Some opened_at =>
            bool_decide (be_span_accumulator e <> []) && (sat_sub (be_l1_head e) opened_at >=? effective_duration)
        | None => false
        end
      else false
  end.
Definition check_channel_timeout : enc_act bool :=
  should_close ← gets timed_out;
  (if should_close : bool then close_current_channel else mret tt) ;;
  mret should_close.

(** [confirmation_channel_timeout] *)
Definition confirmation_channel_timeout e : Z :=
  let pre := channel_timeout (be_rollup_config e) 0 in
  let post := channel_timeout (be_rollup_config e) U64_MAX in
  if pre =? 0 then post else if post =? 0 then pre else Z.min pre post.

(** [invalidate_ready_channel] *)
Definition invalidate_ready_channel (chan_idx : nat) e : BatchEncoder R :=
  match be_ready_channels e !! chan_idx with
  | None => e
  | Some channel =>
      let replay_from := (rc_encoded_range channel).1 in
      set_block_cursor (Nat.min (be_block_cursor e) replay_from)
        (clear_span (set_current_channel None
          (set_pending (filter (fun p => (channel_idx p.2 < chan_idx)%nat) (be_pending e))
            (set_ready_channels (take chan_idx (be_ready_channels e)) e))))
  end.

(** The predicate of [invalidate_expired_ready_channels]. *)
Definition expired (timeout l1_head : Z) (c : ReadyChannel) : bool :=
  match rc_first_confirmed c with Some first => sat_add U64_MAX first timeout <? l1_head | None => false end.

(** [invalidate_expired_ready_channels] *)
Definition invalidate_expired_ready_channels e : BatchEncoder R :=
  match list_find (fun c => Is_true (expired (confirmation_channel_timeout e) (be_l1_head e) c)) (be_ready_channels e) with
  | None => e
  | Some (chan_idx, _) => invalidate_ready_channel chan_idx e
  end.

(** ** The interface [BatchPipeline] *)

(** [add_block] *)
Definition add_block (b : BaseBlock) : stm (BatchEncoder R) ReorgError unit := fun e =>
  if bool_decide (be_blocks e <> []) && negb (bb_parent_hash b =? be_tip e)
  then (Err (ParentMismatch (be_tip e) (bb_parent_hash b)), e)
  else (Ok tt, set_blocks (be_blocks e ++ [b]) (set_tip (bb_hash b) e)).

(** The span branch of [step] for a composed block. *)
Definition step_span (single : SingleBatch) (l1_info : L1BlockInfoTx) (da : Z) : enc_act EncStep :=
  modify (fun e =>
    let raw := SPAN_BATCH_PER_BLOCK_OVERHEAD + foldl add64 0 (zlen <$> transactions single) in
    set_block_cursor (S (be_block_cursor e))
      (set_span (be_span_accumulator e ++ [(single, info_sequence_number l1_info)]) (add64 (be_span_raw_bytes e) raw)
         (add64 (be_span_da_backlog_bytes e) da)
         (match be_span_opened_at_l1 e with None => Some (be_l1_head e) | Some l => Some l end) e)) ;;
  e ← gets id;
  let compressed_estimate := F64.to_usize (F64.mul (F64.of_u64 (be_span_raw_bytes e)) (approx_compr_ratio (be_config e))) in
  let size_target := sat_mul U64_MAX (target_frame_size (be_config e)) (target_num_frames (be_config e)) in
  if compressed_estimate >=? size_target then close_current_channel ;; mret ChannelClosed else mret BlockEncoded.

(** The single branch of [step]. *)
Definition step_single (single : SingleBatch) (da : Z) : enc_act EncStep :=
  modify (fun e => match be_current_channel e with None => open_new_channel (be_block_cursor e) e | Some _ => e end) ;;
  e ← gets id;
  match be_current_channel e return enc_act EncStep with
  | None => throw Panic
  | Some open =>
      match out_add_batch (OutSingle single) (oc_out open) return enc_act EncStep with
      | (Ok _, out) =>
          modify (fun e => set_block_cursor (S (be_block_cursor e))
            (set_current_channel (Some (mkOpenChannel out (oc_block_start open) (oc_opened_at_l1 open)
               (S (oc_blocks_added open)) (add64 (oc_da_backlog_bytes open) da))) e)) ;;
          mret BlockEncoded
      | (Err (Fail _), out) =>
          modify (set_current_channel (Some (mkOpenChannel out (oc_block_start open) (oc_opened_at_l1 open)
            (oc_blocks_added open) (oc_da_backlog_bytes open)))) ;;
          close_current_channel ;;
          mret ChannelClosed
      | (Err Panic, _) => throw Panic
      | (Err OutOfFuel, _) => throw OutOfFuel
      end
  end.

(** [step] *)
Definition enc_step : enc_act EncStep :=
  closed ← check_channel_timeout;
  if closed : bool then mret ChannelClosed
  else
    e ← gets id;
    match be_blocks e !! be_block_cursor e return enc_act EncStep with
    | None => mret Idle
    | Some block =>
        let da := block_da_backlog_bytes block in
        '(single, l1_info) ← lift (map_fail (CompositionFailed (be_block_cursor e)) (block_to_single_batch block));
        match batch_type (be_config e) with
        | SpanType => step_span single l1_info da
        | SingleType => step_single single da
        end
    end.

(** The loop of [next_submission] that packs frames into a calldata transaction: [n]
    frames of [total] bytes so far. *)
Fixpoint pack_frames (target : Z) (max_size : Z) (frames : list Frame) (total : Z) (n : nat) : nat :=
  match frames with
  | [] => n
  | frame :: frames =>
      if Z.of_nat n >=? target then n
      else
        let frame_size := 24 + zlen (frame_data frame) in
        if (0 <? Z.of_nat n) && (total + frame_size >? max_size) then n
        else pack_frames target max_size frames (total + frame_size) (S n)
  end.

(** How many frames the next submission takes of those that are left. *)
Definition submission_count (config : EncoderConfig) (da : DaType) (left : list Frame) : nat :=
  let most := Nat.max (Z.to_nat (Z.min (zlen left) (target_num_frames config))) 1 in
  match da, max_l1_tx_size_bytes config with
  | Calldata, Some max_size => Nat.max (pack_frames (target_num_frames config) max_size left 0 0) 1
  | _, _ => most
  end.

Definition effective_da_type e : DaType :=
  if be_blob_override e && bool_decide (da_type (be_config e) = Calldata) then Blob else da_type (be_config e).

Definition advance_channel (n : nat) (c : ReadyChannel) : ReadyChannel :=
  mkReadyChannel (rc_id c) (rc_frames c) (rc_cursor c + n) (rc_block_range c) (rc_encoded_range c) (rc_da_backlog_bytes c)
    (S (rc_pending_confirmations c)) (rc_confirmed_count c) (rc_first_confirmed c) (rc_last_confirmed c).

(** [next_submission] *)
Definition next_submission : enc_act (option BatchSubmission) :=
  e ← gets id;
  let da := effective_da_type e in
  match list_find (fun c => (rc_cursor c < length (rc_frames c))%nat) (be_ready_channels e) return enc_act _ with
  | None => mret None
  | Some (chan_idx, channel) =>
      let start := rc_cursor channel in
      let count := submission_count (be_config e) da (drop start (rc_frames channel)) in
      frames ← lift (slice (rc_frames channel) (Z.of_nat start) (Z.of_nat (start + count)));
      let sid := be_next_id e in
      modify (fun e => set_pending (<[sid := mkPendingRef chan_idx start count]> (be_pending e))
        (set_ready_channels (alter (advance_channel count) chan_idx (be_ready_channels e)) (set_next_id (add64 sid 1) e))) ;;
      mret (Some (mkSubmission sid (rc_id channel) da frames))
  end.

(** What [confirm] writes into the channel of the submission. *)
Definition confirm_frames (n : nat) (l1_block : Z) (c : ReadyChannel) : ReadyChannel :=
  mkReadyChannel (rc_id c) (rc_frames c) (rc_cursor c) (rc_block_range c) (rc_encoded_range c) (rc_da_backlog_bytes c)
    (rc_pending_confirmations c - 1) (rc_confirmed_count c + n)
    (Some (match rc_first_confirmed c with Some first => Z.min first l1_block | None => l1_block end))
    (Some (match rc_last_confirmed c with Some last => Z.max last l1_block | None => l1_block end)).

(** The ranges of a channel once [n] blocks have left the front of the queue. *)
Definition shift_ranges (n : nat) (c : ReadyChannel) : ReadyChannel :=
  mkReadyChannel (rc_id c) (rc_frames c) (rc_cursor c) ((rc_block_range c).1, (rc_block_range c).2 - n)%nat
    ((rc_encoded_range c).1 - n, (rc_encoded_range c).2 - n)%nat (rc_da_backlog_bytes c) (rc_pending_confirmations c)
    (rc_confirmed_count c) (rc_first_confirmed c) (rc_last_confirmed c).

Definition shift_ref (chan_idx : nat) (p : PendingRef) : PendingRef :=
  mkPendingRef (if decide (chan_idx < channel_idx p)%nat then channel_idx p - 1 else channel_idx p) (frame_start p) (frame_count p).

(** [blocks.drain(..n)], which panics past the end; the cursor; and the ranges. *)
Definition prune_blocks (n : nat) : enc_act unit := fun e =>
  if decide (n <= length (be_blocks e))%nat
  then (Ok tt, set_ready_channels (shift_ranges n <$> be_ready_channels e)
                 (set_block_cursor (be_block_cursor e - n) (set_blocks (drop n (be_blocks e)) e)))
  else (Err Panic, e).

(** The last part of [confirm]: a channel all of whose frames are confirmed leaves. *)
Definition retire_channel (chan_idx : nat) (channel : ReadyChannel) : enc_act unit :=
  modify (fun e => set_pending (shift_ref chan_idx <$> be_pending e)
    (set_ready_channels (delete chan_idx (be_ready_channels e)) e)) ;;
  let prune_count := (rc_block_range channel).2 in
  if decide (0 < prune_count)%nat then prune_blocks prune_count else mret tt.

(** [confirm] *)
Definition confirm (sid l1_block : Z) : enc_act unit :=
  e ← gets id;
  match be_pending e !! sid return enc_act unit with
  | None => mret tt
  | Some ref =>
      modify (fun e => set_pending (delete sid (be_pending e)) e) ;;
      let chan_idx := channel_idx ref in
      match be_ready_channels e !! chan_idx return enc_act unit with
      | None => mret tt
      | Some c =>
          let channel := confirm_frames (frame_count ref) l1_block c in
          modify (fun e => set_ready_channels (<[chan_idx := channel]> (be_ready_channels e)) e) ;;
          let first := match rc_first_confirmed channel with Some first => first | None => l1_block end in
          let timeout_block := sat_add U64_MAX first (confirmation_channel_timeout e) in
          let timed_out_by_late_confirmation := timeout_block <? l1_block in
          let channel_incomplete := (rc_confirmed_count channel <? length (rc_frames channel))%nat in
          let timed_out_by_l1_head := channel_incomplete && (timeout_block <? be_l1_head e) in
          if timed_out_by_late_confirmation || timed_out_by_l1_head
          then modify (invalidate_ready_channel chan_idx)
          else if (length (rc_frames channel) <=? rc_confirmed_count channel)%nat && (rc_pending_confirmations channel =? 0)%nat
          then retire_channel chan_idx channel
          else mret tt
      end
  end.

(** What [requeue] writes into the channel of the submission. *)
Definition requeue_frames (start : nat) (c : ReadyChannel) : ReadyChannel :=
  mkReadyChannel (rc_id c) (rc_frames c) (if decide (start < rc_cursor c)%nat then start else rc_cursor c) (rc_block_range c)
    (rc_encoded_range c) (rc_da_backlog_bytes c) (rc_pending_confirmations c - 1) (rc_confirmed_count c)
    (rc_first_confirmed c) (rc_last_confirmed c).

(** [requeue] *)
Definition requeue (sid : Z) e : BatchEncoder R :=
  match be_pending e !! sid with
  | None => e
  | Some ref =>
      set_pending (delete sid (be_pending e))
        (set_ready_channels (alter (requeue_frames (frame_start ref)) (channel_idx ref) (be_ready_channels e)) e)
  end.

Definition force_close_channel : enc_act unit := close_current_channel.

(** [advance_l1_head] *)
Definition advance_l1_head (l1_block : Z) : enc_act unit :=
  e ← gets id;
  if l1_block <=? be_l1_head e then mret tt
  else
    modify (set_l1_head l1_block) ;;
    _ ← check_channel_timeout;
    modify invalidate_expired_ready_channels.

(** [reset]; the generator is seeded anew. *)
Definition enc_reset (rng : R) e : BatchEncoder R :=
  mkEncoder (be_rollup_config e) (be_config e) (be_l1_head e) [] 0 0 None [] ∅ (be_next_id e) rng [] 0 0 None (be_blob_override e).

(** [prune_safe]: the leading blocks that are safe and encoded. *)
Fixpoint safe_prefix (safe_l2_number : Z) (bs : list BaseBlock) : nat :=
  match bs with
  | b :: bs => if bb_number b <=? safe_l2_number then S (safe_prefix safe_l2_number bs) else 0
  | [] => 0
  end.
Definition prune_safe (safe_l2_number : Z) : enc_act unit :=
  e ← gets id;
  let prune_count := safe_prefix safe_l2_number (take (be_block_cursor e) (be_blocks e)) in
  if decide (prune_count = 0%nat) then mret tt else prune_blocks prune_count.

(** [da_backlog_bytes] *)
Definition da_backlog_bytes e : Z :=
  let pending_blocks := foldl (sat_add U64_MAX) 0 (block_da_backlog_bytes <$> drop (be_block_cursor e) (be_blocks e)) in
  let open_channel := match be_current_channel e with Some open => oc_da_backlog_bytes open | None => 0 end in
  let ready_channels := foldl (sat_add U64_MAX) 0 (rc_da_backlog_bytes <$> be_ready_channels e) in
  sat_add U64_MAX (sat_add U64_MAX (sat_add U64_MAX pending_blocks (be_span_da_backlog_bytes e)) open_channel) ready_channels.

(** [set_blob_override] *)
Definition set_override (active : bool) e : BatchEncoder R := set_blob_override active e.

(** ** [encode_and_drain] *)

(** The loop over [step], until it is idle. *)
Fixpoint step_until_idle (fuel : nat) : enc_act unit :=
  match fuel with
  | O => throw OutOfFuel
  | S fuel =>
      r ← enc_step;
      match r with
      | Idle => mret tt
      | BlockEncoded | ChannelClosed => step_until_idle fuel
      end
  end.

(** The loop over [next_submission], until there is none. *)
Fixpoint drain_submissions (fuel : nat) : enc_act (list Frame) :=
  match fuel with
  | O => throw OutOfFuel
  | S fuel =>
      sub ← next_submission;
      match sub with
      | None => mret []
      | Some sub => frames ← drain_submissions fuel; mret (sub_frames sub ++ frames)
      end
  end.

Definition encode_and_drain (fuel : nat) : enc_act (list Frame) :=
  step_until_idle fuel ;;
  force_close_channel ;;
  drain_submissions fuel.
End encoder.
