(* ===== verification/EncoderChannels.v ===== *)
(** The channels of the encoder of the batcher: what an open channel holds, how a
    batch is added to it, and how it is closed. The lemmas are shared by the
    invariant of the encoder and by the round trip through derivation. *)

From S2P Require Import Prelude Codec Buffer Frames Blobs Rollup Channel Pipeline L1Info Batches SpanTxs SpanBits SpanBatches.
From S2P Require Import ChannelReader Compress ChannelOut Encoder.

(** What the encoder relies on: an RLP string has a header and is bytes, and the
    output of the Brotli encoder is a [Vec]. *)
Class EncoderLaws `{Compression} `{Decompressors} := {
  law_rlp_nonempty bs : enc rlp_byte_string bs <> [];
  law_rlp_bytes bs : bytes_ok bs -> bytes_ok (enc rlp_byte_string bs);
  law_brotli_fits raw q c : brotli_compress raw q = Some c -> zlen c <= U64_MAX;
}.

Section channel.
Context `{EncoderLaws} `{SpanTxCodecs} `{SingleCodec}.
Implicit Types o : ChannelOut ShadowCompressor.

(** An open channel to whose compressor [raw] has been written. *)
Record out_holds o (raw : list Z) : Prop := {
  oh_open : co_closed o = false;
  oh_number : co_frame_number o = 0;
  oh_shadow : shadow_holds Level10 (co_compressor o) raw;
  oh_full : sc_is_full (co_compressor o) = true -> raw <> [];
}.

(** The bytes a batch adds to a channel. *)
Definition single_rlp (b : SingleBatch) : list Z := enc rlp_byte_string (single_encode b).

Lemma out_holds_new cid cfg target ratio :
  out_holds (new_channel_out cid cfg (shadow_of (mkCompConfig target ratio Shadow Brotli10))) [].
Proof. split; [done..| |done]. by apply shadow_holds_new. Qed.

Lemma add_single_outcome o raw b : out_holds o raw ->
  let '(r, o') := out_add_batch (OutSingle b) o in
  co_id o' = co_id o /\ co_config o' = co_config o /\
  match r with
  | Ok _ => out_holds o' (raw ++ single_rlp b) /\ rlp_length o' = add64 (rlp_length o) (zlen (single_rlp b)) /\
      rlp_length o' <= max_rlp_bytes_per_channel (co_config o) (sb_timestamp b)
  | Err (Fail _) => out_holds o' raw /\ rlp_length o' = rlp_length o /\
      (raw = [] -> max_rlp_bytes_per_channel (co_config o) (sb_timestamp b) < add64 (rlp_length o) (zlen (single_rlp b)))
  | Err _ => False
  end.
Proof.
  intros [Hc Hn Hs Hf]. unfold out_add_batch. erewrite bind_run by reflexivity. unfold id, guard_err. rewrite Hc.
  erewrite bind_run by reflexivity. erewrite bind_run by reflexivity. erewrite bind_run by reflexivity.
  cbn [out_encode out_timestamp map_fail]. fold (single_rlp b).
  destruct (_ >? _) eqn:Eg; zbool; [unfold mbind, stm_bind, throw; split_and!; [done..| |done|intros _; lia]; by split|].
  erewrite bind_run by reflexivity. unfold on_compressor.
  assert (Hne : single_rlp b <> []) by apply law_rlp_nonempty.
  pose proof (shadow_write_outcome Level10 (co_compressor o) raw (single_rlp b) Hne Hs) as Hw. unfold mbind, stm_bind.
  cbn [c_write shadow_compressor]. destruct (shadow_write (single_rlp b) (co_compressor o)) as [[n|e] c']; destruct Hw as [Hcfg Hw].
  - destruct Hw as (_ & Hs' & _). cbn. split_and!; [done..| |done|lia]. split; [done..|]. intros _. by destruct raw.
  - destruct Hw as (-> & Hs' & Hr). assert (raw <> []) by (destruct Hr as [Hr|[Hr _]]; [by apply Hf|done]).
    cbn. split_and!; [done..| |done|done]. by split.
Qed.

(** The bytes left to read of a channel that holds [raw]. *)
Lemma holds_ready s raw : shadow_holds Level10 s raw ->
  exists d, shadow_ready s d /\ zlen d <= U64_MAX /\
    (raw <> [] -> brotli_compress raw 10 = Some d) \/ (raw <> [] /\ brotli_compress raw 10 = None).
Proof.
  intros Hs. destruct (decide (raw = [])) as [->|Hne].
  - exists []. left. split; [by apply (shadow_holds_empty Level10)|]. split; [done|done].
  - destruct (brotli_compress raw 10) as [d|] eqn:Eb; [|exists []; by right].
    exists d. left. split; [by eapply shadow_holds_ready|]. split; [by eapply law_brotli_fits|done].
Qed.

(** If the encoder fails the compressor has nothing to read. *)
Lemma holds_failed s raw : shadow_holds Level10 s raw -> raw <> [] -> brotli_compress raw 10 = None ->
  c_len s = (0, s).
Proof.
  intros [(c & Hc & [Hr Ho Hl Hk]) _] Hne Hb. cbn. unfold shadow_len. rewrite Hc. cbn. unfold brotli_len, brotli_ensure.
  destruct (bc_dirty c) eqn:Ed; [|rewrite decide_False in Hk by done; change (level_u32 Level10) with 10 in Hk; congruence].
  rewrite Hr, Hl. change (level_u32 Level10) with 10. rewrite Hb. cbn. destruct Hk as [-> _]. rewrite <- Hc. by destruct s.
Qed.

(** A channel that holds [raw], flushed and closed. *)
Lemma closed_holds o raw : out_holds o raw ->
  shadow_holds Level10 (co_compressor (channel_out_close (channel_out_flush o).2)) raw /\
  co_id (channel_out_close (channel_out_flush o).2) = co_id o /\
  co_frame_number (channel_out_close (channel_out_flush o).2) = 0.
Proof.
  intros [Hc Hn Hs _]. unfold channel_out_flush, on_compressor.
  destruct (shadow_holds_flush Level10 _ _ Hs) as (s' & Hf & Hs'). cbn [c_flush shadow_compressor]. rewrite Hf. done.
Qed.

(** Closing a channel gives its frames, for any frame size. *)
Lemma channel_frames_total o raw max : out_holds o raw -> fits U64_MAX max -> exists fs, channel_frames max o = Ok fs.
Proof.
  intros Ho Hmax. destruct (closed_holds o raw Ho) as (Hs & Hid & Hn). unfold channel_frames.
  set (o1 := channel_out_close (channel_out_flush o).2) in *. destruct (holds_ready _ _ Hs) as (d & [(Hr & Hd & _)|[Hne Hb]]).
  - destruct (shadow_ready_len _ _ Hr) as (c & -> & Hr').
    assert (Hat : out_at (set_co_compressor c o1) (co_id o) 0 d) by by split.
    destruct (drain_total (E := StepError) _ _ _ max Hat) as (fs & o' & ->); try done. by exists fs.
  - rewrite (holds_failed _ _ Hs Hne Hb). exists []. change (drain_fuel 0) with 2%nat. cbn [drain_frames].
    cbn [co_compressor set_co_compressor]. by rewrite (holds_failed _ _ Hs Hne Hb).
Qed.

(** Closing a channel whose data the Brotli encoder compresses to [d]: its frames are
    the numbered parts of the version byte and [d]. *)
Lemma channel_frames_split o raw d max : out_holds o raw -> raw <> [] -> brotli_compress raw 10 = Some d -> d <> [] ->
  bytes_ok d -> length (co_id o) = 16%nat -> bytes_ok (co_id o) -> FRAME_V0_OVERHEAD < max <= FRAME_V0_OVERHEAD + MAX_LEN ->
  zlen d + 1 <= U16_MAX * (max - FRAME_V0_OVERHEAD) ->
  exists fs, channel_frames max o = Ok fs /\ fs <> [] /\ Z.of_nat (length fs) <= U16_MAX /\ split_channel (co_id o) fs /\
    concat (frame_data <$> fs) = CHANNEL_VERSION_BROTLI :: d /\ Forall (fun f => zlen (frame_encode f) <= max) fs.
Proof.
  intros Ho Hne Hb Hd Hbytes Hid Hidb Hmax Hlen. destruct (closed_holds o raw Ho) as (Hs & Hi & Hn). unfold channel_frames.
  set (o1 := channel_out_close (channel_out_flush o).2) in *.
  assert (Hr : shadow_ready (co_compressor o1) d) by (by eapply shadow_holds_ready).
  destruct (shadow_ready_len _ _ Hr) as (c & -> & Hr').
  assert (Hat : out_at (set_co_compressor c o1) (co_id o) 0 d) by by split.
  destruct (drain_split (E := StepError) _ _ _ max Hat) as (fs & o' & -> & Hfs); try done.
  - apply Forall_app. split; [by_eval|done].
  - by exists fs.
Qed.
End channel.

(** * Submissions *)

Section submissions.
Context {R : Type}.
Implicit Types e : BatchEncoder R.

Lemma pack_frames_bound target max_size frames : forall total n,
  (n <= pack_frames target max_size frames total n <= n + length frames)%nat.
Proof.
  induction frames as [|f frames IH]; intros total n; cbn [pack_frames length]; [lia|].
  destruct (_ >=? _); [lia|]. destruct (_ && _); [lia|]. specialize (IH (total + (24 + zlen (frame_data f))) (S n)). lia.
Qed.

(** A submission takes at least one frame, and no more than there are. *)
Lemma submission_count_bound config da left : left <> [] -> (1 <= submission_count config da left <= length left)%nat.
Proof.
  intros Hl. assert (1 <= length left)%nat by (destruct left; [done|cbn; lia]). unfold submission_count.
  assert (1 <= Nat.max (Z.to_nat (Z.min (zlen left) (target_num_frames config))) 1 <= length left)%nat by (unfold zlen; lia).
  destruct da; [done|]. destruct (max_l1_tx_size_bytes config) as [m|]; [|done].
  pose proof (pack_frames_bound (target_num_frames config) m left 0 0). lia.
Qed.

Definition cursor_ok (c : ReadyChannel) : Prop := (rc_cursor c <= length (rc_frames c))%nat.
Definition channel_left (c : ReadyChannel) : list Frame := drop (rc_cursor c) (rc_frames c).
(** The frames not yet handed out, in order. *)
Definition frames_left (cs : list ReadyChannel) : list Frame := concat (channel_left <$> cs).

Lemma frames_left_app cs ds : frames_left (cs ++ ds) = frames_left cs ++ frames_left ds.
Proof. unfold frames_left. by rewrite fmap_app, concat_app. Qed.
Lemma frames_left_done cs : Forall (fun c => ~ (rc_cursor c < length (rc_frames c))%nat) cs -> frames_left cs = [].
Proof.
  induction 1 as [|c cs Hc _ IH]; [done|]. unfold frames_left in *. cbn. rewrite IH, app_nil_r. unfold channel_left.
  apply drop_ge. lia.
Qed.

Lemma alter_middle {A} (f : A -> A) pre c post : alter f (length pre) (pre ++ c :: post) = pre ++ f c :: post.
Proof. induction pre as [|x pre IH]; [done|]. cbn. by f_equal. Qed.

Lemma frames_left_alter f i cs : (forall c, channel_left (f c) = channel_left c) -> frames_left (alter f i cs) = frames_left cs.
Proof.
  intros Hf. unfold frames_left. revert i. induction cs as [|c cs IH]; intros [|i]; cbn; [done|done|by rewrite Hf|]. f_equal. apply IH.
Qed.

(** [next_submission] hands out the first frames that are left. *)
Lemma next_submission_run e : Forall cursor_ok (be_ready_channels e) ->
  (next_submission e = (Ok None, e) /\ frames_left (be_ready_channels e) = []) \/
  exists pre c post n fs sid,
    be_ready_channels e = pre ++ c :: post /\ n = submission_count (be_config e) (effective_da_type e) (channel_left c) /\
    (1 <= n)%nat /\ (rc_cursor c + n <= length (rc_frames c))%nat /\
    fs = take n (channel_left c) /\ frames_left pre = [] /\ sid = be_next_id e /\
    next_submission e = (Ok (Some (mkSubmission sid (rc_id c) (effective_da_type e) fs)),
      set_pending (<[sid := mkPendingRef (length pre) (rc_cursor c) n]> (be_pending e))
        (set_ready_channels (pre ++ advance_channel n c :: post) (set_next_id (add64 sid 1) e))).
Proof.
  intros Hok. unfold next_submission. erewrite bind_run by reflexivity. cbv beta. change (id e) with e.
  destruct (list_find _ (be_ready_channels e)) as [[i c]|] eqn:Ef.
  - right. apply list_find_Some in Ef as (Hi & Hlt & Hfirst). pose proof (take_drop_middle _ _ _ Hi) as Hsplit.
    set (pre := take i (be_ready_channels e)) in *. set (post := drop (S i) (be_ready_channels e)) in *.
    assert (Hpre : length pre = i) by (unfold pre; rewrite length_take; apply lookup_lt_Some in Hi; lia).
    set (n := submission_count (be_config e) (effective_da_type e) (drop (rc_cursor c) (rc_frames c))).
    assert (Hn : (1 <= n <= length (drop (rc_cursor c) (rc_frames c)))%nat).
    { apply submission_count_bound. intros Hnil. apply (f_equal length) in Hnil. rewrite length_drop in Hnil. cbn in Hnil. lia. }
    rewrite length_drop in Hn. exists pre, c, post, n, (take n (channel_left c)), (be_next_id e).
    split_and!; [by rewrite Hsplit|done|lia|lia|done| |done|].
    + apply frames_left_done. apply Forall_lookup. intros j d Hj. apply lookup_lt_Some in Hj as Hlt'. unfold pre in Hj.
      apply (Hfirst j d); [by rewrite lookup_take_lt in Hj by lia|lia].
    + assert (Halt : alter (advance_channel n) i (be_ready_channels e) = pre ++ advance_channel n c :: post)
        by (rewrite <- Hsplit, <- Hpre; apply alter_middle).
      assert (Hsl : slice (E := StepError) (rc_frames c) (Z.of_nat (rc_cursor c)) (Z.of_nat (rc_cursor c + n)) =
        Ok (take n (channel_left c))).
      { unfold slice, zlen. guard_true. unfold channel_left. rewrite Nat2Z.id. do 2 f_equal. lia. }
      rewrite Hsl. unfold lift. erewrite bind_run by reflexivity. erewrite bind_run by reflexivity.
      rewrite Halt. by rewrite Hpre.
  - left. split; [done|]. apply frames_left_done. exact (proj1 (list_find_None _ _) Ef).
Qed.

Lemma frames_left_advance pre c post n : (rc_cursor c + n <= length (rc_frames c))%nat -> frames_left pre = [] ->
  frames_left (pre ++ c :: post) = take n (channel_left c) ++ frames_left (pre ++ advance_channel n c :: post).
Proof.
  intros Hn Hp. rewrite !frames_left_app, Hp. unfold frames_left. cbn. unfold channel_left. cbn.
  by rewrite app_assoc, <- drop_drop, take_drop.
Qed.

(** A submission that comes back at once. *)
Lemma requeue_advance n c : (1 <= n)%nat -> requeue_frames (rc_cursor c) (advance_channel n c) = c.
Proof. intros Hn. destruct c. unfold requeue_frames, advance_channel. cbn. rewrite decide_True by lia. by rewrite Nat.sub_0_r. Qed.
Lemma requeue_return pre c post n start : (1 <= n)%nat -> start = rc_cursor c ->
  alter (requeue_frames start) (length pre) (pre ++ advance_channel n c :: post) = pre ++ c :: post.
Proof.
  intros Hn ->. by rewrite alter_middle, requeue_advance.
Qed.

(** Handing out everything. *)
Lemma drain_submissions_run : forall fuel e, Forall cursor_ok (be_ready_channels e) ->
  (length (frames_left (be_ready_channels e)) < fuel)%nat ->
  exists e', drain_submissions fuel e = (Ok (frames_left (be_ready_channels e)), e').
Proof.
  induction fuel as [|fuel IH]; intros e Hok Hfuel; [lia|]. cbn [drain_submissions].
  destruct (next_submission_run e Hok) as [[Hn ->]|(pre & c & post & n & fs & sid & Hr & _ & Hn & Hc & -> & Hp & -> & Hrun)].
  - rewrite (bind_run _ _ _ _ _ Hn). by exists e.
  - rewrite (bind_run _ _ _ _ _ Hrun). rewrite Hr in Hok, Hfuel |- *. rewrite (frames_left_advance pre c post n) in Hfuel |- * by done.
    assert (1 <= length (take n (channel_left c)))%nat.
    { unfold channel_left. rewrite length_take, length_drop. lia. }
    set (e1 := set_pending _ _). destruct (IH e1) as [e2 Hrun2].
    + subst e1. cbn. apply Forall_app in Hok as [Hpre [_ Hpost]%Forall_cons]. apply Forall_app. split; [done|].
      constructor; [|done]. unfold cursor_ok. cbn. lia.
    + subst e1. cbn [be_ready_channels set_pending set_ready_channels set_next_id]. rewrite length_app in Hfuel. lia.
    + rewrite (bind_run _ _ _ _ _ Hrun2). by exists e2.
Qed.
End submissions.

(** * Concrete codecs *)

Module BatcherExample.
#[export] Existing Instance SpanExample.codecs.

(** Byte strings with a mark before every byte and one at the end. *)
Definition esc (bs : list Z) : list Z := concat ((fun b => [1; b]) <$> bs) ++ [0].
Fixpoint unesc (r : list Z) : option (list Z * list Z) :=
  match r with
  | m :: r =>
      if m =? 0 then Some ([], r)
      else match r with
           | b :: r => '(bs, rest) ← unesc r; Some (b :: bs, rest)
           | [] => None
           end
  | [] => None
  end.

Lemma unesc_esc bs rest : unesc (esc bs ++ rest) = Some (bs, rest).
Proof. unfold esc. induction bs as [|b bs IH]; [done|]. cbn. cbn in IH. by rewrite IH. Qed.
Lemma esc_bytes bs : bytes_ok bs -> bytes_ok (esc bs).
Proof.
  intros Hb. apply Forall_app. split; [|by_eval]. apply Forall_concat, Forall_fmap. eapply Forall_impl; [exact Hb|].
  intros b Hb'. constructor; [by_eval|]. by constructor.
Qed.
Lemma unesc_suffix n : forall r bs rest, (length r < n)%nat -> unesc r = Some (bs, rest) -> bytes_ok r -> bytes_ok bs /\ rest `suffix_of` r.
Proof.
  induction n as [|n IH]; intros r bs rest Hn Hu Hr; [lia|]. destruct r as [|m [|b r]]; [done|cbn in Hu|cbn in Hu];
    apply Forall_cons in Hr as [_ Hr]; destruct (m =? 0).
  - injection Hu as <- <-. split; [constructor|]. by exists [m].
  - done.
  - injection Hu as <- <-. split; [constructor|]. by exists [m].
  - destruct (unesc r) as [[bs' rest']|] eqn:Eu; [|done]. injection Hu as <- <-. apply Forall_cons in Hr as [Hb Hr].
    destruct (IH r bs' rest' ltac:(cbn in Hn; lia) Eu Hr) as [Hbs [k ->]]. split; [by constructor|]. by exists (m :: b :: k).
Qed.
Definition byte_strings : codec (list Z) := mkCodec esc (fun bs => zlen (esc bs)) unesc.

(** An encoder that writes a header byte and the data, and its decoder. *)
#[export] Instance encoders : Compression := {|
  brotli_compress raw _ := if zlen raw <? U64_MAX then Some (6 :: raw) else None;
  zlib_deflate r := r;
|}.
#[export] Instance batcher_decoders : Decompressors := {|
  brotli_state := option (list Z);
  brotli_init := None;
  brotli_stream st input available :=
    let rem := match st with None => drop 1 input | Some rem => rem end in
    let out := (fun b => b mod 256) <$> take (Z.to_nat available) rem in
    if zlen rem <=? available then (ResultSuccess, out, [], Some [])
    else (NeedsMoreOutput, out, [], Some (drop (Z.to_nat available) rem));
  zlib_inflate _ _ := Ok [];
  rlp_byte_string := byte_strings;
|}.

#[export] Instance encoder_laws : EncoderLaws.
Proof.
  split.
  - intros bs. cbn. unfold esc. by destruct (concat _).
  - apply esc_bytes.
  - intros raw q c. cbn. destruct (Z.ltb_spec (zlen raw) U64_MAX); intros [= <-]. unfold zlen in *. cbn [length]. lia.
Qed.
#[export] Instance batcher_decoder_laws : DecompressorLaws.
Proof.
  split.
  - intros st input available st' res out rest Hs Ha. cbn in Hs.
    assert (Hout : forall l, bytes_ok ((fun b => b mod 256) <$> l)).
    { intros l. apply Forall_fmap, Forall_true. intros b. cbn. unfold byte_ok. apply Z.mod_pos_bound. lia. }
    set (rem := match st with None => drop 1 input | Some rem => rem end) in Hs.
    assert (out = (fun b => b mod 256) <$> take (Z.to_nat available) rem) as ->
      by (destruct (_ <=? _) in Hs; congruence).
    split; [apply Hout|]. unfold zlen. rewrite length_fmap, length_take. lia.
  - intros data max Hm. cbn. by split; [constructor|].
  - intros bs Hb. split; [done|]. intros rest. apply unesc_esc.
  - done.
  - intros r bs rest Hd Hr. exact (unesc_suffix (S (length r)) r bs rest (Nat.lt_succ_diag_r _) Hd Hr).
Qed.

(** Single batches: numbers at their width, then the transactions. *)
Definition enc_txs (txs : list (list Z)) : list Z := concat ((fun tx => 1 :: esc tx) <$> txs) ++ [0].
Fixpoint dec_txs (fuel : nat) (r : list Z) : option (list (list Z) * list Z) :=
  match fuel, r with
  | S fuel, m :: r =>
      if m =? 0 then Some ([], r)
      else '(tx, r) ← unesc r; '(txs, r) ← dec_txs fuel r; Some (tx :: txs, r)
  | _, _ => None
  end.
Definition enc_single (b : SingleBatch) : list Z :=
  be_bytes 32 (sb_parent_hash b) ++ be_bytes 8 (epoch_num b) ++ be_bytes 32 (epoch_hash b) ++ be_bytes 8 (sb_timestamp b) ++
  enc_txs (transactions b).
Definition dec_single (r : list Z) : option (SingleBatch * list Z) :=
  let num n k := be_val (take n (drop k r)) in
  '(txs, rest) ← dec_txs (length r) (drop 80 r);
  Some (mkSingleBatch (num 32 0)%nat (num 8 32)%nat (num 32 40)%nat (num 8 72)%nat txs, rest).
#[export] Instance singles : SingleCodec := {| single_codec := mkCodec enc_single (fun b => zlen (enc_single b)) dec_single |}.

(** Channel ids: the bytes of a counter. *)
#[export] Instance counter : ChannelRng Z := {| fill_id r := (be_bytes 16 r, r + 1) |}.
End BatcherExample.
