(* ===== verification/EncodeDerive.v ===== *)
(** Encoding and derivation: the frames the encoder of the batcher makes of L2 blocks,
    posted on L1, are derived as the batches of these blocks. *)

From S2P Require Import Prelude Codec Buffer Frames Blobs BlobCodec Rollup SystemConfig Channel Pipeline L1Info Batches SpanTxs.
From S2P Require Import SpanBits SpanBatches BatchStages BatchSafety BlobSource DataSource FrameQueue Traversal ChannelStages Derivation.
From S2P Require Import ChannelReader Compress ChannelOut Encoder EncoderChannels.

(** * Compression and decompression *)

(** The Brotli decoder undoes the encoder: [brotli_pending st input rem] says that the
    decoder in state [st], given [input], has [rem] still to write. A call writes all of
    it, or as much as there is room for and asks for more room. *)
Class BrotliRoundtrip `{Compression} `{Decompressors} := {
  brotli_pending : brotli_state -> list Z -> list Z -> Prop;
  law_brotli_start raw q c : bytes_ok raw -> brotli_compress raw q = Some c -> brotli_pending brotli_init c raw;
  law_brotli_call st input rem available : brotli_pending st input rem -> 0 <= available ->
    (exists st' rest, brotli_stream st input available = (ResultSuccess, rem, rest, st') /\ zlen rem <= available) \/
    (exists st' rest, brotli_stream st input available = (NeedsMoreOutput, take (Z.to_nat available) rem, rest, st') /\
       available <= zlen rem /\ brotli_pending st' rest (drop (Z.to_nat available) rem));
  law_brotli_ok raw q : bytes_ok raw -> zlen raw <= MAX_RLP_BYTES_PER_CHANNEL_FJORD ->
    exists c, brotli_compress raw q = Some c /\ c <> [] /\ bytes_ok c;
}.

Section brotli.
Context `{BrotliRoundtrip}.

Lemma brotli_loop_pending max k : forall fuel st input output rem len,
  brotli_pending st input rem -> output ++ rem <> [] -> zlen (output ++ rem) <= max -> zlen output <= len -> 1 <= len <= max ->
  max <= 2 ^ Z.of_nat k * len -> (k < fuel)%nat ->
  brotli_loop max fuel st input output (len - zlen output) len = Ok (output ++ rem).
Proof.
  induction k as [|k IH]; intros fuel st input output rem len Hp Hne Hmax Hout Hlen Hk Hfuel;
    (destruct fuel as [|fuel]; [lia|]); cbn [brotli_loop];
    (destruct (law_brotli_call _ _ _ (len - zlen output) Hp ltac:(lia)) as [(st' & rest & -> & Hz)|(st' & rest & -> & Hz & Hp')];
     [rewrite (proj2 (Z.eqb_neq _ _)); [done|destruct (output ++ rem); [done|unfold zlen; cbn; lia]]|]);
    rewrite zlen_app in Hmax; rewrite Z.geb_leb.
  - change (Z.of_nat 0) with 0 in Hk. rewrite Z.pow_0_r in Hk. rewrite (proj2 (Z.leb_le _ _)) by lia.
    rewrite take_ge; [done|]. unfold zlen in *. lia.
  - destruct (Z.leb_spec max len); [rewrite take_ge; [done|]; unfold zlen in *; lia|].
    rewrite Nat2Z.inj_succ, Z.pow_succ_r in Hk by lia. set (new := Z.min (Z.max (len * 2) 1) max).
    assert (Hnew : len < new <= max /\ max <= 2 ^ Z.of_nat k * new).
    { assert (1 <= 2 ^ Z.of_nat k) by (pose proof (Z.pow_pos_nonneg 2 (Z.of_nat k)); lia).
      unfold new. destruct (Z.min_spec (Z.max (len * 2) 1) max) as [[? ->]|[? ->]]; nia. }
    set (w := take (Z.to_nat (len - zlen output)) rem) in *.
    assert (Hw : zlen w = len - zlen output) by (unfold w, zlen in *; rewrite length_take; lia).
    replace (len - zlen output - zlen w + (new - len)) with (new - zlen (output ++ w)) by (rewrite zlen_app; lia).
    rewrite <- (take_drop (Z.to_nat (len - zlen output)) rem), app_assoc. fold w.
    rewrite <- (take_drop (Z.to_nat (len - zlen output)) rem) in Hne, Hmax. fold w in Hne, Hmax. rewrite app_assoc in Hne.
    rewrite zlen_app in Hmax. apply IH; try done; rewrite ?zlen_app; lia.
Qed.

(** [Brotli::decompress] undoes the encoder, within its limit. *)
Lemma brotli_decompress_compress raw q c : brotli_compress raw q = Some c -> raw <> [] -> bytes_ok raw ->
  zlen raw <= MAX_RLP_BYTES_PER_CHANNEL_FJORD -> brotli_decompress c MAX_RLP_BYTES_PER_CHANNEL_FJORD = Ok raw.
Proof.
  intros Hc Hraw Hb Hmax. unfold brotli_decompress, BROTLI_FUEL. set (max := MAX_RLP_BYTES_PER_CHANNEL_FJORD) in *.
  destruct (law_brotli_ok raw q Hb Hmax) as (c' & Hc' & Hne & _). assert (1 <= max <= U64_MAX) by by vm_compute.
  assert (c' = c) as -> by congruence. assert (1 <= zlen c) by (destruct c; [done|unfold zlen; cbn; lia]).
  assert (1 <= zlen raw) by (destruct raw; [done|unfold zlen; cbn; lia]).
  set (len := Z.min (zlen c) max). replace len with (len - zlen (@nil Z)) at 1 by (unfold zlen; cbn; lia).
  apply (brotli_loop_pending max 64 66 brotli_init c [] raw len); try done; unfold len, zlen in *; cbn [app length]; try lia.
  - by eapply law_brotli_start.
  - unfold U64_MAX in *. lia.
Qed.
End brotli.

(** * A channel of single batches *)

Record single_ok (b : SingleBatch) : Prop := {
  sok_parent : fits U256_MAX (sb_parent_hash b);
  sok_epoch : fits U64_MAX (epoch_num b) /\ fits U256_MAX (epoch_hash b);
  sok_time : fits U64_MAX (sb_timestamp b);
  sok_txs : Forall bytes_ok (transactions b);
}.

(** The RLP codec of single batches. *)
Class SingleLaws `{SingleCodec} := {
  law_single : codec_ok single_ok single_codec;
  law_single_bytes b : single_ok b -> bytes_ok (enc single_codec b);
}.

Section channel.
Context `{EncoderLaws} `{!DecompressorLaws} `{!BrotliRoundtrip} `{SpanTxCodecs} `{SingleCodec} `{!SingleLaws}.

Lemma single_decode cfg b : single_ok b -> batch_decode cfg (single_encode b) = Ok (Single b).
Proof.
  intros Hb. unfold single_encode. cbn [batch_decode]. change (SINGLE =? SINGLE) with true. cbn [andb].
  rewrite <- (app_nil_r (enc single_codec b)). by rewrite (codec_dec law_single b [] Hb).
Qed.

(** The bytes a list of batches adds to a channel. *)
Definition singles_rlp (bs : list SingleBatch) : list Z := concat (single_rlp <$> bs).

Lemma singles_rlp_nonempty bs : bs <> [] -> singles_rlp bs <> [].
Proof.
  destruct bs as [|b bs]; [done|]. intros _. unfold singles_rlp. cbn. pose proof (law_rlp_nonempty (single_encode b)) as Hne.
  fold (single_rlp b) in Hne. by destruct (single_rlp b).
Qed.

Lemma single_encode_bytes b : single_ok b -> bytes_ok (single_encode b).
Proof. intros Hb. constructor; [by_eval|by apply law_single_bytes]. Qed.
Lemma singles_rlp_bytes bs : Forall single_ok bs -> bytes_ok (singles_rlp bs).
Proof.
  intros Hok. apply Forall_concat, Forall_fmap. eapply Forall_impl; [exact Hok|]. intros b Hb. by apply law_rlp_bytes, single_encode_bytes.
Qed.

(** The version byte and the compressed bytes of single batches are read back. *)
Lemma singles_channel cfg og bs c : bs <> [] -> Forall single_ok bs -> is_fjord_active cfg (timestamp og) = true ->
  zlen (singles_rlp bs) <= MAX_RLP_BYTES_PER_CHANNEL_FJORD -> brotli_compress (singles_rlp bs) 10 = Some c ->
  channel_holds cfg og (CHANNEL_VERSION_BROTLI :: c) (Single <$> bs).
Proof.
  intros Hne Hok Hf Hlen Hc.
  assert (Hd : brotli_decompress c MAX_RLP_BYTES_PER_CHANNEL_FJORD = Ok (singles_rlp bs)).
  { eapply brotli_decompress_compress; [done|by apply singles_rlp_nonempty|by apply singles_rlp_bytes|done]. }
  eexists _, (single_encode <$> bs). split_and!.
  - unfold decompress, channel_reader_of, channel_limit. rewrite Hf. cbn [decompressed new_reader br_data].
    change (negb (zlen (@nil Z) =? 0)) with false. cbn iota.
    change ((Z.land CHANNEL_VERSION_BROTLI 15 =? ZLIB_DEFLATE_COMPRESSION_METHOD) ||
      (Z.land CHANNEL_VERSION_BROTLI 15 =? ZLIB_RESERVED_COMPRESSION_METHOD)) with false. cbn iota.
    change ((CHANNEL_VERSION_BROTLI =? CHANNEL_VERSION_BROTLI) &&
      brotli_supported (take_data (new_reader (CHANNEL_VERSION_BROTLI :: c) MAX_RLP_BYTES_PER_CHANNEL_FJORD true))) with true.
    cbn iota. unfold decompress_brotli. erewrite bind_run by reflexivity. erewrite bind_run by reflexivity.
    cbn [br_max_rlp_bytes set_brotli_used take_data new_reader]. change (drop 1 (CHANNEL_VERSION_BROTLI :: c)) with c.
    rewrite Hd. unfold lift. erewrite bind_run by reflexivity.
    reflexivity.
  - cbn. unfold singles_rlp. by rewrite <- list_fmap_compose.
  - by destruct bs.
  - apply Forall_fmap. eapply Forall_impl; [exact Hok|]. intros b Hb. by apply single_encode_bytes.
  - apply Forall2_fmap. apply Forall_Forall2_diag. eapply Forall_impl; [exact Hok|]. intros b Hb. by apply single_decode.
Qed.
End channel.

(** * The encoder on a list of blocks *)

(** Channel ids: 16 bytes, and two that follow each other differ. *)
Class RngLaws (R : Type) `{ChannelRng R} := {
  rng_good : R -> Prop;
  law_fill_id r cid r' : rng_good r -> fill_id r = (cid, r') ->
    length cid = 16%nat /\ bytes_ok cid /\ rng_good r' /\ (fill_id r').1 <> cid;
}.

Section encoding.
Context {R : Type} `{RngLaws R} `{EncoderLaws} `{!DecompressorLaws} `{!BrotliRoundtrip} `{SpanTxCodecs} `{SingleCodec} `{!SingleLaws}.
Variables (cfg : RollupConfig) (config : EncoderConfig) (blocks : list BaseBlock) (sbs : list SingleBatch).
Implicit Types e : BatchEncoder R.

Definition composes (b : BaseBlock) (sb : SingleBatch) : Prop := exists info, block_to_single_batch b = Ok (sb, info).

(** The blocks compose to batches that fit a channel, and the compressed data of
    a channel fits its frames and the limits of derivation. *)
Record encodable : Prop := {
  en_mode : batch_type config = SingleType;
  en_frame : FRAME_V0_OVERHEAD < max_frame_size config <= FRAME_V0_OVERHEAD + MAX_LEN;
  en_blocks : Forall2 composes blocks sbs;
  en_batches : Forall (fun sb => single_ok sb /\ zlen (single_rlp sb) <= max_rlp_bytes_per_channel cfg (sb_timestamp sb)) sbs;
  en_size raw c : zlen raw <= zlen (singles_rlp sbs) -> zlen raw <= MAX_RLP_BYTES_PER_CHANNEL_FJORD ->
    brotli_compress raw 10 = Some c ->
    zlen c + 1 <= U16_MAX * (max_frame_size config - FRAME_V0_OVERHEAD) /\
    zlen c + 1 + OVERHEAD * U16_MAX <= MAX_RLP_BYTES_PER_CHANNEL_FJORD;
}.
Hypothesis Hen : encodable.

(** A closed channel with the frames of some batches. *)
Record closed_channel (cid : list Z) (fs : list Frame) (seg : list SingleBatch) : Prop := {
  cc_seg : seg <> [] /\ Forall single_ok seg /\ zlen (singles_rlp seg) <= MAX_RLP_BYTES_PER_CHANNEL_FJORD;
  cc_frames : fs <> [] /\ Z.of_nat (length fs) <= U16_MAX /\ frames_size fs <= MAX_RLP_BYTES_PER_CHANNEL_FJORD;
  cc_split : split_channel cid fs;
  cc_data : exists c, brotli_compress (singles_rlp seg) 10 = Some c /\
    concat (frame_data <$> fs) = CHANNEL_VERSION_BROTLI :: c;
  cc_size : Forall (fun f => zlen (frame_encode f) <= max_frame_size config) fs;
}.

(** An open channel that holds some batches. *)
Record open_channel (o : ChannelOut ShadowCompressor) (seg : list SingleBatch) : Prop := {
  ch_cfg : co_config o = cfg;
  ch_id : length (co_id o) = 16%nat /\ bytes_ok (co_id o);
  ch_holds : out_holds o (singles_rlp seg);
  ch_length : rlp_length o = zlen (singles_rlp seg) /\ zlen (singles_rlp seg) <= MAX_RLP_BYTES_PER_CHANNEL_FJORD;
}.

(** The ids of the channels so far differ from each other in a row, and from the next. *)
Definition ids_apart (ids : list (list Z)) (r : R) : Prop :=
  rng_good r /\ Sorted (fun a b => a <> b) ids /\ forall l, last ids = Some l -> (fill_id r).1 <> l.

Definition open_id e : list (list Z) := option_list ((fun o => co_id (oc_out o)) <$> be_current_channel e).

(** The encoder between two steps: the batches of [segs] are in the channels [chs] closed so
    far, those of [cur] in the open one, and [todo] is left. The blocks before the cursor
    may have been pruned, and the closed channels sent. *)
Record encoding e (chs : list (list Z * list Frame)) (segs : list (list SingleBatch)) (cur : option (list SingleBatch))
    (todo : list SingleBatch) : Prop := {
  st_config : be_rollup_config e = cfg /\ be_config e = config;
  st_blocks : exists old new, be_blocks e = old ++ new /\ be_block_cursor e = length old /\ Forall2 composes new todo;
  st_batches : exists rest, sbs = concat segs ++ default [] cur ++ todo ++ rest;
  st_channels : Forall2 (fun ch seg => closed_channel ch.1 ch.2 seg) chs segs;
  st_current : match be_current_channel e, cur with
               | None, None => True
               | Some o, Some seg => seg <> [] /\ open_channel (oc_out o) seg
               | _, _ => False
               end;
  st_ids : ids_apart (chs.*1 ++ open_id e) (be_rng e);
}.

(** The channels [new] have been closed, and nothing else has changed but the open one. *)
Definition sendable (c : ReadyChannel) : list Z * list Frame := (rc_id c, rc_frames c).
Record fresh (n : nat) (c : ReadyChannel) : Prop := {
  fr_cursor : rc_cursor c = 0%nat;
  fr_pending : rc_pending_confirmations c = 0%nat;
  fr_confirmed : rc_confirmed_count c = 0%nat /\ rc_first_confirmed c = None;
  fr_range : ((rc_block_range c).2 <= n)%nat;
}.
Record grows e e' (new : list ReadyChannel) : Prop := {
  gr_ready : be_ready_channels e' = be_ready_channels e ++ new;
  gr_fresh : Forall (fresh (be_block_cursor e')) new;
  gr_cursor : (be_block_cursor e <= be_block_cursor e')%nat;
  gr_same : (be_blocks e', be_tip e', be_l1_head e') = (be_blocks e, be_tip e, be_l1_head e);
  gr_subs : (be_pending e', be_next_id e', be_blob_override e') = (be_pending e, be_next_id e, be_blob_override e);
}.

Lemma grows_refl e : grows e e [].
Proof using Type. split; [by rewrite app_nil_r|done..]. Qed.
Lemma grows_trans e1 e2 e3 new1 new2 : grows e1 e2 new1 -> grows e2 e3 new2 -> grows e1 e3 (new1 ++ new2).
Proof using Type.
  intros [Hr1 Hf1 Hc1 Hs1 Hp1] [Hr2 Hf2 Hc2 Hs2 Hp2]. split; [by rewrite Hr2, Hr1, app_assoc| |lia|by rewrite Hs2|by rewrite Hp2].
  apply Forall_app. split; [|done]. eapply Forall_impl; [exact Hf1|]. intros c []. split; [done..|]. lia.
Qed.

Lemma singles_rlp_app a b : singles_rlp (a ++ b) = singles_rlp a ++ singles_rlp b.
Proof. unfold singles_rlp. by rewrite fmap_app, concat_app. Qed.

Lemma frames_size_concat fs : frames_size fs = zlen (concat (frame_data <$> fs)) + OVERHEAD * Z.of_nat (length fs).
Proof.
  induction fs as [|f fs IH]; [done|]. cbn [frames_size fmap list_fmap concat length]. unfold frame_size. rewrite zlen_app, IH. lia.
Qed.

Lemma flush_span_single e : batch_type (be_config e) = SingleType -> flush_span e = (Ok tt, e).
Proof. intros Hm. unfold flush_span. by rewrite Hm. Qed.

(** The frames of an open channel that is closed. *)
Lemma open_channel_closes o seg pre post : sbs = pre ++ seg ++ post -> seg <> [] -> open_channel o seg ->
  exists fs, channel_frames (max_frame_size config) o = Ok fs /\ closed_channel (co_id o) fs seg.
Proof using All.
  intros Hs Hne [Hcfg [Hid Hidb] Hh [Hl Hlim]].
  assert (Hok : Forall single_ok seg).
  { pose proof (en_batches Hen) as Hb. rewrite Hs, !Forall_app in Hb. destruct Hb as (_ & Hb & _).
    eapply Forall_impl; [exact Hb|]. by intros b [Hb' _]. }
  destruct (law_brotli_ok (singles_rlp seg) 10 (singles_rlp_bytes _ Hok) Hlim) as (c & Hc & Hcne & Hcb).
  destruct (en_size Hen (singles_rlp seg) c) as [Hfr Hsz]; [|done|done|].
  { rewrite Hs, !singles_rlp_app, !zlen_app. pose proof (zlen_nonneg (singles_rlp pre)). pose proof (zlen_nonneg (singles_rlp post)). lia. }
  destruct (channel_frames_split o (singles_rlp seg) c (max_frame_size config)) as (fs & Hfs & Hfne & Hflen & Hsp & Hcat & Hmax);
    try done; [by apply singles_rlp_nonempty|apply (en_frame Hen)|].
  exists fs. split; [done|]. split; [|split; [done|]; split; [done|]|done|by exists c|done].
  - done.
  - rewrite frames_size_concat, Hcat. change (zlen (CHANNEL_VERSION_BROTLI :: c)) with (zlen ([CHANNEL_VERSION_BROTLI] ++ c)).
    rewrite zlen_app. change (zlen [CHANNEL_VERSION_BROTLI]) with 1. unfold OVERHEAD in *. lia.
Qed.

(** Closing the open channel moves it to the closed ones. *)
Lemma close_moves e chs segs seg todo : encoding e chs segs (Some seg) todo ->
  exists e' c, close_current_channel e = (Ok tt, e') /\ grows e e' [c] /\ encoding e' (chs ++ [sendable c]) (segs ++ [seg]) None todo.
Proof using All.
  intros [[Hcfg Hcon] Hb [rest Hs] Hr Hcur Hids]. unfold close_current_channel.
  rewrite (bind_run _ _ _ tt e) by (apply flush_span_single; rewrite Hcon; apply Hen). erewrite bind_run by reflexivity. unfold id.
  unfold open_id in Hids. destruct (be_current_channel e) as [o|] eqn:Ecur; [|done]. destruct Hcur as [Hne Hop]. cbn in Hs, Hids.
  destruct (open_channel_closes (oc_out o) seg (concat segs) (todo ++ rest) Hs Hne Hop) as (fs & Hfs & Hcl).
  erewrite bind_run by reflexivity. rewrite Hcon. rewrite (bind_run _ _ _ fs (set_current_channel None e)) by (unfold lift; by rewrite Hfs).
  eexists _, _. split; [reflexivity|]. split.
  - split; [done| |cbn; lia|done|done]. constructor; [|done]. by split.
  - split; cbn.
    + done.
    + done.
    + exists rest. rewrite concat_app. cbn. by rewrite app_nil_r, <- app_assoc.
    + apply Forall2_app; [done|]. by constructor.
    + done.
    + rewrite fmap_app. cbn. by rewrite app_nil_r.
Qed.

Lemma max_rlp_bound ts : 0 < max_rlp_bytes_per_channel cfg ts <= MAX_RLP_BYTES_PER_CHANNEL_FJORD.
Proof using Type. unfold max_rlp_bytes_per_channel. by destruct (is_fjord_active cfg ts). Qed.

Lemma ids_apart_next ids r cid r' : ids_apart ids r -> fill_id r = (cid, r') ->
  ids_apart (ids ++ [cid]) r' /\ length cid = 16%nat /\ bytes_ok cid.
Proof using Type.
  intros (Hg & Hs & Hl) Hf. destruct (law_fill_id _ _ _ Hg Hf) as (Hlen & Hb & Hg' & Hne). rewrite Hf in Hl. cbn in Hl.
  split_and!; [|done|done]. split_and!; [done| |intros l; rewrite last_snoc; congruence].
  clear Hf. induction ids as [|a ids IH]; [by repeat constructor|]. apply Sorted_inv in Hs as [Hs Ha]. cbn. constructor.
  - apply IH; [done|]. intros l Hlast. apply Hl. destruct ids; [done|]. by rewrite last_cons_cons.
  - destruct ids as [|b ids]; cbn; constructor; [|by inversion Ha]. intros ->. by apply (Hl cid).
Qed.

(** The first part of the single branch of [step]: there is an open channel. *)
Lemma channel_opened e chs segs cur todo : encoding e chs segs cur todo ->
  exists e1 o, (match be_current_channel e with None => open_new_channel (be_block_cursor e) e | Some _ => e end) = e1 /\
    be_current_channel e1 = Some o /\ open_channel (oc_out o) (default [] cur) /\
    (be_rollup_config e1, be_config e1, be_block_cursor e1) = (cfg, config, be_block_cursor e) /\ grows e e1 [] /\
    ids_apart (chs.*1 ++ [co_id (oc_out o)]) (be_rng e1).
Proof using All.
  intros [[Hcfg Hcon] Hb Hs Hr Hcur Hids]. unfold open_id in Hids. destruct (be_current_channel e) as [o|] eqn:Ecur.
  - exists e, o. destruct cur as [seg|]; [|done]. split_and!; [done|done|apply Hcur|by rewrite Hcfg, Hcon|apply grows_refl|done].
  - destruct cur; [done|]. cbn in Hids. rewrite app_nil_r in Hids. unfold open_new_channel. destruct (fill_id (be_rng e)) as [cid r'] eqn:Ef.
    destruct (ids_apart_next _ _ _ _ Hids Ef) as (Hids' & Hlen & Hbytes).
    eexists _, _. split; [done|]. split; [done|]. split_and!; [|cbn; by rewrite Hcfg, Hcon|split; [by rewrite app_nil_r|done..]|done].
    split; cbn; [done|done|apply out_holds_new|done].
Qed.

Lemma step_single_moves e chs segs cur b sb todo old new da : encoding e chs segs cur (sb :: todo) ->
  be_blocks e = old ++ b :: new -> be_block_cursor e = length old -> Forall2 composes new todo ->
  exists r e' cs, step_single sb da e = (Ok r, e') /\ r <> Idle /\ grows e e' cs /\
    ((cs = [] /\ encoding e' chs segs (Some (default [] cur ++ [sb])) todo) \/
     exists seg c, cs = [c] /\ cur = Some seg /\ encoding e' (chs ++ [sendable c]) (segs ++ [seg]) None (sb :: todo)).
Proof using All.
  intros He Hbl Hbc Hnew. destruct (channel_opened _ _ _ _ _ He) as (e1 & o & He1 & Ecur & Hop & Heq & Hg & Hids).
  destruct He as [_ Hb [rest Hs] Hr Hcur _]. injection Heq as Hcfg Hcon Hc1. pose proof Hg as [Hr1 _ _ Hsame Hsubs].
  rewrite app_nil_r in Hr1. injection Hsame as Hb1 Ht1 Hl1.
  remember (default [] cur) as seg eqn:Hseg in *. unfold step_single. rewrite (bind_run _ _ _ tt e1) by (unfold modify; by rewrite He1). erewrite bind_run by reflexivity. unfold id.
  rewrite Ecur. destruct Hop as [Hocfg Hoid Hoh [Hol Holim]].
  assert (Hsb : single_ok sb /\ zlen (single_rlp sb) <= max_rlp_bytes_per_channel cfg (sb_timestamp sb)).
  { pose proof (en_batches Hen) as Hba. rewrite Hs, !Forall_app, Forall_cons in Hba. apply Hba. }
  destruct Hsb as [Hsb Hfit]. pose proof (max_rlp_bound (sb_timestamp sb)) as Hmax. pose proof (zlen_nonneg (single_rlp sb)).
  pose proof (zlen_nonneg (singles_rlp seg)). pose proof (add_single_outcome (oc_out o) _ sb Hoh) as Hadd. rewrite Hocfg, Hol in Hadd.
  assert (Hadd64 : add64 (zlen (singles_rlp seg)) (zlen (single_rlp sb)) = zlen (singles_rlp seg) + zlen (single_rlp sb)).
  { apply wrap_id. unfold fits, U64_MAX, MAX_RLP_BYTES_PER_CHANNEL_FJORD in *. lia. }
  rewrite Hadd64 in Hadd. destruct (out_add_batch (OutSingle sb) (oc_out o)) as [[[]|[er| |]] out']; destruct Hadd as (Hid' & Hcfg' & Hadd);
    [| |done|done].
  - destruct Hadd as (Hoh' & Hl' & Hmax'). rewrite Hl' in Hmax'. erewrite bind_run by reflexivity. eexists _, _, []. split; [reflexivity|].
    split; [done|]. split; [split; cbn; [by rewrite app_nil_r, Hr1|done|lia|by rewrite Hb1, Ht1, Hl1|exact Hsubs]|]. left. split; [done|].
    assert (Hrlp : singles_rlp (seg ++ [sb]) = singles_rlp seg ++ single_rlp sb).
    { rewrite singles_rlp_app. unfold singles_rlp at 2. cbn. by rewrite app_nil_r. }
    split; cbn.
    + done.
    + exists (old ++ [b]), new. rewrite Hb1, <- app_assoc. split_and!; [done| |done]. rewrite Hc1, Hbc, length_app. cbn. lia.
    + exists rest. by rewrite Hs, <- app_assoc.
    + done.
    + split; [by destruct seg|]. split; [done|by rewrite Hid'|by rewrite Hrlp|]. rewrite Hrlp, zlen_app. split; [done|lia].
    + unfold open_id. cbn. by rewrite Hid'.
  - destruct Hadd as (Hoh' & Hl' & Hnil). erewrite bind_run by reflexivity.
    assert (Hne : seg <> []).
    { intros Hs0. rewrite Hs0 in *. specialize (Hnil eq_refl). change (zlen (singles_rlp [])) with 0 in *. lia. }
    destruct cur as [seg'|]; [|done]. cbn in Hseg. subst seg.
    set (e2 := set_current_channel _ e1).
    assert (He2 : encoding e2 chs segs (Some seg') (sb :: todo)).
    { split; cbn; [done|by rewrite Hb1, Hc1|by exists rest|done| |unfold open_id; cbn; by rewrite Hid'].
      split; [done|]. split; [done|by rewrite Hid'|done|by rewrite Hl']. }
    assert (Hg2 : grows e e2 []) by (destruct Hg; by split).
    destruct (close_moves _ _ _ _ _ He2) as (e3 & c & Hcl & Hg3 & He3). rewrite (bind_run _ _ _ _ _ Hcl).
    eexists _, e3, [c]. split; [reflexivity|]. split; [done|]. split; [exact (grows_trans _ _ _ _ _ Hg2 Hg3)|]. right. by exists seg', c.
Qed.

(** What is left to do: two steps for a block, one for an open channel. *)
Definition work (cur : option (list SingleBatch)) (todo : list SingleBatch) : nat :=
  2 * length todo + match cur with Some _ => 1 | None => 0 end.

(** A step is idle when every block is encoded, and else makes progress. *)
Lemma enc_step_moves e chs segs cur todo : encoding e chs segs cur todo ->
  exists r e' cs segs' cur' todo', enc_step e = (Ok r, e') /\ grows e e' cs /\ encoding e' (chs ++ (sendable <$> cs)) segs' cur' todo' /\
    concat segs' ++ default [] cur' ++ todo' = concat segs ++ default [] cur ++ todo /\
    ((r = Idle /\ e' = e /\ todo = [] /\ todo' = [] /\ cur' = cur) \/ (r <> Idle /\ (work cur' todo' < work cur todo)%nat)).
Proof using All.
  intros He. unfold enc_step, check_channel_timeout.
  destruct (timed_out e) eqn:Et.
  { destruct cur as [seg|].
    - destruct (close_moves _ _ _ _ _ He) as (e' & c & Hcl & Hg & He'). exists ChannelClosed, e', [c], (segs ++ [seg]), None, todo.
      split; [|split_and!; [done|done|rewrite concat_app; cbn; by rewrite app_nil_r, <- app_assoc|right; split; [done|]; unfold work; lia]].
      erewrite bind_run; [|erewrite bind_run by reflexivity; rewrite Et; by erewrite bind_run by (exact Hcl)]. done.
    - exfalso. destruct He as [[Hcfg Hcon] _ _ _ Hcur _]. unfold timed_out in Et. destruct (be_current_channel e); [done|].
      by rewrite Hcon, (en_mode Hen) in Et. }
  erewrite bind_run; [|erewrite bind_run by reflexivity; rewrite Et; by erewrite bind_run by reflexivity].
  cbv beta iota. erewrite bind_run by reflexivity. cbv beta. change (id e) with e. pose proof He as [[Hcfg Hcon] (old & new & Hb & Hc & Hnew) _ _ _ _]. rewrite Hb, Hc.
  destruct Hnew as [|b sb new todo Hcomp Hnew].
  - rewrite lookup_ge_None_2 by (rewrite app_nil_r; done).
    eexists Idle, e, [], segs, cur, []. rewrite app_nil_r. split_and!; [done|apply grows_refl|done|done|by left].
  - rewrite list_lookup_middle by done. destruct Hcomp as [info Hcomp].
    rewrite Hcomp. cbn [map_fail]. erewrite bind_run by reflexivity. cbv beta iota. rewrite Hcon, (en_mode Hen).
    destruct (step_single_moves _ _ _ _ _ _ _ _ _ (block_da_backlog_bytes b) He Hb Hc Hnew) as (r & e' & cs & -> & Hr & Hg & [[-> He']|(seg & c & -> & -> & He')]).
    + exists r, e', [], segs, (Some (default [] cur ++ [sb])), todo. rewrite app_nil_r. split_and!; [done|done|done| |right; split; [done|]].
      * cbn. by rewrite <- app_assoc.
      * unfold work. cbn [length]. destruct cur; lia.
    + exists r, e', [c], (segs ++ [seg]), None, (sb :: todo). split_and!; [done|done|done| |right; split; [done|]].
      * rewrite concat_app. cbn. by rewrite app_nil_r, <- app_assoc.
      * unfold work. lia.
Qed.

Lemma steps_end w : forall e chs segs cur todo, encoding e chs segs cur todo -> (work cur todo <= w)%nat ->
  exists e' cs segs' cur', grows e e' cs /\ encoding e' (chs ++ (sendable <$> cs)) segs' cur' [] /\
    concat segs' ++ default [] cur' = concat segs ++ default [] cur ++ todo /\ (work cur' [] <= work cur todo)%nat /\
    forall fuel, (w < fuel)%nat -> step_until_idle fuel e = (Ok tt, e').
Proof using All.
  induction w as [|w IH]; intros e chs segs cur todo He Hw;
    (destruct (enc_step_moves _ _ _ _ _ He) as (r & e' & cs & segs' & cur' & todo' & Hstep & Hg & He' & Hsame & Hr));
    (destruct Hr as [(-> & -> & -> & -> & ->)|[Hr Hlt]];
     [exists e, cs, segs', cur; split_and!; [done|done|by rewrite <- Hsame, app_nil_r|done|];
      intros fuel Hf; destruct fuel; [lia|]; cbn; by rewrite (bind_run _ _ _ _ _ Hstep)|]); [lia|].
  destruct (IH e' _ segs' cur' todo' He' ltac:(lia)) as (e2 & cs2 & s2 & c2 & Hg2 & He2 & Hsame2 & Hw2 & Hrun). exists e2, (cs ++ cs2), s2, c2.
  split_and!; [by eapply grows_trans|by rewrite fmap_app, app_assoc|by rewrite Hsame2|lia|].
  intros [|fuel] Hf; [lia|]. cbn [step_until_idle]. rewrite (bind_run _ _ _ _ _ Hstep). destruct r; [apply Hrun; lia..|done].
Qed.

(** The last channel is closed. *)
Lemma force_close_moves e chs segs cur todo : encoding e chs segs cur todo ->
  exists e' cs segs', force_close_channel e = (Ok tt, e') /\ grows e e' cs /\ encoding e' (chs ++ (sendable <$> cs)) segs' None todo /\
    concat segs' = concat segs ++ default [] cur.
Proof using All.
  intros He. destruct cur as [seg|].
  - destruct (close_moves _ _ _ _ _ He) as (e' & c & Hcl & Hg & He'). exists e', [c], (segs ++ [seg]). split_and!; [done|done|done|].
    rewrite concat_app. cbn. by rewrite app_nil_r.
  - exists e, [], segs. rewrite app_nil_r. split_and!; [|apply grows_refl|done|by rewrite app_nil_r].
    destruct He as [[Hcfg Hcon] _ _ _ Hcur _]. unfold force_close_channel, close_current_channel.
    rewrite (bind_run _ _ _ tt e) by (apply flush_span_single; rewrite Hcon; apply Hen). erewrite bind_run by reflexivity.
    cbv beta. change (id e) with e. by destruct (be_current_channel e).
Qed.

(** Blocks on top of each other. *)
Definition linked : Prop := forall i a b, blocks !! i = Some a -> blocks !! S i = Some b -> bb_parent_hash b = bb_hash a.

Lemma add_blocks_run e : be_blocks e = [] -> linked -> exists tip,
  for_each blocks add_block e = (Ok tt, set_blocks blocks (set_tip tip e)).
Proof using Type.
  intros Hb Hl.
  assert (forall pre post e, blocks = pre ++ post -> be_blocks e = pre -> (forall a, last pre = Some a -> be_tip e = bb_hash a) ->
    exists tip, for_each post add_block e = (Ok tt, set_blocks blocks (set_tip tip e))) as Hgen.
  { intros pre post. revert pre. induction post as [|b post IH]; intros pre e1 Hs Hb1 Ht.
    - exists (be_tip e1). cbn. rewrite app_nil_r in Hs. rewrite Hs, <- Hb1. by destruct e1.
    - cbn [for_each]. assert (Hadd : add_block b e1 = (Ok tt, set_blocks (pre ++ [b]) (set_tip (bb_hash b) e1))).
      { unfold add_block. rewrite Hb1. destruct (bool_decide (pre <> [])) eqn:Ep; [|done]. zbool.
        destruct (last pre) as [a|] eqn:Ea; [|by apply last_None in Ea]. rewrite (Ht a eq_refl).
        rewrite (Hl (length pre - 1)%nat a b); [by rewrite Z.eqb_refl| |].
        - rewrite Hs, lookup_app_l by (destruct pre; [done|cbn; lia]). rewrite <- Ea, last_lookup. f_equal. lia.
        - rewrite Hs. replace (S (length pre - 1)) with (length pre) by (destruct pre; [done|cbn; lia]). by rewrite list_lookup_middle. }
      rewrite (bind_run _ _ _ _ _ Hadd). destruct (IH (pre ++ [b]) (set_blocks (pre ++ [b]) (set_tip (bb_hash b) e1))) as [tip Hr].
      + by rewrite <- app_assoc.
      + done.
      + intros a. rewrite last_snoc. by intros [= ->].
      + exists tip. rewrite Hr. done. }
  apply (Hgen [] blocks e); done.
Qed.

(** What comes out: channels of the batches of the blocks. *)
Definition encoded_as (frames : list Frame) : Prop :=
  exists chs segs, frames = concat chs.*2 /\ sbs = concat segs /\
    Forall2 (fun ch seg => closed_channel ch.1 ch.2 seg) chs segs /\ Sorted (fun a b => a <> b) chs.*1.

Lemma encode_and_drain_run rng tip : rng_good rng -> exists n frames, encoded_as frames /\
  forall fuel, (n <= fuel)%nat -> (encode_and_drain fuel (set_blocks blocks (set_tip tip (new_encoder cfg config rng)))).1 = Ok frames.
Proof using All.
  intros Hg. set (e0 := set_blocks _ _).
  assert (He0 : encoding e0 [] [] None sbs).
  { split; [done|by exists [], blocks; split_and!; [done..|apply Hen]|by exists []; rewrite app_nil_r|constructor|done|].
    cbn. split_and!; [done|constructor|done]. }
  destruct (steps_end (work None sbs) _ _ _ _ _ He0 ltac:(lia)) as (e1 & cs1 & segs1 & cur1 & Hg1 & He1 & Hs1 & _ & Hrun1).
  destruct (force_close_moves _ _ _ _ _ He1) as (e2 & cs2 & segs & Hrun2 & Hg2 & He2 & Hs2).
  pose proof (grows_trans _ _ _ _ _ Hg1 Hg2) as [Hready Hfresh _ _ _]. destruct He2 as [_ _ _ Hr Hcur Hids].
  rewrite app_nil_l in Hr, Hids. rewrite <- fmap_app in Hr, Hids. cbn [be_ready_channels e0 set_blocks] in Hready. rewrite app_nil_l in Hready.
  assert (Hleft : frames_left (be_ready_channels e2) = concat (sendable <$> (cs1 ++ cs2)).*2).
  { rewrite Hready, <- list_fmap_compose. unfold frames_left. f_equal. apply list_fmap_ext. intros i c Hc. rewrite Forall_lookup in Hfresh.
    destruct (Hfresh i c Hc) as [Hz _ _ _]. unfold channel_left. by rewrite Hz. }
  exists (S (work None sbs) + S (length (frames_left (be_ready_channels e2))))%nat, (frames_left (be_ready_channels e2)). split.
  - exists (sendable <$> (cs1 ++ cs2)), segs. unfold open_id in Hids. destruct (be_current_channel e2); [done|]. cbn in Hids.
    rewrite app_nil_r in Hids. split_and!; [done|by rewrite Hs2, Hs1|done|apply Hids].
  - intros fuel Hf. unfold encode_and_drain. rewrite (bind_run _ _ _ tt e1) by (apply Hrun1; lia). rewrite (bind_run _ _ _ _ _ Hrun2).
    destruct (drain_submissions_run fuel e2) as [e3 ->]; [|lia|done]. rewrite Hready. eapply Forall_impl; [exact Hfresh|].
    intros c [Hz _ _ _]. unfold cursor_ok. lia.
Qed.
End encoding.

(** * Through L1 *)

(** The node at an L1 block in which the batcher posted frames: the frames in order,
    cut into groups, each group packed into one blob, the blobs carried by blob
    transactions. *)
Record posted_frames {C B} `{ChainProvider C, BlobProvider B} (cfg : RollupConfig) (b : BlockInfo) (tr : PollingTraversal C)
    (src : EthereumDataSource C B) (frames : list Frame) (groups : list (list Frame)) : Prop := {
  pf_block : tr_block tr = Some b /\ tr_done tr = false;
  pf_forks : is_holocene_active cfg (timestamp b) = true /\ no_overflow cfg b /\
    exists e, ecotone_timestamp src = Some e /\ e <= timestamp b;
  pf_groups : concat groups = frames /\ Forall (fun g => g <> []) groups;
  pf_blobs : exists txs blobs, Forall2 (fun g bl => encode_packed g = Ok bl) groups blobs /\
    is_open (blob_source src) = false /\
    answers b (batcher_address (system_config tr)) (blob_source src) txs blobs /\
    blobs_only (inbox_address (blob_source src)) (batcher_address (system_config tr)) txs /\
    length (extract_blob_data (inbox_address (blob_source src)) txs (batcher_address (system_config tr))).2 = length blobs;
}.

Section posting.
Context {C B : Type} `{ChainProvider C, BlobProvider B, SolWords}.

Lemma posted_of_frames cfg b (tr : PollingTraversal C) (src : EthereumDataSource C B) css groups :
  posted_frames cfg b tr src (concat css) groups -> Forall (fits_assembler cfg b) css -> apart css ->
  posted cfg b tr src css groups.
Proof. by intros [] Hf Ha. Qed.

Lemma holocene_fjord cfg ts : is_holocene_active cfg ts = true -> is_fjord_active cfg ts = true.
Proof. intros Hh. unfold is_fjord_active, is_granite_active. by rewrite Hh, !orb_true_r. Qed.

Lemma ids_frames_apart (chs : list (list Z * list Frame)) : Forall (fun ch => split_channel ch.1 ch.2) chs ->
  Sorted (fun a b => a <> b) chs.*1 -> apart chs.*2.
Proof.
  induction 1 as [|c cs Hc Hcs IH]; [constructor|]. cbn. intros [Hs Hh]%Sorted_inv. constructor; [by apply IH|].
  destruct cs as [|d cs]; cbn in *; constructor. apply Forall_cons in Hcs as [Hd _]. inversion Hh as [|? ? Hne]; subst.
  intros f g [i Hi]%list_elem_of_lookup [j Hj]%list_elem_of_lookup.
  destruct (Hc i f Hi) as [-> _], (Hd j g Hj) as [-> _]. done.
Qed.
End posting.

Section through.
Context {R C B : Type} `{RngLaws R} `{ChainProvider C, BlobProvider B, SolWords}.
Context `{EncoderLaws} `{!DecompressorLaws} `{!BrotliRoundtrip} `{SpanTxCodecs} `{SingleCodec} `{!SingleLaws}.

Lemma encoded_channels cfg config b sbs frames : is_holocene_active cfg (timestamp b) = true -> encoded_as config sbs frames ->
  exists css bss, frames = concat css /\ Forall (fits_assembler cfg b) css /\ apart css /\ concat bss = Single <$> sbs /\
    Forall2 (fun fs bs => channel_holds cfg b (concat (frame_data <$> fs)) bs) css bss /\
    Forall (fun f => zlen (frame_encode f) <= max_frame_size config) frames.
Proof.
  intros Hh (cs & segs & -> & -> & Hcs & Hids). apply holocene_fjord in Hh as Hf.
  exists cs.*2, ((fun seg : list SingleBatch => (Single <$> seg) : list Batch) <$> segs). split_and!; [done|..].
  - clear -Hcs Hf. induction Hcs as [|c seg cs segs [_ (Hne & Hlen & Hsz) Hs _ _] _ IH]; [constructor|]. constructor; [|done].
    split_and!; [done|done| |by exists c.1]. unfold max_rlp_bytes_per_channel. by rewrite Hf.
  - apply ids_frames_apart; [|done]. clear -Hcs. induction Hcs as [|c seg cs segs [] _ IH]; by constructor.
  - clear -segs. induction segs as [|seg segs IH]; [done|]. cbn. by rewrite fmap_app, IH.
  - clear Hids. induction Hcs as [|c seg cs segs [(Hne & Hok & Hlim) _ _ (d & Hd & Hcat) _] _ IH]; [constructor|]. cbn.
    constructor; [|done]. rewrite Hcat. by apply singles_channel.
  - clear -Hcs. induction Hcs as [|c seg cs segs [_ _ _ _ Hsz] _ IH]; [constructor|]. cbn. by apply Forall_app.
Qed.

(** C11: What the batcher encodes is what a node derives. Take L2 blocks on top of each
    other, of which each composes to a single batch that fits a channel. A fresh
    encoder accepts them; running it until it is idle, closing the last channel and
    draining the submissions ends and gives frames within the frame size. If these
    frames, in order and packed into blobs in any grouping, are posted in an L1 block
    after Holocene, then the stages of a node at that block - traversal, retrieval,
    frame queue, channel assembler, channel reader - return exactly the batches
    of the blocks, in order, and then the end of the block's data. *)
Theorem encoded_blocks_derived cfg config blocks sbs (rng : R) b (tr : PollingTraversal C) (src : EthereumDataSource C B) :
  encodable cfg config blocks sbs -> linked blocks -> rng_good rng -> is_holocene_active cfg (timestamp b) = true ->
  exists e n frames, for_each blocks add_block (new_encoder cfg config rng) = (Ok tt, e) /\
    (forall fuel, (n <= fuel)%nat -> (encode_and_drain fuel e).1 = Ok frames) /\
    Forall (fun f => zlen (frame_encode f) <= max_frame_size config) frames /\
    forall groups, posted_frames cfg b tr src frames groups ->
      exists s', delivers (fun s => origin (cr_prev s) = Some b) next_batch
        (new_channel_reader (stack cfg tr src) cfg) (Single <$> sbs) s'.
Proof.
  intros Hen Hl Hg Hh. destruct (add_blocks_run blocks (new_encoder cfg config rng) eq_refl Hl) as [tip Hadd].
  destruct (encode_and_drain_run cfg config blocks sbs Hen rng tip Hg) as (n & frames & Has & Hrun).
  destruct (encoded_channels cfg config b sbs frames Hh Has) as (css & bss & -> & Hfit & Hap & Hbss & Hhold & Hsz).
  eexists _, n, _. split; [exact Hadd|]. split; [exact Hrun|]. split; [done|]. intros groups Hp. rewrite <- Hbss.
  apply (posted_batches_at cfg b tr src css groups bss); [by apply posted_of_frames|done].
Qed.
End through.

(** More fuel does not change a result. *)
Section fuel.
Context {R : Type} `{ChannelRng R} `{Compression} `{SpanTxCodecs} `{SingleCodec} `{Decompressors}.
Implicit Types e : BatchEncoder R.

Lemma steps_mono fuel k : forall e e', step_until_idle fuel e = (Ok tt, e') -> step_until_idle (fuel + k) e = (Ok tt, e').
Proof.
  induction fuel as [|fuel IH]; intros e e' Hr; [done|]. cbn [step_until_idle plus] in *.
  apply bind_ok_inv in Hr as (r & e1 & Hs & Hr). rewrite (bind_run _ _ _ _ _ Hs). destruct r; [by apply IH..|done].
Qed.
Lemma submissions_mono fuel k : forall e fs e', drain_submissions fuel e = (Ok fs, e') -> drain_submissions (fuel + k) e = (Ok fs, e').
Proof.
  induction fuel as [|fuel IH]; intros e fs e' Hr; [done|]. cbn [drain_submissions plus] in *.
  apply bind_ok_inv in Hr as (sub & e1 & Hs & Hr). rewrite (bind_run _ _ _ _ _ Hs). destruct sub; [|done].
  apply bind_ok_inv in Hr as (gs & e2 & Hd & Hr). by rewrite (bind_run _ _ _ _ _ (IH _ _ _ Hd)).
Qed.
Lemma encode_and_drain_mono fuel k e fs : (encode_and_drain fuel e).1 = Ok fs -> (encode_and_drain (fuel + k) e).1 = Ok fs.
Proof.
  destruct (encode_and_drain fuel e) as [r e'] eqn:Hr. cbn. intros ->. unfold encode_and_drain in *.
  apply bind_ok_inv in Hr as ([] & e1 & Hs & Hr). rewrite (bind_run _ _ _ _ _ (steps_mono _ k _ _ Hs)).
  apply bind_ok_inv in Hr as ([] & e2 & Hc & Hd). rewrite (bind_run _ _ _ _ _ Hc). by rewrite (submissions_mono _ k _ _ _ Hd).
Qed.
End fuel.

Module DeriveExample.
Import BatcherExample.

Definition pending_bytes (st : option (list Z)) (input rem : list Z) : Prop :=
  bytes_ok rem /\ rem = match st with None => drop 1 input | Some rem => rem end.
#[local] Program Instance brotli_laws : BrotliRoundtrip := {| brotli_pending := pending_bytes |}.
Next Obligation. intros raw q c Hb. cbn. destruct (_ <? _); [|done]. by intros [= <-]. Qed.
Next Obligation.
  intros st input rem available [Hb ->] Ha. cbn. set (l := match st with None => drop 1 input | Some rem => rem end) in *.
  assert (Hmod : forall k, (fun b => b mod 256) <$> take k l = take k l).
  { intros k. rewrite <- (list_fmap_id (take k l)) at 2. apply list_fmap_ext. intros i b Hi. cbn. apply Z.mod_small.
    apply lookup_take_Some in Hi as [Hi _]. by apply (Forall_lookup_1 _ _ _ _ Hb Hi). }
  rewrite Hmod. destruct (Z.leb_spec (zlen l) available).
  - left. eexists _, _. rewrite take_ge by (unfold zlen in *; lia). done.
  - right. eexists _, _. split; [done|]. split; [lia|]. split; [by apply Forall_drop|done].
Qed.
Next Obligation.
  intros raw q Hb Hl. cbn. rewrite (proj2 (Z.ltb_lt _ _)) by (unfold MAX_RLP_BYTES_PER_CHANNEL_FJORD, U64_MAX in *; lia).
  eexists. split; [done|]. split; [done|]. constructor; [by_eval|done].
Qed.

Lemma dec_txs_enc txs : forall fuel rest, (length txs < fuel)%nat -> dec_txs fuel (enc_txs txs ++ rest) = Some (txs, rest).
Proof.
  unfold enc_txs. induction txs as [|tx txs IH]; intros [|fuel] rest Hf; cbn in Hf; try lia; [done|]. cbn [fmap list_fmap concat].
  rewrite <- !app_assoc. cbn [app dec_txs]. change (1 =? 0) with false. cbv iota. rewrite unesc_esc. cbn.
  specialize (IH fuel rest ltac:(lia)). rewrite <- app_assoc in IH. cbn in IH. by rewrite IH.
Qed.
Lemma length_enc_txs txs : (length txs < length (enc_txs txs))%nat.
Proof.
  unfold enc_txs. rewrite length_app. cbn. induction txs as [|tx txs IH]; cbn; [lia|]. rewrite length_app. cbn. lia.
Qed.
Lemma take_field {A} (a b c : list A) k n : length a = k -> length b = n -> take n (drop k (a ++ b ++ c)) = b.
Proof. intros <- <-. by rewrite drop_app_length, take_app_length. Qed.

#[local] Instance single_laws : SingleLaws.
Proof.
  split.
  - intros [p n h t txs] [Hp [Hn Hh] Ht Htx]. cbn [sb_parent_hash epoch_num epoch_hash sb_timestamp transactions] in *.
    split; [done|]. intros rest. change (dec single_codec) with dec_single. change (enc single_codec) with enc_single.
    unfold dec_single, enc_single. cbn [sb_parent_hash epoch_num epoch_hash sb_timestamp transactions].
    rewrite <- !app_assoc. set (r := be_bytes 32 p ++ be_bytes 8 n ++ be_bytes 32 h ++ be_bytes 8 t ++ enc_txs txs ++ rest).
    assert (Hd : drop 80 r = enc_txs txs ++ rest).
    { unfold r. rewrite !app_assoc, <- (app_assoc _ _ rest). apply drop_app_length'. by rewrite !length_app, !length_be_bytes. }
    rewrite Hd, dec_txs_enc.
    2:{ unfold r. rewrite !length_app. pose proof (length_enc_txs txs). lia. }
    assert (take 32 (drop 0 r) = be_bytes 32 p) as -> by (apply (take_field [] (be_bytes 32 p)); by rewrite ?length_be_bytes).
    assert (take 8 (drop 32 r) = be_bytes 8 n) as -> by (apply take_field; by rewrite ?length_be_bytes).
    assert (take 32 (drop 40 r) = be_bytes 32 h) as ->.
    { unfold r. rewrite (app_assoc (be_bytes 32 p)). apply take_field; by rewrite ?length_app, ?length_be_bytes. }
    assert (take 8 (drop 72 r) = be_bytes 8 t) as ->.
    { unfold r. rewrite (app_assoc (be_bytes 32 p)), (app_assoc (be_bytes 32 p ++ be_bytes 8 n)).
      apply take_field; by rewrite ?length_app, ?length_be_bytes. }
    cbn [mbind option_bind]. by rewrite (be_val_fits 32 U256_MAX p), (be_val_fits 8 U64_MAX n), (be_val_fits 32 U256_MAX h), (be_val_fits 8 U64_MAX t).
  - intros b [_ _ _ Htx]. change (enc single_codec) with enc_single. unfold enc_single. rewrite !Forall_app. split_and!; try apply be_bytes_ok. unfold enc_txs. apply Forall_app.
    split; [|by_eval]. apply Forall_concat, Forall_fmap. eapply Forall_impl; [exact Htx|]. intros tx Hb.
    constructor; [by_eval|by apply esc_bytes].
Qed.

Lemma counter_next r : be_bytes 16 (r + 1) <> be_bytes 16 r.
Proof.
  change 16%nat with (S 15). cbn [be_bytes]. intros [_ [=Hm]]%app_inj_tail.
  pose proof (Z.div_mod (r + 1) 256). pose proof (Z.div_mod r 256). lia.
Qed.
#[local] Program Instance counter_laws : RngLaws Z := {| rng_good _ := True |}.
Next Obligation.
  intros r cid r' _ Hf. cbn [fill_id counter] in Hf. apply pair_equal_spec in Hf as [<- <-].
  split_and!; [apply length_be_bytes|apply be_bytes_ok|done|apply counter_next].
Qed.

(** Two blocks on top of each other, each with one user transaction. *)
Definition info_tx : L2Tx := mkL2Tx 0x7E [] (Some (encode_calldata L1InfoExample.info)).
Definition block (n : Z) : BaseBlock := mkBaseBlock (100 + n) n (99 + n) (2 * n) 0 [] [info_tx; mkL2Tx 2 [2; n] None].
Definition blocks : list BaseBlock := [block 1; block 2].
Definition batch (n : Z) : SingleBatch := mkSingleBatch (99 + n) 1 4 (2 * n) [[2; n]].
Definition batches : list SingleBatch := [batch 1; batch 2].
(** Frames of at most 300 bytes. *)
Definition config : EncoderConfig :=
  mkEncoderConfig 1000 300 1000 0 1 SingleType Blob (approx_compr_ratio default_encoder_config) None.
Definition cfg : RollupConfig := RollupExample.all_forks.


Lemma blocks_encodable : encodable cfg config blocks batches.
Proof.
  split; try done.
  - constructor; [|constructor; [|constructor]]; eexists; vm_compute; reflexivity.
  - repeat (constructor; [split; [split; by_eval|by vm_compute]|]). constructor.
  - intros raw c Hl _ Hc. assert (zlen c = zlen raw + 1).
    { cbn in Hc. destruct (_ <? _); [|done]. injection Hc as <-. unfold zlen. cbn [length]. lia. }
    assert (zlen (singles_rlp batches) <= 1000) by by vm_compute.
    change (U16_MAX * (max_frame_size config - FRAME_V0_OVERHEAD)) with 18153195. change (OVERHEAD * U16_MAX) with 13107000.
    change MAX_RLP_BYTES_PER_CHANNEL_FJORD with 100000000. lia.
Qed.

(** The two frames of their channel, posted as one blob each. *)
Definition frames : list Frame :=
  Eval vm_compute in match (encode_and_drain 20 (for_each blocks add_block (new_encoder cfg config 7)).2).1 with Ok fs => fs | _ => [] end.
Definition groups : list (list Frame) := (fun f => [f]) <$> frames.
Definition blobs : list (list Z) := (fun g => blob_of (packed g)) <$> groups.
#[local] Existing Instance DerivationExample.chain.
#[local] Existing Instance DerivationExample.blob_server.
#[local] Existing Instance ConfigExample.words.
Definition src : EthereumDataSource unit (list (list Z)) :=
  mkEthereumDataSource (Some 0) (mkBlobSource tt blobs 5 [] false) (mkCalldataSource tt 5 [] false).

Lemma frames_posted : posted_frames cfg default_block DerivationExample.tr src frames groups.
Proof.
  split.
  - done.
  - split_and!; [done|done|]. by exists 0.
  - split; [done|]. by repeat constructor.
  - exists DerivationExample.txs, blobs. split_and!; [|done|..|done].
    + constructor; [apply blob_encode_run; by vm_compute|]. constructor; [apply blob_encode_run; by vm_compute|constructor].
    + split; [by do 2 eexists|]. right. split; [done|]. by eexists.
    + by_eval.
Qed.

Lemma encoded_blocks_derived_witness :
  exists s', delivers (fun s => origin (cr_prev s) = Some default_block) next_batch
    (new_channel_reader (stack cfg DerivationExample.tr src) cfg) [Single (batch 1); Single (batch 2)] s'.
Proof.
  assert (Hlink : linked blocks) by (intros [|[|i]] a b [= <-] [= <-]; reflexivity).
  assert (Hg : rng_good 7) by exact I.
  destruct (encoded_blocks_derived cfg config blocks batches 7 default_block DerivationExample.tr src blocks_encodable Hlink Hg eq_refl)
    as (e & n & fs & Hadd & Hrun & _ & Hd).
  assert (He : e = (for_each blocks add_block (new_encoder cfg config 7)).2) by (by rewrite Hadd).
  assert (Hfs : fs = frames).
  { assert (H20 : (encode_and_drain 20 e).1 = Ok frames) by (rewrite He; vm_compute; reflexivity).
    specialize (Hrun (20 + n)%nat ltac:(lia)). rewrite (encode_and_drain_mono 20 n e frames H20) in Hrun. congruence. }
  subst fs. exact (Hd groups frames_posted).
Defined.
End DeriveExample.
