(* ===== verification/EncoderSafety.v ===== *)
(** Sequences of calls of the encoder of the batcher. The invariant ties the block
    queue, the closed channels and the submissions in flight together: no index leaves its
    queue, every submission in flight points at frames of a channel, and a channel
    counts its submissions in flight. The traces at the end show how blocks whose frames
    never landed on L1 leave the queue. *)

From S2P Require Import Prelude Codec Buffer Frames Blobs Rollup Channel Pipeline L1Info Batches SpanTxs SpanBits SpanBatches.
From S2P Require Import ChannelReader Compress ChannelOut Encoder EncoderChannels.

(** * Submissions in flight *)

(** The number of submissions in flight for a channel. *)
Definition in_flight (i : nat) (pm : gmap Z PendingRef) : nat :=
  size (filter (fun p : Z * PendingRef => channel_idx p.2 = i) pm).

(** Every submission in flight covers frames of its channel, and every channel counts
    its own. *)
Record refs_ok (cs : list ReadyChannel) (pm : gmap Z PendingRef) : Prop := {
  ro_ref sid p : pm !! sid = Some p -> exists c, cs !! channel_idx p = Some c /\ (1 <= frame_count p)%nat /\
    (frame_start p + frame_count p <= length (rc_frames c))%nat;
  ro_count i c : cs !! i = Some c -> rc_pending_confirmations c = in_flight i pm;
}.

Lemma in_flight_insert i pm sid p : pm !! sid = None ->
  in_flight i (<[sid := p]> pm) = ((if decide (channel_idx p = i) then 1 else 0) + in_flight i pm)%nat.
Proof.
  intros Hn. unfold in_flight. case_decide as Hd.
  - rewrite map_filter_insert_True by done. rewrite map_size_insert_None; [done|].
    apply map_lookup_filter_None. by left.
  - rewrite map_filter_insert_False by done. by rewrite delete_id.
Qed.
Lemma in_flight_delete i pm sid p : pm !! sid = Some p ->
  in_flight i pm = ((if decide (channel_idx p = i) then 1 else 0) + in_flight i (delete sid pm))%nat.
Proof.
  intros Hs. rewrite <- (insert_delete_id pm sid p Hs) at 1. apply in_flight_insert. apply lookup_delete_eq.
Qed.
Lemma in_flight_zero i pm : in_flight i pm = 0%nat -> forall sid p, pm !! sid = Some p -> channel_idx p <> i.
Proof.
  intros Hz sid p Hs Hi. apply map_size_empty_iff in Hz. pose proof (map_lookup_filter_Some_2 (fun p => channel_idx p.2 = i) pm sid p Hs Hi) as Hf.
  cbv beta in Hz. rewrite Hz in Hf. by apply lookup_empty_Some in Hf.
Qed.

(** A channel counts one submission less when one comes back. *)
Lemma refs_return cs pm sid p f : refs_ok cs pm -> pm !! sid = Some p ->
  (forall c, rc_frames (f c) = rc_frames c /\ rc_pending_confirmations (f c) = (rc_pending_confirmations c - 1)%nat) ->
  refs_ok (alter f (channel_idx p) cs) (delete sid pm).
Proof.
  intros [Hr Hc] Hs Hf. split.
  - intros sid' q Hq. apply lookup_delete_Some in Hq as [_ Hq]. destruct (Hr _ _ Hq) as (c & Hi & H1 & H2).
    destruct (decide (channel_idx p = channel_idx q)) as [He|He].
    + exists (f c). rewrite He, list_lookup_alter_eq, Hi. split_and!; [done|done|]. by rewrite (proj1 (Hf c)).
    + exists c. by rewrite list_lookup_alter_ne.
  - intros i c Hi. destruct (decide (channel_idx p = i)) as [He|He].
    + rewrite <- He, list_lookup_alter_eq in Hi. destruct (cs !! channel_idx p) as [d|] eqn:Ed; [|done]. injection Hi as <-.
      rewrite (proj2 (Hf d)), (Hc _ _ Ed), (in_flight_delete _ _ _ _ Hs), decide_True by done. rewrite He. lia.
    + rewrite list_lookup_alter_ne in Hi by done. rewrite (Hc _ _ Hi), (in_flight_delete _ _ _ _ Hs), decide_False by done. done.
Qed.

(** Frames handed out. *)
Lemma refs_submit pre c post pm sid n : refs_ok (pre ++ c :: post) pm -> pm !! sid = None -> (1 <= n)%nat ->
  (rc_cursor c + n <= length (rc_frames c))%nat ->
  refs_ok (pre ++ advance_channel n c :: post) (<[sid := mkPendingRef (length pre) (rc_cursor c) n]> pm).
Proof.
  intros [Hr Hc] Hs Hn Hlen. rewrite <- alter_middle. split.
  - intros sid' q Hq. apply lookup_insert_Some in Hq as [[_ <-]|[_ Hq]].
    + exists (advance_channel n c). cbn. by rewrite alter_middle, list_lookup_middle.
    + destruct (Hr _ _ Hq) as (d & Hi & H1 & H2). destruct (decide (length pre = channel_idx q)) as [He|He].
      * exists (advance_channel n d). rewrite <- He in *. rewrite list_lookup_alter_eq, Hi. done.
      * exists d. by rewrite list_lookup_alter_ne.
  - intros i d Hi. rewrite in_flight_insert by done. cbn [channel_idx]. destruct (decide (length pre = i)) as [He|He].
    + rewrite <- He, list_lookup_alter_eq in Hi. destruct ((pre ++ c :: post) !! length pre) as [d'|] eqn:Ed; [|done].
      injection Hi as <-. cbn. rewrite (Hc _ _ Ed), He. done.
    + rewrite list_lookup_alter_ne in Hi by done. by rewrite (Hc _ _ Hi).
Qed.

(** A channel with nothing in flight joins. *)
Lemma refs_push cs pm c : refs_ok cs pm -> rc_pending_confirmations c = 0%nat -> refs_ok (cs ++ [c]) pm.
Proof.
  intros [Hr Hc] Hz. split.
  - intros sid p Hp. destruct (Hr _ _ Hp) as (d & Hi & H1). exists d. split; [|done]. by apply lookup_app_l_Some.
  - intros i d Hi. apply lookup_app_Some in Hi as [Hi|[Hlen Hi]]; [by apply Hc|].
    apply list_lookup_singleton_Some in Hi as [Hi <-]. rewrite Hz. symmetry. unfold in_flight. apply map_size_empty_iff, map_empty.
    intros sid. apply map_lookup_filter_None. right. intros p Hp. cbn. intros He. destruct (Hr _ _ Hp) as (d' & Hd & _).
    apply lookup_lt_Some in Hd. lia.
Qed.

(** The channels from one on leave, with their submissions. *)
Lemma refs_truncate cs pm k : refs_ok cs pm -> refs_ok (take k cs) (filter (fun p => (channel_idx p.2 < k)%nat) pm).
Proof.
  intros [Hr Hc]. split.
  - intros sid p [Hp Hk]%map_lookup_filter_Some. destruct (Hr _ _ Hp) as (c & Hi & H1). exists c. split; [|done].
    by rewrite lookup_take_lt.
  - intros i c [Hi Hlt]%lookup_take_Some. rewrite (Hc _ _ Hi). unfold in_flight. f_equal. rewrite map_filter_filter_l; [done|].
    cbn. lia.
Qed.

(** A channel with nothing in flight leaves, and the indices after it move down. *)
Lemma refs_retire cs pm k c : refs_ok cs pm -> cs !! k = Some c -> rc_pending_confirmations c = 0%nat ->
  refs_ok (delete k cs) (shift_ref k <$> pm).
Proof.
  intros [Hr Hc] Hk Hz. rewrite (Hc _ _ Hk) in Hz. pose proof (in_flight_zero _ _ Hz) as Hne. split.
  - intros sid p [q [<- Hq]]%lookup_fmap_Some. destruct (Hr _ _ Hq) as (d & Hi & H1 & H2). pose proof (Hne _ _ Hq). exists d. cbn.
    split; [|done]. case_decide.
    + rewrite list_lookup_delete_ge by lia. by replace (S (channel_idx q - 1)) with (channel_idx q) by lia.
    + by rewrite list_lookup_delete_lt by lia.
  - intros i d Hi. unfold in_flight. rewrite map_filter_fmap, map_size_fmap. 
    assert (Hj : exists j, cs !! j = Some d /\ forall q, channel_idx q <> k -> (channel_idx (shift_ref k q) = i <-> channel_idx q = j)).
    { destruct (decide (i < k)%nat).
      - rewrite list_lookup_delete_lt in Hi by done. exists i. split; [done|]. intros q Hq. cbn. case_decide; lia.
      - rewrite list_lookup_delete_ge in Hi by lia. exists (S i). split; [done|]. intros q Hq. cbn. case_decide; lia. }
    destruct Hj as (j & Hj & Heq). rewrite (Hc _ _ Hj). unfold in_flight. f_equal. apply map_filter_ext. intros sid q Hq. cbn.
    symmetry. apply Heq. by eapply Hne.
Qed.

(** What else changes in the channels. *)
Lemma refs_map cs pm f : refs_ok cs pm ->
  (forall c, rc_frames (f c) = rc_frames c /\ rc_pending_confirmations (f c) = rc_pending_confirmations c) -> refs_ok (f <$> cs) pm.
Proof.
  intros [Hr Hc] Hf. split.
  - intros sid p Hp. destruct (Hr _ _ Hp) as (c & Hi & H1 & H2). exists (f c). rewrite list_lookup_fmap, Hi.
    split_and!; [done|done|]. by rewrite (proj1 (Hf c)).
  - intros i d [c [-> Hi]]%list_lookup_fmap_Some. rewrite (proj2 (Hf c)). by apply Hc.
Qed.

(** * The invariant *)

(** The calls of [BatchPipeline]. A call of [reset] seeds the generator anew. *)
Inductive Op (R : Type) : Type :=
| OpAddBlock (b : BaseBlock)
| OpStep
| OpNext
| OpConfirm (sid l1_block : Z)
| OpRequeue (sid : Z)
| OpForceClose
| OpAdvance (l1_block : Z)
| OpReset (rng : R)
| OpPruneSafe (safe_l2_number : Z)
| OpOverride (active : bool).
Arguments OpAddBlock {R}.
Arguments OpStep {R}.
Arguments OpNext {R}.
Arguments OpConfirm {R}.
Arguments OpRequeue {R}.
Arguments OpForceClose {R}.
Arguments OpAdvance {R}.
Arguments OpReset {R}.
Arguments OpPruneSafe {R}.
Arguments OpOverride {R}.

Section safety.
Context {R : Type} `{ChannelRng R} `{EncoderLaws} `{SpanTxCodecs} `{SingleCodec}.
Implicit Types e : BatchEncoder R.

(** One call, with the submission it hands out. The caller sees a reorg or a
    composition error and calls on. *)
Definition apply_op (op : Op R) : stm (BatchEncoder R) (fault StepError) (option BatchSubmission) :=
  match op with
  | OpAddBlock b => modify (fun e => (add_block b e).2) ;; mret None
  | OpStep => _ ← enc_step; mret None
  | OpNext => next_submission
  | OpConfirm sid l1_block => confirm sid l1_block ;; mret None
  | OpRequeue sid => modify (requeue sid) ;; mret None
  | OpForceClose => force_close_channel ;; mret None
  | OpAdvance l1_block => advance_l1_head l1_block ;; mret None
  | OpReset rng => modify (enc_reset rng) ;; mret None
  | OpPruneSafe n => prune_safe n ;; mret None
  | OpOverride active => modify (set_override active) ;; mret None
  end.

Record channel_in (blocks : nat) (c : ReadyChannel) : Prop := {
  ci_cursor : cursor_ok c;
  ci_range : ((rc_block_range c).2 <= blocks)%nat;
}.

(** Single mode: the cursor and the ranges of the channels lie in the block queue, the
    open channel is a channel being built, the submissions are accounted for. *)
Record encoder_ok e : Prop := {
  eo_mode : batch_type (be_config e) = SingleType;
  eo_frame : fits U64_MAX (max_frame_size (be_config e));
  eo_cursor : (be_block_cursor e <= length (be_blocks e))%nat;
  eo_ready : Forall (channel_in (length (be_blocks e))) (be_ready_channels e);
  eo_open o : be_current_channel e = Some o -> exists raw, out_holds (oc_out o) raw;
  eo_refs : refs_ok (be_ready_channels e) (be_pending e);
  eo_ids sid : is_Some (be_pending e !! sid) -> sid < be_next_id e;
  eo_next : fits U64_MAX (be_next_id e);
}.

Lemma new_encoder_ok cfg config rng : batch_type config = SingleType -> fits U64_MAX (max_frame_size config) ->
  encoder_ok (new_encoder cfg config rng).
Proof.
  intros Hm Hf. split; cbn; try done. intros sid [p Hp]. by rewrite lookup_empty in Hp.
Qed.

(** A call that hands out nothing: submissions in flight can only leave. *)
Definition kept e e' : Prop := be_next_id e' = be_next_id e /\ dom (be_pending e') ⊆ dom (be_pending e).

Lemma kept_refl e : kept e e.
Proof. done. Qed.
Lemma kept_trans e1 e2 e3 : kept e1 e2 -> kept e2 e3 -> kept e1 e3.
Proof. intros [Ha Hb] [Hc Hd]. split; [congruence|set_solver]. Qed.

(** Closing a channel. *)
Lemma close_ok e : encoder_ok e -> exists e', close_current_channel e = (Ok tt, e') /\ encoder_ok e' /\
  kept e e'.
Proof.
  intros He. unfold close_current_channel.
  assert (Hspan : flush_span e = (Ok tt, e)) by (unfold flush_span; by rewrite (eo_mode e He)).
  rewrite (bind_run _ _ _ _ _ Hspan). erewrite bind_run by reflexivity. cbv beta. change (id e) with e.
  destruct (be_current_channel e) as [o|] eqn:Eo; [|by exists e].
  destruct (eo_open e He o Eo) as [raw Hraw]. destruct (channel_frames_total _ _ _ Hraw (eo_frame e He)) as [fs Hfs].
  erewrite bind_run by reflexivity. rewrite Hfs. unfold lift. erewrite bind_run by reflexivity. eexists. split; [reflexivity|].
  split; [|done]. destruct He as []. split; cbn; try done.
  - apply Forall_app. split; [done|]. constructor; [|done]. split; [unfold cursor_ok; cbn; lia|done].
  - by apply refs_push.
Qed.

Lemma timeout_ok e : encoder_ok e -> exists b e', check_channel_timeout e = (Ok b, e') /\ encoder_ok e' /\
  kept e e'.
Proof.
  intros He. unfold check_channel_timeout. erewrite bind_run by reflexivity. destruct (timed_out e); [|by exists false, e].
  destruct (close_ok e He) as (e' & Hr & He' & Hn). exists true, e'. by rewrite (bind_run _ _ _ _ _ Hr).
Qed.

(** Dropping a channel and those after it. *)
Lemma invalidate_ok i e : encoder_ok e -> encoder_ok (invalidate_ready_channel i e) /\
  kept e (invalidate_ready_channel i e).
Proof.
  intros He. unfold invalidate_ready_channel. destruct (be_ready_channels e !! i) as [c|] eqn:Ei; [|done].
  split; [|split; [done|]; apply dom_filter_subseteq]. destruct He as []. split; cbn; try done.
  - lia.
  - by apply Forall_take.
  - by apply refs_truncate.
  - intros sid [p [Hp _]%map_lookup_filter_Some]. by apply eo_ids0.
Qed.

(** Pruning blocks. *)
Lemma prune_ok n e : encoder_ok e -> (n <= length (be_blocks e))%nat ->
  exists e', prune_blocks n e = (Ok tt, e') /\ encoder_ok e' /\ kept e e'.
Proof.
  intros He Hn. unfold prune_blocks. rewrite decide_True by done. eexists. split; [done|]. split; [|done].
  destruct He as []. split; cbn; try done.
  - rewrite length_drop. lia.
  - apply Forall_fmap. eapply Forall_impl; [exact eo_ready0|]. intros c [Hc Hr]. split; [done|]. cbn. rewrite length_drop. lia.
  - by apply refs_map.
Qed.

(** A call returns, keeps the invariant and hands out at most one id. *)
Definition safe_call {A} (m : stm (BatchEncoder R) (fault StepError) A) e : Prop :=
  let '(r, e') := m e in returns r /\ encoder_ok e' /\ be_next_id e <= be_next_id e' <= be_next_id e + 1.

(** The calls that hand out nothing. *)
Definition quiet_call {A} (m : stm (BatchEncoder R) (fault StepError) A) e : Prop :=
  let '(r, e') := m e in returns r /\ encoder_ok e' /\ kept e e'.

Lemma quiet_safe {A} (m : stm (BatchEncoder R) (fault StepError) A) e : quiet_call m e -> safe_call m e.
Proof. unfold quiet_call, safe_call. destruct (m e) as [r e']. intros (Hr & He & Hn & _). split_and!; [done|done|lia|lia]. Qed.
Lemma quiet_run {A} (m : stm (BatchEncoder R) (fault StepError) A) e :
  (exists a e', m e = (Ok a, e') /\ encoder_ok e' /\ kept e e') -> quiet_call m e.
Proof. intros (a & e' & Hr & He' & Hn). unfold quiet_call. rewrite Hr. split_and!; [apply ok_returns|done|exact Hn]. Qed.
Lemma quiet_bind {A B} (m : stm (BatchEncoder R) (fault StepError) A) (f : A -> stm (BatchEncoder R) (fault StepError) B) e :
  quiet_call m e -> (forall a e', m e = (Ok a, e') -> encoder_ok e' -> quiet_call (f a) e') -> quiet_call (m ≫= f) e.
Proof.
  unfold quiet_call, mbind, stm_bind. intros Hm Hf. destruct (m e) as [[a|[x| |]] e']; destruct Hm as ([Hp Hu] & He' & Hk); [|done..].
  specialize (Hf a e' eq_refl He'). destruct (f a e') as [r e2]. destruct Hf as (Hr & He2 & Hk2). split_and!; [done|done|by eapply kept_trans].
Qed.
Lemma safe_run {A} (m : stm (BatchEncoder R) (fault StepError) A) e :
  (exists a e', m e = (Ok a, e') /\ encoder_ok e' /\ kept e e') -> safe_call m e.
Proof. intros Hr. by apply quiet_safe, quiet_run. Qed.

Lemma safe_then {A B} (m : stm (BatchEncoder R) (fault StepError) A) (b : B) e : safe_call m e -> safe_call (_ ← m; mret b) e.
Proof. unfold safe_call, mbind, stm_bind. destruct (m e) as [[a|[x| |]] e']; intros [[Hp Hf] He]; done. Qed.

Lemma compose_returns b : returns (block_to_single_batch b).
Proof.
  unfold block_to_single_batch. destruct (bb_transactions b) as [|tx txs]; [done|]. destruct (deposit_input tx) as [input|]; [|done].
  apply bind_returns; [|done]. pose proof (decode_calldata_returns input) as [Hp Hf].
  by destruct (decode_calldata input) as [i|[x| |]].
Qed.

(** The single branch of [step] on a block of the queue. *)
Lemma step_single_ok sb da e : encoder_ok e -> (be_block_cursor e < length (be_blocks e))%nat ->
  exists r e', step_single sb da e = (Ok r, e') /\ encoder_ok e' /\ kept e e'.
Proof.
  intros He Hlt. unfold step_single.
  assert (exists e1 o raw, (match be_current_channel e with None => open_new_channel (be_block_cursor e) e | Some _ => e end) = e1 /\
    be_current_channel e1 = Some o /\ out_holds (oc_out o) raw /\ encoder_ok e1 /\ kept e e1 /\
    be_block_cursor e1 = be_block_cursor e /\ be_blocks e1 = be_blocks e) as (e1 & o & raw & He1 & Eo & Hraw & Hok & Hn & Hc & Hb).
  { destruct (be_current_channel e) as [o|] eqn:Eo.
    - destruct (eo_open e He o Eo) as [raw Hraw]. by exists e, o, raw.
    - unfold open_new_channel. destruct (fill_id (be_rng e)) as [cid r']. eexists _, _, []. split; [done|]. split; [done|].
      split; [apply out_holds_new|]. split; [|done]. destruct He as []. split; cbn; try done.
      intros o [= <-]. exists []. apply out_holds_new. }
  rewrite (bind_run _ _ _ tt e1) by (unfold modify; by rewrite He1). erewrite bind_run by reflexivity. cbv beta.
  change (id e1) with e1. rewrite Eo. pose proof (add_single_outcome (oc_out o) raw sb Hraw) as Ha.
  destruct (out_add_batch (OutSingle sb) (oc_out o)) as [[[]|[x| |]] out']; destruct Ha as (_ & _ & Ha); try done.
  - destruct Ha as [Hh _]. erewrite bind_run by reflexivity. eexists _, _. split; [reflexivity|]. split; [|done].
    destruct Hok as []. split; cbn; try done; [rewrite Hb, Hc; lia|]. intros o' [= <-]. by eexists.
  - destruct Ha as [Hh _]. erewrite bind_run by reflexivity. set (e2 := set_current_channel _ e1).
    assert (He2 : encoder_ok e2).
    { destruct Hok as []. split; cbn; try done. intros o' [= <-]. by eexists. }
    destruct (close_ok e2 He2) as (e3 & Hr & He3 & Hn3). rewrite (bind_run _ _ _ _ _ Hr). exists ChannelClosed, e3.
    split; [done|]. split; [done|]. by apply (kept_trans e e2).
Qed.

Lemma step_ok e : encoder_ok e -> quiet_call enc_step e.
Proof.
  intros He. destruct (timeout_ok e He) as (b & e1 & Ht & He1 & Hn). unfold quiet_call, enc_step. rewrite (bind_run _ _ _ _ _ Ht).
  destruct b; [cbn; split_and!; [apply ok_returns|done|exact Hn]|]. erewrite bind_run by reflexivity. cbv beta. change (id e1) with e1.
  destruct (be_blocks e1 !! be_block_cursor e1) as [blk|] eqn:Eb; [|cbn; split_and!; [apply ok_returns|done|exact Hn]].
  apply lookup_lt_Some in Eb. rewrite (eo_mode e1 He1). pose proof (compose_returns blk) as [Hp Hf].
  destruct (block_to_single_batch blk) as [[sb info]|[x| |]]; try done.
  cbn [map_fail]. erewrite bind_run by reflexivity. cbv beta iota.
  destruct (step_single_ok sb (block_da_backlog_bytes blk) e1 He1 Eb) as (r & e2 & -> & He2 & Hn2).
  split; [apply ok_returns|]. split; [done|]. by eapply kept_trans.
Qed.

Lemma next_ok e : encoder_ok e -> be_next_id e < U64_MAX -> safe_call next_submission e.
Proof.
  intros He Hlt. unfold safe_call. assert (Hc : Forall cursor_ok (be_ready_channels e)).
  { eapply Forall_impl; [apply (eo_ready e He)|]. by intros c []. }
  destruct (next_submission_run e Hc) as [[-> _]|(pre & c & post & n & fs & sid & Hr & _ & Hn & Hl & -> & _ & -> & ->)].
  { split_and!; [apply ok_returns|done|lia|lia]. }
  assert (Hid : add64 (be_next_id e) 1 = be_next_id e + 1) by (apply wrap_id; pose proof (eo_next e He); unfold fits in *; lia).
  cbn. rewrite Hid. split_and!; [apply ok_returns| |lia|lia].
  assert (Hfresh : be_pending e !! be_next_id e = None).
  { destruct (be_pending e !! be_next_id e) eqn:Ep; [|done]. pose proof (eo_ids e He (be_next_id e) ltac:(by eexists)). lia. }
  destruct He as []. rewrite Hr in *. split; cbn; try done.
  - apply Forall_app in eo_ready0 as [Hpre [Hc0 Hpost]%Forall_cons]. apply Forall_app. split; [done|]. constructor; [|done].
    destruct Hc0. by split.
  - by apply refs_submit.
  - intros sid [q [[<- _]|[_ Hq]]%lookup_insert_Some]; [lia|]. specialize (eo_ids0 sid ltac:(by eexists)). lia.
  - unfold fits in *. lia.
Qed.

Lemma insert_alter {A} (f : A -> A) i (l : list A) x : l !! i = Some x -> <[i := f x]> l = alter f i l.
Proof.
  intros Hi. apply list_eq. intros j. destruct (decide (i = j)) as [<-|Hne].
  - rewrite list_lookup_alter_eq, Hi. apply list_lookup_insert_eq. by eapply lookup_lt_Some.
  - by rewrite list_lookup_alter_ne, list_lookup_insert_ne.
Qed.

(** A submission comes back: it is no longer in flight, and its channel is updated. *)
Lemma return_ok sid p f e : encoder_ok e -> be_pending e !! sid = Some p ->
  (forall c, rc_frames (f c) = rc_frames c /\ rc_pending_confirmations (f c) = (rc_pending_confirmations c - 1)%nat /\
     rc_block_range (f c) = rc_block_range c /\ (cursor_ok c -> cursor_ok (f c))) ->
  encoder_ok (set_pending (delete sid (be_pending e)) (set_ready_channels (alter f (channel_idx p) (be_ready_channels e)) e)).
Proof.
  intros He Hp Hf. destruct He as []. split; cbn; try done.
  - apply Forall_alter; [done|]. intros c _ [Hc Hr]. destruct (Hf c) as (_ & _ & Hrange & Hcur). split; [by apply Hcur|by rewrite Hrange].
  - apply refs_return; [done|done|]. intros c. by destruct (Hf c) as (? & ? & _).
  - intros s [q [_ Hq]%lookup_delete_Some]. apply eo_ids0. by eexists.
Qed.

(** A fully confirmed channel leaves with its blocks. *)
Lemma retire_ok i c e : encoder_ok e -> be_ready_channels e !! i = Some c -> rc_pending_confirmations c = 0%nat ->
  exists e', retire_channel i c e = (Ok tt, e') /\ encoder_ok e' /\ kept e e'.
Proof.
  intros He Hi Hz. unfold retire_channel. erewrite bind_run by reflexivity. set (e1 := set_pending _ _).
  assert (He1 : encoder_ok e1).
  { destruct He as []. split; cbn; try done.
    - by apply Forall_delete.
    - by eapply refs_retire.
    - intros s [q [q' [_ Hq]]%lookup_fmap_Some]. apply eo_ids0. by eexists. }
  assert (Hrange : ((rc_block_range c).2 <= length (be_blocks e1))%nat) by (apply (Forall_lookup_1 _ _ _ _ (eo_ready e He) Hi)).
  assert (Hk : kept e e1) by (split; [done|]; cbn; by rewrite dom_fmap).
  cbv beta zeta. case_decide; [|by exists e1]. destruct (prune_ok _ e1 He1 Hrange) as (e2 & Hr & He2 & Hn). exists e2.
  split_and!; [done|done|by eapply kept_trans].
Qed.

(** A confirmed submission is no longer in flight. *)
Lemma confirm_run sid l1_block e : encoder_ok e ->
  exists e', confirm sid l1_block e = (Ok tt, e') /\ encoder_ok e' /\ kept e e' /\ sid ∉ dom (be_pending e').
Proof.
  intros He. unfold confirm. erewrite bind_run by reflexivity. cbv beta. change (id e) with e.
  destruct (be_pending e !! sid) as [p|] eqn:Ep; [|exists e; split_and!; [done..|by apply not_elem_of_dom]].
  erewrite bind_run by reflexivity. cbv beta zeta.
  destruct (ro_ref _ _ (eo_refs e He) sid p Ep) as (c & Hi & _). rewrite Hi. erewrite bind_run by reflexivity. cbv beta.
  set (ch := confirm_frames (frame_count p) l1_block c). set (e2 := set_ready_channels _ _).
  assert (He2 : encoder_ok e2).
  { pose proof (return_ok sid p (confirm_frames (frame_count p) l1_block) e He Ep ltac:(done)) as Hok. unfold e2, ch.
    change (be_ready_channels (set_pending (delete sid (be_pending e)) e)) with (be_ready_channels e).
    rewrite (insert_alter (confirm_frames (frame_count p) l1_block) _ _ c Hi). exact Hok. }
  assert (Hch : be_ready_channels e2 !! channel_idx p = Some ch).
  { unfold e2. cbn. apply list_lookup_insert_eq. by eapply lookup_lt_Some. }
  assert (Hk : kept e e2) by (split; [done|]; cbn; rewrite dom_delete; set_solver).
  assert (Hgone : sid ∉ dom (be_pending e2)) by (cbn; rewrite dom_delete; set_solver).
  destruct (_ || _).
  { destruct (invalidate_ok (channel_idx p) e2 He2) as [Hok Hn]. eexists. split; [reflexivity|]. split; [done|].
    split; [by eapply kept_trans|]. destruct Hn. set_solver. }
  destruct (_ && _) eqn:Ed; [|by exists e2]. apply andb_true_iff in Ed as [_ Hz%Nat.eqb_eq].
  destruct (retire_ok _ _ e2 He2 Hch ltac:(done)) as (e3 & Hr & He3 & Hn3). exists e3.
  split_and!; [done|done|by eapply kept_trans|]. destruct Hn3. set_solver.
Qed.
Lemma confirm_ok sid l1_block e : encoder_ok e -> quiet_call (confirm sid l1_block) e.
Proof. intros He. apply quiet_run. destruct (confirm_run sid l1_block e He) as (e' & Hr & Hok & Hk & _). by exists tt, e'. Qed.

Lemma requeue_ok sid e : encoder_ok e ->
  encoder_ok (requeue sid e) /\ kept e (requeue sid e) /\ sid ∉ dom (be_pending (requeue sid e)).
Proof.
  intros He. unfold requeue. destruct (be_pending e !! sid) as [p|] eqn:Ep; [|split_and!; [done..|by apply not_elem_of_dom]].
  split_and!; [|split; [done|]|]; [|cbn; rewrite dom_delete; set_solver..].
  apply return_ok; [done|done|]. intros c. split_and!; [done..|]. unfold cursor_ok. cbn. case_decide; lia.
Qed.

Lemma advance_ok l1_block e : encoder_ok e -> quiet_call (advance_l1_head l1_block) e.
Proof.
  intros He. apply quiet_run. unfold advance_l1_head. erewrite bind_run by reflexivity. cbv beta. change (id e) with e.
  destruct (_ <=? _); [by exists tt, e|]. erewrite bind_run by reflexivity.
  assert (He1 : encoder_ok (set_l1_head l1_block e)) by (by destruct He; split).
  destruct (timeout_ok _ He1) as (b & e2 & Hr & He2 & Hn). rewrite (bind_run _ _ _ _ _ Hr). eexists tt, _. split; [reflexivity|].
  unfold invalidate_expired_ready_channels. destruct (list_find _ _) as [[i c]|].
  - destruct (invalidate_ok i e2 He2) as [Hok Hk]. split; [done|]. by apply (kept_trans _ e2).
  - done.
Qed.

Lemma safe_prefix_le n bs : (safe_prefix n bs <= length bs)%nat.
Proof. induction bs as [|b bs IH]; cbn; [lia|]. destruct (_ <=? _); lia. Qed.

Lemma prune_safe_ok n e : encoder_ok e -> quiet_call (prune_safe n) e.
Proof.
  intros He. apply quiet_run. unfold prune_safe. erewrite bind_run by reflexivity. cbv beta zeta. change (id e) with e.
  case_decide; [by exists tt, e|]. set (k := safe_prefix _ _). assert (k <= length (be_blocks e))%nat.
  { pose proof (safe_prefix_le n (take (be_block_cursor e) (be_blocks e))) as Hk. rewrite length_take in Hk. unfold k. lia. }
  destruct (prune_ok k e He) as (e' & -> & Hok); [done|]. by exists tt, e'.
Qed.

Lemma add_block_ok b e : encoder_ok e -> encoder_ok (add_block b e).2 /\ kept e (add_block b e).2.
Proof.
  intros He. unfold add_block. destruct (_ && _); [done|]. split; [|done]. destruct He as [].
  split; cbn; try done; rewrite ?length_app; [lia|]. eapply Forall_impl; [exact eo_ready0|]. intros c [Hc Hr]. split; [done|]. lia.
Qed.
Lemma reset_ok rng e : encoder_ok e ->
  encoder_ok (enc_reset rng e) /\ kept e (enc_reset rng e) /\ dom (be_pending (enc_reset rng e)) = ∅.
Proof.
  intros He. split_and!; [|split; [done|cbn; set_solver]|done]. destruct He as []. split; cbn; try done.
  intros s [q Hq]. by rewrite lookup_empty in Hq.
Qed.
Lemma override_ok active e : encoder_ok e -> encoder_ok (set_override active e) /\ kept e (set_override active e).
Proof. intros He. split; [|done]. by destruct He; split. Qed.

(** Every call is safe. *)
Lemma op_ok op e : encoder_ok e -> be_next_id e < U64_MAX -> safe_call (apply_op op) e.
Proof.
  intros He Hlt. destruct op; cbn [apply_op].
  - apply safe_run. eexists None, _. split; [reflexivity|]. by apply add_block_ok.
  - by apply safe_then, quiet_safe, step_ok.
  - by apply next_ok.
  - by apply safe_then, quiet_safe, confirm_ok.
  - apply safe_run. eexists None, _. split; [reflexivity|]. by destruct (requeue_ok sid e He) as (? & ? & _).
  - apply safe_then, safe_run. destruct (close_ok e He) as (e' & Hr). by exists tt, e'.
  - by apply safe_then, quiet_safe, advance_ok.
  - apply safe_run. eexists None, _. split; [reflexivity|]. by destruct (reset_ok rng e He) as (? & ? & _).
  - by apply safe_then, quiet_safe, prune_safe_ok.
  - apply safe_run. eexists None, _. split; [reflexivity|]. by apply override_ok.
Qed.

(** A sequence of calls: the results and the last state. *)
Fixpoint run_ops (ops : list (Op R)) e : list (result (fault StepError) (option BatchSubmission)) * BatchEncoder R :=
  match ops with
  | [] => ([], e)
  | op :: ops => let '(r, e) := apply_op op e in let '(rs, e) := run_ops ops e in (r :: rs, e)
  end.

Lemma run_ops_ok ops : forall e, encoder_ok e -> be_next_id e + Z.of_nat (length ops) <= U64_MAX ->
  let '(rs, e') := run_ops ops e in Forall returns rs /\ encoder_ok e'.
Proof.
  induction ops as [|op ops IH]; intros e He Hn; cbn [run_ops length] in *; [done|].
  pose proof (op_ok op e He ltac:(lia)) as Hop. unfold safe_call in Hop. destruct (apply_op op e) as [r e1]. destruct Hop as (Hr & He1 & Hn1).
  specialize (IH e1 He1 ltac:(lia)). destruct (run_ops ops e1) as [rs e2]. destruct IH as [Hrs He2]. split; [by constructor|done].
Qed.

(** C15: The encoder in single mode neither panics nor diverges, whatever the driver
    does: after any sequence of calls - blocks, steps, submissions, confirmations and
    requeues of any ids, timeouts, L1 heads, resets, pruning - every call has
    returned; the cursor and the ranges of the channels lie in the block queue;
    every submission in flight covers frames of the channel it points to; and
    every channel counts exactly its submissions in flight. *)
Theorem encoder_invariant cfg config rng ops :
  batch_type config = SingleType -> fits U64_MAX (max_frame_size config) -> zlen ops <= U64_MAX ->
  let '(rs, e) := run_ops ops (new_encoder cfg config rng) in Forall returns rs /\ encoder_ok e.
Proof. intros Hm Hf Hn. apply run_ops_ok; [by apply new_encoder_ok|exact Hn]. Qed.

(** The frames of the submissions that were confirmed, given those handed out. *)
Fixpoint landed (handed : gmap Z (list Frame)) (ops : list (Op R)) e : list Frame :=
  match ops with
  | [] => []
  | op :: ops =>
      let '(r, e) := apply_op op e in
      let handed := match r with Ok (Some sub) => <[sub_id sub := sub_frames sub]> handed | _ => handed end in
      match op with OpConfirm sid _ => default [] (handed !! sid) | _ => [] end ++ landed handed ops e
  end.
End safety.

(** * Span mode *)

(** A run that fails with an error, or satisfies [Q]. *)
Definition fails_or {S E A} (m : stm S (fault E) A) (s : S) (Q : A -> S -> Prop) : Prop :=
  match m s with
  | (Ok a, s') => Q a s'
  | (Err (Fail _), _) => True
  | (Err _, _) => False
  end.

Section span_mode.
Context `{SpanTxCodecs}.

Lemma fails_or_bind {S E A B} (m : stm S (fault E) A) (f : A -> stm S (fault E) B) s (P : A -> S -> Prop) (Q : B -> S -> Prop) :
  fails_or m s P -> (forall a s', P a s' -> fails_or (f a) s' Q) -> fails_or (m ≫= f) s Q.
Proof. unfold fails_or, mbind, stm_bind. intros Hm Hf. destruct (m s) as [[a|[x| |]] s']; [by apply Hf|done..]. Qed.

(** Adding transactions fails or every one of them is an Ethereum transaction. *)
Lemma add_one_decodes chain_id index raw t : fails_or (add_one chain_id index raw) t (fun _ _ => envelope_decode raw <> None).
Proof.
  unfold add_one. apply (fails_or_bind _ _ _ (fun _ _ => envelope_decode raw <> None)).
  { unfold fails_or, lift, or_invalid. by destruct (envelope_decode raw). }
  intros env t1 Hd. apply (fails_or_bind _ _ _ (fun _ _ => True)); [unfold fails_or, lift; by destruct env|].
  intros d t2 _. apply (fails_or_bind _ _ _ (fun _ _ => True)); [unfold fails_or; by case_decide|].
  intros _ t3 _. apply (fails_or_bind _ _ _ (fun _ _ => True)); [unfold fails_or, lift, or_invalid; by destruct (envelope_fields env)|].
  intros [[[[sig to] nonce] gas] cid] t4 _. apply (fails_or_bind _ _ _ (fun _ _ => True)); [|by intros].
  destruct (is_replay_protected env); [|done]. apply (fails_or_bind _ _ _ (fun _ _ => True)); [by destruct cid|].
  intros i t5 _. unfold guard_err. by destruct (negb _).
Qed.
Lemma add_loop_decodes chain_id raws : forall index t,
  fails_or (add_loop chain_id index raws) t (fun _ _ => Forall (fun raw => envelope_decode raw <> None) raws).
Proof.
  induction raws as [|raw raws IH]; intros index t; [constructor|]. cbn [add_loop]. eapply fails_or_bind; [apply add_one_decodes|].
  intros u t1 Hd. specialize (IH (add64 index 1) t1). unfold fails_or in *. destruct (add_loop _ _ _ t1) as [[[]|[x| |]] t2]; try done.
  by constructor.
Qed.

(** Appending a block no older than the last one. *)
Lemma append_decodes b seq_num s : Forall (fun el => el_timestamp el <= sb_timestamp b) (batches (span s)) ->
  fails_or (append_singular_batch b seq_num) s (fun _ s' => batches (span s') = batches (span s) ++ [element_of b] /\
    Forall (fun raw => envelope_decode raw <> None) (transactions b)).
Proof.
  intros Hts. unfold append_singular_batch. apply (fails_or_bind _ _ _ (fun a s' => a = s /\ s' = s)); [done|]. intros ? ? [-> ->].
  apply (fails_or_bind _ _ _ (fun _ s' => s' = s)).
  { destruct (batches (span s)) as [|el els _] using rev_ind; [done|]. destruct (els ++ [el]) as [|x l] eqn:E; [by destruct els|].
    rewrite <- E in *. rewrite peek_0. apply (fails_or_bind _ _ _ (fun a s' => a = el /\ s' = s)); [done|]. intros ? ? [-> ->].
    apply Forall_app in Hts as [_ [Hel _]%Forall_cons]. unfold fails_or, guard_err. rewrite Z.gtb_ltb, (proj2 (Z.ltb_ge _ _)) by lia. done. }
  intros _ ? ->. cbv zeta. apply (fails_or_bind _ _ _ (fun _ s' => s' = s)).
  { destruct (batches (span s)) as [|el els _] using rev_ind; [done|]. rewrite zlen_app. change (zlen [element_of b]) with 1.
    rewrite (proj2 (Z.eqb_neq _ _)) by (rewrite zlen_app; unfold zlen; cbn [length]; lia). by rewrite peek_1, peek_0. }
  intros [parent bit] ? ->. rewrite peek_0. apply (fails_or_bind _ _ _ (fun a s' => a = element_of b /\ s' = s)); [done|].
  intros ? ? [-> ->]. apply (fails_or_bind _ _ _ (fun _ s' => batches (span s') = batches (span s) ++ [element_of b])); [done|].
  intros _ s1 Hs1. unfold fails_or, zoom, add_txs. cbn [element_of el_transactions].
  set (t := span_txs s1). unfold mbind at 1, stm_bind at 1, gets at 1.
  pose proof (add_loop_decodes (span_chain_id s) (transactions b) (total_block_tx_count t) t) as Hl. unfold fails_or in Hl.
  unfold mbind, stm_bind. destruct (add_loop _ _ _ t) as [[[]|[x| |]] t2]; cbn; done.
Qed.

(** Appending blocks in the order of their times fails with an error or appends
    them all; it does not panic. *)
Lemma append_all_decodes l : forall s,
  Forall (fun el => Forall (fun p => el_timestamp el <= sb_timestamp p.1) l) (batches (span s)) ->
  (forall i p q, l !! i = Some p -> l !! S i = Some q -> sb_timestamp p.1 <= sb_timestamp q.1) ->
  fails_or (append_all l) s (fun _ _ => Forall (fun p => Forall (fun raw => envelope_decode raw <> None) (transactions p.1)) l).
Proof.
  unfold append_all. induction l as [|[b n] l IH]; intros s Hs Hl; [constructor|]. cbn [for_each].
  eapply fails_or_bind; [apply append_decodes|].
  { eapply Forall_impl; [exact Hs|]. intros el Hel. by apply Forall_cons in Hel as [Hel _]. }
  intros u s1 [Hb Hd]. assert (Hle : Forall (fun p => sb_timestamp b <= sb_timestamp p.1) l).
  { clear -Hl. revert b n Hl. induction l as [|[c m] l IH]; intros b n Hl; [constructor|].
    pose proof (Hl 0%nat _ _ eq_refl eq_refl) as Hbc. cbn in Hbc. constructor; [done|].
    assert (Hc : Forall (fun p => sb_timestamp c <= sb_timestamp p.1) l) by (apply (IH c m); intros i; apply (Hl (S i))).
    eapply Forall_impl; [exact Hc|]. intros p Hp. cbn in Hp. lia. }
  assert (Hs1 : Forall (fun el => Forall (fun p => el_timestamp el <= sb_timestamp p.1) l) (batches (span s1))).
  { rewrite Hb. apply Forall_app. split; [|by constructor]. eapply Forall_impl; [exact Hs|].
    intros el Hel. by apply Forall_cons in Hel as [_ Hel]. }
  specialize (IH s1 Hs1 (fun i => Hl (S i))). unfold fails_or in *. destruct (for_each l _ s1) as [[[]|[x| |]] s2]; try done.
  by constructor.
Qed.
End span_mode.

Section stuck.
Context {R : Type} `{ChannelRng R} `{Compression} `{Decompressors} `{SpanTxCodecs} `{SingleCodec}.
Implicit Types e : BatchEncoder R.

(** Span mode: the time of the accumulated blocks is up, and one of them holds a
    transaction that is none of Ethereum's. *)
Record stuck e : Prop := {
  sk_mode : batch_type (be_config e) = SpanType;
  sk_channel : be_current_channel e = None;
  sk_time : timed_out e = true;
  sk_order i p q : be_span_accumulator e !! i = Some p -> be_span_accumulator e !! S i = Some q -> sb_timestamp p.1 <= sb_timestamp q.1;
  sk_tx : exists b n raw, (b, n) ∈ be_span_accumulator e /\ raw ∈ transactions b /\ envelope_decode raw = None;
}.

Lemma stuck_flush e : stuck e -> flush_span e = (Ok tt, e).
Proof.
  intros [Hm Hc Ht Ho (b & n & raw & Hb & Hraw & Hd)]. unfold flush_span. destruct (_ && _); [|done]. cbv zeta.
  pose proof (append_all_decodes (be_span_accumulator e)
    (new_span (l2_time (genesis (be_rollup_config e))) (l2_chain_id (be_rollup_config e))) ltac:(constructor) Ho) as Ha.
  unfold fails_or in Ha. destruct (append_all _ _) as [[[]|[x| |]] s]; [|done..]. exfalso.
  rewrite Forall_forall in Ha. specialize (Ha _ Hb). rewrite Forall_forall in Ha. by apply (Ha raw Hraw).
Qed.

Lemma stuck_close e : stuck e -> close_current_channel e = (Ok tt, e).
Proof.
  intros Hs. unfold close_current_channel. rewrite (bind_run _ _ _ _ _ (stuck_flush e Hs)). erewrite bind_run by reflexivity. cbv beta.
  change (id e) with e. by rewrite (sk_channel e Hs).
Qed.
Lemma stuck_timeout e : stuck e -> check_channel_timeout e = (Ok true, e).
Proof.
  intros Hs. unfold check_channel_timeout. erewrite bind_run by reflexivity. rewrite (sk_time e Hs).
  by rewrite (bind_run _ _ _ _ _ (stuck_close e Hs)).
Qed.

(** C32: A block with a transaction of the chain's own type stops the batcher in span
    mode. Once the time of the accumulated blocks is up, every step tries to build
    the span batch, fails, and reports a closed channel without having changed
    anything; closing by force changes nothing either; running the encoder until it is
    idle does not end; and more blocks, or a later L1 head, do not help. *)
Theorem foreign_tx_stops_span e : stuck e ->
  enc_step e = (Ok ChannelClosed, e) /\ force_close_channel e = (Ok tt, e) /\
  (forall fuel, encode_and_drain fuel e = (Err OutOfFuel, e)) /\ (forall b, stuck (add_block b e).2) /\
  (forall l1_block, be_ready_channels e = [] -> stuck (advance_l1_head l1_block e).2).
Proof.
  intros Hs. assert (Hstep : enc_step e = (Ok ChannelClosed, e)).
  { unfold enc_step. by rewrite (bind_run _ _ _ _ _ (stuck_timeout e Hs)). }
  split_and!; [done|by apply stuck_close| | |].
  - intros fuel. unfold encode_and_drain. apply bind_run_err. induction fuel as [|fuel IH]; [done|]. cbn [step_until_idle].
    by rewrite (bind_run _ _ _ _ _ Hstep).
  - intros b. unfold add_block. destruct (_ && _); [done|]. by destruct Hs; split.
  - intros l1_block Hr. unfold advance_l1_head. erewrite bind_run by reflexivity. cbv beta. change (id e) with e.
    destruct (Z.leb_spec l1_block (be_l1_head e)); [done|]. erewrite bind_run by reflexivity.
    assert (Hs1 : stuck (set_l1_head l1_block e)).
    { destruct Hs as [Hm Hc Ht Ho Htx]. split; try done. unfold timed_out in *. cbn. rewrite Hm, Hc in *. cbn in *.
      destruct (be_span_opened_at_l1 e); [|done]. apply andb_true_iff in Ht as [-> Ht]. rewrite Z.geb_leb in *. apply Z.leb_le.
      apply Z.leb_le in Ht. unfold sat_sub in *. lia. }
    rewrite (bind_run _ _ _ _ _ (stuck_timeout _ Hs1)). unfold modify, invalidate_expired_ready_channels. cbn. by rewrite Hr.
Qed.
End stuck.

(** * Blocks that are lost *)

Create HintDb shrink.

Section lost.
Context {R : Type} `{ChannelRng R} `{EncoderLaws} `{SpanTxCodecs} `{SingleCodec}.
Implicit Types e : BatchEncoder R.

(** Blocks leave the queue at its front only. *)
Definition shrinks {A} (m : stm (BatchEncoder R) (fault StepError) A) : Prop :=
  forall e, exists n, be_blocks (m e).2 = drop n (be_blocks e).

Lemma shrinks_same {A} (m : stm (BatchEncoder R) (fault StepError) A) : (forall e, be_blocks (m e).2 = be_blocks e) -> shrinks m.
Proof. intros Hm e. exists 0%nat. by rewrite Hm. Qed.
Lemma shrinks_bind {A B} (m : stm (BatchEncoder R) (fault StepError) A) (f : A -> stm (BatchEncoder R) (fault StepError) B) :
  shrinks m -> (forall a, shrinks (f a)) -> shrinks (m ≫= f).
Proof.
  intros Hm Hf e. unfold mbind, stm_bind. destruct (Hm e) as [n Hn]. destruct (m e) as [[a|x] e1]; [|by exists n].
  destruct (Hf a e1) as [k Hk]. exists (n + k)%nat. rewrite Hk. cbn in Hn. by rewrite Hn, drop_drop.
Qed.

Lemma open_blocks start e : be_blocks (open_new_channel start e) = be_blocks e.
Proof. unfold open_new_channel. by destruct (fill_id _). Qed.
Lemma flush_blocks e : be_blocks (flush_span e).2 = be_blocks e.
Proof.
  unfold flush_span. destruct (_ && _); [|done]. destruct (append_all _ _) as [[?|[?| |]] sp]; [|done..].
  set (e' := match be_current_channel e with None => _ | Some _ => e end).
  assert (Hb : be_blocks e' = be_blocks e) by (unfold e'; destruct (be_current_channel e); [done|apply open_blocks]). clearbody e'.
  destruct (be_current_channel e'); [|done]. destruct (out_add_batch _ _) as [[?|[?| |]] ?]; done.
Qed.

Ltac shrink := repeat first [progress auto 1 with shrink nocore | apply shrinks_bind; [|intros ?] | by apply shrinks_same | progress cbv beta zeta
  | match goal with |- shrinks (match ?x with _ => _ end) => destruct x end].

Lemma close_shrinks : shrinks close_current_channel.
Proof. unfold close_current_channel. apply shrinks_bind; [apply shrinks_same, flush_blocks|intros _]. shrink. Qed.
#[local] Hint Resolve close_shrinks : shrink.
Lemma check_shrinks : shrinks check_channel_timeout.
Proof. unfold check_channel_timeout. shrink. Qed.
#[local] Hint Resolve check_shrinks : shrink.
Lemma step_shrinks : shrinks enc_step.
Proof.
  unfold enc_step. apply shrinks_bind; [apply check_shrinks|intros []]; [by apply shrinks_same|]. unfold step_single, step_span.
  shrink. apply shrinks_same. intros e. cbn. destruct (be_current_channel e); [done|apply open_blocks].
Qed.
#[local] Hint Resolve step_shrinks : shrink.
Lemma prune_shrinks n : shrinks (prune_blocks n).
Proof. intros e. unfold prune_blocks. case_decide; [by exists n|by exists 0%nat]. Qed.
#[local] Hint Resolve prune_shrinks : shrink.
Lemma invalidate_blocks i e : be_blocks (invalidate_ready_channel i e) = be_blocks e.
Proof. unfold invalidate_ready_channel. by destruct (be_ready_channels e !! i). Qed.
Lemma expired_blocks e : be_blocks (invalidate_expired_ready_channels e) = be_blocks e.
Proof. unfold invalidate_expired_ready_channels. destruct (list_find _ _) as [[i c]|]; [apply invalidate_blocks|done]. Qed.
Lemma confirm_shrinks sid l1_block : shrinks (confirm sid l1_block).
Proof.
  unfold confirm, retire_channel. shrink. apply shrinks_same. intros e. apply invalidate_blocks.
Qed.
#[local] Hint Resolve confirm_shrinks : shrink.
Lemma advance_shrinks l1_block : shrinks (advance_l1_head l1_block).
Proof. unfold advance_l1_head. shrink. apply shrinks_same. intros e. apply expired_blocks. Qed.
#[local] Hint Resolve advance_shrinks : shrink.

(** A call puts no block into the queue but the one it is given. *)
Lemma op_blocks op e b : b ∈ be_blocks (apply_op op e).2 -> b ∈ be_blocks e \/ op = OpAddBlock b.
Proof.
  assert (Hs : forall m : stm (BatchEncoder R) (fault StepError) (option BatchSubmission), shrinks m -> b ∈ be_blocks (m e).2 -> b ∈ be_blocks e).
  { intros m Hm Hb. destruct (Hm e) as [n Hn]. rewrite Hn in Hb. rewrite <- (take_drop n (be_blocks e)). apply elem_of_app. by right. }
  destruct op as [block | | | | | | | | |]; cbn [apply_op].
  - change ((modify (fun e => (add_block block e).2) ;; mret None) e).2 with (add_block block e).2. unfold add_block. case_match; [by left|].
    cbn. rewrite elem_of_app, list_elem_of_singleton. intros [|<-]; [by left|by right].
  - intros Hb. left. eapply Hs, Hb. shrink.
  - intros Hb. left. eapply Hs, Hb. unfold next_submission. shrink.
  - intros Hb. left. eapply Hs, Hb. shrink.
  - intros Hb. left. eapply Hs, Hb. shrink. apply shrinks_same. intros e'. cbn. unfold requeue. by destruct (be_pending e' !! _).
  - intros Hb. left. eapply Hs, Hb. shrink.
  - intros Hb. left. eapply Hs, Hb. shrink.
  - intros Hb. by apply not_elem_of_nil in Hb.
  - intros Hb. left. eapply Hs, Hb. unfold prune_safe. shrink.
  - intros Hb. left. eapply Hs, Hb. shrink.
Qed.
Lemma run_blocks ops b : forall e, b ∈ be_blocks (run_ops ops e).2 -> b ∈ be_blocks e \/ OpAddBlock b ∈ ops.
Proof.
  induction ops as [|op ops IH]; intros e; cbn [run_ops]; [by left|]. pose proof (op_blocks op e b) as Hop. destruct (apply_op op e) as [r e1].
  specialize (IH e1). destruct (run_ops ops e1) as [rs e2]. cbn in *. intros Hb. rewrite elem_of_cons.
  destruct (IH Hb) as [He1|Hin]; [destruct (Hop He1) as [|<-]|]; tauto.
Qed.

(** The blocks that a channel encodes. *)
Definition channel_blocks (c : ReadyChannel) e : list BaseBlock :=
  take ((rc_encoded_range c).2 - (rc_encoded_range c).1) (drop (rc_encoded_range c).1 (be_blocks e)).

(** The confirmation of [ref] in [l1_block] completes its channel [ch] in time. *)
Record completes (ref : PendingRef) (l1_block : Z) (ch : ReadyChannel) e : Prop := {
  cp_channel : be_ready_channels e !! channel_idx ref = Some ch;
  cp_frames : (length (rc_frames ch) <= rc_confirmed_count ch + frame_count ref)%nat;
  cp_last : rc_pending_confirmations ch = 1%nat;
  cp_time : l1_block <= sat_add U64_MAX (match rc_first_confirmed ch with Some first => Z.min first l1_block | None => l1_block end)
    (confirmation_channel_timeout e);
}.

(** Such a confirmation retires the channel. *)
Lemma confirm_completes sid l1_block ref ch e : encoder_ok e -> be_pending e !! sid = Some ref -> completes ref l1_block ch e ->
  exists e', confirm sid l1_block e = (Ok tt, e') /\ be_blocks e' = drop (rc_block_range ch).2 (be_blocks e) /\
    forall i c, (i < channel_idx ref)%nat -> be_ready_channels e !! i = Some c ->
      be_ready_channels e' !! i = Some (shift_ranges (rc_block_range ch).2 c).
Proof.
  intros He Hp [Hch Hfr Hlast Htime]. unfold confirm. erewrite bind_run by reflexivity. cbv beta. change (id e) with e. rewrite Hp.
  erewrite bind_run by reflexivity. cbv beta zeta. rewrite Hch. erewrite bind_run by reflexivity.
  assert (Hlt : (channel_idx ref < length (be_ready_channels e))%nat) by (by eapply lookup_lt_Some).
  pose proof (ci_range _ _ (Forall_lookup_1 _ _ _ _ (eo_ready e He) Hch)) as Hrange.
  cbn [rc_first_confirmed rc_confirmed_count rc_frames rc_pending_confirmations confirm_frames].
  rewrite (proj2 (Z.ltb_ge _ _) Htime), (proj2 (Nat.ltb_ge _ _) Hfr), (proj2 (Nat.leb_le _ _) Hfr), Hlast. cbn [orb andb Nat.sub Nat.eqb].
  unfold retire_channel. erewrite bind_run by reflexivity. cbn [rc_block_range confirm_frames]. set (n := (rc_block_range ch).2) in *.
  assert (Hi : forall i c, (i < channel_idx ref)%nat -> be_ready_channels e !! i = Some c ->
    delete (channel_idx ref) (<[channel_idx ref := confirm_frames (frame_count ref) l1_block ch]> (be_ready_channels e)) !! i = Some c).
  { intros i c Hlt' Hc. rewrite list_lookup_delete_lt by done. by rewrite list_lookup_insert_ne by lia. }
  case_decide as Hn.
  - unfold prune_blocks. cbn [be_blocks set_pending set_ready_channels]. rewrite decide_True by done. eexists. split; [done|]. split; [done|].
    intros i c Hlt' Hc. cbn. rewrite list_lookup_fmap, (Hi i c Hlt' Hc). done.
  - assert (Hn0 : n = 0%nat) by lia. eexists. split; [done|]. cbn. rewrite Hn0, drop_0. split; [done|]. intros i c Hlt' Hc.
    rewrite (Hi i c Hlt' Hc). unfold shift_ranges. destruct c as [? ? ? [] [] ? ? ? ? ?]. cbn. by rewrite !Nat.sub_0_r.
Qed.

End lost.

Module LostBlocks.
Import BatcherExample.

Definition info_tx : L2Tx := mkL2Tx 0x7E [] (Some (encode_calldata L1InfoExample.info)).
Definition block (n : Z) : BaseBlock := mkBaseBlock (100 + n) n (99 + n) (2 * n) 0 [] [info_tx].
(** Every block makes a channel of two frames, submitted one at a time. *)
Definition config : EncoderConfig :=
  mkEncoderConfig 1000 123 1000 0 1 SingleType Blob (approx_compr_ratio default_encoder_config) None.
Definition start : BatchEncoder Z := new_encoder RollupExample.all_forks config 7.

(** A block with an account-abstraction transaction (type [0x76]), in span mode, ten L1
    blocks after it was accumulated. *)
Definition span_config : EncoderConfig :=
  mkEncoderConfig 1000 123 10 0 1 SpanType Blob (approx_compr_ratio default_encoder_config) None.
Definition aa_block : BaseBlock := mkBaseBlock 101 1 100 2 0 [] [info_tx; mkL2Tx 0x76 [0x76; 200] None].
Definition waiting : BatchEncoder Z :=
  set_l1_head 10 (run_ops [OpAddBlock aa_block; OpStep] (new_encoder RollupExample.all_forks span_config 7)).2.

Lemma foreign_tx_stops_span_witness : stuck waiting /\ enc_step waiting = (Ok ChannelClosed, waiting).
Proof.
  assert (Hs : stuck waiting).
  { split; [reflexivity|reflexivity|reflexivity| |].
    - intros [|i] p q Hp Hq; vm_compute in Hp, Hq; discriminate Hq.
    - eexists _, _, [0x76; 200]. split; [apply list_elem_of_here|]. split; [apply list_elem_of_here|reflexivity]. }
  exact (conj Hs (proj1 (foreign_tx_stops_span waiting Hs))).
Defined.

Abbreviation encode_block n := [OpAddBlock (block n); OpStep].

(** Frame 0 is sent back twice and never lands; frame 1 lands twice. *)
Definition requeued : list (Op Z) :=
  encode_block 1 ++ [OpForceClose; OpNext; OpNext; OpRequeue 0; OpConfirm 1 1; OpNext; OpNext; OpRequeue 2; OpConfirm 3 1].
(** The channel of block 2 is confirmed first; that of block 1 times out. *)
Definition out_of_order : list (Op Z) :=
  encode_block 1 ++ [OpForceClose] ++ encode_block 2 ++
  [OpForceClose; OpNext; OpNext; OpNext; OpNext; OpConfirm 0 1; OpConfirm 2 2; OpConfirm 3 2; OpAdvance 200].
(** The channel of block 1 is confirmed while that of block 2 is open; then the latter
    times out. *)
Definition stale_start : list (Op Z) :=
  encode_block 1 ++ [OpForceClose] ++ encode_block 2 ++
  [OpNext; OpNext; OpConfirm 0 1; OpConfirm 1 1; OpForceClose; OpNext; OpNext; OpConfirm 2 2; OpAdvance 200].

(** The blocks in the queue, how many of them are encoded, the channels, and which
    frames of which channel have landed. *)
Definition outcome (ops : list (Op Z)) : list Z * nat * nat * list (Z * Z) :=
  let e := (run_ops ops start).2 in
  (bb_number <$> be_blocks e, be_block_cursor e, length (be_ready_channels e),
   (fun f => (be_val (frame_id f), number f)) <$> landed ∅ ops start).

(** Three ways to lose a block whose frames have not landed on L1. Every channel
    below has two frames. First, a requeue rewinds the cursor past frames already
    confirmed; these are submitted and counted again, so a channel is retired, and
    its block pruned, though frame 0 never landed. Second, confirming a later
    channel prunes the blocks of an earlier one, which has nothing to replay when
    it times out. Third, confirming a channel does not move the start of the open
    channel, which then replays nothing when it times out: block 2 stays in the queue,
    encoded, with no channel, and frame 1 of its channel never landed. *)
Lemma unlanded_blocks_lost :
  Forall (fun n => (fun c => number <$> rc_frames c) <$>
    be_ready_channels (run_ops (encode_block n ++ [OpForceClose]) start).2 = [[0; 1]]) [1; 2] /\
  outcome requeued = ([], 0%nat, 0%nat, [(7, 1); (7, 1)]) /\
  outcome out_of_order = ([], 0%nat, 0%nat, [(7, 0); (8, 0); (8, 1)]) /\
  outcome stale_start = ([2], 1%nat, 0%nat, [(7, 0); (7, 1); (8, 0)]) /\
  (apply_op OpStep (run_ops stale_start start).2).2 = (run_ops stale_start start).2.
Proof. split; [repeat constructor; vm_compute; reflexivity|]. split_and!; vm_compute; reflexivity. Qed.

(** The encoder of the second run before the confirmation that completes the channel of block 2. *)
Definition crossing : BatchEncoder Z := (run_ops (take 12 out_of_order) start).2.
Definition nth_channel (k : nat) : ReadyChannel :=
  default (mkReadyChannel [] [] 0 (0, 0)%nat (0, 0)%nat 0 0 0 None None) (be_ready_channels crossing !! k).

Lemma crossing_ok : encoder_ok crossing.
Proof.
  assert (Hs : encoder_ok start) by (apply new_encoder_ok; [reflexivity|by_eval]).
  assert (Hn : be_next_id start + Z.of_nat (length (take 12 out_of_order)) <= U64_MAX) by (vm_compute; discriminate).
  pose proof (run_ops_ok (take 12 out_of_order) start Hs Hn) as Hr. rewrite (surjective_pairing (run_ops _ _)) in Hr. exact (proj2 Hr).
Qed.

Lemma crossing_distinct : NoDup (be_blocks crossing).
Proof.
  assert (Hb : be_blocks crossing = [block 1; block 2]) by (vm_compute; reflexivity). rewrite Hb. apply NoDup_cons.
  split; [|apply NoDup_singleton]. intros Hin. apply list_elem_of_singleton in Hin. discriminate Hin.
Qed.


Lemma encoder_invariant_witness :
  let '(rs, e) := run_ops stale_start start in Forall returns rs /\ encoder_ok e.
Proof. apply (encoder_invariant RollupExample.all_forks config 7 stale_start); [reflexivity|by_eval|by vm_compute]. Defined.
End LostBlocks.
