(* ===== verification/Throttle.v ===== *)
(** The throttle of the batcher ([src/crates/batcher/core/src/throttle.rs]): the limits on
    the data of a block and of a transaction that the batcher asks of the block builder
    when its backlog grows. The client of the builder is the list of the limits it was
    given; whether a call succeeds is an input. *)

From S2P Require Import Prelude Buffer Compress.
From Stdlib Require Import SpecFloat.

(** * More of [f64] *)

Module Float.
Import F64.

Definition sub (x y : spec_float) : spec_float := SFsub prec emax x y.
Definition eqb (x y : spec_float) : bool := SFeqb x y.
Definition zero : spec_float := S754_zero false.
Definition one : spec_float := of_u64 1.

(** [f64::min]: not-a-number loses. *)
Definition fmin (x y : spec_float) : spec_float :=
  match x, y with
  | S754_nan, _ => y
  | _, S754_nan => x
  | _, _ => if lt y x then y else x
  end.

(** [f64::round]: to the nearest integer, halves away from zero. *)
Definition round (x : spec_float) : spec_float :=
  match x with
  | S754_finite s m e =>
      if 0 <=? e then x
      else
        let n := Z.shiftr (Zpos m + Z.shiftl 1 (- e - 1)) (- e) in
        binary_normalize prec emax (if s then - n else n) 0 s
  | _ => x
  end.
End Float.

(** * The controller *)

Record ThrottleConfig : Type := mkThrottleConfig {
  threshold_bytes : Z;
  max_intensity : spec_float;
  block_size_lower_limit : Z;
  block_size_upper_limit : Z;
  tx_size_lower_limit : Z;
  tx_size_upper_limit : Z;
}.

(** [ThrottleConfig::default] *)
Definition default_throttle_config : ThrottleConfig := mkThrottleConfig 1000000 Float.one 2000 130000 150 20000.

Record ThrottleParams : Type := mkThrottleParams {
  intensity : spec_float;
  max_block_size : Z;
  max_tx_size : Z;
}.

Definition is_throttling (p : ThrottleParams) : bool := F64.lt Float.zero (intensity p).

Inductive ThrottleStrategy : Type := Off | Step | Linear.
#[export] Instance ThrottleStrategy_eq_dec : EqDecision ThrottleStrategy.
Proof. solve_decision. Defined.

Record ThrottleController : Type := mkController {
  tc_config : ThrottleConfig;
  tc_strategy : ThrottleStrategy;
}.

(** [ThrottleController::noop] *)
Definition noop_controller : ThrottleController :=
  mkController (mkThrottleConfig 0 Float.zero (block_size_lower_limit default_throttle_config)
    (block_size_upper_limit default_throttle_config) (tx_size_lower_limit default_throttle_config)
    (tx_size_upper_limit default_throttle_config)) Off.

(** One of the two limits of [compute_limits]. *)
Definition scaled_limit (upper lower : Z) (i : spec_float) : Z :=
  let range := Float.sub (F64.of_u64 upper) (F64.of_u64 lower) in
  F64.to_usize (Float.round (Float.sub (F64.of_u64 upper) (F64.mul i range))).

(** [compute_limits]: the limits of a block and of a transaction. *)
Definition compute_limits (c : ThrottleController) (i : spec_float) : Z * Z :=
  let config := tc_config c in
  (scaled_limit (block_size_upper_limit config) (block_size_lower_limit config) i,
   scaled_limit (tx_size_upper_limit config) (tx_size_lower_limit config) i).

(** [ThrottleController::update] *)
Definition throttle_update (c : ThrottleController) (da_backlog_bytes : Z) : option ThrottleParams :=
  let config := tc_config c in
  match tc_strategy c with
  | Off => None
  | Step =>
      if da_backlog_bytes >=? threshold_bytes config then
        let '(block, tx) := compute_limits c (max_intensity config) in
        Some (mkThrottleParams (max_intensity config) block tx)
      else None
  | Linear =>
      if da_backlog_bytes <? threshold_bytes config then None
      else
        let excess := wrap U64_MAX (da_backlog_bytes - threshold_bytes config) in
        let range := Z.max (threshold_bytes config) 1 in
        let ratio := Float.fmin (F64.div (F64.of_u64 excess) (F64.of_u64 range)) Float.one in
        let i := F64.mul ratio (max_intensity config) in
        if Float.eqb i Float.zero then None
        else
          let '(block, tx) := compute_limits c i in
          Some (mkThrottleParams i block tx)
  end.

(** * The throttle *)

(** [DaThrottle]: limits are pairs of a transaction and a block size. *)
Record DaThrottle : Type := mkThrottle {
  dt_controller : ThrottleController;
  dt_client : list (Z * Z);
  dt_last_applied : option (Z * Z);
}.

Definition new_throttle (c : ThrottleController) : DaThrottle := mkThrottle c [] None.

(** The limits for a backlog: those of the controller, or the upper ones. *)
Definition target_limits (c : ThrottleController) (backlog_bytes : Z) : Z * Z :=
  match throttle_update c backlog_bytes with
  | None => (tx_size_upper_limit (tc_config c), block_size_upper_limit (tc_config c))
  | Some p => (max_tx_size p, max_block_size p)
  end.

Definition throttling (c : ThrottleController) (backlog_bytes : Z) : bool :=
  match throttle_update c backlog_bytes with Some p => is_throttling p | None => false end.

(** [DaThrottle::apply]; [ok] is the result of [set_max_da_size]. *)
Definition throttle_apply (ok : bool) (backlog_bytes : Z) (t : DaThrottle) : bool * DaThrottle :=
  let active := throttling (dt_controller t) backlog_bytes in
  let new_limits := target_limits (dt_controller t) backlog_bytes in
  if bool_decide (dt_last_applied t = Some new_limits) then (active, t)
  else if ok then (active, mkThrottle (dt_controller t) (dt_client t ++ [new_limits]) (Some new_limits))
  else (active, t).

Record ThrottleInfo : Type := mkThrottleInfo {
  ti_strategy : ThrottleStrategy;
  ti_threshold_bytes : Z;
  ti_max_intensity : spec_float;
  ti_current_intensity : spec_float;
  ti_max_block_size : Z;
  ti_max_tx_size : Z;
}.

(** [DaThrottle::snapshot] *)
Definition snapshot (t : DaThrottle) (backlog_bytes : Z) : ThrottleInfo :=
  let config := tc_config (dt_controller t) in
  let params := throttle_update (dt_controller t) backlog_bytes in
  mkThrottleInfo (tc_strategy (dt_controller t)) (threshold_bytes config) (max_intensity config)
    (match params with Some p => intensity p | None => Float.zero end)
    (match params with Some p => max_block_size p | None => block_size_upper_limit config end)
    (match params with Some p => max_tx_size p | None => tx_size_upper_limit config end).

(** [DaThrottle::set_controller] *)
Definition set_controller (c : ThrottleController) (t : DaThrottle) : DaThrottle := mkThrottle c (dt_client t) None.

(** [DaThrottle::reset] *)
Definition throttle_reset (t : DaThrottle) : DaThrottle := mkThrottle (dt_controller t) (dt_client t) None.

(** * The limits in force *)

(** The limits the builder was last given are those the throttle remembers. *)
Definition throttle_ok (t : DaThrottle) : Prop := forall l, dt_last_applied t = Some l -> last (dt_client t) = Some l.

Lemma throttle_apply_ok ok backlog t : throttle_ok t ->
  throttle_ok (throttle_apply ok backlog t).2 /\ dt_controller (throttle_apply ok backlog t).2 = dt_controller t /\
  (ok = true -> last (dt_client (throttle_apply ok backlog t).2) = Some (target_limits (dt_controller t) backlog)).
Proof.
  intros Ht. unfold throttle_apply. case_bool_decide as Hl; cbn [snd]; [split_and!; [done|done|intros _; by apply Ht]|].
  destruct ok; [|done]. split_and!; [|done|intros _; apply last_snoc].
  intros l [= <-]. apply last_snoc.
Qed.

(** The cases of the unit tests of the controller. *)
Lemma update_cases :
  let c s := mkController (mkThrottleConfig 1000 (F64.div (F64.of_u64 8) (F64.of_u64 10)) 2000 130000 150 20000) s in
  throttle_update (c Off) 5000 = None /\ throttle_update (c Step) 999 = None /\
  (max_block_size <$> throttle_update (c Step) 1000) = Some 27600 /\ throttle_update (c Linear) 1000 = None /\
  (max_block_size <$> throttle_update (c Linear) 1500) = Some 78800 /\
  (max_tx_size <$> throttle_update (c Linear) 2000) = Some 4120.
Proof. vm_compute. by repeat split. Qed.
