(* ===== verification/TxFees.v ===== *)
(** * Errors, configuration and fees of the transaction manager

    The classification of RPC errors, the configuration, the fee calculator and the fee estimates of
    [crates/utilities/tx-manager] ([error.rs], [config.rs], [fees.rs], [candidate.rs] and the
    estimating methods of [manager.rs]).  What the provider answers is an input. *)
From Stdlib Require Import String Ascii.
From stdpp Require Import base list option.
From S2P Require Import Prelude.

Local Open Scope Z_scope.

(** [TxCandidate] *)
Record TxCandidate : Type := mkCandidate {
  tx_data : list Z;
  tx_blobs : list (list Z);
  tx_to : option Z;
  tx_gas_limit : Z;
  tx_value : Z;
}.
Definition is_blob (c : TxCandidate) : bool := bool_decide (tx_blobs c <> []).

(** * Errors *)

(** [TxManagerError]; the texts that only go to log lines are dropped. *)
Inductive TxManagerError : Type :=
| NonceTooLow
| NonceTooHigh
| InsufficientFunds
| IntrinsicGasTooLow
| ExecutionReverted
| MempoolDeadlineExpired
| AlreadyReserved
| NonceOverflow
| NonceAcquisitionFailed
| ChannelClosed
| FeeLimitExceeded (fee ceiling : Z)
| InvalidSafeAbortNonceTooLowCount
| Unsupported
| Sign
| SendTimeout
| InvalidConfig
| WalletConstruction
| Underpriced
| ReplacementUnderpriced
| FeeTooLow
| MaxFeePerGasTooLow
| AlreadyKnown
| Rpc.
#[global] Instance TxManagerError_eq_dec : EqDecision TxManagerError.
Proof. solve_decision. Defined.

Definition is_retryable (e : TxManagerError) : bool :=
  match e with
  | Underpriced | ReplacementUnderpriced | FeeTooLow | MaxFeePerGasTooLow | AlreadyKnown | Rpc => true
  | _ => false
  end.
Definition is_already_known (e : TxManagerError) : bool := match e with AlreadyKnown => true | _ => false end.

(** [TransportError]: the answer of a server with its message, or any other failure. *)
Inductive TransportError : Type := ErrorResp (message : string) | OtherTransport.

Definition ascii_lowercase (c : ascii) : ascii :=
  let n := nat_of_ascii c in if ((65 <=? n) && (n <=? 90))%nat then ascii_of_nat (n + 32) else c.
Fixpoint to_ascii_lowercase (s : string) : string :=
  match s with EmptyString => EmptyString | String c s => String (ascii_lowercase c) (to_ascii_lowercase s) end.
Fixpoint contains (sub s : string) : bool :=
  String.prefix sub s || match s with EmptyString => false | String _ s => contains sub s end.

(** [RpcErrorClassifier::classify_rpc_error] *)
Definition classify_rpc_error (e : TransportError) : TxManagerError :=
  match e with
  | OtherTransport => Rpc
  | ErrorResp message =>
      let lowered := to_ascii_lowercase message in
      if contains "replacement transaction underpriced" lowered then ReplacementUnderpriced
      else if contains "transaction underpriced" lowered then Underpriced
      else if contains "nonce too low" lowered then NonceTooLow
      else if contains "nonce too high" lowered then NonceTooHigh
      else if contains "insufficient funds" lowered then InsufficientFunds
      else if contains "intrinsic gas too low" lowered then IntrinsicGasTooLow
      else if contains "execution reverted" lowered then ExecutionReverted
      else if contains "fee too low" lowered then FeeTooLow
      else if contains "max fee per gas less than block base fee" lowered then MaxFeePerGasTooLow
      else if contains "already known" lowered || contains "transaction already in pool" lowered then AlreadyKnown
      else Rpc
  end.

(** What a call of the provider comes to: it times out, fails, or answers. *)
Inductive NetFault : Type := TimedOut | Transport (e : TransportError).
Definition net_error (f : NetFault) : TxManagerError :=
  match f with TimedOut => Rpc | Transport e => classify_rpc_error e end.
Definition answer {A} (r : result NetFault A) : result TxManagerError A :=
  match r with Ok a => Ok a | Err f => Err (net_error f) end.

(** * Configuration *)

Record TxManagerConfig : Type := mkTxConfig {
  num_confirmations : Z;
  safe_abort_nonce_too_low_count : Z;
  fee_limit_multiplier : Z;
  fee_limit_threshold : Z;
  min_tip_cap : Z;
  min_basefee : Z;
  network_timeout : Z;
  resubmission_timeout : Z;
  receipt_query_interval : Z;
  tx_send_timeout : Z;
  tx_not_in_mempool_timeout : Z;
  confirmation_timeout : Z;
  min_blob_fee : Z;
}.

(** [TxManagerConfig::default], times in seconds *)
Definition default_tx_config : TxManagerConfig :=
  mkTxConfig 10 3 5 100000000000 0 0 10 48 12 0 120 300 1000000000.

(** [TxManagerConfig::validate]: the field that is zero, if there is one. *)
Definition validate_tx_config (c : TxManagerConfig) : result string unit :=
  if num_confirmations c =? 0 then Err "num_confirmations"%string
  else if safe_abort_nonce_too_low_count c =? 0 then Err "safe_abort_nonce_too_low_count"%string
  else if fee_limit_multiplier c =? 0 then Err "fee_limit_multiplier"%string
  else if network_timeout c =? 0 then Err "network_timeout"%string
  else if resubmission_timeout c =? 0 then Err "resubmission_timeout"%string
  else if receipt_query_interval c =? 0 then Err "receipt_query_interval"%string
  else if confirmation_timeout c =? 0 then Err "confirmation_timeout"%string
  else if min_blob_fee c =? 0 then Err "min_blob_fee"%string
  else Ok tt.

(** * The fee calculator *)

Definition calc_gas_fee_cap (base_fee tip : Z) : Z := sat_add U128_MAX tip (sat_mul U128_MAX base_fee 2).
Definition base_fee_from_caps (gas_fee_cap gas_tip_cap : Z) : Z := sat_sub gas_fee_cap gas_tip_cap / 2.
Definition calc_blob_fee_cap (blob_base_fee : Z) : Z := sat_mul U128_MAX blob_base_fee 2.

Definition calc_threshold_value (x : Z) (blob : bool) : Z :=
  if x =? 0 then 0
  else
    let bump := if blob then x else let v := x / 10 in if v >? 0 then v else 1 in
    sat_add U128_MAX x bump.

Definition update_fees (old_tip old_fee_cap new_tip new_base_fee : Z) (blob : bool) : Z * Z :=
  let threshold_tip := calc_threshold_value old_tip blob in
  let threshold_fee_cap := calc_threshold_value old_fee_cap blob in
  let new_fee_cap := calc_gas_fee_cap new_base_fee new_tip in
  let tip := if new_tip >=? threshold_tip then new_tip else threshold_tip in
  let fee_cap :=
    if new_fee_cap >=? threshold_fee_cap then calc_gas_fee_cap new_base_fee tip
    else if threshold_fee_cap >? tip then threshold_fee_cap
    else tip in
  (tip, fee_cap).

Definition check_limits (fee suggested multiplier threshold : Z) : result TxManagerError unit :=
  if suggested <? threshold then Ok tt
  else
    let ceiling := sat_mul U128_MAX multiplier suggested in
    if fee >? ceiling then Err (FeeLimitExceeded fee ceiling) else Ok tt.

Record FeeOverride : Type := mkFeeOverride {
  fo_gas_tip_cap : Z;
  fo_gas_fee_cap : Z;
  fo_blob_fee_cap : option Z;
  fo_gas_limit_floor : Z;
}.

Record GasPriceCaps : Type := mkCaps {
  gas_tip_cap : Z;
  gas_fee_cap : Z;
  raw_gas_fee_cap : Z;
  blob_fee_cap : option Z;
  raw_blob_fee_cap : option Z;
}.

Record BumpedFees : Type := mkBumped {
  bf_gas_tip_cap : Z;
  bf_gas_fee_cap : Z;
  bf_blob_fee_cap : option Z;
  bf_caps : GasPriceCaps;
}.
Definition to_fee_override (b : BumpedFees) (gas_limit_floor : Z) : FeeOverride :=
  mkFeeOverride (bf_gas_tip_cap b) (bf_gas_fee_cap b) (bf_blob_fee_cap b) gas_limit_floor.

(** * Estimates *)

(** The answers of the provider to the three calls of an estimate: the tip, the latest block with
    its base fee, and the blob base fee. *)
Record Quote : Type := mkQuote {
  quote_tip : result NetFault Z;
  quote_block : result NetFault (option (option Z));
  quote_blob : result NetFault Z;
}.

Section fees.
Context (cfg : TxManagerConfig).

Definition check_fee_limit (fee suggested : Z) : result TxManagerError unit :=
  check_limits fee suggested (fee_limit_multiplier cfg) (fee_limit_threshold cfg).

Definition raw_blob_baseline (caps : GasPriceCaps) : result TxManagerError Z :=
  match raw_blob_fee_cap caps with Some b => Ok b | None => Err Unsupported end.

Definition check_fee_limits (fee_cap : Z) (blob_cap : option Z) (caps : GasPriceCaps) : result TxManagerError unit :=
  _ ← check_fee_limit fee_cap (raw_gas_fee_cap caps);
  match blob_cap with
  | Some b => raw ← raw_blob_baseline caps; check_fee_limit b raw
  | None => Ok tt
  end.

(** [suggest_gas_price_caps_for] *)
Definition suggest_gas_price_caps_for (blob : bool) (q : Quote) : result TxManagerError GasPriceCaps :=
  raw_tip_cap ← answer (quote_tip q);
  block ← answer (quote_block q);
  header ← match block with Some h => Ok h | None => Err Rpc end;
  raw_base_fee ← match header with Some f => Ok f | None => Err Rpc end;
  let raw_gas := calc_gas_fee_cap raw_base_fee raw_tip_cap in
  let tip_cap := Z.max raw_tip_cap (min_tip_cap cfg) in
  let base_fee := Z.max raw_base_fee (min_basefee cfg) in
  let fee_cap := calc_gas_fee_cap base_fee tip_cap in
  if blob then
    raw_blob ← answer (quote_blob q);
    Ok (mkCaps tip_cap fee_cap raw_gas (Some (calc_blob_fee_cap (Z.max raw_blob (min_blob_fee cfg))))
          (Some (calc_blob_fee_cap raw_blob)))
  else Ok (mkCaps tip_cap fee_cap raw_gas None None).

(** [increase_gas_price] *)
Definition increase_gas_price (c : TxCandidate) (q : Quote) (old_tip old_fee_cap : Z) (old_blob_fee_cap : option Z) :
    result TxManagerError BumpedFees :=
  if negb (eqb (bool_decide (is_Some old_blob_fee_cap)) (is_blob c)) then Err Unsupported
  else
    caps ← suggest_gas_price_caps_for (is_blob c) q;
    let new_base_fee := base_fee_from_caps (gas_fee_cap caps) (gas_tip_cap caps) in
    let '(tip, fee_cap) := update_fees old_tip old_fee_cap (gas_tip_cap caps) new_base_fee (is_blob c) in
    let blob :=
      (fun old => let threshold := calc_threshold_value old true in
                  match blob_fee_cap caps with Some network => Z.max threshold network | None => threshold end) <$> old_blob_fee_cap in
    _ ← check_fee_limits fee_cap blob caps;
    Ok (mkBumped tip fee_cap blob caps).
End fees.
