(* ===== verification/TxNonce.v ===== *)
(** * The nonces of the transaction manager

    [NonceManager] ([crates/utilities/tx-manager/src/nonce.rs]): the nonce counter shared by all
    sends.  Every definition is what happens under one hold of the lock; while the lock is free
    between them, other sends may run. *)
From stdpp Require Import base list option sorting.
From S2P Require Import Prelude TxFees.

Local Open Scope Z_scope.

(** [NonceState]; the set of returned nonces is its sorted list. *)
Record NonceState : Type := mkNonces {
  ns_nonce : option Z;
  ns_generation : Z;
  ns_high_water : Z;
  ns_returned : list Z;
}.
Definition new_nonces : NonceState := mkNonces None 0 0 [].
Definition set_nonce (n : option Z) (s : NonceState) : NonceState :=
  mkNonces n (ns_generation s) (ns_high_water s) (ns_returned s).
Definition set_returned (l : list Z) (s : NonceState) : NonceState :=
  mkNonces (ns_nonce s) (ns_generation s) (ns_high_water s) l.
Definition set_high_water (n : Z) (s : NonceState) : NonceState :=
  mkNonces (ns_nonce s) (ns_generation s) n (ns_returned s).

(** Insertion into a sorted set. *)
Fixpoint btree_insert (x : Z) (l : list Z) : list Z :=
  match l with
  | [] => [x]
  | y :: l' => if x <? y then x :: l else if x =? y then l else y :: btree_insert x l'
  end.

(** [NonceGuard], of which the lock is left implicit. *)
Record NonceGuard : Type := mkGuard { guard_nonce : Z; guard_recycled : bool }.

Abbreviation nonce_act := (stm NonceState TxManagerError).

Definition advance_nonce (nonce : Z) : nonce_act NonceGuard := fun s =>
  match ns_returned s with
  | n :: rest => (Ok (mkGuard n true), set_returned rest s)
  | [] =>
      let effective := Z.max nonce (ns_high_water s) in
      match checked_add U64_MAX effective 1 with
      | None => (Err NonceOverflow, s)
      | Some next => (Ok (mkGuard effective false), set_nonce (Some next) s)
      end
  end.

(** [next_nonce] up to the fetch: a nonce, or the generation of a cache that is empty. *)
Definition lookup_nonce : nonce_act (NonceGuard + Z) :=
  cached ← gets ns_nonce;
  match cached with
  | Some n => g ← advance_nonce n; mret (inl g)
  | None => gets (fun s => inr (ns_generation s))
  end.

(** [next_nonce] from the fetch on: a nonce, or nothing when the cache was reset meanwhile. *)
Definition store_fetched (generation fetched : Z) : nonce_act (option NonceGuard) :=
  current ← gets ns_generation;
  if negb (current =? generation) then mret None
  else
    nonce ← gets (fun s => default fetched (ns_nonce s));
    modify (set_nonce (Some nonce)) ;;
    modify (fun s => set_returned (filter (fun n => fetched <= n) (ns_returned s)) s) ;;
    g ← advance_nonce nonce;
    mret (Some g).

Definition MAX_RETRY_ATTEMPTS : nat := 5.

(** What happens during a fetch: other sends run, then the provider answers. *)
Record Fetch : Type := mkFetch { fetch_others : NonceState -> NonceState; fetch_reply : result NetFault Z }.
Definition fetched_nonce (r : result NetFault Z) : result TxManagerError Z :=
  match r with Ok n => Ok n | Err _ => Err Rpc end.

(** [next_nonce]: the attempts that are left, and the fetch of each. *)
Fixpoint next_nonce (attempts : nat) (fetch : nat -> Fetch) : nonce_act NonceGuard :=
  match attempts with
  | O => throw NonceAcquisitionFailed
  | S attempts =>
      found ← lookup_nonce;
      match found with
      | inl g => mret g
      | inr generation =>
          modify (fetch_others (fetch attempts)) ;;
          fetched ← reads (fun _ => fetched_nonce (fetch_reply (fetch attempts)));
          stored ← store_fetched generation fetched;
          match stored with Some g => mret g | None => next_nonce attempts fetch end
      end
  end.

(** [NonceGuard::consume_reserved] *)
Definition consume_reserved (g : NonceGuard) : nonce_act Z := fun s =>
  match checked_add U64_MAX (guard_nonce g) 1 with
  | None => (Err NonceOverflow, s)
  | Some next => (Ok (guard_nonce g), set_high_water (Z.max (ns_high_water s) next) s)
  end.

(** [NonceGuard::rollback] *)
Definition rollback (g : NonceGuard) (s : NonceState) : NonceState :=
  if guard_recycled g then set_returned (btree_insert (guard_nonce g) (ns_returned s)) s
  else set_nonce (Some (guard_nonce g)) s.

(** [reserve_nonce] *)
Definition reserve_nonce (fetch : nat -> Fetch) : nonce_act Z :=
  g ← next_nonce MAX_RETRY_ATTEMPTS fetch; consume_reserved g.

(** [NonceManager::reset] *)
Definition reset_nonces (s : NonceState) : NonceState :=
  mkNonces None (wrap U64_MAX (ns_generation s + 1)) (ns_high_water s) (ns_returned s).

(** [return_reserved_nonce] *)
Definition return_reserved_nonce (n : Z) (s : NonceState) : NonceState :=
  set_returned (btree_insert n (ns_returned s)) s.

(** * Who holds which nonce *)

Lemma checked_add_inv m a b c : checked_add m a b = Some c -> c = a + b /\ a + b <= m.
Proof. unfold checked_add. intros H. break_match_in H; [|done]. zbool. by injection H as <-. Qed.

Lemma elem_of_btree_insert x y l : x ∈ btree_insert y l <-> x = y \/ x ∈ l.
Proof. induction l as [|z l IH]; simpl; [set_solver|]. repeat break_goal; zbool; subst; set_solver. Qed.

Lemma sorted_btree_insert x l : StronglySorted Z.lt l -> StronglySorted Z.lt (btree_insert x l).
Proof.
  induction 1 as [|y l Hl IH Hy]; simpl; [repeat constructor|].
  repeat break_goal; zbool.
  - constructor; [by constructor|]. constructor; [done|]. eapply Forall_impl; [exact Hy|]. cbn. lia.
  - by constructor.
  - constructor; [done|]. apply Forall_forall. intros z [->|Hz]%elem_of_btree_insert; [lia|]. by apply (proj1 (Forall_forall _ _) Hy).
Qed.

(** The nonces in [held] belong to sends: each to one, none of them waits for reuse, and all
    lie below the high-water mark. *)
Record nonces_ok (s : NonceState) (held : list Z) : Prop := {
  nk_sorted : StronglySorted Z.lt (ns_returned s);
  nk_below : forall n, n ∈ ns_returned s \/ n ∈ held -> 0 <= n < ns_high_water s;
  nk_water : 0 <= ns_high_water s <= U64_MAX;
  nk_cached : forall n, ns_nonce s = Some n -> 0 <= n;
  nk_distinct : NoDup held;
  nk_apart : forall n, n ∈ held -> n ∉ ns_returned s;
}.

(** A nonce that was given out and that nobody has any more. *)
Definition lost (n : Z) (s : NonceState) (held : list Z) : Prop :=
  (0 <= n < ns_high_water s) /\ (n ∉ ns_returned s) /\ (n ∉ held).

(** What an operation does to the nonces that are held: all is in order afterwards, and what was
    lost stays lost. *)
Definition passes (s : NonceState) (held : list Z) (s' : NonceState) (held' : list Z) : Prop :=
  nonces_ok s' held' /\ forall m, lost m s held -> lost m s' held'.

Lemma passes_refl s held : nonces_ok s held -> passes s held s held.
Proof. by split. Qed.
Lemma passes_trans s1 h1 s2 h2 s3 h3 : passes s1 h1 s2 h2 -> passes s2 h2 s3 h3 -> passes s1 h1 s3 h3.
Proof. intros [_ H1] [Hok H2]. split; [done|]. intros m Hm. by apply H2, H1. Qed.

(** A reservation takes a nonce that nobody holds and that is not lost. *)
Lemma reserve_ok s held nonce g s1 n s2 :
  nonces_ok s held -> 0 <= nonce -> advance_nonce nonce s = (Ok g, s1) -> consume_reserved g s1 = (Ok n, s2) ->
  passes s held s2 (n :: held).
Proof.
  intros [Hs Hb Hw Hc Hd Ha] Hn Hadv Hcon. unfold advance_nonce in Hadv. unfold consume_reserved in Hcon.
  destruct (ns_returned s) as [|r rest] eqn:Hr.
  - destruct (checked_add _ _ _) as [next|] eqn:Hnext in Hadv; [|done]. injection Hadv as <- <-. cbn in *.
    destruct (checked_add _ _ _) as [water|] eqn:Hwater in Hcon; [|done]. injection Hcon as <- <-.
    apply checked_add_inv in Hnext as [-> ?], Hwater as [-> ?]. split.
    + split; cbn; rewrite ?Hr; [constructor| |lia| | |].
      * intros m [Hm|[->|Hm]%elem_of_cons]; [set_solver|lia|]. destruct (Hb m); [by right|lia].
      * intros m [= <-]. lia.
      * constructor; [|done]. intros Hm. destruct (Hb _ (or_intror Hm)). lia.
      * set_solver.
    + intros m (Hm & _ & Hh). split_and!; cbn; rewrite ?Hr; [lia|lia|set_solver|]. intros [->|]%elem_of_cons; [lia|done].
  - injection Hadv as <- <-. cbn in *. assert (Hrb : 0 <= r < ns_high_water s) by (apply Hb; left; set_solver).
    destruct (checked_add _ _ _) as [water|] eqn:Hwater in Hcon; [|done]. injection Hcon as <- <-.
    apply checked_add_inv in Hwater as [-> ?]. inversion Hs as [|? ? Hs' Hrest]; subst.
    assert (Hnr : r ∉ rest). { intros Hin. pose proof (proj1 (Forall_forall _ _) Hrest _ Hin). lia. }
    split.
    + split; cbn; [done| |lia|done| |].
      * intros m [Hm|[->|Hm]%elem_of_cons]; [|lia|]; (destruct (Hb m); [|lia]); [left; by right|by right].
      * constructor; [|done]. intros Hin. apply (Ha r Hin). set_solver.
      * intros m [->|Hm]%elem_of_cons; [done|]. by apply Ha, not_elem_of_cons in Hm as [_ ?].
    + intros m (Hm & Hnin & Hh). rewrite Hr in Hnin. apply not_elem_of_cons in Hnin as [Hne Hnin].
      split; [cbn; lia|split; [done|]]. by apply not_elem_of_cons.
Qed.

Lemma advance_nonce_passes s held nonce r s1 : nonces_ok s held -> 0 <= nonce -> advance_nonce nonce s = (r, s1) -> passes s held s1 held.
Proof.
  intros Hok Hn Hadv. unfold advance_nonce in Hadv. destruct Hok as [Hs Hb Hw Hc Hd Ha]. destruct (ns_returned s) as [|x rest] eqn:Hr.
  - destruct (checked_add _ _ _) as [next|] eqn:Hnext; injection Hadv as <- <-; (split; [split; cbn; rewrite ?Hr; try done|done]).
    apply checked_add_inv in Hnext as [-> ?]. intros m [= <-]. lia.
  - injection Hadv as <- <-. inversion Hs; subst. split; [split; cbn; try done|].
    + intros m [Hm|Hm]; apply Hb; [left; by right|by right].
    + intros m Hm. by apply Ha, not_elem_of_cons in Hm as [_ ?].
    + intros m (Hm & Hnin & Hh). rewrite Hr in Hnin. apply not_elem_of_cons in Hnin as [_ Hnin]. exact (conj Hm (conj Hnin Hh)).
Qed.

Lemma consume_err g s e s' : consume_reserved g s = (Err e, s') -> s' = s.
Proof. unfold consume_reserved. destruct (checked_add _ _ _); by intros [= _ <-]. Qed.

(** The nonce of a guard is nobody's: neither held nor lost. *)
Definition unused (s : NonceState) (held : list Z) (n : Z) : Prop := (n ∉ held) /\ (forall m, lost m s held -> m <> n).

(** A guard that is rolled back. *)
Lemma rollback_passes s held nonce g s1 : nonces_ok s held -> 0 <= nonce -> advance_nonce nonce s = (Ok g, s1) ->
  passes s held (rollback g s1) held /\ unused s held (guard_nonce g).
Proof.
  intros Hok Hn Hadv. unfold advance_nonce in Hadv. destruct Hok as [Hs Hb Hw Hc Hd Ha]. destruct (ns_returned s) as [|x rest] eqn:Hr.
  - destruct (checked_add _ _ _) as [next|] eqn:Hnext; [|done]. injection Hadv as <- <-. cbn. split.
    + split; [split; cbn; rewrite ?Hr; try done; intros m [= <-]; lia|intros m Hm; exact Hm].
    + split; [intros Hin; destruct (Hb _ (or_intror Hin)); lia|]. intros m (Hm & _) ->. lia.
  - injection Hadv as <- <-. cbn. assert (Hx : x ∉ held) by (intros Hin; apply (Ha x Hin); by left).
    assert (Hmem : forall m, m ∈ btree_insert x rest <-> m ∈ x :: rest) by (intros m; by rewrite elem_of_btree_insert, elem_of_cons).
    inversion Hs; subst. split.
    + split; [split; cbn; try done|].
      * by apply sorted_btree_insert.
      * intros m. rewrite Hmem. apply Hb.
      * intros m Hm. rewrite Hmem. by apply Ha.
      * intros m (Hm & Hnin & Hh). split; [done|]. split; [|done]. cbn. rewrite Hmem. by rewrite Hr in Hnin.
    + split; [done|]. intros m (_ & Hnin & _) ->. apply Hnin. rewrite Hr. by left.
Qed.

(** What a task sees of the nonce manager: whatever comes out, the manager is in order; the nonce
    of a guard is unused, and a guard can be consumed and rolled back. *)
Definition gives (s : NonceState) (held : list Z) (g : option NonceGuard) (s1 : NonceState) : Prop :=
  passes s held s1 held /\
  forall g', g = Some g' ->
    (passes s held (rollback g' s1) held /\ unused s held (guard_nonce g')) /\
    forall n s2, consume_reserved g' s1 = (Ok n, s2) -> passes s held s2 (n :: held).

Lemma advance_gives s held nonce r s1 : nonces_ok s held -> 0 <= nonce -> advance_nonce nonce s = (r, s1) ->
  gives s held (match r with Ok g => Some g | Err _ => None end) s1.
Proof.
  intros Hok Hn Hadv. split; [by eapply advance_nonce_passes|]. intros g' Hg. destruct r as [g|]; [|done]. injection Hg as <-.
  split; [by eapply rollback_passes|]. intros n s2 Hc. by eapply reserve_ok.
Qed.

Lemma lookup_ok s held found s1 : nonces_ok s held -> lookup_nonce s = (found, s1) ->
  gives s held (match found with Ok (inl g) => Some g | _ => None end) s1.
Proof.
  intros Hok Hrun. unfold lookup_nonce in Hrun. erewrite bind_run in Hrun by reflexivity.
  destruct (ns_nonce s) as [n|] eqn:Hn; [|injection Hrun as <- <-; by split; [apply passes_refl|]].
  destruct (advance_nonce n s) as [[g|e] s2] eqn:Hadv; pose proof (advance_gives _ _ _ _ _ Hok (nk_cached _ _ Hok _ Hn) Hadv);
    [erewrite bind_run in Hrun by exact Hadv|erewrite bind_run_err in Hrun by exact Hadv]; by injection Hrun as <- <-.
Qed.

(** Whatever a fetch answers, as long as it is a nonce. *)
Lemma fetched_ok s held fetched nonce :
  nonces_ok s held -> 0 <= nonce ->
  passes s held (set_returned (filter (fun n => fetched <= n) (ns_returned s)) (set_nonce (Some nonce) s)) held.
Proof.
  intros [Hs Hb Hw Hc Hd Ha] Hn. split.
  2: { intros m (Hm & Hr & Hh). split; [done|split; [|done]]. cbn. rewrite list_elem_of_filter. tauto. }
  split; cbn; [|..|done|].
  - clear -Hs. induction Hs as [|y l Hl IH Hy]; [constructor|]. rewrite filter_cons. destruct (decide _); [|done].
    constructor; [done|]. apply Forall_forall. intros z [_ Hz]%list_elem_of_filter. by apply (proj1 (Forall_forall _ _) Hy).
  - intros m [Hm|Hm]; apply Hb; [left|by right]. by apply list_elem_of_filter in Hm as [_ ?].
  - done.
  - by intros m [= <-].
  - intros m Hm. rewrite list_elem_of_filter. intros [_ Hr]. by eapply Ha.
Qed.

Lemma store_ok s held generation fetched stored s1 : nonces_ok s held -> 0 <= fetched ->
  store_fetched generation fetched s = (stored, s1) ->
  gives s held (match stored with Ok (Some g) => Some g | _ => None end) s1.
Proof.
  intros Hok Hf Hrun. unfold store_fetched in Hrun. erewrite bind_run in Hrun by reflexivity.
  destruct (negb _); [injection Hrun as <- <-; by split; [apply passes_refl|]|].
  do 3 erewrite bind_run in Hrun by reflexivity. set (nonce := default fetched (ns_nonce s)) in *.
  assert (Hn : 0 <= nonce). { unfold nonce. destruct (ns_nonce s) eqn:He; [|done]. by apply (nk_cached _ _ Hok). }
  pose proof (fetched_ok s held fetched nonce Hok Hn) as Hp. cbn in Hrun.
  match type of Hrun with (advance_nonce nonce ≫= _) ?s' = _ => destruct (advance_nonce nonce s') as [r s2] eqn:Hadv end.
  destruct (advance_gives _ held _ _ _ (proj1 Hp) Hn Hadv) as [H1 H2]. destruct r as [g|e];
    [erewrite bind_run in Hrun by exact Hadv|erewrite bind_run_err in Hrun by exact Hadv]; injection Hrun as <- <-;
    (split; [by eapply passes_trans|]); intros g' [= <-]. destruct (H2 g eq_refl) as [[Hb [Hu Hul]] Hcons].
  split; [|intros n s3 Hc; eapply passes_trans; [exact Hp|by eapply Hcons]].
  split; [by eapply passes_trans|]. split; [done|]. intros m Hm. apply Hul. by apply Hp.
Qed.

Lemma reset_nonces_ok s held : nonces_ok s held -> passes s held (reset_nonces s) held.
Proof. intros [Hs Hb Hw Hc Hd Ha]. by split. Qed.

Lemma return_nonce_passes s n held : nonces_ok s (n :: held) -> passes s (n :: held) (return_reserved_nonce n s) held.
Proof.
  intros [Hs Hb Hw Hc Hd Ha]. inversion Hd; subst. split.
  - split; cbn; [by apply sorted_btree_insert|..].
    + intros m [[->|Hm]%elem_of_btree_insert|Hm]; apply Hb; [right; by left|by left|right; by right].
    + done.
    + done.
    + done.
    + intros m Hm [->|Hr]%elem_of_btree_insert; [done|]. by apply (Ha m); [right|].
  - intros m (Hm & Hr & Hh). apply not_elem_of_cons in Hh as [Hne Hh].
    split; [done|split; [|done]]. cbn. rewrite elem_of_btree_insert. by intros [|].
Qed.

(** A send that gives up its nonce without returning it loses the nonce. *)
Lemma drop_ok s n held : nonces_ok s (n :: held) -> passes s (n :: held) s held /\ lost n s held.
Proof.
  intros [Hs Hb Hw Hc Hd Ha]. inversion Hd; subst. split.
  - split; [|intros m (Hm & Hr & Hh); apply not_elem_of_cons in Hh as [_ Hh]; exact (conj Hm (conj Hr Hh))].
    split; [done| |done|done|done|]; intros m; [|by intros; apply Ha; right]. intros [|]; apply Hb; [by left|by right; right].
  - split; [apply Hb; right; by left|split; [apply Ha; by left|done]].
Qed.
