(* ===== verification/TxSend.v ===== *)
(** * Sending a transaction

    [SimpleTxManager] of [crates/utilities/tx-manager] ([manager.rs], [send_state.rs]): crafting and
    signing, publishing, fee bumps, receipts, and the sends as concurrent tasks over one nonce
    manager.  A step of a task is what happens between two of its waits; the answers of the
    provider and of the signer are inputs.  Metrics and log lines are left out, and so is a caller
    that drops a call midway. *)
From stdpp Require Import base list option.
From S2P Require Import Prelude Buffer TxFees TxNonce.

Local Open Scope Z_scope.

(** * Crafting a transaction *)

(** The fields of a signed transaction. *)
Record SignedTx : Type := mkSigned {
  stx_data : list Z;
  stx_to : option Z;
  stx_value : Z;
  stx_max_fee_per_gas : Z;
  stx_max_priority_fee_per_gas : Z;
  stx_max_fee_per_blob_gas : option Z;
  stx_blobs : list (list Z);
  stx_gas_limit : Z;
  stx_nonce : Z;
}.

(** [PreparedTx]; a sidecar is given by its blobs. *)
Record PreparedTx : Type := mkPrepared {
  raw_tx : SignedTx;
  pt_tip : Z;
  pt_fee_cap : Z;
  pt_blob_fee_cap : option Z;
  pt_gas_limit : Z;
  pt_nonce : Z;
  pt_sidecar : option (list (list Z));
}.

(** What an attempt at crafting meets: whether the manager is closed, the fee quote, whether the
    proofs of the blobs can be computed, the gas estimate, the fetches of a nonce, and whether the
    signer signs. *)
Record CraftEnv : Type := mkCraftEnv {
  ce_closed : bool;
  ce_quote : Quote;
  ce_sidecar : bool;
  ce_estimate : result NetFault Z;
  ce_fetch : nat -> Fetch;
  ce_sign : bool;
}.

Definition MAX_BLOBS_PER_TX : Z := 6.
Definition PREPARE_MAX_RETRIES : nat := 30.

Section manager.
Context (cfg : TxManagerConfig).

(** Steps 1 to 5 of [craft_tx_with_caps]: the fees, the sidecar and the gas limit. *)
Record Draft : Type := mkDraft {
  dr_tip : Z;
  dr_fee_cap : Z;
  dr_blob_fee_cap : option Z;
  dr_sidecar : option (list (list Z));
  dr_gas_limit : Z;
}.
Definition draft_tx (c : TxCandidate) (fo : option FeeOverride) (caps : option GasPriceCaps)
    (cached : option (list (list Z))) (env : CraftEnv) : result TxManagerError Draft :=
  if is_blob c && bool_decide (tx_to c = None) then Err Unsupported
  else if is_blob c && (zlen (tx_blobs c) >? MAX_BLOBS_PER_TX) then Err Unsupported
  else
    caps ← match caps with Some caps => Ok caps | None => suggest_gas_price_caps_for cfg (is_blob c) (ce_quote env) end;
    let '(tip_cap, fee_cap) :=
      match fo with
      | None => (gas_tip_cap caps, gas_fee_cap caps)
      | Some fo => (Z.max (gas_tip_cap caps) (fo_gas_tip_cap fo), Z.max (gas_fee_cap caps) (fo_gas_fee_cap fo))
      end in
    blob_cap ←
      (if is_blob c then
         match blob_fee_cap caps with
         | None => Err Unsupported
         | Some network => Ok (Some (Z.max network (default 0 (fo ≫= fo_blob_fee_cap))))
         end
       else Ok None);
    _ ← check_fee_limits cfg fee_cap blob_cap caps;
    sidecar ←
      (if is_blob c then
         match cached with
         | Some s => Ok (Some s)
         | None => if ce_sidecar env then Ok (Some (tx_blobs c)) else Err Unsupported
         end
       else Ok None);
    estimated ← answer (ce_estimate env);
    let gas_floor := match fo with None => 0 | Some fo => fo_gas_limit_floor fo end in
    Ok (mkDraft tip_cap fee_cap blob_cap sidecar (Z.max (Z.max (tx_gas_limit c) gas_floor) estimated)).

Definition sign_draft (c : TxCandidate) (d : Draft) (nonce : Z) : PreparedTx :=
  mkPrepared
    (mkSigned (tx_data c) (tx_to c) (tx_value c) (dr_fee_cap d) (dr_tip d) (dr_blob_fee_cap d)
       (default [] (dr_sidecar d)) (dr_gas_limit d) nonce)
    (dr_tip d) (dr_fee_cap d) (dr_blob_fee_cap d) (dr_gas_limit d) nonce (dr_sidecar d).

(** [craft_tx_with_caps] *)
Definition craft_tx_with_caps (c : TxCandidate) (fo : option FeeOverride) (caps : option GasPriceCaps)
    (nonce_override : option Z) (cached : option (list (list Z))) (env : CraftEnv) : nonce_act PreparedTx :=
  d ← reads (fun _ => draft_tx c fo caps cached env);
  match nonce_override with
  | Some n => if ce_sign env then mret (sign_draft c d n) else throw Sign
  | None =>
      g ← next_nonce MAX_RETRY_ATTEMPTS (ce_fetch env);
      if ce_sign env then mret (sign_draft c d (guard_nonce g)) else modify (rollback g) ;; throw Sign
  end.

(** [prepare_with_initial_caps]: the attempts that are left after this one, and what each meets. *)
Fixpoint prepare_with_initial_caps (retries : nat) (c : TxCandidate) (fo : option FeeOverride)
    (caps : option GasPriceCaps) (nonce_override : option Z) (cached : option (list (list Z)))
    (env : nat -> CraftEnv) : nonce_act PreparedTx := fun s =>
  match (if ce_closed (env retries) then throw ChannelClosed
         else craft_tx_with_caps c fo caps nonce_override cached (env retries)) s with
  | (Ok p, s) => (Ok p, s)
  | (Err e, s) =>
      match retries with
      | S retries =>
          if is_retryable e then prepare_with_initial_caps retries c fo None nonce_override cached env s else (Err e, s)
      | O => (Err e, s)
      end
  end.

(** * The state of a send *)

Record SendState : Type := mkSendState {
  mined_txs : list Z;
  has_published : bool;
  nonce_too_low_count : Z;
  nonce_too_high : bool;
  already_reserved : bool;
  bump_fees : bool;
  bump_count : Z;
  mempool_deadline : option Z;
  safe_abort_count : Z;
}.

Definition new_send_state (safe_abort : Z) : result TxManagerError SendState :=
  if safe_abort =? 0 then Err InvalidSafeAbortNonceTooLowCount
  else Ok (mkSendState [] false 0 false false false 0 None safe_abort).

Definition set_mined (l : list Z) (s : SendState) : SendState :=
  mkSendState l (has_published s) (nonce_too_low_count s) (nonce_too_high s) (already_reserved s) (bump_fees s)
    (bump_count s) (mempool_deadline s) (safe_abort_count s).
Definition set_low_count (n : Z) (s : SendState) : SendState :=
  mkSendState (mined_txs s) (has_published s) n (nonce_too_high s) (already_reserved s) (bump_fees s)
    (bump_count s) (mempool_deadline s) (safe_abort_count s).
Definition set_too_high (s : SendState) : SendState :=
  mkSendState (mined_txs s) (has_published s) (nonce_too_low_count s) true (already_reserved s) (bump_fees s)
    (bump_count s) (mempool_deadline s) (safe_abort_count s).
Definition set_reserved (s : SendState) : SendState :=
  mkSendState (mined_txs s) (has_published s) (nonce_too_low_count s) (nonce_too_high s) true (bump_fees s)
    (bump_count s) (mempool_deadline s) (safe_abort_count s).
Definition set_bump_fees (b : bool) (s : SendState) : SendState :=
  mkSendState (mined_txs s) (has_published s) (nonce_too_low_count s) (nonce_too_high s) (already_reserved s) b
    (bump_count s) (mempool_deadline s) (safe_abort_count s).

Definition process_send_error (e : TxManagerError) (s : SendState) : SendState :=
  match e with
  | NonceTooLow => set_low_count (wrap U64_MAX (nonce_too_low_count s + 1)) s
  | NonceTooHigh => set_too_high s
  | AlreadyReserved => set_reserved s
  | e => if is_retryable e then set_bump_fees true s else s
  end.

Definition tx_mined (hash : Z) (s : SendState) : SendState :=
  if bool_decide (hash ∈ mined_txs s) then s else set_mined (mined_txs s ++ [hash]) s.

(** [Vec::swap_remove] of the first occurrence. *)
Fixpoint position (x : Z) (l : list Z) : option nat :=
  match l with [] => None | y :: l => if y =? x then Some O else S <$> position x l end.
Definition swap_remove (i : nat) (l : list Z) : list Z :=
  match last l with
  | Some x => take (length l - 1) (<[i := x]> l)
  | None => l
  end.
Definition tx_not_mined (hash : Z) (s : SendState) : SendState :=
  match position hash (mined_txs s) with
  | None => s
  | Some i =>
      let s := set_mined (swap_remove i (mined_txs s)) s in
      if bool_decide (mined_txs s = []) then set_low_count 0 s else s
  end.

Definition critical_error (now : Z) (s : SendState) : option TxManagerError :=
  if bool_decide (mined_txs s <> []) then None
  else if already_reserved s then Some AlreadyReserved
  else if nonce_too_high s then Some NonceTooHigh
  else if negb (has_published s) && (nonce_too_low_count s >? 0) then Some NonceTooLow
  else if nonce_too_low_count s >=? safe_abort_count s then Some NonceTooLow
  else if negb (has_published s) && match mempool_deadline s with Some d => now >=? d | None => false end
  then Some MempoolDeadlineExpired
  else None.

Definition is_waiting_for_confirmation (s : SendState) : bool := bool_decide (mined_txs s <> []).
Definition record_successful_publish (s : SendState) : SendState :=
  mkSendState (mined_txs s) true (nonce_too_low_count s) (nonce_too_high s) (already_reserved s) (bump_fees s)
    (bump_count s) (mempool_deadline s) (safe_abort_count s).
Definition record_fee_bump (s : SendState) : SendState :=
  mkSendState (mined_txs s) (has_published s) (nonce_too_low_count s) (nonce_too_high s) (already_reserved s) (bump_fees s)
    (wrap U64_MAX (bump_count s + 1)) (mempool_deadline s) (safe_abort_count s).
Definition set_mempool_deadline (d : Z) (s : SendState) : SendState :=
  mkSendState (mined_txs s) (has_published s) (nonce_too_low_count s) (nonce_too_high s) (already_reserved s) (bump_fees s)
    (bump_count s) (Some d) (safe_abort_count s).

(** * Publishing, receipts and bumps *)

Abbreviation send_act := (stm SendState TxManagerError).

(** [publish_tx]: the answer to [send_raw_transaction] is the hash of the transaction. *)
Definition publish_tx (last_tx_hash : option Z) (reply : result NetFault Z) : send_act Z :=
  match reply with
  | Ok hash => modify record_successful_publish ;; mret hash
  | Err (Transport e) =>
      let classified := classify_rpc_error e in
      published ← gets has_published;
      if is_already_known classified && published then
        match last_tx_hash with
        | None => throw InvalidConfig
        | Some hash => modify record_successful_publish ;; mret hash
        end
      else modify (process_send_error classified) ;; throw classified
  | Err TimedOut => modify (process_send_error Rpc) ;; throw Rpc
  end.

Record Receipt : Type := mkReceipt { rc_transaction_hash : Z; rc_block_number : option Z; rc_block_hash : option Z; rc_status : bool }.

(** The answers of the provider to a poll: the tip, the receipt, and the hash of the canonical
    block at the height of the receipt. *)
Record Poll : Type := mkPoll {
  poll_tip : result NetFault Z;
  poll_receipt : result NetFault (option Receipt);
  poll_block : result NetFault (option Z);
}.

(** [query_receipt] *)
Definition query_receipt (p : Poll) (hash : Z) : send_act (option Receipt) :=
  tip_height ← reads (fun _ => answer (poll_tip p));
  found ← reads (fun _ => answer (poll_receipt p));
  let not_mined := modify (tx_not_mined hash) ;; mret None in
  match found with
  | None => not_mined
  | Some receipt =>
      match rc_block_number receipt, rc_block_hash receipt with
      | None, _ | _, None => not_mined
      | Some tx_block, Some block_hash =>
          canonical ← reads (fun _ => answer (poll_block p));
          if negb (bool_decide (canonical = Some block_hash)) then not_mined
          else
            modify (tx_mined hash) ;;
            if sat_add U64_MAX tx_block (num_confirmations cfg) <=? sat_add U64_MAX tip_height 1
            then mret (Some receipt) else mret None
      end
  end.

Record BumpState : Type := mkBump {
  bs_tip : Z;
  bs_fee_cap : Z;
  bs_blob_fee_cap : option Z;
  bs_gas_limit : Z;
  bs_tx_hash : Z;
  bs_nonce : Z;
  bs_sidecar : option (list (list Z));
}.
Definition from_prepared (p : PreparedTx) (hash : Z) : BumpState :=
  mkBump (pt_tip p) (pt_fee_cap p) (pt_blob_fee_cap p) (pt_gas_limit p) hash (pt_nonce p) (pt_sidecar p).

(** [handle_fee_bump] up to publishing: the quote of [increase_gas_price], then the attempts. *)
Definition prepare_bump (c : TxCandidate) (q : Quote) (env : nat -> CraftEnv) (old : BumpState) : nonce_act PreparedTx :=
  bumped ← reads (fun _ => increase_gas_price cfg c q (bs_tip old) (bs_fee_cap old) (bs_blob_fee_cap old));
  prepare_with_initial_caps PREPARE_MAX_RETRIES c (Some (to_fee_override bumped (bs_gas_limit old)))
    (Some (bf_caps bumped)) (Some (bs_nonce old)) (bs_sidecar old) env.

(** [apply_bump_result_with_suppression] for a bump that failed: whether the send aborts. *)
Definition bump_aborts (e : TxManagerError) (s : SendState) : bool :=
  if negb (is_retryable e) && is_waiting_for_confirmation s then false else negb (is_retryable e).

(** [should_reset_nonce_on_send_error] *)
Definition should_reset_nonce_on_send_error {A} (r : result TxManagerError A) (s : SendState) (nonce_override : option Z) : bool :=
  match r with
  | Ok _ => false
  | Err NonceTooHigh => true
  | Err e =>
      if bool_decide (is_Some nonce_override) then false
      else match e with SendTimeout => true | _ => negb (has_published s) end
  end.

(** [should_return_reserved_nonce] *)
Definition should_return_reserved_nonce {A} (r : result TxManagerError A) (s : SendState) : bool :=
  match r with
  | Ok _ | Err NonceTooHigh | Err NonceTooLow => false
  | Err _ => negb (has_published s)
  end.

(** * A send as a task *)

(** Where [send], [send_async], [send_tx] and [send_event_loop] can be.  A task of [send_async]
    reserves its nonce first (with the attempts it has left); it then starts, prepares and publishes
    its transaction, goes round the event loop, and settles the nonce manager.  A task of [send]
    has no reserved nonce: every attempt to craft its transaction drafts it, takes a nonce, for
    which it may have to fetch the transaction count, and signs under the lock of the nonce
    manager.  In the loop a task carries its [BumpState]. *)
Inductive SendPhase : Type :=
| Reserving (attempts : nat)
| Fetching (attempts : nat) (generation : Z)
| Starting
| Preparing
| Crafting (retries : nat)
| Acquiring (retries : nat) (d : Draft) (attempts : nat)
| Counting (retries : nat) (d : Draft) (attempts : nat) (generation : Z)
| Publishing (p : PreparedTx)
| Looping (b : BumpState)
| Selecting (b : BumpState)
| Bumping (b : BumpState)
| Republishing (b : BumpState) (p : PreparedTx)
| Settling (r : result TxManagerError Receipt)
| Returning (r : result TxManagerError Receipt)
| Finished (r : result TxManagerError Receipt).

(** A task: its [nonce_override] once it is reserved, its receipt channel, the hashes its pollers wait for, the transactions whose
    publication was acknowledged, and those that may have reached a transaction pool. *)
Record SendTask : Type := mkTask {
  tk_candidate : TxCandidate;
  tk_phase : SendPhase;
  tk_nonce : option Z;
  tk_state : SendState;
  tk_receipts : list Receipt;
  tk_pollers : list Z;
  tk_published : list PreparedTx;
  tk_pooled : list PreparedTx;
}.

Definition task_at (ph : SendPhase) (c : TxCandidate) : SendTask :=
  mkTask c ph None (mkSendState [] false 0 false false false 0 None 0) [] [] [] [].
(** [send_async] *)
Definition new_task : TxCandidate -> SendTask := task_at (Reserving MAX_RETRY_ATTEMPTS).
(** [send] *)
Definition new_send : TxCandidate -> SendTask := task_at Starting.

Definition goto (ph : SendPhase) (t : SendTask) : SendTask :=
  mkTask (tk_candidate t) ph (tk_nonce t) (tk_state t) (tk_receipts t) (tk_pollers t) (tk_published t) (tk_pooled t).
Definition set_send_state (s : SendState) (t : SendTask) : SendTask :=
  mkTask (tk_candidate t) (tk_phase t) (tk_nonce t) s (tk_receipts t) (tk_pollers t) (tk_published t) (tk_pooled t).
Definition set_task_nonce (n : Z) (t : SendTask) : SendTask :=
  mkTask (tk_candidate t) (tk_phase t) (Some n) (tk_state t) (tk_receipts t) (tk_pollers t) (tk_published t) (tk_pooled t).
Definition add_published (p : PreparedTx) (hash : Z) (t : SendTask) : SendTask :=
  mkTask (tk_candidate t) (tk_phase t) (tk_nonce t) (tk_state t) (tk_receipts t) (tk_pollers t ++ [hash])
    (tk_published t ++ [p]) (tk_pooled t).
Definition add_pooled (p : PreparedTx) (t : SendTask) : SendTask :=
  mkTask (tk_candidate t) (tk_phase t) (tk_nonce t) (tk_state t) (tk_receipts t) (tk_pollers t) (tk_published t)
    (tk_pooled t ++ [p]).

(** A node that answers with an error, other than that it knows the transaction, has not
    accepted it; when there is no answer it may have. *)
Definition may_be_pooled (reply : result NetFault Z) : bool :=
  match reply with
  | Ok _ | Err TimedOut | Err (Transport OtherTransport) => true
  | Err (Transport e) => is_already_known (classify_rpc_error e)
  end.
Definition pool_if (reply : result NetFault Z) (p : PreparedTx) (t : SendTask) : SendTask :=
  if may_be_pooled reply then add_pooled p t else t.

(** The inputs of a step; [se_interrupted] is that the send timeout fires during a signature. *)
Record StepEnv : Type := mkStepEnv {
  se_now : Z;
  se_interrupted : bool;
  se_fetch : result NetFault Z;
  se_quote : Quote;
  se_craft : nat -> CraftEnv;
  se_reply : result NetFault Z;
}.

(** The end of [reserve_nonce]. *)
Definition reserved (g : NonceGuard) (ns : NonceState) (t : SendTask) : NonceState * SendTask :=
  match consume_reserved g ns with
  | (Ok n, ns) => (ns, goto Starting (set_task_nonce n t))
  | (Err e, ns) => (ns, goto (Finished (Err e)) t)
  end.

(** The start of [try_fee_bump]. *)
Definition start_bump (b : BumpState) (t : SendTask) : SendTask :=
  goto (if is_waiting_for_confirmation (tk_state t) then Looping b else Bumping b) t.

(** The end of [try_fee_bump] for a bump that failed. *)
Definition bump_failed (b : BumpState) (e : TxManagerError) (t : SendTask) : SendTask :=
  goto (if bump_aborts e (tk_state t) then Settling (Err e) else Looping b) t.

(** A turn of the loop up to its wait. *)
Definition loop_turn (now : Z) (closed : bool) (b : BumpState) (t : SendTask) : SendTask :=
  if closed then goto (Settling (Err ChannelClosed)) t
  else match critical_error now (tk_state t) with
  | Some e => goto (Settling (Err e)) t
  | None =>
      match tk_receipts t with
      | r :: _ => goto (Settling (Ok r)) t
      | [] =>
          if bump_fees (tk_state t) then start_bump b (set_send_state (set_bump_fees false (tk_state t)) t)
          else goto (Selecting b) t
      end
  end.

(** [send_tx] up to the event loop. *)
Definition start_send (now : Z) (closed : bool) (t : SendTask) : SendTask :=
  if closed then goto (Finished (Err ChannelClosed)) t
  else match new_send_state (safe_abort_nonce_too_low_count cfg) with
  | Err e => goto (Finished (Err e)) t
  | Ok s =>
      let s := if tx_not_in_mempool_timeout cfg =? 0 then s else set_mempool_deadline (now + tx_not_in_mempool_timeout cfg) s in
      goto (match tk_nonce t with Some _ => Preparing | None => Crafting PREPARE_MAX_RETRIES end) (set_send_state s t)
  end.

(** The end of an attempt of [prepare_with_initial_caps] that failed. *)
Definition craft_failed (retries : nat) (e : TxManagerError) (t : SendTask) : SendTask :=
  match retries with
  | S retries => goto (if is_retryable e then Crafting retries else Settling (Err e)) t
  | O => goto (Settling (Err e)) t
  end.

(** An attempt up to the nonce: steps 1 to 5 of [craft_tx_with_caps]. *)
Definition craft_draft (env : CraftEnv) (closed : bool) (retries : nat) (t : SendTask) : SendTask :=
  if closed then craft_failed retries ChannelClosed t
  else match draft_tx (tk_candidate t) None None None env with
  | Ok d => goto (Acquiring retries d MAX_RETRY_ATTEMPTS) t
  | Err e => craft_failed retries e t
  end.

(** Step 7 of [craft_tx_with_caps], with the guard of the nonce.  The send timeout drops the
    guard and does not roll the nonce back. *)
Definition sign_guarded (env : StepEnv) (retries : nat) (d : Draft) (g : NonceGuard) (ns : NonceState) (t : SendTask) :
    NonceState * SendTask :=
  if se_interrupted env && negb (tx_send_timeout cfg =? 0) then (ns, goto (Settling (Err SendTimeout)) t)
  else if ce_sign (se_craft env retries) then (ns, goto (Publishing (sign_draft (tk_candidate t) d (guard_nonce g))) t)
  else (rollback g ns, craft_failed retries Sign t).

(** [send_tx] after the event loop: the reset, and the return of the nonce. *)
Definition settle_nonces (r : result TxManagerError Receipt) (t : SendTask) (ns : NonceState) : NonceState :=
  if should_reset_nonce_on_send_error r (tk_state t) (tk_nonce t) then reset_nonces ns else ns.
Definition return_nonce (r : result TxManagerError Receipt) (t : SendTask) (ns : NonceState) : NonceState :=
  match tk_nonce t with
  | Some n => if should_return_reserved_nonce r (tk_state t) then return_reserved_nonce n ns else ns
  | None => ns
  end.

(** A step of [send], or of [send_async] and of the send it starts. *)
Definition task_step (env : StepEnv) (closed : bool) (ns : NonceState) (t : SendTask) : NonceState * SendTask :=
  match tk_phase t with
  | Reserving O => (ns, goto (Finished (Err NonceAcquisitionFailed)) t)
  | Reserving (S attempts) =>
      match lookup_nonce ns with
      | (Ok (inl g), ns) => reserved g ns t
      | (Ok (inr generation), ns) => (ns, goto (Fetching attempts generation) t)
      | (Err e, ns) => (ns, goto (Finished (Err e)) t)
      end
  | Fetching attempts generation =>
      match fetched_nonce (se_fetch env) with
      | Err e => (ns, goto (Finished (Err e)) t)
      | Ok fetched =>
          match store_fetched generation fetched ns with
          | (Ok (Some g), ns) => reserved g ns t
          | (Ok None, ns) => (ns, goto (Reserving attempts) t)
          | (Err e, ns) => (ns, goto (Finished (Err e)) t)
          end
      end
  | Starting => (ns, start_send (se_now env) closed t)
  | Preparing =>
      match prepare_with_initial_caps PREPARE_MAX_RETRIES (tk_candidate t) None None (tk_nonce t) None (se_craft env) ns with
      | (Ok p, ns) => (ns, goto (Publishing p) t)
      | (Err e, ns) => (ns, goto (Settling (Err e)) t)
      end
  | Crafting retries => (ns, craft_draft (se_craft env retries) closed retries t)
  | Acquiring retries d O => (ns, craft_failed retries NonceAcquisitionFailed t)
  | Acquiring retries d (S attempts) =>
      match lookup_nonce ns with
      | (Ok (inl g), ns) => sign_guarded env retries d g ns t
      | (Ok (inr generation), ns) => (ns, goto (Counting retries d attempts generation) t)
      | (Err e, ns) => (ns, craft_failed retries e t)
      end
  | Counting retries d attempts generation =>
      match fetched_nonce (se_fetch env) with
      | Err e => (ns, craft_failed retries e t)
      | Ok fetched =>
          match store_fetched generation fetched ns with
          | (Ok (Some g), ns) => sign_guarded env retries d g ns t
          | (Ok None, ns) => (ns, goto (Acquiring retries d attempts) t)
          | (Err e, ns) => (ns, craft_failed retries e t)
          end
      end
  | Publishing p =>
      let t := pool_if (se_reply env) p t in
      match publish_tx None (se_reply env) (tk_state t) with
      | (Ok hash, s) => (ns, goto (Looping (from_prepared p hash)) (add_published p hash (set_send_state s t)))
      | (Err e, s) => (ns, goto (Settling (Err e)) (set_send_state s t))
      end
  | Looping b => (ns, loop_turn (se_now env) closed b t)
  | Selecting b =>
      match tk_receipts t with
      | r :: _ => (ns, goto (Settling (Ok r)) t)
      | [] => (ns, start_bump b t)
      end
  | Bumping b =>
      match prepare_bump (tk_candidate t) (se_quote env) (se_craft env) b ns with
      | (Ok p, ns) => (ns, goto (Republishing b p) t)
      | (Err e, ns) => (ns, bump_failed b e t)
      end
  | Republishing b p =>
      let t := pool_if (se_reply env) p t in
      match publish_tx (Some (bs_tx_hash b)) (se_reply env) (tk_state t) with
      | (Ok hash, s) =>
          (ns, goto (Looping (from_prepared p hash)) (add_published p hash (set_send_state (record_fee_bump s) t)))
      | (Err e, s) => (ns, bump_failed b e (set_send_state s t))
      end
  | Settling r => (settle_nonces r t ns, goto (Returning r) t)
  | Returning r => (return_nonce r t ns, goto (Finished r) t)
  | Finished _ => (ns, t)
  end.

(** The send timeout, which can fire at any wait of the event loop. *)
Definition task_timeout (t : SendTask) : SendTask :=
  if tx_send_timeout cfg =? 0 then t
  else match tk_phase t with
  | Preparing | Crafting _ | Acquiring _ _ _ | Counting _ _ _ _ | Selecting _ | Bumping _ => goto (Settling (Err SendTimeout)) t
  | Publishing p | Republishing _ p => goto (Settling (Err SendTimeout)) (add_pooled p t)
  | _ => t
  end.

(** One round of a poller ([wait_mined]), which ends it when its time is up. *)
Definition poll_step (p : Poll) (expired closed : bool) (j : nat) (t : SendTask) : SendTask :=
  match tk_pollers t !! j with
  | None => t
  | Some hash =>
      match query_receipt p hash (tk_state t) with
      | (Ok (Some r), s) =>
          mkTask (tk_candidate t) (tk_phase t) (tk_nonce t) s (tk_receipts t ++ [r]) (delete j (tk_pollers t))
            (tk_published t) (tk_pooled t)
      | (_, s) =>
          mkTask (tk_candidate t) (tk_phase t) (tk_nonce t) s (tk_receipts t)
            (if expired || closed then delete j (tk_pollers t) else tk_pollers t) (tk_published t) (tk_pooled t)
      end
  end.

(** * The sends of a manager *)

(** The manager, the tasks that were started, and the nonce of the account on the chain. *)
Record System : Type := mkSystem {
  sy_nonces : NonceState;
  sy_closed : bool;
  sy_tasks : list SendTask;
  sy_account : Z;
}.

(** [Send] is a call of [send_async], [SendNow] one of [send]; [Mine] includes the next transaction of the account in a
    block, if one with the right nonce may be in a pool. *)
Inductive Event : Type :=
| Send (c : TxCandidate)
| SendNow (c : TxCandidate)
| Run (i : nat) (env : StepEnv)
| PollOnce (i j : nat) (p : Poll) (expired : bool)
| Timeout (i : nat)
| Close
| Mine.

Definition set_tasks (ts : list SendTask) (sy : System) : System :=
  mkSystem (sy_nonces sy) (sy_closed sy) ts (sy_account sy).

Definition pooled (n : Z) (sy : System) : Prop := Exists (fun t => Exists (fun p => pt_nonce p = n) (tk_pooled t)) (sy_tasks sy).
#[global] Instance pooled_dec n sy : Decision (pooled n sy).
Proof. unfold pooled. apply _. Defined.

Definition sys_event (ev : Event) (sy : System) : System :=
  match ev with
  | Send c => set_tasks (sy_tasks sy ++ [new_task c]) sy
  | SendNow c => set_tasks (sy_tasks sy ++ [new_send c]) sy
  | Run i env =>
      match sy_tasks sy !! i with
      | None => sy
      | Some t =>
          let '(ns, t) := task_step env (sy_closed sy) (sy_nonces sy) t in
          mkSystem ns (sy_closed sy) (<[i := t]> (sy_tasks sy)) (sy_account sy)
      end
  | PollOnce i j p expired => set_tasks (alter (poll_step p expired (sy_closed sy) j) i (sy_tasks sy)) sy
  | Timeout i => set_tasks (alter task_timeout i (sy_tasks sy)) sy
  | Close => mkSystem (sy_nonces sy) true (sy_tasks sy) (sy_account sy)
  | Mine => if decide (pooled (sy_account sy) sy)
            then mkSystem (sy_nonces sy) (sy_closed sy) (sy_tasks sy) (sy_account sy + 1) else sy
  end.

Definition run (evs : list Event) (sy : System) : System := foldl (fun sy ev => sys_event ev sy) sy evs.
Definition new_system (account : Z) : System := mkSystem new_nonces false [] account.
End manager.
