(* ===== verification/TxSafety.v ===== *)
(** * What the transaction manager guarantees

    Over all interleavings of calls of [send_async] and [send], polls, timeouts and blocks
    ([TxSend]): the nonces of [send_async] are not shared, replacements raise the fees of what they
    replace, and a mined transaction is not reported as failed.  A nonce that the node finds too
    high is never used again, which stops the account for good. *)
From stdpp Require Import base list option.
From S2P Require Import Prelude Buffer TxFees TxNonce TxSend.

Local Open Scope Z_scope.

(** No answer of a node is classified as a reserved nonce. *)
Lemma classify_not_reserved e : classify_rpc_error e <> AlreadyReserved.
Proof. destruct e as [message|]; [|done]. unfold classify_rpc_error. by repeat (destruct (contains _ _); [done|]). Qed.

(** * Fees of replacements *)

Section fees.
Context (cfg : TxManagerConfig).

Definition fee_ok (x : Z) : Prop := fits U128_MAX x.

(** What the provider answers is in the range of its types. *)
Record quote_ok (q : Quote) : Prop := {
  qo_tip : forall x, quote_tip q = Ok x -> fee_ok x;
  qo_block : forall x, quote_block q = Ok (Some (Some x)) -> fee_ok x;
  qo_blob : forall x, quote_blob q = Ok x -> fee_ok x;
}.
Record fees_ok : Prop := {
  fk_tip : fee_ok (min_tip_cap cfg);
  fk_base : fee_ok (min_basefee cfg);
  fk_blob : fee_ok (min_blob_fee cfg);
}.

(** Fees that can be put into a transaction. *)
Definition priced (blob : bool) (tip fee_cap : Z) (blob_cap : option Z) : Prop :=
  0 <= tip <= fee_cap /\ fee_cap <= U128_MAX /\ bool_decide (is_Some blob_cap) = blob /\
  forall b, blob_cap = Some b -> fee_ok b.

(** The rule by which a node accepts the fee of a replacement: it is higher, by the given part. *)
Definition outbids (percent old new : Z) : Prop := old < new /\ old + old * percent / 100 <= new.

(** What the manager makes of a fee: it is not lowered, and it outbids the old one unless the old
    one is zero or leaves no room for the increase. *)
Definition raised (percent old new : Z) : Prop :=
  old <= new /\ (0 < old -> 2 * old <= U128_MAX -> outbids percent old new).

Lemma threshold_raised blob x y : fee_ok x -> calc_threshold_value x blob <= y -> raised (if blob then 100 else 10) x y.
Proof.
  intros [Hx Hm] Ht. unfold calc_threshold_value in Ht. unfold raised, outbids.
  assert (Hd : x * 10 / 100 = x / 10) by (rewrite <- (Z.div_mul_cancel_r x 10 10) by lia; f_equal; lia).
  pose proof (Z.div_pos x 10 Hx ltac:(lia)). pose proof (Z.div_le_upper_bound x 10 x ltac:(lia) ltac:(lia)).
  destruct (Z.eqb_spec x 0) as [->|Hne]; [lia|].
  unfold sat_add in Ht. destruct blob.
  - rewrite Z.div_mul by lia. lia.
  - rewrite Hd. clear Hd. destruct (x / 10 >? 0) eqn:Hv; rewrite Z.gtb_ltb in Hv; [apply Z.ltb_lt in Hv|apply Z.ltb_ge in Hv]; lia.
Qed.

Lemma gas_fee_cap_above base tip : 0 <= base -> 0 <= tip <= U128_MAX -> tip <= calc_gas_fee_cap base tip <= U128_MAX.
Proof. unfold calc_gas_fee_cap, sat_add, sat_mul, U128_MAX. lia. Qed.

Lemma update_fees_spec old_tip old_cap new_tip base blob tip cap :
  0 <= old_tip -> 0 <= old_cap -> 0 <= new_tip <= U128_MAX -> 0 <= base ->
  update_fees old_tip old_cap new_tip base blob = (tip, cap) ->
  calc_threshold_value old_tip blob <= tip /\ calc_threshold_value old_cap blob <= cap /\ 0 <= tip <= cap /\ cap <= U128_MAX.
Proof.
  intros Ho1 Ho2 Hn Hb Hu. unfold update_fees in Hu.
  assert (Ht : forall x, 0 <= x -> 0 <= calc_threshold_value x blob <= U128_MAX).
  { intros x Hx. unfold calc_threshold_value, sat_add. pose proof (Z.div_pos x 10 Hx ltac:(lia)).
    repeat break_goal; unfold U128_MAX; lia. }
  pose proof (Ht _ Ho1) as Ht1. pose proof (Ht _ Ho2) as Ht2. set (tt1 := calc_threshold_value old_tip blob) in *.
  set (tt2 := calc_threshold_value old_cap blob) in *. clearbody tt1 tt2. clear Ht.
  assert (Hm : forall a b, a <= b -> calc_gas_fee_cap base a <= calc_gas_fee_cap base b) by (unfold calc_gas_fee_cap, sat_add; lia).
  pose proof (Hm new_tip tt1) as Hm1.
  pose proof (gas_fee_cap_above base new_tip Hb Hn). pose proof (gas_fee_cap_above base tt1 Hb Ht1).
  injection Hu as <- <-. destruct (new_tip >=? tt1) eqn:H1; destruct (calc_gas_fee_cap base new_tip >=? tt2) eqn:H2; zbool;
    try (destruct (tt2 >? _) eqn:H3; zbool); lia.
Qed.

(** Fees above the configured minimums. *)
Definition floored (tip : Z) (blob_cap : option Z) : Prop :=
  min_tip_cap cfg <= tip /\ forall b, blob_cap = Some b -> min_blob_fee cfg <= b.

Definition caps_ok (blob : bool) (caps : GasPriceCaps) : Prop :=
  priced blob (gas_tip_cap caps) (gas_fee_cap caps) (blob_fee_cap caps) /\ floored (gas_tip_cap caps) (blob_fee_cap caps).

Context (Hcfg : fees_ok).

Lemma suggest_ok blob q caps : quote_ok q -> suggest_gas_price_caps_for cfg blob q = Ok caps -> caps_ok blob caps.
Proof using Hcfg.
  intros [Hq1 Hq2 Hq3] Hs. destruct Hcfg as [Hc1 Hc2 Hc3]. unfold suggest_gas_price_caps_for in Hs. unfold fee_ok, fits in *.
  destruct (quote_tip q) as [tip|]; [|done]. specialize (Hq1 _ eq_refl). cbn in Hs.
  destruct (quote_block q) as [[[base|]|]|]; try done. specialize (Hq2 _ eq_refl). cbn in Hs.
  pose proof (gas_fee_cap_above (base `max` min_basefee cfg) (tip `max` min_tip_cap cfg) ltac:(lia) ltac:(lia)).
  destruct blob; [destruct (quote_blob q) as [b|]; [|done]; specialize (Hq3 _ eq_refl); cbn in Hs|]; injection Hs as <-;
    (split; [split_and!; cbn [gas_tip_cap gas_fee_cap blob_fee_cap]; [lia|lia|lia|done|]|split; cbn [gas_tip_cap blob_fee_cap]; [lia|]]); try done;
    intros b' [= <-]; unfold fee_ok, fits, calc_blob_fee_cap, sat_mul, U128_MAX in *; lia.
Qed.

(** [increase_gas_price] gives fees that outbid the old ones. *)
Lemma increase_ok c q tip cap blob_cap bumped : quote_ok q -> priced (is_blob c) tip cap blob_cap ->
  increase_gas_price cfg c q tip cap blob_cap = Ok bumped ->
  priced (is_blob c) (bf_gas_tip_cap bumped) (bf_gas_fee_cap bumped) (bf_blob_fee_cap bumped) /\ caps_ok (is_blob c) (bf_caps bumped) /\
  calc_threshold_value tip (is_blob c) <= bf_gas_tip_cap bumped /\ calc_threshold_value cap (is_blob c) <= bf_gas_fee_cap bumped /\
  (forall b, blob_cap = Some b -> exists b', bf_blob_fee_cap bumped = Some b' /\ calc_threshold_value b true <= b').
Proof using Hcfg.
  intros Hq (Ht & Hc & Hb & Hbo) Hr. unfold increase_gas_price in Hr. rewrite Hb, eqb_reflx in Hr. cbn [negb] in Hr.
  destruct (suggest_gas_price_caps_for cfg (is_blob c) q) as [caps|] eqn:Hs; [|done]. pose proof (suggest_ok _ _ _ Hq Hs) as Hcaps.
  unfold mbind, result_bind in Hr. destruct (update_fees _ _ _ _ _) as [tip' cap'] eqn:Hu. pose proof Hcaps as [(Hct & Hcc & Hcb & Hcbo) _].
  assert (Hbase : 0 <= base_fee_from_caps (gas_fee_cap caps) (gas_tip_cap caps)) by (apply Z.div_pos; unfold sat_sub; lia).
  assert (H0 : 0 <= tip /\ 0 <= cap /\ 0 <= gas_tip_cap caps <= U128_MAX) by lia. destruct H0 as (H1 & H2 & H3).
  destruct (update_fees_spec _ _ _ _ _ _ _ H1 H2 H3 Hbase Hu) as (Hu1 & Hu2 & Hu3 & Hu4).
  destruct (check_fee_limits _ _ _ _); [|done]. injection Hr as <-. cbn.
  split; [|split; [exact Hcaps|split; [exact Hu1|split; [exact Hu2|]]]].
  - split; [exact Hu3|split; [exact Hu4|split; [rewrite <- Hb; by destruct blob_cap|]]].
    intros b Hsome. destruct blob_cap as [old|]; [|done]. injection Hsome as <-. specialize (Hbo old eq_refl).
    unfold fee_ok, fits in *. assert (0 <= calc_threshold_value old true <= U128_MAX).
    { unfold calc_threshold_value, sat_add. destruct (old =? 0); unfold U128_MAX in *; lia. }
    destruct (blob_fee_cap caps) as [nb|] eqn:Hnb; [specialize (Hcbo nb eq_refl)|]; lia.
  - intros b ->. cbn. eexists. split; [done|]. destruct (blob_fee_cap caps); lia.
Qed.

(** A draft carries the blobs of its candidate, and fees that are above the floors it was given. *)
Definition drafted (c : TxCandidate) (d : Draft) : Prop :=
  priced (is_blob c) (dr_tip d) (dr_fee_cap d) (dr_blob_fee_cap d) /\ floored (dr_tip d) (dr_blob_fee_cap d) /\
  dr_sidecar d = (if is_blob c then Some (tx_blobs c) else None).
Definition above (fo : FeeOverride) (d : Draft) : Prop :=
  fo_gas_tip_cap fo <= dr_tip d /\ fo_gas_fee_cap fo <= dr_fee_cap d /\ fo_gas_limit_floor fo <= dr_gas_limit d /\
  forall b, fo_blob_fee_cap fo = Some b -> exists b', dr_blob_fee_cap d = Some b' /\ b <= b'.
Definition floor_ok (c : TxCandidate) (fo : FeeOverride) : Prop :=
  priced (is_blob c) (fo_gas_tip_cap fo) (fo_gas_fee_cap fo) (fo_blob_fee_cap fo).

Ltac head_ok H x E :=
  match type of H with match ?m with Ok _ => _ | Err _ => _ end = Ok _ => destruct m as [x|] eqn:E; [|discriminate H] end.

Lemma draft_ok c fo caps cached env d :
  (forall f, fo = Some f -> floor_ok c f) -> (forall k, caps = Some k -> caps_ok (is_blob c) k) ->
  (forall s, cached = Some s -> s = tx_blobs c) -> quote_ok (ce_quote env) ->
  draft_tx cfg c fo caps cached env = Ok d -> drafted c d /\ forall f, fo = Some f -> above f d.
Proof using Hcfg.
  intros Hfo Hcaps Hcached Hq Hd. unfold draft_tx in Hd. destruct (_ && _); [done|]. destruct (_ && _); [done|].
  unfold mbind, result_bind in Hd.
  destruct (match caps with Some k => Ok k | None => _ end) as [k|] eqn:Hk; [|done].
  assert (Hpk : caps_ok (is_blob c) k).
  { destruct caps as [k'|]; [injection Hk as <-; by apply Hcaps|eapply suggest_ok; [exact Hq|exact Hk]]. }
  clear Hcaps Hk caps. destruct Hpk as [(Hkt & Hkc & Hkb & Hkbo) [Hfl1 Hfl2]].
  match type of Hd with context [match ?m with (a, b) => _ end] => destruct m as [tip cap] eqn:Htc end.
  head_ok Hd blob_cap Hbc. head_ok Hd u Hlimits. head_ok Hd sidecar Hsc. head_ok Hd estimated Hest. injection Hd as <-. unfold drafted, above, priced. cbn.
  assert (Hside : sidecar = (if is_blob c then Some (tx_blobs c) else None)).
  { destruct (is_blob c); [|by injection Hsc as <-]. destruct cached as [s|]; [injection Hsc as <-; by rewrite (Hcached s eq_refl)|].
    destruct (ce_sidecar env); by inversion Hsc. }
  assert (Hblob : bool_decide (is_Some blob_cap) = is_blob c /\
    forall b, blob_cap = Some b -> (fee_ok b /\ min_blob_fee cfg <= b) /\ forall f, fo = Some f -> forall b0, fo_blob_fee_cap f = Some b0 -> b0 <= b).
  { destruct (is_blob c) eqn:Hib; [|by injection Hbc as <-]. destruct (blob_fee_cap k) as [nb|]; [|done]. injection Hbc as <-.
    split; [done|]. intros b [= <-]. specialize (Hkbo nb eq_refl). specialize (Hfl2 nb eq_refl). unfold fee_ok, fits in *.
    destruct fo as [f|]; cbn; [|split; [lia|done]].
    destruct (Hfo f eq_refl) as (_ & _ & _ & Hfb). destruct (fo_blob_fee_cap f) as [fb|] eqn:Hfbe; cbn; (split; [|intros f' [= <-] b0 Hb0; rewrite Hfbe in Hb0]).
    - specialize (Hfb fb eq_refl). unfold fee_ok, fits in Hfb. lia.
    - injection Hb0 as <-. lia.
    - lia.
    - done. }
  destruct Hblob as [Hb1 Hb2]. destruct fo as [f|]; injection Htc as <- <-.
  - destruct (Hfo f eq_refl) as (Hft & Hfc & Hfb & _). split; [split; [split; [lia|split; [lia|split; [done|]]]|split; [split; [lia|]|done]]|].
    + intros b Hb. by apply Hb2.
    + intros b Hb. by apply Hb2.
    + intros f' [= <-]. split_and!; [lia|lia|lia|]. intros b Hb. rewrite Hb in Hfb. rewrite <- Hfb in Hb1.
      destruct blob_cap as [b'|]; [|done]. exists b'. split; [done|]. destruct (Hb2 b' eq_refl) as [_ Hle]. exact (Hle f eq_refl b Hb).
  - split; [split; [split; [lia|split; [lia|split; [done|]]]|split; [split; [lia|]|done]]|done]; intros b Hb; by apply Hb2.
Qed.

(** With a nonce of its own a preparation does not touch the nonce manager. *)
Lemma craft_ok c fo caps n cached env ns r ns' :
  (forall f, fo = Some f -> floor_ok c f) -> (forall k, caps = Some k -> caps_ok (is_blob c) k) ->
  (forall s, cached = Some s -> s = tx_blobs c) -> quote_ok (ce_quote env) ->
  craft_tx_with_caps cfg c fo caps (Some n) cached env ns = (r, ns') ->
  ns' = ns /\ forall p, r = Ok p -> exists d, p = sign_draft c d n /\ drafted c d /\ forall f, fo = Some f -> above f d.
Proof using Hcfg.
  intros Hfo Hcaps Hcached Hq Hr. unfold craft_tx_with_caps in Hr. destruct (draft_tx cfg c fo caps cached env) as [d|e] eqn:Hd.
  - erewrite bind_run in Hr by reflexivity. pose proof (draft_ok _ _ _ _ _ _ Hfo Hcaps Hcached Hq Hd).
    destruct (ce_sign env); injection Hr as <- <-; (split; [done|]); [|done]. intros p [= <-]. by exists d.
  - erewrite bind_run_err in Hr by reflexivity. by injection Hr as <- <-.
Qed.

Lemma prepare_ok retries c fo caps n cached env ns r ns' :
  (forall f, fo = Some f -> floor_ok c f) -> (forall k, caps = Some k -> caps_ok (is_blob c) k) ->
  (forall s, cached = Some s -> s = tx_blobs c) -> (forall k, quote_ok (ce_quote (env k))) ->
  prepare_with_initial_caps cfg retries c fo caps (Some n) cached env ns = (r, ns') ->
  ns' = ns /\ forall p, r = Ok p -> exists d, p = sign_draft c d n /\ drafted c d /\ forall f, fo = Some f -> above f d.
Proof using Hcfg.
  intros Hfo Hcaps Hcached Hq. revert caps Hcaps. induction retries as [|retries IH]; intros caps Hcaps Hr;
    cbn [prepare_with_initial_caps] in Hr; destruct (ce_closed (env _)).
  1,3: cbn in Hr; by injection Hr as <- <-.
  all: destruct (craft_tx_with_caps cfg c fo caps (Some n) cached (env _) ns) as [o ns1] eqn:Hrun;
    destruct (craft_ok _ _ _ _ _ _ _ _ _ Hfo Hcaps Hcached (Hq _) Hrun) as [-> Hone]; destruct o as [p|e].
  1,2,3: by injection Hr as <- <-.
  destruct (is_retryable e); [|by injection Hr as <- <-]. by apply IH in Hr.
Qed.
End fees.

(** * One task *)

Section tasks.
Context (cfg : TxManagerConfig) (Hcfg : fees_ok cfg).

Record env_ok (env : StepEnv) : Prop := {
  eo_fetch : forall n, se_fetch env = Ok n -> fits U64_MAX n;
  eo_quote : quote_ok (se_quote env);
  eo_craft : forall k, quote_ok (ce_quote (se_craft env k));
}.

(** A transaction with the content of a task, under its nonce if it has reserved one, and fees in
    order. *)
Definition belongs (t : SendTask) (p : PreparedTx) : Prop :=
  exists d n, (forall m, tk_nonce t = Some m -> m = n) /\ p = sign_draft (tk_candidate t) d n /\ drafted cfg (tk_candidate t) d.

(** The part by which a replacement has to outbid a transaction: a tenth, or all of it if the
    transaction has blobs. *)
Definition price_bump (old : PreparedTx) : Z := if bool_decide (is_Some (pt_blob_fee_cap old)) then 100 else 10.

(** A replacement keeps the nonce and the content, does not lower the gas limit, and raises every
    fee. *)
Record replaces (old new : PreparedTx) : Prop := {
  rp_nonce : pt_nonce new = pt_nonce old;
  rp_content : stx_data (raw_tx new) = stx_data (raw_tx old) /\ stx_to (raw_tx new) = stx_to (raw_tx old) /\
    stx_value (raw_tx new) = stx_value (raw_tx old) /\ stx_blobs (raw_tx new) = stx_blobs (raw_tx old);
  rp_gas : pt_gas_limit old <= pt_gas_limit new;
  rp_tip : raised (price_bump old) (pt_tip old) (pt_tip new);
  rp_cap : raised (price_bump old) (pt_fee_cap old) (pt_fee_cap new);
  rp_blob : forall b, pt_blob_fee_cap old = Some b -> exists b', pt_blob_fee_cap new = Some b' /\ raised 100 b b';
}.

(** The fee rules of a node for a replacement: it outbids the transaction in every fee. *)
Definition accepted (old new : PreparedTx) : Prop :=
  outbids (price_bump old) (pt_tip old) (pt_tip new) /\ outbids (price_bump old) (pt_fee_cap old) (pt_fee_cap new) /\
  forall b, pt_blob_fee_cap old = Some b -> exists b', pt_blob_fee_cap new = Some b' /\ outbids 100 b b'.

Definition escalates (l : list PreparedTx) : Prop := forall i p q, l !! i = Some p -> l !! S i = Some q -> replaces p q.

Lemma escalates_snoc l q : escalates l -> (forall p, last l = Some p -> replaces p q) -> escalates (l ++ [q]).
Proof.
  intros Hl Hq i a b Ha Hb. destruct (decide (S i < length l)%nat) as [Hi|Hi].
  - rewrite lookup_app_l in Ha, Hb by lia. by eapply Hl.
  - apply lookup_lt_Some in Hb as Hlen. rewrite length_app in Hlen. cbn in Hlen. assert (i = pred (length l) /\ (0 < length l)%nat) as [-> H0] by lia.
    rewrite lookup_app_l in Ha by lia. rewrite lookup_app_r in Hb by lia.
    replace (S (pred (length l)) - length l)%nat with 0%nat in Hb by lia. injection Hb as <-. apply Hq. by rewrite last_lookup.
Qed.

Definition bump_of (t : SendTask) (b : BumpState) : Prop :=
  exists p, last (tk_published t) = Some p /\ b = from_prepared p (bs_tx_hash b).

Definition phase_inv (t : SendTask) : Prop :=
  match tk_phase t with
  | Reserving _ | Fetching _ _ | Crafting _ => tk_nonce t = None
  | Acquiring _ d _ | Counting _ d _ _ => tk_nonce t = None /\ drafted cfg (tk_candidate t) d
  | Preparing => is_Some (tk_nonce t)
  | Publishing p => belongs t p
  | Looping b | Selecting b | Bumping b => bump_of t b
  | Republishing b p => bump_of t b /\ belongs t p /\ forall q, last (tk_published t) = Some q -> replaces q p
  | Starting | Settling _ | Returning _ | Finished _ => True
  end.

(** Before the event loop nothing was published or seen in a block. *)
Definition early (ph : SendPhase) : Prop :=
  match ph with Reserving _ | Fetching _ _ | Starting | Preparing | Crafting _ | Acquiring _ _ _ | Counting _ _ _ _ | Publishing _ => True | _ => False end.
Definition untouched (t : SendTask) : Prop :=
  mined_txs (tk_state t) = [] /\ tk_pollers t = [] /\ tk_published t = [] /\ tk_pooled t = [].

Record task_ok (t : SendTask) : Prop := {
  to_phase : phase_inv t;
  to_early : early (tk_phase t) -> untouched t;
  to_pooled : Forall (belongs t) (tk_pooled t);
  to_published : tk_published t ⊆ tk_pooled t;
  to_escalates : escalates (tk_published t);
  to_flag : has_published (tk_state t) = bool_decide (tk_published t <> []);
}.

Lemma task_at_ok ph c : phase_inv (task_at ph c) -> task_ok (task_at ph c).
Proof. intros Hph. split; [done|done|constructor|done|done|done]. Qed.

Lemma goto_ok ph t : task_ok t -> phase_inv (goto ph t) -> (early ph -> untouched t) -> task_ok (goto ph t).
Proof. intros [H1 H2 H3 H4 H5 H6] Hp He. by split. Qed.

Lemma pool_if_ok reply p t : belongs t p -> Forall (belongs t) (tk_pooled t) -> Forall (belongs t) (tk_pooled (pool_if reply p t)).
Proof. intros Hp Hf. unfold pool_if. destruct (may_be_pooled reply); [|done]. cbn. by rewrite Forall_app, Forall_singleton. Qed.

(** [publish_tx]: an acknowledged transaction may be in a pool; the other flags that matter
    later are left alone. *)
Lemma publish_spec last reply s r s' : publish_tx last reply s = (r, s') ->
  mined_txs s' = mined_txs s /\ has_published s' = is_ok r || has_published s /\
  (is_ok r = true -> may_be_pooled reply = true).
Proof.
  assert (Hproc : forall e, mined_txs (process_send_error e s) = mined_txs s /\ has_published (process_send_error e s) = has_published s).
  { intros e. unfold process_send_error. by destruct e; try destruct (is_retryable _). }
  intros Hr. unfold publish_tx in Hr. destruct reply as [h|[|e]].
  - by injection Hr as <- <-.
  - injection Hr as <- <-. by destruct (Hproc Rpc).
  - erewrite bind_run in Hr by reflexivity. destruct (is_already_known (classify_rpc_error e)) eqn:Hk; cbn [andb] in Hr.
    + assert (Hm : may_be_pooled (Err (Transport e)) = true) by (cbn; by destruct e).
      destruct (has_published s) eqn:Hp; [destruct last|]; injection Hr as <- <-; rewrite ?(proj1 (Hproc _)), ?(proj2 (Hproc _)), ?Hp; done.
    + injection Hr as <- <-. by rewrite (proj1 (Hproc _)), (proj2 (Hproc _)).
Qed.

Lemma acknowledged_ok reply p hash s t : task_ok t -> belongs t p -> may_be_pooled reply = true -> has_published s = true ->
  (forall q, last (tk_published t) = Some q -> replaces q p) ->
  task_ok (goto (Looping (from_prepared p hash)) (add_published p hash (set_send_state s (pool_if reply p t)))).
Proof.
  intros [H1 H2 H3 H4 H5 H6] Hb Hm Hs Hq. unfold pool_if. rewrite Hm. split; cbn.
  - exists p. cbn. by rewrite last_snoc.
  - done.
  - by rewrite Forall_app, Forall_singleton.
  - intros x. rewrite !elem_of_app. intros [Hx|Hx]; [left; by apply H4|by right].
  - by apply escalates_snoc.
  - rewrite Hs. symmetry. apply bool_decide_eq_true. by destruct (tk_published t).
Qed.

Lemma unacknowledged_ok reply p s ph t : task_ok t -> belongs t p -> has_published s = has_published (tk_state t) ->
  ~ early ph -> phase_inv (goto ph t) -> task_ok (goto ph (set_send_state s (pool_if reply p t))).
Proof.
  intros [H1 H2 H3 H4 H5 H6] Hb Hs He Hp. pose proof (pool_if_ok reply p t Hb H3) as Hpool. unfold pool_if in *.
  destruct (may_be_pooled reply); (split; [done|done|done| |done|exact (eq_trans Hs H6)]); cbn; [|done].
  intros x Hx. apply elem_of_app. left. by apply H4.
Qed.

(** A bump of [t] yields a transaction that may replace its last one. *)
Lemma bump_replaces q env t b ns r ns' : task_ok t -> bump_of t b -> quote_ok q -> (forall k, quote_ok (ce_quote (env k))) ->
  prepare_bump cfg (tk_candidate t) q env b ns = (r, ns') ->
  ns' = ns /\ forall p, r = Ok p -> belongs t p /\ forall old, last (tk_published t) = Some old -> replaces old p.
Proof using Hcfg.
  intros Ht (old & Hlast & Hb) Hq Henv Hr. unfold prepare_bump in Hr.
  assert (Hold : belongs t old).
  { pose proof (to_pooled _ Ht) as Hf. rewrite Forall_forall in Hf. apply Hf, (to_published _ Ht), last_Some_elem_of, Hlast. }
  destruct Hold as (d & n & Hn & -> & Hpr & _ & Hside). set (c := tk_candidate t) in *. cbn in Hb.
  rewrite Hb in Hr. cbn [bs_tip bs_fee_cap bs_blob_fee_cap bs_gas_limit bs_nonce bs_sidecar from_prepared sign_draft
     pt_tip pt_fee_cap pt_blob_fee_cap pt_gas_limit pt_nonce pt_sidecar] in Hr.
  destruct (increase_gas_price cfg c q (dr_tip d) (dr_fee_cap d) (dr_blob_fee_cap d)) as [bumped|e] eqn:Hi;
    [|erewrite bind_run_err in Hr by reflexivity; by injection Hr as <- <-].
  destruct (increase_ok cfg Hcfg _ _ _ _ _ _ Hq Hpr Hi) as (Hbp & Hcaps & Ht1 & Ht2 & Ht3).
  erewrite bind_run in Hr by reflexivity.
  eapply prepare_ok in Hr as [-> Hp]; [|exact Hcfg|intros f [= <-]; exact Hbp|by intros k [= <-]| |exact Henv].
  2: { intros s Hs. rewrite Hside in Hs. destruct (is_blob c); [by injection Hs as <-|done]. }
  split; [done|]. intros p Hok. destruct (Hp p Hok) as (d' & -> & Hd' & Hab). specialize (Hab _ eq_refl).
  split; [by exists d', n|]. rewrite Hlast. intros old [= <-]. destruct Hab as (Ha1 & Ha2 & Ha3 & Ha4). cbn in Ha1, Ha2, Ha3, Ha4.
  destruct Hd' as [(Hp1 & Hp2 & _ & Hp4) [_ Hside']]. destruct Hpr as (Ho1 & Ho2 & Ho3 & Ho4).
  split; unfold price_bump; cbn.
  - done.
  - by rewrite Hside, Hside'.
  - done.
  - rewrite Ho3. apply threshold_raised; [unfold fee_ok, fits; lia|]. by etrans.
  - rewrite Ho3. apply threshold_raised; [unfold fee_ok, fits; lia|]. by etrans.
  - intros x Hx. destruct (Ht3 x Hx) as (x' & Hx' & Hle). destruct (Ha4 x' Hx') as (x'' & Hx'' & Hle').
    exists x''. split; [done|]. apply (threshold_raised true); [by apply Ho4|lia].
Qed.

Lemma goto_finished_ok r t : task_ok t -> task_ok (goto (Finished r) t).
Proof. intros Ht. by apply goto_ok. Qed.

Lemma reserved_ok g ns t ns' t' : task_ok t -> untouched t -> reserved g ns t = (ns', t') -> task_ok t'.
Proof.
  intros Ht (Hm & Hpo & Hpu & Hpl) Hr. unfold reserved in Hr. destruct (consume_reserved g ns) as [[n|e] ns1]; injection Hr as <- <-.
  - split; cbn; [done|done|rewrite Hpl; constructor|rewrite Hpu; by intros x []%not_elem_of_nil|by rewrite Hpu|exact (to_flag _ Ht)].
  - by apply goto_finished_ok.
Qed.

Lemma set_bump_ok b t : task_ok t -> task_ok (set_send_state (set_bump_fees b (tk_state t)) t).
Proof. intros [H1 H2 H3 H4 H5 H6]. by split. Qed.

Lemma start_bump_ok b t : task_ok t -> bump_of t b -> task_ok (start_bump b t).
Proof. intros Ht Hb. unfold start_bump. destruct (is_waiting_for_confirmation _); by apply goto_ok. Qed.

Lemma bump_failed_ok b e t : task_ok t -> bump_of t b -> task_ok (bump_failed b e t).
Proof.
  intros Ht Hb. unfold bump_failed. by destruct (bump_aborts _ _); apply goto_ok.
Qed.

Lemma loop_turn_ok now closed b t : task_ok t -> bump_of t b -> task_ok (loop_turn now closed b t).
Proof.
  intros Ht Hb. unfold loop_turn. destruct closed; [by apply goto_ok|].
  destruct (critical_error now (tk_state t)); [by apply goto_ok|]. destruct (tk_receipts t); [|by apply goto_ok].
  destruct (bump_fees (tk_state t)); [|by apply goto_ok]. by apply start_bump_ok; [apply set_bump_ok|].
Qed.

(** The attempts of [send] to craft its transaction. *)
Lemma craft_failed_ok retries e t : task_ok t -> tk_nonce t = None -> untouched t -> task_ok (craft_failed retries e t).
Proof. intros Ht Hn Hu. unfold craft_failed. destruct retries; [by apply goto_ok|]. by destruct (is_retryable e); apply goto_ok. Qed.

Lemma sign_guarded_ok env retries d g ns t ns' t' : task_ok t -> tk_nonce t = None -> untouched t -> drafted cfg (tk_candidate t) d ->
  sign_guarded cfg env retries d g ns t = (ns', t') -> task_ok t'.
Proof.
  intros Ht Hn Hu Hd Hr. unfold sign_guarded in Hr. destruct (_ && _); [injection Hr as <- <-; by apply goto_ok|].
  destruct (ce_sign _); injection Hr as <- <-; [|by apply craft_failed_ok]. apply goto_ok; [done| |done].
  exists d, (guard_nonce g). split; [|done]. cbn. congruence.
Qed.

Lemma start_send_ok now closed t : task_ok t -> untouched t -> task_ok (start_send cfg now closed t).
Proof.
  intros Ht (Hm & Hpo & Hpu & Hpl). unfold start_send. destruct closed; [by apply goto_finished_ok|].
  unfold new_send_state. destruct (_ =? 0); [by apply goto_finished_ok|].
  assert (Hs : forall s, mined_txs s = [] -> has_published s = false -> task_ok (goto Starting (set_send_state s t))).
  { intros s Hs1 Hs2. split; cbn; rewrite ?Hpl, ?Hpu; done. }
  match goal with |- task_ok (goto _ (set_send_state ?s t)) =>
    assert (Ht' : task_ok (goto Starting (set_send_state s t))) by (apply Hs; by destruct (_ =? 0)); pose proof (to_early _ Ht' I) as Hu end.
  destruct Ht' as [_ _ H3 H4 H5 H6]. split; [|by intros _|done..]. unfold phase_inv. cbn. by destruct (tk_nonce t) eqn:Hn; cbn.
Qed.

(** Every step keeps a task in order. *)
Lemma step_task_ok env closed ns t ns' t' : env_ok env -> task_ok t -> task_step cfg env closed ns t = (ns', t') -> task_ok t'.
Proof using Hcfg.
  intros [Hf Hq Hc] Ht Hr. pose proof (to_phase _ Ht) as Hph. pose proof (to_early _ Ht) as He.
  unfold task_step in Hr. unfold phase_inv in Hph. destruct (tk_phase t) as [[|k]|k gen| | |k|k d [|a]|k d a gen|p|b|b|b|b p|r|r|r] eqn:Hphase;
    try (specialize (He I)).
  - injection Hr as <- <-. by apply goto_finished_ok.
  - destruct (lookup_nonce ns) as [[[g|gen]|e] ns1]; [by eapply reserved_ok|..]; injection Hr as <- <-; [by apply goto_ok|by apply goto_finished_ok].
  - destruct (fetched_nonce _) as [fetched|e]; [|injection Hr as <- <-; by apply goto_finished_ok].
    destruct (store_fetched gen fetched ns) as [[[g|]|e] ns1]; [by eapply reserved_ok|..]; injection Hr as <- <-; [by apply goto_ok|by apply goto_finished_ok].
  - injection Hr as <- <-. by apply start_send_ok.
  - destruct Hph as [n Hn]. rewrite Hn in Hr. destruct (prepare_with_initial_caps _ _ _ _ _ _ _ _ _) as [r ns1] eqn:Hp.
    eapply prepare_ok in Hp as [-> Hp]; [|exact Hcfg|done|done|done|exact Hc]. destruct r as [p|e]; injection Hr as <- <-; [|by apply goto_ok].
    destruct (Hp p eq_refl) as (d & -> & Hd & _). apply goto_ok; [done| |done]. exists d, n. split; [cbn; congruence|done].
  - injection Hr as <- <-. unfold craft_draft. destruct closed; [by apply craft_failed_ok|].
    destruct (draft_tx _ _ _ _ _ _) as [d|e] eqn:Hd; [|by apply craft_failed_ok].
    apply (draft_ok cfg Hcfg) in Hd as [Hd _]; [|done..]. by apply goto_ok.
  - injection Hr as <- <-. destruct Hph. by apply craft_failed_ok.
  - destruct Hph as [Hn Hd]. destruct (lookup_nonce ns) as [[[g|gen]|e] ns1]; [by eapply sign_guarded_ok|..]; injection Hr as <- <-;
      [by apply goto_ok|by apply craft_failed_ok].
  - destruct Hph as [Hn Hd]. destruct (fetched_nonce _) as [fetched|e]; [|injection Hr as <- <-; by apply craft_failed_ok].
    destruct (store_fetched gen fetched ns) as [[[g|]|e] ns1]; [by eapply sign_guarded_ok|..]; injection Hr as <- <-;
      [by apply goto_ok|by apply craft_failed_ok].
  - destruct (publish_tx None (se_reply env) (tk_state _)) as [r s] eqn:Hp. pose proof (publish_spec _ _ _ _ _ Hp) as (Hm & Hs & Hpool).
    assert (Hst : tk_state (pool_if (se_reply env) p t) = tk_state t) by (unfold pool_if; by destruct (may_be_pooled _)).
    destruct He as (_ & _ & Hpu & _). rewrite Hst in Hm, Hs. destruct r as [h|e]; injection Hr as <- <-.
    + apply acknowledged_ok; try done; [by apply Hpool|]. by rewrite Hpu.
    + apply unacknowledged_ok; [done|done|done|by intros []|done].
  - injection Hr as <- <-. by apply loop_turn_ok.
  - destruct (tk_receipts t); injection Hr as <- <-; [by apply start_bump_ok|by apply goto_ok].
  - destruct (prepare_bump _ _ _ _ _ _) as [r ns1] eqn:Hp. eapply bump_replaces in Hp as [-> Hp]; [|done..].
    destruct r as [p|e]; injection Hr as <- <-; [|by apply bump_failed_ok]. destruct (Hp p eq_refl). by apply goto_ok.
  - destruct Hph as (Hb & Hbel & Hrep). destruct (publish_tx _ (se_reply env) (tk_state _)) as [r s] eqn:Hp.
    pose proof (publish_spec _ _ _ _ _ Hp) as (Hm & Hs & Hpool).
    assert (Hst : tk_state (pool_if (se_reply env) p t) = tk_state t) by (unfold pool_if; by destruct (may_be_pooled _)).
    rewrite Hst in Hm, Hs. destruct r as [h|e]; injection Hr as <- <-.
    + apply acknowledged_ok; try done. by apply Hpool.
    + unfold bump_failed. apply unacknowledged_ok; [done|done|done|by destruct (bump_aborts _ _); intros []|]. by destruct (bump_aborts _ _).
  - injection Hr as <- <-. by apply goto_ok.
  - injection Hr as <- <-. by apply goto_finished_ok.
  - by injection Hr as <- <-.
Qed.

(** * The nonces of the tasks *)

(** A task holds its nonce until it has finished, and for good if it has published. *)
Definition holds (t : SendTask) : list Z :=
  match tk_phase t with
  | Reserving _ | Fetching _ _ => []
  | Finished _ => if has_published (tk_state t) then option_list (tk_nonce t) else []
  | _ => option_list (tk_nonce t)
  end.

(** A task whose nonce was too high, and which has published nothing. *)
Definition dropped (t : SendTask) (n : Z) : Prop :=
  tk_phase t = Finished (Err NonceTooHigh) /\ tk_nonce t = Some n /\ has_published (tk_state t) = false.

(** What a step of a task does to the nonces, beside the nonces of the other tasks. *)
Definition steps (ns : NonceState) (t : SendTask) (ns' : NonceState) (t' : SendTask) (others : list Z) : Prop :=
  passes ns (holds t ++ others) ns' (holds t' ++ others) /\
  forall n, dropped t' n -> dropped t n \/ lost n ns' (holds t' ++ others).

Lemma steps_same ns t t' others : nonces_ok ns (holds t ++ others) -> holds t' = holds t ->
  (forall r, tk_phase t' <> Finished r) -> steps ns t ns t' others.
Proof. intros Hok Hh Hf. split; [rewrite Hh; by apply passes_refl|]. intros n [Hp _]. by apply Hf in Hp. Qed.

(** A task without a reserved nonce. *)
Lemma holds_none t : tk_nonce t = None -> holds t = [].
Proof. unfold holds. intros ->. by destruct (tk_phase t); try destruct (has_published _). Qed.
Lemma steps_none ns t ns' t' others : tk_nonce t = None -> tk_nonce t' = None -> passes ns others ns' others -> steps ns t ns' t' others.
Proof. intros Hn Hn' Hp. split; [by rewrite !holds_none|]. intros n (_ & Hs & _). congruence. Qed.

Lemma steps_reserved g ns t ns1 ns' t' others : holds t = [] -> tk_nonce t = None -> gives ns others (Some g) ns1 ->
  reserved g ns1 t = (ns', t') -> steps ns t ns' t' others.
Proof.
  intros Hh Hn [Hp Hg] Hr. unfold reserved in Hr. destruct (consume_reserved g ns1) as [[n|e] ns2] eqn:Hc; injection Hr as <- <-.
  - split; [rewrite Hh; exact (proj2 (Hg g eq_refl) n ns2 Hc)|]. by intros m [? _].
  - apply consume_err in Hc as ->. by apply steps_none.
Qed.

Lemma finish_early ns t r others : task_ok t -> early (tk_phase t) -> nonces_ok ns (holds t ++ others) -> r <> Err NonceTooHigh ->
  steps ns t ns (goto (Finished r) t) others.
Proof.
  intros Ht He Hok Hr. pose proof (to_flag _ Ht) as Hf. destruct (to_early _ Ht He) as (_ & _ & Hpu & _). rewrite Hpu in Hf.
  assert (Hh : holds (goto (Finished r) t) = []) by (unfold holds; cbn; by rewrite Hf).
  split; [|by intros n ([= ->] & _)]. rewrite Hh. unfold holds in *.
  destruct (tk_phase t); try done; try (by apply passes_refl); destruct (tk_nonce t); try (by apply passes_refl); by apply drop_ok.
Qed.

(** The last step of a task: its nonce is returned, kept or lost. *)
Lemma steps_returning ns t r others : tk_phase t = Returning r -> nonces_ok ns (holds t ++ others) ->
  steps ns t (return_nonce r t ns) (goto (Finished r) t) others.
Proof.
  intros Hph Hok. destruct (tk_nonce t) as [n|] eqn:Hn; cycle 1.
  { unfold return_nonce. rewrite Hn. rewrite holds_none in Hok by done. apply steps_none; [done|done|by apply passes_refl]. }
  unfold return_nonce, steps, holds in *. rewrite Hph in *. cbn. rewrite Hn in *. cbn in *.
  destruct (has_published (tk_state t)) eqn:Hp.
  - assert (Hno : should_return_reserved_nonce r (tk_state t) = false).
    { unfold should_return_reserved_nonce. rewrite Hp. by destruct r as [|[]]. }
    rewrite Hno. split; [by apply passes_refl|]. intros m (_ & _ & Hf). cbn in Hf. congruence.
  - cbn. destruct (should_return_reserved_nonce r (tk_state t)) eqn:Hret.
    + split; [by apply return_nonce_passes|]. intros m ([= ->] & _). done.
    + destruct (drop_ok _ _ _ Hok) as [Hd Hl]. split; [done|]. intros m (_ & Hm & _). cbn in Hm. right. congruence.
Qed.

(** The phases between the reservation and the end, in which a task holds its nonce. *)
Definition middle (ph : SendPhase) : bool :=
  match ph with Reserving _ | Fetching _ _ | Finished _ => false | _ => true end.

Lemma steps_middle ns t t' others : nonces_ok ns (holds t ++ others) -> middle (tk_phase t) = true -> middle (tk_phase t') = true ->
  tk_nonce t' = tk_nonce t -> steps ns t ns t' others.
Proof.
  intros Hok Hm Hm' Hn. apply steps_same; [done| |by intros r Hr; rewrite Hr in Hm'].
  unfold holds. rewrite Hn. by destruct (tk_phase t), (tk_phase t').
Qed.

Lemma pool_if_nonce reply p t : tk_nonce (pool_if reply p t) = tk_nonce t.
Proof. unfold pool_if. by destruct (may_be_pooled reply). Qed.

Lemma start_bump_middle b t : middle (tk_phase (start_bump b t)) = true.
Proof. unfold start_bump. by destruct (is_waiting_for_confirmation _). Qed.
Lemma bump_failed_middle b e t : middle (tk_phase (bump_failed b e t)) = true.
Proof. unfold bump_failed. by destruct (bump_aborts _ _). Qed.
Lemma loop_turn_middle now closed b t : middle (tk_phase (loop_turn now closed b t)) = true /\ tk_nonce (loop_turn now closed b t) = tk_nonce t.
Proof.
  unfold loop_turn. destruct closed; [done|]. destruct (critical_error _ _); [done|]. destruct (tk_receipts t); [|done].
  destruct (bump_fees _); [|done]. by rewrite start_bump_middle.
Qed.

(** The attempts of [send] to craft its transaction. *)
Lemma craft_failed_nonce retries e t : tk_nonce (craft_failed retries e t) = tk_nonce t.
Proof. unfold craft_failed. by destruct retries. Qed.
Lemma craft_draft_nonce env closed retries t : tk_nonce (craft_draft cfg env closed retries t) = tk_nonce t.
Proof. unfold craft_draft. destruct closed; [apply craft_failed_nonce|]. destruct (draft_tx _ _ _ _ _ _); [done|apply craft_failed_nonce]. Qed.

Lemma steps_signed env retries d g ns ns1 t ns' t' others : tk_nonce t = None -> gives ns others (Some g) ns1 ->
  sign_guarded cfg env retries d g ns1 t = (ns', t') -> steps ns t ns' t' others.
Proof.
  intros Hn [Hp Hg] Hr. destruct (Hg g eq_refl) as [[Hback _] _]. unfold sign_guarded in Hr.
  destruct (_ && _); [|destruct (ce_sign _)]; injection Hr as <- <-; apply steps_none; rewrite ?craft_failed_nonce; done.
Qed.

Lemma start_send_steps now closed ns t others : task_ok t -> tk_phase t = Starting -> nonces_ok ns (holds t ++ others) ->
  steps ns t ns (start_send cfg now closed t) others.
Proof.
  intros Ht Hph Hok. assert (He : early (tk_phase t)) by (by rewrite Hph). unfold start_send. destruct closed; [by apply finish_early|].
  unfold new_send_state. destruct (_ =? 0); [by apply finish_early|]. apply steps_middle; rewrite ?Hph; try done. cbn. by destruct (tk_nonce t).
Qed.

Lemma step_nonces_ok env closed ns t others ns' t' : env_ok env -> task_ok t -> nonces_ok ns (holds t ++ others) ->
  task_step cfg env closed ns t = (ns', t') -> steps ns t ns' t' others.
Proof using Hcfg.
  intros [Hf Hq Hc] Ht Hok Hr. pose proof (to_phase _ Ht) as Hph. unfold task_step in Hr. unfold phase_inv in Hph.
  assert (Hnone : tk_nonce t = None -> nonces_ok ns others) by (intros Hn; by rewrite holds_none in Hok).
  destruct (tk_phase t) as [[|k]|k gen| | |k|k d [|a]|k d a gen|p|b|b|b|b p|r|r|r] eqn:Hphase; try specialize (Hnone Hph);
    try specialize (Hnone (proj1 Hph)).
  - injection Hr as <- <-. by apply steps_none, passes_refl.
  - destruct (lookup_nonce ns) as [[[g|gen]|e] ns1] eqn:Hl; pose proof (lookup_ok _ _ _ _ Hnone Hl) as Hg.
    + exact (steps_reserved _ _ _ _ _ _ _ (holds_none t Hph) Hph Hg Hr).
    + injection Hr as <- <-. by apply steps_none, Hg.
    + injection Hr as <- <-. by apply steps_none, Hg.
  - destruct (se_fetch env) as [fetched|e]; cbn in Hr; [|injection Hr as <- <-; by apply steps_none, passes_refl].
    destruct (store_fetched gen fetched ns) as [[[g|]|e] ns1] eqn:Hl;
      pose proof (store_ok _ _ _ _ _ _ Hnone (proj1 (Hf _ eq_refl)) Hl) as Hg.
    + exact (steps_reserved _ _ _ _ _ _ _ (holds_none t Hph) Hph Hg Hr).
    + injection Hr as <- <-. by apply steps_none, Hg.
    + injection Hr as <- <-. by apply steps_none, Hg.
  - injection Hr as <- <-. by apply start_send_steps.
  - destruct Hph as [n Hn]. rewrite Hn in Hr. destruct (prepare_with_initial_caps _ _ _ _ _ _ _ _ _) as [r ns1] eqn:Hp.
    eapply prepare_ok in Hp as [-> Hp]; [|exact Hcfg|done|done|done|exact Hc].
    destruct r as [p|e]; injection Hr as <- <-; apply steps_middle; by rewrite ?Hphase.
  - injection Hr as <- <-. apply steps_none; [done|by rewrite craft_draft_nonce|by apply passes_refl].
  - injection Hr as <- <-. destruct Hph. apply steps_none; [done|by rewrite craft_failed_nonce|by apply passes_refl].
  - destruct Hph as [Hn _]. destruct (lookup_nonce ns) as [[[g|gen]|e] ns1] eqn:Hl; pose proof (lookup_ok _ _ _ _ Hnone Hl) as Hg;
      [exact (steps_signed _ _ _ _ _ _ _ _ _ _ Hn Hg Hr)|..]; injection Hr as <- <-; apply steps_none; rewrite ?craft_failed_nonce; by try apply Hg.
  - destruct Hph as [Hn _].
    destruct (se_fetch env) as [fetched|e]; cbn in Hr; [|injection Hr as <- <-; apply steps_none; [done|by rewrite craft_failed_nonce|by apply passes_refl]].
    destruct (store_fetched gen fetched ns) as [[[g|]|e] ns1] eqn:Hl; pose proof (store_ok _ _ _ _ _ _ Hnone (proj1 (Hf _ eq_refl)) Hl) as Hg;
      [exact (steps_signed _ _ _ _ _ _ _ _ _ _ Hn Hg Hr)|..]; injection Hr as <- <-; apply steps_none; rewrite ?craft_failed_nonce; by try apply Hg.
  - destruct (publish_tx _ _ _) as [[h|e] s]; injection Hr as <- <-; apply steps_middle; rewrite ?Hphase; try done; apply pool_if_nonce.
  - injection Hr as <- <-. destruct (loop_turn_middle (se_now env) closed b t). apply steps_middle; by rewrite ?Hphase.
  - destruct (tk_receipts t); injection Hr as <- <-; apply steps_middle; rewrite ?Hphase; try done. apply start_bump_middle.
  - destruct (prepare_bump _ _ _ _ _ _) as [r ns1] eqn:Hp. eapply bump_replaces in Hp as [-> Hp]; [|done..].
    destruct r as [p|e]; injection Hr as <- <-; apply steps_middle; rewrite ?Hphase; try done. apply bump_failed_middle.
  - destruct (publish_tx _ _ _) as [[h|e] s]; injection Hr as <- <-; apply steps_middle; rewrite ?Hphase; try done;
      try apply bump_failed_middle; apply pool_if_nonce.
  - injection Hr as <- <-. assert (Hsame : holds (goto (Returning r) t) = holds t) by (unfold holds; by rewrite Hphase).
    split; [rewrite Hsame; unfold settle_nonces; destruct (should_reset_nonce_on_send_error _ _ _); [by apply reset_nonces_ok|by apply passes_refl]|]. by intros n [? _].
  - injection Hr as <- <-. by apply steps_returning.
  - injection Hr as <- <-. split; [by apply passes_refl|]. intros n Hn. by left.
Qed.

(** Polls and timeouts. *)
Lemma query_spec p hash s r s' : query_receipt cfg p hash s = (r, s') -> has_published s' = has_published s.
Proof.
  assert (Hnm : has_published (tx_not_mined hash s) = has_published s).
  { unfold tx_not_mined. destruct (position _ _); [|done]. by case_bool_decide. }
  assert (Hm : has_published (tx_mined hash s) = has_published s) by (unfold tx_mined; by case_bool_decide).
  intros Hr. unfold query_receipt in Hr. repeat (unfold mbind, stm_bind, reads, modify, mret, stm_ret in Hr).
  repeat (break_match_in Hr; simplify_eq); try done; by injection Hr as _ <-.
Qed.

Lemma poll_ok p expired closed j t : task_ok t -> task_ok (poll_step cfg p expired closed j t) /\
  tk_phase (poll_step cfg p expired closed j t) = tk_phase t /\ tk_nonce (poll_step cfg p expired closed j t) = tk_nonce t /\
  tk_pooled (poll_step cfg p expired closed j t) = tk_pooled t /\
  has_published (tk_state (poll_step cfg p expired closed j t)) = has_published (tk_state t).
Proof.
  intros Ht. unfold poll_step. destruct (tk_pollers t !! j) as [hash|] eqn:Hj; [|done].
  assert (Hne : ~ early (tk_phase t)). { intros He. destruct (to_early _ Ht He) as (_ & Hp & _). by rewrite Hp in Hj. }
  destruct (query_receipt cfg p hash (tk_state t)) as [r s] eqn:Hq. pose proof (query_spec _ _ _ _ _ Hq) as Hs.
  destruct Ht as [H1 H2 H3 H4 H5 H6]. destruct r as [[r|]|e]; (split; [|done]); (split; cbn; [done|done|done|done|done|congruence]).
Qed.

(** A send without a reserved nonce that is about to publish for the first time. *)
Definition publishing (n : Z) (t : SendTask) : Prop :=
  tk_nonce t = None /\ exists p, tk_phase t = Publishing p /\ pt_nonce p = n.

(** Where the nonce of a transaction that a step of a task pools comes from. *)
Definition pool_source (t : SendTask) (p : PreparedTx) : Prop :=
  (exists q, q ∈ tk_pooled t /\ pt_nonce q = pt_nonce p) \/ pt_nonce p ∈ holds t \/ publishing (pt_nonce p) t.

Definition sending (ph : SendPhase) (p : PreparedTx) : Prop :=
  match ph with Publishing q | Republishing _ q => q = p | _ => False end.

Lemma sending_source t p : task_ok t -> sending (tk_phase t) p -> belongs t p /\ pool_source t p.
Proof using Type.
  intros Ht Hs. pose proof (to_phase _ Ht) as Hph. unfold phase_inv in Hph. unfold pool_source, publishing, holds.
  assert (Hsome : belongs t p -> forall m, tk_nonce t = Some m -> pt_nonce p ∈ option_list (tk_nonce t)).
  { intros (d & n & Hn & -> & _) m Hm. rewrite Hm, (Hn m Hm). by left. }
  destruct (tk_phase t) as [| | | | | | |q| | | |b q| | |] eqn:Hphase; try done; cbn in Hs; subst q.
  - split; [done|]. right. destruct (tk_nonce t) as [m|] eqn:Hm; [left; by eapply Hsome|right]. split; [done|]. by exists p.
  - destruct Hph as ((old & Hl & _) & Hbel & Hrep). split; [done|]. left. exists old.
    split; [by apply (to_published _ Ht), last_Some_elem_of|]. symmetry. apply (rp_nonce old p). by apply Hrep.
Qed.

Lemma pooled_source t p : p ∈ tk_pooled t -> pool_source t p.
Proof using Type. intros Hp. left. by exists p. Qed.

(** What happens to a task beside its steps leaves the nonces alone. *)
Record undisturbed (t t' : SendTask) : Prop := {
  ud_ok : task_ok t';
  ud_holds : holds t' = holds t;
  ud_dropped : forall n, dropped t' n -> dropped t n;
  ud_pooled : forall p, p ∈ tk_pooled t' -> pool_source t p;
  ud_publishing : forall n, publishing n t' -> publishing n t;
}.

Lemma undisturbed_refl t : task_ok t -> undisturbed t t.
Proof using Type. intros Ht. split; try done. apply pooled_source. Qed.

Lemma task_timeout_ok t : task_ok t -> undisturbed t (task_timeout cfg t).
Proof using Type.
  intros Ht. unfold task_timeout. destruct (_ =? 0); [by apply undisturbed_refl|].
  assert (Hgo : forall x, holds (goto (Settling (Err SendTimeout)) x) = holds t -> task_ok (goto (Settling (Err SendTimeout)) x) ->
    (forall p, p ∈ tk_pooled x -> pool_source t p) -> undisturbed t (goto (Settling (Err SendTimeout)) x)).
  { intros x Hh Hx Hp. split; [done|done|by intros n [? _]|done|by intros n (_ & q & ? & _)]. }
  assert (Hadd : forall p, sending (tk_phase t) p -> undisturbed t (goto (Settling (Err SendTimeout)) (add_pooled p t))).
  { intros p Hp. destruct (sending_source t p Ht Hp) as [Hbel Hps]. apply Hgo.
    - unfold holds. by destruct (tk_phase t).
    - destruct Ht as [H1 H2 H3 H4 H5 H6]. split; [done|done| | |done|done]; cbn; [by rewrite Forall_app, Forall_singleton|].
      intros x Hx. apply elem_of_app. left. by apply H4.
    - intros q [Hq|Hq]%elem_of_app; [by apply pooled_source|]. by apply list_elem_of_singleton in Hq as ->. }
  assert (Hquit : middle (tk_phase t) = true -> undisturbed t (goto (Settling (Err SendTimeout)) t)).
  { intros Hm. apply Hgo; [unfold holds; by destruct (tk_phase t)|by apply goto_ok|apply pooled_source]. }
  destruct (tk_phase t) eqn:Hphase; try (by apply undisturbed_refl); by first [apply Hquit|apply Hadd].
Qed.

(** A step pools a transaction only under a nonce its task may use. *)
Lemma step_pooled env closed ns t ns' t' p : task_ok t -> task_step cfg env closed ns t = (ns', t') ->
  p ∈ tk_pooled t' -> pool_source t p.
Proof.
  intros Ht Hr Hp.
  assert (Hpool : forall reply q x, sending (tk_phase t) q -> x ∈ tk_pooled (pool_if reply q t) -> pool_source t x).
  { intros reply q x Hq Hx. unfold pool_if in Hx. destruct (may_be_pooled reply); [|by apply pooled_source].
    apply elem_of_app in Hx as [Hx|Hx]; [by apply pooled_source|]. apply list_elem_of_singleton in Hx as ->. by apply sending_source. }
  assert (Hsame : tk_pooled t' = tk_pooled t -> pool_source t p) by (intros Hs; apply pooled_source; by rewrite <- Hs).
  assert (Hres : forall g s, reserved g s t = (ns', t') -> tk_pooled t' = tk_pooled t).
  { intros g s Hg. unfold reserved in Hg. destruct (consume_reserved g s) as [[?|?] ?]; by injection Hg as _ <-. }
  assert (Hfail : forall k e, tk_pooled (craft_failed k e t) = tk_pooled t) by (intros [] e; done).
  assert (Hsig : forall k d g s, sign_guarded cfg env k d g s t = (ns', t') -> tk_pooled t' = tk_pooled t).
  { intros k d g s Hg. unfold sign_guarded in Hg. destruct (_ && _); [|destruct (ce_sign _)]; injection Hg as _ <-; [done|done|apply Hfail]. }
  unfold task_step in Hr.
  destruct (tk_phase t) as [[|k]|k gen| | |k|k d [|a]|k d a gen|q|b|b|b|b q|r|r|r] eqn:Hphase.
  all: try (apply Hsame; repeat break_match_in Hr; solve [by injection Hr as _ <- | by eapply Hres | by eapply Hsig | injection Hr as _ <-; apply Hfail]).
  - apply Hsame. injection Hr as _ <-. unfold start_send. repeat break_goal; done.
  - apply Hsame. injection Hr as _ <-. unfold craft_draft. repeat break_goal; first [done|apply Hfail].
  - destruct (publish_tx _ _ _) as [[h|e] s]; injection Hr as <- <-; by apply (Hpool (se_reply env) q).
  - apply Hsame. injection Hr as _ <-. unfold loop_turn, start_bump. repeat break_goal; done.
  - destruct (publish_tx _ _ _) as [[h|e] s]; injection Hr as <- <-; [|unfold bump_failed in Hp]; by apply (Hpool (se_reply env) q).
Qed.

(** A send without a reserved nonce takes one that nobody holds and that is not lost. *)
Lemma signed_publishing env retries d g ns ns1 t ns' t' others n : gives ns others (Some g) ns1 ->
  sign_guarded cfg env retries d g ns1 t = (ns', t') -> publishing n t' -> unused ns others n.
Proof.
  intros [_ Hg] Hr (_ & q & Hq & <-). destruct (Hg g eq_refl) as [[_ Hu] _]. unfold sign_guarded in Hr.
  destruct (_ && _); [by injection Hr as <- <-|]. destruct (ce_sign _); injection Hr as <- <-; [by injection Hq as <-|].
  unfold craft_failed in Hq. by destruct retries.
Qed.

Lemma step_publishing env closed ns t others ns' t' n : env_ok env -> task_ok t -> nonces_ok ns (holds t ++ others) ->
  task_step cfg env closed ns t = (ns', t') -> publishing n t' -> unused ns others n.
Proof using Type.
  intros Henv Ht Hok Hr Hpub. pose proof (to_phase _ Ht) as Hph. unfold phase_inv in Hph. pose proof Hpub as (Hn' & q & Hq & Hnq).
  assert (Hfail : forall k e, tk_phase (craft_failed k e t) <> Publishing q) by (intros [] e; cbn; [done|by destruct (is_retryable e)]).
  assert (Hres : forall g s, reserved g s t <> (ns', t')).
  { intros g s Hg. unfold reserved in Hg. destruct (consume_reserved g s) as [[?|?] ?]; injection Hg as _ <-; done. }
  unfold task_step in Hr. destruct (tk_phase t) as [[|k]|k gen| | |k|k d [|a]|k d a gen|p|b|b|b|b p|r|r|r] eqn:Hphase.
  all: try (injection Hr as _ <-; cbn in Hq; congruence).
  - repeat break_match_in Hr; first [by destruct (Hres _ _ Hr)|by injection Hr as _ <-].
  - repeat break_match_in Hr; first [by destruct (Hres _ _ Hr)|by injection Hr as _ <-].
  - injection Hr as _ <-. revert Hq. unfold start_send. repeat break_goal; done.
  - destruct Hph as [m Hm]. destruct (prepare_with_initial_caps _ _ _ _ _ _ _ _ _) as [[p|e] ns1]; injection Hr as _ <-; [|done].
    cbn in Hn'. congruence.
  - injection Hr as _ <-. revert Hq. unfold craft_draft. repeat break_goal; intros Hq; first [done|by destruct (Hfail _ _ Hq)].
  - rewrite holds_none in Hok by apply Hph. destruct (lookup_nonce ns) as [[[g|gen]|e] ns1] eqn:Hl;
      [|by injection Hr as _ <-|injection Hr as _ <-; by destruct (Hfail _ _ Hq)].
    eapply signed_publishing; [exact (lookup_ok _ _ _ _ Hok Hl)|done|done].
  - rewrite holds_none in Hok by apply Hph. destruct (se_fetch env) as [fetched|e] eqn:Hfe; cbn in Hr; [|injection Hr as _ <-; by destruct (Hfail _ _ Hq)].
    destruct (store_fetched gen fetched ns) as [[[g|]|e] ns1] eqn:Hl; [|by injection Hr as _ <-|injection Hr as _ <-; by destruct (Hfail _ _ Hq)].
    eapply signed_publishing; [exact (store_ok _ _ _ _ _ _ Hok (proj1 (eo_fetch _ Henv _ Hfe)) Hl)|done|done].
  - destruct (publish_tx _ _ _) as [[h|e] s]; by injection Hr as _ <-.
  - injection Hr as _ <-. revert Hq. unfold loop_turn, start_bump. repeat break_goal; done.
  - revert Hq. destruct (tk_receipts t); injection Hr as _ <-; [|done]. unfold start_bump. by break_goal.
  - revert Hq. destruct (prepare_bump _ _ _ _ _ _) as [[p|e] ns1]; injection Hr as _ <-; [done|]. unfold bump_failed. by break_goal.
  - revert Hq. destruct (publish_tx _ _ _) as [[h|e] s]; injection Hr as _ <-; [done|]. unfold bump_failed. by break_goal.
Qed.

(** A poll. *)
Lemma poll_undisturbed p expired closed j t : task_ok t -> undisturbed t (poll_step cfg p expired closed j t).
Proof.
  intros Ht. destruct (poll_ok p expired closed j t Ht) as (Hok & Hp & Hn & Hpl & Hs). split; [done|..].
  - unfold holds. by rewrite Hp, Hn, Hs.
  - intros n. unfold dropped. by rewrite Hp, Hn, Hs.
  - intros q. rewrite Hpl. apply pooled_source.
  - intros n. unfold publishing. by rewrite Hp, Hn.
Qed.
End tasks.

(** * All tasks *)

Definition held (ts : list SendTask) : list Z := concat (holds <$> ts).

(** A task with a reserved nonce that has published holds the nonce of its transactions. *)
Lemma published_held cfg t p : task_ok cfg t -> tk_nonce t <> None -> p ∈ tk_published t -> pt_nonce p ∈ holds t.
Proof.
  intros Ht Hsome Hp. pose proof (to_pooled _ _ Ht) as Hf. rewrite Forall_forall in Hf.
  destruct (Hf p (to_published _ _ Ht p Hp)) as (d & n & Hn & -> & _). pose proof (to_flag _ _ Ht) as Hfl.
  assert (Hpub : has_published (tk_state t) = true). { rewrite Hfl. apply bool_decide_eq_true. intros Hnil. rewrite Hnil in Hp. by apply not_elem_of_nil in Hp. }
  destruct (tk_nonce t) as [m|] eqn:Hm; [|done]. rewrite <- (Hn m eq_refl).
  assert (Hph : phase_inv cfg t) by apply Ht. unfold phase_inv in Hph. unfold holds. rewrite Hm in *. rewrite Hpub.
  destruct (tk_phase t); try done; cbn; set_solver.
Qed.

Lemma held_apart ts i j t u n : NoDup (held ts) -> ts !! i = Some t -> ts !! j = Some u -> n ∈ holds t -> n ∈ holds u -> i = j.
Proof.
  intros Hd Hi Hj Ht Hu. destruct (decide (i = j)) as [|Hne]; [done|exfalso].
  assert (Hlt : forall a b x y, (a < b)%nat -> ts !! a = Some x -> ts !! b = Some y -> n ∈ holds x -> n ∈ holds y -> False).
  { clear Hi Hj Ht Hu Hne. intros a b x y Hab Ha Hb Hx Hy. rewrite <- (take_drop_middle ts a x Ha) in Hd, Hb. unfold held in Hd.
    rewrite fmap_app, concat_app in Hd. cbn in Hd. apply NoDup_app in Hd as (_ & _ & Hd). apply NoDup_app in Hd as (_ & Hd & _).
    apply (Hd n Hx). rewrite lookup_app_r in Hb by (rewrite length_take; lia).
    rewrite length_take_le in Hb by (apply lookup_lt_Some in Ha; lia). destruct (b - a)%nat as [|k] eqn:Hk; [lia|]. cbn in Hb.
    apply list_elem_of_In, in_concat. exists (holds y). split; apply list_elem_of_In; [|done]. apply list_elem_of_fmap. exists y.
    split; [done|by eapply list_elem_of_lookup_2]. }
  destruct (decide (i < j)%nat); [by eapply (Hlt i j)|eapply (Hlt j i); [lia|done..]].
Qed.

Section system.
Context (cfg : TxManagerConfig) (Hcfg : fees_ok cfg).

Record sys_ok (sy : System) : Prop := {
  so_tasks : Forall (task_ok cfg) (sy_tasks sy);
  so_nonces : nonces_ok (sy_nonces sy) (held (sy_tasks sy));
  so_dropped : forall t n, t ∈ sy_tasks sy -> dropped t n -> lost n (sy_nonces sy) (held (sy_tasks sy));
}.

Lemma nonces_ok_perm s l l' : l ≡ₚ l' -> nonces_ok s l -> nonces_ok s l'.
Proof.
  intros Hl [Hs Hb Hw Hc Hd Ha]. split; try done; [setoid_rewrite <- Hl; done|by rewrite <- Hl|setoid_rewrite <- Hl; done].
Qed.
Lemma lost_perm n s l l' : l ≡ₚ l' -> lost n s l -> lost n s l'.
Proof. unfold lost. by intros ->. Qed.

(** The nonces of one task and those of the others. *)
Lemma held_split ts i t : ts !! i = Some t -> exists others, forall t', held (<[i := t']> ts) ≡ₚ holds t' ++ others.
Proof.
  intros Hi. exists (held (take i ts) ++ held (drop (S i) ts)). intros t'.
  rewrite insert_take_drop by (by eapply lookup_lt_Some). unfold held. rewrite fmap_app, concat_app. cbn.
  apply Permutation_app_swap_app.
Qed.

(** Replacing a task by what a step makes of it. *)
Lemma update_ok sy i t t' ns' others : sys_ok sy -> sy_tasks sy !! i = Some t ->
  (forall t', held (<[i := t']> (sy_tasks sy)) ≡ₚ holds t' ++ others) -> task_ok cfg t' -> steps (sy_nonces sy) t ns' t' others ->
  sys_ok (mkSystem ns' (sy_closed sy) (<[i := t']> (sy_tasks sy)) (sy_account sy)) /\
  forall n, lost n (sy_nonces sy) (held (sy_tasks sy)) -> lost n ns' (held (<[i := t']> (sy_tasks sy))).
Proof.
  intros [Ht Hn Hd] Hi Hsplit Ht' [[Hok Hl] Hdrop]. pose proof (Hsplit t) as Hold. rewrite list_insert_id in Hold by done.
  pose proof (Hsplit t') as Hnew.
  assert (Hlost : forall n, lost n (sy_nonces sy) (held (sy_tasks sy)) -> lost n ns' (held (<[i := t']> (sy_tasks sy)))).
  { intros n Hln. eapply lost_perm; [symmetry; exact Hnew|]. by apply Hl, (lost_perm _ _ _ _ Hold). }
  split; [|done]. split; cbn.
  - by apply Forall_insert.
  - eapply nonces_ok_perm; [symmetry; exact Hnew|done].
  - intros x n Hx Hdx. apply list_elem_of_lookup in Hx as [k Hk]. destruct (decide (k = i)) as [->|Hne].
    + rewrite list_lookup_insert_eq in Hk by (by eapply lookup_lt_Some). injection Hk as <-.
      destruct (Hdrop n Hdx) as [Hdt|Hln]; [|by eapply lost_perm; [symmetry; exact Hnew|]].
      apply Hlost. eapply Hd; [by eapply list_elem_of_lookup_2|done].
    + rewrite list_lookup_insert_ne in Hk by done. apply Hlost. eapply Hd; [by eapply list_elem_of_lookup_2|done].
Qed.

Definition event_ok (ev : Event) : Prop := match ev with Run _ env => env_ok env | _ => True end.

Lemma alter_lookup {A} (f : A -> A) (i : nat) (l : list A) : alter f i l = match l !! i with Some x => <[i := f x]> l | None => l end.
Proof.
  revert i. induction l as [|y l IH]; intros [|i]; [done|done|done|]. change (alter f (S i) (y :: l)) with (y :: alter f i l).
  cbn. rewrite IH. by destruct (l !! i).
Qed.

(** What happens to one task beside its steps. *)
Lemma alter_ok f sy i : sys_ok sy -> (forall t, task_ok cfg t -> undisturbed cfg t (f t)) ->
  sys_ok (set_tasks (alter f i (sy_tasks sy)) sy) /\
  forall n, lost n (sy_nonces sy) (held (sy_tasks sy)) -> lost n (sy_nonces sy) (held (alter f i (sy_tasks sy))).
Proof.
  intros Hsy Hf. unfold set_tasks. rewrite alter_lookup. destruct (sy_tasks sy !! i) as [t|] eqn:Hi; [|by destruct sy].
  destruct (held_split _ _ _ Hi) as [others Hsplit]. assert (Ht : task_ok cfg t) by (by eapply Forall_lookup_1; [apply Hsy|]).
  destruct (Hf t Ht) as [Ht' Hh Hdr _ _].
  apply (update_ok sy i t (f t) (sy_nonces sy) others); [done|done|done|done|].
  split; [|intros n Hn; left; by apply Hdr]. rewrite Hh. apply passes_refl. eapply nonces_ok_perm; [|apply Hsy].
  rewrite <- Hsplit. by rewrite list_insert_id.
Qed.

Definition lost_in (n : Z) (sy : System) : Prop := lost n (sy_nonces sy) (held (sy_tasks sy)).

(** A new task has no nonce. *)
Lemma added_ok ph c sy : sys_ok sy -> phase_inv cfg (task_at ph c) -> early ph ->
  sys_ok (set_tasks (sy_tasks sy ++ [task_at ph c]) sy) /\ forall n, lost_in n sy -> lost_in n (set_tasks (sy_tasks sy ++ [task_at ph c]) sy).
Proof.
  intros [Ht Hn Hd] Hph He. assert (Hh : held (sy_tasks sy ++ [task_at ph c]) = held (sy_tasks sy)).
  { unfold held. rewrite fmap_app, concat_app. cbn. by rewrite holds_none, !app_nil_r. }
  unfold lost_in, set_tasks. cbn [sy_tasks sy_nonces]. rewrite Hh. split; [|done].
  split; cbn [sy_tasks sy_nonces]; rewrite ?Hh; [|done|].
  - apply Forall_app. split; [done|]. constructor; [by apply task_at_ok|constructor].
  - intros t n [Ht'|Ht']%elem_of_app Hdr; [by eapply Hd|]. apply list_elem_of_singleton in Ht' as ->. by destruct Hdr as (_ & ? & _).
Qed.

Lemma task_nonces sy i t others : sys_ok sy -> sy_tasks sy !! i = Some t ->
  (forall t', held (<[i := t']> (sy_tasks sy)) ≡ₚ holds t' ++ others) -> held (sy_tasks sy) ≡ₚ holds t ++ others.
Proof. intros Hsy Hi Hsplit. rewrite <- Hsplit. by rewrite list_insert_id. Qed.

Lemma event_keeps ev sy : event_ok ev -> sys_ok sy -> sys_ok (sys_event cfg ev sy) /\ forall n, lost_in n sy -> lost_in n (sys_event cfg ev sy).
Proof using Hcfg.
  intros Hev Hsy. destruct ev as [c|c|i env|i j p expired|i| |]; cbn [sys_event].
  - by apply added_ok.
  - by apply added_ok.
  - destruct (sy_tasks sy !! i) as [t|] eqn:Hi; [|done]. destruct (task_step _ _ _ _ _) as [ns' t'] eqn:Hstep.
    destruct (held_split _ _ _ Hi) as [others Hsplit]. assert (Ht : task_ok cfg t) by (by eapply Forall_lookup_1; [apply Hsy|]).
    pose proof (nonces_ok_perm _ _ _ (task_nonces _ _ _ _ Hsy Hi Hsplit) (so_nonces _ Hsy)) as Hok.
    eapply (update_ok sy i t); [done|done|done|by eapply step_task_ok|by eapply step_nonces_ok].
  - apply alter_ok; [done|]. intros t Ht. by apply poll_undisturbed.
  - apply alter_ok; [done|]. intros t Ht. by apply task_timeout_ok.
  - split; [|done]. by destruct Hsy.
  - destruct (decide _); [|done]. split; [|done]. by destruct Hsy.
Qed.

Lemma run_app evs evs' sy : run cfg (evs ++ evs') sy = run cfg evs' (run cfg evs sy).
Proof. apply foldl_app. Qed.

Lemma run_keeps evs sy : Forall event_ok evs -> sys_ok sy -> sys_ok (run cfg evs sy) /\ forall n, lost_in n sy -> lost_in n (run cfg evs sy).
Proof using Hcfg.
  intros Hev. revert sy. induction Hev as [|ev evs He Hev IH]; intros sy Hsy; [done|]. cbn.
  destruct (event_keeps ev sy He Hsy) as [H1 H2]. destruct (IH _ H1) as [H3 H4]. split; [done|]. intros n Hn. by apply H4, H2.
Qed.

Lemma new_system_ok account : sys_ok (new_system account).
Proof. split; [constructor| |by intros t n ?%not_elem_of_nil]. split; cbn; try done; [constructor|set_solver|constructor|set_solver]. Qed.

(** No transaction of the task under the nonce is or comes into a pool. *)
Definition clear_of (n : Z) (t : SendTask) : Prop := Forall (fun p => pt_nonce p <> n) (tk_pooled t) /\ ~ publishing n t.

Lemma clear_source n t p : clear_of n t -> n ∉ holds t -> pool_source t p -> pt_nonce p <> n.
Proof.
  intros [Hc Hp] Hh [(q & Hq & <-)|[Hin|Hpub]] Hn; [|by rewrite Hn in Hin|by rewrite Hn in Hpub].
  rewrite Forall_forall in Hc. by apply (Hc q Hq).
Qed.
Lemma clear_undisturbed n t t' : undisturbed cfg t t' -> clear_of n t -> n ∉ holds t -> clear_of n t'.
Proof.
  intros [_ _ _ Hp Hpub] Hc Hh. split; [|by intros ?%Hpub; destruct Hc]. apply Forall_forall. intros p ?%Hp. by eapply clear_source.
Qed.
Lemma clear_step n env closed ns t others ns' t' : env_ok env -> task_ok cfg t -> nonces_ok ns (holds t ++ others) ->
  lost n ns (holds t ++ others) -> task_step cfg env closed ns t = (ns', t') -> clear_of n t -> clear_of n t'.
Proof using Hcfg.
  intros Henv Ht Hok Hl Hr Hc. assert (Hh : n ∉ holds t) by (intros Hin; apply Hl, elem_of_app; by left). split.
  - apply Forall_forall. intros p Hp. eapply clear_source; [done|done|by eapply step_pooled].
  - intros Hpub. destruct (step_publishing _ _ _ _ _ _ _ _ _ Henv Ht Hok Hr Hpub) as [Hno Hlost].
    apply (Hlost n); [|done]. destruct Hl as (Hb & Hnr & Hnh). split; [done|]. split; [done|]. intros Hin. apply Hnh, elem_of_app. by right.
Qed.

(** A nonce that is lost, and not in use, is gone for good. *)
Definition gone (n : Z) (sy : System) : Prop := lost_in n sy /\ Forall (clear_of n) (sy_tasks sy).

Lemma gone_not_pooled n sy : gone n sy -> ~ pooled n sy.
Proof.
  intros [_ Hc]. unfold pooled. rewrite Exists_exists. intros (t & Ht & Hp). rewrite Forall_forall in Hc. destruct (Hc t Ht) as [Hf _].
  rewrite Exists_exists in Hp. destruct Hp as (p & Hp & Hn). rewrite Forall_forall in Hf. by apply (Hf p Hp).
Qed.

Lemma lost_not_held n sy i t : lost_in n sy -> sy_tasks sy !! i = Some t -> n ∉ holds t.
Proof.
  intros (_ & _ & Hnh) Hi Hin. apply Hnh. destruct (held_split _ _ _ Hi) as [others Hs]. specialize (Hs t).
  rewrite list_insert_id in Hs by done. rewrite Hs. apply elem_of_app. by left.
Qed.

Lemma alter_clear n f sy i : lost_in n sy -> Forall (task_ok cfg) (sy_tasks sy) -> (forall t, task_ok cfg t -> undisturbed cfg t (f t)) ->
  Forall (clear_of n) (sy_tasks sy) -> Forall (clear_of n) (alter f i (sy_tasks sy)).
Proof.
  intros Hl Hok Hf Hc. rewrite alter_lookup. destruct (sy_tasks sy !! i) as [t|] eqn:Hi; [|done]. apply Forall_insert; [done|].
  eapply clear_undisturbed; [apply Hf; by eapply Forall_lookup_1|by eapply Forall_lookup_1|by eapply lost_not_held].
Qed.

Lemma event_gone n ev sy : event_ok ev -> sys_ok sy -> gone n sy -> gone n (sys_event cfg ev sy).
Proof using Hcfg.
  intros Hev Hsy [Hl Hc]. destruct (event_keeps ev sy Hev Hsy) as [_ Hl']. split; [by apply Hl'|]. clear Hl'.
  assert (Hnew : forall ph c, early ph -> (forall p, ph <> Publishing p) -> Forall (clear_of n) (sy_tasks sy ++ [task_at ph c])).
  { intros ph c He Hp. apply Forall_app. split; [done|]. apply Forall_singleton. split; [constructor|]. intros (_ & p & Hq & _). by destruct (Hp p). }
  destruct ev as [c|c|i env|i j p expired|i| |]; cbn [sys_event].
  - by apply Hnew.
  - by apply Hnew.
  - destruct (sy_tasks sy !! i) as [t|] eqn:Hi; [|done]. destruct (task_step _ _ _ _ _) as [ns' t'] eqn:Hstep. cbn.
    destruct (held_split _ _ _ Hi) as [others Hsplit]. pose proof (task_nonces _ _ _ _ Hsy Hi Hsplit) as Hheld.
    apply Forall_insert; [done|]. eapply clear_step; [exact Hev| | | |exact Hstep|by eapply Forall_lookup_1].
    + by eapply Forall_lookup_1; [apply Hsy|].
    + by eapply nonces_ok_perm; [|apply Hsy].
    + by eapply lost_perm.
  - apply alter_clear; [done|apply Hsy| |done]. intros t Ht. by apply poll_undisturbed.
  - apply alter_clear; [done|apply Hsy| |done]. intros t Ht. by apply task_timeout_ok.
  - done.
  - by destruct (decide _).
Qed.

Lemma reached_ok account evs : Forall event_ok evs -> sys_ok (run cfg evs (new_system account)).
Proof using Hcfg. intros Hev. by apply run_keeps, new_system_ok. Qed.

Lemma reached_task account evs i t : Forall event_ok evs -> sy_tasks (run cfg evs (new_system account)) !! i = Some t -> task_ok cfg t.
Proof using Hcfg. intros Hev Hi. by eapply Forall_lookup_1; [apply (so_tasks _ (reached_ok account evs Hev))|]. Qed.

Lemma not_pooled_clear n sy : ~ pooled n sy -> Forall (fun u => ~ publishing n u) (sy_tasks sy) -> Forall (clear_of n) (sy_tasks sy).
Proof.
  intros Hp Hpub. apply Forall_forall. intros t Ht. rewrite Forall_forall in Hpub. split; [|by apply Hpub]. apply Forall_forall. intros p Hpp Hn.
  apply Hp. unfold pooled. apply Exists_exists. exists t. split; [done|]. apply Exists_exists. by exists p.
Qed.

Lemma holds_held n ts (j : nat) u : ts !! j = Some u -> n ∈ holds u -> n ∈ held ts.
Proof. intros Hj Hn. destruct (held_split _ _ _ Hj) as [others Hs]. specialize (Hs u). rewrite list_insert_id in Hs by done. rewrite Hs. apply elem_of_app. by left. Qed.

(** Only a reservation gives a task a nonce. *)
Lemma unreserved_step env closed ns t ns' t' p : tk_nonce t = None -> task_step cfg env closed ns t = (ns', t') -> tk_phase t' = Publishing p ->
  tk_nonce t' = None.
Proof.
  intros Hn Hr Hph.
  assert (Hres : forall g s, reserved g s t <> (ns', t')).
  { intros g s Hg. unfold reserved in Hg. destruct (consume_reserved g s) as [[?|?] ?]; injection Hg as _ <-; done. }
  assert (Hsig : forall k d g s, sign_guarded cfg env k d g s t = (ns', t') -> tk_nonce t' = None).
  { intros k d g s Hg. unfold sign_guarded in Hg. destruct (_ && _); [|destruct (ce_sign _)]; injection Hg as _ <-; by rewrite ?craft_failed_nonce. }
  unfold task_step in Hr. destruct (tk_phase t) as [[|k]|k gen| | |k|k d [|a]|k d a gen|q|b|b|b|b q|r|r|r] eqn:Hphase.
  all: try (repeat break_match_in Hr; solve [by injection Hr as _ <- | by destruct (Hres _ _ Hr) | by eapply Hsig
    | injection Hr as _ <-; by rewrite craft_failed_nonce]).
  - injection Hr as _ <-. revert Hph. unfold start_send. repeat break_goal; done.
  - injection Hr as _ <-. by rewrite craft_draft_nonce.
  - injection Hr as _ <-. by rewrite (proj2 (loop_turn_middle _ _ _ _)).
  - destruct (publish_tx _ _ _) as [[h|e] s]; injection Hr as _ <-; [done|]. cbn. by rewrite pool_if_nonce.
Qed.

Lemma valid_blob_fee : validate_tx_config cfg = Ok tt -> min_blob_fee cfg <> 0.
Proof. unfold validate_tx_config. do 7 (destruct (_ =? 0); [done|]). destruct (Z.eqb_spec (min_blob_fee cfg) 0); done. Qed.
End system.

(** C16: the nonces of [send_async] are not shared. Whatever calls of [send_async] and [send] are made,
    and however their steps, polls, timeouts and blocks interleave and the node answers, the
    transactions that two different calls of [send_async] had acknowledged have different nonces;
    resets of the nonce cache, recycled nonces and failed sends included. And a call of [send] never
    takes a nonce that a call of [send_async] still holds or has published under. Two calls of
    [send] are not in the statement: they can share a nonce ([send_reuses_nonce] below), and a
    reservation can take the nonce of an earlier [send]. *)
Theorem nonces_not_shared cfg account evs :
  fees_ok cfg -> Forall event_ok evs ->
  let sy := run cfg evs (new_system account) in
  (forall i j t u p q, sy_tasks sy !! i = Some t -> sy_tasks sy !! j = Some u -> i <> j -> is_Some (tk_nonce t) -> is_Some (tk_nonce u) ->
    p ∈ tk_published t -> q ∈ tk_published u -> pt_nonce p <> pt_nonce q) /\
  (forall i t env ns' t' p, sy_tasks sy !! i = Some t -> env_ok env -> tk_nonce t = None ->
    task_step cfg env (sy_closed sy) (sy_nonces sy) t = (ns', t') -> tk_phase t' = Publishing p ->
    forall j u, sy_tasks sy !! j = Some u -> pt_nonce p ∉ holds u).
Proof.
  intros Hcfg Hev sy. pose proof (reached_ok cfg Hcfg account evs Hev) as Hsy. fold sy in Hsy. split.
  - intros i j t u p q Hi Hj Hij Ht Hu Hp Hq Hpq. apply Hij.
    eapply held_apart; [apply (nk_distinct _ _ (so_nonces _ _ Hsy))|exact Hi|exact Hj| |].
    + eapply published_held; [by eapply reached_task|by destruct Ht as [? ->]|exact Hp].
    + rewrite Hpq. eapply published_held; [by eapply reached_task|by destruct Hu as [? ->]|exact Hq].
  - intros i t env ns' t' p Hi Henv Hn Hstep Hph j u Hj Hin. destruct (held_split _ _ _ Hi) as [others Hsplit].
    pose proof (task_nonces _ _ _ _ _ Hsy Hi Hsplit) as Hheld. assert (Ht : task_ok cfg t) by (by eapply reached_task).
    pose proof (nonces_ok_perm _ _ _ Hheld (so_nonces _ _ Hsy)) as Hok.
    assert (Hn' : tk_nonce t' = None) by (by eapply unreserved_step).
    destruct (step_publishing _ _ _ _ _ _ _ _ (pt_nonce p) Henv Ht Hok Hstep) as [Hno _]; [by split; [|exists p]|].
    apply Hno. rewrite (holds_none t Hn) in Hheld. cbn in Hheld. rewrite <- Hheld. by eapply holds_held.
Qed.


(** C18: while a poll has seen a transaction of a send in a block, no step of the send ends it with
    an error, be it a nonce that is too low, a revert or a fee limit met by a replacement: it goes
    on until it can return the receipt. (The manager being closed and the send timeout are the only
    other ways out.) *)
Theorem mined_not_failed cfg account evs i t env ns' t' r :
  fees_ok cfg -> Forall event_ok evs -> sy_tasks (run cfg evs (new_system account)) !! i = Some t ->
  mined_txs (tk_state t) <> [] -> task_step cfg env false (sy_nonces (run cfg evs (new_system account))) t = (ns', t') ->
  (forall r, tk_phase t <> Settling r) -> tk_phase t' = Settling r -> is_ok r = true.
Proof.
  intros Hcfg Hev Hi Hm Hstep Hns Hph'. pose proof (reached_task cfg Hcfg account evs i t Hev Hi) as Ht.
  assert (He : ~ early (tk_phase t)) by (intros He; by destruct (to_early _ _ Ht He)).
  assert (Hw : is_waiting_for_confirmation (tk_state t) = true) by (by apply bool_decide_eq_true).
  unfold task_step in Hstep. destruct (tk_phase t) as [[|k]|k gen| | |k|k d a|k d a gen|p|b|b|b|b p|r0|r0|r0] eqn:Hphase; try (by destruct He; cbn).
  - injection Hstep as <- <-. unfold loop_turn in Hph'. unfold critical_error in Hph'. rewrite bool_decide_eq_true_2 in Hph' by done.
    destruct (tk_receipts t); [|by injection Hph' as <-]. unfold start_bump in Hph'. cbn in Hph'.
    destruct (bump_fees (tk_state t)); [by destruct (is_waiting_for_confirmation _)|done].
  - destruct (tk_receipts t); injection Hstep as <- <-; [|by injection Hph' as <-]. unfold start_bump in Hph'. by rewrite Hw in Hph'.
  - destruct (prepare_bump _ _ _ _ _ _) as [[p|e] ns1]; injection Hstep as <- <-; [done|]. unfold bump_failed, bump_aborts in Hph'.
    rewrite Hw in Hph'. by destruct (is_retryable e).
  - destruct (publish_tx _ _ _) as [[h|e] s] eqn:Hp; injection Hstep as <- <-; [done|]. apply publish_spec in Hp as (Hms & _).
    assert (Hst : tk_state (pool_if (se_reply env) p t) = tk_state t) by (unfold pool_if; by destruct (may_be_pooled _)).
    unfold bump_failed, bump_aborts in Hph'. cbn in Hph'. unfold is_waiting_for_confirmation in *. rewrite Hms, Hst, Hw in Hph'.
    by destruct (is_retryable e).
  - by destruct (Hns r0).
  - by injection Hstep as <- <-.
  - injection Hstep as <- <-. congruence.
Qed.

(** C31: a nonce that a node found too high is never used again. Once a call of [send_async] has ended
    with that error, no transaction with its nonce is in a pool, and no call of [send] is about to
    publish one, no later send, reset or fetch brings the nonce back: none of its transactions is
    ever published, and the account stays at or below this nonce, so that no transaction with a
    higher nonce is ever mined. *)
Theorem nonce_too_high_stalls cfg account evs i t n evs' :
  fees_ok cfg -> Forall event_ok evs -> sy_tasks (run cfg evs (new_system account)) !! i = Some t ->
  tk_phase t = Finished (Err NonceTooHigh) -> tk_nonce t = Some n ->
  ~ pooled n (run cfg evs (new_system account)) -> Forall (fun u => ~ publishing n u) (sy_tasks (run cfg evs (new_system account))) ->
  sy_account (run cfg evs (new_system account)) <= n ->
  Forall event_ok evs' ->
  ~ pooled n (run cfg (evs ++ evs') (new_system account)) /\ sy_account (run cfg (evs ++ evs') (new_system account)) <= n.
Proof.
  intros Hcfg Hev Hi Hph Hn Hnp Hpub Hacc Hev'. rewrite run_app. pose proof (reached_ok cfg Hcfg account evs Hev) as Hsy.
  pose proof (reached_task cfg Hcfg account evs i t Hev Hi) as Ht. set (sy := run cfg evs (new_system account)) in *.
  assert (Hc : Forall (clear_of n) (sy_tasks sy)) by (by apply not_pooled_clear).
  assert (Hl : lost_in n sy).
  { apply (so_dropped _ _ Hsy t); [by eapply list_elem_of_lookup_2|]. split_and!; [done|done|]. rewrite (to_flag _ _ Ht). apply bool_decide_eq_false.
    intros Hne. destruct (tk_published t) as [|p l] eqn:Hpb; [done|]. assert (Hp : p ∈ tk_pooled t) by (apply (to_published _ _ Ht); rewrite Hpb; by left).
    pose proof (to_pooled _ _ Ht) as Hf. rewrite Forall_forall in Hf. destruct (Hf p Hp) as (d & m & Hm & Hpd & _).
    destruct (Forall_lookup_1 _ _ _ _ Hc Hi) as [Hcp _]. rewrite Forall_forall in Hcp. apply (Hcp p Hp). rewrite Hpd. cbn. symmetry. by apply Hm. }
  assert (Hg : gone n sy) by (by split). clearbody sy. clear Hi Hph Hn Ht Hl Hc Hnp Hpub. revert sy Hsy Hacc Hg.
  induction Hev' as [|ev evs' He Hev' IH]; intros sy Hsy Hacc Hg; [by split; [apply gone_not_pooled|]|]. cbn.
  destruct (event_keeps cfg Hcfg ev sy He Hsy) as [Hsy' _]. apply IH; [done| |by apply event_gone].
  destruct ev; cbn; try done; [by destruct (sy_tasks sy !! _); [destruct (task_step _ _ _ _ _)|]|].
  destruct (decide _) as [Hp|]; [|done]. cbn. pose proof (gone_not_pooled _ _ Hg). assert (sy_account sy <> n) by congruence. lia.
Qed.

(** The first answer that the nonce of a replacement is too low ends the send with an error, unless
    a poll has already seen a transaction of it: the threshold of the configuration plays no part. *)
Theorem nonce_too_low_ends_send cfg env closed ns t b p e :
  tk_phase t = Republishing b p -> mined_txs (tk_state t) = [] -> se_reply env = Err (Transport e) -> classify_rpc_error e = NonceTooLow ->
  tk_phase (task_step cfg env closed ns t).2 = Settling (Err NonceTooLow).
Proof.
  intros Hph Hm Hr He. unfold task_step. rewrite Hph, Hr. unfold publish_tx. erewrite bind_run by reflexivity. rewrite He.
  assert (Hst : tk_state (pool_if (Err (Transport e)) p t) = tk_state t) by (unfold pool_if; by destruct (may_be_pooled _)).
  rewrite Hst. cbn [is_already_known andb]. erewrite bind_run by reflexivity. unfold throw, bump_failed, bump_aborts, is_waiting_for_confirmation.
  cbn. by rewrite Hm.
Qed.

Module TxExample.

(** A calm network: the account has the nonce 5, and a gas price of 12 gwei. *)
Definition cfg : TxManagerConfig := default_tx_config.
Definition quote : Quote := mkQuote (Ok 2000000000) (Ok (Some (Some 10000000000))) (Ok 1).
Definition craft (k : nat) : CraftEnv := mkCraftEnv false quote true (Ok 21000) (fun _ => mkFetch id (Ok 5)) true.
Definition step (i : nat) (fetched : Z) (reply : result NetFault Z) : Event := Run i (mkStepEnv 0 false (Ok fetched) quote craft reply).
Definition go (i : nat) : Event := step i 5 (Ok (100 + Z.of_nat i)).
Definition refused (message : string) : result NetFault Z := Err (Transport (ErrorResp message)).
Definition blob_tx : TxCandidate := mkCandidate [] [[1; 2; 3]] (Some 7) 0 0.

Lemma cfg_ok : fees_ok cfg.
Proof. split; by_eval. Qed.

Lemma quote_in_range : quote_ok quote.
Proof. split; cbn; intros x [= <-]; by_eval. Qed.

Lemma step_event_ok i fetched reply : fits U64_MAX fetched -> event_ok (step i fetched reply).
Proof. intros Hf. split; [by intros n [= <-]|exact quote_in_range|intros k; exact quote_in_range]. Qed.

(** Two sends reserve the nonces 5 and 6, and the second one publishes first: the node refuses
    a blob transaction whose predecessor it does not know. *)
Definition race : list Event :=
  [Send blob_tx; Send blob_tx; go 0; go 0; go 1; go 1; go 1; step 1 5 (refused "nonce too high"); go 1; go 1].
(** The first send publishes and is mined; a third one follows. *)
Definition later : list Event :=
  [go 0; go 0; go 0; Mine; Send blob_tx; step 2 6 (Ok 0); step 2 6 (Ok 0); go 2; go 2; go 2; Mine; Mine].

Ltac events_ok := repeat (first [apply Forall_cons; split|apply Forall_nil]); try exact I; try (by apply step_event_ok; by_eval).
Lemma race_ok : Forall event_ok race.
Proof. events_ok. Qed.
Lemma later_ok : Forall event_ok later.
Proof. events_ok. Qed.

Definition second : SendTask := default (new_task blob_tx) (sy_tasks (run cfg race (new_system 5)) !! 1%nat).

Lemma race_reserved : Forall (fun u => ~ publishing 6 u) (sy_tasks (run cfg race (new_system 5))).
Proof.
  assert (Hs : Forall (fun u => is_Some (tk_nonce u)) (sy_tasks (run cfg race (new_system 5)))) by (apply (bool_decide_unpack _); vm_compute; exact I).
  eapply Forall_impl; [exact Hs|]. cbn. intros u [n Hn] [Hu _]. congruence.
Qed.

Lemma nonce_too_high_stalls_witness :
  sy_account (run cfg (race ++ later) (new_system 5)) <= 6 /\
  (tk_nonce <$> sy_tasks (run cfg (race ++ later) (new_system 5)) !! 2%nat) = Some (Some 7).
Proof.
  split; [|vm_compute; reflexivity].
  apply (nonce_too_high_stalls cfg 5 race 1 second 6 later cfg_ok race_ok);
    [vm_compute; reflexivity|vm_compute; reflexivity|vm_compute; reflexivity| |exact race_reserved|by_eval|exact later_ok].
  apply (bool_decide_unpack _). vm_compute. exact I.
Defined.

(** A send whose transaction is replaced once. *)
Definition bumped : list Event :=
  [Send blob_tx; go 0; go 0; go 0; go 0; go 0; go 0; go 0; go 0; go 0].
Lemma bumped_ok : Forall event_ok bumped.
Proof. events_ok. Qed.
Definition task_of (evs : list Event) : SendTask := default (new_task blob_tx) (sy_tasks (run cfg evs (new_system 5)) !! 0%nat).

(** The same with a minimum tip of one gwei. *)
Definition tip_cfg : TxManagerConfig := mkTxConfig 10 3 5 100000000000 1000000000 0 10 48 12 0 120 300 1000000000.
Lemma tip_cfg_ok : fees_ok tip_cfg.
Proof. split; by_eval. Qed.
Definition tipped : SendTask := default (new_task blob_tx) (sy_tasks (run tip_cfg bumped (new_system 5)) !! 0%nat).
Definition nth_tx (k : nat) (t : SendTask) : PreparedTx := default (sign_draft blob_tx (mkDraft 0 0 None None 0) 0) (tk_published t !! k).


(** A tip of zero is not raised while the network asks for none and there is no minimum. *)
Lemma zero_tip_not_raised config c q cap blob_cap bumped : min_tip_cap config = 0 -> quote_tip q = Ok 0 ->
  increase_gas_price config c q 0 cap blob_cap = Ok bumped -> bf_gas_tip_cap bumped = 0.
Proof.
  intros Hm Hq Hr.
  assert (Hcaps : forall caps, suggest_gas_price_caps_for config (is_blob c) q = Ok caps -> gas_tip_cap caps = 0).
  { intros caps Hs. unfold suggest_gas_price_caps_for in Hs. rewrite Hq, Hm in Hs. cbn in Hs.
    destruct (quote_block q) as [[[base|]|]|]; try done. cbn in Hs. destruct (is_blob c); [destruct (quote_blob q); [|done]|]; by injection Hs as <-. }
  unfold increase_gas_price in Hr. destruct (negb _); [done|].
  destruct (suggest_gas_price_caps_for config (is_blob c) q) as [caps|]; [|done]. specialize (Hcaps caps eq_refl).
  unfold mbind, result_bind in Hr. rewrite Hcaps in Hr. unfold update_fees at 1 in Hr. cbn [calc_threshold_value Z.eqb] in Hr.
  destruct (check_fee_limits _ _ _ _); [|done]. by injection Hr as <-.
Qed.

(** Two sends that both publish. *)
Definition pair : list Event := [Send blob_tx; Send blob_tx; go 0; go 0; go 1; go 1; go 0; go 0; go 0; go 1; go 1].
Lemma pair_ok : Forall event_ok pair.
Proof. events_ok. Qed.
Definition nth_task (i : nat) (evs : list Event) : SendTask := default (new_task blob_tx) (sy_tasks (run cfg evs (new_system 5)) !! i).
Definition first_tx (t : SendTask) : PreparedTx :=
  default (sign_draft blob_tx (mkDraft 0 0 None None 0) 0) (head (tk_published t)).
Lemma first_published t : (0 < length (tk_published t))%nat -> first_tx t ∈ tk_published t.
Proof. unfold first_tx. destruct (tk_published t); cbn; [lia|]. intros _. by left. Qed.

(** A call of [send] beside them, about to take a nonce. *)
Definition mixed : list Event := pair ++ [SendNow blob_tx; go 2; go 2].
Lemma mixed_ok : Forall event_ok mixed.
Proof. events_ok. Qed.
Definition calm : StepEnv := mkStepEnv 0 false (Ok 5) quote craft (Ok 0).
Abbreviation after_mixed := (task_step cfg calm false (sy_nonces (run cfg mixed (new_system 5))) (nth_task 2 mixed)).
Definition publishes (t : SendTask) : PreparedTx := match tk_phase t with Publishing p => p | _ => first_tx t end.

Lemma nonces_not_shared_witness :
  pt_nonce (first_tx (nth_task 0 mixed)) <> pt_nonce (first_tx (nth_task 1 mixed)) /\ pt_nonce (publishes after_mixed.2) ∉ holds (nth_task 1 mixed).
Proof.
  destruct (nonces_not_shared cfg 5 mixed cfg_ok mixed_ok) as [Ha Hb]. split.
  - apply (Ha 0%nat 1%nat (nth_task 0 mixed) (nth_task 1 mixed)); [vm_compute; reflexivity|vm_compute; reflexivity|discriminate|by_eval|by_eval|
      apply first_published; by_eval|apply first_published; by_eval].
  - apply (Hb 2%nat (nth_task 2 mixed) calm after_mixed.1 after_mixed.2 (publishes after_mixed.2)) with (j := 1%nat);
      [vm_compute; reflexivity| |vm_compute; reflexivity|exact (surjective_pairing after_mixed)|vm_compute; reflexivity|vm_compute; reflexivity].
    split; [by intros n [= <-]|exact quote_in_range|intros k; exact quote_in_range].
Defined.

(** Two calls of [send] that publish under one nonce: the first one times out after publishing, so
    that the cached nonce is dropped, and the count that is fetched leaves pending transactions out. *)
Definition timed_cfg : TxManagerConfig := mkTxConfig 10 3 5 100000000000 0 0 10 48 12 60 120 300 1000000000.
Definition reuse : list Event :=
  [SendNow blob_tx; go 0; go 0; go 0; go 0; go 0; go 0; Timeout 0; go 0; go 0; SendNow blob_tx; go 1; go 1; go 1; go 1; go 1].
Lemma send_reuses_nonce :
  Forall event_ok reuse /\
  (fun t => (tk_phase t, pt_nonce <$> tk_published t)) <$> sy_tasks (run timed_cfg (take 10 reuse) (new_system 5)) =
    [(Finished (Err SendTimeout), [5])] /\
  (fun t => pt_nonce <$> tk_published t) <$> sy_tasks (run timed_cfg reuse (new_system 5)) = [[5]; [5]].
Proof. split; [events_ok|]. split; vm_compute; reflexivity. Qed.

(** A transaction that is published, mined and confirmed. *)
Definition receipt : Receipt := mkReceipt 100 (Some 40) (Some 9) true.
Definition confirmed : list Event :=
  [Send blob_tx; go 0; go 0; go 0; go 0; go 0; Mine; PollOnce 0 0 (mkPoll (Ok 60) (Ok (Some receipt)) (Ok (Some 9))) false].
Lemma confirmed_ok : Forall event_ok confirmed.
Proof. events_ok. Qed.
Abbreviation after_confirmed := (task_step cfg calm false (sy_nonces (run cfg confirmed (new_system 5))) (task_of confirmed)).

Lemma mined_not_failed_witness : tk_phase after_confirmed.2 = Settling (Ok receipt) /\ is_ok (Ok (E := TxManagerError) receipt) = true.
Proof.
  assert (Hph : tk_phase after_confirmed.2 = Settling (Ok receipt)) by (vm_compute; reflexivity). split; [exact Hph|].
  apply (mined_not_failed cfg 5 confirmed 0 (task_of confirmed) calm after_confirmed.1 after_confirmed.2 (Ok receipt) cfg_ok confirmed_ok).
  - vm_compute. reflexivity.
  - vm_compute. discriminate.
  - exact (surjective_pairing after_confirmed).
  - intros r. vm_compute. discriminate.
  - exact Hph.
Defined.

(** A transaction that is mined while a bump is on its way: the node finds the nonce of the
    replacement too low, and the send fails at the first such answer, before a poll. *)
Definition overtaken : list Event := [Send blob_tx; go 0; go 0; go 0; go 0; go 0; go 0; go 0; go 0; Mine].
Definition too_low : StepEnv := mkStepEnv 0 false (Ok 5) quote craft (refused "nonce too low").
Definition failed : System := run cfg (overtaken ++ [Run 0 too_low; go 0; go 0]) (new_system 5).
Definition republishing (t : SendTask) : BumpState * PreparedTx :=
  match tk_phase t with Republishing b p => (b, p) | _ => (mkBump 0 0 None 0 0 0 None, first_tx t) end.

Lemma nonce_too_low_ends_send_witness :
  safe_abort_nonce_too_low_count cfg = 3 /\ sy_account failed = 6 /\
  (tk_phase <$> sy_tasks failed !! 0%nat) = Some (Finished (Err NonceTooLow)) /\
  tk_phase (task_step cfg too_low false (sy_nonces (run cfg overtaken (new_system 5))) (task_of overtaken)).2 = Settling (Err NonceTooLow).
Proof.
  split; [reflexivity|]. split; [vm_compute; reflexivity|]. split; [vm_compute; reflexivity|].
  apply (nonce_too_low_ends_send cfg too_low false _ (task_of overtaken) (republishing (task_of overtaken)).1 (republishing (task_of overtaken)).2
    (ErrorResp "nonce too low")); vm_compute; reflexivity.
Defined.
End TxExample.
