(* ===== verification/Driver.v ===== *)
(** The driver of the batcher ([src/crates/batcher/core/src/]: [submissions.rs],
    [driver.rs], [outcome.rs], [event.rs], [admin.rs], [config.rs]). The driver is a loop: it
    encodes, adjusts the throttle, sends transactions, and waits for the next event. What
    happens outside is input: which event comes next, whether a call of the block builder
    or a cancellation succeeds, the seed of a new generator. The transaction
    manager is the list of candidates it was given, a transaction in flight the
    submissions it carries; the block source is the list of positions it was reset to.
    Metrics and log lines are left out. *)

From S2P Require Import Prelude TxFees Codec Buffer Frames Blobs Rollup Channel Pipeline L1Info Batches SpanTxs SpanBits SpanBatches.
From S2P Require Import ChannelReader Compress ChannelOut Encoder Throttle.

(** * Transactions *)

Inductive TxOutcome : Type := Confirmed (l1_block : Z) | Failed | TxpoolBlocked.

(** What becomes of the answer of a send handle: the block number of a receipt, if it has one, or
    an error. *)
Definition tx_outcome (r : result TxManagerError (option Z)) : TxOutcome :=
  match r with
  | Ok block_number => Confirmed (match block_number with Some n => n | None => 0 end)
  | Err TxFees.AlreadyReserved => TxpoolBlocked
  | Err _ => Failed
  end.

(** [SubmissionQueue]: the candidates sent, the transactions in flight with the ids of their
    submissions, and the permits of the semaphore that are left. *)
Record SubmissionQueue : Type := mkQueue {
  sq_sent : list TxCandidate;
  sq_in_flight : list (list Z);
  sq_permits : nat;
  sq_inbox : Z;
  sq_txpool_blocked : bool;
}.

(** [SubmissionQueue::new] *)
Definition new_submissions (inbox : Z) (max_pending : nat) : SubmissionQueue := mkQueue [] [] max_pending inbox false.

(** A permit is taken, and comes back. *)
Definition take_permit (q : SubmissionQueue) : SubmissionQueue :=
  mkQueue (sq_sent q) (sq_in_flight q) (sq_permits q - 1) (sq_inbox q) (sq_txpool_blocked q).
Definition drop_permit (q : SubmissionQueue) : SubmissionQueue :=
  mkQueue (sq_sent q) (sq_in_flight q) (S (sq_permits q)) (sq_inbox q) (sq_txpool_blocked q).
Definition set_txpool_blocked (b : bool) (q : SubmissionQueue) : SubmissionQueue :=
  mkQueue (sq_sent q) (sq_in_flight q) (sq_permits q) (sq_inbox q) b.

(** A candidate is sent; the future of its receipt holds the permit. *)
Definition push_tx (c : TxCandidate) (ids : list Z) (q : SubmissionQueue) : SubmissionQueue :=
  mkQueue (sq_sent q ++ [c]) (sq_in_flight q ++ [ids]) (sq_permits q) (sq_inbox q) (sq_txpool_blocked q).

(** A future settles: it drops its permit and leaves. *)
Definition settle_tx (i : nat) (q : SubmissionQueue) : SubmissionQueue :=
  mkQueue (sq_sent q) (delete i (sq_in_flight q)) (S (sq_permits q)) (sq_inbox q) (sq_txpool_blocked q).

(** [discard]: the futures are dropped, and with them their permits. *)
Definition discard (q : SubmissionQueue) : SubmissionQueue :=
  mkQueue (sq_sent q) [] (sq_permits q + length (sq_in_flight q)) (sq_inbox q) (sq_txpool_blocked q).

(** [recover_txpool]; [ok] is the result of [cancel_tx]. *)
Definition recover_txpool (ok : bool) (q : SubmissionQueue) : SubmissionQueue :=
  if negb (sq_txpool_blocked q) then q else if ok then set_txpool_blocked false q else q.

Section queue.
Context {R : Type} `{ChannelRng R} `{Compression} `{SpanTxCodecs} `{SingleCodec} `{Decompressors}.
Implicit Types e : BatchEncoder R.

Abbreviation enc_act := (stm (BatchEncoder R) (fault StepError)).
Abbreviation queue_act := (stm (SubmissionQueue * BatchEncoder R) (fault StepError)).

Definition on_encoder {A} (m : enc_act A) : queue_act A := zoom snd (fun e qe => (qe.1, e)) m.
Definition on_queue (f : SubmissionQueue -> SubmissionQueue) : queue_act unit := modify (fun qe => (f qe.1, qe.2)).

Definition FRAME_OVERHEAD : Z := 23.

(** What has been packed into a transaction so far. *)
Record Packed : Type := mkPacked {
  pk_ids : list Z;
  pk_frames : list Frame;
  pk_payload_size : Z;
  pk_da_type : DaType;
}.

Definition sub_frame_size (sub : BatchSubmission) : Z :=
  foldl add64 0 ((fun f => FRAME_OVERHEAD + zlen (frame_data f)) <$> sub_frames sub).

(** The inner loop of [submit_pending]. *)
Fixpoint pack_submissions (fuel : nat) (p : Packed) : enc_act Packed :=
  match fuel with
  | O => throw OutOfFuel
  | S fuel =>
      next ← next_submission;
      match next with
      | None => mret p
      | Some sub =>
          let size := sub_frame_size sub in
          if bool_decide (pk_ids p <> []) && (add64 (pk_payload_size p) size >? BLOB_MAX_DATA_SIZE)
          then modify (requeue (sub_id sub)) ;; mret p
          else if bool_decide (pk_ids p <> []) && negb (bool_decide (sub_da_type sub = pk_da_type p))
          then modify (requeue (sub_id sub)) ;; mret p
          else
            let da := if bool_decide (pk_ids p = []) then sub_da_type sub else pk_da_type p in
            let p := mkPacked (pk_ids p ++ [sub_id sub]) (pk_frames p ++ sub_frames sub)
                       (add64 (pk_payload_size p) size) da in
            match da with Calldata => mret p | Blob => pack_submissions fuel p end
      end
  end.

(** Enough for the loop: every round but the last hands out a frame. *)
Definition pack_fuel e : nat := S (list_sum ((fun c => length (rc_frames c)) <$> be_ready_channels e)).

(** The candidate of a packed transaction. *)
Definition candidate (inbox : Z) (p : Packed) : result (fault BlobEncodeError) TxCandidate :=
  match pk_da_type p with
  | Blob => blob ← encode_packed (pk_frames p); Ok (mkCandidate [] [blob] (Some inbox) 0 0)
  | Calldata =>
      match pk_frames p with
      | [] => Err Panic
      | f :: _ => Ok (mkCandidate (to_calldata f) [] (Some inbox) 0 0)
      end
  end.

(** The outer loop of [submit_pending]. *)
Fixpoint submit_loop (fuel : nat) : queue_act unit :=
  match fuel with
  | O => throw OutOfFuel
  | S fuel =>
      q ← gets fst;
      if sq_txpool_blocked q then mret tt
      else if decide (sq_permits q = 0%nat) then mret tt
      else
        on_queue take_permit ;;
        e ← gets snd;
        p ← on_encoder (pack_submissions (pack_fuel e) (mkPacked [] [] 1 Blob));
        if bool_decide (pk_ids p = []) then on_queue drop_permit
        else
          match candidate (sq_inbox q) p return queue_act unit with
          | Ok c => on_queue (push_tx c (pk_ids p)) ;; submit_loop fuel
          | Err (Fail _) => on_encoder (for_each (pk_ids p) (fun id => modify (requeue id))) ;; on_queue drop_permit
          | Err Panic => throw Panic
          | Err OutOfFuel => throw OutOfFuel
          end
  end.

(** [submit_pending]: a round per permit, and one more. *)
Definition submit_pending : queue_act unit := fun qe => submit_loop (S (sq_permits qe.1)) qe.

(** What [handle_outcome] and [drain] do on a confirmation. *)
Definition confirm_all (ids : list Z) (l1_block : Z) : enc_act unit :=
  for_each ids (fun id => confirm id l1_block) ;; advance_l1_head l1_block.

(** [handle_outcome] *)
Definition handle_outcome (ids : list Z) (outcome : TxOutcome) : queue_act unit :=
  match outcome with
  | Confirmed l1_block => on_encoder (confirm_all ids l1_block)
  | Failed => on_encoder (for_each ids (fun id => modify (requeue id)))
  | TxpoolBlocked => on_encoder (for_each ids (fun id => modify (requeue id))) ;; on_queue (set_txpool_blocked true)
  end.

(** [drain]: the futures that settle before the deadline, each with its outcome. *)
Fixpoint drain (settled : list (nat * TxOutcome)) : queue_act unit :=
  match settled with
  | [] => mret tt
  | (i, outcome) :: settled =>
      q ← gets fst;
      match sq_in_flight q !! i return queue_act unit with
      | None => drain settled
      | Some ids =>
          on_queue (settle_tx i) ;;
          (match outcome with Confirmed l1_block => on_encoder (confirm_all ids l1_block) | Failed | TxpoolBlocked => mret tt end) ;;
          drain settled
      end
  end.
End queue.

(** * The driver *)

Inductive SourceError : Type := Exhausted | Provider | SourceClosed.
Inductive L2BlockEvent : Type := NewBlock (b : BaseBlock) | SourceReorg (new_safe_head : L2BlockInfo) | SourceFlush.

Inductive AdminCommand : Type :=
| Resume
| Pause
| AdminFlush
| SetThrottle (strategy : ThrottleStrategy) (config : ThrottleConfig)
| ResetThrottle
| GetThrottleInfo
| GetStatus.

Record BatcherStatus : Type := mkStatus { bs_stopped : bool; bs_in_flight : nat; bs_da_backlog_bytes : Z }.
Inductive Reply : Type := InfoReply (i : ThrottleInfo) | StatusReply (s : BatcherStatus).

Inductive DriverEvent : Type :=
| Shutdown
| EvBlock (b : BaseBlock)
| EvFlush
| EvReorg (head : L2BlockInfo)
| EvReceipt (ids : list Z) (o : TxOutcome)
| EvL1Head (n : Z)
| EvSafeHead (n : Z)
| EvL1SourceClosed.

Inductive BatchDriverError : Type := DriverSource (e : SourceError) | DriverStep (e : StepError).

Record BatchDriverConfig : Type := mkDriverConfig {
  dc_inbox : Z;
  max_pending_transactions : nat;
  dc_force_blobs : bool;
}.

(** [BatchDriver]. [bd_safe_head] is the value in the watch channel of the safe head, if
    one is attached; [bd_catchups] and [bd_replies] are what the source and the admin
    clients were told. *)
Record BatchDriver (R : Type) : Type := mkDriver {
  bd_pipeline : BatchEncoder R;
  bd_submissions : SubmissionQueue;
  bd_throttle : DaThrottle;
  bd_l1_source_open : bool;
  bd_safe_head : option Z;
  bd_stopped : bool;
  bd_force_blobs : bool;
  bd_catchups : list Z;
  bd_replies : list Reply;
}.
Arguments mkDriver {R}.
Arguments bd_pipeline {R}.
Arguments bd_submissions {R}.
Arguments bd_throttle {R}.
Arguments bd_l1_source_open {R}.
Arguments bd_safe_head {R}.
Arguments bd_stopped {R}.
Arguments bd_force_blobs {R}.
Arguments bd_catchups {R}.
Arguments bd_replies {R}.

(** What wakes the driver: an arm of the [select] of [next_event]. [WatchSent] is not an arm:
    the safe head poller writes into the watch channel. *)
Inductive Wake : Type :=
| Cancelled
| Admin (cmd : AdminCommand)
| FromSource (r : result SourceError L2BlockEvent)
| Settled (i : nat) (r : result TxManagerError (option Z))
| FromL1 (r : result SourceError Z)
| WatchSent (n : Z)
| WatchChanged
| WatchClosed.

(** The inputs of a step that do not come with the event. *)
Record Env (R : Type) : Type := mkEnv {
  env_throttle_ok : bool;
  env_cancel_ok : bool;
  env_rng : R;
  env_settled : list (nat * TxOutcome);
}.
Arguments mkEnv {R}.
Arguments env_throttle_ok {R}.
Arguments env_cancel_ok {R}.
Arguments env_rng {R}.
Arguments env_settled {R}.

Section driver.
Context {R : Type} `{ChannelRng R} `{Compression} `{SpanTxCodecs} `{SingleCodec} `{Decompressors}.
Implicit Types d : BatchDriver R.

Abbreviation act := (stm (BatchDriver R) (fault BatchDriverError)).

Definition set_pipeline (e : BatchEncoder R) d : BatchDriver R :=
  mkDriver e (bd_submissions d) (bd_throttle d) (bd_l1_source_open d) (bd_safe_head d) (bd_stopped d) (bd_force_blobs d)
    (bd_catchups d) (bd_replies d).
Definition set_submissions (q : SubmissionQueue) d : BatchDriver R :=
  mkDriver (bd_pipeline d) q (bd_throttle d) (bd_l1_source_open d) (bd_safe_head d) (bd_stopped d) (bd_force_blobs d)
    (bd_catchups d) (bd_replies d).
Definition set_throttle (t : DaThrottle) d : BatchDriver R :=
  mkDriver (bd_pipeline d) (bd_submissions d) t (bd_l1_source_open d) (bd_safe_head d) (bd_stopped d) (bd_force_blobs d)
    (bd_catchups d) (bd_replies d).
Definition close_l1_source d : BatchDriver R :=
  mkDriver (bd_pipeline d) (bd_submissions d) (bd_throttle d) false (bd_safe_head d) (bd_stopped d) (bd_force_blobs d)
    (bd_catchups d) (bd_replies d).
Definition set_safe_head (n : option Z) d : BatchDriver R :=
  mkDriver (bd_pipeline d) (bd_submissions d) (bd_throttle d) (bd_l1_source_open d) n (bd_stopped d) (bd_force_blobs d)
    (bd_catchups d) (bd_replies d).
Definition set_stopped (b : bool) d : BatchDriver R :=
  mkDriver (bd_pipeline d) (bd_submissions d) (bd_throttle d) (bd_l1_source_open d) (bd_safe_head d) b (bd_force_blobs d)
    (bd_catchups d) (bd_replies d).
Definition reset_catchup (n : Z) d : BatchDriver R :=
  mkDriver (bd_pipeline d) (bd_submissions d) (bd_throttle d) (bd_l1_source_open d) (bd_safe_head d) (bd_stopped d)
    (bd_force_blobs d) (bd_catchups d ++ [n]) (bd_replies d).
Definition send_reply (r : Reply) d : BatchDriver R :=
  mkDriver (bd_pipeline d) (bd_submissions d) (bd_throttle d) (bd_l1_source_open d) (bd_safe_head d) (bd_stopped d)
    (bd_force_blobs d) (bd_catchups d) (bd_replies d ++ [r]).

(** [BatchDriver::new] with [with_safe_head_rx] and [with_stopped]. *)
Definition new_driver (e : BatchEncoder R) (config : BatchDriverConfig) (t : DaThrottle) (safe_head : option Z) (stopped : bool) :
    BatchDriver R :=
  mkDriver e (new_submissions (dc_inbox config) (max_pending_transactions config)) t true safe_head stopped
    (dc_force_blobs config) [] [].

(** A call of the pipeline or of the submission queue with it. *)
Definition pipeline_call {A} (m : stm (BatchEncoder R) (fault StepError) A) : act A := fun d =>
  let '(r, e) := m (bd_pipeline d) in (map_fail DriverStep r, set_pipeline e d).
Definition queue_call {A} (m : stm (SubmissionQueue * BatchEncoder R) (fault StepError) A) : act A := fun d =>
  let '(r, qe) := m (bd_submissions d, bd_pipeline d) in (map_fail DriverStep r, set_submissions qe.1 (set_pipeline qe.2 d)).

Definition STEP_BUDGET : nat := 128.

(** The loop of [drain_encoding]. *)
Fixpoint encode_steps (budget : nat) : stm (BatchEncoder R) (fault StepError) unit :=
  match budget with
  | O => mret tt
  | S budget =>
      r ← enc_step;
      match r with
      | Idle => mret tt
      | BlockEncoded | ChannelClosed => encode_steps budget
      end
  end.
Definition drain_encoding : act unit := pipeline_call (encode_steps STEP_BUDGET).

(** The throttle part of an iteration. *)
Definition apply_throttle (env : Env R) d : BatchDriver R :=
  let '(active, t) := throttle_apply (env_throttle_ok env) (da_backlog_bytes (bd_pipeline d)) (bd_throttle d) in
  let d := set_throttle t d in
  if bd_force_blobs d then set_pipeline (set_override active (bd_pipeline d)) d else d.

(** The first part of an iteration of [run], up to the next event. *)
Definition cpu_phase (env : Env R) : act unit :=
  drain_encoding ;;
  modify (apply_throttle env) ;;
  modify (fun d => set_submissions (recover_txpool (env_cancel_ok env) (bd_submissions d)) d) ;;
  queue_call submit_pending.

(** The reaction to a reorg: drop the transactions in flight, reset the pipeline, and
    restart the source after the safe head. *)
Definition start_over (env : Env R) d : BatchDriver R :=
  let safe_head := match bd_safe_head d with Some n => n | None => 0 end in
  reset_catchup (add64 safe_head 1)
    (set_pipeline (enc_reset (env_rng env) (bd_pipeline d)) (set_submissions (discard (bd_submissions d)) d)).

(** [on_block] *)
Definition on_block (env : Env R) (b : BaseBlock) d : BatchDriver R :=
  match add_block b (bd_pipeline d) with
  | (Ok _, e) => set_pipeline e d
  | (Err _, e) => start_over env (set_pipeline e d)
  end.

(** The admin arm of [next_event]. *)
Definition on_admin (env : Env R) (cmd : AdminCommand) : act (option DriverEvent) :=
  match cmd with
  | AdminFlush => mret (Some EvFlush)
  | Pause =>
      modify (fun d => set_stopped true
        (set_pipeline (enc_reset (env_rng env) (bd_pipeline d)) (set_submissions (discard (bd_submissions d)) d))) ;;
      mret None
  | Resume =>
      modify (fun d => set_stopped false
        (match bd_safe_head d with Some n => reset_catchup (add64 n 1) d | None => d end)) ;;
      mret None
  | SetThrottle strategy config =>
      modify (fun d => set_throttle (set_controller (mkController config strategy) (bd_throttle d)) d) ;; mret None
  | ResetThrottle => modify (fun d => set_throttle (throttle_reset (bd_throttle d)) d) ;; mret None
  | GetThrottleInfo =>
      modify (fun d => send_reply (InfoReply (snapshot (bd_throttle d) (da_backlog_bytes (bd_pipeline d)))) d) ;; mret None
  | GetStatus =>
      modify (fun d => send_reply (StatusReply (mkStatus (bd_stopped d) (length (sq_in_flight (bd_submissions d)))
        (da_backlog_bytes (bd_pipeline d)))) d) ;;
      mret None
  end.

(** One turn of the loop of [next_event]: an event for [run], or none and the loop
    continues. An arm that is not enabled does nothing. *)
Definition on_wake (env : Env R) (w : Wake) : act (option DriverEvent) :=
  d ← gets id;
  match w return act (option DriverEvent) with
  | Cancelled => mret (Some Shutdown)
  | Admin cmd => on_admin env cmd
  | FromSource (Ok (NewBlock b)) => mret (if bd_stopped d then None else Some (EvBlock b))
  | FromSource (Ok SourceFlush) => mret (if bd_stopped d then None else Some EvFlush)
  | FromSource (Ok (SourceReorg head)) => mret (Some (EvReorg head))
  | FromSource (Err Exhausted) => mret (Some Shutdown)
  | FromSource (Err err) => throw (Fail (DriverSource err))
  | Settled i r =>
      match sq_in_flight (bd_submissions d) !! i return act (option DriverEvent) with
      | Some ids => modify (set_submissions (settle_tx i (bd_submissions d))) ;; mret (Some (EvReceipt ids (tx_outcome r)))
      | None => mret None
      end
  | FromL1 r =>
      if bd_l1_source_open d then
        mret (match r with
              | Ok n => Some (EvL1Head n)
              | Err Exhausted | Err SourceClosed => Some EvL1SourceClosed
              | Err Provider => None
              end)
      else mret None
  | WatchSent n =>
      modify (fun d => set_safe_head (match bd_safe_head d with Some _ => Some n | None => None end) d) ;; mret None
  | WatchChanged => mret (EvSafeHead <$> bd_safe_head d)
  | WatchClosed => modify (set_safe_head None) ;; mret None
  end.

(** The [match] of [run]; the value says whether the driver is draining now. *)
Definition handle_event (env : Env R) (ev : DriverEvent) : act bool :=
  match ev with
  | Shutdown => pipeline_call force_close_channel ;; mret true
  | EvBlock b => modify (on_block env b) ;; mret false
  | EvFlush => pipeline_call force_close_channel ;; mret false
  | EvReorg _ => modify (start_over env) ;; mret false
  | EvReceipt ids o => queue_call (handle_outcome ids o) ;; mret false
  | EvL1Head n => pipeline_call (advance_l1_head n) ;; mret false
  | EvSafeHead n => pipeline_call (prune_safe n) ;; mret false
  | EvL1SourceClosed => modify close_l1_source ;; mret false
  end.

(** ** The loop *)

(** Where [run] is: at the top of the loop, waiting for an event, or done. *)
Inductive Phase : Type := Top (draining : bool) | Waiting | Done.

(** From the top of the loop to the next event, or to the end of the drain. *)
Definition iterate (env : Env R) (draining : bool) : act Phase :=
  cpu_phase env ;;
  if draining then queue_call (drain (env_settled env)) ;; mret Done else mret Waiting.

(** From one wake to the top of the loop, or to the next turn of [next_event]. *)
Definition wake (env : Env R) (w : Wake) : act Phase :=
  ev ← on_wake env w;
  match ev with
  | None => mret Waiting
  | Some ev => draining ← handle_event env ev; mret (Top draining)
  end.

(** A step of [run]. *)
Definition driver_step (env : Env R) (w : Wake) (ph : Phase) : act Phase :=
  match ph with
  | Top draining => iterate env draining
  | Waiting => wake env w
  | Done => mret Done
  end.
End driver.
