(* ===== verification/DriverSafety.v ===== *)
(** The driver of the batcher on any sequence of events. The invariant ties the
    transactions in flight to the encoder: every submission the encoder waits for is
    carried by exactly one transaction in flight, and the permits of the semaphore
    and the transactions in flight add up. *)

From S2P Require Import Prelude TxFees Codec Buffer Frames Blobs BlobCodec Rollup Channel Pipeline L1Info Batches SpanTxs SpanBits SpanBatches.
From S2P Require Import DataSource ChannelReader Compress ChannelOut Encoder EncoderChannels EncoderSafety Throttle Driver.

(** The outcome of packing frames into a blob. *)
Lemma encode_packed_outcome g :
  if decide (zlen (packed g) <= BLOB_MAX_DATA_SIZE) then exists b, encode_packed g = Ok b
  else exists x, encode_packed g = Err (Fail x).
Proof.
  unfold encode_packed. fold (packed g). case_decide as Hz.
  - rewrite blob_encode_run by done. by eexists.
  - unfold blob_encode. destruct (_ >? _) eqn:E; [by eexists|zbool; lia].
Qed.

(** A run that returns, in a state with [Q]. *)
Definition ends {S E A} (m : stm S (fault E) A) (s : S) (Q : S -> Prop) : Prop := returns (m s).1 /\ Q (m s).2.

Lemma ends_bind {S E A B} (m : stm S (fault E) A) (f : A -> stm S (fault E) B) s (Q : S -> Prop) :
  ends m s Q -> (forall a s', m s = (Ok a, s') -> Q s' -> ends (f a) s' Q) -> ends (m ≫= f) s Q.
Proof.
  unfold ends, mbind, stm_bind. intros [[Hp Hf] HQ] Hk. destruct (m s) as [[a|[x| |]] s']; [by apply (Hk a s')|done..].
Qed.
Lemma ends_impl {S E A} (m : stm S (fault E) A) s (P Q : S -> Prop) : ends m s P -> (forall s', P s' -> Q s') -> ends m s Q.
Proof. intros [Hr HP] Hi. split; [done|by apply Hi]. Qed.

Lemma concat_once (l : list (list Z)) x : NoDup (concat l) -> x ∈ concat l ->
  exists i k, l !! i = Some k /\ x ∈ k /\ forall j k', l !! j = Some k' -> x ∈ k' -> j = i.
Proof.
  induction l as [|k l IH]; cbn; [intros _ Hx; by apply not_elem_of_nil in Hx|]. intros (_ & Hno & Hnd)%NoDup_app Hx.
  apply elem_of_app in Hx as [Hx|Hx].
  - exists 0%nat, k. split_and!; [done..|]. intros [|j] k' Hj Hk'; [done|]. destruct (Hno x Hx).
    apply list_elem_of_In, in_concat. exists k'. rewrite <- !list_elem_of_In. split; [by eapply list_elem_of_lookup_2|done].
  - destruct (IH Hnd Hx) as (i & k' & Hi & Hk' & Hu). exists (S i), k'. split_and!; [done..|].
    intros [|j] k2 Hj Hk2; [injection Hj as <-; by destruct (Hno x Hk2)|]. f_equal. by eapply Hu.
Qed.

Section safety.
Context {R : Type} `{ChannelRng R} `{EncoderLaws} `{SpanTxCodecs} `{SingleCodec}.
Implicit Types (e : BatchEncoder R) (d : BatchDriver R).

(** * Submissions and their transactions *)

(** The submissions the encoder waits for are among [ids], which were all handed out. *)
Record tracked e (ids : list Z) : Prop := {
  tk_encoder : encoder_ok e;
  tk_nodup : NoDup ids;
  tk_old : Forall (fun sid => sid < be_next_id e) ids;
  tk_pending : forall sid, sid ∈ dom (be_pending e) -> sid ∈ ids;
}.

#[export] Instance tracked_perm e : Proper (Permutation ==> iff) (tracked e).
Proof. intros l k Hp. split; intros []; split; try done; setoid_rewrite Hp || setoid_rewrite <- Hp; try done; by rewrite ?Hp, <- ?Hp in *. Qed.

Lemma tracked_kept e e' ids : tracked e ids -> encoder_ok e' -> kept e e' -> tracked e' ids.
Proof.
  intros [] He' [Hn Hd]. split; [done|done| |]; [by rewrite Hn|]. intros sid Hs. apply tk_pending0. set_solver.
Qed.

Lemma tracked_quiet {A} (m : stm (BatchEncoder R) (fault StepError) A) e ids : tracked e ids -> quiet_call m e ->
  ends m e (fun e' => tracked e' ids).
Proof.
  intros Ht. unfold quiet_call, ends. destruct (m e) as [r e']. intros (Hr & He' & Hk). split; [done|]. by eapply tracked_kept.
Qed.

(** The submission [sid] is settled. *)
Lemma tracked_settle e e' sid ids : tracked e (sid :: ids) -> encoder_ok e' -> kept e e' -> sid ∉ dom (be_pending e') -> tracked e' ids.
Proof.
  intros Ht He' Hk Hs. destruct (tracked_kept _ _ _ Ht He' Hk) as [_ Hn Ho Hd]. apply NoDup_cons in Hn as [_ Hn].
  apply Forall_cons in Ho as [_ Ho]. split; [done|done|done|]. intros s Hin. specialize (Hd s Hin). set_solver.
Qed.

Lemma confirms_tracked ids rest l1_block : forall e, tracked e (ids ++ rest) ->
  exists e', for_each ids (fun id => confirm id l1_block) e = (Ok tt, e') /\ tracked e' rest.
Proof.
  induction ids as [|sid ids IH]; intros e Ht; cbn [for_each]; [by exists e|].
  destruct (confirm_run sid l1_block e (tk_encoder _ _ Ht)) as (e1 & Hr & He1 & Hk & Hs). rewrite (bind_run _ _ _ _ _ Hr).
  apply IH. by eapply tracked_settle.
Qed.
Lemma requeues_tracked ids rest : forall e, tracked e (ids ++ rest) ->
  exists e', for_each (E := fault StepError) ids (fun id => modify (requeue id)) e = (Ok tt, e') /\ tracked e' rest.
Proof.
  induction ids as [|sid ids IH]; intros e Ht; cbn [for_each]; [by exists e|].
  destruct (requeue_ok sid e (tk_encoder _ _ Ht)) as (He1 & Hk & Hs). erewrite bind_run by reflexivity.
  apply IH. by eapply tracked_settle.
Qed.

(** The outcome of a submission the encoder no longer waits for. *)
Lemma stale_outcome e sid l1_block : sid ∉ dom (be_pending e) -> requeue sid e = e /\ confirm sid l1_block e = (Ok tt, e).
Proof.
  intros Hs%not_elem_of_dom. split; [by unfold requeue; rewrite Hs|].
  unfold confirm. erewrite bind_run by reflexivity. change (id e) with e. by rewrite Hs.
Qed.

(** * Sending *)

Definition left_count e : Z := zlen (frames_left (be_ready_channels e)).

(** The next submission, which may come back at once. *)
Lemma next_tracked e ids : tracked e ids -> be_next_id e < U64_MAX ->
  (next_submission e = (Ok None, e) /\ frames_left (be_ready_channels e) = []) \/
  exists sub e', next_submission e = (Ok (Some sub), e') /\ tracked e' (sub_id sub :: ids) /\
    sub_frames sub <> [] /\ sub_da_type sub = effective_da_type e /\
    frames_left (be_ready_channels e) = sub_frames sub ++ frames_left (be_ready_channels e') /\
    be_next_id e' = be_next_id e + 1 /\ effective_da_type e' = effective_da_type e /\
    frames_left (be_ready_channels (requeue (sub_id sub) e')) = frames_left (be_ready_channels e).
Proof.
  intros Ht Hlt. pose proof (tk_encoder _ _ Ht) as He. pose proof (next_ok e He Hlt) as Hsafe.
  assert (Hc : Forall cursor_ok (be_ready_channels e)) by (eapply Forall_impl; [apply (eo_ready e He)|]; by intros c []).
  destruct (next_submission_run e Hc) as [[Hn Hl]|(pre & c & post & n & fs & sid & Hr & _ & Hn & Hl & -> & Hp & -> & Hrun)]; [by left|].
  right. unfold safe_call in Hsafe. rewrite Hrun in Hsafe. destruct Hsafe as (_ & He' & _).
  assert (Hid : add64 (be_next_id e) 1 = be_next_id e + 1) by (apply wrap_id; pose proof (eo_next e He); unfold fits in *; lia).
  eexists _, _. split; [exact Hrun|]. cbn [sub_id sub_frames sub_da_type].
  assert (Hfl : frames_left (be_ready_channels e) = take n (channel_left c) ++ frames_left (pre ++ advance_channel n c :: post))
    by (rewrite Hr; by apply frames_left_advance).
  split_and!; [| |done|exact Hfl|exact Hid|done|].
  - destruct Ht as [_ Hnd Hold Hdom]. split; [done| | |].
    + apply NoDup_cons. split; [|done]. intros Hin. rewrite Forall_forall in Hold. specialize (Hold _ Hin). cbn in Hold. lia.
    + cbn. rewrite Hid. constructor; [lia|]. eapply Forall_impl; [exact Hold|]. cbn. lia.
    + intros s. cbn. rewrite dom_insert. set_solver.
  - intros Hnil. apply (f_equal length) in Hnil. unfold channel_left in Hnil. rewrite length_take, length_drop in Hnil. cbn in Hnil. lia.
  - unfold requeue. cbn [be_pending set_pending]. rewrite lookup_insert_eq. cbn [frame_start channel_idx].
    cbn [be_ready_channels set_pending set_ready_channels]. rewrite Hr. by rewrite requeue_return.
Qed.

Lemma pack_fuel_enough e : left_count e < Z.of_nat (pack_fuel e).
Proof.
  unfold left_count, pack_fuel, zlen.
  enough (length (frames_left (be_ready_channels e)) <= list_sum ((fun c => length (rc_frames c)) <$> be_ready_channels e))%nat by lia.
  induction (be_ready_channels e) as [|c cs IH]; [done|]. change (c :: cs) with ([c] ++ cs).
  rewrite frames_left_app, length_app. unfold frames_left at 1. cbn in *. unfold channel_left. rewrite app_nil_r, length_drop. unfold list_sum in *. lia.
Qed.

(** The packing loop ends; what it packed is tracked, and at most one submission that
    did not fit came back. *)
Lemma pack_tracked ids : forall fuel e p, tracked e (pk_ids p ++ ids) -> (pk_ids p <> [] -> pk_frames p <> []) ->
  left_count e < Z.of_nat fuel -> be_next_id e + left_count e < U64_MAX ->
  exists p' e', pack_submissions fuel p e = (Ok p', e') /\ tracked e' (pk_ids p' ++ ids) /\
    (pk_ids p' <> [] -> pk_frames p' <> []) /\ be_next_id e' + left_count e' <= be_next_id e + left_count e + 1.
Proof.
  induction fuel as [|fuel IH]; intros e p Ht Hp Hf Hn; [pose proof (zlen_nonneg (frames_left (be_ready_channels e))); unfold left_count in *; lia|].
  cbn [pack_submissions]. pose proof (zlen_nonneg (frames_left (be_ready_channels e))) as Hpos.
  destruct (next_tracked e _ Ht ltac:(unfold left_count in *; lia)) as [[Hr _]|(sub & e1 & Hr & Ht1 & Hne & _ & Hfl & Hid & _ & Hback)];
    rewrite (bind_run _ _ _ _ _ Hr); [exists p, e; split_and!; [done..|lia]|].
  assert (Hl : left_count e = zlen (sub_frames sub) + left_count e1) by (unfold left_count; by rewrite Hfl, zlen_app).
  assert (1 <= zlen (sub_frames sub)) by (destruct (sub_frames sub); [done|unfold zlen; cbn; lia]).
  assert (Hreq : exists e', (modify (E := fault StepError) (requeue (sub_id sub)) ;; mret p) e1 = (Ok p, e') /\ tracked e' (pk_ids p ++ ids) /\
    be_next_id e' + left_count e' <= be_next_id e + left_count e + 1).
  { eexists. split; [reflexivity|]. destruct (requeue_ok (sub_id sub) e1 (tk_encoder _ _ Ht1)) as (He2 & Hk & Hs).
    split; [by eapply tracked_settle|]. unfold left_count at 1. rewrite Hback. destruct Hk as [-> _]. fold (left_count e). lia. }
  destruct (bool_decide (pk_ids p <> []) && (_ >? _)); [destruct Hreq as (e' & Hrun & Hte & Hb); by exists p, e'|].
  destruct (bool_decide (pk_ids p <> []) && _); [destruct Hreq as (e' & Hrun & Hte & Hb); by exists p, e'|]. clear Hreq.
  set (p1 := mkPacked _ _ _ _). assert (Ht2 : tracked e1 (pk_ids p1 ++ ids)) by (cbn; rewrite <- app_assoc; cbn; by rewrite <- Permutation_middle).
  assert (Hp1 : pk_ids p1 <> [] -> pk_frames p1 <> []) by (intros _; cbn; by destruct (pk_frames p), (sub_frames sub)).
  cbv zeta. destruct (if bool_decide (pk_ids p = []) then _ else _).
  - destruct (IH e1 p1 Ht2 Hp1) as (p' & e' & Hrun & Ht' & Hp' & Hb); [lia..|]. exists p', e'. split_and!; [done..|lia].
  - exists p1, e1. split_and!; [done..|lia].
Qed.

(** The queue and the encoder. *)
Record queue_ok (max : nat) (q : SubmissionQueue) e : Prop := {
  qo_tracked : tracked e (concat (sq_in_flight q));
  qo_permits : (sq_permits q + length (sq_in_flight q))%nat = max;
}.

Lemma candidate_returns inbox p : pk_frames p <> [] -> returns (candidate inbox p).
Proof.
  intros Hne. unfold candidate. destruct (pk_da_type p).
  - pose proof (encode_packed_outcome (pk_frames p)) as Ho. case_decide; destruct Ho as [b ->]; done.
  - by destruct (pk_frames p).
Qed.

Lemma submit_loop_ok max : forall fuel q e, queue_ok max q e -> (sq_permits q < fuel)%nat ->
  be_next_id e + left_count e + Z.of_nat (sq_permits q) < U64_MAX ->
  exists q' e', submit_loop fuel (q, e) = (Ok tt, (q', e')) /\ queue_ok max q' e'.
Proof.
  induction fuel as [|fuel IH]; intros q e [Ht Hpm] Hf Hn; [lia|]. cbn [submit_loop]. erewrite bind_run by reflexivity. cbn [fst].
  destruct (sq_txpool_blocked q); [by exists q, e|]. case_decide as Hz; [by exists q, e|]. erewrite bind_run by reflexivity.
  erewrite bind_run by reflexivity. cbn [snd].
  destruct (pack_tracked (concat (sq_in_flight q)) (pack_fuel e) e (mkPacked [] [] 1 Blob)) as (p & e1 & Hr & Ht1 & Hp & Hb);
    [done|done|apply pack_fuel_enough|lia|].
  rewrite (bind_run _ _ _ p (take_permit q, e1)) by (unfold on_encoder, zoom; cbn [fst snd]; by rewrite Hr).
  case_bool_decide as Hids.
  { eexists _, _. split; [reflexivity|]. rewrite Hids in Ht1. split; [done|]. cbn. lia. }
  specialize (Hp Hids). pose proof (candidate_returns (sq_inbox q) p Hp) as [Hpa Hfu].
  destruct (candidate (sq_inbox q) p) as [c|[x| |]]; [| |done|done].
  - erewrite bind_run by reflexivity. apply IH; cbn; [split; cbn|lia..].
    + rewrite concat_app. cbn. by rewrite app_nil_r, (Permutation_app_comm _ (pk_ids p)).
    + rewrite length_app. cbn. lia.
  - destruct (requeues_tracked (pk_ids p) _ e1 Ht1) as (e2 & Hr2 & Ht2).
    rewrite (bind_run _ _ _ tt (take_permit q, e2)) by (unfold on_encoder, zoom; cbn [fst snd]; by rewrite Hr2).
    eexists _, _. split; [reflexivity|]. split; [done|]. cbn. lia.
Qed.

(** A transaction settles, and its outcome is handled. *)
Lemma settle_perm i q ids : sq_in_flight q !! i = Some ids ->
  concat (sq_in_flight q) ≡ₚ ids ++ concat (sq_in_flight (settle_tx i q)) /\
  length (sq_in_flight q) = S (length (sq_in_flight (settle_tx i q))).
Proof.
  intros Hi. cbn [sq_in_flight settle_tx]. split; [|by rewrite (delete_Permutation _ _ _ Hi) at 1].
  rewrite delete_take_drop, concat_app. rewrite <- (take_drop_middle _ _ _ Hi) at 1. rewrite concat_app. cbn.
  by rewrite Permutation_app_swap_app.
Qed.

Lemma confirm_all_ok ids rest l1_block e : tracked e (ids ++ rest) ->
  ends (confirm_all ids l1_block) e (fun e' => tracked e' rest).
Proof.
  intros Ht. destruct (confirms_tracked ids rest l1_block e Ht) as (e1 & Hr & Ht1). unfold ends, confirm_all.
  rewrite (bind_run _ _ _ _ _ Hr). by apply tracked_quiet, advance_ok, Ht1.
Qed.

(** The encoder's part of the state. *)
Lemma on_encoder_ends {A} (m : stm (BatchEncoder R) (fault StepError) A) q e (P : BatchEncoder R -> Prop) Q :
  ends m e P -> (forall e', P e' -> Q (q, e')) -> ends (on_encoder m) (q, e) Q.
Proof. unfold ends, on_encoder, zoom. cbn [fst snd]. destruct (m e) as [r e']. intros [Hr HP] Hi. split; [done|by apply Hi]. Qed.

Lemma handle_outcome_ok max q e ids o : tracked e (ids ++ concat (sq_in_flight q)) -> (sq_permits q + length (sq_in_flight q))%nat = max ->
  ends (handle_outcome ids o) (q, e) (fun qe => queue_ok max qe.1 qe.2).
Proof.
  intros Ht Hm.
  assert (Hreq : ends (on_encoder (for_each ids (fun id => modify (requeue id)))) (q, e) (fun qe => queue_ok max qe.1 qe.2)).
  { destruct (requeues_tracked ids _ e Ht) as (e1 & Hr & Ht1). apply (on_encoder_ends _ q e (fun e' => tracked e' (concat (sq_in_flight q)))).
    - unfold ends. rewrite Hr. split; [apply ok_returns|done].
    - intros e' Ht'. by split. }
  destruct o; cbn [handle_outcome]; [|done|].
  - eapply on_encoder_ends; [by apply confirm_all_ok|]. intros e' Ht'. by split.
  - apply ends_bind; [done|]. intros [] [q1 e1] _ [Ht1 Hm1]. split; [apply ok_returns|]. by split.
Qed.

(** Draining at the end gives up what failed; the encoder and the permits stay in order. *)
Lemma confirm_all_safe ids l1_block e : encoder_ok e -> ends (confirm_all ids l1_block) e encoder_ok.
Proof.
  intros He. apply ends_bind.
  - revert e He. induction ids as [|sid ids IH]; intros e He; cbn [for_each]; [split; [apply ok_returns|done]|].
    destruct (confirm_run sid l1_block e He) as (e1 & Hr & He1 & _). unfold ends. rewrite (bind_run _ _ _ _ _ Hr). by apply IH.
  - intros [] e1 _ He1. pose proof (advance_ok l1_block e1 He1) as Ha. unfold quiet_call in Ha. unfold ends.
    destruct (advance_l1_head l1_block e1) as [r e2]. by destruct Ha as (? & ? & _).
Qed.

Definition drained (max : nat) (qe : SubmissionQueue * BatchEncoder R) : Prop :=
  encoder_ok qe.2 /\ (sq_permits qe.1 + length (sq_in_flight qe.1))%nat = max.

Lemma drain_ok max settled : forall qe, drained max qe -> ends (drain settled) qe (drained max).
Proof.
  induction settled as [|[i o] settled IH]; intros [q e] [He Hm]; cbn [drain]; [split; [apply ok_returns|done]|].
  unfold ends. erewrite bind_run by reflexivity. cbn [fst]. destruct (sq_in_flight q !! i) as [ids|] eqn:Ei; [|by apply IH].
  erewrite bind_run by reflexivity. cbn [fst snd]. destruct (settle_perm i q ids Ei) as [_ Hl].
  assert (Hd : drained max (settle_tx i q, e)) by (split; [done|]; cbn in *; lia).
  refine (ends_bind _ _ _ (drained max) _ _); [|intros [] qe _ Hq; by apply IH].
  destruct o; [|split; [apply ok_returns|done]..]. eapply on_encoder_ends; [by apply confirm_all_safe|].
  intros e' He'. split; [done|apply Hd].
Qed.

(** * The driver *)

Record driver_ok (max : nat) d : Prop := {
  do_queue : queue_ok max (bd_submissions d) (bd_pipeline d);
  do_throttle : throttle_ok (bd_throttle d);
}.

(** There are ids for the submissions of one iteration: its frames, and one more for every
    permit. *)
Definition ids_remain d : Prop :=
  let e := (encode_steps STEP_BUDGET (bd_pipeline d)).2 in
  be_next_id e + left_count e + Z.of_nat (sq_permits (bd_submissions d)) < U64_MAX.

Lemma encode_steps_ok n : forall e, encoder_ok e -> quiet_call (encode_steps n) e.
Proof.
  induction n as [|n IH]; intros e He; cbn [encode_steps]; [apply quiet_run; by eexists tt, e|].
  apply quiet_bind; [by apply step_ok|]. intros r e1 _ He1. destruct r; [by apply IH..|apply quiet_run; by eexists tt, e1].
Qed.

Lemma map_fail_returns {E F A} (f : E -> F) (r : result (fault E) A) : returns r -> returns (map_fail f r).
Proof. intros [Hp Hf]. by destruct r as [a|[x| |]]. Qed.

Lemma pipeline_call_ok max {A} (m : stm (BatchEncoder R) (fault StepError) A) d : driver_ok max d -> quiet_call m (bd_pipeline d) ->
  ends (pipeline_call m) d (driver_ok max).
Proof.
  intros [[Ht Hm] Hth] Hq. pose proof (tracked_quiet m _ _ Ht Hq) as He. unfold ends, pipeline_call in *.
  destruct (m (bd_pipeline d)) as [r e]. destruct He as [Hr Ht']. split; [by apply map_fail_returns|]. split; [by split|exact Hth].
Qed.
Lemma queue_call_ok {A} (m : stm (SubmissionQueue * BatchEncoder R) (fault StepError) A) d Q :
  ends m (bd_submissions d, bd_pipeline d) Q ->
  ends (queue_call m) d (fun d' => Q (bd_submissions d', bd_pipeline d') /\ bd_throttle d' = bd_throttle d).
Proof.
  unfold ends, queue_call. destruct (m _) as [r [q e]]. intros [Hr HQ]. split; [by apply map_fail_returns|done].
Qed.

#[local] Opaque STEP_BUDGET.

Lemma cpu_phase_ok max env d : driver_ok max d -> ids_remain d -> ends (cpu_phase env) d (driver_ok max).
Proof.
  intros Hd Hids. unfold cpu_phase, drain_encoding.
  apply ends_bind; [apply pipeline_call_ok; [done|]; apply encode_steps_ok, Hd|]. intros [] d1 Hr [[Ht Hm] Hth].
  assert (Hbound : be_next_id (bd_pipeline d1) + left_count (bd_pipeline d1) + Z.of_nat (sq_permits (bd_submissions d1)) < U64_MAX).
  { unfold ids_remain in Hids. unfold pipeline_call in Hr. destruct (encode_steps STEP_BUDGET (bd_pipeline d)) as [r e]. by injection Hr as _ <-. }
  unfold ends. erewrite bind_run by reflexivity. erewrite bind_run by reflexivity.
  set (d2 := set_submissions _ _). pose proof (throttle_apply_ok (env_throttle_ok env) (da_backlog_bytes (bd_pipeline d1)) _ Hth) as (Hth' & _).
  assert (Hd2 : queue_ok max (bd_submissions d2) (bd_pipeline d2) /\ throttle_ok (bd_throttle d2) /\
    be_next_id (bd_pipeline d2) + left_count (bd_pipeline d2) + Z.of_nat (sq_permits (bd_submissions d2)) < U64_MAX).
  { unfold d2, apply_throttle. destruct (throttle_apply _ _ _) as [active th]. cbn [snd] in Hth'.
    assert (Hq : forall q, sq_permits (recover_txpool (env_cancel_ok env) q) = sq_permits q /\
      sq_in_flight (recover_txpool (env_cancel_ok env) q) = sq_in_flight q).
    { intros q. unfold recover_txpool. by destruct (sq_txpool_blocked q), (env_cancel_ok env). }
    destruct (Hq (bd_submissions d1)) as [Hq1 Hq2]. destruct (override_ok active _ (tk_encoder _ _ Ht)) as [Ho Hk].
    cbn. destruct (bd_force_blobs d1); cbn; (split_and!; [split|exact Hth'|]); rewrite ?Hq1, ?Hq2; try done. by eapply tracked_kept. }
  clearbody d2. destruct Hd2 as (Hq2 & Hth2 & Hb2).
  destruct (submit_loop_ok max (S (sq_permits (bd_submissions d2))) _ _ Hq2 ltac:(lia) Hb2) as (q3 & e3 & Hr3 & Hq3).
  unfold queue_call, submit_pending. cbn [fst]. rewrite Hr3. split; [apply ok_returns|]. by split.
Qed.

(** The states of [run]: at the end the encoder and the permits are in order. *)
Definition phase_ok (max : nat) (ph : Phase) d : Prop :=
  match ph with
  | Top _ | Waiting => driver_ok max d
  | Done => drained max (bd_submissions d, bd_pipeline d) /\ throttle_ok (bd_throttle d)
  end.

Lemma driver_drained max d : driver_ok max d -> drained max (bd_submissions d, bd_pipeline d).
Proof. intros [[[] Hm] _]. by split. Qed.

Lemma start_over_ok max env d : driver_ok max d -> driver_ok max (start_over env d).
Proof.
  intros [[Ht Hm] Hth]. destruct (reset_ok (env_rng env) _ (tk_encoder _ _ Ht)) as (He & Hk & Hdom). split; [|exact Hth].
  split; [|cbn in *; lia]. split; [done|constructor|constructor|]. intros sid Hs. set_solver.
Qed.

Lemma on_block_ok max env b d : driver_ok max d -> driver_ok max (on_block env b d).
Proof.
  intros Hd. unfold on_block. pose proof (add_block_ok b (bd_pipeline d) (tk_encoder _ _ (qo_tracked _ _ _ (do_queue _ _ Hd)))) as [He Hk].
  destruct (add_block b (bd_pipeline d)) as [r e]. cbn [snd] in He, Hk.
  assert (Hd' : driver_ok max (set_pipeline e d)).
  { destruct Hd as [[Ht Hm] Hth]. split; [|done]. split; [|done]. by eapply tracked_kept. }
  destruct r; [done|]. by apply start_over_ok.
Qed.

(** An event that is not a receipt. *)
Lemma handle_event_ok max env ev d : (forall ids o, ev <> EvReceipt ids o) -> driver_ok max d ->
  ends (handle_event env ev) d (driver_ok max).
Proof.
  intros Hev Hd. pose proof (tk_encoder _ _ (qo_tracked _ _ _ (do_queue _ _ Hd))) as He.
  assert (Hclose : forall b : bool, ends (pipeline_call force_close_channel ;; mret b) d (driver_ok max)).
  { intros b. apply ends_bind; [|intros [] d' _ Hd'; by split; [apply ok_returns|]]. apply pipeline_call_ok; [done|].
    apply quiet_run. destruct (close_ok _ He) as (e' & Hr). by exists tt, e'. }
  destruct ev; cbn [handle_event]; [apply Hclose| |apply Hclose| |by destruct (Hev ids o)|..];
    (apply ends_bind; [|intros [] d' _ Hd'; by split; [apply ok_returns|]]).
  - split; [apply ok_returns|by apply on_block_ok].
  - split; [apply ok_returns|by apply start_over_ok].
  - apply pipeline_call_ok; [done|by apply advance_ok].
  - apply pipeline_call_ok; [done|by apply prune_safe_ok].
  - split; [apply ok_returns|]. by destruct Hd; split.
Qed.

(** A receipt. *)
Lemma settled_ok max env i r d : driver_ok max d -> ends (wake env (Settled i r)) d (driver_ok max).
Proof.
  intros Hd. unfold ends, wake. destruct (sq_in_flight (bd_submissions d) !! i) as [ids|] eqn:Ei; cycle 1.
  { rewrite (bind_run _ _ _ None d); [split; [apply ok_returns|done]|]. unfold on_wake. erewrite bind_run by reflexivity. cbv beta.
    change (id d) with d. by rewrite Ei. }
  rewrite (bind_run _ _ _ (Some (EvReceipt ids (tx_outcome r))) (set_submissions (settle_tx i (bd_submissions d)) d)); cycle 1.
  { unfold on_wake. erewrite bind_run by reflexivity. cbv beta. change (id d) with d. by rewrite Ei. }
  destruct Hd as [[Ht Hm] Hth]. destruct (settle_perm i _ _ Ei) as [Hp Hl]. rewrite Hp in Ht.
  refine (ends_bind _ _ _ (driver_ok max) _ _); [|intros b d2 _ Hd2; split; [apply ok_returns|done]]. cbn [handle_event].
  apply ends_bind; [|intros [] d2 _ Hd2; split; [apply ok_returns|done]].
  eapply ends_impl; [apply queue_call_ok, (handle_outcome_ok max); [exact Ht|cbn in *; lia]|].
  cbn. intros d2 [Hq2 Hth2]. split; [done|by rewrite Hth2].
Qed.

Lemma wake_ok max env w d : driver_ok max d -> ends (wake env w) d (driver_ok max).
Proof.
  intros Hd. unfold wake.
  assert (Hpure : forall (o : option DriverEvent) d', on_wake env w d = (Ok o, d') -> driver_ok max d' ->
    (forall ids oc, o <> Some (EvReceipt ids oc)) -> ends (on_wake env w ≫= fun ev => match ev with
      | None => mret Waiting | Some ev => draining ← handle_event env ev; mret (Top draining) end) d (driver_ok max)).
  { intros o d' Hr Hd' Ho. unfold ends. rewrite (bind_run _ _ _ _ _ Hr). destruct o as [ev|]; [|split; [apply ok_returns|done]].
    apply ends_bind; [|intros b d2 _ Hd2; split; [apply ok_returns|done]]. apply handle_event_ok; [|done].
    intros ids oc ->. by apply (Ho ids oc). }
  assert (Hsame : forall d', bd_submissions d' = bd_submissions d -> bd_pipeline d' = bd_pipeline d -> throttle_ok (bd_throttle d') -> driver_ok max d').
  { intros d' Hs Hp Ht. destruct Hd as [Hq _]. split; [by rewrite Hs, Hp|done]. }
  destruct w as [|cmd|[[b|head|]|[| |]]|i r|r|n| |].
  - eapply Hpure; [reflexivity|done|done].
  - destruct cmd; (eapply Hpure; [reflexivity| |done]); try (apply Hsame; [done|done|exact (do_throttle _ _ Hd)]).
    + cbn. destruct (bd_safe_head d); (apply Hsame; [done|done|exact (do_throttle _ _ Hd)]).
    + destruct (start_over_ok max env d Hd) as [Hq Ht]. by split.
    + apply Hsame; [done|done|by intros l].
    + apply Hsame; [done|done|by intros l].
  - eapply Hpure; [reflexivity|done|]. by destruct (bd_stopped _).
  - eapply Hpure; [reflexivity|done|done].
  - eapply Hpure; [reflexivity|done|]. by destruct (bd_stopped _).
  - eapply Hpure; [reflexivity|done|done].
  - split; [apply fail_returns|done].
  - split; [apply fail_returns|done].
  - by apply settled_ok.
  - destruct (bd_l1_source_open d) eqn:El.
    + eapply Hpure; [unfold on_wake; erewrite bind_run by reflexivity; cbv beta; change (id d) with d; by rewrite El|done|].
      by destruct r as [n|[| |]].
    + eapply Hpure; [unfold on_wake; erewrite bind_run by reflexivity; cbv beta; change (id d) with d; by rewrite El|done|done].
  - eapply Hpure; [reflexivity| |done]. apply Hsame; [done|done|exact (do_throttle _ _ Hd)].
  - eapply Hpure; [reflexivity|done|]. by destruct (bd_safe_head _).
  - eapply Hpure; [reflexivity| |done]. apply Hsame; [done|done|exact (do_throttle _ _ Hd)].
Qed.

Lemma iterate_ok max env draining d : driver_ok max d -> ids_remain d ->
  returns (iterate env draining d).1 /\ (forall ph d', iterate env draining d = (Ok ph, d') -> phase_ok max ph d').
Proof.
  intros Hd Hids. destruct (cpu_phase_ok max env d Hd Hids) as [[Hp Hf] Hd1]. unfold iterate, mbind, stm_bind.
  destruct (cpu_phase env d) as [[[]|[x| |]] d1]; cbn [fst snd] in *; try done.
  destruct draining; [|split; [apply ok_returns|by intros ph d' [= <- <-]]].
  pose proof (queue_call_ok (drain (env_settled env)) d1 _ (drain_ok max (env_settled env) _ (driver_drained _ _ Hd1))) as [[Hp2 Hf2] Hd2].
  destruct (queue_call (drain (env_settled env)) d1) as [[[]|[x| |]] d2]; cbn [fst snd] in *; try done.
  split; [apply ok_returns|]. intros ph d' [= <- <-]. destruct Hd2 as [Hd2 Hth]. split; [done|]. rewrite Hth. apply Hd1.
Qed.

(** The states a run of the driver comes to, as long as there are ids. *)
Inductive reachable (d0 : BatchDriver R) : Phase -> BatchDriver R -> Prop :=
| reach_start : reachable d0 (Top false) d0
| reach_iterate env draining d ph d' :
    reachable d0 (Top draining) d -> ids_remain d -> iterate env draining d = (Ok ph, d') -> reachable d0 ph d'
| reach_wake env w d ph d' : reachable d0 Waiting d -> wake env w d = (Ok ph, d') -> reachable d0 ph d'.

Lemma wake_phase env w d ph d' : wake env w d = (Ok ph, d') -> ph <> Done.
Proof.
  unfold wake. intros (ev & d1 & _ & Hr)%bind_ok_inv. destruct ev as [ev|]; [|by injection Hr as <- _].
  apply bind_ok_inv in Hr as (b & d2 & _ & Hr). by injection Hr as <- _.
Qed.

Lemma reachable_ok max d0 ph d : driver_ok max d0 -> reachable d0 ph d -> phase_ok max ph d.
Proof.
  intros H0d. induction 1 as [|env draining d ph d' _ IH Hids Hr|env w d ph d' _ IH Hr]; [done| |].
  - by eapply (proj2 (iterate_ok max env draining d IH Hids)).
  - destruct (wake_ok max env w d IH) as [_ Hd']. rewrite Hr in Hd'. pose proof (wake_phase _ _ _ _ _ Hr). by destruct ph.
Qed.

Lemma new_driver_ok cfg config rng dconfig controller safe_head stopped :
  batch_type config = SingleType -> fits U64_MAX (max_frame_size config) ->
  driver_ok (max_pending_transactions dconfig) (new_driver (new_encoder cfg config rng) dconfig (new_throttle controller) safe_head stopped).
Proof.
  intros Hm Hf. split; [|done]. split; [|cbn; lia]. split; [by apply new_encoder_ok|constructor|constructor|]. intros sid. cbn. set_solver.
Qed.

(** A round of the loop that goes on to wait, and what one wake-up does. *)
Definition turn env d : BatchDriver R := (iterate env false d).2.
Definition after env w d : BatchDriver R := (wake env w d).2.

Lemma turn_run env d ph : (iterate env false d).1 = Ok ph -> iterate env false d = (Ok ph, turn env d).
Proof. unfold turn. destruct (iterate env false d). by intros [= ->]. Qed.
Lemma after_run env w d ph : (wake env w d).1 = Ok ph -> wake env w d = (Ok ph, after env w d).
Proof. unfold after. destruct (wake env w d). by intros [= ->]. Qed.
Lemma turn_reaches d0 env d ph : reachable d0 (Top false) d -> ids_remain d -> (iterate env false d).1 = Ok ph -> reachable d0 ph (turn env d).
Proof. intros Hf Hi Hr. eapply reach_iterate; [exact Hf|exact Hi|exact (turn_run _ _ _ Hr)]. Qed.
Lemma after_reaches d0 env w d ph : reachable d0 Waiting d -> (wake env w d).1 = Ok ph -> reachable d0 ph (after env w d).
Proof. intros Hf Hr. eapply reach_wake; [exact Hf|exact (after_run _ _ _ _ Hr)]. Qed.

(** A submission the encoder waits for is carried by exactly one transaction in flight. *)
Definition carried_once d (sid : Z) : Prop :=
  exists i ids, sq_in_flight (bd_submissions d) !! i = Some ids /\ sid ∈ ids /\
    forall j ids', sq_in_flight (bd_submissions d) !! j = Some ids' -> sid ∈ ids' -> j = i.

Lemma pending_carried max d sid : driver_ok max d -> sid ∈ dom (be_pending (bd_pipeline d)) -> carried_once d sid.
Proof. intros [[[_ Hnd _ Hd] _] _] Hs. apply concat_once; [done|by apply Hd]. Qed.

(** C14: a driver in single mode (span batches are not covered) that takes any sequence of
    wake-ups, whatever the sources, the transaction manager and the throttled client answer, keeps
    its invariant: the encoder is well formed, every submission it waits for is carried by exactly
    one transaction in flight until the driver is done, no two transactions in flight carry the
    same submission, every transaction in flight holds a permit, and the limits recorded as applied
    are the last ones the client accepted. A transaction in flight may also carry submissions the
    encoder has given up with their channel; what becomes of those changes nothing in the encoder
    but its view of the L1 head. Every further step of the loop returns as long as submission ids
    remain: none panics or runs out of fuel. *)
Theorem driver_invariant cfg config rng dconfig controller safe_head stopped ph d :
  batch_type config = SingleType -> fits U64_MAX (max_frame_size config) ->
  reachable (new_driver (new_encoder cfg config rng) dconfig (new_throttle controller) safe_head stopped) ph d ->
  phase_ok (max_pending_transactions dconfig) ph d /\
  (ph <> Done -> forall sid, sid ∈ dom (be_pending (bd_pipeline d)) -> carried_once d sid) /\
  (forall sid l1_block, sid ∉ dom (be_pending (bd_pipeline d)) ->
    requeue sid (bd_pipeline d) = bd_pipeline d /\ confirm sid l1_block (bd_pipeline d) = (Ok tt, bd_pipeline d)) /\
  forall env w, (forall draining, ph = Top draining -> ids_remain d) -> returns (driver_step env w ph d).1.
Proof.
  intros Hm Hf Hr.
  assert (Hok : phase_ok (max_pending_transactions dconfig) ph d).
  { refine (reachable_ok _ _ _ _ _ Hr). by apply new_driver_ok. }
  split; [done|]. split; [intros Hph sid; apply (pending_carried (max_pending_transactions dconfig)); by destruct ph|].
  split; [by apply stale_outcome|]. intros env w Hids. destruct ph as [draining| |]; [|exact (proj1 (wake_ok _ env w d Hok))|done].
  by apply (proj1 (iterate_ok _ env draining d Hok (Hids draining eq_refl))).
Qed.
End safety.

Module DriverExample.
Import BatcherExample.

(** A block is encoded, its channel closed and its frame sent. *)
Definition config : EncoderConfig :=
  mkEncoderConfig MAX_BLOB_FRAME_SIZE MAX_BLOB_FRAME_SIZE 2 0 1 SingleType Blob (approx_compr_ratio default_encoder_config) None.
Definition info_tx : L2Tx := mkL2Tx 0x7E [] (Some (encode_calldata L1InfoExample.info)).
Definition block : BaseBlock := mkBaseBlock 101 1 100 2 0 [] [info_tx].
Definition env : Env Z := mkEnv true true 0 [].
Definition dconfig : BatchDriverConfig := mkDriverConfig 5 4 true.
Definition start : BatchDriver Z :=
  new_driver (new_encoder RollupExample.all_forks config 7) dconfig (new_throttle noop_controller) (Some 0) false.
Definition closed : BatchDriver Z :=
  after env (Admin AdminFlush) (turn env (after env (FromSource (Ok (NewBlock block))) (turn env start))).

Lemma closed_reachable : reachable start Waiting (turn env closed).
Proof.
  apply turn_reaches; [apply after_reaches; [apply turn_reaches; [apply after_reaches; [apply turn_reaches; [apply reach_start|..]|]|..]|]|..];
    (unfold ids_remain; vm_compute; reflexivity).
Qed.

Lemma closed_pending : 0 ∈ dom (be_pending (bd_pipeline (turn env closed))).
Proof. apply elem_of_dom. apply (bool_decide_eq_true_1 (is_Some _)). vm_compute. reflexivity. Qed.

Lemma driver_invariant_witness :
  zlen (sq_in_flight (bd_submissions (turn env closed))) = 1 /\ carried_once (turn env closed) 0 /\
  returns (driver_step env (Settled 0 (Err TxFees.Underpriced)) Waiting (turn env closed)).1.
Proof.
  split; [vm_compute; reflexivity|].
  destruct (driver_invariant RollupExample.all_forks config 7 dconfig noop_controller (Some 0) false Waiting (turn env closed)) as [_ (Hc & _ & Hr)];
    [reflexivity|by_eval|exact closed_reachable|].
  assert (Hw : Waiting <> Done) by discriminate. assert (Ht : forall draining, Waiting = Top draining -> ids_remain (turn env closed)) by discriminate.
  exact (conj (Hc Hw 0 closed_pending) (Hr env (Settled 0 (Err TxFees.Underpriced)) Ht)).
Defined.
End DriverExample.
