(* ===== verification/DriverStall.v ===== *)
(** A submission that does not fit a blob stops the batcher. [EncoderConfig::validate] accepts
    any number of frames per submission for blobs, the encoder puts that many frames into a
    submission, and [submit_pending] packs a submission into one blob. *)

From S2P Require Import Prelude TxFees Codec Buffer Frames Blobs BlobCodec Rollup Channel Pipeline L1Info Batches SpanTxs SpanBits SpanBatches.
From S2P Require Import DataSource ChannelReader Compress ChannelOut Encoder EncoderChannels EncoderSafety Throttle Driver DriverSafety.

Section stall.
Context {R : Type} `{ChannelRng R} `{EncoderLaws} `{SpanTxCodecs} `{SingleCodec}.
Implicit Types (e : BatchEncoder R) (d : BatchDriver R).

(** * Encoding only adds channels *)

Definition unconfirmed (c : ReadyChannel) : Prop := rc_first_confirmed c = None.

Record extends e e' : Prop := {
  ex_ready : exists new, be_ready_channels e' = be_ready_channels e ++ new /\ Forall unconfirmed new;
  ex_pending : be_pending e' = be_pending e;
  ex_config : be_config e' = be_config e;
}.

Lemma extends_refl e : extends e e.
Proof. split; [|done..]. exists []. by rewrite app_nil_r. Qed.
Lemma extends_trans e1 e2 e3 : extends e1 e2 -> extends e2 e3 -> extends e1 e3.
Proof.
  intros [(n1 & Hr1 & Hf1) Hp1 Hc1] [(n2 & Hr2 & Hf2) Hp2 Hc2]. split; [|congruence..]. exists (n1 ++ n2).
  by rewrite Hr2, Hr1, app_assoc, Forall_app.
Qed.

Lemma extends_bind {A B} (m : stm (BatchEncoder R) (fault StepError) A) (f : A -> stm (BatchEncoder R) (fault StepError) B) e :
  extends e (m e).2 -> (forall a e', m e = (Ok a, e') -> extends e e' -> extends e' (f a e').2) -> extends e ((m ≫= f) e).2.
Proof.
  unfold mbind, stm_bind. intros Hm Hf. destruct (m e) as [[a|x] e']; [|done]. eapply extends_trans; [exact Hm|]. by apply Hf.
Qed.

Lemma close_extends e : batch_type (be_config e) = SingleType -> extends e (close_current_channel e).2.
Proof.
  intros Hm. unfold close_current_channel. rewrite (bind_run _ _ _ tt e) by (unfold flush_span; by rewrite Hm).
  erewrite bind_run by reflexivity. cbv beta. change (id e) with e. destruct (be_current_channel e) as [o|]; [|apply extends_refl].
  erewrite bind_run by reflexivity. unfold lift. unfold mbind, stm_bind. destruct (channel_frames _ _) as [fs|x].
  - split; [|done..]. eexists. split; [reflexivity|]. by constructor.
  - split; [|done..]. exists []. by rewrite app_nil_r.
Qed.

Lemma timeout_extends e : batch_type (be_config e) = SingleType -> extends e (check_channel_timeout e).2.
Proof.
  intros Hm. unfold check_channel_timeout. apply extends_bind; [apply extends_refl|]. intros b e' [= _ <-] _. apply extends_bind.
  - destruct b; [by apply close_extends|apply extends_refl].
  - intros _ e2 _ _. apply extends_refl.
Qed.

Lemma step_single_extends sb da e : batch_type (be_config e) = SingleType -> extends e (step_single sb da e).2.
Proof.
  intros Hm. unfold step_single. apply extends_bind.
  { cbn. destruct (be_current_channel e); [apply extends_refl|]. unfold open_new_channel. destruct (fill_id _).
    split; [|done..]. exists []. by rewrite app_nil_r. }
  intros [] e1 _ Hx. apply extends_bind; [apply extends_refl|]. intros e2 e3 [= <- <-] _. change (id e1) with e1.
  destruct (be_current_channel e1) as [o|]; [|apply extends_refl]. destruct (out_add_batch _ _) as [[[]|[x| |]] out]; try apply extends_refl.
  - apply extends_bind; [|intros; apply extends_refl]. split; [|done..]. exists []. by rewrite app_nil_r.
  - apply extends_bind; [split; [|done..]; exists []; by rewrite app_nil_r|]. intros [] e4 He4 Hx4.
    apply extends_bind; [|intros; apply extends_refl]. apply close_extends. by rewrite (ex_config _ _ Hx4), (ex_config _ _ Hx).
Qed.

Lemma step_extends e : batch_type (be_config e) = SingleType -> extends e (enc_step e).2.
Proof.
  intros Hm. unfold enc_step. apply extends_bind; [by apply timeout_extends|]. intros closed e1 _ Hx.
  destruct closed; [apply extends_refl|]. apply extends_bind; [apply extends_refl|]. intros e2 e3 [= <- <-] _. change (id e1) with e1.
  destruct (be_blocks e1 !! be_block_cursor e1) as [b|]; [|apply extends_refl]. apply extends_bind; [apply extends_refl|].
  intros [sb info] e4 He4 _. unfold lift in He4. injection He4 as _ <-. rewrite (ex_config _ _ Hx), Hm. apply step_single_extends.
  by rewrite (ex_config _ _ Hx).
Qed.

Lemma encode_steps_extends n : forall e, batch_type (be_config e) = SingleType -> extends e (encode_steps n e).2.
Proof.
  induction n as [|n IH]; intros e Hm; cbn [encode_steps]; [apply extends_refl|]. apply extends_bind; [by apply step_extends|].
  intros r e1 _ Hx. destruct r; [apply IH; by rewrite (ex_config _ _ Hx)..|apply extends_refl].
Qed.

(** * A channel whose next submission is too large *)

(** The first channel has [fs], of which [k] frames were handed out; nothing is in flight,
    nothing is confirmed, and the next submission is larger than a blob. *)
Record stuck (fs : list Frame) (k : nat) e : Prop := {
  su_mode : batch_type (be_config e) = SingleType /\ da_type (be_config e) = Blob;
  su_head : exists c rest, be_ready_channels e = c :: rest /\ rc_frames c = fs /\ rc_cursor c = k;
  su_unconfirmed : Forall unconfirmed (be_ready_channels e);
  su_pending : be_pending e = ∅;
  su_large : BLOB_MAX_DATA_SIZE < zlen (packed (take (submission_count (be_config e) Blob (drop k fs)) (drop k fs)));
}.

Lemma stuck_extends fs k e e' : stuck fs k e -> extends e e' -> stuck fs k e'.
Proof.
  intros [Hm (c & rest & Hr & Hf & Hk) Hu Hp Hl] [(new & Hr' & Hn) Hp' Hc]. split; rewrite ?Hc, ?Hp'; try done.
  - exists c, (rest ++ new). by rewrite Hr', Hr.
  - by rewrite Hr', Forall_app.
Qed.

(** While frames are handed out and come back, the cursor of the first channel does not go
    below [k]. *)
Record floored (fs : list Frame) (k : nat) (cfg : EncoderConfig) e : Prop := {
  fl_head : exists c rest, be_ready_channels e = c :: rest /\ rc_frames c = fs /\ (k <= rc_cursor c)%nat;
  fl_unconfirmed : Forall unconfirmed (be_ready_channels e);
  fl_refs sid p : be_pending e !! sid = Some p -> channel_idx p = 0%nat -> (k <= frame_start p)%nat;
  fl_config : be_config e = cfg;
}.

Lemma floored_next fs k cfg e sub e1 : encoder_ok e -> floored fs k cfg e -> next_submission e = (Ok (Some sub), e1) ->
  floored fs k cfg e1 /\ forall sid p, be_pending e !! sid = Some p -> be_pending e1 !! sid = Some p.
Proof.
  intros Hok [(c & rest & Hr & Hf & Hk) Hu Hrefs Hc] Hrun.
  assert (Hcur : Forall cursor_ok (be_ready_channels e)) by (eapply Forall_impl; [apply (eo_ready e Hok)|]; by intros d []).
  destruct (next_submission_run e Hcur) as [[Hn _]|(pre & d & post & n & gs & sid & Hr' & _ & Hn & Hl & -> & Hp & -> & Hrun')]; [congruence|].
  rewrite Hrun in Hrun'. injection Hrun' as _ ->. split.
  - split; cbn [be_ready_channels be_pending be_config set_pending set_ready_channels set_next_id]; [| | |done].
    + rewrite Hr in Hr'. destruct pre as [|c' pre]; injection Hr' as -> ->; [|by exists c', (pre ++ advance_channel n d :: post)].
      exists (advance_channel n d), post. split_and!; [done|done|]. cbn. lia.
    + rewrite Hr' in Hu. apply Forall_app in Hu as [Hu1 [Hu2 Hu3]%Forall_cons]. apply Forall_app. split; [done|]. by constructor.
    + intros s p [[<- <-]|[_ Hp']]%lookup_insert_Some; [|exact (Hrefs s p Hp')]. cbn. intros Hz. rewrite Hr in Hr'.
      destruct pre as [|c' pre]; [|done]. injection Hr' as -> _. done.
  - intros s p Hs. cbn. rewrite lookup_insert_ne; [done|]. intros <-. pose proof (eo_ids e Hok (be_next_id e) ltac:(by eexists)). lia.
Qed.

Lemma floored_requeue fs k cfg e sid : floored fs k cfg e ->
  floored fs k cfg (requeue sid e) /\
  (forall c rest, be_ready_channels e = c :: rest -> exists c' rest', be_ready_channels (requeue sid e) = c' :: rest' /\
     (rc_cursor c = k \/ (exists n, be_pending e !! sid = Some (mkPendingRef 0 k n)) -> rc_cursor c' = k)).
Proof.
  intros [(c & rest & Hr & Hf & Hk) Hu Hrefs Hc]. unfold requeue. destruct (be_pending e !! sid) as [p|] eqn:Ep; cycle 1.
  { split; [split; [by exists c, rest|done..]|]. intros c' rest' Hr'. exists c', rest'. split; [done|]. by intros [Hk'|[n [=]]]. }
  split.
  - split; cbn [be_ready_channels be_pending be_config set_pending set_ready_channels]; [| | |done].
    + rewrite Hr. destruct (channel_idx p) as [|i] eqn:Ei; [|by exists c, (alter (requeue_frames (frame_start p)) i rest)].
      exists (requeue_frames (frame_start p) c), rest. split_and!; [done|done|]. cbn. pose proof (Hrefs _ _ Ep Ei). case_decide; lia.
    + apply Forall_alter; [done|]. intros d _ Hd. done.
    + intros s q [_ Hq]%lookup_delete_Some. exact (Hrefs s q Hq).
  - intros c' rest' Hr'. cbn [be_ready_channels set_pending set_ready_channels]. rewrite Hr' in Hr |- *. injection Hr as -> ->.
    destruct (channel_idx p) as [|i] eqn:Ei; cbn; eexists _, _; (split; [reflexivity|]).
    + cbn. pose proof (Hrefs _ _ Ep Ei). intros [Hck|[n [= ->]]]; cbn in *; case_decide; lia.
    + intros [Hck|[n [= ->]]]; done.
Qed.

Lemma packed_prefix a b : zlen (packed a) <= zlen (packed (a ++ b)).
Proof.
  unfold packed. rewrite fmap_app, concat_app. change (?x :: ?l ++ ?r) with ((x :: l) ++ r). rewrite zlen_app.
  pose proof (zlen_nonneg (concat (frame_encode <$> b))). lia.
Qed.

(** The rest of the packing loop keeps the first submission. *)
Lemma pack_keeps fs k cfg id0 ref ids : forall fuel e p, tracked e (pk_ids p ++ ids) -> floored fs k cfg e -> da_type cfg = Blob ->
  be_pending e !! id0 = Some ref -> (exists l, pk_ids p = id0 :: l) -> pk_da_type p = Blob ->
  left_count e < Z.of_nat fuel -> be_next_id e + left_count e < U64_MAX ->
  exists p' e', pack_submissions fuel p e = (Ok p', e') /\ floored fs k cfg e' /\ be_pending e' !! id0 = Some ref /\
    (exists l, pk_ids p' = id0 :: l) /\ pk_da_type p' = Blob /\ exists gs, pk_frames p' = pk_frames p ++ gs.
Proof.
  induction fuel as [|fuel IH]; intros e p Ht Hfl Hda Hid [l Hids] Hpd Hf Hn;
    pose proof (zlen_nonneg (frames_left (be_ready_channels e))) as Hpos; unfold left_count in Hf, Hn; [lia|].
  cbn [pack_submissions]. destruct (next_tracked e _ Ht ltac:(lia)) as [[Hr Hl]|(sub & e1 & Hr & Ht1 & Hne & Hsda & Hleft & Hnid & _ & _)];
    rewrite (bind_run _ _ _ _ _ Hr).
  { exists p, e. split_and!; [done..|by exists l|done|exists []; by rewrite app_nil_r]. }
  destruct (floored_next _ _ _ _ _ _ (tk_encoder _ _ Ht) Hfl Hr) as [Hfl1 Hkeep].
  assert (Hne0 : sub_id sub <> id0).
  { intros He. pose proof (tk_nodup _ _ Ht1) as Hnd. rewrite Hids, He in Hnd. apply NoDup_cons in Hnd as [Hnin _]. apply Hnin. cbn. by left. }
  assert (Hback : exists p' e', (modify (E := fault StepError) (requeue (sub_id sub)) ;; mret p) e1 = (Ok p', e') /\ floored fs k cfg e' /\
    be_pending e' !! id0 = Some ref /\ (exists l, pk_ids p' = id0 :: l) /\ pk_da_type p' = Blob /\ exists gs, pk_frames p' = pk_frames p ++ gs).
  { eexists p, _. split; [reflexivity|]. split_and!; [by apply floored_requeue| |by exists l|done|exists []; by rewrite app_nil_r].
    unfold requeue. destruct (be_pending e1 !! sub_id sub); [|by apply Hkeep]. cbn. rewrite lookup_delete_ne by done. by apply Hkeep. }
  destruct (bool_decide (pk_ids p <> []) && (_ >? _)); [done|]. destruct (bool_decide (pk_ids p <> []) && negb _); [done|]. clear Hback.
  rewrite bool_decide_false by (by rewrite Hids). cbv zeta. rewrite Hpd. set (p1 := mkPacked _ _ _ _). cbn iota.
  assert (Hone : zlen (frames_left (be_ready_channels e)) = zlen (sub_frames sub) + left_count e1) by (unfold left_count; by rewrite Hleft, zlen_app).
  assert (1 <= zlen (sub_frames sub)) by (destruct (sub_frames sub); [done|unfold zlen; cbn; lia]).
  destruct (IH e1 p1) as (p' & e' & Hrun & Hfl' & Hid' & Hl' & Hd' & gs & Hgs); [|done|done|by apply Hkeep| |done|lia|lia|].
  - cbn. rewrite <- app_assoc. cbn. by rewrite <- Permutation_middle.
  - exists (l ++ [sub_id sub]). cbn. by rewrite Hids.
  - exists p', e'. split_and!; [done..|]. exists (sub_frames sub ++ gs). rewrite Hgs. cbn. by rewrite <- app_assoc.
Qed.

(** When everything comes back the first channel is where it was. *)
Lemma requeues_lower fs k cfg : forall l e, floored fs k cfg e ->
  (exists c rest, be_ready_channels e = c :: rest /\ rc_cursor c = k) \/
    (exists id0 l' n, l = id0 :: l' /\ be_pending e !! id0 = Some (mkPendingRef 0 k n)) ->
  exists e', for_each (E := fault StepError) l (fun id => modify (requeue id)) e = (Ok tt, e') /\ floored fs k cfg e' /\
    exists c rest, be_ready_channels e' = c :: rest /\ rc_frames c = fs /\ rc_cursor c = k.
Proof.
  induction l as [|sid l IH]; intros e Hfl Hlow; cbn [for_each].
  { exists e. split_and!; [done|done|]. destruct Hlow as [(c & rest & Hr & Hk)|(? & ? & ? & [=] & _)].
    destruct (fl_head _ _ _ _ Hfl) as (c' & rest' & Hr' & Hf' & _). rewrite Hr in Hr'. injection Hr' as -> ->. by exists c', rest'. }
  erewrite bind_run by reflexivity. destruct (floored_requeue _ _ _ _ sid Hfl) as [Hfl' Hcur]. apply IH; [done|]. left.
  destruct (fl_head _ _ _ _ Hfl) as (c & rest & Hr & _). destruct (Hcur c rest Hr) as (c' & rest' & Hr' & Hk). exists c', rest'.
  split; [done|]. apply Hk. destruct Hlow as [(c2 & rest2 & Hr2 & Hk2)|(id0 & l' & n & [= -> ->] & Hid)].
  - left. congruence.
  - right. by exists n.
Qed.

(** The submission that is too large is handed out. *)
Lemma stuck_next fs k e : tracked e [] -> stuck fs k e -> be_next_id e < U64_MAX ->
  exists sub e1 n, next_submission e = (Ok (Some sub), e1) /\ tracked e1 [sub_id sub] /\ sub_da_type sub = Blob /\
    BLOB_MAX_DATA_SIZE < zlen (packed (sub_frames sub)) /\ floored fs k (be_config e) e1 /\
    be_pending e1 !! sub_id sub = Some (mkPendingRef 0 k n) /\ be_next_id e1 = be_next_id e + 1 /\ left_count e1 + 1 <= left_count e.
Proof.
  intros Ht [[Hmode Hda] (c & rest & Hr & Hf & Hk) Hu Hp Hlarge] Hlt. pose proof (tk_encoder _ _ Ht) as Hok.
  assert (Hcur : Forall cursor_ok (be_ready_channels e)) by (eapply Forall_impl; [apply (eo_ready e Hok)|]; by intros d []).
  assert (Hleft : channel_left c = drop k fs) by (unfold channel_left; by rewrite Hf, Hk).
  assert (Heff : effective_da_type e = Blob) by (unfold effective_da_type; rewrite Hda; by rewrite andb_false_r).
  assert (Hhead : forall cs, frames_left (c :: cs) <> []).
  { intros cs. unfold frames_left. cbn. rewrite Hleft. intros [Hnil _]%app_eq_nil. by rewrite Hnil, take_nil in Hlarge. }
  destruct (next_submission_run e Hcur) as [[_ Hl]|(pre & d & post & n & gs & sid & Hr' & Hcount & Hn1 & Hl & -> & Hpre & -> & Hrun)].
  { rewrite Hr in Hl. by apply Hhead in Hl. }
  rewrite Hr in Hr'. destruct pre as [|c' pre]; [injection Hr' as <- <-|injection Hr' as <- _; by apply Hhead in Hpre]. rewrite Heff, Hleft in Hcount.
  assert (Hfl : floored fs k (be_config e) e).
  { split; [exists c, rest; split_and!; [done..|lia]|done| |done]. intros s p. by rewrite Hp. }
  destruct (next_tracked e [] Ht Hlt) as [[Hnone _]|(sub & e1 & Hr1 & Ht1 & Hne & Hsda & Hfleft & Hnid & _ & _)]; [congruence|].
  destruct (floored_next _ _ _ _ _ _ Hok Hfl Hr1) as [Hfl1 _]. exists sub, e1, n. split_and!; [done|done|congruence| |done| |done|].
  - rewrite Hr1 in Hrun. injection Hrun as -> _. cbn [sub_frames]. by rewrite Hleft, Hcount.
  - rewrite Hr1 in Hrun. injection Hrun as -> ->. cbn. by rewrite lookup_insert_eq, Hk.
  - unfold left_count. rewrite Hfleft, zlen_app. destruct (sub_frames sub); [done|]. unfold zlen. cbn [length]. lia.
Qed.

Lemma stuck_submit max fs k q e : queue_ok max q e -> sq_in_flight q = [] -> stuck fs k e ->
  be_next_id e + left_count e + Z.of_nat (sq_permits q) < U64_MAX ->
  exists q' e', submit_pending (q, e) = (Ok tt, (q', e')) /\ stuck fs k e' /\ sq_sent q' = sq_sent q /\ sq_in_flight q' = [].
Proof.
  intros [Ht Hpm] Hfly Hst Hn. unfold submit_pending. cbn [submit_loop fst]. erewrite bind_run by reflexivity. cbn [fst].
  destruct (sq_txpool_blocked q); [by exists q, e|]. case_decide as Hz; [by exists q, e|]. erewrite bind_run by reflexivity.
  erewrite bind_run by reflexivity. cbn [snd]. rewrite Hfly in Ht. cbn in Ht.
  pose proof (zlen_nonneg (frames_left (be_ready_channels e))) as Hpos. fold (left_count e) in Hpos.
  destruct (stuck_next fs k e Ht Hst ltac:(lia)) as (sub & e1 & n & Hr1 & Ht1 & Hda & Hlarge & Hfl & Hid & Hnid & Hleft).
  pose proof (pack_fuel_enough e) as Hfuel. destruct (pack_fuel e) as [|fuel]; [lia|]. set (p0 := mkPacked [] [] 1 Blob).
  destruct (pack_keeps fs k (be_config e) (sub_id sub) (mkPendingRef 0 k n) [] fuel e1
    (mkPacked [sub_id sub] (sub_frames sub) (add64 1 (sub_frame_size sub)) Blob)) as (p & e2 & Hr2 & Hfl2 & Hid2 & [l Hl] & Hda2 & gs & Hgs);
    [done|done|apply Hst|done|by exists []|done|lia|lia|].
  assert (Hpack : pack_submissions (S fuel) p0 e = (Ok p, e2)).
  { cbn [pack_submissions]. rewrite (bind_run _ _ _ _ _ Hr1). cbn [p0 pk_ids]. rewrite !bool_decide_false, bool_decide_true by (done || by intros []).
    cbn [andb]. rewrite Hda. exact Hr2. }
  destruct (pack_tracked [] (S fuel) e p0) as (p' & e2' & Hr2' & Ht2 & _); [done|done|lia|lia|]. rewrite Hpack in Hr2'. injection Hr2' as <- <-.
  rewrite (bind_run _ _ _ p (take_permit q, e2)) by (unfold on_encoder, zoom; cbn [fst snd]; by rewrite Hpack).
  rewrite bool_decide_false by (by rewrite Hl). unfold candidate. rewrite Hda2.
  pose proof (encode_packed_outcome (pk_frames p)) as Ho. rewrite decide_False in Ho.
  2:{ rewrite Hgs. cbn [pk_frames]. pose proof (packed_prefix (sub_frames sub) gs). lia. }
  destruct Ho as [x Ho]. rewrite Ho. cbn [mbind result_bind].
  destruct (requeues_tracked (pk_ids p) [] e2 Ht2) as (e3 & Hr3 & Ht3).
  destruct (requeues_lower fs k (be_config e) (pk_ids p) e2 Hfl2) as (e3' & Hr3' & Hfl3 & Hhead); [right; by exists (sub_id sub), l, n|].
  rewrite Hr3 in Hr3'. injection Hr3' as <-.
  rewrite (bind_run _ _ _ tt (take_permit q, e3)) by (unfold on_encoder, zoom; cbn [fst snd]; by rewrite Hr3).
  eexists _, e3. split; [reflexivity|]. split_and!; [|done|done]. destruct Hst as [Hm _ _ _ Hbig]. destruct Hfl3 as [_ Hu3 _ Hc3].
  split; rewrite ?Hc3; try done. apply dom_empty_inv_L, elem_of_equiv_empty_L. intros sid Hsid. by apply (tk_pending _ _ Ht3), not_elem_of_nil in Hsid.
Qed.

Lemma advance_stuck fs k n e : stuck fs k e -> stuck fs k (advance_l1_head n e).2.
Proof.
  intros Hst. unfold advance_l1_head. erewrite bind_run by reflexivity. cbv beta. change (id e) with e. destruct (_ <=? _); [done|].
  erewrite bind_run by reflexivity. set (e1 := set_l1_head n e). assert (Hst1 : stuck fs k e1) by (by destruct Hst; split).
  pose proof (stuck_extends _ _ _ _ Hst1 (timeout_extends e1 (proj1 (su_mode _ _ _ Hst1)))) as Hst2.
  unfold mbind, stm_bind. destruct (check_channel_timeout e1) as [[b|x] e2]; [|done]. cbn in *.
  unfold invalidate_expired_ready_channels. destruct (list_find _ _) as [[i c]|] eqn:Ef; [|done]. exfalso.
  apply list_find_Some in Ef as (Hi & Hex & _). pose proof (Forall_lookup_1 _ _ _ _ (su_unconfirmed _ _ _ Hst2) Hi) as Hu.
  unfold expired in Hex. by rewrite Hu in Hex.
Qed.

Lemma prune_stuck fs k n e : stuck fs k e -> stuck fs k (prune_safe n e).2.
Proof.
  intros Hst. unfold prune_safe. erewrite bind_run by reflexivity. cbv beta zeta. change (id e) with e. case_decide; [done|].
  unfold prune_blocks. case_decide; [|done]. destruct Hst as [Hm (c & rest & Hr & Hf & Hk) Hu Hp Hl]. split; cbn; try done.
  - rewrite Hr. cbn. by eexists _, _.
  - apply Forall_fmap. eapply Forall_impl; [exact Hu|]. done.
Qed.

(** * The driver *)

(** The driver has nothing in flight and the encoder is stuck. *)
Definition stalled (fs : list Frame) (k : nat) (sent : list TxCandidate) d : Prop :=
  stuck fs k (bd_pipeline d) /\ sq_in_flight (bd_submissions d) = [] /\ sq_sent (bd_submissions d) = sent.

#[local] Opaque STEP_BUDGET.

Lemma cpu_stalled max env fs k sent d d' : driver_ok max d -> ids_remain d -> stalled fs k sent d -> cpu_phase env d = (Ok tt, d') ->
  stalled fs k sent d'.
Proof.
  intros Hd Hids (Hst & Hfly & Hsent) Hr. unfold cpu_phase in Hr. apply bind_ok_inv in Hr as ([] & d1 & Hr1 & Hr).
  assert (Hd1 : driver_ok max d1).
  { pose proof (pipeline_call_ok max _ d Hd (encode_steps_ok STEP_BUDGET _ (tk_encoder _ _ (qo_tracked _ _ _ (do_queue _ _ Hd))))) as [_ Hd1].
    unfold drain_encoding in Hr1. by rewrite Hr1 in Hd1. }
  unfold drain_encoding, pipeline_call in Hr1. unfold ids_remain in Hids.
  pose proof (stuck_extends _ _ _ _ Hst (encode_steps_extends STEP_BUDGET _ (proj1 (su_mode _ _ _ Hst)))) as Hst1.
  destruct (encode_steps STEP_BUDGET (bd_pipeline d)) as [r e1]. injection Hr1 as _ <-. cbn [snd] in *.
  erewrite bind_run in Hr by reflexivity. erewrite bind_run in Hr by reflexivity.
  set (d1 := set_pipeline e1 d) in *. set (d2 := set_submissions _ _) in Hr.
  assert (Hd2 : kept e1 (bd_pipeline d2) /\ encoder_ok (bd_pipeline d2) /\ stuck fs k (bd_pipeline d2) /\ left_count (bd_pipeline d2) = left_count e1 /\
    sq_in_flight (bd_submissions d2) = [] /\ sq_sent (bd_submissions d2) = sent /\ sq_permits (bd_submissions d2) = sq_permits (bd_submissions d)).
  { pose proof (tk_encoder _ _ (qo_tracked _ _ _ (do_queue _ _ Hd1))) as He1. unfold d2, apply_throttle.
    destruct (throttle_apply _ _ _) as [active th]. destruct (override_ok active e1 He1) as [Ho Hk].
    assert (Hrec : forall q, sq_in_flight (recover_txpool (env_cancel_ok env) q) = sq_in_flight q /\ sq_sent (recover_txpool (env_cancel_ok env) q) = sq_sent q /\
      sq_permits (recover_txpool (env_cancel_ok env) q) = sq_permits q).
    { intros q. unfold recover_txpool. by destruct (sq_txpool_blocked q), (env_cancel_ok env). }
    destruct (Hrec (bd_submissions d)) as (Hq1 & Hq2 & Hq3). cbn.
    destruct (bd_force_blobs d); cbn; rewrite Hq1, Hq2, Hq3; split_and!; try done. by destruct Hst1; split. }
  clearbody d2. destruct Hd2 as (Hk2 & He2 & Hst2 & Hl2 & Hfly2 & Hsent2 & Hp2).
  assert (Hq2 : queue_ok max (bd_submissions d2) (bd_pipeline d2)).
  { destruct Hd1 as [[Ht Hm] _]. split; [|rewrite Hfly2, Hp2; cbn in *; by rewrite Hfly in Hm]. rewrite Hfly2. cbn in Ht. rewrite Hfly in Ht.
    by eapply tracked_kept. }
  destruct (stuck_submit max fs k _ _ Hq2 Hfly2 Hst2) as (q3 & e3 & Hr3 & Hst3 & Hs3 & Hf3).
  { destruct Hk2 as [-> _]. rewrite Hl2, Hp2. exact Hids. }
  unfold queue_call in Hr. rewrite Hr3 in Hr. injection Hr as <-. split_and!; [done|done|]. cbn. by rewrite Hs3.
Qed.

(** The pipeline is not reset by a reorg or a pause. *)
Definition no_reset (w : Wake) d : Prop :=
  match w with
  | Admin Pause | FromSource (Ok (SourceReorg _)) => False
  | FromSource (Ok (NewBlock b)) => (add_block b (bd_pipeline d)).1 = Ok tt
  | _ => True
  end.

Lemma pipeline_stalled {A} (m : stm (BatchEncoder R) (fault StepError) A) fs k sent d a d' : stalled fs k sent d ->
  stuck fs k (m (bd_pipeline d)).2 -> pipeline_call m d = (Ok a, d') -> stalled fs k sent d'.
Proof.
  intros (Hst & Hfly & Hsent) Hm Hr. unfold pipeline_call in Hr. destruct (m (bd_pipeline d)) as [r e]. injection Hr as _ <-. by split_and!.
Qed.

Lemma event_stalled env ev fs k sent d b d' : stalled fs k sent d ->
  match ev with EvReorg _ | EvReceipt _ _ => False | EvBlock b => (add_block b (bd_pipeline d)).1 = Ok tt | _ => True end ->
  handle_event env ev d = (Ok b, d') -> stalled fs k sent d'.
Proof.
  intros Hst Hev Hr. pose proof Hst as (Hstuck & Hfly & Hsent). pose proof (proj1 (su_mode _ _ _ Hstuck)) as Hmode.
  destruct ev; try done; cbn [handle_event] in Hr; apply bind_ok_inv in Hr as ([] & d1 & Hr1 & Hr); injection Hr as _ <-.
  - eapply pipeline_stalled; [done| |done]. eapply stuck_extends; [done|by apply close_extends].
  - injection Hr1 as <-. unfold on_block. pose proof Hev as Hadd. unfold add_block in Hadd |- *. destruct (_ && _); [done|].
    split_and!; [|done|done]. by destruct Hstuck; split.
  - eapply pipeline_stalled; [done| |done]. eapply stuck_extends; [done|by apply close_extends].
  - eapply pipeline_stalled; [done| |done]. by apply advance_stuck.
  - eapply pipeline_stalled; [done| |done]. by apply prune_stuck.
  - injection Hr1 as <-. by split_and!.
Qed.

Lemma on_wake_same env w d o d1 : no_reset w d -> sq_in_flight (bd_submissions d) = [] -> on_wake env w d = (Ok o, d1) ->
  bd_pipeline d1 = bd_pipeline d /\ bd_submissions d1 = bd_submissions d /\
  forall ev, o = Some ev ->
    match ev with EvReorg _ | EvReceipt _ _ => False | EvBlock b => (add_block b (bd_pipeline d)).1 = Ok tt | _ => True end.
Proof.
  intros Hw Hfly Hr. unfold on_wake in Hr. erewrite bind_run in Hr by reflexivity. cbv beta in Hr. change (id d) with d in Hr.
  destruct w as [|cmd|[[b|head|]|[| |]]|i r|r|n| |]; try done; cbn in Hw.
  - injection Hr as <- <-. split_and!; [done|done|]. by intros ev [= <-].
  - destruct cmd; try done; injection Hr as <- <-; (split_and!; [try done|try done|by intros ev [= <-]]); by destruct (bd_safe_head d).
  - injection Hr as <- <-. split_and!; [done|done|]. destruct (bd_stopped d); [done|]. by intros ev [= <-].
  - injection Hr as <- <-. split_and!; [done|done|]. destruct (bd_stopped d); [done|]. by intros ev [= <-].
  - injection Hr as <- <-. split_and!; [done|done|]. by intros ev [= <-].
  - rewrite Hfly in Hr. cbn in Hr. by injection Hr as <- <-.
  - destruct (bd_l1_source_open d); injection Hr as <- <-; (split_and!; [done|done|]); [|done]. by destruct r as [m|[| |]]; intros ev [= <-].
  - injection Hr as <- <-. split_and!; [done|done|]. done.
  - injection Hr as <- <-. split_and!; [done|done|]. destruct (bd_safe_head d); [|done]. by intros ev [= <-].
  - injection Hr as <- <-. split_and!; [done|done|]. done.
Qed.

Lemma wake_stalled env w fs k sent d ph d' : stalled fs k sent d -> no_reset w d -> wake env w d = (Ok ph, d') -> stalled fs k sent d'.
Proof.
  intros Hst Hw Hr. unfold wake in Hr. apply bind_ok_inv in Hr as (o & d1 & Hr1 & Hr).
  destruct (on_wake_same env w d o d1 Hw (proj1 (proj2 Hst)) Hr1) as (Hp & Hs & Hev).
  assert (Hst1 : stalled fs k sent d1) by (unfold stalled in *; by rewrite Hp, Hs).
  destruct o as [ev|]; [|by injection Hr as _ <-]. apply bind_ok_inv in Hr as (b & d2 & Hr2 & Hr). injection Hr as _ <-.
  specialize (Hev ev eq_refl). eapply event_stalled; [done| |done]. destruct ev; try done. by rewrite Hp.
Qed.

(** The runs in which the pipeline is not reset. *)
Inductive stays (draining0 : bool) (d0 : BatchDriver R) : Phase -> BatchDriver R -> Prop :=
| stay_start : stays draining0 d0 (Top draining0) d0
| stay_iterate env draining d ph d' :
    stays draining0 d0 (Top draining) d -> ids_remain d -> iterate env draining d = (Ok ph, d') -> stays draining0 d0 ph d'
| stay_wake env w d ph d' : stays draining0 d0 Waiting d -> no_reset w d -> wake env w d = (Ok ph, d') -> stays draining0 d0 ph d'.

Lemma stays_ok max draining0 d0 ph d : driver_ok max d0 -> stays draining0 d0 ph d -> phase_ok max ph d.
Proof.
  intros H0d. induction 1 as [|env draining d ph d' _ IH Hids Hr|env w d ph d' _ IH _ Hr]; [done| |].
  - by eapply (proj2 (iterate_ok max env draining d IH Hids)).
  - destruct (wake_ok max env w d IH) as [_ Hd']. rewrite Hr in Hd'. pose proof (wake_phase _ _ _ _ _ Hr). by destruct ph.
Qed.

(** C29: when the frames that the encoder puts in one submission are together larger than a blob,
    the driver never sends a transaction again: in every run from such a state in which the
    pipeline is not reset, whatever blocks, commands, L1 heads and cancellations arrive, the list
    of sent transactions stays what it was and the same submission stays first in line. *)
Theorem oversized_submission_stalls max fs k draining0 d0 ph d :
  driver_ok max d0 -> stuck fs k (bd_pipeline d0) -> sq_in_flight (bd_submissions d0) = [] -> stays draining0 d0 ph d ->
  sq_sent (bd_submissions d) = sq_sent (bd_submissions d0) /\ stuck fs k (bd_pipeline d).
Proof.
  intros Hd0 Hst Hfly Hrun.
  enough (stalled fs k (sq_sent (bd_submissions d0)) d) as (? & _ & ?) by done.
  induction Hrun as [|env draining d ph d' Hs IH Hids Hr|env w d ph d' Hs IH Hw Hr]; [done| |by eapply wake_stalled].
  pose proof (stays_ok max _ _ _ _ Hd0 Hs) as Hd. unfold iterate in Hr. apply bind_ok_inv in Hr as ([] & d1 & Hcpu & Hr).
  pose proof (cpu_stalled max _ _ _ _ _ _ Hd Hids IH Hcpu) as Hst1. destruct draining; [|by injection Hr as _ <-].
  apply bind_ok_inv in Hr as ([] & d2 & Hdr & Hr). injection Hr as _ <-. destruct Hst1 as (Hst1 & Hfly1 & Hs1).
  assert (Hnone : forall settled, drain settled (bd_submissions d1, bd_pipeline d1) = (Ok tt, (bd_submissions d1, bd_pipeline d1))).
  { induction settled as [|[i o] settled IHs]; [done|]. cbn [drain]. erewrite bind_run by reflexivity. cbn [fst]. by rewrite Hfly1. }
  unfold queue_call in Hdr. rewrite Hnone in Hdr. injection Hdr as <-. by split_and!.
Qed.
End stall.

Module StallExample.
Import BatcherExample.

(** The block of the driver's example with a transaction that is encoded to more than a blob,
    and two frames per submission: a configuration that [validate] accepts. *)
Definition config : EncoderConfig :=
  mkEncoderConfig MAX_BLOB_FRAME_SIZE MAX_BLOB_FRAME_SIZE 2 0 2 SingleType Blob (approx_compr_ratio default_encoder_config) None.
Definition block : BaseBlock := mkBaseBlock 101 1 100 2 0 [] [DriverExample.info_tx; mkL2Tx 2 (replicate (Z.to_nat 40000) 2) None].

Abbreviation env := DriverExample.env.
Definition start : BatchDriver Z :=
  new_driver (new_encoder RollupExample.all_forks config 7) DriverExample.dconfig (new_throttle noop_controller) (Some 0) false.
(** The block is encoded and its channel is closed. *)
Definition closed : BatchDriver Z :=
  after env (Admin AdminFlush) (turn env (after env (FromSource (Ok (NewBlock block))) (turn env start))).
(** The driver is cancelled: it turns once more and drains. *)
Definition cancelled : BatchDriver Z := after env Cancelled (turn env closed).
Definition finished : BatchDriver Z := (iterate env true cancelled).2.

Lemma drain_run d : (iterate env true d).1 = Ok Done -> iterate env true d = (Ok Done, (iterate env true d).2).
Proof. destruct (iterate env true d). by intros [= ->]. Qed.

Lemma config_valid : validate_config config = Ok tt.
Proof. vm_compute. reflexivity. Qed.

Lemma closed_ok : driver_ok 4 closed.
Proof.
  apply (reachable_ok 4 start (Top false)); [by apply (new_driver_ok _ config 7 DriverExample.dconfig)|].
  apply after_reaches; [apply turn_reaches; [apply after_reaches; [apply turn_reaches; [apply reach_start|..]|]|..]|];
    (unfold ids_remain; vm_compute; reflexivity).
Qed.

(** A single channel that is ready, of which nothing was handed out. *)
Definition head_frames (e : BatchEncoder Z) : list Frame := match be_ready_channels e with c :: _ => rc_frames c | [] => [] end.
Definition one_channel (e : BatchEncoder Z) : bool :=
  match be_ready_channels e with
  | [c] => (rc_cursor c =? 0)%nat && bool_decide (rc_first_confirmed c = None)
  | _ => false
  end.
Definition large_head (e : BatchEncoder Z) : bool :=
  BLOB_MAX_DATA_SIZE <? zlen (packed (take (submission_count (be_config e) Blob (head_frames e)) (head_frames e))).

Lemma one_stuck e : one_channel e = true -> large_head e = true -> be_pending e = ∅ ->
  batch_type (be_config e) = SingleType -> da_type (be_config e) = Blob -> stuck (head_frames e) 0 e.
Proof.
  intros H1 Hl%Z.ltb_lt Hp Hm Hd. split; [done| | |done|by rewrite drop_0]; clear Hl; revert H1; unfold one_channel, head_frames;
    (destruct (be_ready_channels e) as [|c [|c' l]]; [done| |done]); intros [Hk%Nat.eqb_eq Hu%bool_decide_eq_true]%andb_prop.
  - by exists c, [].
  - by repeat constructor.
Qed.

Abbreviation frames := (head_frames (bd_pipeline closed)).
Lemma closed_stuck : stuck frames 0 (bd_pipeline closed).
Proof. apply one_stuck; vm_compute; reflexivity. Qed.

Lemma finished_stays : stays false closed Done finished.
Proof.
  apply (stay_iterate false closed env true cancelled).
  - apply (stay_wake false closed env Cancelled (turn env closed)); [apply (stay_iterate false closed env false closed)|exact I|].
    + apply stay_start.
    + unfold ids_remain. vm_compute. reflexivity.
    + refine (turn_run env closed Waiting _). vm_compute. reflexivity.
    + refine (after_run env Cancelled (turn env closed) (Top true) _). vm_compute. reflexivity.
  - unfold ids_remain. vm_compute. reflexivity.
  - refine (drain_run cancelled _). vm_compute. reflexivity.
Qed.

Lemma closed_idle : sq_in_flight (bd_submissions closed) = [] /\ sq_sent (bd_submissions closed) = [].
Proof. vm_compute. by split. Qed.

Lemma oversized_submission_stalls_witness : validate_config config = Ok tt /\ sq_sent (bd_submissions finished) = [].
Proof.
  split; [exact config_valid|]. rewrite <- (proj2 closed_idle).
  exact (proj1 (oversized_submission_stalls 4 frames 0 false closed Done finished closed_ok closed_stuck (proj1 closed_idle) finished_stays)).
Defined.
End StallExample.
