(* ===== verification/DriverDelivery.v ===== *)
(** The driver of the batcher and the derivation of a node: what the driver sends of the
    blocks it is given is derived as the batches of these blocks. The runs are those in
    which every transaction lands and the chain is not reorganised, with blocks,
    receipts, L1 heads, safe heads, flushes and admin requests in any order. *)

From S2P Require Import Prelude TxFees Codec Buffer Frames Blobs BlobCodec Rollup SystemConfig Channel Pipeline L1Info Batches SpanTxs.
From S2P Require Import SpanBits SpanBatches BatchStages BatchSafety BlobSource DataSource FrameQueue Traversal ChannelStages Derivation.
From S2P Require Import ChannelReader Compress ChannelOut Encoder EncoderChannels EncodeDerive EncoderSafety Throttle Driver DriverSafety.

(** * Frames in flight *)

(** The number of frames in flight for a channel. *)
Definition flying (i : nat) (pm : gmap Z PendingRef) : nat :=
  map_fold (fun _ p acc => (if decide (channel_idx p = i) then frame_count p else 0) + acc)%nat 0%nat pm.

Lemma flying_insert i pm sid p : pm !! sid = None ->
  flying i (<[sid := p]> pm) = ((if decide (channel_idx p = i) then frame_count p else 0) + flying i pm)%nat.
Proof. intros Hn. unfold flying. rewrite map_fold_insert_L; [done| |done]. intros. lia. Qed.
Lemma flying_delete i pm sid p : pm !! sid = Some p ->
  flying i pm = ((if decide (channel_idx p = i) then frame_count p else 0) + flying i (delete sid pm))%nat.
Proof. intros Hs. rewrite <- (insert_delete_id pm sid p Hs) at 1. apply flying_insert, lookup_delete_eq. Qed.
Lemma flying_none i pm : (forall sid p, pm !! sid = Some p -> channel_idx p <> i) -> flying i pm = 0%nat.
Proof.
  induction pm as [|sid p pm Hs IH] using map_ind; intros Hne; [done|]. rewrite flying_insert by done.
  rewrite decide_False by (apply (Hne sid), lookup_insert_eq). apply IH. intros s q Hq. apply (Hne s).
  rewrite lookup_insert_ne; [done|]. congruence.
Qed.
Lemma flying_shift i k pm : (forall sid p, pm !! sid = Some p -> channel_idx p <> k) ->
  flying i (shift_ref k <$> pm) = flying (if decide (i < k)%nat then i else S i) pm.
Proof.
  induction pm as [|sid p pm Hs IH] using map_ind; intros Hne; [by rewrite fmap_empty|].
  rewrite fmap_insert, !flying_insert, IH; [| |done|by rewrite lookup_fmap, Hs].
  - f_equal. specialize (Hne sid p (lookup_insert_eq _ _ _)). cbn. repeat case_decide; lia.
  - intros s q Hq. apply (Hne s). rewrite lookup_insert_ne; [done|]. congruence.
Qed.

Section delivery.
Context {R : Type} `{RngLaws R} `{EncoderLaws} `{!DecompressorLaws} `{!BrotliRoundtrip} `{SpanTxCodecs} `{SingleCodec} `{!SingleLaws}.
Variables (cfg : RollupConfig) (config : EncoderConfig) (blocks : list BaseBlock) (sbs : list SingleBatch) (lo hi : Z).
Implicit Types e : BatchEncoder R.

(** The blocks can be encoded, the frames go into blobs one by one, and the numbers of the
    L1 blocks of the run lie within a channel timeout. *)
Hypothesis Hen : encodable cfg config blocks sbs.
Hypothesis Hblob : da_type config = Blob /\ target_num_frames config <= 1 /\ max_frame_size config <= MAX_BLOB_FRAME_SIZE.
Hypothesis Hwindow : 0 <= hi <= U64_MAX /\ forall e, be_rollup_config e = cfg -> hi <= lo + confirmation_channel_timeout e.

(** The last block given to the encoder is its tip. *)
Definition tip_ok e (given : nat) : Prop :=
  match last (take given blocks) with Some b => be_tip e = bb_hash b | None => be_blocks e = [] end.

(** The encoder while its frames are sent: the frames [sent] and those left are the frames of
    the closed channels, in order. *)
Record posting e (sent : list Frame) (chs : list (list Z * list Frame)) (segs : list (list SingleBatch))
    (cur : option (list SingleBatch)) (todo : list SingleBatch) : Prop := {
  po_encoding : encoding cfg config sbs e chs segs cur todo;
  po_frames : sent ++ frames_left (be_ready_channels e) = concat chs.*2;
  po_counts i c : be_ready_channels e !! i = Some c -> (rc_confirmed_count c + flying i (be_pending e))%nat = rc_cursor c;
  po_ranges : Forall (fun c => ((rc_block_range c).2 <= be_block_cursor e)%nat /\
    forall l, rc_first_confirmed c = Some l -> lo <= l) (be_ready_channels e);
  po_head : be_l1_head e <= hi;
  po_tip : tip_ok e (length (concat segs ++ default [] cur ++ todo));
}.

Lemma frames_left_fresh n cs : Forall (fresh n) cs -> frames_left cs = concat (sendable <$> cs).*2.
Proof using Type.
  intros Hf. unfold frames_left. f_equal. rewrite <- list_fmap_compose. apply list_fmap_ext. intros i c Hc. rewrite Forall_lookup in Hf.
  destruct (Hf i c Hc) as [Hz _ _ _]. unfold channel_left. by rewrite Hz.
Qed.

(** More channels are closed. *)
Lemma posting_grows e e' cs sent chs segs cur todo segs' cur' todo' : encoder_ok e -> posting e sent chs segs cur todo ->
  grows e e' cs -> encoding cfg config sbs e' (chs ++ (sendable <$> cs)) segs' cur' todo' ->
  concat segs' ++ default [] cur' ++ todo' = concat segs ++ default [] cur ++ todo ->
  posting e' sent (chs ++ (sendable <$> cs)) segs' cur' todo'.
Proof using Type.
  intros Hok [He Hf Hc Hr Hh Ht0] [Hready Hfresh Hcur Hsame Hsubs] He' Hdone. injection Hsame as Hb Ht Hl. injection Hsubs as Hp Hn Ho.
  split; [done| | | |by rewrite Hl|unfold tip_ok; rewrite Hdone, Ht, Hb; exact Ht0].
  - by rewrite Hready, frames_left_app, (frames_left_fresh _ _ Hfresh), app_assoc, Hf, fmap_app, concat_app.
  - intros i c. rewrite Hready, Hp. intros [Hi|[Hlen Hi]]%lookup_app_Some; [by apply Hc|].
    destruct (Forall_lookup_1 _ _ _ _ Hfresh Hi) as [-> _ [-> _] _]. rewrite flying_none; [done|]. intros sid p Hs.
    destruct (ro_ref _ _ (eo_refs e Hok) sid p Hs) as (d & Hd & _). apply lookup_lt_Some in Hd. lia.
  - rewrite Hready. apply Forall_app. split.
    + eapply Forall_impl; [exact Hr|]. intros c [Hc1 Hc2]. split; [lia|done].
    + eapply Forall_impl; [exact Hfresh|]. intros c [_ _ [_ Hno] Hrange]. split; [done|]. by rewrite Hno.
Qed.

(** Blocks before the cursor are pruned. *)
Lemma encoding_prune n e e' chs segs cur todo : encoding cfg config sbs e chs segs cur todo -> (n <= be_block_cursor e)%nat ->
  prune_blocks n e = (Ok tt, e') -> encoding cfg config sbs e' chs segs cur todo.
Proof using Type.
  intros [Hcon (old & new & Hb & Hc & Hnew) Hs Hch Hcur Hids] Hn Hr. unfold prune_blocks in Hr. case_decide; [|done]. injection Hr as <-.
  split; cbn; try done. exists (drop n old), new. rewrite Hb, drop_app_le by lia. split_and!; [done| |done]. rewrite length_drop. lia.
Qed.
Lemma posting_prune n e e' sent chs segs cur todo : posting e sent chs segs cur todo -> (n <= be_block_cursor e)%nat ->
  prune_blocks n e = (Ok tt, e') -> posting e' sent chs segs cur todo.
Proof using Type.
  intros [He Hf Hc Hr Hh Ht0] Hn Hrun. pose proof (encoding_prune _ _ _ _ _ _ _ He Hn Hrun) as He'.
  unfold prune_blocks in Hrun. case_decide; [|done]. injection Hrun as <-. split; cbn in *; try done.
  - rewrite <- Hf. f_equal. unfold frames_left. by rewrite <- list_fmap_compose.
  - intros i c [d [-> Hd]]%list_lookup_fmap_Some. exact (Hc i d Hd).
  - apply Forall_fmap. eapply Forall_impl; [exact Hr|]. intros c [Hc1 Hc2]. cbn. split; [lia|done].
  - unfold tip_ok in *. destruct (last _); cbn in *; [done|]. by rewrite Ht0, drop_nil.
Qed.

(** No channel is invalidated within the window. *)
Lemma not_expired e l : be_rollup_config e = cfg -> lo <= l ->
  forall n, n <= hi -> (sat_add U64_MAX l (confirmation_channel_timeout e) <? n) = false.
Proof using Hwindow. intros Hc Hl n Hn. apply Z.ltb_ge. pose proof (proj2 Hwindow e Hc). unfold sat_add. lia. Qed.

Lemma posting_config e sent chs segs cur todo : posting e sent chs segs cur todo -> be_rollup_config e = cfg /\ be_config e = config.
Proof using Type. intros []. apply po_encoding0. Qed.

(** A fully confirmed channel leaves. *)
Lemma posting_retire i c e sent chs segs cur todo : encoder_ok e -> posting e sent chs segs cur todo ->
  be_ready_channels e !! i = Some c -> (length (rc_frames c) <= rc_confirmed_count c)%nat -> rc_pending_confirmations c = 0%nat ->
  exists e', retire_channel i c e = (Ok tt, e') /\ posting e' sent chs segs cur todo.
Proof using Type.
  intros Hok [He Hf Hc Hr Hh Ht0] Hi Hfull Hz. unfold retire_channel. erewrite bind_run by reflexivity. set (e1 := set_pending _ _).
  assert (Hne : forall sid p, be_pending e !! sid = Some p -> channel_idx p <> i).
  { apply in_flight_zero. by rewrite <- (ro_count _ _ (eo_refs e Hok) i c Hi). }
  assert (Hleft : channel_left c = []).
  { apply drop_ge. rewrite <- (Hc i c Hi), flying_none by done. lia. }
  destruct (Forall_lookup_1 _ _ _ _ Hr Hi) as [Hrange _].
  assert (Hpo : posting e1 sent chs segs cur todo).
  { split; [by destruct He; split| | | |done|exact Ht0]; cbn [e1 be_ready_channels be_pending be_block_cursor set_pending set_ready_channels].
    - rewrite <- Hf. f_equal. rewrite delete_take_drop, frames_left_app. rewrite <- (take_drop_middle _ _ _ Hi) at 3.
      rewrite frames_left_app. f_equal. unfold frames_left at 2. cbn. by rewrite Hleft.
    - intros j d Hj. rewrite flying_shift by done. case_decide.
      + rewrite list_lookup_delete_lt in Hj by done. by apply Hc.
      + rewrite list_lookup_delete_ge in Hj by lia. by apply Hc.
    - by apply Forall_delete. }
  cbv zeta. case_decide; [|by exists e1].
  destruct He as [_ (old & new & Hb & Hcur & _) _ _ _ _].
  assert (Hrun : exists e2, prune_blocks (rc_block_range c).2 e1 = (Ok tt, e2)).
  { unfold prune_blocks. rewrite decide_True; [by eexists|]. cbn. rewrite Hb, length_app. lia. }
  destruct Hrun as [e2 Hrun]. exists e2. split; [done|]. by eapply posting_prune.
Qed.

(** A confirmation leaves everything but the counts as it is. *)
Lemma posting_confirm sid l e sent chs segs cur todo : encoder_ok e -> posting e sent chs segs cur todo -> lo <= l <= hi ->
  exists e', confirm sid l e = (Ok tt, e') /\ posting e' sent chs segs cur todo.
Proof using All.
  intros Hok Hpo Hl. pose proof (posting_config _ _ _ _ _ _ Hpo) as [Hcfg _]. unfold confirm. erewrite bind_run by reflexivity. cbv beta.
  change (id e) with e. destruct (be_pending e !! sid) as [p|] eqn:Ep; [|by exists e]. erewrite bind_run by reflexivity. cbv beta zeta.
  destruct (ro_ref _ _ (eo_refs e Hok) sid p Ep) as (c & Hi & _). rewrite Hi. erewrite bind_run by reflexivity. cbv beta.
  set (ch := confirm_frames (frame_count p) l c). set (e2 := set_ready_channels _ _).
  assert (He2 : e2 = set_pending (delete sid (be_pending e)) (set_ready_channels (alter (confirm_frames (frame_count p) l) (channel_idx p) (be_ready_channels e)) e)).
  { unfold e2, ch. cbn [be_ready_channels set_pending]. by rewrite (insert_alter (confirm_frames (frame_count p) l) _ _ c Hi). }
  assert (Hok2 : encoder_ok e2) by (rewrite He2; by apply return_ok).
  destruct Hpo as [He Hf Hc Hr Hh Ht0]. destruct (Forall_lookup_1 _ _ _ _ Hr Hi) as [Hrange Hfirst].
  assert (Hfirst2 : exists f, rc_first_confirmed ch = Some f /\ lo <= f).
  { eexists. split; [reflexivity|]. destruct (rc_first_confirmed c) as [f|]; [specialize (Hfirst f eq_refl)|]; lia. }
  assert (Hpo2 : posting e2 sent chs segs cur todo).
  { rewrite He2. split; [by destruct He; split| | | |done|exact Ht0]; cbn [be_ready_channels be_pending be_block_cursor set_pending set_ready_channels].
    - rewrite <- Hf. f_equal. by apply frames_left_alter.
    - intros j d Hj. pose proof (flying_delete j _ _ _ Ep) as Hfly. destruct (decide (channel_idx p = j)) as [<-|Hne].
      + rewrite list_lookup_alter_eq, Hi in Hj. injection Hj as <-. specialize (Hc _ _ Hi). cbn in *. lia.
      + rewrite list_lookup_alter_ne in Hj by done. specialize (Hc _ _ Hj). lia.
    - apply Forall_alter; [done|]. intros d Hd [Hd1 Hd2]. split; [done|]. cbn. intros f [= <-].
      destruct (rc_first_confirmed d) as [f|]; [specialize (Hd2 f eq_refl)|]; lia. }
  assert (Hch : be_ready_channels e2 !! channel_idx p = Some ch).
  { unfold e2. cbn. apply list_lookup_insert_eq. by eapply lookup_lt_Some. }
  destruct Hfirst2 as (f & -> & Hlo). rewrite !(not_expired e f Hcfg Hlo) by (done || lia). rewrite andb_false_r. cbn [orb].
  destruct (_ && _) eqn:Ed; [|by exists e2]. apply andb_true_iff in Ed as [Hfull%Nat.leb_le Hz%Nat.eqb_eq].
  by apply posting_retire.
Qed.

(** The L1 head moves. *)
Lemma posting_advance n e sent chs segs cur todo : encoder_ok e -> posting e sent chs segs cur todo -> n <= hi ->
  exists e' chs' segs' cur', advance_l1_head n e = (Ok tt, e') /\ posting e' sent chs' segs' cur' todo /\
    concat segs' ++ default [] cur' = concat segs ++ default [] cur.
Proof using All.
  intros Hok Hpo Hn. unfold advance_l1_head. erewrite bind_run by reflexivity. cbv beta. change (id e) with e.
  destruct (_ <=? _); [by exists e, chs, segs, cur|]. erewrite bind_run by reflexivity. set (e1 := set_l1_head n e).
  assert (Hpo1 : posting e1 sent chs segs cur todo) by (destruct Hpo as [[] ? ? ? ? ?]; split; try done; by split).
  assert (Hok1 : encoder_ok e1) by (by destruct Hok; split).
  assert (exists b e2 chs' segs' cur', check_channel_timeout e1 = (Ok b, e2) /\ posting e2 sent chs' segs' cur' todo /\
    concat segs' ++ default [] cur' = concat segs ++ default [] cur) as (b & e2 & chs' & segs' & cur' & Hr & Hpo2 & Hsame).
  { unfold check_channel_timeout. erewrite bind_run by reflexivity. destruct (timed_out e1); [|by exists false, e1, chs, segs, cur].
    destruct (force_close_moves cfg config blocks sbs Hen _ _ _ _ _ (po_encoding _ _ _ _ _ _ Hpo1)) as (e2 & cs & segs' & Hr & Hg & He2 & Hs).
    unfold force_close_channel in Hr. rewrite (bind_run _ _ _ _ _ Hr). eexists true, e2, _, segs', None. split; [done|].
    split; [eapply posting_grows; try done; cbn; by rewrite Hs, <- app_assoc|]. by rewrite app_nil_r. }
  rewrite (bind_run _ _ _ _ _ Hr). exists e2, chs', segs', cur'. split; [|done]. unfold modify. do 2 f_equal.
  unfold invalidate_expired_ready_channels. destruct (list_find _ _) as [[i c]|] eqn:Ef; [|done]. exfalso.
  apply list_find_Some in Ef as (Hi & Hex & _). destruct (Forall_lookup_1 _ _ _ _ (po_ranges _ _ _ _ _ _ Hpo2) Hi) as [_ Hfirst].
  unfold expired in Hex. destruct (rc_first_confirmed c) as [f|]; [|done].
  rewrite (not_expired e2 f (proj1 (posting_config _ _ _ _ _ _ Hpo2)) (Hfirst f eq_refl)) in Hex; [done|apply Hpo2].
Qed.

(** * Encoding and sending *)

(** The budget of an iteration is enough for what a block makes. *)
Lemma encode_steps_idle n : forall e e', step_until_idle n e = (Ok tt, e') -> encode_steps n e = (Ok tt, e').
Proof using Type.
  induction n as [|n IH]; intros e e' Hr; [done|]. cbn [step_until_idle encode_steps] in *.
  apply bind_ok_inv in Hr as (r & e1 & Hs & Hr). rewrite (bind_run _ _ _ _ _ Hs). destruct r; [by apply IH..|done].
Qed.
Lemma posting_encode n e sent chs segs cur todo : encoder_ok e -> posting e sent chs segs cur todo -> (work cur todo < n)%nat ->
  exists e' chs' segs' cur', encode_steps n e = (Ok tt, e') /\ posting e' sent chs' segs' cur' [] /\
    concat segs' ++ default [] cur' = concat segs ++ default [] cur ++ todo /\ (work cur' [] <= work cur todo)%nat.
Proof using All.
  intros Hok Hpo Hn.
  destruct (steps_end cfg config blocks sbs Hen _ _ _ _ _ _ (po_encoding _ _ _ _ _ _ Hpo) (le_n _)) as (e' & cs & segs' & cur' & Hg & He' & Hs & Hw & Hr).
  exists e', (chs ++ (sendable <$> cs)), segs', cur'. split; [apply encode_steps_idle, Hr, Hn|]. split; [|done].
  eapply posting_grows; try done. by rewrite app_nil_r.
Qed.

(** The frames that are left are frames of closed channels. *)
Lemma posting_frames e sent chs segs cur todo : posting e sent chs segs cur todo ->
  Forall (fun f => frame_ok f /\ zlen (frame_encode f) <= max_frame_size config) (sent ++ frames_left (be_ready_channels e)).
Proof using Type.
  intros [[_ _ _ Hch _ _] -> _ _ _ _]. apply Forall_concat. clear -Hch. induction Hch as [|ch seg chs segs [_ _ Hsp _ Hsz] _ IH]; [constructor|].
  cbn. constructor; [|done]. apply Forall_lookup. intros i f Hf. split; [by destruct (Hsp i f Hf) as (_ & _ & _ & ?)|].
  by apply (Forall_lookup_1 _ _ _ _ Hsz Hf).
Qed.

(** The next submission is one frame for a blob; it may come back at once. *)
Lemma posting_next e e1 sub sent chs segs cur todo : encoder_ok e -> posting e sent chs segs cur todo ->
  next_submission e = (Ok (Some sub), e1) -> be_next_id e < U64_MAX ->
  (exists f, sub_frames sub = [f] /\ frame_ok f /\ zlen (frame_encode f) <= max_frame_size config) /\ sub_da_type sub = Blob /\
  posting e1 (sent ++ sub_frames sub) chs segs cur todo /\ posting (requeue (sub_id sub) e1) sent chs segs cur todo.
Proof using All.
  intros Hok Hpo Hrun Hlt. pose proof (posting_config _ _ _ _ _ _ Hpo) as [_ Hcon]. pose proof (posting_frames _ _ _ _ _ _ Hpo) as Hall.
  assert (Hc : Forall cursor_ok (be_ready_channels e)) by (eapply Forall_impl; [apply (eo_ready e Hok)|]; by intros c []).
  destruct (next_submission_run e Hc) as [[Hn Hl]|(pre & c & post & n & fs & sid & Hr & Hcount & Hn & Hl & -> & Hp & -> & Hrun')]; [congruence|].
  rewrite Hrun in Hrun'. injection Hrun' as -> ->. cbn [sub_frames sub_id sub_da_type].
  assert (Hda : effective_da_type e = Blob) by (unfold effective_da_type; rewrite Hcon; destruct Hblob as [-> _]; by rewrite andb_false_r).
  assert (Hone : n = 1%nat).
  { rewrite Hcount, Hda, Hcon. cbn. destruct Hblob as (_ & Ht & _). unfold submission_count. cbn. lia. }
  assert (Hfresh : be_pending e !! be_next_id e = None).
  { destruct (be_pending e !! be_next_id e) eqn:Ep; [|done]. pose proof (eo_ids e Hok (be_next_id e) ltac:(by eexists)). lia. }
  assert (Hfl : frames_left (be_ready_channels e) = take n (channel_left c) ++ frames_left (pre ++ advance_channel n c :: post))
    by (rewrite Hr; by apply frames_left_advance).
  destruct Hpo as [He Hf Hcnt Hrange Hh Ht0]. rewrite Hr in Hcnt, Hrange.
  assert (Hframe : exists f, take n (channel_left c) = [f]).
  { rewrite Hone. destruct (channel_left c) as [|f fs] eqn:El; [|by exists f]. apply (f_equal length) in El. unfold channel_left in El.
    rewrite length_drop in El. cbn in El. lia. }
  split_and!; [|done| |].
  - destruct Hframe as [f Hf1]. exists f. split; [done|]. rewrite Hfl, Hf1 in Hall. apply Forall_app in Hall as [_ Hall].
    by apply Forall_app in Hall as [[Hok1 _]%Forall_cons _].
  - split; [by destruct He; split| | | |done|exact Ht0]; cbn [be_ready_channels be_pending be_block_cursor set_pending set_ready_channels set_next_id].
    + by rewrite <- Hf, Hfl, <- app_assoc.
    + intros i d Hi. rewrite flying_insert by done. cbn [channel_idx frame_count]. rewrite <- alter_middle in Hi.
      destruct (decide (length pre = i)) as [<-|Hne].
      * rewrite list_lookup_alter_eq, list_lookup_middle in Hi by done. injection Hi as <-.
        specialize (Hcnt (length pre) c ltac:(by apply list_lookup_middle)). cbn in *. lia.
      * rewrite list_lookup_alter_ne in Hi by done. by apply Hcnt.
    + rewrite <- alter_middle. apply Forall_alter; [done|]. intros d _ Hd. done.
  - unfold requeue. cbn [be_pending set_pending]. rewrite lookup_insert_eq. cbn [frame_start channel_idx].
    split; [by destruct He; split| | | |done|exact Ht0]; cbn [be_ready_channels be_pending be_block_cursor set_pending set_ready_channels set_next_id];
      rewrite ?delete_insert_id, ?requeue_return by done; [by rewrite <- Hf, Hr|done|done].
Qed.

(** What is packed fits a blob. *)
Record packing (p : Packed) : Prop := {
  pa_empty : pk_ids p = [] <-> pk_frames p = [];
  pa_size : pk_payload_size p = zlen (packed (pk_frames p)) /\ pk_payload_size p <= BLOB_MAX_DATA_SIZE;
  pa_blob : pk_ids p <> [] -> pk_da_type p = Blob;
}.

Lemma packed_snoc g f : zlen (packed (g ++ [f])) = zlen (packed g) + zlen (frame_encode f).
Proof using Type.
  unfold packed. rewrite fmap_app, concat_app. cbn. rewrite app_nil_r. change (?a :: ?l ++ ?r) with ((a :: l) ++ r). apply zlen_app.
Qed.

(** The packing loop packs the next frames. *)
Lemma pack_posts ids : forall fuel e p base chs segs cur todo, tracked e (pk_ids p ++ ids) ->
  posting e (base ++ pk_frames p) chs segs cur todo -> packing p ->
  left_count e < Z.of_nat fuel -> be_next_id e + left_count e < U64_MAX ->
  exists p' e', pack_submissions fuel p e = (Ok p', e') /\ posting e' (base ++ pk_frames p') chs segs cur todo /\ packing p' /\
    (pk_ids p' = [] -> frames_left (be_ready_channels e') = []).
Proof using All.
  induction fuel as [|fuel IH]; intros e p base chs segs cur todo Ht Hpo Hpk Hf Hn;
    pose proof (zlen_nonneg (frames_left (be_ready_channels e))) as Hpos; unfold left_count in Hf, Hn; [lia|].
  cbn [pack_submissions]. destruct (next_tracked e _ Ht ltac:(lia)) as [[Hr Hl]|(sub & e1 & Hr & Ht1 & Hne & _ & Hfl & Hid & _ & _)];
    rewrite (bind_run _ _ _ _ _ Hr); [by exists p, e|].
  destruct (posting_next e e1 sub _ _ _ _ _ (tk_encoder _ _ Ht) Hpo Hr ltac:(lia)) as ((f & Hsub & Hfok & Hfsz) & Hda & Hpo1 & Hpo2).
  destruct Hpk as [Hemp [Hsz Hmax] Hbl]. destruct Hblob as (_ & _ & Hbf). pose proof (zlen_nonneg (frame_encode f)) as Hf0.
  assert (Henc : zlen (frame_encode f) = FRAME_OVERHEAD + zlen (frame_data f)) by (apply zlen_frame_encode; apply Hfok).
  assert (Hsize : sub_frame_size sub = zlen (frame_encode f)).
  { unfold sub_frame_size. rewrite Hsub. cbn [fmap list_fmap foldl]. rewrite <- Henc. apply wrap_id.
    unfold fits, MAX_BLOB_FRAME_SIZE, BLOB_MAX_DATA_SIZE, U64_MAX in *. lia. }
  assert (Hpos1 : 1 <= zlen (packed (pk_frames p))) by (unfold packed, zlen; cbn; lia).
  assert (Hadd : add64 (pk_payload_size p) (sub_frame_size sub) = pk_payload_size p + zlen (frame_encode f)).
  { rewrite Hsize. apply wrap_id. unfold fits, MAX_BLOB_FRAME_SIZE, BLOB_MAX_DATA_SIZE, U64_MAX in *. lia. }
  rewrite Hadd, Hda. destruct (bool_decide (pk_ids p <> []) && (_ >? _)) eqn:Efit.
  { apply andb_true_iff in Efit as [Hids _]. zbool. eexists p, _. split; [reflexivity|]. by split. }
  destruct (bool_decide (pk_ids p <> []) && negb _) eqn:Eda.
  { exfalso. apply andb_true_iff in Eda as [Hids Hneg]. zbool. by rewrite (Hbl Hids) in Hneg. }
  replace (if bool_decide (pk_ids p = []) then Blob else pk_da_type p) with Blob
    by (destruct (decide (pk_ids p = [])) as [Hb|Hb]; [by rewrite bool_decide_true|by rewrite bool_decide_false, Hbl]).
  cbv zeta. set (p1 := mkPacked _ _ _ _). cbn iota.
  assert (Hpk1 : packing p1).
  { split; cbn; [split; [by destruct (pk_ids p)|rewrite Hsub; by destruct (pk_frames p)]| |done].
    rewrite Hsub, packed_snoc, Hsz. split; [done|]. apply andb_false_iff in Efit as [Hnil|Hle]; zbool; [apply dec_stable in Hnil|lia].
    rewrite (proj1 Hemp Hnil) in *. change (zlen (packed [])) with 1 in *. unfold MAX_BLOB_FRAME_SIZE in Hbf. lia. }
  assert (Hl : zlen (frames_left (be_ready_channels e)) = 1 + left_count e1) by (unfold left_count; by rewrite Hfl, Hsub, zlen_app).
  apply (IH e1 p1 base); [|by cbn; rewrite app_assoc|done|lia|lia].
  cbn. rewrite <- app_assoc. cbn. by rewrite <- Permutation_middle.
Qed.

(** The candidates that carry groups of frames. *)
Definition sent_as (inbox : Z) (groups : list (list Frame)) (cands : list TxCandidate) : Prop :=
  Forall2 (fun g c => g <> [] /\ exists b, encode_packed g = Ok b /\ c = mkCandidate [] [b] (Some inbox) 0 0) groups cands.

Lemma submit_posts max : forall fuel q e groups chs segs cur todo, queue_ok max q e -> sq_txpool_blocked q = false ->
  posting e (concat groups) chs segs cur todo -> sent_as (sq_inbox q) groups (sq_sent q) -> (sq_permits q < fuel)%nat ->
  be_next_id e + left_count e + Z.of_nat (sq_permits q) < U64_MAX ->
  exists q' e' groups', submit_loop fuel (q, e) = (Ok tt, (q', e')) /\ posting e' (concat groups') chs segs cur todo /\
    sent_as (sq_inbox q) groups' (sq_sent q') /\ sq_inbox q' = sq_inbox q /\ sq_txpool_blocked q' = false /\
    (sq_permits q' = 0%nat \/ frames_left (be_ready_channels e') = []).
Proof using All.
  induction fuel as [|fuel IH]; intros q e groups chs segs cur todo [Ht Hpm] Hunb Hpo Hsent Hf Hn; [lia|]. cbn [submit_loop].
  erewrite bind_run by reflexivity. cbn [fst]. rewrite Hunb. case_decide as Hz; [exists q, e, groups; split_and!; [done..|by left]|].
  erewrite bind_run by reflexivity. erewrite bind_run by reflexivity. cbn [snd].
  destruct (pack_tracked (concat (sq_in_flight q)) (pack_fuel e) e (mkPacked [] [] 1 Blob)) as (p & e1 & Hr & Ht1 & Hp & Hb);
    [done|done|apply pack_fuel_enough|lia|].
  destruct (pack_posts (concat (sq_in_flight q)) (pack_fuel e) e (mkPacked [] [] 1 Blob) (concat groups) chs segs cur todo)
    as (p' & e1' & Hr' & Hpo1 & Hpk & Hleft); [done|by cbn; rewrite app_nil_r|by split|apply pack_fuel_enough|lia|].
  rewrite Hr in Hr'. injection Hr' as <- <-.
  rewrite (bind_run _ _ _ p (take_permit q, e1)) by (unfold on_encoder, zoom; cbn [fst snd]; by rewrite Hr).
  destruct Hpk as [Hemp [Hsz Hmax] Hbl]. case_bool_decide as Hids.
  { exists (drop_permit (take_permit q)), e1, groups. split; [reflexivity|]. rewrite (proj1 Hemp Hids), app_nil_r in Hpo1.
    split_and!; [done|done|done|done|right; by apply Hleft]. }
  pose proof (encode_packed_outcome (pk_frames p)) as Ho. rewrite decide_True in Ho by lia. destruct Ho as [b Ho].
  unfold candidate. rewrite (Hbl Hids), Ho. cbn [mbind result_bind]. erewrite bind_run by reflexivity.
  destruct (IH (push_tx (mkCandidate [] [b] (Some (sq_inbox q)) 0 0) (pk_ids p) (take_permit q)) e1 (groups ++ [pk_frames p]) chs segs cur todo)
    as (q' & e' & groups' & Hrun & Hpo' & Hs' & Hin & Hub & Hend).
  - split; cbn; [rewrite concat_app; cbn; by rewrite app_nil_r, (Permutation_app_comm _ (pk_ids p))|rewrite length_app; cbn; lia].
  - done.
  - rewrite concat_app. cbn. by rewrite app_nil_r.
  - apply Forall2_app; [done|]. constructor; [|constructor]. split; [intros Hnil; by apply Hids, Hemp|by exists b].
  - cbn. lia.
  - cbn. lia.
  - by exists q', e', groups'.
Qed.

(** * The events of a run *)

(** A block on top of the last one is added. *)
Lemma posting_add b sb e sent chs segs cur todo : linked blocks -> posting e sent chs segs cur todo ->
  blocks !! length (concat segs ++ default [] cur ++ todo) = Some b -> sbs !! length (concat segs ++ default [] cur ++ todo) = Some sb ->
  exists e', add_block b e = (Ok tt, e') /\ posting e' sent chs segs cur (todo ++ [sb]).
Proof using All.
  intros Hlink [He Hf Hc Hr Hh Ht] Hb Hsb. set (k := length (concat segs ++ default [] cur ++ todo)) in *.
  assert (Hadd : add_block b e = (Ok tt, set_blocks (be_blocks e ++ [b]) (set_tip (bb_hash b) e))).
  { unfold add_block. destruct (bool_decide (be_blocks e <> [])) eqn:Ene; [|done]. zbool. unfold tip_ok in Ht.
    destruct (last (take k blocks)) as [a|] eqn:El; [|done]. rewrite Ht, (Hlink (k - 1)%nat a b); [by rewrite Z.eqb_refl| |].
    - rewrite last_lookup, lookup_take_Some in El. destruct El as [El Hlt]. rewrite <- El. f_equal. apply lookup_lt_Some in Hb.
      rewrite length_take. lia.
    - destruct k; [done|]. rewrite <- Hb. f_equal. lia. }
  eexists. split; [exact Hadd|]. destruct He as [Hcon (old & new & Hbl & Hcur & Hnew) [rest Hs] Hch Hop Hids].
  split; cbn [be_ready_channels be_pending be_block_cursor be_l1_head set_blocks set_tip]; try done.
  - split; cbn; try done.
    + exists old, (new ++ [b]). rewrite Hbl, <- app_assoc. split_and!; [done..|]. apply Forall2_app; [done|]. constructor; [|constructor].
      by apply (Forall2_lookup_lr _ _ _ _ _ _ (en_blocks _ _ _ _ Hen) Hb Hsb).
    + rewrite !app_assoc in Hs. rewrite <- (app_assoc (concat segs)) in Hs. rewrite Hs, lookup_app_r in Hsb by done.
      fold k in Hsb. rewrite Nat.sub_diag in Hsb. destruct rest as [|sb' rest]; [done|]. injection Hsb as ->. exists rest.
      rewrite Hs. by rewrite <- !app_assoc.
  - unfold tip_ok. rewrite !length_app. cbn [length]. replace (length (concat segs) + (length (default [] cur) + (length todo + 1)))%nat with (S k)
      by (unfold k; rewrite !length_app; lia). by rewrite (take_S_r _ _ _ Hb), last_snoc.
Qed.

Lemma posting_confirms ids l : forall e rest sent chs segs cur todo, tracked e (ids ++ rest) -> posting e sent chs segs cur todo -> lo <= l <= hi ->
  exists e', for_each ids (fun id => confirm id l) e = (Ok tt, e') /\ encoder_ok e' /\ posting e' sent chs segs cur todo.
Proof using All.
  induction ids as [|sid ids IH]; intros e rest sent chs segs cur todo Ht Hpo Hl; cbn [for_each]; [exists e; split_and!; [done|apply Ht|done]|].
  destruct (posting_confirm sid l e _ _ _ _ _ (tk_encoder _ _ Ht) Hpo Hl) as (e1 & Hr & Hpo1).
  destruct (confirm_run sid l e (tk_encoder _ _ Ht)) as (e1' & Hr' & He1 & Hk & Hs). rewrite Hr in Hr'. injection Hr' as <-.
  rewrite (bind_run _ _ _ _ _ Hr). eapply (IH e1 rest); [by eapply tracked_settle|done|done].
Qed.

(** The wakes of a run in which transactions land: no reorg, no pause, no failed
    transaction, L1 blocks within the window. Blocks come on their own. *)
Definition calm (w : Wake) : Prop :=
  match w with
  | Cancelled | WatchSent _ | WatchChanged | WatchClosed | FromL1 (Err _) => True
  | FromL1 (Ok n) => n <= hi
  | Settled _ (Ok (Some l)) => lo <= l <= hi
  | FromSource (Ok SourceFlush) | FromSource (Err Exhausted) => True
  | Admin Pause | Admin Resume => False
  | Admin _ => True
  | _ => False
  end.

(** The runs: [n] blocks have been given to the driver. *)
Inductive feeds (d0 : BatchDriver R) : Phase -> BatchDriver R -> nat -> Prop :=
| feed_start : feeds d0 (Top false) d0 0
| feed_iterate env d d' n : feeds d0 (Top false) d n -> ids_remain d -> iterate env false d = (Ok Waiting, d') -> feeds d0 Waiting d' n
| feed_block env b d ph d' n :
    feeds d0 Waiting d n -> blocks !! n = Some b -> wake env (FromSource (Ok (NewBlock b))) d = (Ok ph, d') -> feeds d0 ph d' (S n)
| feed_wake env w d ph d' n : feeds d0 Waiting d n -> calm w -> wake env w d = (Ok ph, d') -> feeds d0 ph d' n.

Lemma feeds_reachable d0 ph d n : feeds d0 ph d n -> reachable d0 ph d.
Proof using Type.
  induction 1; [apply reach_start|by eapply reach_iterate|by eapply reach_wake|by eapply reach_wake].
Qed.

(** The driver in such a run: everything given is encoded when it waits, and in
    closed channels when it drains. *)
Definition phase_todo (ph : Phase) (cur : option (list SingleBatch)) (todo : list SingleBatch) : Prop :=
  match ph with
  | Top false => (length todo <= 1)%nat
  | Top true => todo = [] /\ cur = None
  | Waiting => todo = []
  | Done => True
  end.
Definition feeding (ph : Phase) (d : BatchDriver R) (n : nat) : Prop :=
  bd_stopped d = false /\ sq_txpool_blocked (bd_submissions d) = false /\
  exists groups chs segs cur todo, posting (bd_pipeline d) (concat groups) chs segs cur todo /\
    sent_as (sq_inbox (bd_submissions d)) groups (sq_sent (bd_submissions d)) /\
    length (concat segs ++ default [] cur ++ todo) = n /\ phase_todo ph cur todo.

#[local] Opaque STEP_BUDGET.
Lemma step_budget : STEP_BUDGET = 128%nat.
Proof using Type. done. Qed.

Lemma pipeline_call_run {A} (m : stm (BatchEncoder R) (fault StepError) A) d a e' :
  m (bd_pipeline d) = (Ok a, e') -> pipeline_call m d = (Ok a, set_pipeline e' d).
Proof using Type. intros Hr. unfold pipeline_call. by rewrite Hr. Qed.

(** The first part of an iteration sends all it has permits for. *)
Lemma cpu_feeds max env ph d n : driver_ok max d -> ids_remain d -> feeding ph d n -> (ph = Top false \/ ph = Top true) ->
  exists d', cpu_phase env d = (Ok tt, d') /\ bd_stopped d' = false /\ sq_txpool_blocked (bd_submissions d') = false /\
    sq_inbox (bd_submissions d') = sq_inbox (bd_submissions d) /\
    exists groups chs segs cur, posting (bd_pipeline d') (concat groups) chs segs cur [] /\
      sent_as (sq_inbox (bd_submissions d')) groups (sq_sent (bd_submissions d')) /\
      length (concat segs ++ default [] cur) = n /\ (ph = Top true -> cur = None) /\
      (sq_permits (bd_submissions d') = 0%nat \/ frames_left (be_ready_channels (bd_pipeline d')) = []).
Proof using All.
  intros Hd Hids (Hst & Hub & groups & chs & segs & cur & todo & Hpo & Hsent & Hn & Hph) Htop.
  destruct (posting_encode STEP_BUDGET (bd_pipeline d) _ _ _ _ _ (tk_encoder _ _ (qo_tracked _ _ _ (do_queue _ _ Hd))) Hpo)
    as (e1 & chs1 & segs1 & cur1 & Hr1 & Hpo1 & Hs1 & Hw1).
  { rewrite step_budget. unfold work. destruct Htop as [-> | ->]; cbn in Hph; [destruct cur; lia|destruct Hph as [-> ->]; cbn; lia]. }
  pose proof (encode_steps_ok STEP_BUDGET _ (tk_encoder _ _ (qo_tracked _ _ _ (do_queue _ _ Hd)))) as Hq.
  pose proof (pipeline_call_ok max _ d Hd Hq) as Hd1. unfold ends in Hd1. rewrite (pipeline_call_run _ _ _ _ Hr1) in Hd1. destruct Hd1 as [_ Hd1].
  unfold cpu_phase, drain_encoding. rewrite (bind_run _ _ _ _ _ (pipeline_call_run _ _ _ _ Hr1)).
  erewrite bind_run by reflexivity. erewrite bind_run by reflexivity. unfold ids_remain in Hids. rewrite Hr1 in Hids. cbn [snd] in Hids.
  set (d1 := set_pipeline e1 d) in *. set (d2 := set_submissions _ _).
  assert (Hd2 : exists e2, bd_pipeline d2 = e2 /\ encoder_ok e2 /\ kept e1 e2 /\ posting e2 (concat groups) chs1 segs1 cur1 [] /\
    be_next_id e2 + left_count e2 = be_next_id e1 + left_count e1 /\ bd_submissions d2 = bd_submissions d /\ bd_stopped d2 = false).
  { unfold d2, apply_throttle. destruct (throttle_apply _ _ _) as [active th].
    assert (Hrec : recover_txpool (env_cancel_ok env) (bd_submissions d) = bd_submissions d) by (unfold recover_txpool; by rewrite Hub).
    pose proof (tk_encoder _ _ (qo_tracked _ _ _ (do_queue _ _ Hd1))) as He1.
    destruct (override_ok active e1 He1) as [Ho Hk]. cbn. destruct (bd_force_blobs d); cbn; rewrite Hrec; eexists; (split; [done|]).
    - split_and!; [done|exact Hk| |done|done|done]. by destruct Hpo1 as [[] ? ? ? ? ?]; split; try done; split.
    - by split_and!. }
  clearbody d2. destruct Hd2 as (e2 & <- & He2 & Hk2 & Hpo2 & Hb2 & Hs2 & Hst2).
  assert (Hq2 : queue_ok max (bd_submissions d2) (bd_pipeline d2)).
  { rewrite Hs2. destruct Hd1 as [[Ht Hm] _]. split; [|done]. by eapply tracked_kept. }
  destruct (submit_posts max (S (sq_permits (bd_submissions d2))) (bd_submissions d2) (bd_pipeline d2) groups chs1 segs1 cur1 [] Hq2)
    as (q3 & e3 & groups' & Hr3 & Hpo3 & Hs3 & Hin & Hub3 & Hend); [by rewrite Hs2|done|by rewrite Hs2|lia|rewrite Hs2; lia|].
  eexists. split; [unfold queue_call, submit_pending; cbn [fst]; by rewrite Hr3|]. cbn. rewrite Hin, Hs2.
  split_and!; [done|done|done|]. exists groups', chs1, segs1, cur1. split_and!; [done|by rewrite <- Hs2| | |done].
  - by rewrite Hs1.
  - intros ->. cbn in Hph. destruct Hph as [-> ->]. unfold work in Hw1. cbn in Hw1. destruct cur1; [lia|done].
Qed.

Lemma feeding_pipeline ph ph' d n e' chs' segs' cur' todo' groups : bd_stopped d = false -> sq_txpool_blocked (bd_submissions d) = false ->
  sent_as (sq_inbox (bd_submissions d)) groups (sq_sent (bd_submissions d)) -> posting e' (concat groups) chs' segs' cur' todo' ->
  length (concat segs' ++ default [] cur' ++ todo') = n -> phase_todo ph' cur' todo' -> ph = ph' -> feeding ph (set_pipeline e' d) n.
Proof using Type. intros Hst Hub Hs Hpo Hn Hph ->. split_and!; [done|done|]. by exists groups, chs', segs', cur', todo'. Qed.

(** Closing the channel on a flush or at the end. *)
Lemma close_feeds max d n : driver_ok max d -> feeding Waiting d n ->
  exists e', force_close_channel (bd_pipeline d) = (Ok tt, e') /\ forall draining, feeding (Top draining) (set_pipeline e' d) n.
Proof using All.
  intros Hd (Hst & Hub & groups & chs & segs & cur & todo & Hpo & Hs & Hn & ->).
  destruct (force_close_moves cfg config blocks sbs Hen _ _ _ _ _ (po_encoding _ _ _ _ _ _ Hpo)) as (e' & cs & segs' & Hr & Hg & He' & Hsegs).
  exists e'. split; [done|]. intros draining. rewrite !app_nil_r in Hn.
  eapply (feeding_pipeline _ (Top draining) _ _ _ _ segs' None []); [done|done|done| | | |done].
  - eapply posting_grows; [apply Hd|done|done|done|]. cbn. by rewrite Hsegs, !app_nil_r.
  - cbn. by rewrite app_nil_r, Hsegs.
  - by destruct draining; cbn; [|lia].
Qed.

Lemma prune_feeds m d n : feeding Waiting d n ->
  exists e', prune_safe m (bd_pipeline d) = (Ok tt, e') /\ feeding (Top false) (set_pipeline e' d) n.
Proof using All.
  intros (Hst & Hub & groups & chs & segs & cur & todo & Hpo & Hs & Hn & ->). set (e := bd_pipeline d) in *.
  enough (exists e', prune_safe m e = (Ok tt, e') /\ posting e' (concat groups) chs segs cur []) as (e' & Hr & Hpo').
  { exists e'. split; [done|]. eapply (feeding_pipeline _ (Top false)); [done|done|done|done|done|cbn; lia|done]. }
  unfold prune_safe. erewrite bind_run by reflexivity. cbv beta zeta. change (id e) with e. case_decide as Hz; [by exists e|].
  set (k := safe_prefix _ _) in *. destruct (po_encoding _ _ _ _ _ _ Hpo) as [_ (old & new & Hb & Hc & _) _ _ _ _].
  assert (Hk : (k <= be_block_cursor e)%nat).
  { pose proof (safe_prefix_le m (take (be_block_cursor e) (be_blocks e))) as Hle. rewrite length_take in Hle. unfold k. lia. }
  assert (Hrun : exists e', prune_blocks k e = (Ok tt, e')).
  { unfold prune_blocks. rewrite decide_True; [by eexists|]. rewrite Hb, length_app. lia. }
  destruct Hrun as [e' Hrun]. exists e'. split; [done|]. by eapply posting_prune.
Qed.

Lemma advance_feeds m e groups chs segs cur : encoder_ok e -> posting e (concat groups) chs segs cur [] -> m <= hi ->
  exists e' chs' segs' cur', advance_l1_head m e = (Ok tt, e') /\ posting e' (concat groups) chs' segs' cur' [] /\
    length (concat segs' ++ default [] cur' ++ []) = length (concat segs ++ default [] cur ++ []).
Proof using All.
  intros He Hpo Hm. destruct (posting_advance m e _ _ _ _ _ He Hpo Hm) as (e' & chs' & segs' & cur' & Hr & Hpo' & Hs).
  exists e', chs', segs', cur'. rewrite !app_nil_r. by rewrite Hs.
Qed.

(** An event that is no receipt and no block. *)
Lemma event_feeds max env ev d n draining d' : driver_ok max d -> feeding Waiting d n ->
  match ev with Shutdown | EvFlush | EvSafeHead _ | EvL1SourceClosed => True | EvL1Head m => m <= hi | _ => False end ->
  handle_event env ev d = (Ok draining, d') -> feeding (Top draining) d' n /\ sq_inbox (bd_submissions d') = sq_inbox (bd_submissions d).
Proof using All.
  intros Hd Hfe Hev Hr. destruct (close_feeds max d n Hd Hfe) as (ec & Hrc & Hc). pose proof (pipeline_call_run _ d _ _ Hrc) as Hrc'.
  destruct ev; try done; cbn [handle_event] in Hr.
  - rewrite (bind_run _ _ _ _ _ Hrc') in Hr. injection Hr as <- <-. by split.
  - rewrite (bind_run _ _ _ _ _ Hrc') in Hr. injection Hr as <- <-. by split.
  - destruct Hfe as (Hst & Hub & groups & chs & segs & cur & todo & Hpo & Hs & Hn & Htodo). cbn in Htodo. subst todo.
    destruct (advance_feeds n0 (bd_pipeline d) groups chs segs cur (tk_encoder _ _ (qo_tracked _ _ _ (do_queue _ _ Hd))) Hpo Hev)
      as (e' & chs' & segs' & cur' & Hra & Hpo' & Hlen).
    rewrite (bind_run _ _ _ _ _ (pipeline_call_run _ d _ _ Hra)) in Hr. injection Hr as <- <-. split; [|done].
    eapply (feeding_pipeline _ (Top false)); [done|done|done|done|by rewrite Hlen|cbn; lia|done].
  - destruct (prune_feeds n0 d n Hfe) as (e' & Hrp & Hf'). rewrite (bind_run _ _ _ _ _ (pipeline_call_run _ d _ _ Hrp)) in Hr.
    injection Hr as <- <-. by split.
  - injection Hr as <- <-. split; [|done]. destruct Hfe as (Hst & Hub & groups & chs & segs & cur & todo & Hpo & Hs & Hn & ->).
    split_and!; [done|done|]. exists groups, chs, segs, cur, []. split_and!; [done..|cbn; lia].
Qed.

(** A receipt. *)
Lemma receipt_feeds max env i l d n ph d' : driver_ok max d -> feeding Waiting d n -> lo <= l <= hi ->
  wake env (Settled i (Ok (Some l))) d = (Ok ph, d') -> feeding ph d' n /\ sq_inbox (bd_submissions d') = sq_inbox (bd_submissions d).
Proof using All.
  intros Hd Hfe Hl Hr. unfold wake in Hr. destruct (sq_in_flight (bd_submissions d) !! i) as [ids|] eqn:Ei; cycle 1.
  { rewrite (bind_run _ _ _ None d) in Hr; [by injection Hr as <- <-|]. unfold on_wake. erewrite bind_run by reflexivity. cbv beta.
    change (id d) with d. by rewrite Ei. }
  rewrite (bind_run _ _ _ (Some (EvReceipt ids (Confirmed l))) (set_submissions (settle_tx i (bd_submissions d)) d)) in Hr; cycle 1.
  { unfold on_wake. erewrite bind_run by reflexivity. cbv beta. change (id d) with d. by rewrite Ei. }
  destruct Hd as [[Ht Hm] Hth]. destruct (settle_perm i _ _ Ei) as [Hp _]. rewrite Hp in Ht.
  destruct Hfe as (Hst & Hub & groups & chs & segs & cur & todo & Hpo & Hs & Hn & ->).
  destruct (posting_confirms ids l _ _ _ _ _ _ _ Ht Hpo Hl) as (e1 & Hr1 & He1 & Hpo1).
  destruct (advance_feeds l e1 groups chs segs cur He1 Hpo1 ltac:(lia)) as (e2 & chs' & segs' & cur' & Hr2 & Hpo2 & Hlen).
  assert (Hca : confirm_all ids l (bd_pipeline d) = (Ok tt, e2)) by (unfold confirm_all; by rewrite (bind_run _ _ _ _ _ Hr1)).
  cbn [handle_event handle_outcome] in Hr. unfold queue_call, on_encoder, zoom, mbind, stm_bind in Hr. cbn [fst snd] in Hr.
  change (bd_pipeline (set_submissions (settle_tx i (bd_submissions d)) d)) with (bd_pipeline d) in Hr. rewrite Hca in Hr.
  injection Hr as <- <-. split; [|done]. split_and!; [done|done|]. exists groups, chs', segs', cur', []. split_and!; [done|done|by rewrite Hlen|cbn; lia].
Qed.

Lemma feeding_ext ph d d' n : bd_pipeline d' = bd_pipeline d -> bd_submissions d' = bd_submissions d -> bd_stopped d' = bd_stopped d ->
  feeding ph d n -> feeding ph d' n.
Proof using Type. unfold feeding. by intros -> -> ->. Qed.

Lemma wake_event env w ev d ph d' : on_wake env w d = (Ok (Some ev), d) -> wake env w d = (Ok ph, d') ->
  exists draining, handle_event env ev d = (Ok draining, d') /\ ph = Top draining.
Proof using Type.
  unfold wake. intros Ho Hr. rewrite (bind_run _ _ _ _ _ Ho) in Hr. apply bind_ok_inv in Hr as (b & d1 & Hh & Hr). injection Hr as <- <-. by exists b.
Qed.
Lemma wake_none env w d d1 ph d' : on_wake env w d = (Ok None, d1) -> wake env w d = (Ok ph, d') -> ph = Waiting /\ d' = d1.
Proof using Type. unfold wake. intros Ho Hr. rewrite (bind_run _ _ _ _ _ Ho) in Hr. by injection Hr as <- <-. Qed.

Lemma calm_feeds max env w d n ph d' : driver_ok max d -> feeding Waiting d n -> calm w -> wake env w d = (Ok ph, d') ->
  feeding ph d' n /\ sq_inbox (bd_submissions d') = sq_inbox (bd_submissions d).
Proof using All.
  intros Hd Hfe Hw Hr. pose proof Hfe as (Hst & _).
  assert (Hev : forall ev, on_wake env w d = (Ok (Some ev), d) ->
    match ev with Shutdown | EvFlush | EvSafeHead _ | EvL1SourceClosed => True | EvL1Head m => m <= hi | _ => False end ->
    feeding ph d' n /\ sq_inbox (bd_submissions d') = sq_inbox (bd_submissions d)).
  { intros ev Ho Hok. destruct (wake_event _ _ _ _ _ _ Ho Hr) as (b & Hh & ->). by eapply event_feeds. }
  assert (Hno : forall d1, on_wake env w d = (Ok None, d1) -> bd_pipeline d1 = bd_pipeline d -> bd_submissions d1 = bd_submissions d ->
    bd_stopped d1 = bd_stopped d -> feeding ph d' n /\ sq_inbox (bd_submissions d') = sq_inbox (bd_submissions d)).
  { intros d1 Ho Hp Hs Hst1. destruct (wake_none _ _ _ _ _ _ Ho Hr) as [-> ->]. rewrite Hs. split; [|done]. by eapply feeding_ext. }
  destruct w as [|cmd|[[b|head|]|[| |]]|i r|r|m| |]; try done.
  - by apply (Hev Shutdown).
  - destruct cmd; try done; [by apply (Hev EvFlush)|by eapply Hno..].
  - apply (Hev EvFlush); [|done]. unfold on_wake. erewrite bind_run by reflexivity. cbv beta. change (id d) with d. by rewrite Hst.
  - by apply (Hev Shutdown).
  - destruct r as [[l|]|]; try done. by eapply receipt_feeds.
  - destruct (bd_l1_source_open d) eqn:El; cycle 1.
    { apply (Hno d); [|done..]. unfold on_wake. erewrite bind_run by reflexivity. cbv beta. change (id d) with d. by rewrite El. }
    assert (Ho : on_wake env (FromL1 r) d = (Ok (match r with Ok n => Some (EvL1Head n) | Err Exhausted | Err SourceClosed => Some EvL1SourceClosed
      | Err Provider => None end), d)).
    { unfold on_wake. erewrite bind_run by reflexivity. cbv beta. change (id d) with d. by rewrite El. }
    destruct r as [m|[| |]]; [by apply (Hev (EvL1Head m))|by apply (Hev EvL1SourceClosed)|by apply (Hno d)|by apply (Hev EvL1SourceClosed)].
  - by eapply Hno.
  - destruct (bd_safe_head d) as [m|] eqn:Es.
    + apply (Hev (EvSafeHead m)); [|done]. unfold on_wake. erewrite bind_run by reflexivity. cbv beta. change (id d) with d. by rewrite Es.
    + apply (Hno d); [|done..]. unfold on_wake. erewrite bind_run by reflexivity. cbv beta. change (id d) with d. by rewrite Es.
  - by eapply Hno.
Qed.

(** A block. *)
Lemma block_feeds env b d n ph d' : linked blocks -> feeding Waiting d n -> blocks !! n = Some b ->
  wake env (FromSource (Ok (NewBlock b))) d = (Ok ph, d') ->
  feeding ph d' (S n) /\ sq_inbox (bd_submissions d') = sq_inbox (bd_submissions d).
Proof using All.
  intros Hlink (Hst & Hub & groups & chs & segs & cur & todo & Hpo & Hs & Hn & ->) Hb Hr.
  destruct (wake_event env (FromSource (Ok (NewBlock b))) (EvBlock b) d ph d') as (dr & Hh & ->); [|done|].
  { unfold on_wake. erewrite bind_run by reflexivity. cbv beta. change (id d) with d. by rewrite Hst. }
  destruct (Forall2_lookup_l _ _ _ _ _ (en_blocks _ _ _ _ Hen) Hb) as (sb & Hsb & _). rewrite <- Hn in Hb, Hsb.
  destruct (posting_add b sb _ _ _ _ _ _ Hlink Hpo Hb Hsb) as (e' & Hadd & Hpo'). cbn [handle_event] in Hh.
  erewrite bind_run in Hh by reflexivity. unfold on_block in Hh. rewrite Hadd in Hh. injection Hh as <- <-. split; [|done].
  eapply (feeding_pipeline _ (Top false)); [done|done|done|done| |cbn; lia|done].
  rewrite <- Hn, !length_app. cbn. lia.
Qed.

Lemma feeds_feeding max d0 ph d n : linked blocks -> driver_ok max d0 -> feeding (Top false) d0 0 -> feeds d0 ph d n ->
  feeding ph d n /\ sq_inbox (bd_submissions d) = sq_inbox (bd_submissions d0).
Proof using All.
  intros Hlink H0d H0f Hfs.
  assert (Hreach : forall ph d n, feeds d0 ph d n -> phase_ok max ph d) by (intros; by eapply reachable_ok, feeds_reachable).
  induction Hfs as [|env d d' n Hf [IH Hin] Hids Hr|env b d ph d' n Hf [IH Hin] Hb Hr|env w d ph d' n Hf [IH Hin] Hw Hr]; [done| | |].
  - destruct (cpu_feeds max env (Top false) d n (Hreach _ _ _ Hf) Hids IH ltac:(by left))
      as (d1 & Hcpu & Hst & Hub & Hin1 & groups & chs & segs & cur & Hpo & Hs & Hn & _ & _).
    unfold iterate in Hr. rewrite (bind_run _ _ _ _ _ Hcpu) in Hr. injection Hr as <-. split; [|by rewrite Hin1].
    split_and!; [done|done|]. exists groups, chs, segs, cur, []. split_and!; [done|done|by rewrite app_nil_r|done].
  - rewrite <- Hin. by eapply block_feeds.
  - rewrite <- Hin. eapply calm_feeds; [exact (Hreach _ _ _ Hf)|done|done|done].
Qed.
End delivery.

(** * Through L1 *)

(** The node at an L1 block with the blobs of the transactions a batcher sent, in order. *)
Record posted_candidates {C B} `{ChainProvider C, BlobProvider B} (cfg : RollupConfig) (b : BlockInfo) (tr : PollingTraversal C)
    (src : EthereumDataSource C B) (cands : list TxCandidate) : Prop := {
  pc_block : tr_block tr = Some b /\ tr_done tr = false;
  pc_forks : is_holocene_active cfg (timestamp b) = true /\ no_overflow cfg b /\
    exists e, ecotone_timestamp src = Some e /\ e <= timestamp b;
  pc_blobs : exists txs, is_open (blob_source src) = false /\
    answers b (batcher_address (system_config tr)) (blob_source src) txs (concat (tx_blobs <$> cands)) /\
    blobs_only (inbox_address (blob_source src)) (batcher_address (system_config tr)) txs /\
    length (extract_blob_data (inbox_address (blob_source src)) txs (batcher_address (system_config tr))).2 =
      length (concat (tx_blobs <$> cands));
}.

Lemma posted_of_candidates {C B} `{ChainProvider C, BlobProvider B} cfg b (tr : PollingTraversal C) (src : EthereumDataSource C B) inbox groups cands :
  sent_as inbox groups cands -> posted_candidates cfg b tr src cands -> posted_frames cfg b tr src (concat groups) groups.
Proof.
  intros Hs [Hb Hf (txs & Ho & Ha & Hbo & Hl)].
  assert (Hblobs : Forall2 (fun g bl => encode_packed g = Ok bl) groups (concat (tx_blobs <$> cands)) /\ Forall (fun g => g <> []) groups).
  { clear -Hs. induction Hs as [|g c groups cands (Hne & bl & He & ->) _ [IH1 IH2]]; cbn; [by split; constructor|].
    by split; constructor. }
  destruct Hblobs as [Hblobs Hne]. split; [done|done|done|]. by exists txs, (concat (tx_blobs <$> cands)).
Qed.

Section through.
Context {R C B : Type} `{RngLaws R} `{ChainProvider C, BlobProvider B, SolWords}.
Context `{EncoderLaws} `{!DecompressorLaws} `{!BrotliRoundtrip} `{SpanTxCodecs} `{SingleCodec} `{!SingleLaws}.

Lemma fresh_feeding cfg config blocks sbs lo hi (rng : R) dconfig controller safe_head : 0 <= hi -> rng_good rng ->
  feeding cfg config blocks sbs lo hi (Top false) (new_driver (new_encoder cfg config rng) dconfig (new_throttle controller) safe_head false) 0.
Proof.
  intros Hhi Hg. split_and!; [done|done|]. exists [], [], [], None, []. split_and!; [|constructor|done|cbn; lia].
  split; [|done..|done|by apply Forall_nil|done|done].
  split; [done|by exists [], []; split_and!; [..|constructor]|by exists sbs|constructor|done|]. cbn. split_and!; [done|constructor|done].
Qed.

(** C10: the batcher delivers what it is fed in a run in which its transactions land. A fresh driver
    that posts blobs in single mode with one frame per submission is given linked and composable L2
    blocks in order. Between them come flushes, admin commands other than pause and resume, safe
    heads, L1 heads, and confirmations whose L1 blocks lie in a window no longer than the channel
    timeout; there is no failed transaction, no receipt without a block number and no reorg (with
    them blocks can be lost, see [LostBlocks] in [EncoderSafety]). The driver is then told to shut
    down, or its source ends. Its last round returns; every transaction it has sent goes to the
    inbox; and when that round ends with a permit to spare, the blobs of the transactions sent, in
    the order of sending, posted in an L1 block, come out of the derivation stages as exactly the
    batches of these blocks, in order. *)
Theorem driver_delivers cfg config blocks sbs lo hi (rng : R) dconfig controller safe_head d env b (tr : PollingTraversal C)
    (src : EthereumDataSource C B) :
  encodable cfg config blocks sbs -> linked blocks -> rng_good rng ->
  da_type config = Blob /\ target_num_frames config <= 1 /\ max_frame_size config <= MAX_BLOB_FRAME_SIZE ->
  0 <= hi <= U64_MAX /\ hi <= lo + confirmation_channel_timeout (new_encoder cfg config rng) ->
  feeds blocks lo hi (new_driver (new_encoder cfg config rng) dconfig (new_throttle controller) safe_head false) (Top true) d (length blocks) ->
  ids_remain d ->
  exists d', cpu_phase env d = (Ok tt, d') /\ Forall (fun c => tx_to c = Some (dc_inbox dconfig)) (sq_sent (bd_submissions d')) /\
    (sq_permits (bd_submissions d') <> 0%nat -> posted_candidates cfg b tr src (sq_sent (bd_submissions d')) ->
     exists s', delivers (fun s => origin (cr_prev s) = Some b) next_batch
       (new_channel_reader (stack cfg tr src) cfg) (Single <$> sbs) s').
Proof.
  intros Hen Hlink Hg Hblob [Hhi Hwin] Hfeeds Hids.
  assert (Hw : 0 <= hi <= U64_MAX /\ forall e : BatchEncoder R, be_rollup_config e = cfg -> hi <= lo + confirmation_channel_timeout e).
  { split; [done|]. intros e He. unfold confirmation_channel_timeout in *. rewrite He. exact Hwin. }
  set (d0 := new_driver _ _ _ _ _) in *.
  assert (Hd0 : driver_ok (max_pending_transactions dconfig) d0).
  { apply new_driver_ok; [apply Hen|]. destruct (en_frame _ _ _ _ Hen). unfold fits, FRAME_V0_OVERHEAD, MAX_LEN, U64_MAX in *. lia. }
  destruct (feeds_feeding cfg config blocks sbs lo hi Hen Hblob Hw _ d0 _ _ _ Hlink Hd0 (fresh_feeding _ _ _ _ _ _ _ _ _ _ (proj1 Hhi) Hg) Hfeeds) as [Hf Hin].
  pose proof (reachable_ok _ _ _ _ Hd0 (feeds_reachable _ _ _ _ _ _ _ Hfeeds)) as Hd.
  destruct (cpu_feeds cfg config blocks sbs lo hi Hen Hblob Hw _ env (Top true) d _ Hd Hids Hf ltac:(by right))
    as (d' & Hrun & _ & _ & Hin' & groups & chs & segs & cur & Hpo & Hs & Hn & Hcur & Hend).
  specialize (Hcur eq_refl). subst cur. cbn in Hn. rewrite app_nil_r in Hn. rewrite Hin', Hin in Hs. change (sq_inbox (bd_submissions d0)) with (dc_inbox dconfig) in Hs.
  exists d'. split; [done|]. split.
  { clear -Hs. induction Hs as [|g c groups cands (_ & bl & _ & ->) _ IH]; by constructor. }
  intros Hperm Hpc. destruct Hend as [Hz|Hleft]; [done|]. destruct Hpo as [He Hfr _ _ _ _]. rewrite Hleft, app_nil_r in Hfr.
  destruct He as [_ _ [rest Hsbs] Hch Hop Hids']. cbn in Hsbs, Hop.
  assert (Hrest : rest = []).
  { apply (f_equal length) in Hsbs. rewrite length_app, <- (Forall2_length _ _ _ (en_blocks _ _ _ _ Hen)), Hn in Hsbs. destruct rest; [done|cbn in Hsbs; lia]. }
  subst rest. rewrite app_nil_r in Hsbs.
  assert (Has : encoded_as config sbs (concat groups)).
  { exists chs, segs. unfold open_id in Hids'. destruct (be_current_channel (bd_pipeline d')); [done|]. cbn in Hids'. rewrite app_nil_r in Hids'.
    split_and!; [done|done|done|apply Hids']. }
  destruct (encoded_channels cfg config b sbs _ (proj1 (pc_forks _ _ _ _ _ Hpc)) Has) as (css & bss & Hcat & Hfit & Hap & Hbss & Hhold & _).
  rewrite <- Hbss. apply (posted_batches_at cfg b tr src css groups bss); [|done]. apply posted_of_frames; [|done|done]. rewrite <- Hcat.
  by eapply posted_of_candidates.
Qed.
End through.

Module DeliveryExample.
Import BatcherExample DeriveExample.
#[local] Existing Instance DeriveExample.brotli_laws.
#[local] Existing Instance DeriveExample.single_laws.
#[local] Existing Instance DeriveExample.counter_laws.
#[local] Existing Instance DerivationExample.chain.
#[local] Existing Instance DerivationExample.blob_server.
#[local] Existing Instance ConfigExample.words.

(** Two blocks, a flush between them, and a shutdown: a blob for either block. *)
Definition env : Env Z := mkEnv true true 0 [].
Definition dconfig : BatchDriverConfig := mkDriverConfig 5 4 true.
Definition start : BatchDriver Z := new_driver (new_encoder cfg config 7) dconfig (new_throttle noop_controller) (Some 0) false.
Definition d1 : BatchDriver Z := after env (FromSource (Ok (NewBlock (block 1)))) (turn env start).
Definition d2 : BatchDriver Z := after env (Admin AdminFlush) (turn env d1).
Definition d3 : BatchDriver Z := after env (FromSource (Ok (NewBlock (block 2)))) (turn env d2).
Definition last_state : BatchDriver Z := after env Cancelled (turn env d3).

Lemma turn_feeds d n : feeds blocks 0 50 start (Top false) d n -> ids_remain d -> (iterate env false d).1 = Ok Waiting ->
  feeds blocks 0 50 start Waiting (turn env d) n.
Proof. intros Hf Hi Hr. apply (feed_iterate _ _ _ _ env d); [done|done|]. exact (turn_run _ _ _ Hr). Qed.
Lemma after_feeds w d ph n : feeds blocks 0 50 start Waiting d n -> calm 0 50 w -> (wake env w d).1 = Ok ph ->
  feeds blocks 0 50 start ph (after env w d) n.
Proof. intros Hf Hc Hr. apply (feed_wake _ _ _ _ env w d); [done|done|]. exact (after_run _ _ _ _ Hr). Qed.
Lemma given_feeds b d ph n : feeds blocks 0 50 start Waiting d n -> blocks !! n = Some b ->
  (wake env (FromSource (Ok (NewBlock b))) d).1 = Ok ph -> feeds blocks 0 50 start ph (after env (FromSource (Ok (NewBlock b))) d) (S n).
Proof. intros Hf Hb Hr. apply (feed_block _ _ _ _ env b d); [done|done|]. exact (after_run _ _ _ _ Hr). Qed.

Lemma feeds_1 : feeds blocks 0 50 start (Top false) d1 1.
Proof.
  apply given_feeds; [apply turn_feeds|..]; [apply feed_start|..].
  - unfold ids_remain. vm_compute. reflexivity.
  - vm_compute. reflexivity.
  - reflexivity.
  - vm_compute. reflexivity.
Qed.

Lemma feeds_2 : feeds blocks 0 50 start (Top false) d2 1.
Proof.
  apply after_feeds; [apply turn_feeds; [exact feeds_1|..]|..].
  - unfold ids_remain. vm_compute. reflexivity.
  - vm_compute. reflexivity.
  - exact I.
  - vm_compute. reflexivity.
Qed.
Lemma feeds_3 : feeds blocks 0 50 start (Top false) d3 2.
Proof.
  apply given_feeds; [apply turn_feeds; [exact feeds_2|..]|..].
  - unfold ids_remain. vm_compute. reflexivity.
  - vm_compute. reflexivity.
  - reflexivity.
  - vm_compute. reflexivity.
Qed.
Lemma feeds_last : feeds blocks 0 50 start (Top true) last_state 2.
Proof.
  apply after_feeds; [apply turn_feeds; [exact feeds_3|..]|..].
  - unfold ids_remain. vm_compute. reflexivity.
  - vm_compute. reflexivity.
  - exact I.
  - vm_compute. reflexivity.
Qed.

(** An L1 block with the blobs of the transactions that were sent. *)
Definition src (cands : list TxCandidate) : EthereumDataSource unit (list (list Z)) :=
  mkEthereumDataSource (Some 0) (mkBlobSource tt (concat (tx_blobs <$> cands)) 5 [] false) (mkCalldataSource tt 5 [] false).

Lemma sent_posted cands : length (concat (tx_blobs <$> cands)) = 2%nat ->
  posted_candidates cfg default_block DerivationExample.tr (src cands) cands.
Proof.
  intros Hl. split.
  - done.
  - split_and!; [done|done|]. by exists 0.
  - exists DerivationExample.txs. rewrite Hl. split_and!; [done| |by_eval|done].
    split; [by do 2 eexists|]. right. split; [done|]. by eexists.
Qed.
Abbreviation sent := (sq_sent (bd_submissions (cpu_phase env last_state).2)).

Lemma ids_last : ids_remain last_state.
Proof. unfold ids_remain. vm_compute. reflexivity. Qed.
Lemma sent_two : length (concat (tx_blobs <$> sent)) = 2%nat.
Proof. vm_compute. reflexivity. Qed.
Lemma permits_two : sq_permits (bd_submissions (cpu_phase env last_state).2) = 2%nat.
Proof. vm_compute. reflexivity. Qed.
Lemma permits_last : sq_permits (bd_submissions (cpu_phase env last_state).2) <> 0%nat.
Proof. rewrite permits_two. discriminate. Qed.

Lemma driver_delivers_witness :
  exists s', delivers (fun s => origin (cr_prev s) = Some default_block) next_batch
    (new_channel_reader (stack cfg DerivationExample.tr (src sent)) cfg) (Single <$> batches) s'.
Proof.
  assert (Hlink : linked blocks) by (intros [|[|i]] a b [= <-] [= <-]; reflexivity).
  assert (Hg : rng_good 7) by exact I.
  assert (Hblob : da_type config = Blob /\ target_num_frames config <= 1 /\ max_frame_size config <= MAX_BLOB_FRAME_SIZE) by by_eval.
  assert (Hwin : 0 <= 50 <= U64_MAX /\ 50 <= 0 + confirmation_channel_timeout (new_encoder cfg config 7)) by by_eval.
  destruct (driver_delivers cfg config blocks batches 0 50 7 dconfig noop_controller (Some 0) last_state env default_block
    DerivationExample.tr (src sent) blocks_encodable Hlink Hg Hblob Hwin feeds_last ids_last) as (d' & Hrun & _ & Hd).
  assert (Hd' : (cpu_phase env last_state).2 = d') by exact (f_equal snd Hrun). rewrite <- Hd' in Hd.
  exact (Hd permits_last (sent_posted _ sent_two)).
Defined.
End DeliveryExample.
